(* ===== verification/_CoqProject ===== *)
-Q . S2P
Prelude.v
Text.v
Json.v
Mask.v
Sdk.v
Backoff.v
Supervisor.v
SupervisorFacts.v
SupervisorSteps.v
FakeEnv.v
SupervisorProps.v
StateFile.v
LogRing.v
DnsCache.v
Ntp.v
Handshake.v
Ipc.v
ExtPlugin.v
External.v
Update.v
Tray.v
Timestamp.v
Cli.v
Bridge.v
Executor.v
SysResolver.v
SysResolverFacts.v
SysResolverProps.v
Service.v
ServiceProps.v
TrayClient.v
Hooks.v
HooksFacts.v
HooksMerge.v
HooksProps.v
AiModule.v
AiProps.v
Pem.v
NetAddr.v
Doh.v
DohProps.v
Forwarder.v
ForwarderLife.v
ForwarderProps.v
SquawkLicense.v
Squawk.v
SquawkProps.v
VpnAuth.v
Vpn.v
VpnModule.v
VpnBackends.v
VpnProps.v
Secrets.v
SecretsProps.v
License.v
LicenseProps.v
Telemetry.v
DaemonHost.v
Listen.v
DaemonMain.v
SessionProxy.v
SessionProps.v
Obs.v
ObsProps.v
BridgeAction.v
BotClient.v
BotModule.v
BotCommands.v
DesktopService.v
BotProps.v
PluginWire.v
PluginBroker.v
PluginProc.v
PluginServe.v
PluginHostSvc.v
CliTree.v
CliRender.v
CliRun.v
CliRunProps.v
DesktopLogin.v
