(* ===== verification/Prelude.v ===== *)
(** * A verification development for the penguin endpoint agent

    [penguind] is a daemon that keeps a set of modules running on a machine.
    A supervisor loads, watches, restarts and unloads them; the set of enabled
    modules survives reboots in a state file; modules are built in or come as
    signed plugin processes; a gRPC service on a control socket, a command line
    and a tray menu drive the daemon; one module is a DNS client that can take
    over the host's resolver, with a cache and an NTP client; another keeps a
    WireGuard tunnel up; another bridges
    local scripts to a chat-bot hub; a fourth puts hooks into the settings of
    coding assistants and asks a server about every tool call; a desktop client
    runs actions the hub asks for; and the agent replaces itself from signed
    releases.  This library
    models those parts as executable functions and proves what makes each of
    them correct.  Paths below are under [src/crates/].

    ** Parts and files

    - [Prelude] (this file), [Text], [Json]: results and the [?] operator,
      fallible code over a state ([eff], [let!]), machine integers as [Z] with
      their wrap-around written out, bounded histories, strings, a stable sort,
      splitting, trimming and number parsing, JSON values; the development's
      tactics and its hint database [penguin].
    - [Mask] (mask.rs of the modules, penguin-telemetry sanitize.rs, the bridge's
      relay.rs): showing and scrubbing secrets.
    - [Sdk] (penguin-sdk: status.rs, command.rs, error.rs, module.rs, host.rs,
      convert.rs): the data types every part shares and their wire conversion.
    - [Backoff] (penguin-daemon backoff.rs): restart delays, in IEEE binary64
      built on the Standard Library's [SpecFloat].
    - [Supervisor] (penguin-daemon supervisor.rs): the record [Sup] is [Shared]
      and [Inner] together with the spawned tasks, the cancellation tokens and
      a trace of what was called and published; each method is one definition
      in a state monad.  The class [ModuleEnv] is what modules and host
      services may do, [StateStore] what the state file promises.
      [SupervisorFacts] has the effect of each operation, [SupervisorSteps] the
      step relation that interleaves requests, timers and tasks, with its
      invariants, [SupervisorProps] the theorems and concrete runs, over
      the modules of [FakeEnv].
    - [StateFile] (penguin-daemon state.rs): the enabled-set on a file system
      in which any call may fail and a crash may strike after any byte
      written.  The instance [disk_store] discharges [StateStore], so the
      supervisor's theorems hold for this implementation.
    - [LogRing] (penguin-daemon broker.rs, logring.rs): events and log lines.
    - [Service] (penguin-daemon service.rs): the gRPC calls over the supervisor,
      the broker and the log ring, each with its checks and its mapping of
      errors; [handle] is the whole service.  [ServiceProps] has the theorems.
    - [Handshake] (penguin-goplugin-host handshake.rs), [ExtPlugin]
      (penguin-extplugin manifest.rs, os_stat.rs, verify.rs), [External]
      (penguin-daemon external.rs): what a plugin must present, how it is
      verified, and how its process is launched and torn down, a launch that
      fails leaving what [Remains] says.
    - [PluginWire] (penguin-sdk plugin/ and penguin-goplugin-host adapter.rs): a
      module behind the wire, from the adapter's call to the module's answer;
      [PluginBroker] (broker.rs of both): numbered connections, with the ledger
      that is its specification; [PluginProc] (penguin-goplugin-host client.rs,
      mtls.rs, error.rs): launching, dispensing and shutting down plugin
      processes, the implementation of the interface [External] loads plugins
      by ([process_host]); [PluginServe] (penguin-sdk plugin/): a plugin starting
      up, the handshake line it prints and the gate before its initialisation,
      with the calls that pass it at any time;
      [PluginHostSvc]: the host's services in a plugin and their stand-ins,
      with the runs of all these files.
    - [Ipc] (penguin-ipc authorize.rs): who may use the control socket.
    - [Update] (penguin-update): platform names, choice of the release and of
      the asset, archive search, signature check and installation.
    - [DnsCache] (squawk-client forwarder/cache.rs), [Ntp] (squawk-client
      ntp.rs): the DNS module's answer cache and clock client.
    - [Pem], [Doh] (squawk-client pem.rs, doh.rs): certificates and keys in PEM
      files, checks of servers and names, the DNS-over-HTTPS client.  A query
      runs over a [Wire]: the clock, the requests sent and the answers, with a
      deadline; [NetAddr] has the Standard Library's address parsers.
      [DohProps] has the theorems.
    - [Forwarder] (squawk-client forwarder/mod.rs): the answer to a DNS message,
      over UDP and TCP, from the cache or the client; [ForwarderLife] its start
      and stop, in the phases between awaits, with the tasks and sockets of the
      process as state; [ForwarderProps].
    - [SquawkLicense] (squawk-client license.rs, config.rs): the licence
      validator and its cache.
    - [Squawk] (penguin-module-squawk config.rs, module.rs, commands.rs,
      metrics.rs): the DNS module over all of these and over [SysResolver]; its
      [World] has the host, the tasks, the networks and the log.
      [SquawkProps].
    - [SysResolver] (penguin-module-squawk sysresolver/): the host's DNS
      settings, with the mode of resolv.conf, on a host where any call may fail
      and the process may die after any byte; the record [PlatformBackend] is the trait of the backends.
      [SysResolverFacts] has the contract [Recoverable] that both Linux
      backends keep, [SysResolverProps] the theorems over that contract.
    - [VpnAuth], [Vpn], [VpnModule] (penguin-module-tobogganing auth.rs;
      config.rs, wireguard/mod.rs, vpn.rs; metrics.rs, module.rs, commands.rs):
      tokens, the tunnel over a backend, and the module, whose connection
      attempts, loops and stops interleave as the relation [step] says.
      [VpnBackends] (wireguard/kernel.rs, userspace.rs, tun_linux.rs): the two
      backends.  [VpnProps] states what a backend's successful calls promise
      ([TunnelPromise], which both keep), records its calls ([traced]), and has
      the theorems and runs.
    - [Secrets] (penguin-secrets, bins/penguind host_wiring.rs): the master key,
      one encrypted file per secret on the file system of [Hooks], the keyring,
      and the namespaced store each module has a view of.  [SecretsProps]
      relates the files to a map of secrets ([vault]).
    - [License] (penguin-licensing): the daemon's licence client and its cache
      file; [LicenseProps].
    - [Telemetry] (penguin-telemetry sanitize.rs, logger.rs; bins/penguind
      logging.rs): masking, a module's logger, and the layer that fills the log
      ring.
    - [DaemonHost] (penguin-daemon config.rs, host.rs): configuration, its check
      against a schema, and the services handed to a module.
    - [Listen] (penguin-ipc listen_unix.rs): binding the control socket and the
      check of every request.
    - [DaemonMain] (bins/penguind main.rs, daemon_main.rs, service/mod.rs;
      penguin-daemon lock.rs): the daemon's run from configuration to end,
      composed of the parts above.
    - [Bridge] (penguin-module-waddlebot bridge/): scopes, tokens, the relay to
      the hub, the two transports, start and stop.
    - [SessionProxy] (session_proxy.rs of the same crate): the desktop's requests
      to the hub, in the pieces between awaits, interleaved over one session,
      the redirects its client follows included; [SessionProps].
    - [Obs] (bridge/obs.rs): the connection to OBS and its callers; [ObsProps].
      [BridgeAction] (bridge_action.rs, config.rs): commands and webhooks the
      operator allowed.
    - [BotClient] (waddlebot-client): every endpoint of the hub.  [BotModule],
      [BotCommands] (config.rs, metrics.rs, module.rs, commands.rs): the module
      over all of these and its commands; [BotProps].
    - [DesktopService] (penguin-daemon supervisor.rs, service.rs): the daemon's
      two services for the desktop client, over the proxy and the actions.
    - [Executor] (penguin-desktop-core action_executor/): polling the hub,
      approval, scripts, signed binaries and responses; the relation [Policy]
      is its specification.
    - [DesktopLogin] (penguin-desktop-core lib.rs, token_store.rs, oauth.rs,
      ipc_client.rs, error.rs): signing in and out.  What a secret store promises
      is the class [SecretKeeper], which the store of [Secrets] implements
      ([store_keeper]); the daemon is the class [SessionApi], which the services
      of [DesktopService] with a hub behind them implement ([desk_api]).
    - [Hooks] (penguin-module-waddleai fsutil.rs, hooks/): hook shims in other
      programs' settings: atomic replacement of files, backups, the three
      merges, on a file system [Files] in which any call may fail and whose
      every intermediate state is recorded.  [HooksFacts] has a logic of
      triples over those states, [HooksMerge] the merges, [HooksProps] the life
      cycle of an installation, with concrete machines.
    - [AiModule] (penguin-module-waddleai cache.rs, client.rs, error.rs,
      config.rs, module.rs, commands.rs): the denylist, the server's answers,
      the module's methods and every command.  [AiProps] has the theorems,
      with a module at work and its entries in the tray.
    - [Tray] (penguin-tray-model), [TrayClient] (bins/penguin-tray snapshot.rs,
      daemon_loop.rs, label.rs): the menu, what it is built from and what its
      clicks ask of the daemon.
    - [Timestamp], [Cli] (penguin-cli-core timestamp.rs, flags.rs, dispatch.rs,
      socket.rs, verbs.rs): log timestamps and command dispatch.  [CliTree]
      (tree.rs, flags.rs): the commands the parser is given; [CliRender]
      (render.rs, json.rs, error.rs, update.rs): what is printed; [CliRun]
      (bins/pdcli cli.rs): a run from the arguments to the exit code, over
      streams that may fail, which makes printing panic, and over the class
      [DaemonApi] of the daemon's calls, which the daemon's own service
      implements ([service_daemon]), with answers that may come too late.
      [CliRunProps] has its theorems and runs.

    ** What the theorems show

    - Supervision: in every reachable state loaded modules are enabled and
      have distinct load numbers and health tokens ([supervisor_invariant]),
      and each is being watched, waiting for a restart, or out of budget
      ([supervisor_watches_every_module]).  Load, unload, restart, failure
      report, boot and shutdown are specified on every branch, failures
      included ([load_failure_undone], [load_brings_up], [load_idempotent],
      [unload_takes_down], [restart_replaces_instance],
      [report_failure_budget], [start_enabled_complete],
      [shutdown_reverse_order]); only unloading disables a module
      ([only_unload_disables]); a reboot brings back what was enabled
      ([reboot_keeps_enabled]); a module that flaps is parked
      ([flapping_is_parked]).  Two limits of the restart machine are proved
      as such: [failed_restarts_never_park] and
      [stale_restart_stops_new_instance].
      The floating-point delays equal the integer doubling they stand for
      ([delay_for_no_jitter_exact]).
    - Durability: [save_atomic]; the host's DNS survives a crash at any point of
      a change that succeeds and its contents are restored to the byte
      ([apply_survives_crash], [apply_restore_round_trip],
      [resolv_conf_round_trip]), with three defects proved by their runs:
      [restore_crash_loses_options], [failed_apply_not_undone] and
      [restored_but_owner_only].
    - Service: [version_gate], [load_unload_reports], [dispatch_end_to_end] (from
      the command line to the module and back), [tail_logs_no_gap],
      [watch_events_delivers], [list_commands_exact], and the defect
      [misnamed_plugin_hidden].
    - Trust: [verify_exactly_trusted], [load_plugin_only_verified],
      [external_stop_once], [handshake_accepts], [check_peer_policy],
      [apply_installs_only_signed], [latest_release_is_greatest],
      [asset_selected_exactly].
    - Plugins: a module behind the wire is the module itself
      ([plugin_equals_builtin]) and a call of it is made at most once
      ([plugin_call_at_most_once]); the broker keeps its ledger
      ([broker_refines_ledger]); a process is launched on a pinned certificate
      and good health, and shut down alone ([plugin_process_lifecycle]); the
      handshake line is read as it was printed ([handshake_round_trip]); a module
      is asked for nothing but its metadata before it is initialised
      ([init_before_use]).
      Defects proved: [silent_failure_is_success],
      [failed_launch_leaks_process], [loader_announces_nothing],
      [loaded_plugin_is_unhosted], [withdrawn_feature_stays_on].
    - Scripts: the bridge makes only calls within the scopes of a live token
      ([registry_refines_history], [bridge_calls_only_in_scope]), gives no
      token of the hub's shape away ([bridge_never_leaks_token]) and starts and
      stops as
      [bridge_start_outcomes] says.  Remote actions follow the policy
      ([execute_follows_policy], [script_environment]) and are answered one by
      one ([poll_loop_answers_in_turn]); signed binaries cannot run
      ([signed_binary_never_runs]).
    - Bot module: what the session proxy asks for was checked
      ([proxy_requests_checked]), a token stays with its hub
      ([tokens_stay_with_their_hub]) and a request alone runs as described
      ([forward_request_as_described]); callers of OBS get the answers to their
      own requests ([obs_replies_correlated]); actions keep to the operator's
      lists ([bridge_actions_allowlisted]) and reach them only through an open
      gate ([bridge_action_call_gated]); every command is one of four things
      ([bot_command_outcomes]); health follows the hub
      ([bot_health_tracks_hub]); a script costs one request at most
      ([bridge_spends_one_request]); [bot_stop_undoes_start].  Defects proved:
      [refresh_crosses_sessions], [redirects_leave_the_hub],
      [ipv6_loopback_refused],
      [scene_list_bypassed], [timed_out_command_still_sent],
      [failed_rotation_leaves_no_token], [minted_token_lost],
      [failed_bridge_start_counts_as_running], [desktop_session_never_ends].
    - Desktop: a sign-in that succeeds keeps what it primed
      ([login_keeps_what_it_primed]), one through a provider needs the state
      given out ([oauth_needs_a_session]), and a session is stored and loaded as
      [store_outcomes] and [load_outcomes] say.  Defects proved:
      [first_sign_in_impossible], [password_goes_to_the_old_hub],
      [logout_tells_nobody].
    - Hooks: whatever fails but the look whether a file is there, and wherever
      the machine stops, the user's own settings are in place or recorded
      ([original_always_recoverable]; that one look may lose them:
      [failed_lookup_loses_original]);
      installing and uninstalling is the identity on the disk
      ([install_uninstall_identity]), installing twice changes nothing
      ([reinstall_changes_nothing]), merging touches nothing but its own entries
      ([merge_local_and_idempotent]).  A tool call passes only when the server
      allows it ([hook_fails_closed]), the key is never shown
      ([key_never_shown]) and takes effect when set ([piped_key_takes_effect]),
      the denylist survives restarts ([denylist_sync_survives_restart]).  Three
      limits are proved as such: [broken_config_counts_as_installed],
      [tray_entries_never_work], [stale_denylist_still_denies].
    - Data: [command_spec_wire_round_trip], [report_wire_round_trip],
      [broker_delivers_in_order], [backlog_is_recent_history].
    - DNS module: [insert_then_get], [cache_bounded_while_fresh], the defect
      [cache_outgrows_maximum], [reply_decoded], [offset_accuracy],
      [query_fails_over].  Certificates load as they were encoded
      ([certificate_chain_round_trip], [extract_blocks_terminates]); a query
      asks the checked servers in turn ([query_in_turn]); a DNS message is
      answered from the cache or by one query ([one_question_answered],
      [repeated_question_cached], [tcp_answers_in_order]) with the records its
      texts present ([published_record_converted]); the forwarder listens while
      it runs, and a loop that runs beyond that was told to end or left by a
      start that failed ([forwarder_listens_iff_running]); the module gives the
      host's DNS back, by [stop] or after a crash before it by [init]
      ([module_gives_dns_back]); a licence is valid only on the server's last
      word ([licence_valid_only_on_last_word]).  Defects proved:
      [server_host_check], [failed_start_leaks_udp],
      [stop_frees_ports_when_idle], [stop_after_forward_stop],
      [health_never_retries], [license_offline_ignored].
    - VPN module: the module counts as connected exactly while the backend's last
      successful call brought the tunnel up ([tunnel_up_iff_connected]); a stop with nothing under way is final
      ([stop_is_final_when_idle]); a token is kept or renewed
      ([token_kept_or_renewed]).  Defects proved: [stop_races_connect],
      [disconnect_does_not_last], [refresh_counted_not_done],
      [failed_connect_leaks_interface], [userspace_rotate_fails],
      [full_packet_ends_tunnel].
    - Secrets and licence: a module reads its own last write, whatever others
      write and whatever fails ([module_reads_its_last_write]); a write is all
      or nothing, in files of the owner alone ([secret_write_all_or_nothing]).
      A refresh of the licence that fails changes nothing
      ([license_degrades_gracefully]) and entitlements survive a restart
      ([entitlements_survive_restart]).  Defects proved:
      [first_start_crash_locks_out], [slash_names_share_secrets],
      [keyless_tier_from_cache].
    - The daemon: a module's configuration was checked
      ([module_config_checked]), the services of two modules are disjoint
      ([hosts_are_disjoint]), the control socket is only for its group
      ([socket_only_for_the_group]), and once serving returns everything is
      stopped ([served_daemon_ends_clean]).  Defects proved:
      [listen_failure_skips_shutdown], [open_stream_blocks_shutdown], [module_logs_never_found],
      [swapped_config_unchecked], [refused_name_gets_directory],
      [listen_closes_parent].
    - Front ends: [menu_header_is_worst], [menu_offers_exactly],
      [tray_snapshot_exact], [dispatch_is_what_was_typed],
      [log_timestamp_is_calendar].  The parser's tree offers exactly what a
      dispatch can reach ([tree_offers_exactly], [positional_arity]); a run of
      the command line does only what was ordered
      ([run_does_only_what_was_ordered]), its exit code tells what is known about
      loading ([load_exit_code_truthful]) and it prints what a command replies
      ([command_prints_its_reply], [modules_columns_line_up]).  Defect proved:
      [negative_exit_is_success].

    ** Conventions, bounds and fuel

    Code outside the repository is a class whose fields are the calls made and
    whose laws are documented behaviour: JSON ([SerdeState], [MarkerCodec]),
    tokio's broadcast channel ([Broadcast]), SHA-256 and minisign ([Crypto],
    [Minisign]), plugin processes ([PluginHost]), the group database
    ([GroupResolver]), semver ([Semver]), HTTP, archives and self-replacement
    ([UpdateWorld]), clap ([Clap], [CliParser]), printed texts ([CliText],
    [HostTexts], [Tonic]), unpadded base64 ([Base64NoPad]), the libraries of
    signing in ([LoginCrates]), the hub ([Hub]), sockets ([BridgeNet]), the
    user's desktop ([Desktop]), internet addresses ([IpAddr]), the documents of
    the hooks module ([HookCodec], [AiCodec]), base64 ([Base64]), URLs
    ([UrlCrate]), certificates and the HTTP client ([TlsCrates]), DNS messages
    ([DnsNames], [DnsMessages]), the DNS module's documents ([DohCodec],
    [LicCodec], [SquawkCodec]), the ports of the host ([BindOs]), the VPN
    module's documents and keys ([AuthCodec], [VpnCodec], [WgTypes]), netlink
    ([WgApi]) and the Noise engine ([Noise]), the cipher of the secret store
    ([Aead]) and the keyring ([Keyring]), the licence's documents
    ([LicenseCodec]), YAML and JSON Schema ([ConfigCodec]), the host's service
    manager ([ServiceHost]), the documents of the bot module and its hub
    ([ProxyCrates], [ObsCrates], [ActionCodec], [HubCodec], [BotCodec],
    [Render]).  Each theorem
    over such a class has a witness with a concrete instance where it has
    hypotheses.

    Instants and wall-clock times are nanoseconds in [Z].  [load_seq] is an
    [AtomicU64] and wraps, so the theorems about load order are about runs of
    fewer than [2^64] steps.  A temporary file name is tried 100 times, as in
    the source.  [octal] prints eleven digits, enough for any [u32].  The loop
    of [resolve_dispatch] is given the nesting depth of the matches as fuel,
    which [walk_loop_spec] shows to be enough; [extract_loop] and
    [serve_frames] get one round per byte of their input, each round consuming
    some ([extract_blocks_terminates], [tcp_answers_in_order]).  Every other loop is
    structural: over the elements it walks, or, for loops that run until they
    are cancelled, over the ticks or messages they are given.  Strings are
    UTF-8 byte strings, so [String.compare] is Rust's order; case folding in
    the cache is ASCII, as in the source.

    ** What is not modelled

    Sockets, TLS, HTTP, process spawning, service installation and user
    interface shells are system calls around the code above; file modes in the
    resolver's data directory and its macOS and Windows backends are left out.
    The configuration schemas' texts, the registration of metrics and the
    forwarding of a plugin process's output carry no state of the program. *)
From stdpp Require Export base gmap strings list fin_maps pretty relations sorting.
From Stdlib Require Export Lia ZArith.

#[export] Set Warnings "-clear-no-such-hyp,-register-all".

Declare Scope penguin_scope.
Delimit Scope penguin_scope with penguin.

(** ** Results: Rust's [Result] and the [?] operator *)

Inductive result (A E : Type) : Type :=
| Ok (a : A)
| Err (e : E).
Arguments Ok {A E} a.
Arguments Err {A E} e.

Definition result_bind {A B E} (r : result A E) (k : A → result B E) : result B E :=
  match r with
  | Ok a => k a
  | Err e => Err e
  end.

(** [Result::map_err]. *)
Definition map_err {A E F} (f : E → F) (r : result A E) : result A F :=
  match r with
  | Ok a => Ok a
  | Err e => Err (f e)
  end.

(** [Option::ok_or]. *)
Definition ok_or {A E} (o : option A) (e : E) : result A E :=
  match o with
  | Some a => Ok a
  | None => Err e
  end.

Definition is_ok {A E} (r : result A E) : bool :=
  match r with Ok _ => true | Err _ => false end.

Notation "'let?' x ':=' r 'in' k" := (result_bind r (λ x, k))
  (at level 10, x name, r at level 100, k at level 200)
  : penguin_scope.
Open Scope penguin_scope.

(** ** Fallible code that changes a state *)

Definition eff (S E A : Type) : Type := S → result A E * S.

(** A result that leaves the state alone. *)
Definition pure {S E A} (r : result A E) : eff S E A := λ s, (r, s).

Definition eff_bind {S E A B} (m : eff S E A) (k : A → eff S E B) : eff S E B :=
  λ s, let '(r, s) := m s in match r with Ok a => k a s | Err e => (Err e, s) end.

Notation "'let!' x ':=' m 'in' k" := (eff_bind m (λ x, k))
  (at level 10, x name, m at level 100, k at level 200)
  : penguin_scope.

#[global] Instance result_eq_dec `{EqDecision A, EqDecision E} : EqDecision (result A E).
Proof. solve_decision. Defined.

(** ** Machine integers

    An unsigned [w]-bit integer is a [Z] in [0 <= z < 2^w]; arithmetic that
    Rust wraps ([fetch_add], [as] casts) is wrapped explicitly. *)

Definition wrap_u (w z : Z) : Z := (z mod 2 ^ w)%Z.
Definition wrap_u32 (z : Z) : Z := wrap_u 32 z.
Definition wrap_u64 (z : Z) : Z := wrap_u 64 z.

(** Two's complement reinterpretation into [-2^(w-1), 2^(w-1)). *)
Definition wrap_i (w z : Z) : Z := ((z + 2 ^ (w - 1)) mod 2 ^ w - 2 ^ (w - 1))%Z.
Definition wrap_i64 (z : Z) : Z := wrap_i 64 z.

Lemma wrap_u_small w z : (0 ≤ z < 2 ^ w → wrap_u w z = z)%Z.
Proof. intros. by apply Z.mod_small. Qed.

Lemma wrap_u_range w z : (0 ≤ w → 0 ≤ wrap_u w z < 2 ^ w)%Z.
Proof. intros. apply Z.mod_pos_bound. apply Z.pow_pos_nonneg; lia. Qed.

Lemma wrap_i_small w z : (0 < w → - 2 ^ (w - 1) ≤ z < 2 ^ (w - 1) → wrap_i w z = z)%Z.
Proof.
  intros Hw Hz. unfold wrap_i.
  assert (2 ^ w = 2 * 2 ^ (w - 1))%Z as E.
  { rewrite <- Z.pow_succ_r by lia. f_equal. lia. }
  rewrite Z.mod_small; lia.
Qed.

(** ** Bounded histories *)

(** The last [n] elements. *)
Definition keep_last {A} (n : nat) (l : list A) : list A := drop (length l - n) l.

Lemma keep_last_all {A} n (l : list A) : length l ≤ n → keep_last n l = l.
Proof. intros H. unfold keep_last. replace (length l - n) with 0 by lia. apply drop_0. Qed.

Lemma length_keep_last {A} n (l : list A) : length (keep_last n l) = n `min` length l.
Proof. unfold keep_last. rewrite length_drop. lia. Qed.

Lemma keep_last_keep_last {A} n m (l : list A) :
  keep_last n (keep_last m l) = keep_last (n `min` m) l.
Proof.
  unfold keep_last. rewrite length_drop, drop_drop.
  destruct (decide (n ≤ m)); [|destruct (decide (m ≤ length l))]; f_equal; lia.
Qed.

(** Dropping the oldest elements early does not change what is kept. *)
Lemma keep_last_snoc {A} n m (l : list A) a :
  n ≤ S m → keep_last n (keep_last m l ++ [a]) = keep_last n (l ++ [a]).
Proof.
  intros H. unfold keep_last. rewrite !length_app, length_drop. simpl.
  destruct n as [|n].
  { rewrite !drop_ge; rewrite ?length_app, ?length_drop; simpl; [done|lia..]. }
  destruct (decide (length l ≤ m)) as [?|?].
  { replace (length l - m) with 0 by lia. by rewrite drop_0, Nat.sub_0_r. }
  rewrite !drop_app_le, drop_drop by (rewrite ?length_drop; lia). do 2 f_equal. lia.
Qed.

(** ** Strings *)

Lemma string_length_app (s t : string) : String.length (s +:+ t) = String.length s + String.length t.
Proof. induction s; simpl; auto. Qed.

Lemma string_app_cons c (s t : string) : String c s +:+ t = String c (s +:+ t).
Proof. done. Qed.

Lemma string_app_nil_r (s : string) : s +:+ "" = s.
Proof. induction s as [|c s IH]; [done|]. change (String c (s +:+ "") = String c s). by rewrite IH. Qed.

Lemma string_app_assoc (s t u : string) : (s +:+ t) +:+ u = s +:+ (t +:+ u).
Proof.
  induction s as [|c s IH]; [done|].
  change (String c ((s +:+ t) +:+ u) = String c (s +:+ (t +:+ u))). by rewrite IH.
Qed.

(** ** [slice::sort_by]: a stable sort *)

Section SortBy.
  Context {A : Type} (le : A → A → bool).

Fixpoint insert_by (x : A) (l : list A) : list A :=
  match l with
  | [] => [x]
  | y :: l' => if le x y then x :: l else y :: insert_by x l'
  end.

Definition sort_by (l : list A) : list A := foldr insert_by [] l.

Lemma insert_by_permutation x l : insert_by x l ≡ₚ x :: l.
Proof.
  induction l as [|y l IH]; simpl; [done|]. destruct (le x y); [done|].
  rewrite IH. apply Permutation_swap.
Qed.

Lemma sort_by_permutation l : sort_by l ≡ₚ l.
Proof. induction l as [|x l IH]; simpl; [done|]. by rewrite insert_by_permutation, IH. Qed.

Lemma sort_by_sorted l :
  (∀ x y, le x y = true ∨ le y x = true) → Sorted (λ x y, le x y = true) (sort_by l).
Proof.
  intros Htot. induction l as [|x l IH]; simpl; [constructor|].
  fold (sort_by l). revert IH. generalize (sort_by l) as k. intros k IH.
  induction IH as [|y k Hk IHk Hy]; simpl; [by repeat constructor|].
  destruct (le x y) eqn:E; [by repeat constructor|].
  assert (le y x = true) by (destruct (Htot x y); congruence).
  constructor; [done|]. destruct k as [|z k]; simpl; [by constructor|].
  destruct (le x z); constructor; [done|]. by inversion Hy.
Qed.

(** Elements the order does not separate keep their places. *)
Lemma sort_by_stable (f : A → bool) l :
  (∀ x y, f x = true → f y = true → le x y = true) → List.filter f (sort_by l) = List.filter f l.
Proof.
  intros Hf. assert (∀ x l, List.filter f (insert_by x l) = List.filter f (x :: l)) as Hi.
  { intros x k. induction k as [|y k IH]; simpl; [done|].
    destruct (le x y) eqn:E; simpl; [done|]. rewrite IH. simpl.
    destruct (f x) eqn:Ex, (f y) eqn:Ey; [|done..].
    by rewrite (Hf x y Ex Ey) in E. }
  induction l as [|x l IH]; [done|]. simpl. rewrite Hi. simpl. by rewrite IH.
Qed.
End SortBy.

(** ** Automation *)

Create HintDb penguin.
#[export] Hint Resolve wrap_u_range : penguin.

(** Splits on the scrutinee of a [match] or [if] in the goal, closing the
    branches that contradict each other. *)
Ltac split_match :=
  match goal with
  | |- context [match ?x with _ => _ end] => destruct x eqn:?; try done
  end.

(** Case analysis down to constructor level followed by closing tactics. *)
Ltac crush :=
  repeat (intros; simplify_eq/=; destruct_and?; try done); eauto with penguin.
