(* ===== verification/Text.v ===== *)
(** * Text

    The string operations of Rust's standard library that the components use:
    splitting and joining, lines, trimming, ASCII case, parsing of [u32] and
    [i32]. *)
From S2P Require Import Prelude.

(** ** [str::split] and [u32::from_str] *)

(** The pieces of [s] between the separators [sep]; never empty. *)
Fixpoint split_on (sep : Ascii.ascii) (s : string) : list string :=
  match s with
  | EmptyString => [EmptyString]
  | String c rest =>
      if Ascii.eqb c sep then EmptyString :: split_on sep rest
      else match split_on sep rest with
           | piece :: pieces => String c piece :: pieces
           | [] => [String c EmptyString]
           end
  end.

Fixpoint join (sep : Ascii.ascii) (l : list string) : string :=
  match l with
  | [] => EmptyString
  | [s] => s
  | s :: l => s +:+ String sep (join sep l)
  end.

Fixpoint no_char (sep : Ascii.ascii) (s : string) : bool :=
  match s with
  | EmptyString => true
  | String c rest => negb (Ascii.eqb c sep) && no_char sep rest
  end.

Definition to_digit (c : Ascii.ascii) : option Z :=
  let n := Z.of_nat (Ascii.nat_of_ascii c) in
  if (48 <=? n)%Z && (n <=? 57)%Z then Some (n - 48)%Z else None.

Definition invalid_digit : string := "invalid digit found in string".
Definition pos_overflow : string := "number too large to fit in target type".

Fixpoint parse_digits (acc : Z) (s : string) : result Z string :=
  match s with
  | EmptyString => Ok acc
  | String c rest =>
      match to_digit c with
      | None => Err invalid_digit
      | Some x =>
          if (2 ^ 32 <=? acc * 10)%Z then Err pos_overflow
          else if (2 ^ 32 <=? acc * 10 + x)%Z then Err pos_overflow
          else parse_digits (acc * 10 + x) rest
      end
  end.

(** A lone sign is an invalid digit; a leading plus is skipped. *)
Definition parse_u32 (s : string) : result Z string :=
  match s with
  | EmptyString => Err "cannot parse integer from empty string"
  | String c rest =>
      if Nat.eqb (Ascii.nat_of_ascii c) 43 then
        match rest with
        | EmptyString => Err invalid_digit
        | _ => parse_digits 0 rest
        end
      else parse_digits 0 s
  end.

(** ** ASCII case folding *)

Definition ascii_lower (c : Ascii.ascii) : Ascii.ascii :=
  let n := Ascii.nat_of_ascii c in
  if (65 <=? n) && (n <=? 90) then Ascii.ascii_of_nat (n + 32) else c.

Definition ascii_upper (c : Ascii.ascii) : Ascii.ascii :=
  let n := Ascii.nat_of_ascii c in
  if (97 <=? n) && (n <=? 122) then Ascii.ascii_of_nat (n - 32) else c.

Fixpoint string_map (f : Ascii.ascii → Ascii.ascii) (s : string) : string :=
  match s with
  | EmptyString => EmptyString
  | String c s => String (f c) (string_map f s)
  end.

Definition to_ascii_lowercase : string → string := string_map ascii_lower.
Definition to_ascii_uppercase : string → string := string_map ascii_upper.

(** ** Facts *)

Lemma split_on_cons sep s : ∃ p ps, split_on sep s = p :: ps.
Proof.
  induction s as [|c s (p & ps & IH)]; simpl; [eauto|]. rewrite IH. case_match; eauto.
Qed.

Lemma split_no_char sep s : no_char sep s = true → split_on sep s = [s].
Proof.
  induction s as [|c s IH]; simpl; [done|]. intros [Hc Hs]%andb_true_iff.
  rewrite IH by done. by destruct (Ascii.eqb c sep).
Qed.

Lemma split_app sep s t : no_char sep s = true →
  split_on sep (s +:+ String sep t) = s :: split_on sep t.
Proof.
  induction s as [|c s IH].
  - intros _. simpl. by rewrite Ascii.eqb_refl.
  - change (String c s +:+ String sep t) with (String c (s +:+ String sep t)).
    cbn [no_char split_on]. intros [Hc Hs]%andb_true_iff.
    rewrite IH by done. by destruct (Ascii.eqb c sep).
Qed.

(** Splitting is the inverse of joining separator-free pieces. *)
Lemma split_join sep l : l ≠ [] → Forall (λ s, no_char sep s = true) l →
  split_on sep (join sep l) = l.
Proof.
  induction l as [|s l IH]; [done|]. intros _ Hf. apply Forall_cons in Hf as [Hs Hf].
  destruct l as [|s' l]; [by apply split_no_char|].
  change (join sep (s :: s' :: l)) with (s +:+ String sep (join sep (s' :: l))).
  rewrite split_app by done. by rewrite IH.
Qed.

Lemma join_split sep s : join sep (split_on sep s) = s.
Proof.
  induction s as [|c s IH]; simpl; [done|]. destruct (split_on_cons sep s) as (p & ps & E).
  rewrite E in IH |- *. destruct (Ascii.eqb_spec c sep) as [->|Hne].
  - simpl. by rewrite <- IH.
  - destruct ps as [|q ps]; [simpl in *; by rewrite IH|].
    change (String c (join sep (p :: q :: ps)) = String c s). by rewrite IH.
Qed.

Lemma split_pieces sep s : Forall (λ p, no_char sep p = true) (split_on sep s).
Proof.
  induction s as [|c s IH]; simpl; [by constructor|]. destruct (split_on_cons sep s) as (p & ps & E).
  rewrite E in IH |- *. apply Forall_cons in IH as [Hp Hps].
  destruct (Ascii.eqb c sep) eqn:Ec; repeat constructor; try done. simpl. by rewrite Ec.
Qed.

(** ** [str::trim], [str::lines] and [str::strip_prefix]

    White space as Unicode defines it, in UTF-8. *)

Definition code (c : Ascii.ascii) : nat := Ascii.nat_of_ascii c.

Definition ws1 (a : Ascii.ascii) : bool :=
  ((9 <=? code a) && (code a <=? 13)) || (code a =? 32).

(** U+0085, U+00A0 *)
Definition ws2 (a b : Ascii.ascii) : bool :=
  (code a =? 194) && ((code b =? 133) || (code b =? 160)).

(** U+1680, U+2000 to U+200A, U+2028, U+2029, U+202F, U+205F, U+3000 *)
Definition ws3 (a b c : Ascii.ascii) : bool :=
  ((code a =? 225) && (code b =? 154) && (code c =? 128)) ||
  ((code a =? 226) && (code b =? 128) &&
     (((128 <=? code c) && (code c <=? 138)) || (code c =? 168) || (code c =? 169) || (code c =? 175))) ||
  ((code a =? 226) && (code b =? 129) && (code c =? 159)) ||
  ((code a =? 227) && (code b =? 128) && (code c =? 128)).

Fixpoint trim_start (s : string) : string :=
  match s with
  | String a ((String b ((String c s3) as s2)) as s1) =>
      if ws1 a then trim_start s1
      else if ws2 a b then trim_start s2
      else if ws3 a b c then trim_start s3
      else s
  | String a ((String b s2) as s1) =>
      if ws1 a then trim_start s1 else if ws2 a b then trim_start s2 else s
  | String a s1 => if ws1 a then trim_start s1 else s
  | EmptyString => ""
  end.

Fixpoint trim_end (s : string) : string :=
  match s with
  | EmptyString => ""
  | String c s' => if decide (trim_start s = "") then "" else String c (trim_end s')
  end.

Definition trim (s : string) : string := trim_end (trim_start s).

(** [trim_end_matches('/')] *)
Fixpoint all_slashes (s : string) : bool :=
  match s with
  | EmptyString => true
  | String c s' => Nat.eqb (Ascii.nat_of_ascii c) 47 && all_slashes s'
  end.

Fixpoint trim_end_slashes (s : string) : string :=
  match s with
  | EmptyString => ""
  | String c s' => if all_slashes s then "" else String c (trim_end_slashes s')
  end.

Definition newline : Ascii.ascii := Ascii.ascii_of_nat 10.
Definition carriage_return : Ascii.ascii := Ascii.ascii_of_nat 13.

(** One carriage return at the end of a line is part of its ending. *)
Fixpoint strip_cr (s : string) : string :=
  match s with
  | EmptyString => ""
  | String c EmptyString => if decide (c = carriage_return) then "" else s
  | String c s' => String c (strip_cr s')
  end.

(** [str::lines]: an ending newline starts no further line. *)
Definition lines (s : string) : list string :=
  let pieces := split_on newline s in
  map strip_cr (match last pieces with Some "" => removelast pieces | _ => pieces end).

Fixpoint strip_prefix (p s : string) : option string :=
  match p, s with
  | EmptyString, _ => Some s
  | String c p', String d s' => if decide (c = d) then strip_prefix p' s' else None
  | String _ _, EmptyString => None
  end.

(** [from_str] of a signed integer of [w] bits *)
Fixpoint digits_value (acc : Z) (s : string) : option Z :=
  match s with
  | EmptyString => Some acc
  | String c rest => x ← to_digit c; digits_value (acc * 10 + x) rest
  end.

Definition parse_int (w : Z) (s : string) : option Z :=
  let '(sign, digits) :=
    match s with
    | String c rest =>
        if code c =? 43 then (1%Z, rest) else if code c =? 45 then ((-1)%Z, rest) else (1%Z, s)
    | EmptyString => (1%Z, s)
    end in
  if decide (digits = "") then None
  else
    n ← digits_value 0 digits;
    if ((- 2 ^ (w - 1) <=? sign * n) && (sign * n <? 2 ^ (w - 1)))%Z then Some (sign * n)%Z else None.

Definition parse_i32 : string → option Z := parse_int 32.
Definition parse_i64 : string → option Z := parse_int 64.

(** [bool::from_str] *)
Definition parse_bool (s : string) : option bool :=
  if decide (s = "true") then Some true else if decide (s = "false") then Some false else None.

(** *** Text without white space *)

(** ASCII and no white space. *)
Definition plain_char (c : Ascii.ascii) : bool := (code c <? 128) && negb (ws1 c).

Fixpoint all_chars (p : Ascii.ascii → bool) (s : string) : bool :=
  match s with EmptyString => true | String c s' => p c && all_chars p s' end.

Lemma plain_char_spec c :
  plain_char c = true →
  ws1 c = false ∧ (∀ b, ws2 c b = false) ∧ (∀ b d, ws3 c b d = false) ∧
  (∀ a, ws2 a c = false) ∧ (∀ a b, ws3 a b c = false) ∧ (∀ a b, ws3 a c b = false).
Proof.
  unfold plain_char, ws2, ws3. intros [Hc%Nat.ltb_lt Hw%negb_true_iff]%andb_prop.
  split; [done|].
  assert (∀ n, 128 ≤ n → (code c =? n) = false) as Hne by (intros; apply Nat.eqb_neq; lia).
  assert ((128 <=? code c) = false) as Hle by (apply Nat.leb_gt; lia).
  split_and!; intros; repeat rewrite !Hne by lia; rewrite ?Hle, ?andb_false_r, ?andb_false_l; simpl;
    rewrite ?andb_false_r; done.
Qed.

Lemma trim_start_plain c s : plain_char c = true → trim_start (String c s) = String c s.
Proof.
  intros (H1 & H2 & H3 & _)%plain_char_spec. destruct s as [|b [|d s]]; simpl; rewrite H1, ?H2, ?H3; done.
Qed.

(** A plain character is never trimmed away. *)
Lemma trim_start_not_empty s c t : plain_char c = true → trim_start (s +:+ String c t) ≠ "".
Proof.
  intros Hc. pose proof (plain_char_spec _ Hc) as (Hw1 & _ & _ & Hw2 & Hw3 & Hw4).
  assert (∀ n s, String.length s ≤ n → trim_start (s +:+ String c t) ≠ "") as Hn.
  2: { by eapply Hn. }
  assert (trim_start ("" +:+ String c t) ≠ "") as H0.
  { change (trim_start (String c t) ≠ ""). by rewrite trim_start_plain. }
  induction n as [|n IH]; intros u Hu.
  { destruct u; [done|simpl in Hu; lia]. }
  destruct u as [|a u]; [done|]. simpl in Hu.
  destruct u as [|b u].
  { change (trim_start (String a (String c t)) ≠ "").
    destruct t as [|d t]; cbn [trim_start]; fold trim_start; rewrite Hw2, ?Hw4;
      (destruct (ws1 a); [exact H0|done]). }
  destruct u as [|d u].
  { change (trim_start (String a (String b (String c t))) ≠ "").
    cbn [trim_start]. rewrite Hw3. fold trim_start.
    destruct (ws1 a); [by apply (IH (String b "")); simpl in *; lia|].
    destruct (ws2 a b); [exact H0|done]. }
  change (trim_start (String a (String b (String d (u +:+ String c t)))) ≠ "").
  simpl in Hu. cbn [trim_start]. fold trim_start.
  destruct (ws1 a); [by apply (IH (String b (String d u))); simpl; lia|].
  destruct (ws2 a b); [by apply (IH (String d u)); simpl; lia|].
  destruct (ws3 a b d); [by apply (IH u); lia|done].
Qed.

Lemma trim_end_plain s c : plain_char c = true → trim_end (s +:+ String c "") = s +:+ String c "".
Proof.
  intros Hc. induction s as [|a s IH].
  - change (trim_end (String c "") = String c ""). cbn [trim_end].
    rewrite decide_False; [done|]. by rewrite trim_start_plain.
  - rewrite string_app_cons. cbn [trim_end].
    rewrite decide_False; [by rewrite IH|].
    rewrite <- string_app_cons. by apply trim_start_not_empty.
Qed.

Lemma strip_prefix_app p s : strip_prefix p (p +:+ s) = Some s.
Proof. induction p as [|c p IH]; [by destruct s|]. simpl. by rewrite decide_True. Qed.

Lemma all_chars_app p s t : all_chars p (s +:+ t) = all_chars p s && all_chars p t.
Proof. induction s as [|c s IH]; [done|]. simpl. by rewrite IH, andb_assoc. Qed.

(** A non-empty text is a text and its last character. *)
Lemma string_snoc s : s ≠ "" → ∃ r c, s = r +:+ String c "".
Proof.
  induction s as [|c s IH]; [done|]. intros _. destruct s as [|d s]; [by exists "", c|].
  destruct IH as (r & e & E); [done|]. exists (String c r), e. by rewrite E.
Qed.

Lemma trim_plain_ends s : s ≠ "" → all_chars plain_char s = true → trim s = s.
Proof.
  intros Hne Hp. unfold trim. destruct s as [|c s]; [done|].
  rewrite trim_start_plain by (simpl in Hp; by apply andb_prop in Hp as [? _]).
  destruct (string_snoc (String c s) Hne) as (r & e & E). rewrite E in Hp |- *.
  rewrite all_chars_app in Hp. apply andb_prop in Hp as [_ [He _]%andb_prop].
  by apply trim_end_plain.
Qed.

(** Unsigned numbers are not negative. *)
Lemma parse_digits_nonneg s acc z : (0 ≤ acc)%Z → parse_digits acc s = Ok z → (0 ≤ z)%Z.
Proof.
  revert acc. induction s as [|c s IH]; intros acc Ha; simpl; [by intros [= <-]|].
  destruct (to_digit c) as [d|] eqn:Ed; [|done]. destruct (_ <=? _)%Z; [done|].
  destruct (2 ^ 32 <=? acc * 10 + d)%Z; [done|]. apply IH. unfold to_digit in Ed.
  destruct (_ && _) eqn:E; [|done]. apply andb_prop in E as [E1%Z.leb_le _]. injection Ed as <-. lia.
Qed.

Lemma parse_u32_nonneg s z : parse_u32 s = Ok z → (0 ≤ z)%Z.
Proof.
  unfold parse_u32. destruct s as [|c s]; [done|]. destruct (_ =? _)%nat; [destruct s; [done|]|];
    by apply parse_digits_nonneg.
Qed.
