(* ===== verification/Json.v ===== *)
(** * JSON documents

    The part of [serde_json::Value] the programs read and build: the value
    tree and its accessors.  An object is a list of members; [get] finds the
    one of a name. *)
From S2P Require Import Prelude.

Inductive Value :=
| JNull
| JBool (b : bool)
| JInt (z : Z)
| JFloat (text : string)
| JString (s : string)
| JArray (items : list Value)
| JObject (members : list (string * Value)).

Fixpoint assoc {A} (k : string) (l : list (string * A)) : option A :=
  match l with
  | [] => None
  | (k', a) :: l' => if decide (k' = k) then Some a else assoc k l'
  end.

(** [Value::get]: a member of an object, nothing for any other value. *)
Definition get (v : Value) (k : string) : option Value :=
  match v with JObject members => assoc k members | _ => None end.

Definition as_str (v : Value) : option string :=
  match v with JString s => Some s | _ => None end.

Definition as_bool (v : Value) : option bool :=
  match v with JBool b => Some b | _ => None end.

(** [Value::as_i64]: an integer that fits. *)
Definition as_i64 (v : Value) : option Z :=
  match v with
  | JInt z => if ((- 2 ^ 63 <=? z) && (z <? 2 ^ 63))%Z then Some z else None
  | _ => None
  end.

Definition as_array (v : Value) : option (list Value) :=
  match v with JArray items => Some items | _ => None end.

Definition as_object (v : Value) : option (list (string * Value)) :=
  match v with JObject members => Some members | _ => None end.

(** What [json!] makes of an [Option]. *)
Definition of_option {A} (f : A → Value) (o : option A) : Value :=
  match o with Some a => f a | None => JNull end.

(** Induction with a hypothesis for the values inside. *)
Section ValueInd.
  Context (P : Value → Prop).
  Context (Hnull : P JNull) (Hbool : ∀ b, P (JBool b)) (Hint : ∀ z, P (JInt z))
    (Hfloat : ∀ t, P (JFloat t)) (Hstring : ∀ s, P (JString s))
    (Harray : ∀ items, Forall P items → P (JArray items))
    (Hobject : ∀ members, Forall (λ m, P m.2) members → P (JObject members)).

Fixpoint Value_tree_ind (v : Value) : P v :=
  match v with
  | JNull => Hnull
  | JBool b => Hbool b
  | JInt z => Hint z
  | JFloat t => Hfloat t
  | JString s => Hstring s
  | JArray items =>
      Harray items
        ((fix go (l : list Value) : Forall P l :=
            match l with
            | [] => Forall_nil_2 P
            | x :: l' => Forall_cons_2 P x l' (Value_tree_ind x) (go l')
            end) items)
  | JObject members =>
      Hobject members
        ((fix go (l : list (string * Value)) : Forall (λ m, P m.2) l :=
            match l with
            | [] => Forall_nil_2 _
            | x :: l' => Forall_cons_2 _ x l' (Value_tree_ind x.2) (go l')
            end) members)
  end.
End ValueInd.

(** Every string value of a document satisfies [p] (member names aside). *)
Fixpoint strings_all (p : string → Prop) (v : Value) : Prop :=
  match v with
  | JString s => p s
  | JArray items => fold_right (λ x acc, strings_all p x ∧ acc) True items
  | JObject members => fold_right (λ m acc, strings_all p (snd m) ∧ acc) True members
  | _ => True
  end.

(** Equality of documents is decidable. *)
Fixpoint value_eqb (v w : Value) {struct v} : bool :=
  match v, w with
  | JNull, JNull => true
  | JBool a, JBool b => Bool.eqb a b
  | JInt a, JInt b => Z.eqb a b
  | JFloat a, JFloat b | JString a, JString b => String.eqb a b
  | JArray l, JArray l' =>
      (fix go (l l' : list Value) : bool :=
         match l, l' with
         | [], [] => true
         | x :: l, y :: l' => value_eqb x y && go l l'
         | _, _ => false
         end) l l'
  | JObject m, JObject m' =>
      (fix go (m m' : list (string * Value)) : bool :=
         match m, m' with
         | [], [] => true
         | (k, x) :: m, (k', y) :: m' => String.eqb k k' && (value_eqb x y && go m m')
         | _, _ => false
         end) m m'
  | _, _ => false
  end.

Lemma value_eqb_eq v : ∀ w, value_eqb v w = true ↔ v = w.
Proof.
  induction v as [|b|z|s|s|l IH|m IH] using Value_tree_ind; intros [|b'|z'|s'|s'|l'|m']; simpl; try done.
  - rewrite Bool.eqb_true_iff. naive_solver.
  - rewrite Z.eqb_eq. naive_solver.
  - rewrite String.eqb_eq. naive_solver.
  - rewrite String.eqb_eq. naive_solver.
  - revert l'. induction IH as [|x l Hx Hl IHl]; intros [|y l']; try done.
    rewrite andb_true_iff, Hx, IHl. naive_solver.
  - revert m'. induction IH as [|[k x] m Hx Hm IHm]; intros [|[k' y] m']; try done.
    rewrite !andb_true_iff, String.eqb_eq, Hx, IHm. simpl. naive_solver.
Qed.

#[global] Instance Value_eq_dec : EqDecision Value.
Proof.
  intros v w. destruct (value_eqb v w) eqn:E; [left; by apply value_eqb_eq|right].
  intros H. apply value_eqb_eq in H. congruence.
Defined.
