(* ===== verification/Mask.v ===== *)
(** * Secrets in text (mask.rs of the modules, telemetry's sanitize.rs, relay.rs)

    [mask_secret] shows at most the last four characters of a secret; the four
    crates that print secrets carry one copy of it each.  [scrub_string] and
    [scrub_value] replace a secret wherever it occurs in what the bridge
    relays. *)
From S2P Require Import Prelude.
From S2P Require Import Text.
From S2P Require Import Json.

(** ** Characters of a UTF-8 string *)

(** A byte that starts a character: not of the form [10xxxxxx]. *)
Definition is_lead (c : Ascii.ascii) : bool :=
  let n := Ascii.nat_of_ascii c in (n <? 128) || (192 <=? n).

(** [str::chars().count()] *)
Fixpoint chars_count (s : string) : nat :=
  match s with
  | EmptyString => 0
  | String c s' => if is_lead c then S (chars_count s') else chars_count s'
  end.

(** The suffix that starts at the [k]-th character from the end, which is what
    walking [char_indices] backwards finds. *)
Fixpoint last_chars (k : nat) (s : string) : string :=
  match s with
  | EmptyString => ""
  | String c s' => if is_lead c && (chars_count s =? k) then s else last_chars k s'
  end.

Definition mask_secret (value : string) : string :=
  if decide (value = "") then ""
  else if chars_count value <=? 4 then "****"
  else "****" +:+ last_chars 4 value.

(** ** Replacing *)

(** [str::replace] of a non-empty pattern: the leftmost occurrences that do
    not overlap.  [skip] bytes of the input belong to the occurrence last
    replaced. *)
Fixpoint replace_from (from to : string) (skip : nat) (s : string) : string :=
  match s with
  | EmptyString => ""
  | String c s' =>
      match skip with
      | S skip' => replace_from from to skip' s'
      | O =>
          if String.prefix from s
          then to +:+ replace_from from to (String.length from - 1) s'
          else String c (replace_from from to 0 s')
      end
  end.

Definition replace (from to s : string) : string := replace_from from to 0 s.

(** [str::contains] *)
Fixpoint contains (sub s : string) : bool :=
  String.prefix sub s || match s with EmptyString => false | String _ s' => contains sub s' end.

Definition scrub_string (input secret : string) : string :=
  if decide (secret = "") then input
  else if negb (contains secret input) then input
  else replace secret (mask_secret secret) input.

Fixpoint scrub_value (value : Value) (secret : string) : Value :=
  match value with
  | JString text => JString (scrub_string text secret)
  | JArray items => JArray (map (λ item, scrub_value item secret) items)
  | JObject members => JObject (map (λ m, (m.1, scrub_value (snd m) secret)) members)
  | other => other
  end.

(** ** Facts about strings *)

Lemma prefix_app p s : String.prefix p (p +:+ s) = true.
Proof. induction p as [|c p IH]; simpl; [by destruct s|]. by destruct (Ascii.ascii_dec c c). Qed.

Lemma prefix_inv p s : String.prefix p s = true → ∃ r, s = p +:+ r.
Proof.
  revert s. induction p as [|c p IH]; intros s; [by exists s|].
  destruct s as [|d s]; [done|]. simpl. destruct (Ascii.ascii_dec c d) as [->|]; [|done].
  intros (r & ->)%IH. by exists r.
Qed.

Lemma prefix_app_or p s t :
  String.prefix p (s +:+ t) = true →
  String.prefix p s = true ∨ ∃ q, p = s +:+ q ∧ String.prefix q t = true.
Proof.
  revert p. induction s as [|c s IH]; intros p; [by right; exists p|].
  destruct p as [|d p]; [by left|]. simpl. destruct (Ascii.ascii_dec d c) as [->|]; [|done].
  intros [H|(q & -> & H)]%IH; [by left|right; by exists q].
Qed.

Lemma contains_cons sub c s :
  contains sub (String c s) = String.prefix sub (String c s) || contains sub s.
Proof. done. Qed.

Lemma prefix_length p s : String.prefix p s = true → String.length p ≤ String.length s.
Proof. intros (r & ->)%prefix_inv. rewrite string_length_app. lia. Qed.

Lemma no_char_prefix c p s : no_char c s = true → String.prefix p s = true → no_char c p = true.
Proof.
  revert s. induction p as [|d p IH]; intros s; [done|]. destruct s as [|e s]; [done|]. simpl.
  destruct (Ascii.ascii_dec d e) as [->|]; [|done]. intros [He Hs]%andb_prop Hp.
  rewrite He. by apply (IH s).
Qed.

(** ** What replacing leaves behind *)

Definition star : Ascii.ascii := Ascii.ascii_of_nat 42.

(** No end of [suf] begins [secret]. *)
Fixpoint unbordered (secret suf : string) : bool :=
  match suf with
  | EmptyString => true
  | String _ suf' => negb (String.prefix suf secret) && unbordered secret suf'
  end.

Lemma contains_shorter secret v : String.length v < String.length secret → contains secret v = false.
Proof.
  induction v as [|c v IH]; intros Hl.
  - destruct secret; [simpl in Hl; lia|done].
  - rewrite contains_cons, IH by (simpl in Hl; lia). rewrite orb_false_r.
    apply not_true_is_false. intros H%prefix_length. lia.
Qed.

(** Text that no end of begins the secret never completes to the secret. *)
Lemma contains_app secret v r :
  contains secret v = false → unbordered secret v = true →
  contains secret r = false → contains secret (v +:+ r) = false.
Proof.
  intros Hv Hu Hr. induction v as [|c v IH]; [done|].
  change (negb (String.prefix (String c v) secret) && unbordered secret v = true) in Hu.
  apply andb_prop in Hu as [Hp Hu]. rewrite contains_cons in Hv. apply orb_false_elim in Hv as [Hv1 Hv2].
  rewrite string_app_cons, contains_cons. apply orb_false_intro; [|by apply IH].
  rewrite <- string_app_cons. apply not_true_is_false. intros H.
  apply prefix_app_or in H as [H|(q & Hq & _)]; [congruence|].
  by rewrite Hq, prefix_app in Hp.
Qed.

(** What does not contain a beginning of the secret does not contain it. *)
Lemma contains_longer p q s : contains p s = false → contains (p +:+ q) s = false.
Proof.
  assert (∀ s, String.prefix p s = false → String.prefix (p +:+ q) s = false) as Hp.
  { intros t Ht. apply not_true_is_false. intros (r & ->)%prefix_inv.
    by rewrite string_app_assoc, prefix_app in Ht. }
  induction s as [|c s IH].
  - change (String.prefix p "" || false = false → String.prefix (p +:+ q) "" || false = false).
    rewrite !orb_false_r. apply Hp.
  - rewrite !contains_cons. intros [H1 H2]%orb_false_elim. by rewrite Hp, IH.
Qed.

Section Scrub.
  Context (secret suf : string).
  Context (Hsecret : secret ≠ "") (Hstar : no_char star secret = true).

Abbreviation mask := ("****" +:+ suf).
Abbreviation go := (replace_from secret mask).

(** Up to the first mask the output is the input, so what has no star and
    begins the output begins the input. *)
Lemma replace_prefix s t :
  no_char star t = true → String.prefix t (go 0 s) = true → String.prefix t s = true.
Proof.
  revert t. induction s as [|c s IH]; intros t Ht; cbn [replace_from]; [done|].
  destruct (String.prefix secret (String c s)).
  - destruct t as [|d t]; [done|]. rewrite string_app_assoc, string_app_cons. intros H.
    cbn in H. change (Ascii.Ascii _ _ _ _ _ _ _ _) with star in H. destruct (Ascii.ascii_dec d star) as [->|]; [by cbn in Ht|done].
  - destruct t as [|d t]; [done|]. cbn. destruct (Ascii.ascii_dec d c) as [->|]; [|done].
    cbn in Ht. apply andb_prop in Ht as [_ Ht]. by apply IH.
Qed.

Lemma star_not_prefix s : String.prefix secret (String star s) = false.
Proof.
  destruct secret as [|c t]; [done|]. cbn. destruct (Ascii.ascii_dec c star) as [->|]; [|done].
  by cbn in Hstar.
Qed.

Lemma contains_mask r :
  String.length suf < String.length secret → unbordered secret suf = true →
  contains secret r = false → contains secret (mask +:+ r) = false.
Proof.
  intros Hl Hu Hr. rewrite string_app_assoc, !string_app_cons, !contains_cons.
  change (Ascii.Ascii _ _ _ _ _ _ _ _) with star. rewrite !star_not_prefix. cbn [orb].
  apply (contains_app secret suf r); [by apply contains_shorter|done|done].
Qed.

Lemma replace_clean s skip :
  String.length suf < String.length secret → unbordered secret suf = true →
  contains secret (go skip s) = false.
Proof.
  intros Hl Hu. revert skip. induction s as [|c s IH]; intros skip; cbn [replace_from].
  { cbn. rewrite orb_false_r. by destruct secret. }
  destruct skip as [|skip]; [|apply IH].
  destruct (String.prefix secret (String c s)) eqn:E; [by apply contains_mask|].
  rewrite contains_cons, IH, orb_false_r. apply not_true_is_false. intros H.
  pose proof (replace_prefix s) as Hpre. revert H Hpre. generalize (go 0 s) as out. intros out H Hpre.
  clear IH Hl Hu. destruct secret as [|d t]; [done|]. cbn in H, E, Hstar.
  destruct (Ascii.ascii_dec d c); [|done]. apply andb_prop in Hstar as [_ Ht].
  by rewrite (Hpre t Ht H) in E.
Qed.
End Scrub.

(** ** Masks *)

Lemma last_chars_suffix k s : ∃ p, s = p +:+ last_chars k s.
Proof.
  induction s as [|c s (p & IH)]; [by exists ""|]. cbn [last_chars].
  destruct (is_lead c && (chars_count (String c s) =? k)); [by exists ""|].
  exists (String c p). by rewrite string_app_cons, <- IH.
Qed.

Lemma chars_count_app s t : chars_count (s +:+ t) = chars_count s + chars_count t.
Proof. induction s as [|c s IH]; [done|]. rewrite string_app_cons. cbn. destruct (is_lead c); lia. Qed.

Lemma last_chars_count k s : k ≤ chars_count s → chars_count (last_chars k s) = k.
Proof.
  induction s as [|c s IH]; [cbn; lia|]. cbn [last_chars].
  destruct (is_lead c && (chars_count (String c s) =? k)) eqn:E.
  { apply andb_prop in E as [_ E%Nat.eqb_eq]. done. }
  intros H. apply IH. cbn [chars_count] in H, E. destruct (is_lead c); [|done].
  rewrite andb_true_l, Nat.eqb_neq in E. lia.
Qed.

Lemma last_chars_shorter k s :
  k < chars_count s → String.length (last_chars k s) < String.length s.
Proof.
  intros H. destruct (last_chars_suffix k s) as (p & E). pose proof (last_chars_count k s ltac:(lia)) as Hc.
  destruct p as [|c p]; [change (s = last_chars k s) in E; rewrite <- E in Hc; lia|].
  rewrite E at 2. rewrite string_length_app. simpl. lia.
Qed.

(** The text a secret leaves in its mask. *)
Definition shown (secret : string) : string :=
  if chars_count secret <=? 4 then "" else last_chars 4 secret.

Lemma mask_secret_shown secret : secret ≠ "" → mask_secret secret = "****" +:+ shown secret.
Proof.
  intros H. unfold mask_secret, shown. rewrite decide_False by done.
  by destruct (chars_count secret <=? 4).
Qed.

Lemma shown_shorter secret : secret ≠ "" → String.length (shown secret) < String.length secret.
Proof.
  intros H. unfold shown. destruct (Nat.leb_spec (chars_count secret) 4).
  - destruct secret; [done|]. simpl. lia.
  - by apply last_chars_shorter.
Qed.

(** A secret of the shape tokens have: it has no star, and no end of the four
    characters its mask shows is also its beginning. *)
Definition token_shaped (secret : string) : bool :=
  no_char star secret && unbordered secret (shown secret).

Lemma scrub_string_clean input secret :
  secret ≠ "" → token_shaped secret = true → contains secret (scrub_string input secret) = false.
Proof.
  intros Hne [Hs Hu]%andb_prop. unfold scrub_string. rewrite decide_False by done.
  destruct (contains secret input) eqn:E; simpl; [|done].
  unfold replace. rewrite mask_secret_shown by done.
  apply replace_clean; [done|done|by apply shown_shorter|done].
Qed.

Lemma scrub_value_clean v secret :
  secret ≠ "" → token_shaped secret = true →
  strings_all (λ s, contains secret s = false) (scrub_value v secret).
Proof.
  intros Hne Ht. induction v as [| | | |s|items IH|members IH] using Value_tree_ind; cbn; [done..| | |].
  - by apply scrub_string_clean.
  - induction IH; cbn; auto.
  - induction IH; cbn; auto.
Qed.

(** A short mask does not protect a secret that overlaps itself. *)
Example scrub_self_overlap :
  contains "aaaaaa" (scrub_string "aaaaaaaa" "aaaaaa") = true.
Proof. reflexivity. Qed.
