(* ===== verification/Sdk.v ===== *)
(** * The SDK contract types (crates/penguin-sdk)

    The lifecycle state, health, command, event and error types every part
    of the daemon exchanges ([status.rs], [command.rs], [error.rs],
    [module.rs], [host.rs]), the generated [sdk.v1] messages they cross the
    plugin boundary as, and the converters of [convert.rs].  The theorems
    are the round trips the plugin boundary relies on. *)
From S2P Require Import Prelude.

#[local] Set Warnings "-register-all".

(** ** [status.rs]: lifecycle state and health *)

Inductive ModuleState :=
| Disabled
| Initializing
| Running
| Degraded
| Stopping
| Stopped
| Failed.

Module ModuleStateM.

Definition default : ModuleState := Disabled.

Definition as_str (s : ModuleState) : string :=
  match s with
  | Disabled => "disabled"
  | Initializing => "initializing"
  | Running => "running"
  | Degraded => "degraded"
  | Stopping => "stopping"
  | Stopped => "stopped"
  | Failed => "failed"
  end.

Definition parse (value : string) : option ModuleState :=
  if bool_decide (value = "disabled") then Some Disabled
  else if bool_decide (value = "initializing") then Some Initializing
  else if bool_decide (value = "running") then Some Running
  else if bool_decide (value = "degraded") then Some Degraded
  else if bool_decide (value = "stopping") then Some Stopping
  else if bool_decide (value = "stopped") then Some Stopped
  else if bool_decide (value = "failed") then Some Failed
  else None.

End ModuleStateM.

(** A [SystemTime] is its signed distance to the Unix epoch in nanoseconds. *)
Definition SystemTime : Type := Z.

Record Status := mkStatus {
  st_state : ModuleState;
  st_detail : gmap string string;
}.

Inductive HealthLevel :=
| LHealthy
| LDegraded
| LUnhealthy.

Module HealthLevelM.

Definition as_str (l : HealthLevel) : string :=
  match l with
  | LHealthy => "healthy"
  | LDegraded => "degraded"
  | LUnhealthy => "unhealthy"
  end.

Definition as_i32 (l : HealthLevel) : Z :=
  match l with
  | LHealthy => 0
  | LDegraded => 1
  | LUnhealthy => 2
  end.

Definition from_i32 (value : Z) : HealthLevel :=
  if (value =? 0)%Z then LHealthy
  else if (value =? 1)%Z then LDegraded
  else LUnhealthy.

End HealthLevelM.

Record HealthReport := mkHealthReport {
  hr_level : HealthLevel;
  hr_message : string;
  hr_checked_at : SystemTime;
}.

Definition HealthReport_default : HealthReport := mkHealthReport LHealthy "" 0%Z.

(** ** [command.rs] *)

Inductive FlagType := FTString | FTBool | FTInt.

Module FlagTypeM.

Definition as_str (t : FlagType) : string :=
  match t with
  | FTString => "string"
  | FTBool => "bool"
  | FTInt => "int"
  end.

Definition parse (value : string) : FlagType :=
  if bool_decide (value = "bool") then FTBool
  else if bool_decide (value = "int") then FTInt
  else FTString.

End FlagTypeM.

Record FlagSpec := mkFlagSpec {
  fs_name : string;
  fs_shorthand : string;
  fs_usage : string;
  fs_default : string;
  fs_flag_type : FlagType;
}.

Inductive CommandSpec := mkCommandSpec {
  cs_name : string;
  cs_use_line : string;
  cs_short : string;
  cs_flags : list FlagSpec;
  cs_subcommands : list CommandSpec;
  cs_tray : bool;
  cs_min_args : Z;
  cs_max_args : Z;
}.

Record CommandResult := mkCommandResult {
  cr_output : string;
  cr_json : list Byte.byte;
  cr_exit_code : Z;
}.

(** ** [error.rs], [module.rs] *)

Record ModuleError := mkModuleError { me_message : string }.

Inductive SecretError :=
| SecretNotFound
| SecretOther (msg : string).

Record ModuleInfo := mkModuleInfo {
  mi_name : string;
  mi_version : string;
  mi_description : string;
  mi_license_feature : string;
}.

(** ** [host.rs]: events *)

Inductive EventType := StateChanged | Health | Info | Error.

Module EventTypeM.

Definition default : EventType := StateChanged.

Definition as_str (t : EventType) : string :=
  match t with
  | StateChanged => "state-changed"
  | Health => "health"
  | Info => "info"
  | Error => "error"
  end.

Definition parse (value : string) : option EventType :=
  if bool_decide (value = "state-changed") then Some StateChanged
  else if bool_decide (value = "health") then Some Health
  else if bool_decide (value = "info") then Some Info
  else if bool_decide (value = "error") then Some Error
  else None.

End EventTypeM.

Record Event := mkEvent {
  ev_module : string;
  ev_event_type : EventType;
  ev_message : string;
  ev_at : SystemTime;
  ev_fields : gmap string string;
}.

#[global] Instance ModuleState_eq_dec : EqDecision ModuleState.
Proof. solve_decision. Defined.
#[global] Instance HealthLevel_eq_dec : EqDecision HealthLevel.
Proof. solve_decision. Defined.
#[global] Instance FlagType_eq_dec : EqDecision FlagType.
Proof. solve_decision. Defined.
#[global] Instance FlagSpec_eq_dec : EqDecision FlagSpec.
Proof. solve_decision. Defined.
#[global] Instance ModuleError_eq_dec : EqDecision ModuleError.
Proof. solve_decision. Defined.
#[global] Instance ModuleInfo_eq_dec : EqDecision ModuleInfo.
Proof. solve_decision. Defined.
#[global] Instance EventType_eq_dec : EqDecision EventType.
Proof. solve_decision. Defined.
#[global] Instance Event_eq_dec : EqDecision Event.
Proof. solve_decision. Defined.

(** Structural induction on command trees: [CommandSpec] nests itself under
    [list], so the generated principle gives no hypothesis for children. *)
Section CommandSpecInd.
  Context (P : CommandSpec → Prop).
  Context (step : ∀ n u s fl subs t mi ma,
    Forall P subs → P (mkCommandSpec n u s fl subs t mi ma)).

Fixpoint CommandSpec_tree_ind (c : CommandSpec) : P c :=
  match c with
  | mkCommandSpec n u s fl subs t mi ma =>
      step n u s fl subs t mi ma
        ((fix go (l : list CommandSpec) : Forall P l :=
            match l with
            | [] => Forall_nil_2 P
            | x :: l' => Forall_cons_2 P x l' (CommandSpec_tree_ind x) (go l')
            end) subs)
  end.
End CommandSpecInd.

(** ** [convert.rs]: the [sdk.v1] wire messages and their converters *)

Module Pb.

Record FlagSpec := mkFlagSpec {
  name : string; shorthand : string; usage : string; default : string; type : string;
}.

Inductive CommandSpec := mkCommandSpec {
  c_name : string; c_use : string; c_short : string;
  c_flags : list FlagSpec; c_subcommands : list CommandSpec;
  c_tray : bool; c_min_args : Z; c_max_args : Z;
}.

Record StatusResponse := mkStatusResponse {
  s_state : string; s_detail : gmap string string; s_error : string;
}.

Record HealthResponse := mkHealthResponse {
  h_level : Z; h_message : string; h_checked_at_unix_nano : Z;
}.

Record DispatchResponse := mkDispatchResponse {
  d_output : string; d_json : list Byte.byte; d_exit_code : Z; d_error : string;
}.

Record PublishEventRequest := mkPublishEventRequest {
  p_api_version : string; p_module : string; p_type : string;
  p_message : string; p_at_unix_nano : Z; p_fields : gmap string string;
}.

End Pb.

Module Convert.

Definition API_VERSION : string := "v1".

(** [duration_since] yields the gap on either side of the epoch; both casts
    to [i64] wrap, and so does the negation in a release build. *)
Definition system_time_to_unix_nano (time : SystemTime) : Z :=
  if (0 <=? time)%Z then wrap_i64 time
  else wrap_i64 (- wrap_i64 (- time)).

Definition unix_nano_to_system_time (nanos : Z) : SystemTime :=
  if (0 <=? nanos)%Z then nanos else (- Z.abs nanos)%Z.

Definition flag_spec_to_proto (flag : FlagSpec) : Pb.FlagSpec :=
  Pb.mkFlagSpec (fs_name flag) (fs_shorthand flag) (fs_usage flag) (fs_default flag)
    (FlagTypeM.as_str (fs_flag_type flag)).

Definition flag_spec_from_proto (flag : Pb.FlagSpec) : FlagSpec :=
  mkFlagSpec (Pb.name flag) (Pb.shorthand flag) (Pb.usage flag) (Pb.default flag)
    (FlagTypeM.parse (Pb.type flag)).

Fixpoint command_spec_to_proto (command : CommandSpec) : Pb.CommandSpec :=
  Pb.mkCommandSpec (cs_name command) (cs_use_line command) (cs_short command)
    (map flag_spec_to_proto (cs_flags command))
    (map command_spec_to_proto (cs_subcommands command))
    (cs_tray command) (cs_min_args command) (cs_max_args command).

Fixpoint command_spec_from_proto (command : Pb.CommandSpec) : CommandSpec :=
  mkCommandSpec (Pb.c_name command) (Pb.c_use command) (Pb.c_short command)
    (map flag_spec_from_proto (Pb.c_flags command))
    (map command_spec_from_proto (Pb.c_subcommands command))
    (Pb.c_tray command) (Pb.c_min_args command) (Pb.c_max_args command).

Definition status_to_proto (status : Status) : Pb.StatusResponse :=
  Pb.mkStatusResponse (ModuleStateM.as_str (st_state status)) (st_detail status) "".

Definition status_from_proto (response : Pb.StatusResponse) : Status :=
  mkStatus (default ModuleStateM.default (ModuleStateM.parse (Pb.s_state response)))
    (Pb.s_detail response).

Definition health_report_to_proto (report : HealthReport) : Pb.HealthResponse :=
  Pb.mkHealthResponse (HealthLevelM.as_i32 (hr_level report)) (hr_message report)
    (system_time_to_unix_nano (hr_checked_at report)).

Definition health_report_from_proto (response : Pb.HealthResponse) : HealthReport :=
  mkHealthReport (HealthLevelM.from_i32 (Pb.h_level response)) (Pb.h_message response)
    (unix_nano_to_system_time (Pb.h_checked_at_unix_nano response)).

Definition command_result_to_proto (result : CommandResult) : Pb.DispatchResponse :=
  Pb.mkDispatchResponse (cr_output result) (cr_json result) (cr_exit_code result) "".

Definition command_result_from_proto (response : Pb.DispatchResponse) : CommandResult :=
  mkCommandResult (Pb.d_output response) (Pb.d_json response) (Pb.d_exit_code response).

Definition event_to_proto (event : Event) : Pb.PublishEventRequest :=
  Pb.mkPublishEventRequest API_VERSION (ev_module event)
    (EventTypeM.as_str (ev_event_type event)) (ev_message event)
    (system_time_to_unix_nano (ev_at event)) (ev_fields event).

Definition event_from_proto (request : Pb.PublishEventRequest) : Event :=
  mkEvent (Pb.p_module request)
    (default EventTypeM.default (EventTypeM.parse (Pb.p_type request)))
    (Pb.p_message request) (unix_nano_to_system_time (Pb.p_at_unix_nano request))
    (Pb.p_fields request).

End Convert.

(** ** Round trips *)

Lemma ModuleState_parse_as_str s : ModuleStateM.parse (ModuleStateM.as_str s) = Some s.
Proof. by destruct s. Qed.

Lemma ModuleState_parse_Some v s :
  ModuleStateM.parse v = Some s → v = ModuleStateM.as_str s.
Proof. unfold ModuleStateM.parse. repeat case_bool_decide; intros; by simplify_eq. Qed.

Lemma EventType_parse_as_str t : EventTypeM.parse (EventTypeM.as_str t) = Some t.
Proof. by destruct t. Qed.

Lemma HealthLevel_from_as_i32 l : HealthLevelM.from_i32 (HealthLevelM.as_i32 l) = l.
Proof. by destruct l. Qed.

Lemma FlagType_parse_as_str t : FlagTypeM.parse (FlagTypeM.as_str t) = t.
Proof. by destruct t. Qed.

Lemma flag_spec_round_trip f : Convert.flag_spec_from_proto (Convert.flag_spec_to_proto f) = f.
Proof.
  destruct f. unfold Convert.flag_spec_from_proto. simpl. by rewrite FlagType_parse_as_str.
Qed.

Lemma unix_nano_round_trip (t : SystemTime) :
  (- 2 ^ 63 < t < 2 ^ 63)%Z →
  Convert.unix_nano_to_system_time (Convert.system_time_to_unix_nano t) = t.
Proof.
  intros Ht. unfold Convert.system_time_to_unix_nano, Convert.unix_nano_to_system_time, wrap_i64.
  destruct (Z.leb_spec 0 t).
  - rewrite wrap_i_small by lia. destruct (Z.leb_spec 0 t); lia.
  - rewrite (wrap_i_small 64 (- t)) by lia. rewrite wrap_i_small by lia.
    destruct (Z.leb_spec 0 (- - t)); lia.
Qed.

Create Rewrite HintDb wire.
#[export] Hint Rewrite ModuleState_parse_as_str EventType_parse_as_str
  HealthLevel_from_as_i32 FlagType_parse_as_str flag_spec_round_trip : wire.

(** a command tree survives the plugin boundary: decoding the wire form
    of any [CommandSpec], whatever its depth, gives the spec back. *)
Theorem command_spec_wire_round_trip (c : CommandSpec) :
  Convert.command_spec_from_proto (Convert.command_spec_to_proto c) = c.
Proof.
  induction c as [n u s fl subs t mi ma IH] using CommandSpec_tree_ind. simpl. f_equal.
  - rewrite map_map. rewrite (map_ext _ id); [apply map_id|].
    intros f. apply flag_spec_round_trip.
  - rewrite map_map. induction IH as [|x l Hx _ IHl]; simpl; [done|]. by rewrite Hx, IHl.
Qed.

(** status, health, result and event messages survive the plugin
    boundary, the timestamps within the range an [i64] of nanoseconds can
    express (1677 to 2262). *)
Theorem report_wire_round_trip (s : Status) (h : HealthReport) (e : Event) :
  (- 2 ^ 63 < hr_checked_at h < 2 ^ 63)%Z →
  (- 2 ^ 63 < ev_at e < 2 ^ 63)%Z →
  Convert.status_from_proto (Convert.status_to_proto s) = s ∧
  Convert.health_report_from_proto (Convert.health_report_to_proto h) = h ∧
  Convert.event_from_proto (Convert.event_to_proto e) = e.
Proof.
  intros Hh He. destruct s, h, e; simpl in *.
  unfold Convert.status_from_proto, Convert.health_report_from_proto, Convert.event_from_proto.
  simpl. autorewrite with wire. by rewrite !unix_nano_round_trip.
Qed.

Lemma report_wire_round_trip_witness :
  Convert.status_from_proto (Convert.status_to_proto (mkStatus Degraded ∅)) = mkStatus Degraded ∅.
Proof.
  apply (report_wire_round_trip (mkStatus Degraded ∅) HealthReport_default
           (mkEvent "squawk" Info "m" 1700000000000000000%Z ∅)); vm_compute; split; reflexivity.
Defined.
