(* ===== verification/Backoff.v ===== *)
(** * Restart backoff (crates/penguin-daemon/src/backoff.rs)

    [delay_for] computes in [f64].  The model computes in the binary64
    format of the Standard Library's [SpecFloat] (53 bits of precision,
    [emax] 1024, round to nearest even), so each product, sum and cast is the
    one the machine performs.  Durations are nanosecond counts. *)
From S2P Require Import Prelude.
From Stdlib Require Import SpecFloat.

Module F64.

Definition prec : Z := 53.
Definition emax : Z := 1024.
Definition f64 : Type := spec_float.

Definition mul : f64 → f64 → f64 := SFmul prec emax.
Definition add : f64 → f64 → f64 := SFadd prec emax.
Definition sub : f64 → f64 → f64 := SFsub prec emax.

(** [a > b] on [f64]: false when either is a NaN. *)
Definition gtb (a b : f64) : bool := SFltb b a.

(** An integer converted with [as f64] / [f64::from]. *)
Definition of_Z (z : Z) : f64 := binary_normalize prec emax z 0 false.

(** The literals 1.0, 0.05 and 0.1, as the nearest doubles. *)
Definition one : f64 := of_Z 1.
Definition c0_05 : f64 := S754_finite false 7205759403792794 (-57).
Definition c0_1 : f64 := S754_finite false 7205759403792794 (-56).

(** [f64 as u64]: truncation toward zero, saturating, NaN to 0. *)
Definition to_u64 (x : f64) : Z :=
  match x with
  | S754_nan => 0
  | S754_zero _ => 0
  | S754_infinity true => 0
  | S754_infinity false => 2 ^ 64 - 1
  | S754_finite true _ _ => 0
  | S754_finite false m e => Z.min (2 ^ 64 - 1) (Z.shiftl (Z.pos m) e)
  end.

(** [2.0.powf(n)] for an integral exponent: the exact power of two, which
    overflows to infinity past [2^1023]. *)
Definition powf2 (n : Z) : f64 :=
  if (n <=? 1023)%Z then S754_finite false (2 ^ 52) (n - 52) else S754_infinity false.

End F64.

Module Backoff.

(** [Duration]s as nanoseconds. *)
Definition from_millis (ms : Z) : Z := (ms * 1000000)%Z.
Definition from_secs (s : Z) : Z := (s * 1000000000)%Z.

Definition INITIAL : Z := from_millis 100.
Definition MAX : Z := from_secs 30.
Definition MAX_RESTARTS : Z := 5.

(** [delay_for]: grow, cap at [MAX], then apply the jitter fraction. *)
Definition delay_for (attempt : Z) (jitter : option F64.f64) : Z :=
  let initial_nanos := F64.of_Z INITIAL in
  let max_nanos := F64.of_Z MAX in
  let delay_nanos := F64.mul initial_nanos (F64.powf2 attempt) in
  let delay_nanos := if F64.gtb delay_nanos max_nanos then max_nanos else delay_nanos in
  let delay_nanos :=
    match jitter with
    | Some frac => F64.mul delay_nanos (F64.sub (F64.add F64.one frac) F64.c0_05)
    | None => delay_nanos
    end in
  F64.to_u64 delay_nanos.

(** [delay_for_random]: [unit] is the uniform draw in [0, 1). *)
Definition delay_for_random (unit : F64.f64) (attempt : Z) : Z :=
  delay_for attempt (Some (F64.mul unit F64.c0_1)).

(** The reference: doubling from 100 ms, capped at 30 s, over the integers. *)
Definition reference_delay (attempt : Z) : Z := Z.min (INITIAL * 2 ^ attempt) MAX.

(** The values asserted by the unit tests of [backoff.rs]. *)
Example jitter_zero_scales_by_0_95 :
  delay_for 3 (Some (S754_zero false)) = 760000000%Z.
Proof. by vm_compute. Qed.

Example jitter_top_scales_by_1_05 : delay_for 3 (Some F64.c0_1) = 840000000%Z.
Proof. by vm_compute. Qed.

Example jitter_applies_after_the_cap :
  delay_for 9 (Some (S754_zero false)) = 28500000000%Z ∧
  delay_for 9 (Some F64.c0_1) = 31500000000%Z.
Proof. by vm_compute. Qed.

(** The finite exponents are checked one by one; past them the power is
    infinite and the cap applies. *)
Definition finite_agrees : bool :=
  forallb (λ n, (delay_for (Z.of_nat n) None =? reference_delay (Z.of_nat n))%Z) (seq 0 1024).

Lemma finite_agrees_true : finite_agrees = true.
Proof. by vm_compute. Qed.

Lemma delay_for_finite n : (0 ≤ n ≤ 1023)%Z → delay_for n None = reference_delay n.
Proof.
  intros Hn. pose proof finite_agrees_true as H. unfold finite_agrees in H.
  rewrite forallb_forall in H. specialize (H (Z.to_nat n)).
  rewrite Z2Nat.id in H by lia. apply Z.eqb_eq, H, in_seq. lia.
Qed.

Lemma delay_for_infinite n : (1023 < n)%Z → delay_for n None = MAX.
Proof.
  intros Hn. unfold delay_for, F64.powf2.
  destruct (Z.leb_spec n 1023); [lia|]. by vm_compute.
Qed.

Lemma reference_delay_capped n : (9 ≤ n)%Z → reference_delay n = MAX.
Proof.
  intros Hn. unfold reference_delay, INITIAL, MAX, from_millis, from_secs.
  assert (2 ^ 9 ≤ 2 ^ n)%Z by (apply Z.pow_le_mono_r; lia). lia.
Qed.

(** without jitter, for every [u32] attempt, the [f64] computation gives
    exactly [min (100ms * 2^attempt, 30s)]: no rounding, overflow or
    saturation is ever visible. *)
Theorem delay_for_no_jitter_exact (attempt : Z) :
  (0 ≤ attempt < 2 ^ 32)%Z → delay_for attempt None = reference_delay attempt.
Proof.
  intros Hr. destruct (Z.le_gt_cases attempt 1023).
  - apply delay_for_finite. lia.
  - rewrite delay_for_infinite by lia. by rewrite reference_delay_capped by lia.
Qed.

Lemma delay_for_no_jitter_exact_witness : delay_for 1100 None = 30000000000%Z.
Proof. rewrite delay_for_no_jitter_exact; [reflexivity | lia]. Defined.

End Backoff.
