(* ===== verification/Supervisor.v ===== *)
(** * The module supervisor (crates/penguin-daemon/src/supervisor.rs)

    The supervisor owns the loaded modules and the enabled-set and drives
    every module through [init]/[start]/[stop].  What it calls but does not
    contain is an interface:

    - [ModuleEnv] is the outside world of type [W]: the [Module] trait
      objects (addressed by instance handles), the host factory, the two
      clocks and the random source.  Every call may change the world, so
      modules are arbitrary stateful programs;
    - [StateStore] is the persisted enabled-set ([state.rs]), discharged by
      the file-level model of [StateFile].

    Operations are written in a state monad over [Sup], one per method of
    [Supervisor].  [obs] records the calls to the outside and the published
    events in program order.  Each method body that runs under the write lock
    of [shared] is one atomic operation; the tasks it spawns are data in
    [tasks] and run later (see [SupervisorSteps]). *)
From S2P Require Import Prelude Sdk Backoff.

(** ** Interfaces *)

Inductive ExternalLoadError :=
| ExtNotFound (name : string)
| ExtLoad (message : string).

Inductive StateError :=
| StateIo (msg : string)
| StateParse (msg : string).

Class ModuleEnv (W : Type) := {
  Factory : Type;
  Host : Type;
  (** [factory().info()] on a throwaway instance. *)
  factory_info : Factory → ModuleInfo;
  (** [factory()], the new instance being known under the handle. *)
  env_build : Factory → nat → W → W;
  env_host_for : string → option (list Byte.byte) → W → Host * W;
  env_config_schema : nat → W → option (list Byte.byte);
  env_info : nat → W → ModuleInfo;
  env_commands : nat → W → list CommandSpec;
  env_init : nat → Host → W → result unit ModuleError * W;
  env_start : nat → W → result unit ModuleError * W;
  env_stop : nat → W → result unit ModuleError * W;
  env_status : nat → W → result Status ModuleError * W;
  env_health : nat → W → HealthReport * W;
  env_dispatch : nat → list string → gmap string string → list string → W →
    result CommandResult ModuleError * W;
  (** [Instant::now()], [SystemTime::now()] and the unit draw of the RNG. *)
  env_instant : W → Z;
  env_wall : W → SystemTime;
  env_random : W → F64.f64 * W;
}.

(** The enabled-set on disk.  [save] is all-or-nothing: when it reports
    success the next [load] gives back what was saved, and when it fails the
    previous contents stay. *)
Class StateStore (W : Type) := {
  store_load : W → result (gset string) StateError;
  store_save : gset string → W → result unit StateError * W;
  store_save_ok : ∀ ps w, (store_save ps w).1 = Ok () →
    store_load (store_save ps w).2 = Ok ps;
  store_save_err : ∀ ps w e, (store_save ps w).1 = Err e →
    store_load (store_save ps w).2 = store_load w;
}.

(** [ExternalLoader]: resolves a name into a new instance known under the
    handle. *)
Definition ExternalLoader (W : Type) : Type :=
  string → nat → W → result unit ExternalLoadError * W.

(** ** Data *)

Inductive SupervisorError :=
| UnknownModule (name : string)
| NotLoaded (name : string)
| ExternalLoad (message : string)
| ModuleFailed (err : ModuleError).

(** [#[error(...)]] of [SupervisorError]. *)
Definition SupervisorError_display (e : SupervisorError) : string :=
  match e with
  | UnknownModule n => "unknown module: " +:+ n
  | NotLoaded n => "module not loaded: " +:+ n
  | ExternalLoad m => "failed to load external plugin: " +:+ m
  | ModuleFailed err => me_message err
  end.

Record LoadedModule := mkLoaded {
  lm_instance : nat;
  lm_state : ModuleState;
  lm_restart_attempt : Z;
  lm_started_at : Z;
  lm_load_seq : Z;
  lm_health_cancel : nat;
}.

(** What the supervisor does to the outside, in program order. *)
Inductive Obs :=
| OPublish (e : Event)
| OBuild (inst : nat)
| OInit (inst : nat)
| OStart (inst : nat)
| OStop (inst : nat).

(** Background tasks: the health-poll loop of one instance, asleep or holding
    the report it just read; a restart waiting for its backoff; and the tail
    of a failed restart, which reports the failure after releasing the lock. *)
Inductive Task :=
| TPoll (name : string) (inst : nat) (cancel : nat) (wake : Z)
| TPolled (name : string) (inst : nat) (cancel : nat) (report : HealthReport)
| TRestart (name : string) (due : Z)
| TReport (name : string) (error : string) (reason : string).

Section Supervisor.

Context {W : Type} `{!ModuleEnv W} `{!StateStore W}.

Record SupervisorConfig := mkConfig {
  cfg_registry : gmap string Factory;
  cfg_max_restarts : Z;
  cfg_health_interval : Z;
  cfg_stability_window : Z;
  cfg_external : option (ExternalLoader W);
}.

Record Sup := mkSup {
  loaded : gmap string LoadedModule;
  persisted : gset string;
  load_seq : Z;
  life_cancelled : bool;
  cancelled : gset nat;
  next_token : nat;
  next_inst : nat;
  tasks : list Task;
  obs : list Obs;
  world : W;
}.

(** ** The state monad *)

Definition M (A : Type) : Type := Sup → A * Sup.
Definition ret {A} (a : A) : M A := λ s, (a, s).
Definition bind {A B} (m : M A) (k : A → M B) : M B := λ s, let '(a, s') := m s in k a s'.

Notation "'let*' x ':=' m 'in' k" := (bind m (λ x, k))
  (at level 10, x name, m at level 100, k at level 200) : penguin_scope.
Notation "m ';;;' k" := (bind m (λ _, k)) (at level 60, right associativity) : penguin_scope.

Definition gets {A} (f : Sup → A) : M A := λ s, (f s, s).

Definition set_loaded (f : gmap string LoadedModule → gmap string LoadedModule) : M unit :=
  λ s, ((), mkSup (f (loaded s)) (persisted s) (load_seq s) (life_cancelled s) (cancelled s)
              (next_token s) (next_inst s) (tasks s) (obs s) (world s)).

Definition set_persisted (f : gset string → gset string) : M unit :=
  λ s, ((), mkSup (loaded s) (f (persisted s)) (load_seq s) (life_cancelled s) (cancelled s)
              (next_token s) (next_inst s) (tasks s) (obs s) (world s)).

Definition observe (o : Obs) : M unit :=
  λ s, ((), mkSup (loaded s) (persisted s) (load_seq s) (life_cancelled s) (cancelled s)
              (next_token s) (next_inst s) (tasks s) (obs s ++ [o]) (world s)).

Definition spawn (t : Task) : M unit :=
  λ s, ((), mkSup (loaded s) (persisted s) (load_seq s) (life_cancelled s) (cancelled s)
              (next_token s) (next_inst s) (tasks s ++ [t]) (obs s) (world s)).

(** A call into the outside world. *)
Definition call {A} (f : W → A * W) : M A :=
  λ s, let '(a, w) := f (world s) in
       (a, mkSup (loaded s) (persisted s) (load_seq s) (life_cancelled s) (cancelled s)
             (next_token s) (next_inst s) (tasks s) (obs s) w).

(** [load_seq.fetch_add(1)] on an [AtomicU64]. *)
Definition fetch_add_load_seq : M Z :=
  λ s, (load_seq s,
        mkSup (loaded s) (persisted s) (wrap_u64 (load_seq s + 1)) (life_cancelled s)
          (cancelled s) (next_token s) (next_inst s) (tasks s) (obs s) (world s)).

(** [CancellationToken::new()] and [cancel()]. *)
Definition new_token : M nat :=
  λ s, (next_token s,
        mkSup (loaded s) (persisted s) (load_seq s) (life_cancelled s) (cancelled s)
          (S (next_token s)) (next_inst s) (tasks s) (obs s) (world s)).

Definition cancel_token (t : nat) : M unit :=
  λ s, ((), mkSup (loaded s) (persisted s) (load_seq s) (life_cancelled s)
              ({[t]} ∪ cancelled s) (next_token s) (next_inst s) (tasks s) (obs s) (world s)).

Definition cancel_life : M unit :=
  λ s, ((), mkSup (loaded s) (persisted s) (load_seq s) true (cancelled s)
              (next_token s) (next_inst s) (tasks s) (obs s) (world s)).

Definition new_inst : M nat :=
  λ s, (next_inst s,
        mkSup (loaded s) (persisted s) (load_seq s) (life_cancelled s) (cancelled s)
          (next_token s) (S (next_inst s)) (tasks s) (obs s) (world s)).

Definition instant_now : M Z := gets (λ s, env_instant (world s)).

(** ** Events *)

Definition state_event_with_fields (name : string) (state : ModuleState)
    (fields : gmap string string) : M Event :=
  gets (λ s, mkEvent name StateChanged (ModuleStateM.as_str state) (env_wall (world s)) fields).

Definition state_event (name : string) (state : ModuleState) : M Event :=
  state_event_with_fields name state ∅.

Definition error_event (name : string) (message : string) : M Event :=
  gets (λ s, mkEvent name Error message (env_wall (world s)) ∅).

Definition publish (e : M Event) : M unit := let* ev := e in observe (OPublish ev).

(** ** Module calls *)

Definition m_init (i : nat) (h : Host) : M (result unit ModuleError) :=
  observe (OInit i) ;;; call (env_init i h).
Definition m_start (i : nat) : M (result unit ModuleError) :=
  observe (OStart i) ;;; call (env_start i).
Definition m_stop (i : nat) : M (result unit ModuleError) :=
  observe (OStop i) ;;; call (env_stop i).

Context (cfg : SupervisorConfig).

(** [Supervisor::new]: a zero [max_restarts] means the default. *)
Definition max_restarts : Z :=
  if (cfg_max_restarts cfg =? 0)%Z then Backoff.MAX_RESTARTS else cfg_max_restarts cfg.

Definition module_infos : gmap string ModuleInfo := factory_info <$> cfg_registry cfg.

Definition new (w : W) : Sup := mkSup ∅ ∅ 0 false ∅ 0 0 [] [] w.

(** ** Lifecycle *)

(** [stop_failed_instance]: the stop error is only logged. *)
Definition stop_failed_instance (module : nat) : M unit := m_stop module ;;; ret ().

Definition instantiate (name : string) : M (result nat SupervisorError) :=
  match cfg_registry cfg !! name with
  | Some factory =>
      let* i := new_inst in
      observe (OBuild i) ;;;
      call (λ w, ((), env_build factory i w)) ;;;
      ret (Ok i)
  | None =>
      match cfg_external cfg with
      | None => ret (Err (UnknownModule name))
      | Some external =>
          let* i := new_inst in
          let* r := call (external name i) in
          match r with
          | Ok _ => observe (OBuild i) ;;; ret (Ok i)
          | Err (ExtNotFound _) => ret (Err (UnknownModule name))
          | Err (ExtLoad message) => ret (Err (ExternalLoad message))
          end
      end
  end.

Definition spawn_health_poll (name : string) (module : nat) (cancel : nat) : M unit :=
  let* now := instant_now in
  spawn (TPoll name module cancel (now + cfg_health_interval cfg)).

(** The save error is only logged. *)
Definition persist : M unit :=
  let* ps := gets persisted in
  call (store_save ps) ;;; ret ().

Definition load (name : string) : M (result ModuleState SupervisorError) :=
  let* known := gets (λ s, loaded s !! name) in
  match known with
  | Some existing => ret (Ok (lm_state existing))
  | None =>
    let* inst := instantiate name in
    match inst with
    | Err e => ret (Err e)
    | Ok module =>
      publish (state_event name Initializing) ;;;
      let* schema := gets (λ s, env_config_schema module (world s)) in
      let* host := call (env_host_for name schema) in
      let* ri := m_init module host in
      match ri with
      | Err err =>
          stop_failed_instance module ;;;
          publish (error_event name (me_message err)) ;;;
          publish (state_event name Disabled) ;;;
          ret (Err (ModuleFailed err))
      | Ok _ =>
        let* rs := m_start module in
        match rs with
        | Err err =>
            stop_failed_instance module ;;;
            publish (error_event name (me_message err)) ;;;
            publish (state_event name Disabled) ;;;
            ret (Err (ModuleFailed err))
        | Ok _ =>
          publish (state_event name Running) ;;;
          let* seq := fetch_add_load_seq in
          let* health_cancel := new_token in
          spawn_health_poll name module health_cancel ;;;
          let* now := instant_now in
          set_loaded <[name := mkLoaded module Running 0 now seq health_cancel]> ;;;
          set_persisted (λ ps, {[name]} ∪ ps) ;;;
          persist ;;;
          ret (Ok Running)
        end
      end
    end
  end.

Definition stop_locked (name : string) : M unit :=
  let* found := gets (λ s, loaded s !! name) in
  match found with
  | None => ret ()
  | Some module =>
      cancel_token (lm_health_cancel module) ;;;
      publish (state_event name Stopping) ;;;
      m_stop (lm_instance module) ;;;
      publish (state_event name Stopped) ;;;
      set_loaded (delete name)
  end.

Definition unload (name : string) : M (result unit SupervisorError) :=
  let* found := gets (λ s, loaded s !! name) in
  match found with
  | None => ret (Ok ())
  | Some _ =>
      stop_locked name ;;;
      set_persisted (λ ps, ps ∖ {[name]}) ;;;
      persist ;;;
      ret (Ok ())
  end.

(** [BTreeSet] / [BTreeMap] iterate in byte-lexicographic key order. *)
Definition name_le (a b : string) : Prop := String.leb a b = true.
#[global] Instance name_le_dec : RelDecision name_le.
Proof. intros a b. unfold name_le. apply _. Defined.

Definition sorted_names (l : list string) : list string := merge_sort name_le l.

Fixpoint load_all (names : list string) : M (list (string * SupervisorError)) :=
  match names with
  | [] => ret []
  | name :: rest =>
      let* r := load name in
      let* failures := load_all rest in
      match r with
      | Ok _ => ret failures
      | Err err => ret ((name, err) :: failures)
      end
  end.

(** A state file that cannot be read starts with nothing enabled. *)
Definition boot_state (w : W) : gset string :=
  match store_load w with
  | Ok ps => ps
  | Err _ => ∅
  end.

Definition start_enabled : M (list (string * SupervisorError)) :=
  let* persisted := gets (λ s, boot_state (world s)) in
  let names := sorted_names (elements persisted) in
  set_persisted (λ _, persisted) ;;;
  load_all names.

(** Reverse load order. *)
Definition seq_ge (a b : string * Z) : Prop := (b.2 ≤ a.2)%Z.
#[global] Instance seq_ge_dec : RelDecision seq_ge.
Proof. intros a b. unfold seq_ge. apply _. Defined.

Definition shutdown_order (m : gmap string LoadedModule) : list (string * Z) :=
  merge_sort seq_ge (map (λ p, (p.1, lm_load_seq p.2)) (map_to_list m)).

Fixpoint stop_all (order : list (string * Z)) : M unit :=
  match order with
  | [] => ret ()
  | (name, _) :: rest => stop_locked name ;;; stop_all rest
  end.

Definition shutdown_locked : M unit :=
  let* order := gets (λ s, shutdown_order (loaded s)) in
  stop_all order.

Definition shutdown : M unit := cancel_life ;;; shutdown_locked.

(** ** Queries *)

Definition loaded_module_or_err (name : string) (s : Sup) : result nat SupervisorError :=
  match loaded s !! name with
  | Some module => Ok (lm_instance module)
  | None =>
      match cfg_registry cfg !! name with
      | Some _ => Err (NotLoaded name)
      | None => Err (UnknownModule name)
      end
  end.

(** Every registered module in name order, then the loaded external ones. *)
Definition list_modules (s : Sup) : list (ModuleInfo * ModuleState * bool) :=
  let builtin :=
    map (λ p : string * ModuleInfo,
           (p.2, from_option lm_state Disabled (loaded s !! p.1), false))
      (omap (λ n, pair n <$> module_infos !! n)
         (sorted_names (map fst (map_to_list module_infos)))) in
  let external :=
    map (λ p : string * LoadedModule, (env_info (lm_instance p.2) (world s), lm_state p.2, true))
      (filter (λ p : string * LoadedModule, module_infos !! p.1 = None) (map_to_list (loaded s))) in
  builtin ++ external.

Definition status (name : string) : M (result Status SupervisorError) :=
  let* r := gets (loaded_module_or_err name) in
  match r with
  | Err e => ret (Err e)
  | Ok module =>
      let* r := call (env_status module) in
      ret (map_err ModuleFailed r)
  end.

Definition health (name : string) : M (result HealthReport SupervisorError) :=
  let* r := gets (loaded_module_or_err name) in
  match r with
  | Err e => ret (Err e)
  | Ok module =>
      let* h := call (env_health module) in
      ret (Ok h)
  end.

Definition commands (name : string) (s : Sup) : result (list CommandSpec) SupervisorError :=
  let? module := loaded_module_or_err name s in
  Ok (env_commands module (world s)).

Definition dispatch (name : string) (path : list string) (flags : gmap string string)
    (args : list string) : M (result CommandResult SupervisorError) :=
  let* r := gets (loaded_module_or_err name) in
  match r with
  | Err e => ret (Err e)
  | Ok module =>
      let* r := call (env_dispatch module path flags args) in
      ret (map_err ModuleFailed r)
  end.

(** ** Failures and restarts *)

Definition with_state (st : ModuleState) (m : LoadedModule) : LoadedModule :=
  mkLoaded (lm_instance m) st (lm_restart_attempt m) (lm_started_at m) (lm_load_seq m)
    (lm_health_cancel m).

Definition with_attempt (a : Z) (m : LoadedModule) : LoadedModule :=
  mkLoaded (lm_instance m) (lm_state m) a (lm_started_at m) (lm_load_seq m)
    (lm_health_cancel m).

(** The attempt number a failure observed at [now] counts as: a fresh budget
    once [started_at] is a stability window ago.  [restart_attempt] is [u32]. *)
Definition next_attempt (now : Z) (m : LoadedModule) : Z :=
  let base := if (cfg_stability_window cfg <=? now - lm_started_at m)%Z then 0%Z
              else lm_restart_attempt m in
  wrap_u32 (base + 1).

Definition report_failure (name : string) (reason : string) : M unit :=
  let* found := gets (λ s, loaded s !! name) in
  match found with
  | None => ret ()
  | Some module =>
      cancel_token (lm_health_cancel module) ;;;
      let* now := instant_now in
      let attempt := next_attempt now module in
      if (max_restarts <=? attempt)%Z then
        set_loaded <[name := with_state Failed (with_attempt attempt module)]> ;;;
        publish (state_event name Failed) ;;;
        publish (error_event name
          ("max restarts (" +:+ pretty max_restarts +:+ ") exceeded"))
      else
        set_loaded <[name := with_state Degraded (with_attempt attempt module)]> ;;;
        publish (state_event_with_fields name Degraded {["reason" := reason]}) ;;;
        let* unit := call env_random in
        let delay := Backoff.delay_for_random unit (attempt - 1) in
        let* now := instant_now in
        spawn (TRestart name (now + delay))
  end.

(** The part of [perform_scheduled_restart] that runs under the lock.  A
    failure returns the error message to publish and the reason to report
    once the lock is released. *)
Definition restart_locked (name : string) : M (option (string * string)) :=
  let* found := gets (λ s, loaded s !! name) in
  match found with
  | None => ret None
  | Some existing =>
    cancel_token (lm_health_cancel existing) ;;;
    m_stop (lm_instance existing) ;;;
    let* inst := instantiate name in
    match inst with
    | Err err =>
        ret (Some ("restart instantiation failed: " +:+ SupervisorError_display err,
                   "restart instantiation failed"))
    | Ok module =>
      publish (state_event name Initializing) ;;;
      let* schema := gets (λ s, env_config_schema module (world s)) in
      let* host := call (env_host_for name schema) in
      let* ri := m_init module host in
      match ri with
      | Err err =>
          stop_failed_instance module ;;;
          ret (Some ("restart init failed: " +:+ me_message err, "restart init failed"))
      | Ok _ =>
        let* rs := m_start module in
        match rs with
        | Err err =>
            stop_failed_instance module ;;;
            ret (Some ("restart start failed: " +:+ me_message err, "restart start failed"))
        | Ok _ =>
          publish (state_event name Running) ;;;
          let* health_cancel := new_token in
          spawn_health_poll name module health_cancel ;;;
          let* now := instant_now in
          set_loaded <[name := mkLoaded module Running (lm_restart_attempt existing) now
                                 (lm_load_seq existing) health_cancel]> ;;;
          ret None
        end
      end
    end
  end.

Definition restart_failed (name error reason : string) : M unit :=
  publish (error_event name error) ;;;
  report_failure name reason.

Definition perform_scheduled_restart (name : string) : M unit :=
  let* failed := restart_locked name in
  match failed with
  | None => ret ()
  | Some (error, reason) => restart_failed name error reason
  end.

(** ** Health polling *)

Definition mark_degraded (name : string) : M unit :=
  let* found := gets (λ s, loaded s !! name) in
  match found with
  | None => ret ()
  | Some module =>
      if bool_decide (lm_state module = Degraded) then ret ()
      else
        set_loaded <[name := with_state Degraded module]> ;;;
        publish (state_event name Degraded)
  end.

Definition restore_running_if_degraded (name : string) : M unit :=
  let* found := gets (λ s, loaded s !! name) in
  match found with
  | None => ret ()
  | Some module =>
      if bool_decide (lm_state module ≠ Degraded) then ret ()
      else
        set_loaded <[name := with_state Running module]> ;;;
        publish (state_event name Running)
  end.

(** The transition a probe's level drives. *)
Definition act_on_health (name : string) (report : HealthReport) : M unit :=
  match hr_level report with
  | LUnhealthy => report_failure name (hr_message report)
  | LDegraded => mark_degraded name
  | LHealthy => restore_running_if_degraded name
  end.

Definition poll_health_once (name : string) (module : nat) : M unit :=
  let* report := call (env_health module) in
  act_on_health name report.

End Supervisor.

Arguments SupervisorConfig W {_}.
Arguments Sup W : clear implicits.
