(* ===== verification/SupervisorFacts.v ===== *)
(** * What each supervisor operation does

    A weakest-precondition reading of the supervisor's state monad, and with
    it one lemma per operation that describes every branch: the new state, the
    result and the calls and events observed.  [core] is the part of the state
    the lock protects plus the task pool; [shapes] is the observation log with
    the timestamps of events erased. *)
From S2P Require Import Prelude Sdk Backoff Supervisor.

Section Facts.

Context {W : Type} `{!ModuleEnv W} `{!StateStore W}.

(** ** Weakest preconditions *)

Definition wp {A} (m : M A) (Q : A → Sup W → Prop) (s : Sup W) : Prop := Q (m s).1 (m s).2.

Lemma wp_elim {A} (m : M A) (Q : A → Sup W → Prop) s : wp m Q s → Q (m s).1 (m s).2.
Proof. done. Qed.

Lemma wp_run {A} (m : M A) (Q : A → Sup W → Prop) s :
  wp m Q s → ∃ a s', m s = (a, s') ∧ Q a s'.
Proof. unfold wp. destruct (m s) as [a s'] eqn:E. eauto. Qed.

Lemma wp_ret {A} (a : A) Q s : Q a s → wp (ret a) Q s.
Proof. done. Qed.

Lemma wp_bind {A B} (m : M A) (k : A → M B) Q s :
  wp m (λ a s', wp (k a) Q s') s → wp (bind m k) Q s.
Proof. unfold wp, bind. by destruct (m s). Qed.

Lemma wp_gets {A} (f : Sup W → A) Q s : Q (f s) s → wp (gets f) Q s.
Proof. done. Qed.

Definition with_world (w : W) (s : Sup W) : Sup W :=
  mkSup (loaded s) (persisted s) (load_seq s) (life_cancelled s) (cancelled s)
    (next_token s) (next_inst s) (tasks s) (obs s) w.

Lemma wp_call {A} (f : W → A * W) Q s :
  Q (f (world s)).1 (with_world (f (world s)).2 s) → wp (call f) Q s.
Proof. unfold wp, call. by destruct (f (world s)). Qed.

Lemma wp_mono {A} (m : M A) (Q R : A → Sup W → Prop) s :
  wp m Q s → (∀ a s', Q a s' → R a s') → wp m R s.
Proof. unfold wp. auto. Qed.

(** A primitive that computes. *)
Lemma wp_prim {A} (m : M A) (Q : A → Sup W → Prop) s : Q (m s).1 (m s).2 → wp m Q s.
Proof. done. Qed.

Lemma wp_persist Q s :
  Q () (with_world (store_save (persisted s) (world s)).2 s) → wp persist Q s.
Proof. intros H. by apply wp_bind, wp_gets, wp_bind, wp_call, wp_ret. Qed.

(** ** Summaries of a state *)

Definition core (s : Sup W) :=
  (loaded s, persisted s, load_seq s, life_cancelled s, cancelled s, next_token s, tasks s).

Definition shape (o : Obs) : Obs :=
  match o with
  | OPublish e =>
      OPublish (mkEvent (ev_module e) (ev_event_type e) (ev_message e) 0%Z (ev_fields e))
  | _ => o
  end.

Definition shapes (s : Sup W) : list Obs := map shape (obs s).

(** The untimed events. *)
Definition ev_state (name : string) (st : ModuleState) : Obs :=
  OPublish (mkEvent name StateChanged (ModuleStateM.as_str st) 0%Z ∅).
Definition ev_degraded (name reason : string) : Obs :=
  OPublish (mkEvent name StateChanged "degraded" 0%Z {["reason" := reason]}).
Definition ev_error (name msg : string) : Obs :=
  OPublish (mkEvent name Error msg 0%Z ∅).

Lemma core_inv s s' :
  core s' = core s →
  loaded s' = loaded s ∧ persisted s' = persisted s ∧ load_seq s' = load_seq s ∧
  life_cancelled s' = life_cancelled s ∧ cancelled s' = cancelled s ∧
  next_token s' = next_token s ∧ tasks s' = tasks s.
Proof. unfold core. intros. by simplify_eq. Qed.

(** ** Lawful environments

    The modules, the host factory and the external loader never write the
    daemon's [enabled.json], and the monotonic clock never goes back. *)
Definition quiet (w w' : W) : Prop :=
  store_load w' = store_load w ∧ (env_instant w ≤ env_instant w')%Z.

#[global] Instance quiet_preorder : PreOrder quiet.
Proof.
  split; [by intros w; split|]. intros w1 w2 w3 [E1 L1] [E2 L2]. split; [congruence|lia].
Qed.

#[local] Hint Extern 0 (quiet _ _) => reflexivity : core.

Record isolated (cfg : SupervisorConfig W) : Prop := {
  iso_build : ∀ f i w, quiet w (env_build f i w);
  iso_host : ∀ n sc w, quiet w (env_host_for n sc w).2;
  iso_init : ∀ i h w, quiet w (env_init i h w).2;
  iso_start : ∀ i w, quiet w (env_start i w).2;
  iso_stop : ∀ i w, quiet w (env_stop i w).2;
  iso_health : ∀ i w, quiet w (env_health i w).2;
  iso_random : ∀ w, quiet w (env_random w).2;
  iso_external : ∀ ext n i w, cfg_external cfg = Some ext → quiet w (ext n i w).2;
  iso_save : ∀ ps w, (env_instant w ≤ env_instant (store_save ps w).2)%Z;
}.

Context (cfg : SupervisorConfig W).

(** [s'] is reached from [s] by calls into modules only, which are the
    observations [os]. *)
Definition up (os : list Obs) (s s' : Sup W) : Prop :=
  core s' = core s ∧ shapes s' = shapes s ++ os ∧ next_inst s ≤ next_inst s' ∧
  (isolated cfg → quiet (world s) (world s')).

Lemma up_refl s : up [] s s.
Proof. unfold up. rewrite app_nil_r. auto. Qed.

Lemma up_trans os1 os2 s1 s2 s3 : up os1 s1 s2 → up os2 s2 s3 → up (os1 ++ os2) s1 s3.
Proof.
  unfold up. intros (E1 & S1 & N1 & I1) (E2 & S2 & N2 & I2).
  rewrite E2, E1, S2, S1, <- app_assoc. split_and!; auto; [lia|].
  intros Hi. transitivity (world s2); auto.
Qed.

(** Extends a summary by one observed step. *)
Lemma up_snoc os o s s1 s2 :
  up os s s1 → core s2 = core s1 → shapes s2 = shapes s1 ++ [o] → next_inst s1 ≤ next_inst s2 →
  (isolated cfg → quiet (world s1) (world s2)) → up (os ++ [o]) s s2.
Proof. intros H1 ? ? ? ?. eapply up_trans; [done|]. unfold up. auto. Qed.

Lemma up_silent os s s1 s2 :
  up os s s1 → core s2 = core s1 → shapes s2 = shapes s1 → next_inst s1 ≤ next_inst s2 →
  (isolated cfg → quiet (world s1) (world s2)) → up os s s2.
Proof.
  intros H1 ? ? ? ?. rewrite <- (app_nil_r os). eapply up_trans; [done|].
  unfold up. rewrite app_nil_r. auto.
Qed.

Lemma wp_publish_state name st fields Q s :
  (∀ s', up [OPublish (mkEvent name StateChanged (ModuleStateM.as_str st) 0%Z fields)] s s' →
     Q () s') →
  wp (publish (state_event_with_fields name st fields)) Q s.
Proof.
  intros H. apply wp_bind, wp_gets. apply H. unfold up, shapes. simpl.
  rewrite map_app. auto.
Qed.

Lemma wp_publish_error name msg Q s :
  (∀ s', up [ev_error name msg] s s' → Q () s') →
  wp (publish (error_event name msg)) Q s.
Proof.
  intros H. apply wp_bind, wp_gets. apply H. unfold up, shapes. simpl.
  rewrite map_app. auto.
Qed.

Lemma wp_m_init i h Q s :
  (∀ r s', up [OInit i] s s' → Q r s') → wp (m_init i h) Q s.
Proof.
  intros H. unfold m_init. apply wp_bind. apply wp_call. apply H. unfold up, shapes. simpl.
  rewrite map_app. split_and!; auto. intros Hi. apply (iso_init _ Hi).
Qed.

Lemma wp_m_start i Q s :
  (∀ r s', up [OStart i] s s' → Q r s') → wp (m_start i) Q s.
Proof.
  intros H. unfold m_start. apply wp_bind. apply wp_call. apply H. unfold up, shapes. simpl.
  rewrite map_app. split_and!; auto. intros Hi. apply (iso_start _ Hi).
Qed.

Lemma wp_m_stop i Q s :
  (∀ r s', up [OStop i] s s' → Q r s') → wp (m_stop i) Q s.
Proof.
  intros H. unfold m_stop. apply wp_bind. apply wp_call. apply H. unfold up, shapes. simpl.
  rewrite map_app. split_and!; auto. intros Hi. apply (iso_stop _ Hi).
Qed.

Lemma wp_stop_failed i Q s :
  (∀ s', up [OStop i] s s' → Q () s') → wp (stop_failed_instance i) Q s.
Proof.
  intros H. unfold stop_failed_instance. apply wp_bind, wp_m_stop. intros r s' Hup.
  apply wp_ret. auto.
Qed.

(** Reading the schema and building the host leave no observation. *)
Lemma wp_host {A} name module (k : Host → M A) Q s :
  (∀ h s', up [] s s' → wp (k h) Q s') →
  wp (bind (gets (λ s, env_config_schema module (world s)))
        (λ schema, bind (call (env_host_for name schema)) k)) Q s.
Proof.
  intros H. apply wp_bind, wp_gets, wp_bind, wp_call. apply H. unfold up, shapes. simpl.
  rewrite app_nil_r. split_and!; auto. intros Hi. apply (iso_host _ Hi).
Qed.


(** ** [instantiate] and [load] *)

Inductive instantiated (name : string) (s : Sup W) : result nat SupervisorError → Sup W → Prop :=
| inst_ok s' : up [OBuild (next_inst s)] s s' → next_inst s' = S (next_inst s) →
    instantiated name s (Ok (next_inst s)) s'
| inst_unknown s' : cfg_registry cfg !! name = None → up [] s s' →
    instantiated name s (Err (UnknownModule name)) s'
| inst_external msg s' : cfg_registry cfg !! name = None → up [] s s' →
    instantiated name s (Err (ExternalLoad msg)) s'.

Lemma instantiate_spec name s : wp (instantiate cfg name) (instantiated name s) s.
Proof.
  unfold instantiate. destruct (cfg_registry cfg !! name) as [f|] eqn:Hr.
  - apply wp_bind. apply wp_bind. apply wp_bind, wp_call, wp_ret. apply inst_ok; [|done].
    unfold up, shapes; simpl. rewrite map_app. split_and!; auto.
    intros Hi. apply (iso_build _ Hi).
  - destruct (cfg_external cfg) as [ext|] eqn:He.
    2: { apply wp_ret, inst_unknown; [done|]. apply up_refl. }
    apply wp_bind. apply wp_bind, wp_call. simpl.
    assert (∀ o, isolated cfg → quiet (world s) (ext name o (world s)).2) as Hs
      by (intros o Hi; by apply (iso_external _ Hi)).
    destruct (ext name (next_inst s) (world s)) as [r w] eqn:E; simpl.
    specialize (Hs (next_inst s)). rewrite E in Hs. simpl in Hs.
    destruct r as [[]|[n|msg]].
    + apply wp_bind, wp_ret, inst_ok; [|done].
      unfold up, shapes; simpl. rewrite map_app. split_and!; auto.
    + apply wp_ret, inst_unknown; [done|]. unfold up, shapes; simpl. rewrite app_nil_r. auto.
    + apply wp_ret, inst_external; [done|]. unfold up, shapes; simpl. rewrite app_nil_r. auto.
Qed.

(** The state a successful load commits once [start] has returned and
    [running] is published. *)
Definition commit_load (name : string) (i : nat) (s : Sup W) : Sup W :=
  let ps := {[name]} ∪ persisted s in
  mkSup (<[name := mkLoaded i Running 0 (env_instant (world s)) (load_seq s) (next_token s)]>
           (loaded s))
    ps (wrap_u64 (load_seq s + 1)) (life_cancelled s) (cancelled s) (S (next_token s))
    (next_inst s)
    (tasks s ++ [TPoll name i (next_token s) (env_instant (world s) + cfg_health_interval cfg)])
    (obs s) (store_save ps (world s)).2.

Inductive load_outcome (name : string) (s : Sup W) :
  result ModuleState SupervisorError → Sup W → Prop :=
| load_already e : loaded s !! name = Some e →
    load_outcome name s (Ok (lm_state e)) s
| load_no_instance err s' : loaded s !! name = None → instantiated name s (Err err) s' →
    up [] s s' → load_outcome name s (Err err) s'
| load_init_failed i err s' : loaded s !! name = None →
    up [OBuild i; ev_state name Initializing; OInit i; OStop i;
        ev_error name (me_message err); ev_state name Disabled] s s' →
    load_outcome name s (Err (ModuleFailed err)) s'
| load_start_failed i err s' : loaded s !! name = None →
    up [OBuild i; ev_state name Initializing; OInit i; OStart i; OStop i;
        ev_error name (me_message err); ev_state name Disabled] s s' →
    load_outcome name s (Err (ModuleFailed err)) s'
| load_started i s1 : loaded s !! name = None → i = next_inst s → next_inst s < next_inst s1 →
    up [OBuild i; ev_state name Initializing; OInit i; OStart i; ev_state name Running] s s1 →
    load_outcome name s (Ok Running) (commit_load name i s1).

(** Publishing the failure of a load. *)
Lemma wp_fail_load name i err os s0 (Q : _ → Sup W → Prop) s :
  up os s0 s →
  (∀ s', up (os ++ [OStop i; ev_error name (me_message err); ev_state name Disabled]) s0 s' →
     Q (Err (ModuleFailed err)) s') →
  wp (bind (stop_failed_instance i) (λ _,
      bind (publish (error_event name (me_message err))) (λ _,
      bind (publish (state_event name Disabled)) (λ _,
      ret (A := result ModuleState SupervisorError) (Err (ModuleFailed err)))))) Q s.
Proof.
  intros H HQ. apply wp_bind, wp_stop_failed. intros s1 H1.
  apply wp_bind, wp_publish_error. intros s2 H2.
  apply wp_bind, wp_publish_state. intros s3 H3. apply wp_ret, HQ.
  apply (up_trans _ _ _ _ _ H), (up_trans [_] _ _ _ _ H1), (up_trans [_] _ _ _ _ H2 H3).
Qed.

Lemma load_spec name s : wp (load cfg name) (load_outcome name s) s.
Proof.
  unfold load. apply wp_bind, wp_gets.
  destruct (loaded s !! name) as [e|] eqn:Hl; [by apply wp_ret, load_already|].
  apply wp_bind. eapply wp_mono; [apply instantiate_spec|]. intros r s1 Hinst.
  destruct r as [i|err].
  2: { apply wp_ret, load_no_instance; [done..|]. by inversion Hinst. }
  inversion Hinst as [s1' Hb Hn| |]; subst.
  apply wp_bind, wp_publish_state. intros s2 H2.
  apply wp_host. intros h s3 H3.
  apply wp_bind, wp_m_init. intros ri s4 H4.
  pose proof (up_trans _ _ _ _ _ Hb (up_trans _ _ _ _ _ H2 (up_trans _ _ _ _ _ H3 H4))) as Hi.
  simpl in Hi. destruct ri as [[]|err].
  2: { eapply wp_fail_load; [done|]. simpl. intros. by eapply load_init_failed. }
  apply wp_bind, wp_m_start. intros rs s5 H5.
  pose proof (up_trans _ _ _ _ _ Hi H5) as Hs. simpl in Hs. destruct rs as [[]|err].
  2: { eapply wp_fail_load; [done|]. simpl. intros. by eapply load_start_failed. }
  apply wp_bind, wp_publish_state. intros s6 H6.
  pose proof (up_trans _ _ _ _ _ Hs H6) as Hr. simpl in Hr.
  assert (next_inst s < next_inst s6).
  { destruct H2 as (_&_&?&_), H3 as (_&_&?&_), H4 as (_&_&?&_), H5 as (_&_&?&_),
      H6 as (_&_&?&_). lia. }
  do 2 (apply wp_bind, wp_prim; simpl). apply wp_bind, wp_bind, wp_gets, wp_prim; simpl.
  apply wp_bind, wp_gets; simpl. do 2 (apply wp_bind, wp_prim; simpl).
  apply wp_bind, wp_persist, wp_ret.
  by apply (load_started name s _ s6).
Qed.

(** ** Operations that change the core *)

(** [s'] has core [c] and is reached from [s] by the observations [os]. *)
Definition eff c (os : list Obs) (s s' : Sup W) : Prop :=
  core s' = c ∧ shapes s' = shapes s ++ os ∧ next_inst s ≤ next_inst s' ∧
  (isolated cfg → quiet (world s) (world s')).

Lemma eff_up c os1 os2 s s1 s2 : eff c os1 s s1 → up os2 s1 s2 → eff c (os1 ++ os2) s s2.
Proof.
  intros (E1 & S1 & N1 & I1) (E2 & S2 & N2 & I2). unfold eff.
  rewrite E2, S2, S1, <- app_assoc. split_and!; auto; [lia|]. intros Hi. transitivity (world s1); auto.
Qed.

Lemma eff_prim c c' os s s1 s2 :
  eff c os s s1 → core s2 = c' → obs s2 = obs s1 → next_inst s2 = next_inst s1 →
  world s2 = world s1 → eff c' os s s2.
Proof.
  intros (E1 & S1 & N1 & I1) E2 S2 N2 W2. unfold eff, shapes in *.
  rewrite S2, N2, W2. auto.
Qed.

Lemma eff_inv ld ps sq lf cn nt tk os s s' :
  eff (ld, ps, sq, lf, cn, nt, tk) os s s' →
  loaded s' = ld ∧ persisted s' = ps ∧ load_seq s' = sq ∧ life_cancelled s' = lf ∧
  cancelled s' = cn ∧ next_token s' = nt ∧ tasks s' = tk.
Proof. intros (E & _). unfold core in E. by injection E. Qed.

Lemma eff_init s : eff (core s) [] s s.
Proof. apply up_refl. Qed.

(** The core with one health token cancelled. *)
Definition core_cancel (tok : nat) (ld : gmap string LoadedModule) (tk : list Task) (s : Sup W) :=
  (ld, persisted s, load_seq s, life_cancelled s, {[tok]} ∪ cancelled s, next_token s, tk).

Lemma wp_cancel tok Q s :
  (∀ s', eff (core_cancel tok (loaded s) (tasks s) s) [] s s' → Q () s') →
  wp (cancel_token tok) Q s.
Proof. intros H. apply wp_prim, H. by eapply eff_prim; [apply eff_init|..]. Qed.

Lemma stop_locked_none name s : loaded s !! name = None → stop_locked name s = ((), s).
Proof. intros H. unfold stop_locked, bind, gets. by rewrite H. Qed.

Definition stop_obs (name : string) (i : nat) : list Obs :=
  [ev_state name Stopping; OStop i; ev_state name Stopped].

Lemma stop_locked_spec name m s :
  loaded s !! name = Some m →
  wp (stop_locked name)
    (λ _ s', eff (core_cancel (lm_health_cancel m) (delete name (loaded s)) (tasks s) s)
               (stop_obs name (lm_instance m)) s s') s.
Proof.
  intros Hm. unfold stop_locked. apply wp_bind, wp_gets. rewrite Hm.
  apply wp_bind, wp_cancel. intros s1 H1.
  apply wp_bind, wp_publish_state. intros s2 H2.
  apply wp_bind, wp_m_stop. intros r s3 H3.
  apply wp_bind, wp_publish_state. intros s4 H4.
  pose proof (eff_up _ _ _ _ _ _ H1 (up_trans _ _ _ _ _ H2 (up_trans _ _ _ _ _ H3 H4))) as H.
  apply wp_prim.
  eapply eff_prim; [exact H|..]; try done.
  apply eff_inv in H as (?&?&?&?&?&?&?). unfold core, core_cancel; simpl. congruence.
Qed.

(** *** [unload] *)

Lemma unload_none name s : loaded s !! name = None → unload name s = (Ok (), s).
Proof. intros H. unfold unload, bind, gets, ret. by rewrite H. Qed.

(** The state after stopping [name] and before persisting. *)
Lemma unload_spec name m s :
  loaded s !! name = Some m →
  wp (unload name)
    (λ r s', r = Ok () ∧ ∃ s1, eff (core_cancel (lm_health_cancel m) (delete name (loaded s)) (tasks s) s)
                     (stop_obs name (lm_instance m)) s s1 ∧
             s' = mkSup (loaded s1) (persisted s ∖ {[name]}) (load_seq s1) (life_cancelled s1)
                    (cancelled s1) (next_token s1) (next_inst s1) (tasks s1) (obs s1)
                    (store_save (persisted s ∖ {[name]}) (world s1)).2) s.
Proof.
  intros Hm. unfold unload. apply wp_bind, wp_gets. rewrite Hm.
  apply wp_bind. eapply wp_mono; [by apply stop_locked_spec|]. intros [] s1 H1.
  apply wp_bind, wp_prim; simpl. apply wp_bind, wp_persist, wp_ret. split; [done|].
  exists s1. split; [done|].
  apply eff_inv in H1 as (_ & Hp & _). unfold with_world; simpl. by rewrite Hp.
Qed.

(** *** [report_failure] *)

Inductive failure_outcome (name reason : string) (s : Sup W) : Sup W → Prop :=
| failure_ignored : loaded s !! name = None → failure_outcome name reason s s
| failure_parked m a s' : loaded s !! name = Some m →
    a = next_attempt cfg (env_instant (world s)) m → (max_restarts cfg ≤ a)%Z →
    eff (core_cancel (lm_health_cancel m)
           (<[name := with_state Failed (with_attempt a m)]> (loaded s)) (tasks s) s)
      [ev_state name Failed;
       ev_error name ("max restarts (" +:+ pretty (max_restarts cfg) +:+ ") exceeded")] s s' →
    failure_outcome name reason s s'
| failure_retried m a unit due s' : loaded s !! name = Some m →
    a = next_attempt cfg (env_instant (world s)) m → (a < max_restarts cfg)%Z →
    due = (env_instant (world s') + Backoff.delay_for_random unit (a - 1))%Z →
    eff (core_cancel (lm_health_cancel m)
           (<[name := with_state Degraded (with_attempt a m)]> (loaded s))
           (tasks s ++ [TRestart name due]) s)
      [ev_degraded name reason] s s' →
    failure_outcome name reason s s'.

Lemma report_failure_spec name reason s :
  wp (report_failure cfg name reason) (λ _ s', failure_outcome name reason s s') s.
Proof.
  unfold report_failure. apply wp_bind, wp_gets.
  destruct (loaded s !! name) as [m|] eqn:Hm; [|by apply wp_ret, failure_ignored].
  apply wp_bind, wp_prim; simpl. apply wp_bind, wp_gets; simpl.
  destruct (Z.leb_spec (max_restarts cfg) (next_attempt cfg (env_instant (world s)) m)) as [Hle|Hlt].
  - apply wp_bind, wp_prim; simpl. apply wp_bind, wp_publish_state. intros s1 H1.
    apply wp_publish_error. intros s2 H2. eapply failure_parked; [done|reflexivity|done|].
    refine (eff_up _ [] _ s _ _ _ (up_trans _ _ _ _ _ H1 H2)).
    by eapply eff_prim; [apply eff_init|..].
  - apply wp_bind, wp_prim; simpl. apply wp_bind, wp_publish_state. intros s1 H1.
    apply wp_bind, wp_call. apply wp_bind, wp_gets; simpl. apply wp_prim; simpl.
    eapply (failure_retried _ _ _ m _ (env_random (world s1)).1); [done|reflexivity|done|reflexivity|].
    destruct H1 as (E & S & N & I). apply core_inv in E as (?&?&?&?&?&?&?).
    unfold eff, core_cancel, core, shapes in *; simpl in *.
    split_and!; [congruence|done|done|]. intros Hi. etrans; [by apply I|]. apply (iso_random _ Hi).
Qed.

(** *** [perform_scheduled_restart] *)

Inductive restart_outcome (name : string) (s : Sup W) :
  option (string * string) → Sup W → Prop :=
| restart_gone : loaded s !! name = None → restart_outcome name s None s
| restart_no_instance m err s' : loaded s !! name = Some m →
    eff (core_cancel (lm_health_cancel m) (loaded s) (tasks s) s) [OStop (lm_instance m)] s s' →
    restart_outcome name s
      (Some ("restart instantiation failed: " +:+ SupervisorError_display err,
             "restart instantiation failed")) s'
| restart_init_failed m i err s' : loaded s !! name = Some m →
    eff (core_cancel (lm_health_cancel m) (loaded s) (tasks s) s)
      [OStop (lm_instance m); OBuild i; ev_state name Initializing; OInit i; OStop i] s s' →
    restart_outcome name s
      (Some ("restart init failed: " +:+ me_message err, "restart init failed")) s'
| restart_start_failed m i err s' : loaded s !! name = Some m →
    eff (core_cancel (lm_health_cancel m) (loaded s) (tasks s) s)
      [OStop (lm_instance m); OBuild i; ev_state name Initializing; OInit i; OStart i; OStop i]
      s s' →
    restart_outcome name s
      (Some ("restart start failed: " +:+ me_message err, "restart start failed")) s'
| restart_done m i s' : loaded s !! name = Some m → next_inst s ≤ i < next_inst s' →
    eff (<[name := mkLoaded i Running (lm_restart_attempt m) (env_instant (world s'))
                     (lm_load_seq m) (next_token s)]> (loaded s),
         persisted s, load_seq s, life_cancelled s, {[lm_health_cancel m]} ∪ cancelled s,
         S (next_token s),
         tasks s ++ [TPoll name i (next_token s) (env_instant (world s') + cfg_health_interval cfg)])
      [OStop (lm_instance m); OBuild i; ev_state name Initializing; OInit i; OStart i;
       ev_state name Running] s s' →
    restart_outcome name s None s'.

Lemma restart_locked_spec name s : wp (restart_locked cfg name) (restart_outcome name s) s.
Proof.
  unfold restart_locked. apply wp_bind, wp_gets.
  destruct (loaded s !! name) as [m|] eqn:Hm; [|by apply wp_ret, restart_gone].
  apply wp_bind, wp_cancel. intros s1 H1. apply wp_bind, wp_m_stop. intros r s2 H2.
  pose proof (eff_up _ _ _ _ _ _ H1 H2) as Hs. simpl in Hs.
  apply wp_bind. eapply wp_mono; [apply instantiate_spec|]. intros ri s3 Hinst.
  destruct ri as [i|err].
  2: { apply wp_ret, (restart_no_instance _ _ m); [done|]. inversion Hinst; subst;
         by apply (eff_up _ _ _ _ _ _ Hs). }
  inversion Hinst as [s3' Hb Hn| |]; subst.
  apply wp_bind, wp_publish_state. intros s4 H4. apply wp_host. intros h s5 H5.
  apply wp_bind, wp_m_init. intros ri s6 H6.
  pose proof (eff_up _ _ _ _ _ _ Hs (up_trans _ _ _ _ _ Hb (up_trans _ _ _ _ _ H4
    (up_trans _ _ _ _ _ H5 H6)))) as Hi. simpl in Hi.
  destruct ri as [[]|err].
  2: { apply wp_bind, wp_stop_failed. intros s7 H7. eapply wp_ret, restart_init_failed; [done|].
       apply (eff_up _ _ _ _ _ _ Hi H7). }
  apply wp_bind, wp_m_start. intros rs s7 H7. pose proof (eff_up _ _ _ _ _ _ Hi H7) as Ht.
  simpl in Ht. destruct rs as [[]|err].
  2: { apply wp_bind, wp_stop_failed. intros s8 H8. eapply wp_ret, restart_start_failed; [done|].
       apply (eff_up _ _ _ _ _ _ Ht H8). }
  apply wp_bind, wp_publish_state. intros s8 H8. pose proof (eff_up _ _ _ _ _ _ Ht H8) as Hr.
  simpl in Hr. apply wp_bind, wp_prim; simpl. apply wp_bind, wp_bind, wp_gets, wp_prim; simpl.
  apply wp_bind, wp_gets; simpl. apply wp_bind, wp_prim; simpl. apply wp_ret.
  assert (next_inst s ≤ next_inst s2 < next_inst s8).
  { destruct Hs as (_&_&?&_), H4 as (_&_&?&_), H5 as (_&_&?&_), H6 as (_&_&?&_), H7 as (_&_&?&_),
      H8 as (_&_&?&_). lia. }
  eapply (restart_done _ _ m (next_inst s2)); [done|done|].
  eapply eff_prim; [exact Hr|..]; try done.
  apply eff_inv in Hr as (?&?&?&?&?&?&?). unfold core; simpl. congruence.
Qed.

(** *** Health transitions *)

Lemma mark_degraded_spec name s :
  wp (mark_degraded name)
    (λ _ s', s' = s ∨ ∃ m, loaded s !! name = Some m ∧ lm_state m ≠ Degraded ∧
       eff (<[name := with_state Degraded m]> (loaded s), persisted s, load_seq s,
            life_cancelled s, cancelled s, next_token s, tasks s) [ev_state name Degraded] s s') s.
Proof.
  unfold mark_degraded. apply wp_bind, wp_gets.
  destruct (loaded s !! name) as [m|] eqn:Hm; [|by apply wp_ret; left].
  case_bool_decide; [by apply wp_ret; left|].
  apply wp_bind, wp_prim; simpl. apply wp_publish_state. intros s1 H1. right. exists m.
  split_and!; [done..|]. refine (eff_up _ [] _ s _ _ _ H1). by eapply eff_prim; [apply eff_init|..].
Qed.

Lemma restore_running_spec name s :
  wp (restore_running_if_degraded name)
    (λ _ s', s' = s ∨ ∃ m, loaded s !! name = Some m ∧ lm_state m = Degraded ∧
       eff (<[name := with_state Running m]> (loaded s), persisted s, load_seq s,
            life_cancelled s, cancelled s, next_token s, tasks s) [ev_state name Running] s s') s.
Proof.
  unfold restore_running_if_degraded. apply wp_bind, wp_gets.
  destruct (loaded s !! name) as [m|] eqn:Hm; [|by apply wp_ret; left].
  case_bool_decide as Hd; [by apply wp_ret; left|].
  apply wp_bind, wp_prim; simpl. apply wp_publish_state. intros s1 H1. right. exists m.
  split_and!; [done|destruct (decide (lm_state m = Degraded)); tauto|].
  refine (eff_up _ [] _ s _ _ _ H1). by eapply eff_prim; [apply eff_init|..].
Qed.

(** *** [stop_all] *)

(** The observations of stopping the modules of [order] one after another. *)
Fixpoint stops_obs (m : gmap string LoadedModule) (order : list string) : list Obs :=
  match order with
  | [] => []
  | n :: rest => from_option (λ e, stop_obs n (lm_instance e)) [] (m !! n) ++ stops_obs m rest
  end.

Lemma stops_obs_delete m n order :
  n ∉ order → stops_obs (delete n m) order = stops_obs m order.
Proof.
  induction order as [|x order IH]; [done|]. rewrite not_elem_of_cons. intros [Hne Hin].
  simpl. rewrite lookup_delete_ne by done. by rewrite IH.
Qed.

(** Stopping in any order without repetition removes the names, leaves every
    other part of the state and stops each module once, in that order. *)
Lemma stop_all_spec (order : list (string * Z)) s :
  NoDup order.*1 → (∀ n, n ∈ order.*1 → is_Some (loaded s !! n)) →
  wp (stop_all order)
    (λ _ s', loaded s' = foldr delete (loaded s) order.*1 ∧ persisted s' = persisted s ∧
       load_seq s' = load_seq s ∧ life_cancelled s' = life_cancelled s ∧ tasks s' = tasks s ∧
       next_token s' = next_token s ∧
       (∀ t, t ∈ cancelled s' ↔ t ∈ cancelled s ∨
          ∃ n m, n ∈ order.*1 ∧ loaded s !! n = Some m ∧ t = lm_health_cancel m) ∧
       shapes s' = shapes s ++ stops_obs (loaded s) order.*1 ∧
       (isolated cfg → quiet (world s) (world s'))) s.
Proof.
  revert s. induction order as [|[n q] order IH]; intros s Hnd Hl; simpl.
  { apply wp_ret. rewrite app_nil_r. split_and!; try done. intros t.
    setoid_rewrite elem_of_nil. naive_solver. }
  simpl in Hnd. apply NoDup_cons in Hnd as [Hn Hnd].
  destruct (Hl n) as [m Hm]; [apply list_elem_of_here|].
  apply wp_bind. eapply wp_mono; [by apply stop_locked_spec|]. intros [] s1 H1.
  pose proof H1 as (_ & HS & _ & HI). apply eff_inv in H1 as (E1&E2&E3&E4&E5&E6&E7).
  eapply wp_mono; [apply IH; [done|]|].
  { intros n' Hin. rewrite E1, lookup_delete_ne by (by intros ->).
    apply Hl. by apply list_elem_of_further. }
  intros [] s2 (F1&F2&F3&F4&F5&F6&F8&F9&F10).
  rewrite F1, F2, F3, F4, F5, F6, F9, E1, E2, E3, E4, E6, E7, HS.
  split_and!; try done.
  - symmetry. apply delete_foldr_delete.
  - intros t. rewrite F8, E5, E1, elem_of_union, elem_of_singleton.
    setoid_rewrite elem_of_cons. setoid_rewrite lookup_delete_Some. split.
    + intros [[->|?]|(n' & m' & ? & [? ?] & ->)]; eauto 10.
    + intros [?|(n' & m' & [->|Hin] & ? & ->)]; [by left; right|left; left; congruence|].
      right. exists n', m'. split_and!; try done. by intros ->.
  - rewrite stops_obs_delete by done. rewrite Hm. simpl.
    by rewrite <- app_assoc.
  - intros Hi. transitivity (world s1); auto.
Qed.

End Facts.
