(* ===== verification/SupervisorSteps.v ===== *)
(** * The supervisor as a transition system

    Requests and background tasks interleave.  A [step] is one critical
    section of the supervisor's lock (or one turn of a background task); any
    step may come next, so every interleaving of the daemon's tasks at that
    granularity is a run.  A health-poll loop whose token is cancelled may
    still take one more turn when its sleep has also elapsed, since
    [tokio::select!] picks either ready branch; likewise for a due restart
    and the shutdown token.

    The invariants proved here hold in every state reachable from boot, under
    arbitrary module behaviour. *)
From S2P Require Import Prelude Sdk Backoff Supervisor SupervisorFacts.

Section Steps.

Context {W : Type} `{!ModuleEnv W} `{!StateStore W} (cfg : SupervisorConfig W).

Definition with_tasks (tk : list Task) (s : Sup W) : Sup W :=
  mkSup (loaded s) (persisted s) (load_seq s) (life_cancelled s) (cancelled s)
    (next_token s) (next_inst s) tk (obs s) (world s).

(** One turn of the loop in [spawn_health_poll]: act on the report read, then
    go back to sleep. *)
Definition poll_act (name : string) (i tok : nat) (report : HealthReport) : M unit :=
  bind (act_on_health cfg name report) (λ _, spawn_health_poll cfg name i tok).

(** A due restart: the locked part, its failure being reported by a later
    turn of the same task. *)
Definition run_restart (name : string) : M unit :=
  bind (restart_locked cfg name) (λ failed,
    match failed with
    | None => ret ()
    | Some (error, reason) => spawn (TReport name error reason)
    end).

Inductive step : Sup W → Sup W → Prop :=
| step_load name s : step s (load cfg name s).2
| step_unload name s : step s (unload name s).2
| step_signal s : step s (cancel_life s).2
| step_shutdown s : life_cancelled s = true → step s (shutdown_locked s).2
| step_probe name i tok wake t1 t2 s :
    tasks s = t1 ++ TPoll name i tok wake :: t2 → (wake ≤ env_instant (world s))%Z →
    step s (with_tasks (t1 ++ TPolled name i tok (env_health i (world s)).1 :: t2)
              (with_world (env_health i (world s)).2 s))
| step_poll_act name i tok report t1 t2 s :
    tasks s = t1 ++ TPolled name i tok report :: t2 →
    step s (poll_act name i tok report (with_tasks (t1 ++ t2) s)).2
| step_poll_exit name i tok wake t1 t2 s :
    tasks s = t1 ++ TPoll name i tok wake :: t2 → tok ∈ cancelled s →
    step s (with_tasks (t1 ++ t2) s)
| step_restart name due t1 t2 s :
    tasks s = t1 ++ TRestart name due :: t2 → (due ≤ env_instant (world s))%Z →
    step s (run_restart name (with_tasks (t1 ++ t2) s)).2
| step_abandon name due t1 t2 s :
    tasks s = t1 ++ TRestart name due :: t2 → life_cancelled s = true →
    step s (with_tasks (t1 ++ t2) s)
| step_report name error reason t1 t2 s :
    tasks s = t1 ++ TReport name error reason :: t2 →
    step s (restart_failed cfg name error reason (with_tasks (t1 ++ t2) s)).2
| step_env w s :
    quiet (world s) w → step s (with_world w s).

(** The daemon at boot, before the enabled modules are loaded. *)
Definition boot (w : W) : Sup W := (set_persisted (λ _, boot_state w) (new w)).2.

Definition reachable (k : nat) (w : W) (s : Sup W) : Prop := nsteps step k (boot w) s.

(** ** The invariant *)

Definition stored_state (st : ModuleState) : Prop :=
  st = Running ∨ st = Degraded ∨ st = Failed.

Definition poll_token (t : Task) : option nat :=
  match t with
  | TPoll _ _ tok _ | TPolled _ _ tok _ => Some tok
  | _ => None
  end.

Definition restart_name (t : Task) : option string :=
  match t with
  | TRestart n _ | TReport n _ _ => Some n
  | _ => None
  end.

Definition watched (tk : list Task) (tok : nat) : Prop :=
  ∃ t, t ∈ tk ∧ poll_token t = Some tok.

Definition pending (tk : list Task) (name : string) : Prop :=
  ∃ t, t ∈ tk ∧ restart_name t = Some name.

(** A loaded module is polled, waits for a restart, has exhausted its restart
    budget, or the daemon is going down. *)
Definition covered (tk : list Task) (cn : gset nat) (life : bool) (name : string)
    (m : LoadedModule) : Prop :=
  (watched tk (lm_health_cancel m) ∧ lm_health_cancel m ∉ cn) ∨ pending tk name ∨
  life = true ∨ (max_restarts cfg ≤ lm_restart_attempt m)%Z.

Definition inj_on {A} (f : LoadedModule → A) (ld : gmap string LoadedModule) : Prop :=
  ∀ n1 n2 m1 m2, ld !! n1 = Some m1 → ld !! n2 = Some m2 → f m1 = f m2 → n1 = n2.

(** The part of the invariant about the locked state. *)
Record Base (k : nat) (ld : gmap string LoadedModule) (ps : gset string) (sq : Z) (nt : nat)
    (cn : gset nat) : Prop := {
  base_state : ∀ n m, ld !! n = Some m → stored_state (lm_state m);
  base_enabled : dom ld ⊆ ps;
  base_seq_bound : (0 ≤ sq ≤ Z.of_nat k)%Z;
  base_seq : ∀ n m, ld !! n = Some m → (0 ≤ lm_load_seq m < sq)%Z;
  base_seq_inj : inj_on lm_load_seq ld;
  base_tok : ∀ n m, ld !! n = Some m → lm_health_cancel m < nt;
  base_tok_inj : inj_on lm_health_cancel ld;
  base_cancelled : ∀ t, t ∈ cn → t < nt;
}.

Definition base_of (k : nat) (s : Sup W) : Prop :=
  Base k (loaded s) (persisted s) (load_seq s) (next_token s) (cancelled s).

Definition all_covered (s : Sup W) : Prop :=
  ∀ n m, loaded s !! n = Some m → covered (tasks s) (cancelled s) (life_cancelled s) n m.

Definition Inv (k : nat) (s : Sup W) : Prop := base_of k s ∧ all_covered s.

(** *** Maps of loaded modules *)

Lemma inj_on_delete {A} (f : LoadedModule → A) ld n : inj_on f ld → inj_on f (delete n ld).
Proof. intros H n1 n2 m1 m2 [_ H1]%lookup_delete_Some [_ H2]%lookup_delete_Some. by eapply H. Qed.

(** Replacing an entry by one with the same key. *)
Lemma inj_on_update {A} (f : LoadedModule → A) ld n m m' :
  inj_on f ld → ld !! n = Some m → f m' = f m → inj_on f (<[n := m']> ld).
Proof.
  intros H Hn Hf n1 n2 m1 m2.
  rewrite !lookup_insert_Some. intros [[<- <-]|[? ?]] [[<- <-]|[? ?]] E; [done|..|by eapply H].
  - eapply H; [done..|congruence].
  - eapply H; [done..|congruence].
Qed.

(** Adding an entry whose key is fresh. *)
Lemma inj_on_fresh {A} (f : LoadedModule → A) ld n m' :
  inj_on f ld → (∀ n' m, ld !! n' = Some m → f m ≠ f m') → inj_on f (<[n := m']> ld).
Proof.
  intros H Hf n1 n2 m1 m2. rewrite !lookup_insert_Some.
  intros [[<- <-]|[? ?]] [[<- <-]|[? ?]] E; [done|..|by eapply H].
  - by destruct (Hf n2 m2).
  - by destruct (Hf n1 m1).
Qed.

(** *** Tasks *)

Lemma watched_app tk1 tk2 tok : watched (tk1 ++ tk2) tok ↔ watched tk1 tok ∨ watched tk2 tok.
Proof. unfold watched. setoid_rewrite elem_of_app. naive_solver. Qed.

Lemma watched_cons t tk tok : watched (t :: tk) tok ↔ poll_token t = Some tok ∨ watched tk tok.
Proof. unfold watched. setoid_rewrite elem_of_cons. naive_solver. Qed.

Lemma watched_nil tok : ¬ watched [] tok.
Proof. intros (t & Ht & _). by apply not_elem_of_nil in Ht. Qed.

Lemma pending_app tk1 tk2 n : pending (tk1 ++ tk2) n ↔ pending tk1 n ∨ pending tk2 n.
Proof. unfold pending. setoid_rewrite elem_of_app. naive_solver. Qed.

Lemma pending_cons t tk n : pending (t :: tk) n ↔ restart_name t = Some n ∨ pending tk n.
Proof. unfold pending. setoid_rewrite elem_of_cons. naive_solver. Qed.

Lemma pending_nil n : ¬ pending [] n.
Proof. intros (t & Ht & _). by apply not_elem_of_nil in Ht. Qed.

(** Decides the task-pool goals once the pools are explicit lists. *)
Ltac pool :=
  rewrite ?watched_app, ?watched_cons, ?pending_app, ?pending_cons in *; simpl in *;
  pose proof watched_nil; pose proof pending_nil; naive_solver.

(** A module stays covered when its poll loop and its pending restarts do. *)
Lemma covered_mono tk tk' (cn cn' : gset nat) life n m m' :
  covered tk cn life n m →
  lm_health_cancel m' = lm_health_cancel m → lm_restart_attempt m' = lm_restart_attempt m →
  (lm_health_cancel m ∉ cn → lm_health_cancel m ∉ cn') →
  (lm_health_cancel m ∉ cn → watched tk (lm_health_cancel m) → watched tk' (lm_health_cancel m)) →
  (pending tk n → pending tk' n) →
  covered tk' cn' life n m'.
Proof. unfold covered. intros H -> ->. naive_solver. Qed.

(** *** The locked state is preserved *)

Lemma base_mono k k' ld ps sq nt cn : k ≤ k' → Base k ld ps sq nt cn → Base k' ld ps sq nt cn.
Proof. intros ? []. split; try done. lia. Qed.

(** A new entry with the next sequence number and a fresh token. *)
Lemma base_insert k ld ps sq nt cn n m :
  Base k ld ps sq nt cn → (Z.of_nat k + 1 < 2 ^ 64)%Z →
  stored_state (lm_state m) → lm_load_seq m = sq → lm_health_cancel m = nt →
  Base (S k) (<[n := m]> ld) ({[n]} ∪ ps) (wrap_u64 (sq + 1)) (S nt) cn.
Proof.
  intros [] Hk Hst Hsq Htok. unfold wrap_u64. rewrite wrap_u_small by lia. split.
  - intros n' m' [[_ <-]|[_ H]]%lookup_insert_Some; eauto.
  - rewrite dom_insert_L. set_solver.
  - lia.
  - intros n' m' [[_ <-]|[_ H]]%lookup_insert_Some; [lia|]. apply base_seq0 in H. lia.
  - apply inj_on_fresh; [done|]. intros n' m' H. apply base_seq0 in H. lia.
  - intros n' m' [[_ <-]|[_ H]]%lookup_insert_Some; [lia|]. apply base_tok0 in H. lia.
  - apply inj_on_fresh; [done|]. intros n' m' H. apply base_tok0 in H. lia.
  - intros t Ht. apply base_cancelled0 in Ht. lia.
Qed.

(** An entry replaced in place, keeping its sequence number, with its own or a
    fresh token. *)
Lemma base_update k ld ps sq nt nt' cn n m m' :
  Base k ld ps sq nt cn → ld !! n = Some m → stored_state (lm_state m') →
  lm_load_seq m' = lm_load_seq m →
  (lm_health_cancel m' = lm_health_cancel m ∧ nt' = nt ∨ lm_health_cancel m' = nt ∧ nt' = S nt) →
  Base k (<[n := m']> ld) ps sq nt' cn.
Proof.
  intros [] Hn Hst Hsq Htok.
  assert (nt ≤ nt') by (destruct Htok; lia). pose proof (base_tok0 _ _ Hn). split.
  - intros n' x [[_ <-]|[_ H']]%lookup_insert_Some; eauto.
  - rewrite dom_insert_L. assert (n ∈ dom ld) by (apply elem_of_dom; eauto). set_solver.
  - done.
  - intros n' x [[_ <-]|[_ H']]%lookup_insert_Some; [rewrite Hsq|]; eauto.
  - by eapply inj_on_update.
  - intros n' x [[_ <-]|[_ H']]%lookup_insert_Some; [lia|]. apply base_tok0 in H'. lia.
  - destruct Htok as [[E _]|[E _]]; [by eapply inj_on_update|].
    apply inj_on_fresh; [done|]. intros n' x H'. apply base_tok0 in H'. lia.
  - intros t Ht. apply base_cancelled0 in Ht. lia.
Qed.

Lemma base_delete k ld ps sq nt cn n :
  Base k ld ps sq nt cn → Base k (delete n ld) (ps ∖ {[n]}) sq nt cn.
Proof.
  intros []. split; try done; try by apply inj_on_delete.
  - intros n' m' [_ H]%lookup_delete_Some. eauto.
  - rewrite dom_delete_L. set_solver.
  - intros n' m' [_ H]%lookup_delete_Some. eauto.
  - intros n' m' [_ H]%lookup_delete_Some. eauto.
Qed.

Lemma base_cancel k ld ps sq nt cn n m :
  Base k ld ps sq nt cn → ld !! n = Some m →
  Base k ld ps sq nt ({[lm_health_cancel m]} ∪ cn).
Proof.
  intros [] Hn. split; try done. intros t [->%elem_of_singleton|Ht]%elem_of_union; eauto.
Qed.

Lemma base_load k s name :
  base_of k s → (Z.of_nat k + 1 < 2 ^ 64)%Z → base_of (S k) (load cfg name s).2.
Proof.
  intros H Hk. pose proof (load_spec cfg name s) as Hs. unfold wp in Hs.
  destruct Hs as [e He|err s' Hl _ Hu|i err s' Hl Hu|i err s' Hl Hu|i s1 Hl -> _ Hu];
    try (by eapply base_mono; [|exact H]; lia);
    destruct Hu as [Hu _]; apply core_inv in Hu as (E1&E2&E3&E4&E5&E6&E7); unfold base_of.
  1-3: rewrite E1, E2, E3, E5, E6; by eapply base_mono; [|exact H]; lia.
  simpl. rewrite E1, E2, E3, E5, E6. apply base_insert; try done. by left.
Qed.

Lemma base_unload k s name : base_of k s → base_of k (unload name s).2.
Proof.
  intros H. destruct (loaded s !! name) as [m|] eqn:Hm; [|by rewrite unload_none].
  pose proof (unload_spec cfg name m s Hm) as (_ & s1 & He & ->).
  apply eff_inv in He as (E1&E2&E3&E4&E5&E6&E7). unfold base_of; simpl.
  rewrite E1, E3, E5, E6. eapply base_delete, base_cancel; done.
Qed.

Lemma base_failure k s name reason :
  base_of k s → base_of k (report_failure cfg name reason s).2.
Proof.
  intros H. pose proof (report_failure_spec cfg name reason s) as Hs. unfold wp in Hs.
  destruct Hs as [|m a s' Hm _ _ He|m a u due s' Hm _ _ _ He]; [done|..];
    apply eff_inv in He as (E1&E2&E3&E4&E5&E6&E7); unfold base_of;
    rewrite E1, E2, E3, E5, E6.
  - eapply base_update; [by eapply base_cancel|done|right; by right|done|by left].
  - eapply base_update; [by eapply base_cancel|done|right; by left|done|by left].
Qed.

Lemma base_restart k s name : base_of k s → base_of k (restart_locked cfg name s).2.
Proof.
  intros H. pose proof (restart_locked_spec cfg name s) as Hs. unfold wp in Hs.
  destruct Hs as [|m err s' Hm He|m i err s' Hm He|m i err s' Hm He|m i s' Hm _ He]; [done|..];
    apply eff_inv in He as (E1&E2&E3&E4&E5&E6&E7); unfold base_of; rewrite E1, E2, E3, E5, E6.
  1-3: by eapply base_cancel.
  eapply base_update; [by eapply base_cancel|done|by left|done|by right].
Qed.

Lemma base_act k s name report :
  base_of k s → base_of k (act_on_health cfg name report s).2.
Proof.
  intros H. unfold act_on_health. destruct (hr_level report).
  - pose proof (restore_running_spec cfg name s) as [->|(m & Hm & _ & He)]; [done|].
    apply eff_inv in He as (E1&E2&E3&E4&E5&E6&E7). unfold base_of. rewrite E1, E2, E3, E5, E6.
    eapply base_update; [done|done|by left|done|by left].
  - pose proof (mark_degraded_spec cfg name s) as [->|(m & Hm & _ & He)]; [done|].
    apply eff_inv in He as (E1&E2&E3&E4&E5&E6&E7). unfold base_of. rewrite E1, E2, E3, E5, E6.
    eapply base_update; [done|done|right; by left|done|by left].
  - by apply base_failure.
Qed.

(** *** Shutdown *)

Lemma shutdown_order_perm (ld : gmap string LoadedModule) :
  shutdown_order ld ≡ₚ map (λ p, (p.1, lm_load_seq p.2)) (map_to_list ld).
Proof. apply merge_sort_Permutation. Qed.

Lemma shutdown_order_names (ld : gmap string LoadedModule) :
  (shutdown_order ld).*1 ≡ₚ (map_to_list ld).*1.
Proof.
  rewrite shutdown_order_perm. rewrite <- list_fmap_compose. done.
Qed.

Lemma shutdown_order_nodup (ld : gmap string LoadedModule) : NoDup (shutdown_order ld).*1.
Proof. rewrite shutdown_order_names. apply NoDup_fst_map_to_list. Qed.

Lemma shutdown_order_elem (ld : gmap string LoadedModule) n :
  n ∈ (shutdown_order ld).*1 ↔ is_Some (ld !! n).
Proof.
  rewrite shutdown_order_names, list_elem_of_fmap. split.
  - intros ([n' m] & -> & H%elem_of_map_to_list). eauto.
  - intros [m H]. exists (n, m). split; [done|]. by apply elem_of_map_to_list.
Qed.

#[global] Instance seq_ge_total : Total seq_ge.
Proof. intros a b. unfold seq_ge. lia. Qed.
#[global] Instance seq_ge_trans : Transitive seq_ge.
Proof. intros a b c. unfold seq_ge. lia. Qed.

Lemma shutdown_order_sorted (ld : gmap string LoadedModule) :
  StronglySorted seq_ge (shutdown_order ld).
Proof. apply StronglySorted_merge_sort; apply _. Qed.

Lemma shutdown_order_seq (ld : gmap string LoadedModule) n q :
  (n, q) ∈ shutdown_order ld ↔ ∃ m, ld !! n = Some m ∧ lm_load_seq m = q.
Proof.
  rewrite shutdown_order_perm. rewrite list_elem_of_fmap. split.
  - intros ([n' m] & E & H%elem_of_map_to_list). simplify_eq/=. eauto.
  - intros (m & H & <-). exists (n, m). split; [done|]. by apply elem_of_map_to_list.
Qed.

Lemma shutdown_locked_spec s :
  wp shutdown_locked
    (λ _ s', loaded s' = ∅ ∧ persisted s' = persisted s ∧ load_seq s' = load_seq s ∧
       life_cancelled s' = life_cancelled s ∧ tasks s' = tasks s ∧
       next_token s' = next_token s ∧
       (∀ t, t ∈ cancelled s' ↔ t ∈ cancelled s ∨
          ∃ n m, loaded s !! n = Some m ∧ t = lm_health_cancel m) ∧
       shapes s' = shapes s ++ stops_obs (loaded s) (shutdown_order (loaded s)).*1 ∧
       (isolated cfg → quiet (world s) (world s'))) s.
Proof.
  unfold shutdown_locked. apply wp_bind, wp_gets.
  eapply wp_mono; [apply (stop_all_spec cfg)|].
  - apply shutdown_order_nodup.
  - intros n. apply shutdown_order_elem.
  - intros [] s' (E1&E2&E3&E4&E5&E6&E8&E9&E10). split_and!; try done.
    + rewrite E1. apply map_eq. intros n. rewrite lookup_empty.
      destruct (foldr delete (loaded s) (shutdown_order (loaded s)).*1 !! n) as [m|] eqn:H; [|done].
      apply lookup_foldr_delete_Some in H as [Hn Hm]. destruct Hn. apply shutdown_order_elem. eauto.
    + intros t. rewrite E8. setoid_rewrite shutdown_order_elem. naive_solver.
Qed.

Lemma base_shutdown k s : base_of k s → base_of k (shutdown_locked s).2.
Proof.
  intros []. destruct (shutdown_locked_spec s) as (E1&E2&E3&_&_&E6&E8&_).
  unfold base_of. rewrite E1, E2, E3, E6. split; try done.
  intros t [Ht|(n & m & Hm & ->)]%E8; eauto.
Qed.

(** *** Coverage is preserved *)

(** What a step may do to the pool and the tokens without uncovering the
    modules other than [name]. *)
Definition keeps (name : string) (s : Sup W) (tk : list Task) (s' : Sup W) : Prop :=
  life_cancelled s' = life_cancelled s ∧
  (∀ n m, n ≠ name → loaded s' !! n = Some m → loaded s !! n = Some m) ∧
  (∀ n m, n ≠ name → loaded s !! n = Some m →
     lm_health_cancel m ∉ cancelled s → lm_health_cancel m ∉ cancelled s') ∧
  (∀ t, t ∈ tk → t ∈ tasks s').

Lemma keeps_covered name s tk s' n m :
  all_covered s → keeps name s tk s' → n ≠ name → loaded s' !! n = Some m →
  (∀ tok, tok ∉ cancelled s → watched (tasks s) tok → watched tk tok) →
  (pending (tasks s) n → pending tk n) →
  covered (tasks s') (cancelled s') (life_cancelled s') n m.
Proof.
  intros Hc (El & Hl & Hcn & Ht) Hne Hm Hw Hp. rewrite El. pose proof (Hl _ _ Hne Hm) as Hm0.
  eapply covered_mono; [by apply Hc|done|done|by eapply Hcn|..].
  - intros Hn Hwt. destruct (Hw _ Hn Hwt) as (t & Hin & E). exists t. auto.
  - intros Hpe. destruct (Hp Hpe) as (t & Hin & E). exists t. auto.
Qed.

(** Cancelling the token of [name] leaves every other module's token alive. *)
Lemma other_token k s name m n' m' (cn : gset nat) :
  base_of k s → loaded s !! name = Some m → loaded s !! n' = Some m' → n' ≠ name →
  lm_health_cancel m' ∉ cn → lm_health_cancel m' ∉ {[lm_health_cancel m]} ∪ cn.
Proof.
  intros [] Hm Hm' Hne Hn [E%elem_of_singleton|?]%elem_of_union; [|done].
  destruct Hne. by eapply base_tok_inj0.
Qed.

(** The reported module ends up parked or with a restart pending. *)
Lemma covered_failure k s tk name reason :
  base_of k s → tk = tasks s →
  let s' := (report_failure cfg name reason s).2 in
  keeps name s tk s' ∧
  (∀ m, loaded s' !! name = Some m →
     covered (tasks s') (cancelled s') (life_cancelled s') name m).
Proof.
  intros Hb -> s'. pose proof (report_failure_spec cfg name reason s) as Hs. unfold wp in Hs.
  subst s'. destruct Hs as [Hn|m a s' Hm _ Ha He|m a u due s' Hm _ _ _ He].
  - split; [by split_and!|]. intros m. by rewrite Hn.
  - apply eff_inv in He as (E1&E2&E3&E4&E5&E6&E7). unfold keeps. rewrite E1, E4, E5, E7.
    split; [split_and!|]; try done.
    + intros n' m' ?. by rewrite lookup_insert_ne.
    + intros. by eapply other_token.
    + intros m'. rewrite lookup_insert_eq. intros [= <-]. right; right; right. done.
  - apply eff_inv in He as (E1&E2&E3&E4&E5&E6&E7). unfold keeps. rewrite E1, E4, E5, E7.
    split; [split_and!|]; try done.
    + intros n' m' ?. by rewrite lookup_insert_ne.
    + intros. by eapply other_token.
    + intros t Ht. by apply elem_of_app; left.
    + intros m'. rewrite lookup_insert_eq. intros [= <-]. right; left. pool.
Qed.

(** A state change driven by a probe touches no token and no task. *)
Lemma covered_act k s name report :
  base_of k s →
  let s' := (act_on_health cfg name report s).2 in
  keeps name s (tasks s) s' ∧
  (∀ m, loaded s' !! name = Some m →
     (∃ m0, loaded s !! name = Some m0 ∧ lm_health_cancel m = lm_health_cancel m0 ∧
        lm_restart_attempt m = lm_restart_attempt m0 ∧ cancelled s' = cancelled s ∧
        tasks s' = tasks s ∧ life_cancelled s' = life_cancelled s) ∨
     covered (tasks s') (cancelled s') (life_cancelled s') name m).
Proof.
  intros Hb s'. subst s'. unfold act_on_health.
  destruct (hr_level report).
  - pose proof (restore_running_spec cfg name s) as [->|(m & Hm & _ & He)].
    { split; [by split_and!|]. left. eauto 10. }
    apply eff_inv in He as (E1&E2&E3&E4&E5&E6&E7). unfold keeps. rewrite E1, E4, E5, E7.
    split; [split_and!; try done; intros n' m' ?; by rewrite lookup_insert_ne|].
    intros m'. rewrite lookup_insert_eq. intros [= <-]. left. exists m. by split_and!.
  - pose proof (mark_degraded_spec cfg name s) as [->|(m & Hm & _ & He)].
    { split; [by split_and!|]. left. eauto 10. }
    apply eff_inv in He as (E1&E2&E3&E4&E5&E6&E7). unfold keeps. rewrite E1, E4, E5, E7.
    split; [split_and!; try done; intros n' m' ?; by rewrite lookup_insert_ne|].
    intros m'. rewrite lookup_insert_eq. intros [= <-]. left. exists m. by split_and!.
  - destruct (covered_failure k s (tasks s) name (hr_message report) Hb eq_refl) as [Hk Hc].
    split; [done|]. intros m Hm. right. by apply Hc.
Qed.

Lemma covered_poll_act k s name i tok report t1 t2 :
  Inv k s → tasks s = t1 ++ TPolled name i tok report :: t2 →
  all_covered (poll_act name i tok report (with_tasks (t1 ++ t2) s)).2.
Proof.
  intros [Hb Hc] Ht. set (s0 := with_tasks (t1 ++ t2) s).
  destruct (covered_act k s0 name report Hb) as [(El & Hl & Hcn & Hin) Hname].
  unfold poll_act, bind, spawn_health_poll, instant_now, gets, spawn; simpl.
  destruct (act_on_health cfg name report s0) as [[] s1] eqn:E; simpl in *.
  set (wake := (env_instant (world s1) + cfg_health_interval cfg)%Z).
  assert (∀ tk', watched (tasks s) tk' → watched (tasks s1 ++ [TPoll name i tok wake]) tk') as Hw.
  { intros tk'. rewrite Ht. intros (t & H & E'). rewrite elem_of_app, elem_of_cons in H.
    destruct H as [H|[->|H]].
    - exists t. rewrite elem_of_app. split; [left; apply Hin, elem_of_app; by left|done].
    - exists (TPoll name i tok wake). rewrite elem_of_app. split; [right; apply list_elem_of_here|done].
    - exists t. rewrite elem_of_app. split; [left; apply Hin, elem_of_app; by right|done]. }
  assert (∀ n', pending (tasks s) n' → pending (tasks s1 ++ [TPoll name i tok wake]) n') as Hp.
  { intros n'. rewrite Ht. intros (t & H & E'). rewrite elem_of_app, elem_of_cons in H.
    exists t. rewrite elem_of_app. split; [|done]. left. apply Hin, elem_of_app.
    destruct H as [H|[->|H]]; [by left|done|by right]. }
  intros n m Hm. simpl in *. destruct (decide (n = name)) as [->|Hne].
  - destruct (Hname m Hm) as [(m0 & Hm0 & Ek & Ea & Ec & Et & Elf)|Hcov].
    + rewrite Ec, Elf. eapply covered_mono; [by apply (Hc name m0)|done|done|done|..]; auto.
    + eapply covered_mono; [exact Hcov|done|done|done|..]; intros; pool.
  - rewrite El. eapply covered_mono; [by apply (Hc n m), Hl|done|done|by eapply Hcn, Hl|..]; auto.
Qed.

Lemma covered_load k s name : Inv k s → all_covered (load cfg name s).2.
Proof.
  intros [Hb Hc]. pose proof (load_spec cfg name s) as Hs. unfold wp in Hs.
  destruct Hs as [e He|err s' Hl _ Hu|i err s' Hl Hu|i err s' Hl Hu|i s1 Hl -> _ Hu]; try done;
    destruct Hu as [Hu _]; apply core_inv in Hu as (E1&E2&E3&E4&E5&E6&E7);
    intros n m; simpl; rewrite E1, E4, E5, E7; [by apply Hc..|].
  intros [[<- <-]|[Hne Hm]]%lookup_insert_Some.
  - left. simpl. rewrite E6. split; [pool|]. intros Hin%(base_cancelled _ _ _ _ _ _ Hb). lia.
  - eapply covered_mono; [by apply Hc|done..| |]; intros; pool.
Qed.

Lemma covered_unload k s name : Inv k s → all_covered (unload name s).2.
Proof.
  intros [Hb Hc]. destruct (loaded s !! name) as [m|] eqn:Hm; [|by rewrite unload_none].
  pose proof (unload_spec cfg name m s Hm) as (_ & s1 & He & ->).
  apply eff_inv in He as (E1&E2&E3&E4&E5&E6&E7). intros n m'; simpl.
  rewrite E1, E4, E5, E7. intros [Hne Hm']%lookup_delete_Some.
  eapply covered_mono; [by apply Hc|done..| |done|done]. by eapply other_token.
Qed.

(** A restart either leaves a live poll loop or a report to come. *)
Lemma covered_restart k s name due t1 t2 :
  Inv k s → tasks s = t1 ++ TRestart name due :: t2 →
  all_covered (run_restart name (with_tasks (t1 ++ t2) s)).2.
Proof.
  intros [Hb Hc] Ht. set (s0 := with_tasks (t1 ++ t2) s).
  assert (∀ n m', n ≠ name → loaded s !! n = Some m' → ∀ tk (cn : gset nat),
    (∀ t, t ∈ t1 ++ t2 → t ∈ tk) →
    (lm_health_cancel m' ∉ cancelled s → lm_health_cancel m' ∉ cn) →
    covered tk cn (life_cancelled s) n m') as Hother.
  { intros n m' Hne Hm' tk cn Htk Hcn.
    eapply covered_mono; [by apply Hc|done|done|done|..]; rewrite Ht.
    - intros _ (t & H & E). exists t. split; [|done]. apply Htk.
      rewrite elem_of_app, elem_of_cons in *. destruct H as [?|[->|?]]; [by left|done|by right].
    - intros (t & H & E). exists t. split; [|done]. apply Htk.
      rewrite elem_of_app, elem_of_cons in *.
      destruct H as [?|[->|?]]; [by left|simpl in E; congruence|by right]. }
  pose proof (restart_locked_spec cfg name s0) as Hs. unfold wp in Hs.
  unfold run_restart, bind. destruct (restart_locked cfg name s0) as [r s1]. simpl in Hs.
  destruct Hs as [Hn|m err s' Hm He|m i err s' Hm He|m i err s' Hm He|m i s' Hm Hi He];
    try (apply eff_inv in He as (E1&E2&E3&E4&E5&E6&E7)); intros n m' Hm'; simpl in *.
  - apply Hother; try done. by intros ->; rewrite Hn in Hm'.
  - rewrite E1 in Hm'. rewrite E4, E5, E7. destruct (decide (n = name)) as [->|Hne].
    + right; left. pool.
    + apply Hother; try done; [intros; by apply elem_of_app; left|by eapply (other_token k s name)].
  - rewrite E1 in Hm'. rewrite E4, E5, E7. destruct (decide (n = name)) as [->|Hne].
    + right; left. pool.
    + apply Hother; try done; [intros; by apply elem_of_app; left|by eapply (other_token k s name)].
  - rewrite E1 in Hm'. rewrite E4, E5, E7. destruct (decide (n = name)) as [->|Hne].
    + right; left. pool.
    + apply Hother; try done; [intros; by apply elem_of_app; left|by eapply (other_token k s name)].
  - rewrite E1 in Hm'. rewrite E4, E5, E7.
    apply lookup_insert_Some in Hm' as [[<- <-]|[Hne Hm']].
    + left. simpl. split; [pool|].
      pose proof (base_tok _ _ _ _ _ _ Hb _ _ Hm). pose proof (base_cancelled _ _ _ _ _ _ Hb).
      intros [?%elem_of_singleton|Hin]%elem_of_union; [lia|]. apply H0 in Hin. lia.
    + apply Hother; try done; [intros; by apply elem_of_app; left|by eapply (other_token k s name)].
Qed.

Lemma restart_failed_run name error reason s :
  ∃ s1, core s1 = core s ∧ world s1 = world s ∧ restart_failed cfg name error reason s = report_failure cfg name reason s1.
Proof. unfold restart_failed, publish, bind, error_event, gets, observe; simpl. eexists. by split_and!; [..|reflexivity]. Qed.

Lemma covered_report k s name error reason t1 t2 :
  Inv k s → tasks s = t1 ++ TReport name error reason :: t2 →
  all_covered (restart_failed cfg name error reason (with_tasks (t1 ++ t2) s)).2.
Proof.
  intros [Hb Hc] Ht.
  destruct (restart_failed_run name error reason (with_tasks (t1 ++ t2) s)) as (s1 & Ec & _ & ->).
  apply core_inv in Ec as (E1&E2&E3&E4&E5&E6&E7). simpl in *.
  assert (base_of k s1) as Hb1 by (unfold base_of; by rewrite E1, E2, E3, E5, E6).
  destruct (covered_failure k s1 _ name reason Hb1 eq_refl) as [(Fl & Fm & Fc & Ft) Hname].
  intros n m Hm. destruct (decide (n = name)) as [->|Hne]; [by apply Hname|].
  pose proof (Fm _ _ Hne Hm) as Hm1. rewrite Fl, E4. rewrite E1 in Hm1.
  eapply covered_mono; [by apply Hc|done|done|..].
  - intros. eapply Fc; [done|by rewrite E1|by rewrite E5].
  - rewrite Ht. intros _ (t & H & E). exists t. split; [|done]. apply Ft. rewrite E7.
    rewrite elem_of_app, elem_of_cons in *. destruct H as [?|[->|?]]; [by left|done|by right].
  - rewrite Ht. intros (t & H & E). exists t. split; [|done]. apply Ft. rewrite E7.
    rewrite elem_of_app, elem_of_cons in *.
    destruct H as [?|[->|?]]; [by left|simpl in E; congruence|by right].
Qed.

Lemma inv_step k s s' :
  Inv k s → (Z.of_nat k + 1 < 2 ^ 64)%Z → step s s' → Inv (S k) s'.
Proof.
  intros HI Hk Hst. pose proof HI as [Hb Hc].
  assert (∀ s2, base_of k s2 → base_of (S k) s2) as Hup by (intros s2; apply base_mono; lia).
  destruct Hst as [name s|name s|s|s Hlf|name i tok wake t1 t2 s Ht Hw|name i tok report t1 t2 s Ht
    |name i tok wake t1 t2 s Ht Hin|name due t1 t2 s Ht Hd|name due t1 t2 s Ht Hlf
    |name error reason t1 t2 s Ht|w s Hw].
  - split; [by apply base_load|by eapply covered_load].
  - split; [apply Hup; by apply base_unload|by eapply covered_unload].
  - split; [by apply Hup|]. intros n m Hm. right; right; by left.
  - split; [apply Hup; by apply base_shutdown|].
    destruct (shutdown_locked_spec s) as (E1&_). intros n m. by rewrite E1, lookup_empty.
  - split; [by apply Hup|]. intros n m Hm. simpl in *.
    eapply covered_mono; [by apply Hc|done|done|done|rewrite Ht..]; intros; pool.
  - split; [|by eapply covered_poll_act]. apply Hup. unfold poll_act, bind.
    pose proof (base_act k (with_tasks (t1 ++ t2) s) name report Hb).
    by destruct (act_on_health cfg name report _).
  - split; [by apply Hup|]. intros n m Hm. simpl in *.
    eapply covered_mono; [by apply Hc|done|done|done|rewrite Ht..]; [intros Hnc|]; pool.
  - split; [|by eapply covered_restart]. apply Hup. unfold run_restart, bind.
    pose proof (base_restart k (with_tasks (t1 ++ t2) s) name Hb).
    by destruct (restart_locked cfg name _) as [[[? ?]|] ?].
  - split; [by apply Hup|]. intros n m Hm. right; right; by left.
  - split; [|by eapply covered_report]. apply Hup.
    destruct (restart_failed_run name error reason (with_tasks (t1 ++ t2) s)) as (s1 & Ec & _ & ->).
    apply base_failure. apply core_inv in Ec as (E1&E2&E3&E4&E5&E6&E7). simpl in *.
    unfold base_of. by rewrite E1, E2, E3, E5, E6.
  - split; [by apply Hup|]. done.
Qed.

Lemma inv_boot w : Inv 0 (boot w).
Proof.
  split; [|by intros ? ?]. split; simpl; try done; intros ? **; set_solver.
Qed.

(** The invariant holds in every state reachable in fewer than [2^64] steps
    (the load counter is an [AtomicU64]). *)
Lemma inv_reachable k w s : (Z.of_nat k < 2 ^ 64)%Z → reachable k w s → Inv k s.
Proof.
  intros Hk Hr. unfold reachable in Hr.
  assert (∀ j x y, nsteps step j x y → ∀ k0, (Z.of_nat (k0 + j) < 2 ^ 64)%Z →
    Inv k0 x → Inv (k0 + j) y) as Hn.
  { induction 1 as [|j x y z Hxy _ IH]; intros k0 Hb HI; [by rewrite Nat.add_0_r|].
    replace (k0 + S j) with (S k0 + j) by lia. apply IH; [lia|]. eapply inv_step; eauto. lia. }
  by apply (Hn _ _ _ Hr 0 Hk), inv_boot.
Qed.

End Steps.
