(* ===== verification/FakeEnv.v ===== *)
(** * A concrete environment

    An executable instance of the supervisor's interfaces, in the spirit of the
    fake modules of the daemon's own tests: a module fails when its instance
    handle is listed as bad, the store is a set in memory and time stands
    still unless a run moves it.  It shows that the hypotheses of the
    supervisor's theorems can be met. *)
From S2P Require Import Prelude Sdk Backoff Supervisor SupervisorFacts.

Module Fake.

Record FakeWorld := mkFake {
  fw_store : gset string;
  fw_disk_ok : bool;
  fw_now : Z;
  fw_bad_init : gset nat;
  fw_bad_start : gset nat;
  fw_level : HealthLevel;
}.

Definition info (n : string) : ModuleInfo := mkModuleInfo n "1.0" "a test module" "".
Definition boom : ModuleError := mkModuleError "boom".
Definition verdict (bad : gset nat) (i : nat) : result unit ModuleError :=
  if decide (i ∈ bad) then Err boom else Ok ().

#[global] Instance fake_env : ModuleEnv FakeWorld := {|
  Factory := ModuleInfo;
  Host := unit;
  factory_info f := f;
  env_build _ _ w := w;
  env_host_for _ _ w := ((), w);
  env_config_schema _ _ := None;
  env_info _ _ := info "external";
  env_commands _ _ := [];
  env_init i _ w := (verdict (fw_bad_init w) i, w);
  env_start i w := (verdict (fw_bad_start w) i, w);
  env_stop _ w := (Ok (), w);
  env_status _ w := (Ok (mkStatus Running ∅), w);
  env_health _ w := (mkHealthReport (fw_level w) "probe" (fw_now w), w);
  env_dispatch _ _ _ _ w := (Err boom, w);
  env_instant w := fw_now w;
  env_wall w := fw_now w;
  env_random w := (F64.of_Z 0, w);
|}.

Definition fake_save (ps : gset string) (w : FakeWorld) : result unit StateError * FakeWorld :=
  if fw_disk_ok w then
    (Ok (), mkFake ps true (fw_now w) (fw_bad_init w) (fw_bad_start w) (fw_level w))
  else (Err (StateIo "disk full"), w).

#[global] Program Instance fake_store : StateStore FakeWorld := {|
  store_load w := Ok (fw_store w);
  store_save := fake_save;
|}.
Next Obligation. unfold fake_save. intros ps []; simpl. by case_match. Qed.
Next Obligation. unfold fake_save. intros ps []; simpl. by case_match. Qed.

(** Two embedded modules, three restarts, a 10 ns probe and a 100 ns window. *)
Definition fake_cfg : SupervisorConfig FakeWorld :=
  mkConfig {["a" := info "a"; "b" := info "b"]} 3 10 100 None.

Lemma fake_isolated : isolated fake_cfg.
Proof.
  split; try (intros; split; [done|simpl; lia]); [done|].
  intros ps w. simpl. unfold fake_save. destruct (fw_disk_ok w); simpl; lia.
Qed.

Definition good : FakeWorld := mkFake ∅ true 0 ∅ ∅ LHealthy.
(** The world at another time, with its modules reporting another health. *)
Definition at_time (t : Z) (l : HealthLevel) (w : FakeWorld) : FakeWorld :=
  mkFake (fw_store w) (fw_disk_ok w) t (fw_bad_init w) (fw_bad_start w) l.

Lemma at_time_quiet t l w : (fw_now w ≤ t)%Z → quiet w (at_time t l w).
Proof. by split. Qed.

(** The same store on a disk that never fails. *)
Definition reliable_save (ps : gset string) (w : FakeWorld) : result unit StateError * FakeWorld :=
  (Ok (), mkFake ps (fw_disk_ok w) (fw_now w) (fw_bad_init w) (fw_bad_start w) (fw_level w)).

#[local] Obligation Tactic := done.
Program Definition reliable_store : StateStore FakeWorld := {|
  store_load w := Ok (fw_store w);
  store_save := reliable_save;
|}.

Lemma reliable_isolated : @isolated FakeWorld fake_env reliable_store fake_cfg.
Proof. split; try (intros; split; [done|simpl; lia]); [done|]. intros ps w. simpl. lia. Qed.

End Fake.
