(* ===== verification/SupervisorProps.v ===== *)
(** * Theorems about the supervisor

    What the daemon relies on: loading is all-or-nothing, the enabled-set only
    shrinks by an explicit unload and survives a restart of the daemon,
    shutdown is last-in first-out, restarts are budgeted.  The last section
    shows where the restart machinery departs from its documentation. *)
From S2P Require Import Prelude.
From S2P Require Import FakeEnv.
From S2P Require Import Sdk Backoff Supervisor SupervisorFacts SupervisorSteps.

(** ** Steps and the enabled-set *)

Section Persisted.

Context {W : Type} `{!ModuleEnv W} `{!StateStore W} (cfg : SupervisorConfig W).

(** What a step does to the enabled-set and to its copy on disk. *)
Inductive saved (s s' : Sup W) : Prop :=
| saved_same : persisted s' = persisted s →
    (isolated cfg → quiet (world s) (world s')) → saved s s'
| saved_load n w : s' = (load cfg n s).2 → persisted s' = {[n]} ∪ persisted s →
    (isolated cfg → quiet (world s) w) → world s' = (store_save (persisted s') w).2 → saved s s'
| saved_unload n w : s' = (unload n s).2 → is_Some (loaded s !! n) →
    persisted s' = persisted s ∖ {[n]} →
    (isolated cfg → quiet (world s) w) → world s' = (store_save (persisted s') w).2 → saved s s'.

(** A step that leaves the enabled-set and its copy on disk alone. *)
Definition untouched (s s' : Sup W) : Prop :=
  persisted s' = persisted s ∧ (isolated cfg → quiet (world s) (world s')).

Lemma untouched_refl s : untouched s s.
Proof. by split. Qed.

Lemma eff_untouched ld sq lf cn nt tk os s s' :
  eff cfg (ld, persisted s, sq, lf, cn, nt, tk) os s s' → untouched s s'.
Proof.
  intros H. split; [by apply eff_inv in H as (_ & Hp & _)|]. by destruct H as (_ & _ & _ & Hq).
Qed.

#[local] Hint Resolve untouched_refl eff_untouched : penguin.

Lemma untouched_saved s s' : untouched s s' → saved s s'.
Proof. intros []. by apply saved_same. Qed.

Lemma load_saved name s : saved s (load cfg name s).2.
Proof.
  destruct (wp_run _ _ _ (load_spec cfg name s)) as (r & s' & E & Hs). rewrite E; simpl.
  destruct Hs as [e He|err s' Hl _ Hu|i err s' Hl Hu|i err s' Hl Hu|i s1 Hl -> _ Hu].
  1-4: apply untouched_saved; eauto with penguin.
  destruct Hu as (Hc & _ & _ & Hq). apply core_inv in Hc as (_ & Ep & _).
  apply (saved_load _ _ name (world s1)); rewrite ?E; simpl; auto. by rewrite Ep.
Qed.

Lemma unload_saved name s : saved s (unload name s).2.
Proof.
  destruct (loaded s !! name) as [m|] eqn:Hm.
  2: { rewrite unload_none by done. by apply saved_same. }
  pose proof (unload_spec cfg name m s Hm) as (_ & s1 & He & E).
  pose proof He as (_ & _ & _ & Hq).
  apply (saved_unload _ _ name (world s1)); auto; by rewrite E.
Qed.

(** The steps of background tasks leave the enabled-set alone. *)
Lemma run_restart_untouched name s : untouched s (run_restart cfg name s).2.
Proof.
  unfold run_restart, bind.
  destruct (wp_run _ _ _ (restart_locked_spec cfg name s)) as (r & s' & E & Hs). rewrite E.
  assert (untouched s s') as [Hp Hq] by (destruct Hs; eauto with penguin).
  by destruct r as [[? ?]|].
Qed.

Lemma report_failure_untouched name reason s : untouched s (report_failure cfg name reason s).2.
Proof.
  pose proof (report_failure_spec cfg name reason s) as Hs. unfold wp in Hs.
  destruct Hs; eauto with penguin.
Qed.

Lemma act_on_health_untouched name report s : untouched s (act_on_health cfg name report s).2.
Proof.
  unfold act_on_health. destruct (hr_level report).
  - pose proof (restore_running_spec cfg name s) as [->|(m & _ & _ & He)]; eauto with penguin.
  - pose proof (mark_degraded_spec cfg name s) as [->|(m & _ & _ & He)]; eauto with penguin.
  - apply report_failure_untouched.
Qed.

Lemma poll_act_untouched name i tok report s :
  untouched s (poll_act cfg name i tok report s).2.
Proof.
  unfold poll_act, bind, spawn_health_poll, instant_now, gets, spawn; simpl.
  pose proof (act_on_health_untouched name report s) as H.
  by destruct (act_on_health cfg name report s).
Qed.

Lemma restart_failed_untouched name error reason s :
  untouched s (restart_failed cfg name error reason s).2.
Proof.
  destruct (restart_failed_run cfg name error reason s) as (s1 & Ec & Ew & ->).
  destruct (report_failure_untouched name reason s1) as [Hp Hq]. unfold untouched.
  apply core_inv in Ec as (_ & Ep & _). by rewrite Hp, Ep, <- Ew.
Qed.

Lemma step_saved s s' : isolated cfg → step cfg s s' → saved s s'.
Proof.
  intros Hiso Hst.
  destruct Hst as [name s|name s|s|s Hlf|name i tok wake t1 t2 s Ht Hw|name i tok report t1 t2 s Ht
    |name i tok wake t1 t2 s Ht Hin|name due t1 t2 s Ht Hd|name due t1 t2 s Ht Hlf
    |name error reason t1 t2 s Ht|w s Hw].
  - apply load_saved.
  - apply unload_saved.
  - by apply untouched_saved.
  - destruct (shutdown_locked_spec cfg s) as (_ & E2 & _ & _ & _ & _ & _ & _ & E9).
    by apply saved_same.
  - apply saved_same; [done|]. intros Hi. apply (iso_health _ Hi).
  - apply untouched_saved, (poll_act_untouched name i tok report (with_tasks (t1 ++ t2) s)).
  - by apply untouched_saved.
  - apply untouched_saved, (run_restart_untouched name (with_tasks (t1 ++ t2) s)).
  - by apply untouched_saved.
  - apply untouched_saved, (restart_failed_untouched name error reason (with_tasks (t1 ++ t2) s)).
  - by apply saved_same.
Qed.

(** ** The enabled-set across restarts of the daemon *)

(** The copy of the enabled-set on disk is current. *)
Definition synced (s : Sup W) : Prop := store_load (world s) = Ok (persisted s).

Lemma synced_step s s' :
  isolated cfg → (∀ ps w, (store_save ps w).1 = Ok ()) → synced s → step cfg s s' → synced s'.
Proof.
  unfold synced. intros Hiso Hok Hs Hst.
  destruct (step_saved s s' Hiso Hst) as [Hp Hq|n w _ Hp Hq Hw|n w _ _ Hp Hq Hw].
  - destruct (Hq Hiso) as [-> _]. by rewrite Hp.
  - rewrite Hw. by apply store_save_ok.
  - rewrite Hw. by apply store_save_ok.
Qed.

Lemma synced_reachable k w ps s :
  isolated cfg → (∀ ps w, (store_save ps w).1 = Ok ()) → store_load w = Ok ps →
  reachable cfg k w s → synced s.
Proof.
  intros Hiso Hok Hw Hr. unfold reachable in Hr.
  assert (synced (boot w)) as Hb. { unfold synced, boot, boot_state; simpl. by rewrite Hw. }
  revert Hb. induction Hr as [|k x y z Hxy _ IH]; [done|]. intros Hx.
  apply IH. by eapply synced_step.
Qed.

(** *** Starting the enabled modules *)

Lemma load_dom name s x :
  x ∈ dom (loaded (load cfg name s).2) ↔
    x ∈ dom (loaded s) ∨ x = name ∧ is_ok (load cfg name s).1 = true.
Proof.
  destruct (wp_run _ _ _ (load_spec cfg name s)) as (r & s' & E & Hs). rewrite E; simpl.
  destruct Hs as [e He|err s' Hl _ (Hu & _)|i err s' Hl (Hu & _)|i err s' Hl (Hu & _)
    |i s1 Hl -> _ (Hu & _)]; simpl.
  - apply (elem_of_dom_2 (D := gset string)) in He. naive_solver.
  - apply core_inv in Hu as (-> & _). naive_solver.
  - apply core_inv in Hu as (-> & _). naive_solver.
  - apply core_inv in Hu as (-> & _). naive_solver.
  - apply core_inv in Hu as (E1 & _). rewrite dom_insert_L, E1. set_solver.
Qed.

Lemma load_err name s : is_ok (load cfg name s).1 = false → name ∉ dom (loaded s).
Proof.
  destruct (wp_run _ _ _ (load_spec cfg name s)) as (r & s' & E & Hs). rewrite E; simpl.
  destruct Hs; try done; intros _; by apply not_elem_of_dom.
Qed.

Lemma load_persisted name s :
  persisted (load cfg name s).2 = persisted s ∨
  persisted (load cfg name s).2 = {[name]} ∪ persisted s.
Proof.
  destruct (wp_run _ _ _ (load_spec cfg name s)) as (r & s' & E & Hs). rewrite E; simpl.
  destruct Hs as [e He|err s' Hl _ (Hu & _)|i err s' Hl (Hu & _)|i err s' Hl (Hu & _)
    |i s1 Hl -> _ (Hu & _)]; [by left|..]; apply core_inv in Hu as (_ & Ep & _);
    [by left..|right]. simpl. by rewrite Ep.
Qed.

(** Every name is loaded or reported, whatever the others do. *)
Lemma load_all_spec names s :
  NoDup names → (∀ x, x ∈ names → x ∈ persisted s) →
  wp (load_all cfg names)
    (λ fails s', persisted s' = persisted s ∧
       (∀ x, x ∈ dom (loaded s') → x ∈ names ∨ x ∈ dom (loaded s)) ∧
       (∀ x, x ∈ dom (loaded s) → x ∈ dom (loaded s')) ∧
       (∀ x, x ∈ names → x ∈ dom (loaded s') ∨ x ∈ fails.*1) ∧
       (∀ x, x ∈ fails.*1 → x ∈ names ∧ x ∉ dom (loaded s'))) s.
Proof.
  revert s. induction names as [|n names IH]; intros s Hnd Hn; simpl.
  { apply wp_ret. split_and!; set_solver. }
  apply NoDup_cons in Hnd as [Hni Hnd].
  pose proof (load_dom n s) as Hd. pose proof (load_persisted n s) as Hp.
  pose proof (load_err n s) as He.
  apply wp_bind. unfold wp at 1. destruct (load cfg n s) as [r s1]; simpl in *.
  assert (persisted s1 = persisted s) as Ep.
  { destruct Hp as [Hp|Hp]; [done|]. rewrite Hp. apply subseteq_union_1_L, singleton_subseteq_l.
    apply Hn, list_elem_of_here. }
  apply wp_bind. eapply wp_mono; [apply IH; [done|]|].
  { intros x Hx. rewrite Ep. by apply Hn, list_elem_of_further. }
  intros fails s' (E1 & E2 & E3 & E4 & E5).
  destruct r as [st|err]; apply wp_ret; simpl in *; setoid_rewrite elem_of_cons.
  - split_and!; [congruence|..].
    + intros x [?|[?|[-> _]]%Hd]%E2; auto.
    + intros x Hx. apply E3, Hd. by left.
    + intros x [->|Hx]; [|by apply E4]. left. apply E3, Hd. by right.
    + intros x [? ?]%E5. auto.
  - split_and!; [congruence|..].
    + intros x [?|[?|[_ ?]]%Hd]%E2; [auto..|done].
    + intros x Hx. apply E3, Hd. by left.
    + intros x [->|Hx]; [auto|]. destruct (E4 _ Hx); auto.
    + intros x [->|[? ?]%E5]; [|by auto]. split; [by left|].
      intros [?|[?|[_ ?]]%Hd]%E2; [done|by apply He|done].
Qed.

End Persisted.

(** ** Lifecycle *)

Section Lifecycle.

Context {W : Type} `{!ModuleEnv W} `{!StateStore W} (cfg : SupervisorConfig W).

(** C1: Every state of the supervisor reachable from boot, by any interleaving
    of loads, unloads, probes, restarts and shutdown, against arbitrary
    modules, keeps only [Running], [Degraded] or [Failed] entries, has every
    loaded module enabled, and gives distinct modules distinct load numbers
    and distinct health tokens. *)
Theorem supervisor_invariant (k : nat) (w : W) (s : Sup W) :
  (Z.of_nat k < 2 ^ 64)%Z → reachable cfg k w s →
  (∀ n m, loaded s !! n = Some m → stored_state (lm_state m)) ∧
  dom (loaded s) ⊆ persisted s ∧
  inj_on lm_load_seq (loaded s) ∧ inj_on lm_health_cancel (loaded s).
Proof. intros Hk Hr. by destruct (inv_reachable cfg k w s Hk Hr) as [[] _]. Qed.

(** C2: No loaded module is ever abandoned: in every reachable state each one
    has a health-poll loop whose token is live, or a restart (or the report of
    a failed one) pending, or has used up its restart budget, unless the
    daemon is shutting down. *)
Theorem supervisor_watches_every_module (k : nat) (w : W) (s : Sup W) n m :
  (Z.of_nat k < 2 ^ 64)%Z → reachable cfg k w s → loaded s !! n = Some m →
  (∃ t, t ∈ tasks s ∧ poll_token t = Some (lm_health_cancel m) ∧
        lm_health_cancel m ∉ cancelled s) ∨
  (∃ t, t ∈ tasks s ∧ restart_name t = Some n) ∨
  life_cancelled s = true ∨ (max_restarts cfg ≤ lm_restart_attempt m)%Z.
Proof.
  intros Hk Hr Hm. destruct (inv_reachable cfg k w s Hk Hr) as [_ Hc].
  destruct (Hc n m Hm) as [[(t & ? & ?) ?]|[(t & ? & ?)|?]]; [left|right; left|by right; right];
    by exists t.
Qed.

(** C7: A failed load changes nothing the supervisor or the disk keeps, and a
    module it had already built is stopped before the error and then
    [disabled] are published; it never publishes [running]. *)
Theorem load_failure_undone (name : string) (s s' : Sup W) err :
  load cfg name s = (Err err, s') →
  core s' = core s ∧ (isolated cfg → store_load (world s') = store_load (world s)) ∧
  ((shapes s' = shapes s ∧ ∀ e, err ≠ ModuleFailed e) ∨
   ∃ i e pre, err = ModuleFailed e ∧
     shapes s' = shapes s ++ OBuild i :: pre ++
                   [OStop i; ev_error name (me_message e); ev_state name Disabled] ∧
     (∀ j, OBuild j ∉ pre) ∧ ev_state name Running ∉ pre).
Proof.
  destruct (wp_run _ _ _ (load_spec cfg name s)) as (r & s1 & -> & Hs). intros [= -> ->].
  inversion Hs as [|err' s2 Hl Hi Hu|i e s2 Hl Hu|i e s2 Hl Hu|]; subst;
    destruct Hu as (Hc & Ho & _ & Hq);
    (split; [done|split; [by intros Hi'; destruct (Hq Hi')|]]).
  - left. rewrite app_nil_r in Ho. split; [done|]. by inversion Hi.
  - right. exists i, e, [ev_state name Initializing; OInit i]. split_and!; try done;
      [intros j|]; rewrite !elem_of_cons, elem_of_nil; intros [?|[?|?]]; done.
  - right. exists i, e, [ev_state name Initializing; OInit i; OStart i]. split_and!; try done;
      [intros j|]; rewrite !elem_of_cons, elem_of_nil; intros [?|[?|[?|?]]]; done.
Qed.

(** A load that brings a new module up initialises and starts a fresh
    instance in that order, publishes [initializing] and then [running],
    records it with a fresh restart budget, the next load number and a live
    poll loop, enables it, and leaves either the new enabled-set on disk or,
    when the write failed, the old one. *)
Theorem load_brings_up (name : string) (s s' : Sup W) st :
  loaded s !! name = None → load cfg name s = (Ok st, s') →
  let i := next_inst s in let tok := next_token s in
  st = Running ∧
  shapes s' = shapes s ++ [OBuild i; ev_state name Initializing; OInit i; OStart i;
                           ev_state name Running] ∧
  (∃ t, loaded s' = <[name := mkLoaded i Running 0 t (load_seq s) tok]> (loaded s) ∧
        tasks s' = tasks s ++ [TPoll name i tok (t + cfg_health_interval cfg)]) ∧
  load_seq s' = wrap_u64 (load_seq s + 1) ∧
  persisted s' = {[name]} ∪ persisted s ∧
  (store_load (world s') = Ok (persisted s') ∨
   (isolated cfg → store_load (world s') = store_load (world s))).
Proof.
  intros Hnone. destruct (wp_run _ _ _ (load_spec cfg name s)) as (r & s1 & -> & Hs).
  intros [= -> ->]. inversion Hs as [e He| | | |i s2 Hl Hi _ Hu]; [congruence|subst].
  destruct Hu as (Hc & Ho & _ & Hq). apply core_inv in Hc as (E1&E2&E3&E4&E5&E6&E7).
  simpl. unfold shapes in *. simpl. rewrite E2, E3.
  split_and!; try done; [exists (env_instant (world s2)); by rewrite E1, E6, E7|].
  destruct (store_save ({[name]} ∪ persisted s) (world s2)).1 as [[]|e] eqn:E.
  - left. by apply store_save_ok.
  - right. intros Hi. rewrite (store_save_err _ _ _ E). by destruct (Hq Hi).
Qed.

(** Loading is idempotent: once a load has succeeded, loading the same
    module again reports the same state and does nothing at all. *)
Theorem load_idempotent (name : string) (s s' : Sup W) st :
  load cfg name s = (Ok st, s') → load cfg name s' = (Ok st, s').
Proof.
  destruct (wp_run _ _ _ (load_spec cfg name s)) as (r & s1 & -> & Hs). intros [= -> ->].
  assert (∃ e, loaded s' !! name = Some e ∧ lm_state e = st) as (e & He & <-).
  { inversion Hs as [e He| | | |i s2 Hl Hi _ Hu]; subst; [eauto|]. simpl.
    rewrite lookup_insert_eq. eauto. }
  unfold load, bind, gets. by rewrite He.
Qed.

(** Unloading a loaded module cancels its poll loop, publishes [stopping],
    stops it once, publishes [stopped], forgets it, disables it, and leaves
    every other module as it was; the disk holds the new enabled-set unless
    the write failed. *)
Theorem unload_takes_down (name : string) (s : Sup W) m :
  loaded s !! name = Some m →
  let s' := (unload name s).2 in
  (unload name s).1 = Ok () ∧ loaded s' = delete name (loaded s) ∧
  persisted s' = persisted s ∖ {[name]} ∧ cancelled s' = {[lm_health_cancel m]} ∪ cancelled s ∧
  shapes s' = shapes s ++ [ev_state name Stopping; OStop (lm_instance m); ev_state name Stopped] ∧
  (store_load (world s') = Ok (persisted s') ∨
   (isolated cfg → store_load (world s') = store_load (world s))).
Proof.
  intros Hm s'. pose proof (unload_spec cfg name m s Hm) as (Hr & s1 & He & E).
  subst s'. rewrite E. pose proof He as (_ & Ho & _ & Hq).
  apply eff_inv in He as (E1&E2&E3&E4&E5&E6&E7). unfold shapes in *. simpl.
  split_and!; try done.
  destruct (store_save (persisted s ∖ {[name]}) (world s1)).1 as [[]|e] eqn:Es.
  - left. by apply store_save_ok.
  - right. intros Hi. rewrite (store_save_err _ _ _ Es). by destruct (Hq Hi).
Qed.

(** Two entries of the shutdown order never share a number. *)
Lemma shutdown_order_strict (ld : gmap string LoadedModule) :
  inj_on lm_load_seq ld → StronglySorted (λ a b : string * Z, (b.2 < a.2)%Z) (shutdown_order ld).
Proof.
  intros Hinj. pose proof (shutdown_order_sorted ld) as Hs.
  pose proof (shutdown_order_nodup ld) as Hnd.
  assert (∀ p, p ∈ shutdown_order ld → ∃ m, ld !! p.1 = Some m ∧ lm_load_seq m = p.2) as Hin.
  { intros [n q]. apply shutdown_order_seq. }
  induction Hs as [|a l Hs IH Ha]; [constructor|]. simpl in Hnd.
  apply NoDup_cons in Hnd as [Hna Hnd].
  constructor; [apply IH; [done|]; intros p Hp; by apply Hin, list_elem_of_further|].
  rewrite Forall_forall in *. intros b Hb. specialize (Ha b Hb). unfold seq_ge in Ha.
  destruct (decide (b.2 = a.2)) as [E|]; [|lia]. destruct Hna.
  destruct (Hin a) as (ma & Hma & Ea); [apply list_elem_of_here|].
  destruct (Hin b) as (mb & Hmb & Eb); [by apply list_elem_of_further|].
  rewrite (Hinj a.1 b.1 ma mb) by (done || congruence). apply list_elem_of_fmap. eauto.
Qed.

Lemma shutdown_empties (s : Sup W) : loaded (shutdown s).2 = ∅.
Proof. exact (proj1 (shutdown_locked_spec cfg (cancel_life s).2)). Qed.

(** C34: Shutdown from any reachable state stops every loaded module exactly
    once, in strictly decreasing load order (last loaded, first stopped),
    ends with nothing loaded and every poll loop cancelled, and changes
    neither the enabled-set nor its copy on disk. *)
Theorem shutdown_reverse_order (k : nat) (w : W) (s : Sup W) :
  (Z.of_nat k < 2 ^ 64)%Z → reachable cfg k w s →
  let s' := (shutdown s).2 in let order := shutdown_order (loaded s) in
  loaded s' = ∅ ∧ life_cancelled s' = true ∧ persisted s' = persisted s ∧
  (isolated cfg → store_load (world s') = store_load (world s)) ∧
  shapes s' = shapes s ++ stops_obs (loaded s) order.*1 ∧
  order ≡ₚ map (λ p, (p.1, lm_load_seq p.2)) (map_to_list (loaded s)) ∧
  StronglySorted (λ a b, (b.2 < a.2)%Z) order ∧
  (∀ n m, loaded s !! n = Some m → lm_health_cancel m ∈ cancelled s').
Proof.
  intros Hk Hr. destruct (inv_reachable cfg k w s Hk Hr) as [[] _]. intros s' order.
  destruct (shutdown_locked_spec cfg (cancel_life s).2) as (E1&E2&_&E4&_&_&E7&E8&E9).
  subst s' order. unfold shutdown, bind in *. simpl in *. split_and!; try done.
  - intros Hi. by destruct (E9 Hi).
  - apply shutdown_order_perm.
  - by apply shutdown_order_strict.
  - intros n m Hm. apply E7. eauto.
Qed.

(** A module leaves the enabled-set only by being unloaded while loaded:
    no failure, restart, failed load or shutdown ever disables one. *)
Theorem only_unload_disables (s s' : Sup W) n :
  isolated cfg → step cfg s s' → n ∈ persisted s → n ∉ persisted s' →
  s' = (unload n s).2 ∧ is_Some (loaded s !! n).
Proof.
  intros Hiso Hst Hin Hout.
  destruct (step_saved cfg s s' Hiso Hst) as [Hp _|n' w _ Hp _ _|n' w E Hl Hp _ _].
  - by rewrite Hp in Hout.
  - set_solver.
  - assert (n = n') as ->; [|done]. apply dec_stable. intros Hne. apply Hout. rewrite Hp.
    by apply elem_of_difference; split; [|rewrite elem_of_singleton].
Qed.

(** C8: When writes to disk succeed, a daemon that stops at any moment, by
    shutdown or by a crash between two steps, boots again with exactly the
    modules that were enabled. *)
Theorem reboot_keeps_enabled (k : nat) (w : W) ps (s : Sup W) :
  isolated cfg → (∀ ps w, (store_save ps w).1 = Ok ()) → store_load w = Ok ps →
  reachable cfg k w s → persisted (boot (world s)) = persisted s.
Proof.
  intros Hiso Hok Hw Hr. pose proof (synced_reachable cfg k w ps s Hiso Hok Hw Hr) as Hs.
  unfold boot, boot_state; simpl. by rewrite Hs.
Qed.

(** Starting the enabled modules tries every one of them: each ends up
    loaded or in the list of failures and never in both, nothing else is
    loaded, and a module that fails to start stays enabled for the next
    boot. *)
Theorem start_enabled_complete (w : W) :
  let fails := (start_enabled cfg (new w)).1 in let s' := (start_enabled cfg (new w)).2 in
  persisted s' = boot_state w ∧ dom (loaded s') ⊆ boot_state w ∧
  (∀ n, n ∈ boot_state w → n ∈ dom (loaded s') ∨ n ∈ fails.*1) ∧
  (∀ n, n ∈ fails.*1 → n ∈ boot_state w ∧ n ∉ dom (loaded s')).
Proof.
  assert (∀ x, x ∈ sorted_names (elements (boot_state w)) ↔ x ∈ boot_state w) as Hel.
  { intros x. unfold sorted_names. rewrite merge_sort_Permutation. apply elem_of_elements. }
  assert (NoDup (sorted_names (elements (boot_state w)))) as Hnd.
  { unfold sorted_names. rewrite merge_sort_Permutation. apply NoDup_elements. }
  pose proof (load_all_spec cfg _ (boot w) Hnd (λ x, proj1 (Hel x))) as (E1&E2&_&E4&E5).
  intros fails s'. subst fails s'. unfold start_enabled, bind, gets in *. simpl in *.
  split_and!; [done|..].
  - intros x [Hx|Hx]%E2; [by apply Hel|]. simpl in Hx. set_solver.
  - intros n Hn. by apply E4, Hel.
  - intros n [Hn ?]%E5. split; [by apply Hel|done].
Qed.

End Lifecycle.

(** ** Failures and restarts *)

Section Restarts.

Context {W : Type} `{!ModuleEnv W} `{!StateStore W} (cfg : SupervisorConfig W).

(** The time since the instance in service was started has reached the
    stability window. *)
Definition stable (now : Z) (m : LoadedModule) : Prop :=
  (cfg_stability_window cfg ≤ now - lm_started_at m)%Z.

Lemma next_attempt_stable now m : stable now m → next_attempt cfg now m = 1%Z.
Proof. unfold stable, next_attempt. intros H. by rewrite (proj2 (Z.leb_le _ _) H). Qed.

Lemma next_attempt_flapping now m :
  ¬ stable now m → (0 ≤ lm_restart_attempt m < 2 ^ 32 - 1)%Z →
  next_attempt cfg now m = (lm_restart_attempt m + 1)%Z.
Proof.
  unfold stable, next_attempt. intros H Hm. rewrite (proj2 (Z.leb_gt _ _)) by lia.
  unfold wrap_u32. apply wrap_u_small. lia.
Qed.

(** A failure report on a loaded module cancels its poll loop and counts
    one attempt, afresh when the instance had been up for a stability window.
    Below the budget the module becomes [Degraded], the reason is published
    and a restart is scheduled after the backoff delay of that attempt; at
    the budget it becomes [Failed], the exhaustion is published and nothing
    more is scheduled.  No other module and no load number changes. *)
Theorem report_failure_budget (name reason : string) (s : Sup W) m :
  loaded s !! name = Some m → (0 ≤ lm_restart_attempt m < 2 ^ 32 - 1)%Z →
  let s' := (report_failure cfg name reason s).2 in
  let now := env_instant (world s) in
  ∃ a, (stable now m ∧ a = 1 ∨ ¬ stable now m ∧ a = lm_restart_attempt m + 1)%Z ∧
  cancelled s' = {[lm_health_cancel m]} ∪ cancelled s ∧ persisted s' = persisted s ∧
  if decide (a < max_restarts cfg)%Z then
    loaded s' = <[name := with_state Degraded (with_attempt a m)]> (loaded s) ∧
    shapes s' = shapes s ++ [ev_degraded name reason] ∧
    ∃ jitter, tasks s' = tasks s ++
      [TRestart name (env_instant (world s') + Backoff.delay_for_random jitter (a - 1))]
  else
    loaded s' = <[name := with_state Failed (with_attempt a m)]> (loaded s) ∧
    shapes s' = shapes s ++ [ev_state name Failed;
      ev_error name ("max restarts (" +:+ pretty (max_restarts cfg) +:+ ") exceeded")] ∧
    tasks s' = tasks s.
Proof.
  intros Hm Hb s' now. exists (next_attempt cfg now m). split.
  { destruct (decide (cfg_stability_window cfg ≤ now - lm_started_at m)%Z).
    - left. by rewrite next_attempt_stable.
    - right. by rewrite next_attempt_flapping. }
  subst s'. pose proof (report_failure_spec cfg name reason s) as Hs. unfold wp in Hs.
  destruct Hs as [|m' a s' Hm' Ea Ha He|m' a u due s' Hm' Ea Ha Hd He]; [congruence|..];
    simplify_eq; pose proof He as (_ & Ho & _); apply eff_inv in He as (E1&E2&E3&E4&E5&E6&E7);
    split_and!; try done; case_decide; try (subst now; lia); eauto 10.
Qed.

(** A restart that succeeds stops the old instance before it builds,
    initialises and starts the new one, and keeps the module's place: its
    load number, its attempt count and its enablement are those of the
    instance it replaces, the poll loop of the old instance is cancelled and
    the new one has its own. *)
Theorem restart_replaces_instance (name : string) (s s' : Sup W) m :
  loaded s !! name = Some m → restart_locked cfg name s = (None, s') →
  ∃ i t, next_inst s ≤ i ∧
  loaded s' = <[name := mkLoaded i Running (lm_restart_attempt m) t (lm_load_seq m)
                          (next_token s)]> (loaded s) ∧
  persisted s' = persisted s ∧ load_seq s' = load_seq s ∧
  cancelled s' = {[lm_health_cancel m]} ∪ cancelled s ∧
  tasks s' = tasks s ++ [TPoll name i (next_token s) (t + cfg_health_interval cfg)] ∧
  shapes s' = shapes s ++ [OStop (lm_instance m); OBuild i; ev_state name Initializing;
                           OInit i; OStart i; ev_state name Running].
Proof.
  intros Hm. destruct (wp_run _ _ _ (restart_locked_spec cfg name s)) as (r & s1 & -> & Hs).
  intros [= -> ->]. inversion Hs as [|?|?|?|m' i s2 Hm' Hi He]; [congruence|subst].
  simplify_eq. pose proof He as (_ & Ho & _). apply eff_inv in He as (E1&E2&E3&E4&E5&E6&E7).
  exists i, (env_instant (world s')). split_and!; try done. lia.
Qed.

(** Whatever its outcome, a restart keeps the attempt count. *)
Lemma restart_keeps_attempt name s m :
  loaded s !! name = Some m →
  ∃ m', loaded (restart_locked cfg name s).2 !! name = Some m' ∧
        lm_restart_attempt m' = lm_restart_attempt m.
Proof.
  intros Hm. pose proof (restart_locked_spec cfg name s) as Hs. unfold wp in Hs.
  destruct Hs as [|m' err s' Hm' He|m' i err s' Hm' He|m' i err s' Hm' He|m' i s' Hm' _ He];
    [congruence|..]; apply eff_inv in He as (-> & _); simplify_eq; rewrite ?lookup_insert_eq; eauto.
Qed.

(** A module that keeps failing before it is stable: [n] times a failure is
    reported and the restart that follows runs, successful or not. *)
Inductive flap (name : string) : nat → Sup W → Sup W → Prop :=
| flap_0 s : flap name 0 s s
| flap_S n s s1 m w reason : flap name n s s1 → loaded s1 !! name = Some m →
    ¬ stable (env_instant w) m →
    flap name (S n) s
      (restart_locked cfg name (report_failure cfg name reason (with_world w s1)).2).2.

Lemma report_keeps_entry name reason s m :
  loaded s !! name = Some m →
  ∃ st, loaded (report_failure cfg name reason s).2 !! name =
    Some (with_state st (with_attempt (next_attempt cfg (env_instant (world s)) m) m)).
Proof.
  intros Hm. pose proof (report_failure_spec cfg name reason s) as Hs. unfold wp in Hs.
  destruct Hs as [|m' a s' Hm' Ea Ha He|m' a u due s' Hm' Ea Ha Hd He]; [congruence|..];
    apply eff_inv in He as (-> & _); simplify_eq; rewrite lookup_insert_eq; eauto.
Qed.

Lemma flap_attempt name n s s' m :
  flap name n s s' → loaded s !! name = Some m → lm_restart_attempt m = 0%Z →
  (Z.of_nat n < 2 ^ 32)%Z →
  ∃ m', loaded s' !! name = Some m' ∧ lm_restart_attempt m' = Z.of_nat n.
Proof.
  intros Hf Hm Ha. induction Hf as [s|n s s1 m1 w reason Hf IH Hm1 Hst]; intros Hn; [eauto|].
  destruct IH as (m1' & Hm1' & Ea); [done..|lia|]. simplify_eq.
  destruct (report_keeps_entry name reason (with_world w s1) m1 Hm1) as [st Hr].
  destruct (restart_keeps_attempt _ _ _ Hr) as (m' & Hm' & E). exists m'. split; [done|].
  rewrite E. simpl. rewrite next_attempt_flapping by (done || lia). lia.
Qed.

(** C32: Restarts are bounded: a module that fails [n] times in a row without
    staying up for a stability window is restarted while [n] is below the
    budget and parked, with no restart pending from this report, when the
    budget is reached. *)
Theorem flapping_is_parked (name : string) (n : nat) (s s' : Sup W) m m' w reason :
  flap name n s s' → loaded s !! name = Some m → lm_restart_attempt m = 0%Z →
  (Z.of_nat n + 1 = max_restarts cfg)%Z → (max_restarts cfg < 2 ^ 32)%Z →
  loaded s' !! name = Some m' → ¬ stable (env_instant w) m' →
  let s2 := (report_failure cfg name reason (with_world w s')).2 in
  (lm_state <$> loaded s2 !! name) = Some Failed ∧ tasks s2 = tasks s'.
Proof.
  intros Hf Hm Ha Hn Hmax Hm' Hst s2.
  destruct (flap_attempt name n s s' m) as (m'' & Hm'' & Ea); [done..|lia|]. simplify_eq.
  subst s2. pose proof (report_failure_spec cfg name reason (with_world w s')) as Hs.
  unfold wp in Hs.
  destruct Hs as [|m1 a s2 Hm1 E Hle He|m1 a u due s2 Hm1 E Hlt _ He]; simpl in *; [congruence|..].
  - apply eff_inv in He as (E1&_&_&_&_&_&E7). by rewrite E1, lookup_insert_eq, E7.
  - simplify_eq. rewrite next_attempt_flapping in Hlt by (done || lia). lia.
Qed.

(** *** A failed restart does not reset the clock *)

(** [n] scheduled restarts of a module, each firing some time after the
    previous one. *)
Inductive retries (name : string) : nat → Sup W → Sup W → Prop :=
| retries_0 s : retries name 0 s s
| retries_S n s s1 w : retries name n s s1 → quiet (world s1) w →
    retries name (S n) s (perform_scheduled_restart cfg name (with_world w s1)).2.

(** A module no new instance of which comes up, while loaded. *)
Definition never_comes_up (name : string) : Prop :=
  ∀ s, is_Some (loaded s !! name) → (restart_locked cfg name s).1 ≠ None.

Lemma restart_failed_keeps name s m :
  loaded s !! name = Some m → (restart_locked cfg name s).1 ≠ None →
  let s' := (restart_locked cfg name s).2 in
  loaded s' = loaded s ∧ (isolated cfg → quiet (world s) (world s')).
Proof.
  intros Hm Hne. destruct (wp_run _ _ _ (restart_locked_spec cfg name s)) as (r & s' & E & Hs).
  rewrite E in *. simpl in *.
  destruct Hs as [|m' err s' Hm' He|m' i err s' Hm' He|m' i err s' Hm' He|m' i s' Hm' _ He];
    try done; pose proof He as (_ & _ & _ & Hq); by apply eff_inv in He as (E1 & _).
Qed.

(** One failed restart of a module that was once stable. *)
Lemma failed_restart_resets name s m :
  isolated cfg → (2 ≤ max_restarts cfg)%Z → never_comes_up name →
  loaded s !! name = Some m → stable (env_instant (world s)) m →
  let s' := (perform_scheduled_restart cfg name s).2 in
  ∃ m', loaded s' !! name = Some m' ∧ lm_state m' = Degraded ∧ lm_restart_attempt m' = 1%Z ∧
        lm_started_at m' = lm_started_at m ∧ stable (env_instant (world s')) m' ∧
        pending (tasks s') name.
Proof.
  intros Hiso Hmax Hup Hm Hst s'. subst s'. unfold perform_scheduled_restart, bind.
  pose proof (restart_failed_keeps name s m Hm) as Hk.
  specialize (Hup s (mk_is_Some _ _ Hm)).
  destruct (restart_locked cfg name s) as [[[error reason]|] s1]; [simpl in *|done].
  destruct (Hk Hup) as [E1 Hq1].
  destruct (restart_failed_run cfg name error reason s1) as (s2 & Ec & Ew & ->).
  apply core_inv in Ec as (E2 & _).
  assert (loaded s2 !! name = Some m) as Hm2 by congruence.
  assert (stable (env_instant (world s2)) m) as Hst2.
  { rewrite Ew. destruct (Hq1 Hiso). unfold stable in *. lia. }
  pose proof (report_failure_spec cfg name reason s2) as Hs. unfold wp in Hs.
  destruct Hs as [|m1 a s3 Hm1 E Hle He|m1 a u due s3 Hm1 E Hlt _ He]; [congruence|..];
    simplify_eq; rewrite next_attempt_stable in * by done; [lia|].
  pose proof He as (_ & _ & _ & Hq). destruct (Hq Hiso) as [_ Hle].
  apply eff_inv in He as (F1&_&_&_&_&_&F7). rewrite F1, F7, lookup_insert_eq.
  eexists. split_and!; [reflexivity|done..| |].
  - unfold stable in *. simpl. lia.
  - exists (TRestart name due). split; [|done]. apply elem_of_app. right. apply list_elem_of_here.
Qed.

(** Once an instance of a module has been up for a stability window, a
    module that can no longer be brought up is never parked: however many
    restarts fail, the attempt count is back at one and another restart is
    pending, because a failed restart leaves [started_at] at the old
    instance's start. *)
Theorem failed_restarts_never_park (name : string) (n : nat) (s s' : Sup W) m :
  isolated cfg → (2 ≤ max_restarts cfg)%Z → never_comes_up name →
  loaded s !! name = Some m → stable (env_instant (world s)) m →
  retries name (S n) s s' →
  (∃ m', loaded s' !! name = Some m' ∧ lm_state m' = Degraded ∧ lm_restart_attempt m' = 1%Z) ∧
  pending (tasks s') name.
Proof.
  intros Hiso Hmax Hup Hm Hst Hr.
  assert (∀ j s1, retries name j s s1 →
    ∃ m1, loaded s1 !! name = Some m1 ∧ stable (env_instant (world s1)) m1) as Hall.
  { induction 1 as [s|j s s1 w Hr1 IH Hq]; [eauto|]. destruct IH as (m1 & Hm1 & Hs1); [done..|].
    destruct (failed_restart_resets name (with_world w s1) m1) as (m2 & ? & _ & _ & _ & ? & _);
      eauto. destruct Hq. unfold stable in *. simpl. lia. }
  inversion Hr as [|j s0 s1 w Hr1 Hq]; subst. destruct (Hall n s1 Hr1) as (m1 & Hm1 & Hs1).
  destruct (failed_restart_resets name (with_world w s1) m1) as (m2 & ? & ? & ? & _ & _ & ?);
    eauto 10. destruct Hq. unfold stable in *. simpl. lia.
Qed.

End Restarts.

(** ** Concrete runs of the supervisor

    The theorems of [SupervisorProps] at concrete daemons, and a reachable run
    in which a restart outlives the instance it was scheduled for. *)

Section Runs.

Import Fake.

(** Modules [a] and then [b] loaded from a clean boot. *)
Definition run_a : Sup FakeWorld := (load fake_cfg "a" (boot good)).2.
Definition run_ab : Sup FakeWorld := (load fake_cfg "b" run_a).2.

Lemma run_ab_reachable : reachable fake_cfg 2 good run_ab.
Proof.
  eapply nsteps_l; [apply (step_load _ "a")|]. eapply nsteps_l; [apply (step_load _ "b")|].
  apply nsteps_O.
Qed.

Lemma supervisor_invariant_witness :
  dom (loaded run_ab) = {["a"; "b"]} ∧ dom (loaded run_ab) ⊆ persisted run_ab ∧
  inj_on lm_load_seq (loaded run_ab).
Proof.
  split; [by vm_compute|].
  destruct (supervisor_invariant fake_cfg 2 good run_ab) as (_ & ? & ? & _);
    [done|apply run_ab_reachable|done].
Defined.

Lemma supervisor_watches_every_module_witness :
  ∃ m, loaded run_ab !! "b" = Some m ∧
    (watched (tasks run_ab) (lm_health_cancel m) ∨ pending (tasks run_ab) "b" ∨
     life_cancelled run_ab = true ∨ (max_restarts fake_cfg ≤ lm_restart_attempt m)%Z).
Proof.
  eexists. split; [by vm_compute|].
  edestruct (supervisor_watches_every_module fake_cfg 2 good run_ab "b")
    as [(t & ? & ? & _)|[(t & ? & ?)|?]]; [done|apply run_ab_reachable|by vm_compute|..].
  - left. by exists t.
  - right. left. by exists t.
  - by right; right.
Defined.

(** A daemon in which every first instance fails to initialise. *)
Definition bad : FakeWorld := mkFake ∅ true 0 {[0]} ∅ LHealthy.

Lemma load_failure_undone_witness :
  (load fake_cfg "a" (boot bad)).1 = Err (ModuleFailed boom) ∧
  core (load fake_cfg "a" (boot bad)).2 = core (boot bad).
Proof.
  split; [by vm_compute|].
  apply (load_failure_undone fake_cfg "a" (boot bad) _ (ModuleFailed boom)). by vm_compute.
Defined.

Lemma load_brings_up_witness :
  persisted run_a = {["a"]} ∪ ∅ ∧ load_seq run_a = 1%Z.
Proof.
  destruct (load_brings_up fake_cfg "a" (boot good) run_a Running)
    as (_ & _ & _ & E1 & E2 & _); [by vm_compute..|].
  split; [exact E2|rewrite E1; by vm_compute].
Defined.

Lemma load_idempotent_witness : load fake_cfg "a" run_a = (Ok Running, run_a).
Proof. apply (load_idempotent fake_cfg "a" (boot good) run_a Running). by vm_compute. Defined.

Lemma unload_takes_down_witness :
  ∃ m, loaded run_ab !! "a" = Some m ∧ loaded (unload "a" run_ab).2 = delete "a" (loaded run_ab).
Proof.
  eexists. split; [by vm_compute|].
  edestruct (unload_takes_down fake_cfg "a" run_ab) as (_ & E & _); [by vm_compute|]. exact E.
Defined.

Lemma shutdown_reverse_order_witness :
  dom (loaded run_ab) = {["a"; "b"]} ∧ loaded (shutdown run_ab).2 = ∅ ∧
  persisted (shutdown run_ab).2 = persisted run_ab ∧
  StronglySorted (λ a b, (b.2 < a.2)%Z) (shutdown_order (loaded run_ab)).
Proof.
  split; [by vm_compute|].
  destruct (shutdown_reverse_order fake_cfg 2 good run_ab) as (E1 & _ & E3 & _ & _ & _ & E7 & _);
    [done|apply run_ab_reachable|]. by split_and!.
Defined.

Lemma only_unload_disables_witness :
  "a" ∈ persisted run_ab ∧ ("a" ∉ persisted (unload "a" run_ab).2) ∧
  is_Some (loaded run_ab !! "a").
Proof.
  assert ("a" ∈ persisted run_ab ∧ "a" ∉ persisted (unload "a" run_ab).2) as [H1 H2]
    by (split; apply (bool_decide_unpack _); vm_compute; done).
  split_and!; [done..|].
  apply (only_unload_disables fake_cfg run_ab (unload "a" run_ab).2 "a");
    [apply fake_isolated|apply step_unload|done..].
Defined.

(** The same boot on a disk that never fails, and the crash that follows. *)
Lemma reboot_keeps_enabled_witness :
  persisted (boot (StateStore0 := reliable_store)
    (world (load (StateStore0 := reliable_store) fake_cfg "a"
              (boot (StateStore0 := reliable_store) good)).2)) = {["a"]} ∪ ∅.
Proof.
  rewrite (reboot_keeps_enabled (StateStore0 := reliable_store) fake_cfg 1 good ∅).
  - by vm_compute.
  - apply reliable_isolated.
  - done.
  - done.
  - eapply nsteps_l; [apply (step_load _ "a")|]. apply nsteps_O.
Defined.

Lemma report_failure_budget_witness :
  ∃ m, loaded run_a !! "a" = Some m ∧
    persisted (report_failure fake_cfg "a" "probe" run_a).2 = persisted run_a.
Proof.
  eexists. split; [by vm_compute|].
  edestruct (report_failure_budget fake_cfg "a" "probe" run_a) as (a & _ & _ & E & _);
    [by vm_compute|done|exact E].
Defined.

Lemma restart_replaces_instance_witness :
  ∃ i m, loaded (restart_locked fake_cfg "a" run_a).2 !! "a" = Some m ∧ lm_instance m = i ∧
    next_inst run_a ≤ i.
Proof.
  edestruct (restart_replaces_instance fake_cfg "a" run_a (restart_locked fake_cfg "a" run_a).2)
    as (i & t & Hi & E & _); [by vm_compute|by vm_compute|].
  eexists _, _. rewrite E, lookup_insert_eq. split_and!; [reflexivity|reflexivity|done].
Defined.

(** Two quick failures, each followed by its restart: the third parks. *)
Definition flap1 : Sup FakeWorld :=
  (restart_locked fake_cfg "a" (report_failure fake_cfg "a" "down" (with_world good run_a)).2).2.
Definition flap2 : Sup FakeWorld :=
  (restart_locked fake_cfg "a" (report_failure fake_cfg "a" "down" (with_world good flap1)).2).2.

Lemma flapping_is_parked_witness :
  (lm_state <$> loaded (report_failure fake_cfg "a" "down" (with_world good flap2)).2 !! "a")
    = Some Failed.
Proof.
  assert (∀ m : LoadedModule, lm_started_at m = 0%Z → ¬ stable fake_cfg (env_instant good) m) as Hs.
  { intros m E. unfold stable. rewrite E. by vm_compute. }
  edestruct (flapping_is_parked fake_cfg "a" 2 run_a flap2) as [E _];
    [eapply flap_S; [eapply flap_S; [apply flap_0|by vm_compute|by apply Hs]|by vm_compute|by apply Hs]
    |by vm_compute|done|by vm_compute|by vm_compute|by vm_compute|by apply Hs|exact E].
Defined.

(** Module [a] up since time 0, its implementation then removed. *)
Definition gone_cfg : SupervisorConfig FakeWorld := mkConfig ∅ 3 10 100 None.
Definition aged : Sup FakeWorld := with_world (at_time 100 LHealthy good) run_a.

Lemma failed_restarts_never_park_witness :
  pending (tasks (perform_scheduled_restart gone_cfg "a"
             (with_world (world aged) aged)).2) "a".
Proof.
  edestruct (failed_restarts_never_park gone_cfg "a" 0 aged) as [_ H].
  - split; try (intros; split; [done|simpl; lia]); [done|]. intros ps w. simpl.
    unfold fake_save. destruct (fw_disk_ok w); simpl; lia.
  - by vm_compute.
  - intros s [m Hm]. unfold restart_locked, bind, gets. rewrite Hm. by vm_compute.
  - by vm_compute.
  - by vm_compute.
  - eapply retries_S; [apply retries_0|reflexivity].
  - exact H.
Defined.

(** *** A restart outlives the instance it was scheduled for *)

(** Module [a] probed unhealthy at time 10, unloaded, and loaded again
    healthy before its restart is due. *)
Definition sick : Sup FakeWorld := with_world (at_time 10 LUnhealthy (world run_a)) run_a.
Definition probe : HealthReport := (env_health 0 (world sick)).1.
Definition probed : Sup FakeWorld :=
  with_tasks ([] ++ TPolled "a" 0 0 probe :: []) (with_world (env_health 0 (world sick)).2 sick).
Definition reported : Sup FakeWorld :=
  (poll_act fake_cfg "a" 0 0 probe (with_tasks ([] ++ []) probed)).2.
Definition dropped : Sup FakeWorld := (unload "a" reported).2.
Definition well : Sup FakeWorld := with_world (at_time 10 LHealthy (world dropped)) dropped.
Definition again : Sup FakeWorld := (load fake_cfg "a" well).2.
Definition due : Sup FakeWorld := with_world (at_time 1000000000 LHealthy (world again)) again.

Lemma due_reachable : reachable fake_cfg 8 good due.
Proof.
  assert (quiet (world run_a) (world sick)) as H1 by (by apply at_time_quiet; vm_compute).
  assert (quiet (world dropped) (world well)) as H2 by (by apply at_time_quiet; vm_compute).
  assert (quiet (world again) (world due)) as H3 by (by apply at_time_quiet; vm_compute).
  apply (nsteps_l _ _ _ run_a); [apply (step_load _ "a")|].
  apply (nsteps_l _ _ _ sick); [by apply (step_env _ (world sick) run_a)|].
  apply (nsteps_l _ _ _ probed); [by apply (step_probe _ "a" 0 0 10 [] []); vm_compute|].
  apply (nsteps_l _ _ _ reported); [by apply (step_poll_act _ "a" 0 0 probe [] [] probed); vm_compute|].
  apply (nsteps_l _ _ _ dropped); [apply (step_unload _ "a")|].
  apply (nsteps_l _ _ _ well); [by apply (step_env _ (world well) dropped)|].
  apply (nsteps_l _ _ _ again); [apply (step_load _ "a")|].
  apply (nsteps_l _ _ _ due); [by apply (step_env _ (world due) again)|].
  apply nsteps_O.
Qed.

(** A scheduled restart is not tied to the instance that failed: in a
    reachable run, a module that failed, was unloaded and was loaded again
    healthy is stopped and restarted by the restart left over from before
    the unload. *)
Theorem stale_restart_stops_new_instance :
  reachable fake_cfg 8 good due ∧
  (∃ m, loaded due !! "a" = Some m ∧ lm_instance m = 1 ∧ lm_state m = Running ∧
        lm_restart_attempt m = 0%Z) ∧
  ∃ s' rest, step fake_cfg due s' ∧ obs s' = obs due ++ OStop 1 :: rest ∧
        (lm_instance <$> loaded s' !! "a") = Some 2.
Proof.
  split; [apply due_reachable|]. split; [eexists; by vm_compute|].
  eexists _, _. split; [|split].
  - by apply (step_restart _ "a" 95000010 [] [TPoll "a" 0 0 20; TPoll "a" 1 1 20]); vm_compute.
  - vm_compute. reflexivity.
  - by vm_compute.
Qed.

End Runs.
