(* ===== verification/StateFile.v ===== *)
(** * The persisted enabled-set (crates/penguin-daemon/src/state.rs)

    [PersistedState] on a model of the state directory in which every write
    call may fail.  [Fs.seen] records the directory after each system call
    (and after each byte of a write), so a crash at any point is one of its
    elements.  JSON coding is the [SerdeState] interface.  The development
    ends by showing that a directory that can be read back is a [StateStore],
    the interface the supervisor is proved against. *)
From S2P Require Import Prelude Sdk Backoff Supervisor.

(** [serde_json] on [PersistedState]: what is written parses back, and no
    document is empty. *)
Class SerdeState := {
  to_vec_pretty : gset string → result (list Byte.byte) string;
  from_slice : list Byte.byte → result (gset string) string;
  serde_round_trip : ∀ ps data, to_vec_pretty ps = Ok data → from_slice data = Ok ps;
  serde_nonempty : ∀ ps data, to_vec_pretty ps = Ok data → data ≠ [];
}.

(** ** The state directory *)

Module Fs.

(** Permission bits in octal. *)
Definition mode_0600 : Z := 6 * 64.
Definition mode_0644 : Z := 6 * 64 + 4 * 8 + 4.
Definition mode_0700 : Z := 7 * 64.

Record File := mkFile { f_mode : Z; f_data : list Byte.byte }.

Inductive IoKind := NotFound | AlreadyExists | OtherIo.
Record IoError := mkIoError { io_kind : IoKind; io_text : string }.

(** A failing call: its message and, for a write, the bytes that got through. *)
Record Fault := mkFault { ft_text : string; ft_written : nat }.

Record t := mk {
  dir : option Z;                 (* the directory's mode, if it exists *)
  files : gmap string File;
  unreadable : option string;     (* reading back fails with this message *)
  fault : nat → option Fault;     (* what the n-th write-side call does *)
  calls : nat;
  rng : nat → Z;                  (* the n-th random [u64] *)
  draws : nat;
  seen : list (gmap string File);
}.

Definition set_files (fl : gmap string File) (fs : t) : t :=
  mk (dir fs) fl (unreadable fs) (fault fs) (calls fs) (rng fs) (draws fs) (seen fs ++ [fl]).

Definition set_dir (d : option Z) (fs : t) : t :=
  mk d (files fs) (unreadable fs) (fault fs) (calls fs) (rng fs) (draws fs) (seen fs).

Definition see (fls : list (gmap string File)) (fs : t) : t :=
  mk (dir fs) (files fs) (unreadable fs) (fault fs) (calls fs) (rng fs) (draws fs) (seen fs ++ fls).

(** Takes the next fault. *)
Definition next (fs : t) : option Fault * t :=
  (fault fs (calls fs),
   mk (dir fs) (files fs) (unreadable fs) (fault fs) (S (calls fs)) (rng fs) (draws fs) (seen fs)).

Definition random (fs : t) : Z * t :=
  (rng fs (draws fs),
   mk (dir fs) (files fs) (unreadable fs) (fault fs) (calls fs) (rng fs) (S (draws fs)) (seen fs)).

Definition io {A} (ft : Fault) : result A IoError := Err (mkIoError OtherIo (ft_text ft)).

(** [std::fs::read]. *)
Definition read (name : string) (fs : t) : result (list Byte.byte) IoError :=
  match dir fs, files fs !! name with
  | Some _, Some f =>
      match unreadable fs with
      | None => Ok (f_data f)
      | Some msg => Err (mkIoError OtherIo msg)
      end
  | _, _ => Err (mkIoError NotFound "No such file or directory (os error 2)")
  end.

(** [DirBuilder::recursive(true).create]: an existing directory is left alone. *)
Definition create_dir_all (mode : Z) (fs : t) : result unit IoError * t :=
  let '(ft, fs) := next fs in
  match ft with
  | Some ft => (io ft, fs)
  | None => (Ok (), set_dir (Some (default mode (dir fs))) fs)
  end.

(** [OpenOptions::create_new]: a new empty file with the process's default
    mode (0666 less the usual umask 022). *)
Definition create_new (name : string) (fs : t) : result unit IoError * t :=
  let '(ft, fs) := next fs in
  match ft with
  | Some ft => (io ft, fs)
  | None =>
      match files fs !! name with
      | Some _ => (Err (mkIoError AlreadyExists "File exists (os error 17)"), fs)
      | None => (Ok (), set_files (<[name := mkFile mode_0644 []]> (files fs)) fs)
      end
  end.

Definition set_mode (name : string) (mode : Z) (fs : t) : result unit IoError * t :=
  let '(ft, fs) := next fs in
  match ft with
  | Some ft => (io ft, fs)
  | None => (Ok (), set_files (alter (λ f, mkFile mode (f_data f)) name (files fs)) fs)
  end.

(** [write_all]: the bytes arrive one after another; a fault stops it part of
    the way. *)
Definition write_all (name : string) (data : list Byte.byte) (fs : t) : result unit IoError * t :=
  let '(ft, fs) := next fs in
  let upto k := alter (λ f, mkFile (f_mode f) (f_data f ++ take k data)) name (files fs) in
  let n := match ft with Some ft => ft_written ft | None => length data end in
  let fs := see (map upto (seq 0 n)) fs in
  (match ft with Some ft => io ft | None => Ok () end, set_files (upto n) fs).

Definition remove_file (name : string) (fs : t) : result unit IoError * t :=
  let '(ft, fs) := next fs in
  match ft with
  | Some ft => (io ft, fs)
  | None => (Ok (), set_files (delete name (files fs)) fs)
  end.

(** [rename(2)] replaces the destination in one step. *)
Definition rename (from to : string) (fs : t) : result unit IoError * t :=
  let '(ft, fs) := next fs in
  match ft with
  | Some ft => (io ft, fs)
  | None =>
      match files fs !! from with
      | Some f => (Ok (), set_files (<[to := f]> (delete from (files fs))) fs)
      | None => (Err (mkIoError NotFound "No such file or directory (os error 2)"), fs)
      end
  end.

End Fs.

(** ** [PersistedState] *)

Section PersistedState.

(** [debug] is [Path]'s [Debug] rendering, [hex] the [{:x}] rendering of a
    [u64]. *)
Context {Ser : SerdeState} (debug : string → string) (hex : Z → string) (state_dir : string).

Definition enabled_name : string := "enabled.json".
Definition enabled_path : string := state_dir +:+ "/" +:+ enabled_name.

Definition load_state (fs : Fs.t) : result (gset string) StateError :=
  match Fs.read enabled_name fs with
  | Err err =>
      match Fs.io_kind err with
      | Fs.NotFound => Ok ∅
      | _ => Err (StateIo ("read " +:+ debug enabled_path +:+ ": " +:+ Fs.io_text err))
      end
  | Ok data =>
      match data with
      | [] => Ok ∅
      | _ => map_err (λ err, StateParse ("parse " +:+ debug enabled_path +:+ ": " +:+ err))
               (from_slice data)
      end
  end.

Definition ensure_state_dir (fs : Fs.t) : result unit StateError * Fs.t :=
  let '(r, fs) := Fs.create_dir_all Fs.mode_0700 fs in
  (map_err (λ err, StateIo ("create state dir " +:+ debug state_dir +:+ ": " +:+ Fs.io_text err)) r,
   fs).

Definition random_suffix (fs : Fs.t) : string * Fs.t :=
  let '(v, fs) := Fs.random fs in (hex v, fs).

(** The loop of [create_temp_file] with [n] attempts left. *)
Fixpoint create_temp_loop (n : nat) (fs : Fs.t) : result string Fs.IoError * Fs.t :=
  match n with
  | 0 => (Err (Fs.mkIoError Fs.AlreadyExists
                 "could not create a unique temp file after 100 attempts"), fs)
  | S n =>
      let '(suffix, fs) := random_suffix fs in
      let path := ".state-tmp-" +:+ suffix in
      let '(opened, fs) := Fs.create_new path fs in
      match opened with
      | Ok _ => (Ok path, fs)
      | Err err =>
          match Fs.io_kind err with
          | Fs.AlreadyExists => create_temp_loop n fs
          | _ => (Err err, fs)
          end
      end
  end.

Definition create_temp_file (fs : Fs.t) : result string Fs.IoError * Fs.t :=
  create_temp_loop 100 fs.

Definition set_owner_read_write (tmp : string) (fs : Fs.t) : result unit Fs.IoError * Fs.t :=
  Fs.set_mode tmp Fs.mode_0600 fs.

Definition save (ps : gset string) (fs : Fs.t) : result unit StateError * Fs.t :=
  let '(r, fs) := ensure_state_dir fs in
  match r with
  | Err e => (Err e, fs)
  | Ok _ =>
    match to_vec_pretty ps with
    | Err err => (Err (StateIo ("marshal enabled.json: " +:+ err)), fs)
    | Ok data =>
      let '(r, fs) := create_temp_file fs in
      match r with
      | Err err =>
          (Err (StateIo ("create temp file in " +:+ debug state_dir +:+ ": " +:+ Fs.io_text err)), fs)
      | Ok tmp =>
        let tmp_path := state_dir +:+ "/" +:+ tmp in
        let '(r, fs) := set_owner_read_write tmp fs in
        match r with
        | Err err =>
            let '(_, fs) := Fs.remove_file tmp fs in
            (Err (StateIo ("chmod " +:+ debug tmp_path +:+ ": " +:+ Fs.io_text err)), fs)
        | Ok _ =>
          let '(r, fs) := Fs.write_all tmp data fs in
          match r with
          | Err err =>
              let '(_, fs) := Fs.remove_file tmp fs in
              (Err (StateIo ("write " +:+ debug tmp_path +:+ ": " +:+ Fs.io_text err)), fs)
          | Ok _ =>
              let '(r, fs) := Fs.rename tmp enabled_name fs in
              (map_err (λ err, StateIo ("rename " +:+ debug tmp_path +:+ " -> " +:+
                                          debug enabled_path +:+ ": " +:+ Fs.io_text err)) r, fs)
          end
        end
      end
    end
  end.

(** [add] and [remove] report whether the set changed. *)
Definition add (name : string) (ps : gset string) : bool * gset string :=
  (bool_decide (name ∉ ps), {[name]} ∪ ps).
Definition remove (name : string) (ps : gset string) : bool * gset string :=
  (bool_decide (name ∈ ps), ps ∖ {[name]}).

(** ** What [save] does to the directory *)

Definition tmp_name (suffix : string) : string := ".state-tmp-" +:+ suffix.

(** The directory is as it was, up to one new temporary file. *)
Definition intact (fs : Fs.t) (fl : gmap string Fs.File) : Prop :=
  fl = Fs.files fs ∨
  ∃ suffix f, Fs.files fs !! tmp_name suffix = None ∧ fl = <[tmp_name suffix := f]> (Fs.files fs).

(** Only [intact] directories were seen on the way from [fs] to [fs']. *)
Definition progress (fs fs' : Fs.t) : Prop :=
  Fs.unreadable fs' = Fs.unreadable fs ∧ (is_Some (Fs.dir fs) → is_Some (Fs.dir fs')) ∧
  ∃ ext, Fs.seen fs' = Fs.seen fs ++ ext ∧ Forall (intact fs) ext.

Lemma progress_refl fs : progress fs fs.
Proof. split_and!; [done..|]. exists []. rewrite app_nil_r. auto. Qed.

Lemma tmp_name_enabled suffix : tmp_name suffix ≠ enabled_name.
Proof. done. Qed.

Lemma intact_enabled fs fl : intact fs fl → fl !! enabled_name = Fs.files fs !! enabled_name.
Proof. intros [->|(sf & f & _ & ->)]; [done|]. by rewrite lookup_insert_ne. Qed.

(** One more call that shows the directories [ext']. *)
Lemma progress_step fs fs1 fs2 ext' :
  progress fs fs1 → Fs.unreadable fs2 = Fs.unreadable fs1 →
  (is_Some (Fs.dir fs1) → is_Some (Fs.dir fs2)) →
  Fs.seen fs2 = Fs.seen fs1 ++ ext' → Forall (intact fs) ext' → progress fs fs2.
Proof.
  intros (U & D & ext & S & F) U' D' S' F'. split_and!; [congruence|auto|].
  exists (ext ++ ext'). split; [by rewrite S', S, app_assoc|]. by apply Forall_app.
Qed.

(** Discharges the bookkeeping of a call that shows no new directory. *)
Lemma progress_quiet fs fs1 fs2 :
  progress fs fs1 → Fs.unreadable fs2 = Fs.unreadable fs1 →
  (is_Some (Fs.dir fs1) → is_Some (Fs.dir fs2)) → Fs.seen fs2 = Fs.seen fs1 → progress fs fs2.
Proof. intros. eapply (progress_step _ _ _ []); try done. by rewrite app_nil_r. Qed.

Lemma create_temp_loop_spec n fs0 fs :
  progress fs0 fs → Fs.files fs = Fs.files fs0 →
  let '(r, fs') := create_temp_loop n fs in
  progress fs0 fs' ∧ (is_Some (Fs.dir fs) → is_Some (Fs.dir fs')) ∧
  match r with
  | Ok tmp => ∃ suffix, tmp = tmp_name suffix ∧ Fs.files fs0 !! tmp = None ∧
                Fs.files fs' = <[tmp := Fs.mkFile Fs.mode_0644 []]> (Fs.files fs0)
  | Err _ => Fs.files fs' = Fs.files fs0
  end.
Proof.
  revert fs. induction n as [|n IH]; intros fs Hp Hf; [done|]. simpl.
  unfold random_suffix, Fs.random, Fs.create_new, Fs.next; simpl.
  destruct (Fs.fault fs (Fs.calls fs)) as [ft|]; simpl.
  { split_and!; [by eapply progress_quiet|done..]. }
  set (tmp := String.append ".state-tmp-" (hex (Fs.rng fs (Fs.draws fs)))).
  destruct (Fs.files fs !! tmp) eqn:E; simpl.
  { match goal with |- context [create_temp_loop n ?x] => apply (IH x) end; [|done].
    by eapply progress_quiet. }
  assert (intact fs0 (<[tmp := Fs.mkFile Fs.mode_0644 []]> (Fs.files fs))) as Hi.
  { right. eexists (hex (Fs.rng fs (Fs.draws fs))), _. rewrite <- Hf. done. }
  split_and!; [|done|].
  - eapply (progress_step _ fs); [done..|]. by constructor.
  - eexists. split_and!; [reflexivity|by rewrite <- Hf|by rewrite <- Hf].
Qed.

Lemma ensure_state_dir_spec fs :
  let '(r, fs') := ensure_state_dir fs in
  progress fs fs' ∧ Fs.files fs' = Fs.files fs ∧ (is_ok r = true → is_Some (Fs.dir fs')).
Proof.
  unfold ensure_state_dir, Fs.create_dir_all, Fs.next.
  destruct (Fs.fault fs (Fs.calls fs)) as [ft|]; simpl;
    (split_and!; [by eapply progress_quiet; [apply progress_refl|..]|done..]).
Qed.

(** The directory [fs0] with the temporary file [f] added. *)
Definition with_tmp (fs0 : Fs.t) (suffix : string) (f : Fs.File) (fs : Fs.t) : Prop :=
  progress fs0 fs ∧ Fs.files fs0 !! tmp_name suffix = None ∧
  Fs.files fs = <[tmp_name suffix := f]> (Fs.files fs0) ∧ is_Some (Fs.dir fs).

Lemma with_tmp_intact fs0 suffix f fs : with_tmp fs0 suffix f fs → intact fs0 (Fs.files fs).
Proof. intros (_ & Hn & Hf & _). right. eauto. Qed.

(** A call that leaves another temporary file, showing only such directories. *)
Lemma with_tmp_step fs0 suffix f f' fs fs' ext :
  with_tmp fs0 suffix f fs → Fs.unreadable fs' = Fs.unreadable fs → Fs.dir fs' = Fs.dir fs →
  Fs.files fs' = <[tmp_name suffix := f']> (Fs.files fs0) → Fs.seen fs' = Fs.seen fs ++ ext →
  Forall (λ fl, ∃ g, fl = <[tmp_name suffix := g]> (Fs.files fs0)) ext →
  with_tmp fs0 suffix f' fs'.
Proof.
  intros (Hp & Hn & Hf & Hd) U D F S Hext. split_and!; [|done|done|by rewrite D].
  eapply progress_step; [done|done|by rewrite D|done|].
  eapply Forall_impl; [done|]. intros fl (g & ->). right. eauto.
Qed.

Lemma set_mode_tmp fs0 suffix f mode fs :
  with_tmp fs0 suffix f fs →
  let '(r, fs') := Fs.set_mode (tmp_name suffix) mode fs in
  with_tmp fs0 suffix (if is_ok r then Fs.mkFile mode (Fs.f_data f) else f) fs'.
Proof.
  intros H. pose proof H as (_ & _ & Hf & _). unfold Fs.set_mode, Fs.next.
  destruct (Fs.fault fs (Fs.calls fs)) as [ft|]; simpl.
  - eapply (with_tmp_step _ _ _ _ _ _ [] H); try done. by rewrite app_nil_r.
  - rewrite Hf, alter_insert_eq. eapply (with_tmp_step _ _ _ _ _ _ [_] H); try done.
    constructor; [eauto|done].
Qed.

Lemma write_all_tmp fs0 suffix mode data fs :
  with_tmp fs0 suffix (Fs.mkFile mode []) fs →
  let '(r, fs') := Fs.write_all (tmp_name suffix) data fs in
  ∃ k, with_tmp fs0 suffix (Fs.mkFile mode (take k data)) fs' ∧ (is_ok r = true → k = length data).
Proof.
  intros H. pose proof H as (_ & _ & Hf & _). unfold Fs.write_all, Fs.next.
  set (n := match Fs.fault fs (Fs.calls fs) with
            | Some ft => Fs.ft_written ft | None => length data end).
  exists n. split; [|by subst n; destruct (Fs.fault fs (Fs.calls fs))].
  cbn [Fs.files]. rewrite Hf.
  eapply (with_tmp_step _ _ _ _ _ _ _ H); [done|done| |cbn; by rewrite <- app_assoc|].
  { cbn. by rewrite alter_insert_eq. }
  apply Forall_app. split.
  - apply Forall_map, Forall_forall. intros k _. simpl. rewrite alter_insert_eq. eauto.
  - constructor; [|done]. rewrite alter_insert_eq. eauto.
Qed.

(** Removing the temporary file, whether or not it works. *)
Lemma remove_tmp fs0 suffix f fs :
  with_tmp fs0 suffix f fs →
  let '(_, fs') := Fs.remove_file (tmp_name suffix) fs in
  progress fs0 fs' ∧ intact fs0 (Fs.files fs') ∧ is_Some (Fs.dir fs').
Proof.
  intros (Hp & Hn & Hf & Hd). unfold Fs.remove_file, Fs.next.
  destruct (Fs.fault fs (Fs.calls fs)); simpl.
  { split_and!; [by eapply progress_quiet| |done]. right. eauto. }
  rewrite Hf, delete_insert_id by done. split_and!; [|by left|done].
  eapply (progress_step _ fs); [done..|]. constructor; [by left|done].
Qed.

Lemma rename_tmp fs0 suffix f fs :
  with_tmp fs0 suffix f fs →
  let '(r, fs') := Fs.rename (tmp_name suffix) enabled_name fs in
  match r with
  | Ok _ => Fs.files fs' = <[enabled_name := f]> (Fs.files fs0) ∧
      Fs.unreadable fs' = Fs.unreadable fs0 ∧ is_Some (Fs.dir fs') ∧
      Fs.seen fs' = Fs.seen fs ++ [Fs.files fs']
  | Err _ => progress fs0 fs' ∧ intact fs0 (Fs.files fs') ∧ is_Some (Fs.dir fs')
  end.
Proof.
  intros (Hp & Hn & Hf & Hd). unfold Fs.rename, Fs.next.
  destruct (Fs.fault fs (Fs.calls fs)); simpl.
  { split_and!; [by eapply progress_quiet| |done]. right. eauto. }
  rewrite Hf, lookup_insert_eq, delete_insert_id by done. split_and!; try done. apply Hp.
Qed.

(** A successful save changes one entry of the directory; a failed one at
    most leaves a temporary file; nothing else is ever visible. *)
Lemma save_spec ps fs :
  let '(r, fs') := save ps fs in
  match r with
  | Ok _ => ∃ fs1 data, progress fs fs1 ∧ to_vec_pretty ps = Ok data ∧
      Fs.files fs' = <[enabled_name := Fs.mkFile Fs.mode_0600 data]> (Fs.files fs) ∧
      Fs.unreadable fs' = Fs.unreadable fs ∧ is_Some (Fs.dir fs') ∧
      Fs.seen fs' = Fs.seen fs1 ++ [Fs.files fs']
  | Err _ => progress fs fs' ∧ intact fs (Fs.files fs') ∧
      (is_Some (Fs.dir fs') ∨ Fs.files fs' = Fs.files fs)
  end.
Proof.
  unfold save. pose proof (ensure_state_dir_spec fs) as He.
  destruct (ensure_state_dir fs) as [[[]|e] fs1]; destruct He as (H1 & Hf1 & Hd1).
  2: { rewrite Hf1. split_and!; [done|by left|by right]. }
  destruct (to_vec_pretty ps) as [data|err] eqn:Hd; [|by rewrite Hf1; split_and!; [|left|right]].
  pose proof (create_temp_loop_spec 100 fs fs1 H1 Hf1) as Ht.
  unfold create_temp_file. destruct (create_temp_loop 100 fs1) as [[tmp|err] fs2].
  2: { destruct Ht as (? & _ & ->). split_and!; [done|by left|by right]. }
  destruct Ht as (H2 & Hdir & suffix & -> & Hn & Hf2).
  assert (with_tmp fs suffix (Fs.mkFile Fs.mode_0644 []) fs2) as Hw by (split_and!; auto).
  apply (set_mode_tmp _ _ _ Fs.mode_0600) in Hw. unfold set_owner_read_write.
  destruct (Fs.set_mode (tmp_name suffix) Fs.mode_0600 fs2) as [[[]|err] fs3].
  2: { apply remove_tmp in Hw. destruct (Fs.remove_file (tmp_name suffix) fs3). simpl. tauto. }
  apply (write_all_tmp _ _ _ data) in Hw.
  destruct (Fs.write_all (tmp_name suffix) data fs3) as [[[]|err] fs4]; destruct Hw as (k & Hw & Hk).
  2: { apply remove_tmp in Hw. destruct (Fs.remove_file (tmp_name suffix) fs4). simpl. tauto. }
  rewrite Hk, firstn_all in Hw by done. pose proof Hw as [H4 _]. apply rename_tmp in Hw.
  destruct (Fs.rename (tmp_name suffix) enabled_name fs4) as [[[]|err] fs5]; [|simpl; tauto].
  destruct Hw as (? & ? & ? & ?). exists fs4, data. by split_and!.
Qed.

(** ** Reading back *)

(** A missing directory holds no files. *)
Definition fs_wf (fs : Fs.t) : Prop := Fs.dir fs = None → Fs.files fs = ∅.

(** The machine restarted with the directory as a snapshot shows it. *)
Definition crashed (fl : gmap string Fs.File) (fs : Fs.t) : Fs.t :=
  Fs.mk (Some Fs.mode_0700) fl (Fs.unreadable fs) (Fs.fault fs) (Fs.calls fs) (Fs.rng fs)
    (Fs.draws fs) [].

(** Loading depends on the state file alone. *)
Lemma load_state_ext fs fs' :
  fs_wf fs → fs_wf fs' → Fs.unreadable fs' = Fs.unreadable fs →
  Fs.files fs' !! enabled_name = Fs.files fs !! enabled_name →
  load_state fs' = load_state fs.
Proof.
  intros Hw Hw' U E. unfold load_state, Fs.read. rewrite U, E.
  destruct (Fs.files fs !! enabled_name) as [f|] eqn:Hf.
  - destruct (Fs.dir fs) eqn:D; [|by rewrite Hw in Hf].
    destruct (Fs.dir fs') eqn:D'; [done|]. by rewrite (Hw' D') in E.
  - by destruct (Fs.dir fs), (Fs.dir fs').
Qed.

Lemma load_state_saved fs mode data ps :
  is_Some (Fs.dir fs) → Fs.unreadable fs = None → to_vec_pretty ps = Ok data →
  Fs.files fs !! enabled_name = Some (Fs.mkFile mode data) → load_state fs = Ok ps.
Proof.
  intros [m D] U Hd Hf. unfold load_state, Fs.read. rewrite D, Hf, U. simpl.
  rewrite (serde_round_trip _ _ Hd). pose proof (serde_nonempty _ _ Hd). by destruct data.
Qed.

Lemma save_wf ps fs : fs_wf fs → fs_wf (save ps fs).2.
Proof.
  intros Hw. pose proof (save_spec ps fs) as Hs. destruct (save ps fs) as [[[]|e] fs']; simpl.
  - destruct Hs as (? & ? & _ & _ & _ & _ & [? E] & _). intros ?. congruence.
  - destruct Hs as ((_ & Hd & _) & _ & [[? E]|E]); intros D; [congruence|].
    rewrite E. apply Hw. destruct (Fs.dir fs) eqn:D0; [|done].
    destruct Hd as [? ?]; [done|congruence].
Qed.

Lemma save_load ps fs :
  fs_wf fs → Fs.unreadable fs = None →
  match save ps fs with
  | (Ok _, fs') => load_state fs' = Ok ps
  | (Err _, fs') => load_state fs' = load_state fs
  end ∧ Fs.unreadable (save ps fs).2 = None.
Proof.
  intros Hw U. pose proof (save_spec ps fs) as Hs. pose proof (save_wf ps fs Hw) as Hw'.
  destruct (save ps fs) as [[[]|e] fs']; simpl in *.
  - destruct Hs as (? & data & _ & Hd & F & U' & D & _). split; [|congruence].
    eapply load_state_saved; [done|congruence|done|]. by rewrite F, lookup_insert_eq.
  - destruct Hs as ((U' & _) & Hi & _). split; [|congruence].
    apply load_state_ext; [done..|]. by apply intact_enabled.
Qed.

(** C9: Saving the enabled-set is atomic under any failure of any system
    call and under a crash between any two of them, or after any byte
    written: a reader then finds the old set or the complete new one, the new
    one exactly when [save] reported success.  Success replaces the single
    entry [enabled.json], with owner-only permissions; failure leaves the
    directory as it was but for at most one stray temporary file. *)
Theorem save_atomic (ps : gset string) (fs : Fs.t) :
  fs_wf fs → Fs.unreadable fs = None →
  let fs' := (save ps fs).2 in
  (∃ ext, Fs.seen fs' = Fs.seen fs ++ ext ∧
     ∀ fl, fl ∈ ext → load_state (crashed fl fs) = load_state fs ∨ load_state (crashed fl fs) = Ok ps) ∧
  match (save ps fs).1 with
  | Ok _ => load_state fs' = Ok ps ∧
      ∃ data, Fs.files fs' = <[enabled_name := Fs.mkFile Fs.mode_0600 data]> (Fs.files fs)
  | Err _ => load_state fs' = load_state fs ∧ intact fs (Fs.files fs')
  end.
Proof.
  intros Hw U. destruct (save_load ps fs Hw U) as [Hl _].
  pose proof (save_spec ps fs) as Hs.
  assert (∀ fl, intact fs fl → load_state (crashed fl fs) = load_state fs) as Hc.
  { intros fl Hi. apply load_state_ext; [done..|]. by apply intact_enabled. }
  destruct (save ps fs) as [[[]|e] fs']; simpl in *.
  - destruct Hs as (fs1 & data & (_ & _ & ext & S1 & Hext) & Hd & F & U' & D & S).
    split; [|eauto]. exists (ext ++ [Fs.files fs']). rewrite S, S1, app_assoc. split; [done|].
    intros fl [Hin|Hin%list_elem_of_singleton]%elem_of_app; [|subst fl].
    + left. apply Hc. rewrite Forall_forall in Hext. auto.
    + right. eapply load_state_saved; [done|done|done|]. simpl. by rewrite F, lookup_insert_eq.
  - destruct Hs as ((_ & _ & ext & S1 & Hext) & Hi & _). split; [|done].
    exists ext. split; [done|]. intros fl Hin. left. apply Hc. rewrite Forall_forall in Hext. auto.
Qed.

(** ** The state directory as a [StateStore] *)

Record Disk := mkDisk {
  disk_fs : Fs.t;
  disk_ok : fs_wf disk_fs ∧ Fs.unreadable disk_fs = None;
}.

Definition disk_save (ps : gset string) (d : Disk) : result unit StateError * Disk :=
  ((save ps (disk_fs d)).1,
   mkDisk (save ps (disk_fs d)).2
     (conj (save_wf ps _ (proj1 (disk_ok d)))
        (proj2 (save_load ps _ (proj1 (disk_ok d)) (proj2 (disk_ok d)))))).

(** The interface the supervisor's theorems assume is met by the file. *)
#[global] Program Instance disk_store : StateStore Disk := {|
  store_load d := load_state (disk_fs d);
  store_save := disk_save;
|}.
Next Obligation.
  intros ps [fs [Hw U]]; simpl. destruct (save_load ps fs Hw U) as [Hl _].
  by destruct (save ps fs) as [[[]|e] fs'].
Qed.
Next Obligation.
  intros ps [fs [Hw U]] e; simpl. destruct (save_load ps fs Hw U) as [Hl _].
  by destruct (save ps fs) as [[[]|e'] fs'].
Qed.

End PersistedState.

(** ** A concrete coding and directory *)

Module StateWitness.

Fixpoint pos_bytes (p : positive) : list Byte.byte :=
  match p with
  | xH => []
  | xO p => Byte.x30 :: pos_bytes p
  | xI p => Byte.x31 :: pos_bytes p
  end.

Fixpoint bytes_pos (l : list Byte.byte) : positive :=
  match l with
  | [] => xH
  | Byte.x30 :: l => xO (bytes_pos l)
  | _ :: l => xI (bytes_pos l)
  end.

Lemma bytes_pos_bytes p : bytes_pos (pos_bytes p) = p.
Proof. induction p; simpl; congruence. Qed.

#[local] Program Instance bits_serde : SerdeState := {|
  to_vec_pretty ps := Ok (Byte.x7b :: pos_bytes (encode ps));
  from_slice l :=
    match decode (bytes_pos (drop 1 l)) with Some ps => Ok ps | None => Err "expected a set" end;
|}.
Next Obligation.
  intros ps data [= <-]. simpl. by rewrite drop_0, bytes_pos_bytes, decode_encode.
Qed.
Next Obligation. by intros ps data [= <-]. Qed.

(** An empty machine on which no call fails. *)
Definition fresh : Fs.t := Fs.mk None ∅ None (λ _, None) 0 (λ n, Z.of_nat n) 0 [].

Lemma save_atomic_witness :
  load_state id "/var/lib/penguind" (save id (λ z, pretty z) "/var/lib/penguind" {["a"]} fresh).2
    = Ok {["a"]}.
Proof.
  destruct (save_atomic id (λ z, pretty z) "/var/lib/penguind" {["a"]} fresh) as [_ H];
    [done|done|].
  assert ((save id (λ z, pretty z) "/var/lib/penguind" {["a"]} fresh).1 = Ok ()) as E
    by (by vm_compute).
  rewrite E in H. by destruct H.
Defined.

End StateWitness.
