(* ===== verification/LogRing.v ===== *)
(** * Event broker and log ring (crates/penguin-daemon/src/broker.rs, logring.rs)

    Both hand their elements to live subscribers through
    [tokio::sync::broadcast], which is the [Broadcast] interface: a receiver
    has unread elements, a send adds one to each of them and drops the oldest
    beyond what the channel retains.  The theorems relate both components to
    the full history of what was published. *)
From S2P Require Import Prelude Sdk.

Class Broadcast (A : Type) := {
  Sender : Type;
  Receiver : Type;
  bc_channel : nat → Sender;
  bc_send : A → Sender → Sender;
  bc_subscribe : Sender → Receiver * Sender;
  (** What [recv] would still yield, oldest first. *)
  bc_unread : Receiver → Sender → list A;
  bc_retained : Sender → nat;
  (** The receiver was handed out by this channel. *)
  bc_live : Receiver → Sender → Prop;
  channel_retained : ∀ n, 0 < n → n ≤ bc_retained (bc_channel n);
  send_retained : ∀ a s, bc_retained (bc_send a s) = bc_retained s;
  subscribe_retained : ∀ s, bc_retained (bc_subscribe s).2 = bc_retained s;
  subscribe_unread : ∀ s, bc_unread (bc_subscribe s).1 (bc_subscribe s).2 = [];
  subscribe_live : ∀ s, bc_live (bc_subscribe s).1 (bc_subscribe s).2;
  send_live : ∀ a r s, bc_live r s → bc_live r (bc_send a s);
  send_unread : ∀ a r s, bc_live r s →
    bc_unread r (bc_send a s) = keep_last (bc_retained s) (bc_unread r s ++ [a]);
}.

Lemma sends_retained {A} `{Broadcast A} (l : list A) (s : Sender) :
  bc_retained (foldl (λ s a, bc_send a s) s l) = bc_retained s.
Proof.
  revert s. induction l as [|a l IH]; intros s; simpl; [done|]. by rewrite IH, send_retained.
Qed.

Lemma sends_live {A} `{Broadcast A} (l : list A) (s : Sender) r :
  bc_live r s → bc_live r (foldl (λ s a, bc_send a s) s l).
Proof. revert s. induction l as [|a l IH]; intros s Hr; simpl; [done|]. by apply IH, send_live. Qed.

(** A subscriber sees the last [retained] of what is sent after it came. *)
Lemma sends_unread {A} `{Broadcast A} (l : list A) (s : Sender) r :
  bc_live r s →
  bc_unread r s = keep_last (bc_retained s) (bc_unread r s) →
  bc_unread r (foldl (λ s a, bc_send a s) s l) = keep_last (bc_retained s) (bc_unread r s ++ l).
Proof.
  intros Hl. induction l as [|a l IH] using rev_ind; intros Hr.
  { simpl. by rewrite app_nil_r. }
  rewrite foldl_app. simpl. rewrite send_unread, IH, sends_retained by (by try apply sends_live).
  rewrite keep_last_snoc by lia. by rewrite app_assoc.
Qed.

(** ** The event broker *)

Module EventBroker.

Section EventBroker.

Context `{Broadcast Event}.

Record EventBroker := mkBroker { eb_sender : Sender }.

Definition new (capacity : nat) : EventBroker := mkBroker (bc_channel capacity).

Definition publish (event : Event) (b : EventBroker) : EventBroker :=
  mkBroker (bc_send event (eb_sender b)).

Definition subscribe (b : EventBroker) : Receiver * EventBroker :=
  let '(r, s) := bc_subscribe (eb_sender b) in (r, mkBroker s).

Lemma publishes (events : list Event) (b : EventBroker) :
  foldl (λ b e, publish e b) b events = mkBroker (foldl (λ s e, bc_send e s) (eb_sender b) events).
Proof. revert b. induction events as [|e l IH]; intros [s]; simpl; [done|]. by rewrite IH. Qed.

(** A subscriber of the broker sees exactly the events published after it
    subscribed, in order, the oldest being dropped only beyond the broker's
    capacity, and is never shown an earlier event. *)
Theorem broker_delivers_in_order (capacity : nat) (before after : list Event) :
  0 < capacity →
  let b := foldl (λ b e, publish e b) (new capacity) before in
  let '(r, b) := subscribe b in
  let b := foldl (λ b e, publish e b) b after in
  ∃ n, capacity ≤ n ∧ bc_unread r (eb_sender b) = keep_last n after ∧
       (length after ≤ capacity → bc_unread r (eb_sender b) = after).
Proof.
  intros Hc b. unfold b. rewrite publishes. unfold subscribe; simpl.
  set (s0 := foldl _ (bc_channel capacity) before).
  pose proof (subscribe_unread s0) as Hu. pose proof (subscribe_retained s0) as Hr.
  pose proof (subscribe_live s0) as Hl.
  destruct (bc_subscribe s0) as [r s1]; simpl in *.
  rewrite publishes. simpl. rewrite sends_unread, Hu, Hr by (done || by rewrite Hu).
  assert (capacity ≤ bc_retained s0) as Hle.
  { unfold s0. rewrite sends_retained. by apply channel_retained. }
  exists (bc_retained s0). split_and!; [done|done|]. intros. apply keep_last_all. simpl. lia.
Qed.

End EventBroker.
End EventBroker.

(** ** The log ring *)

Record LogLine := mkLogLine {
  ll_at : SystemTime;
  ll_level : string;
  ll_message : string;
}.

Module Ring.

Section Ring.

Context `{Broadcast LogLine}.

Record SourceLog := mkSource { lines : list LogLine; tail : Sender }.

Definition source_new (capacity : nat) : SourceLog := mkSource [] (bc_channel (capacity `max` 1)).

Record LogRing := mkRing { capacity : nat; sources : gmap string SourceLog }.

Definition new (capacity : nat) : LogRing := mkRing capacity ∅.

Definition source_entry (sources : gmap string SourceLog) (source : string) (capacity : nat) :
    SourceLog :=
  default (source_new capacity) (sources !! source).

Definition append (source : string) (line : LogLine) (r : LogRing) : LogRing :=
  let entry := source_entry (sources r) source (capacity r) in
  let kept := if (capacity r <=? length (lines entry)) then drop 1 (lines entry)
              else lines entry in
  mkRing (capacity r)
    (<[source := mkSource (kept ++ [line]) (bc_send line (tail entry))]> (sources r)).

Definition backlog (source : string) (n : nat) (r : LogRing) : list LogLine :=
  match sources r !! source with
  | None => []
  | Some entry => drop (length (lines entry) - n) (lines entry)
  end.

Definition subscribe (source : string) (r : LogRing) : Receiver * LogRing :=
  let entry := source_entry (sources r) source (capacity r) in
  let '(rx, tail) := bc_subscribe (tail entry) in
  (rx, mkRing (capacity r) (<[source := mkSource (lines entry) tail]> (sources r))).

(** *** Reference: the full history of every source *)

Definition history (source : string) (appends : list (string * LogLine)) : list LogLine :=
  map snd (filter (λ p, p.1 = source) appends).

Definition append_all (appends : list (string * LogLine)) (r : LogRing) : LogRing :=
  foldl (λ r p, append p.1 p.2 r) r appends.

(** Lines kept for a source. *)
Definition kept (source : string) (r : LogRing) : list LogLine :=
  from_option lines [] (sources r !! source).

Lemma history_snoc source appends p :
  history source (appends ++ [p]) =
    history source appends ++ (if decide (p.1 = source) then [p.2] else []).
Proof.
  unfold history. rewrite filter_app, map_app. f_equal. by destruct (decide (p.1 = source)); [rewrite filter_cons_True|rewrite filter_cons_False].
Qed.

Lemma kept_append source p r :
  length (kept source r) ≤ capacity r `max` 1 →
  kept source (append p.1 p.2 r) =
    if decide (p.1 = source) then keep_last (capacity r `max` 1) (kept source r ++ [p.2])
    else kept source r.
Proof.
  intros Hl. unfold kept, append. simpl. destruct (decide (p.1 = source)) as [->|Hne].
  2: by rewrite lookup_insert_ne.
  rewrite lookup_insert_eq. simpl. unfold kept, source_entry, source_new in *.
  destruct (sources r !! source) as [e|]; simpl in *.
  - unfold keep_last. rewrite length_app; simpl.
    destruct (Nat.leb_spec (capacity r) (length (lines e))) as [Hle|Hlt].
    + destruct (lines e) as [|x l]; simpl in *; [by replace (capacity r) with 0 by lia|].
      by replace (S (length l + 1) - capacity r `max` 1) with 1 by lia.
    + by replace (length (lines e) + 1 - capacity r `max` 1) with 0 by lia.
  - by destruct (capacity r).
Qed.

Lemma kept_append_all source appends c :
  kept source (append_all appends (new c)) = keep_last (c `max` 1) (history source appends) ∧
  capacity (append_all appends (new c)) = c.
Proof.
  unfold append_all. induction appends as [|p l [IH IHc]] using rev_ind; [done|].
  rewrite foldl_app. simpl. split; [|done].
  rewrite kept_append, IH, IHc, history_snoc
    by (rewrite IH, IHc, length_keep_last; lia).
  destruct (decide (p.1 = source)); [by apply keep_last_snoc; lia|by rewrite app_nil_r].
Qed.

(** Whatever was appended to whatever sources, the backlog of a source is
    the last lines appended to that source, oldest first: as many as asked
    for, up to the capacity (one line, when the capacity is zero). *)
Theorem backlog_is_recent_history (c n : nat) (source : string)
    (appends : list (string * LogLine)) :
  backlog source n (append_all appends (new c)) =
    keep_last (n `min` (c `max` 1)) (history source appends).
Proof.
  rewrite <- keep_last_keep_last. rewrite <- (proj1 (kept_append_all source appends c)).
  unfold backlog, kept, keep_last. by destruct (sources _ !! source).
Qed.

End Ring.
End Ring.

(** ** A broadcast channel

    The channel as its full log, a receiver being the position it came in at. *)
Module Queue.

Section Queue.

Context {A : Type}.

Record Chan := mkChan { cap : nat; log : list A }.

#[global] Instance queue : Broadcast A.
Proof.
  refine {|
    Sender := Chan;
    Receiver := nat;
    bc_channel n := mkChan n [];
    bc_send a s := mkChan (cap s) (log s ++ [a]);
    bc_subscribe s := (length (log s), s);
    bc_unread r s := keep_last (cap s) (drop r (log s));
    bc_retained s := cap s;
    bc_live r s := r ≤ length (log s);
  |}; simpl; try done.
  - intros s. by rewrite drop_ge.
  - intros a r s Hr. rewrite length_app. simpl. lia.
  - intros a r s Hr. by rewrite drop_app_le, keep_last_snoc by lia.
Defined.

End Queue.

Definition ev (n : Z) : Event := mkEvent "m" Info "tick" n ∅.

Lemma broker_delivers_in_order_witness :
  ∃ r b, bc_unread (A := Event) r (EventBroker.eb_sender b) = [ev 2; ev 3].
Proof.
  pose proof (EventBroker.broker_delivers_in_order (H := queue) 4 [ev 1] [ev 2; ev 3]) as H.
  destruct H as (n & _ & _ & E); [lia|]. eexists _, _. apply E. simpl. lia.
Defined.

Lemma backlog_is_recent_history_witness :
  Ring.backlog (H := queue) "m" 5
    (Ring.append_all [("m", mkLogLine 1%Z "info" "a"); ("n", mkLogLine 2%Z "info" "b");
                      ("m", mkLogLine 3%Z "info" "c"); ("m", mkLogLine 4%Z "info" "d")] (Ring.new 2))
    = [mkLogLine 3%Z "info" "c"; mkLogLine 4%Z "info" "d"].
Proof. rewrite Ring.backlog_is_recent_history. by vm_compute. Defined.

End Queue.
