(* ===== verification/DnsCache.v ===== *)
(** * The DNS answer cache (crates/squawk-client/src/forwarder/cache.rs)

    The cache state is the map of entries, the insertion order used for FIFO
    eviction and the two activity counters.  Every operation runs under the
    mutex and is one function here; the instant of the call is an argument.
    [insert] returns [None] when the expiry instant overflows, where the code
    panics before it takes the lock. *)
From S2P Require Import Prelude Text.

Inductive RecordKind :=
| KInt (value : Z)
| KText (text : string).

Record DnsRecord := mkDnsRecord {
  dr_name : string;
  dr_kind : RecordKind;
  dr_ttl : Z;
  dr_data : string;
}.

Module Cache.

Record CacheConfig := mkCacheConfig { cc_enabled : bool; cc_max_entries : Z }.

Definition CacheConfig_default : CacheConfig := mkCacheConfig true 10000.

Record CachedAnswer := mkAnswer { ca_status : Z; ca_answers : list DnsRecord }.

Record CacheStats := mkStats { cs_entries : Z; cs_hits : Z; cs_misses : Z }.

(** [CacheKey]: the folded name and record type. *)
Definition CacheKey : Type := string * string.
Definition key_new (name record_type : string) : CacheKey :=
  (to_ascii_lowercase name, to_ascii_uppercase record_type).

Record CacheEntry := mkEntry { ce_answer : CachedAnswer; ce_expires_at : Z }.

Record t := mkCache {
  enabled : bool;
  max_entries : Z;
  entries : gmap CacheKey CacheEntry;
  order : list CacheKey;
  hits : Z;
  misses : Z;
}.

Definition new (config : CacheConfig) : t :=
  mkCache (cc_enabled config) (Z.max (cc_max_entries config) 1) ∅ [] 0 0.

Definition with_state (es : gmap CacheKey CacheEntry) (ord : list CacheKey) (c : t) : t :=
  mkCache (enabled c) (max_entries c) es ord (hits c) (misses c).

Definition hit (c : t) : t :=
  mkCache (enabled c) (max_entries c) (entries c) (order c) (wrap_u64 (hits c + 1)) (misses c).
Definition miss (c : t) : t :=
  mkCache (enabled c) (max_entries c) (entries c) (order c) (hits c) (wrap_u64 (misses c + 1)).

Definition get (name record_type : string) (now : Z) (c : t) : option CachedAnswer * t :=
  if negb (enabled c) then (None, miss c)
  else
    let key := key_new name record_type in
    match entries c !! key with
    | None => (None, miss c)
    | Some entry =>
        if (ce_expires_at entry <=? now)%Z then
          (None, miss (with_state (delete key (entries c)) (order c) c))
        else (Some (ce_answer entry), hit c)
    end.

(** The minimum TTL in seconds, each floored to one. *)
Fixpoint min_ttl_loop (min_ttl : option Z) (answers : list DnsRecord) : option Z :=
  match answers with
  | [] => min_ttl
  | answer :: rest =>
      let ttl := Z.max (Z.max (dr_ttl answer) 0) 1 in
      match min_ttl with
      | None => min_ttl_loop (Some ttl) rest
      | Some current =>
          if (ttl <? current)%Z then min_ttl_loop (Some ttl) rest else min_ttl_loop min_ttl rest
      end
  end.
Definition min_positive_ttl (answers : list DnsRecord) : option Z := min_ttl_loop None answers.

(** [Instant + Duration]: an [Instant] counts seconds in an [i64]. *)
Definition instant_add (now secs : Z) : option Z :=
  if (now / 1000000000 + secs <? 2 ^ 63)%Z then Some (now + secs * 1000000000)%Z else None.

(** Makes room for [key] and inserts it. *)
Definition insert_locked (key : CacheKey) (entry : CacheEntry) (c : t) : t :=
  let already_present := bool_decide (is_Some (entries c !! key)) in
  let at_capacity := (max_entries c <=? Z.of_nat (size (entries c)))%Z in
  let '(es, ord) :=
    if negb already_present && at_capacity then
      match order c with
      | oldest :: rest => (delete oldest (entries c), rest)
      | [] => (entries c, order c)
      end
    else (entries c, order c) in
  let ord' := match es !! key with None => ord ++ [key] | Some _ => ord end in
  with_state (<[key := entry]> es) ord' c.

Definition insert (name record_type : string) (status : Z) (answers : list DnsRecord) (now : Z)
    (c : t) : option t :=
  if negb (enabled c) || negb (status =? 0)%Z then Some c
  else
    match min_positive_ttl answers with
    | None => Some c
    | Some ttl_secs =>
        match instant_add now ttl_secs with
        | None => None
        | Some expires_at =>
            Some (insert_locked (key_new name record_type)
                    (mkEntry (mkAnswer status answers) expires_at) c)
        end
    end.

Definition stats (c : t) : CacheStats :=
  mkStats (Z.of_nat (size (entries c))) (hits c) (misses c).

Definition flush (c : t) : t := with_state ∅ [] c.

(** ** Facts *)

Lemma min_ttl_loop_spec m answers :
  match m with Some x => (1 ≤ x)%Z | None => True end →
  match min_ttl_loop m answers with
  | None => m = None ∧ answers = []
  | Some t => (1 ≤ t)%Z ∧ match m with Some x => (t ≤ x)%Z | None => True end ∧
      (∀ a, a ∈ answers → (t ≤ Z.max (dr_ttl a) 1)%Z) ∧
      (m = Some t ∨ ∃ a, a ∈ answers ∧ t = Z.max (dr_ttl a) 1)
  end.
Proof.
  revert m. induction answers as [|a answers IH]; intros m Hm; simpl.
  { destruct m; [|done]. split_and!; [done|done| |by left].
    intros ? ?%elem_of_nil. done. }
  set (ttl := Z.max (Z.max (dr_ttl a) 0) 1). assert (ttl = Z.max (dr_ttl a) 1) as Ht by lia.
  destruct m as [x|]; [destruct (Z.ltb_spec ttl x)|].
  - specialize (IH (Some ttl)). destruct (min_ttl_loop (Some ttl) answers) as [t|]; [|naive_solver lia].
    destruct IH as (H1 & H2 & H3 & H4); [lia|]. split_and!; [done|lia| |].
    + intros b [->|Hb]%elem_of_cons; [lia|auto].
    + right. destruct H4 as [[= <-]|(b & Hb & E)]; eauto using list_elem_of_here, list_elem_of_further.
  - specialize (IH (Some x)). destruct (min_ttl_loop (Some x) answers) as [t|]; [|naive_solver lia].
    destruct IH as (H1 & H2 & H3 & H4); [lia|]. split_and!; [done|lia| |].
    + intros b [->|Hb]%elem_of_cons; [lia|auto].
    + destruct H4 as [[= <-]|(b & Hb & E)]; eauto using list_elem_of_here, list_elem_of_further.
  - specialize (IH (Some ttl)). destruct (min_ttl_loop (Some ttl) answers) as [t|]; [|naive_solver lia].
    destruct IH as (H1 & H2 & H3 & H4); [lia|]. split_and!; [done|done| |].
    + intros b [->|Hb]%elem_of_cons; [lia|auto].
    + right. destruct H4 as [[= <-]|(b & Hb & E)]; eauto using list_elem_of_here, list_elem_of_further.
Qed.

Lemma insert_locked_lookup key entry c key' :
  entries (insert_locked key entry c) !! key =  Some entry ∧
  (key' ≠ key → entries (insert_locked key entry c) !! key' = entries c !! key' ∨
     ((max_entries c ≤ Z.of_nat (size (entries c)))%Z ∧ head (order c) = Some key' ∧
      entries (insert_locked key entry c) !! key' = None)).
Proof.
  unfold insert_locked.
  case_bool_decide; simpl; [split; [by rewrite lookup_insert_eq|left; by rewrite lookup_insert_ne]|].
  destruct (Z.leb_spec (max_entries c) (Z.of_nat (size (entries c)))); simpl;
    [|split; [by rewrite lookup_insert_eq|left; by rewrite lookup_insert_ne]].
  destruct (order c) as [|oldest rest]; simpl;
    (split; [by rewrite lookup_insert_eq|]; intros Hne; rewrite lookup_insert_ne by done); [by left|].
  destruct (decide (oldest = key')) as [->|]; [right|left; by rewrite lookup_delete_ne].
  by rewrite lookup_delete_eq.
Qed.

(** A positive answer put in the cache is found again under any spelling
    of the same name and type until the smallest TTL of its records has
    passed (each floored to one second), and from then on a lookup misses and
    drops the entry. *)
Theorem insert_then_get (name ty name' ty' : string) (answers : list DnsRecord) (now now' : Z)
    (c c' : t) :
  enabled c = true → answers ≠ [] → key_new name' ty' = key_new name ty →
  insert name ty 0 answers now c = Some c' →
  ∃ ttl, (∃ a, a ∈ answers ∧ ttl = Z.max (dr_ttl a) 1) ∧
    (∀ a, a ∈ answers → (ttl ≤ Z.max (dr_ttl a) 1)%Z) ∧
    ((now' < now + ttl * 1000000000)%Z →
       (get name' ty' now' c').1 = Some (mkAnswer 0 answers)) ∧
    ((now + ttl * 1000000000 ≤ now')%Z →
       (get name' ty' now' c').1 = None ∧
       entries (get name' ty' now' c').2 !! key_new name ty = None).
Proof.
  intros He Ha Hk. unfold insert, min_positive_ttl. rewrite He. simpl.
  pose proof (min_ttl_loop_spec None answers I) as Hm.
  destruct (min_ttl_loop None answers) as [ttl|]; [|naive_solver].
  destruct Hm as (_ & _ & Hle & [?|Hex]); [done|].
  unfold instant_add. destruct (_ <? _)%Z; [|done]. intros [= <-]. exists ttl. split_and!; [done|done|..].
  all: unfold get; set (entry := mkEntry _ _); rewrite Hk; simpl.
  all: assert (enabled (insert_locked (key_new name ty) entry c) = true) as ->
    by (unfold insert_locked; by repeat case_match).
  all: rewrite (proj1 (insert_locked_lookup _ entry c (key_new name ty))); simpl; intros Hn.
  - by rewrite (proj2 (Z.leb_gt _ _)) by (simpl; lia).
  - rewrite (proj2 (Z.leb_le _ _)) by (simpl; lia). simpl. by rewrite lookup_delete_eq.
Qed.

(** ** Runs *)

(** One operation of the cache at a moment of a clock that never goes back;
    [fresh] excludes the lookups that find an expired entry. *)
Inductive step (fresh : Prop) : Z * t → Z * t → Prop :=
| step_get name ty now now' c : (now ≤ now')%Z →
    (fresh → ∀ e, entries c !! key_new name ty = Some e → (now' < ce_expires_at e)%Z) →
    step fresh (now, c) (now', (get name ty now' c).2)
| step_insert name ty status answers now now' c c' : (now ≤ now')%Z →
    insert name ty status answers now' c = Some c' → step fresh (now, c) (now', c')
| step_flush now c : step fresh (now, c) (now, flush c).

(** The order lists exactly the entries, of which there are not too many. *)
Record tidy (c : t) : Prop := {
  tidy_nodup : NoDup (order c);
  tidy_elem : ∀ k, k ∈ order c ↔ is_Some (entries c !! k);
  tidy_bound : (Z.of_nat (size (entries c)) ≤ max_entries c)%Z;
  tidy_max : (1 ≤ max_entries c)%Z;
}.

Lemma tidy_new config : tidy (new config).
Proof.
  split; simpl; [constructor|..|lia].
  - intros k. rewrite lookup_empty, elem_of_nil. split; [done|]. by intros [].
  - rewrite map_size_empty. lia.
Qed.

(** A fresh key goes to the end of the order; a known one keeps its place. *)
Lemma tidy_put es ord key entry (m : Z) c :
  NoDup ord → (∀ k, k ∈ ord ↔ is_Some (es !! k)) → max_entries c = m → (1 ≤ m)%Z →
  (Z.of_nat (size es) ≤ m)%Z → (es !! key = None → (Z.of_nat (size es) < m)%Z) →
  tidy (with_state (<[key := entry]> es)
          (match es !! key with None => ord ++ [key] | Some _ => ord end) c).
Proof.
  intros Hnd Hel Hm H1 Hb Hroom. destruct (es !! key) as [e|] eqn:E.
  - split; simpl; rewrite ?Hm; try done.
    + intros k. rewrite Hel, lookup_insert. case_decide; subst; [by rewrite E|done].
    + by rewrite map_size_insert_Some by eauto.
  - split; simpl; rewrite ?Hm; try done.
    + apply NoDup_app. split_and!; [done| |apply NoDup_singleton].
      intros k Hk ->%list_elem_of_singleton. apply Hel in Hk as [? ?]. congruence.
    + intros k. rewrite elem_of_app, list_elem_of_singleton, Hel, lookup_insert.
      case_decide; subst; [by split; [intros _; eauto|by right]|]. naive_solver.
    + rewrite map_size_insert_None by done. specialize (Hroom eq_refl). lia.
Qed.

Lemma tidy_insert_locked key entry c : tidy c → tidy (insert_locked key entry c).
Proof.
  intros []. unfold insert_locked. destruct (entries c !! key) as [e|] eqn:E.
  { rewrite bool_decide_true by done. simpl. eapply tidy_put; eauto. congruence. }
  rewrite bool_decide_false by (by intros []). simpl.
  destruct (Z.leb_spec (max_entries c) (Z.of_nat (size (entries c)))).
  2: { eapply tidy_put; eauto. }
  destruct (order c) as [|oldest rest] eqn:Ho.
  { assert (entries c = ∅) as Hemp.
    { apply map_eq. intros k. rewrite lookup_empty.
      destruct (entries c !! k) eqn:Ek; [|done]. exfalso. eapply not_elem_of_nil, tidy_elem0. eauto. }
    rewrite Hemp, map_size_empty in H. lia. }
  apply NoDup_cons in tidy_nodup0 as [Hni Hnd].
  assert (is_Some (entries c !! oldest)) as [o Hold] by (apply tidy_elem0, list_elem_of_here).
  assert (size (entries c) = S (size (delete oldest (entries c)))) as Hsz.
  { rewrite map_size_delete_Some by eauto. 
    assert (size (entries c) ≠ 0) by (eapply map_size_ne_0_lookup_2; eauto). lia. }
  eapply tidy_put; eauto; [|lia..].
  intros k. rewrite lookup_delete. specialize (tidy_elem0 k). rewrite elem_of_cons in tidy_elem0.
  case_decide; subst; [|naive_solver]. split; [done|by intros []].
Qed.

Lemma tidy_step now c now' c' : tidy c → step True (now, c) (now', c') → tidy c'.
Proof.
  intros Ht Hs. pose proof Ht as []. inversion Hs as [nm ty ? ? ? Hle Hf|nm ty st an ? ? ? ? Hle Hi|];
    subst.
  - unfold get. case_match; [by split|]. destruct (entries c !! key_new nm ty) eqn:E; [|by split].
    rewrite (proj2 (Z.leb_gt _ _)) by (by apply Hf). by split.
  - unfold insert in Hi. repeat case_match; simplify_eq; try done. by apply tidy_insert_locked.
  - split; simpl; [constructor|..|done].
    + intros k. rewrite lookup_empty, elem_of_nil. split; [done|]. by intros [].
    + rewrite map_size_empty. lia.
Qed.

(** As long as no lookup finds an expired entry, the cache never holds
    more entries than configured (at least one), and its eviction order
    lists exactly the entries present, each once. *)
Theorem cache_bounded_while_fresh (config : CacheConfig) (now now' : Z) (c : t) :
  rtc (step True) (now, new config) (now', c) →
  (Z.of_nat (size (entries c)) ≤ Z.max (cc_max_entries config) 1)%Z ∧
  NoDup (order c) ∧ (∀ k, k ∈ order c ↔ is_Some (entries c !! k)).
Proof.
  intros Hr.
  assert (tidy c ∧ max_entries c = Z.max (cc_max_entries config) 1) as [[] Hm].
  { change (tidy (now', c).2 ∧ max_entries (now', c).2 = Z.max (cc_max_entries config) 1).
    eapply (rtc_ind_r (λ p, tidy p.2 ∧ max_entries p.2 = _)); [|..|exact Hr].
    { split; [apply tidy_new|done]. }
    intros [n1 c1] [n2 c2] _ Hs [IH IHm]. split; [by eapply tidy_step|]. simpl in *. rewrite <- IHm.
    inversion Hs as [? ? ? ? ? ? Hf|? ? ? ? ? ? ? ? ? Hi|]; subst; [|..|done].
    - unfold get. by repeat case_match.
    - unfold insert, insert_locked in Hi. by repeat case_match; simplify_eq. }
  rewrite <- Hm. auto.
Qed.

(** *** Expired lookups leave the order behind *)

Definition second : Z := 1000000000.
Definition short_lived : DnsRecord := mkDnsRecord "k" (KText "A") 1 "192.0.2.1".

(** A cache of one entry whose order holds [n] leftovers of [k]. *)
Definition leftovers (n : nat) (ms : Z) : t :=
  mkCache true 1 ∅ (replicate n (key_new "k" "A")) 0 ms.

Lemma insert_locked_empty key e m ord h ms :
  (1 ≤ m)%Z →
  insert_locked key e (mkCache true m ∅ ord h ms) = mkCache true m {[key := e]} (ord ++ [key]) h ms.
Proof.
  intros Hm. unfold insert_locked; simpl. rewrite lookup_empty, map_size_empty.
  rewrite (proj2 (Z.leb_gt _ _)) by lia. by rewrite andb_false_r, lookup_empty.
Qed.

Lemma insert_positive name ty r now c :
  enabled c = true → (now / second + Z.max (dr_ttl r) 1 < 2 ^ 63)%Z →
  insert name ty 0 [r] now c =
    Some (insert_locked (key_new name ty)
            (mkEntry (mkAnswer 0 [r]) (now + Z.max (dr_ttl r) 1 * second)) c).
Proof.
  intros He Hb. unfold insert, min_positive_ttl, instant_add. rewrite He. simpl.
  replace (Z.max (Z.max (dr_ttl r) 0) 1) with (Z.max (dr_ttl r) 1) by lia.
  by rewrite (proj2 (Z.ltb_lt _ _)).
Qed.

Lemma get_expired name ty now c e :
  enabled c = true → entries c !! key_new name ty = Some e → (ce_expires_at e ≤ now)%Z →
  (get name ty now c).2 = miss (with_state (delete (key_new name ty) (entries c)) (order c) c).
Proof. intros He E Hn. unfold get. by rewrite He, E, (proj2 (Z.leb_le _ _)). Qed.

(** One TTL of an ordinary name: asked for, answered, asked for again once the
    answer has expired. *)
Lemma expiry_cycle n ms (now : Z) :
  (now / second + 1 < 2 ^ 63)%Z →
  ∃ ms', rtc (step False) (now, leftovers n ms) ((now + second)%Z, leftovers (S n) ms').
Proof.
  intros Hb. eexists. eapply rtc_l.
  { apply (step_insert _ "k" "A" 0 [short_lived] _ now); [lia|]. by apply insert_positive. }
  eapply rtc_l; [apply (step_get _ "k" "A" _ (now + second)); [unfold second; lia|done]|].
  unfold leftovers. rewrite insert_locked_empty by lia.
  erewrite get_expired; [|done|apply lookup_insert_eq|simpl; lia].
  unfold miss, with_state. cbn [entries order enabled max_entries hits misses].
  rewrite delete_singleton_eq, <- replicate_S_end. apply rtc_refl.
Qed.

Lemma expiry_cycles n : (Z.of_nat n < 2 ^ 62)%Z →
  ∃ ms, rtc (step False) (0%Z, leftovers 0 0) ((Z.of_nat n * second)%Z, leftovers n ms).
Proof.
  induction n as [|n IH]; intros Hn; [exists 0%Z; apply rtc_refl|].
  destruct IH as [ms Hr]; [lia|].
  destruct (expiry_cycle n ms (Z.of_nat n * second)) as [ms' Hc];
    [rewrite Z.div_mul by done; lia|].
  exists ms'. etrans; [exact Hr|]. replace (Z.of_nat (S n) * second)%Z with
    (Z.of_nat n * second + second)%Z by lia. exact Hc.
Qed.

(** Names [""], ["x"], ["xx"], ... *)
Fixpoint xs (n : nat) : string :=
  match n with 0 => EmptyString | S n => String (Ascii.ascii_of_nat 120) (xs n) end.

Lemma xs_lower n : to_ascii_lowercase (xs n) = xs n.
Proof.
  unfold to_ascii_lowercase. induction n as [|n IH]; [done|]. simpl. by rewrite IH.
Qed.

Lemma xs_inj n m : xs n = xs m → n = m.
Proof. revert m. induction n as [|n IH]; intros [|m] [=]; auto. Qed.

(** [S m] fresh names into a cache with [n] leftovers: all of them stay. *)
Lemma fill n m ms (now : Z) :
  (now / second + 1 < 2 ^ 63)%Z → m ≤ n →
  ∃ c rest, rtc (step False) (now, leftovers n ms) (now, c) ∧ size (entries c) = S m ∧
    enabled c = true ∧ max_entries c = 1%Z ∧
    order c = replicate (n - m) (key_new "k" "A") ++ rest ∧
    (∀ k, is_Some (entries c !! k) → ∃ j, j ≤ m ∧ k = (xs j, "A")).
Proof.
  intros Hb. induction m as [|m IH]; intros Hm.
  { eexists _, _. split; [|split_and!].
    - eapply rtc_l; [|apply rtc_refl].
      apply (step_insert _ (xs 0) "A" 0 [short_lived] _ now); [lia|]. by apply insert_positive.
    - unfold leftovers. rewrite insert_locked_empty by lia. apply map_size_singleton.
    - done.
    - done.
    - unfold leftovers. rewrite insert_locked_empty, Nat.sub_0_r by lia. reflexivity.
    - unfold leftovers. rewrite insert_locked_empty by lia. intros k [e He]. cbn [entries] in He.
      apply lookup_singleton_Some in He as [<- _]. exists 0. split; [lia|done]. }
  destruct IH as (c & rest & Hr & Hsz & He & Hmx & Ho & Hk); [lia|].
  set (key := key_new (xs (S m)) "A").
  assert (key = (xs (S m), "A")) as Hkey. { unfold key, key_new. by rewrite xs_lower. }
  assert (entries c !! key = None) as Hfresh.
  { apply eq_None_not_Some. intros (j & Hj & E)%Hk. rewrite Hkey in E.
    injection E as E. apply (xs_inj (S m)) in E. lia. }
  assert (entries c !! key_new "k" "A" = None) as Hstale.
  { apply eq_None_not_Some. intros (j & Hj & [=E])%Hk. by destruct j. }
  set (e := mkEntry (mkAnswer 0 [short_lived]) (now + Z.max (dr_ttl short_lived) 1 * second)).
  assert (insert_locked key e c = with_state (<[key := e]> (entries c))
    (replicate (n - S m) (key_new "k" "A") ++ rest ++ [key]) c) as E.
  { unfold insert_locked. rewrite Hfresh, Hsz, Hmx, Ho.
    replace (n - m) with (S (n - S m)) by lia. simpl replicate.
    rewrite bool_decide_false by (by intros []).
    rewrite (proj2 (Z.leb_le _ _)) by lia. cbn [negb andb app].
    by rewrite delete_id, Hfresh, app_assoc. }
  eexists _, (rest ++ [key]). split; [|split_and!].
  - eapply rtc_r; [exact Hr|]. apply (step_insert _ (xs (S m)) "A" 0 [short_lived] _ now); [lia|].
    by apply insert_positive.
  - fold key e. rewrite E. simpl. by rewrite map_size_insert_None, Hsz.
  - fold key e. by rewrite E.
  - fold key e. by rewrite E.
  - fold key e. by rewrite E.
  - fold key e. rewrite E. simpl. intros k. rewrite lookup_insert. case_decide as Ek.
    + intros _. exists (S m). subst k. split; [lia|done].
    + intros (j & ? & ?)%Hk. exists j. split; [lia|done].
Qed.

(** The configured maximum is not a bound: reading a name again after its
    TTL removes the entry but leaves its key in the eviction order, so [n]
    such readings make a cache configured for one entry hold [n + 1], and
    its order grows by one per reading. *)
Theorem cache_outgrows_maximum (n : nat) :
  (Z.of_nat n < 2 ^ 62)%Z →
  (∃ now c, rtc (step False) (0%Z, new (mkCacheConfig true 1)) (now, c) ∧
     size (entries c) = 0 ∧ length (order c) = n) ∧
  (∃ now c, rtc (step False) (0%Z, new (mkCacheConfig true 1)) (now, c) ∧
     size (entries c) = S n ∧ max_entries c = 1%Z).
Proof.
  intros Hn. destruct (expiry_cycles n Hn) as [ms Hr]. split.
  - eexists _, _. split_and!; [exact Hr|apply map_size_empty|apply length_replicate].
  - destruct (fill n n ms (Z.of_nat n * second)) as (c & rest & Hf & Hs & _ & Hmx & _);
      [rewrite Z.div_mul by done; lia|done|].
    eexists _, c. split_and!; [|done|done]. etrans; [exact Hr|exact Hf].
Qed.

(** A TTL of [i64::MAX], which a response may carry, overflows the expiry
    instant of any daemon that has been up for a second. *)
Lemma insert_huge_ttl name ty r now c :
  enabled c = true → (second ≤ now)%Z → dr_ttl r = (2 ^ 63 - 1)%Z →
  insert name ty 0 [r] now c = None.
Proof.
  intros He Hn Hr. unfold insert, min_positive_ttl, instant_add. rewrite He. simpl. rewrite Hr.
  assert (1 ≤ now / 1000000000)%Z by (apply Z.div_le_lower_bound; unfold second in Hn; lia).
  by rewrite (proj2 (Z.ltb_ge _ _)) by lia.
Qed.

(** *** Concrete caches *)

Lemma insert_then_get_witness :
  ∃ c', insert "Example.org" "a" 0 [short_lived] 5 (new CacheConfig_default) = Some c' ∧
    (get "example.ORG" "A" 1000000004 c').1 = Some (mkAnswer 0 [short_lived]).
Proof.
  eexists. split; [by apply insert_positive|].
  match goal with |- (get _ _ _ ?c').1 = _ =>
    destruct (insert_then_get "Example.org" "a" "example.ORG" "A" [short_lived] 5 1000000004
      (new CacheConfig_default) c') as (ttl & (a & Ha & ->) & _ & H & _);
      [done|done|by vm_compute|by apply insert_positive|] end.
  apply list_elem_of_singleton in Ha as ->. apply H. by vm_compute.
Defined.

Lemma cache_bounded_while_fresh_witness :
  ∃ c, rtc (step True) (0%Z, new (mkCacheConfig true 1)) (0%Z, c) ∧
    (Z.of_nat (size (entries c)) ≤ 1)%Z.
Proof.
  assert (∃ c, rtc (step True) (0%Z, new (mkCacheConfig true 1)) (0%Z, c)) as [c Hr].
  { eexists. eapply rtc_l; [|apply rtc_refl].
    apply (step_insert _ "a" "A" 0 [short_lived] _ 0); [lia|]. by apply insert_positive. }
  exists c. split; [done|].
  apply (cache_bounded_while_fresh (mkCacheConfig true 1) 0 0 c Hr).
Defined.

Lemma cache_outgrows_maximum_witness :
  ∃ now c, rtc (step False) (0%Z, new (mkCacheConfig true 1)) (now, c) ∧
    size (entries c) = 4 ∧ max_entries c = 1%Z.
Proof. apply (cache_outgrows_maximum 3). done. Defined.

End Cache.
