(* ===== verification/Ntp.v ===== *)
(** * The SNTP client (crates/squawk-client/src/ntp.rs)

    The packet coding, the clock arithmetic and the failover loop of
    [NtpClient].  The network is an argument: what a query attempt meets is a
    [NetOutcome], the datagram being a list of bytes.  Instants are
    nanoseconds since the Unix epoch, as in [Sdk]. *)
From S2P Require Import Prelude Sdk.

Definition NTP_PACKET_SIZE : nat := 48.
Definition NTP_VERSION : Z := 4.
Definition NTP_MODE_CLIENT : Z := 3.
Definition NTP_EPOCH_OFFSET : Z := 2208988800.
Definition nanos_per_sec : Z := 1000000000.
Definition DEFAULT_TIMEOUT : Z := 5 * nanos_per_sec.
Definition DEFAULT_RETRY_DELAY : Z := 1 * nanos_per_sec.
Definition DEFAULT_NTP_PORT : string := "123".
Definition DEFAULT_SERVERS : list string :=
  ["pool.ntp.org:123"; "time.google.com:123"; "time.cloudflare.com:123"].

Record ClientConfig := mkClientConfig {
  cfg_server_urls : list string;
  cfg_timeout : Z;
  cfg_max_retries : Z;
  cfg_retry_delay : Z;
}.

Record TimeResponse := mkTimeResponse {
  tr_server_time : SystemTime;
  tr_local_time : SystemTime;
  tr_offset_nanos : Z;
  tr_round_trip_nanos : Z;
  tr_stratum : Z;
}.

Inductive NtpError :=
| NtpIo (msg : string)
| NtpTimeout
| ShortResponse (got expected : Z)
| NtpCancelled
| AllServersFailed (attempts : Z) (errors : list string).

Definition NtpError_display (e : NtpError) : string :=
  match e with
  | NtpIo msg => "io error: " +:+ msg
  | NtpTimeout => "query timed out"
  | ShortResponse got expected =>
      "short NTP response: got " +:+ pretty got +:+ " bytes, expected " +:+ pretty expected
  | NtpCancelled => "query cancelled"
  | AllServersFailed attempts errors =>
      "all " +:+ pretty attempts +:+ " NTP server attempts failed: " +:+ String.concat "; " errors
  end.

(** ** Server addresses *)

(** The text after the last colon, if any ([rsplit_once(':')]). *)
Fixpoint after_last_colon (s : string) : option string :=
  match s with
  | EmptyString => None
  | String c rest =>
      match after_last_colon rest with
      | Some port => Some port
      | None => if Nat.eqb (Ascii.nat_of_ascii c) 58 then Some rest else None
      end
  end.

Definition is_ascii_digit (c : Ascii.ascii) : bool :=
  (48 <=? Ascii.nat_of_ascii c) && (Ascii.nat_of_ascii c <=? 57).

Fixpoint all_digits (s : string) : bool :=
  match s with
  | EmptyString => true
  | String c rest => is_ascii_digit c && all_digits rest
  end.

Definition numeric_port (addr : string) : bool :=
  match after_last_colon addr with
  | Some port => negb (String.eqb port "") && all_digits port
  | None => false
  end.

Definition normalize_server_addr (addr : string) : string :=
  if numeric_port addr then addr else addr +:+ ":" +:+ DEFAULT_NTP_PORT.

(** ** Clock arithmetic *)

(** [i128] nanoseconds; [Z] is wide enough. *)
Definition nanos_since_epoch (t : SystemTime) : Z := t.

(** Rust's [/] truncates toward zero. *)
Definition ntp_offset_nanos (t1 t2 t3 t4 : SystemTime) : Z :=
  wrap_i64 (Z.quot ((nanos_since_epoch t2 - nanos_since_epoch t1) +
                    (nanos_since_epoch t3 - nanos_since_epoch t4)) 2).

Definition ntp_round_trip_nanos (t1 t2 t3 t4 : SystemTime) : Z :=
  wrap_i64 ((nanos_since_epoch t4 - nanos_since_epoch t1) -
            (nanos_since_epoch t3 - nanos_since_epoch t2)).

Definition system_time_to_ntp (t : SystemTime) : Z * Z :=
  let '(unix_secs, nanos) :=
    if (0 <=? t)%Z then ((t / nanos_per_sec)%Z, (t mod nanos_per_sec)%Z)
    else ((- NTP_EPOCH_OFFSET)%Z, 0%Z) in
  let ntp_secs := (unix_secs + NTP_EPOCH_OFFSET)%Z in
  let sec := if (0 <=? ntp_secs)%Z && (ntp_secs <=? 2 ^ 32 - 1)%Z then ntp_secs else 0%Z in
  let frac := (Z.shiftl nanos 32 / nanos_per_sec)%Z in
  (sec, wrap_u32 frac).

Definition ntp_to_system_time (sec frac : Z) : SystemTime :=
  let unix_secs := (sec - NTP_EPOCH_OFFSET)%Z in
  let nanos := Z.shiftr (frac * nanos_per_sec) 32 in
  if (0 <=? unix_secs)%Z then (unix_secs * nanos_per_sec + nanos)%Z
  else (- ((- unix_secs) * nanos_per_sec))%Z.

(** ** Packets *)

Definition to_be_bytes (z : Z) : list Z :=
  [Z.shiftr z 24 mod 256; Z.shiftr z 16 mod 256; Z.shiftr z 8 mod 256; z mod 256]%Z.

Definition from_be_bytes (l : list Z) : Z := foldl (λ acc b, acc * 256 + b)%Z 0%Z l.

(** [u32::from_be_bytes(response[at..at+4])]. *)
Definition u32_at (at_ : nat) (l : list Z) : Z := from_be_bytes (take 4 (drop at_ l)).

Definition request_packet (t1 : SystemTime) : list Z :=
  let '(sec, frac) := system_time_to_ntp t1 in
  [Z.lor (Z.shiftl NTP_VERSION 3) NTP_MODE_CLIENT] ++ replicate 23 0%Z ++
  to_be_bytes sec ++ to_be_bytes frac ++ replicate 8 0%Z ++ to_be_bytes sec ++ to_be_bytes frac.

(** What one exchange meets: the failures of the socket calls, or the
    datagram received and the instant it was. *)
Inductive NetOutcome :=
| NetBindError (msg : string)
| NetConnectError (msg : string)
| NetSendTimeout
| NetSendError (msg : string)
| NetRecvTimeout
| NetRecvError (msg : string)
| NetReceived (datagram : list Z) (t4 : SystemTime).

(** [recv] into a zeroed buffer of [NTP_PACKET_SIZE] bytes. *)
Definition recv_buffer (datagram : list Z) : list Z :=
  take NTP_PACKET_SIZE (datagram ++ replicate NTP_PACKET_SIZE 0%Z).

Definition query_server (t1 : SystemTime) (net : NetOutcome) : result TimeResponse NtpError :=
  match net with
  | NetBindError msg | NetConnectError msg | NetSendError msg | NetRecvError msg => Err (NtpIo msg)
  | NetSendTimeout | NetRecvTimeout => Err NtpTimeout
  | NetReceived datagram t4 =>
      let received := length datagram `min` NTP_PACKET_SIZE in
      let response := recv_buffer datagram in
      if (received <? NTP_PACKET_SIZE) then
        Err (ShortResponse (Z.of_nat received) (Z.of_nat NTP_PACKET_SIZE))
      else
        let stratum := nth 1 response 0%Z in
        let t2 := ntp_to_system_time (u32_at 32 response) (u32_at 36 response) in
        let t3 := ntp_to_system_time (u32_at 40 response) (u32_at 44 response) in
        Ok (mkTimeResponse t3 t4 (ntp_offset_nanos t1 t2 t3 t4) (ntp_round_trip_nanos t1 t2 t3 t4)
              stratum)
  end.

(** ** The client *)

Record SyncState := mkSync {
  last_offset_nanos : Z;
  last_round_trip_nanos : Z;
  last_sync : option SystemTime;
  synchronized : bool;
}.

Record NtpClient := mkClient {
  server_urls : list string;
  timeout : Z;
  max_retries : Z;
  retry_delay : Z;
  current_index : Z;
  sync : SyncState;
}.

Definition client_new (config : ClientConfig) : NtpClient :=
  let urls := match cfg_server_urls config with [] => DEFAULT_SERVERS | us => us end in
  let urls := map normalize_server_addr urls in
  mkClient urls
    (if (0 <? cfg_timeout config)%Z then (cfg_timeout config * nanos_per_sec)%Z else DEFAULT_TIMEOUT)
    (if (0 <? cfg_max_retries config)%Z then cfg_max_retries config
     else (Z.of_nat (length urls) * 2)%Z)
    (if (0 <? cfg_retry_delay config)%Z then (cfg_retry_delay config * nanos_per_sec)%Z
     else DEFAULT_RETRY_DELAY)
    0 (mkSync 0 0 None false).

Definition current_server (c : NtpClient) : string :=
  nth (Z.to_nat (current_index c mod Z.of_nat (length (server_urls c)))) (server_urls c) "".

Definition with_index (i : Z) (c : NtpClient) : NtpClient :=
  mkClient (server_urls c) (timeout c) (max_retries c) (retry_delay c) i (sync c).
Definition with_sync (s : SyncState) (c : NtpClient) : NtpClient :=
  mkClient (server_urls c) (timeout c) (max_retries c) (retry_delay c) (current_index c) s.

Definition advance_server (c : NtpClient) : NtpClient :=
  with_index (wrap_u64 (current_index c + 1)) c.

(** What the outside does during the [n]-th attempt: the local time of the
    request, the exchange with that server, whether the token is cancelled in
    the pause that follows, and the time the sync is recorded at. *)
Record World := mkWorld {
  w_t1 : nat → SystemTime;
  w_net : nat → string → NetOutcome;
  w_cancelled : nat → bool;
  w_now : nat → SystemTime;
}.

(** The loop of [query] from [attempt] with [remaining] attempts to go. *)
Fixpoint query_loop (w : World) (remaining attempt : nat) (errors : list string) (c : NtpClient) :
    result TimeResponse NtpError * NtpClient :=
  match remaining with
  | 0 =>
      (Err (AllServersFailed (max_retries c) errors),
       with_sync (mkSync (last_offset_nanos (sync c)) (last_round_trip_nanos (sync c))
                    (last_sync (sync c)) false) c)
  | S remaining =>
      let server_addr := current_server c in
      match query_server (w_t1 w attempt) (w_net w attempt server_addr) with
      | Ok response =>
          (Ok response,
           with_sync (mkSync (tr_offset_nanos response) (tr_round_trip_nanos response)
                        (Some (w_now w attempt)) true) c)
      | Err err =>
          let errors := errors ++ [server_addr +:+ ": " +:+ NtpError_display err] in
          let c := advance_server c in
          if (Z.of_nat attempt + 1 <? max_retries c)%Z && w_cancelled w attempt then
            (Err NtpCancelled, c)
          else query_loop w remaining (S attempt) errors c
      end
  end.

Definition query (w : World) (c : NtpClient) : result TimeResponse NtpError * NtpClient :=
  query_loop w (Z.to_nat (max_retries c)) 0 [] c.

Definition client_status (c : NtpClient) : bool * Z * option SystemTime :=
  (synchronized (sync c), last_offset_nanos (sync c), last_sync (sync c)).

(** ** Facts *)

Lemma from_to_be_bytes z : (0 ≤ z < 2 ^ 32)%Z → from_be_bytes (to_be_bytes z) = z.
Proof.
  intros Hz. unfold from_be_bytes, to_be_bytes. simpl.
  rewrite !Z.shiftr_div_pow2 by lia.
  change (2 ^ 24)%Z with (256 * 256 * 256)%Z. change (2 ^ 16)%Z with (256 * 256)%Z.
  change (2 ^ 8)%Z with 256%Z. rewrite <- !Z.div_div by lia.
  pose proof (Z.div_mod z 256). pose proof (Z.div_mod (z / 256) 256).
  pose proof (Z.div_mod (z / 256 / 256) 256). 
  assert (0 ≤ z / 256 / 256 / 256 < 256)%Z.
  { rewrite !Z.div_div by lia. split; [apply Z.div_pos; lia|apply Z.div_lt_upper_bound; lia]. }
  rewrite (Z.mod_small (z / 256 / 256 / 256)) by lia. lia.
Qed.

(** The instants an NTP timestamp of the first era can express. *)
Definition in_era (t : SystemTime) : Prop :=
  (0 ≤ t < (2 ^ 32 - NTP_EPOCH_OFFSET) * nanos_per_sec)%Z.

(** The fraction of a second survives up to a nanosecond. *)
Lemma frac_round_trip n : (0 ≤ n < nanos_per_sec)%Z →
  (0 ≤ Z.shiftl n 32 / nanos_per_sec < 2 ^ 32)%Z ∧
  (n - 1 ≤ Z.shiftr (Z.shiftl n 32 / nanos_per_sec * nanos_per_sec) 32 ≤ n)%Z.
Proof.
  unfold nanos_per_sec. intros Hn. rewrite Z.shiftl_mul_pow2, Z.shiftr_div_pow2 by lia.
  change (2 ^ 32)%Z with 4294967296%Z.
  pose proof (Z.div_mod (n * 4294967296) 1000000000 ltac:(lia)).
  pose proof (Z.mod_pos_bound (n * 4294967296) 1000000000 ltac:(lia)).
  set (f := (n * 4294967296 / 1000000000)%Z) in *. split; [lia|].
  split; [apply Z.div_le_lower_bound; lia|apply Z.div_le_upper_bound; lia].
Qed.

Lemma ntp_round_trip t : in_era t →
  let '(sec, frac) := system_time_to_ntp t in
  (0 ≤ sec < 2 ^ 32)%Z ∧ (0 ≤ frac < 2 ^ 32)%Z ∧ (t - 1 ≤ ntp_to_system_time sec frac ≤ t)%Z.
Proof.
  unfold in_era, system_time_to_ntp, ntp_to_system_time. intros [H0 H1].
  rewrite (proj2 (Z.leb_le _ _)) by done.
  assert (0 ≤ t / nanos_per_sec < 2 ^ 32 - NTP_EPOCH_OFFSET)%Z as [Hs0 Hs1].
  { split; [apply Z.div_pos; [done|reflexivity]|]. apply Z.div_lt_upper_bound; [reflexivity|lia]. }
  rewrite (proj2 (Z.leb_le _ _)) by (unfold NTP_EPOCH_OFFSET in *; lia).
  rewrite (proj2 (Z.leb_le (_ + _) _)) by lia. simpl andb. cbv iota.
  pose proof (Z.mod_pos_bound t nanos_per_sec ltac:(reflexivity)) as Hm.
  destruct (frac_round_trip _ Hm) as [Hf Hn]. unfold wrap_u32. rewrite wrap_u_small by done.
  split_and!; [unfold NTP_EPOCH_OFFSET in *; lia|lia|apply Hf|apply Hf|..].
  all: rewrite (proj2 (Z.leb_le _ _)) by lia.
  all: pose proof (Z.div_mod t nanos_per_sec ltac:(done)); lia.
Qed.

(** A server's answer: its stratum, the receive and the transmit time. *)
Definition reply (stratum t2 t3 : Z) (origin : list Z) : list Z :=
  let '(s2, f2) := system_time_to_ntp t2 in
  let '(s3, f3) := system_time_to_ntp t3 in
  [28%Z; stratum] ++ replicate 22 0%Z ++ take 8 (origin ++ replicate 8 0%Z) ++
  to_be_bytes s2 ++ to_be_bytes f2 ++ to_be_bytes s3 ++ to_be_bytes f3.

(** The client decodes a server's answer to the nanosecond: for times of
    the first NTP era, the server's receive and transmit times come out at
    most one nanosecond early, the stratum exactly, and the reported offset
    and delay are those of the NTP formulas on the decoded times. *)
Theorem reply_decoded (stratum t1 t2 t3 t4 : Z) (origin : list Z) :
  in_era t2 → in_era t3 →
  ∃ t2' t3', (t2 - 1 ≤ t2' ≤ t2)%Z ∧ (t3 - 1 ≤ t3' ≤ t3)%Z ∧
    query_server t1 (NetReceived (reply stratum t2 t3 origin) t4) =
      Ok (mkTimeResponse t3' t4 (ntp_offset_nanos t1 t2' t3' t4)
            (ntp_round_trip_nanos t1 t2' t3' t4) stratum).
Proof.
  intros H2 H3. apply ntp_round_trip in H2, H3. unfold reply.
  destruct (system_time_to_ntp t2) as [s2 f2], (system_time_to_ntp t3) as [s3 f3].
  destruct H2 as (? & ? & E2), H3 as (? & ? & E3).
  exists (ntp_to_system_time s2 f2), (ntp_to_system_time s3 f3). split_and!; [lia..|].
  assert (∃ a b c d e f g h, take 8 (origin ++ replicate 8 0%Z) = [a; b; c; d; e; f; g; h])
    as (a & b & c & d & e & f & g & h & ->).
  { do 8 (destruct origin as [|? origin]; [eauto 10|]). simpl. rewrite take_0. eauto 10. }
  assert (∀ z, (0 ≤ z < 2 ^ 32)%Z →
    ∃ w x y v, to_be_bytes z = [w; x; y; v] ∧ from_be_bytes [w; x; y; v] = z) as Hb.
  { intros z Hz. eexists _, _, _, _. split; [reflexivity|by apply from_to_be_bytes]. }
  destruct (Hb s2) as (?&?&?&?&->&F1); [done|]. destruct (Hb f2) as (?&?&?&?&->&F2); [done|].
  destruct (Hb s3) as (?&?&?&?&->&F3); [done|]. destruct (Hb f3) as (?&?&?&?&->&F4); [done|].
  unfold query_server, recv_buffer, u32_at. cbn -[from_be_bytes ntp_to_system_time].
  by rewrite F1, F2, F3, F4.
Qed.

(** The reported offset is right up to half the delay: when the server's
    clock is [theta] ahead and the two legs take [d1] and [d2], the reported
    delay is [d1 + d2] and the reported offset is off by at most half of it
    (and half a nanosecond of rounding). *)
Theorem offset_accuracy (theta d1 d2 t1 hold : Z) :
  (0 ≤ d1)%Z → (0 ≤ d2)%Z → (d1 + d2 < 2 ^ 63)%Z → (- 2 ^ 63 ≤ 2 * theta + d1 - d2 < 2 ^ 63)%Z →
  let t2 := (t1 + theta + d1)%Z in
  let t3 := (t2 + hold)%Z in
  let t4 := (t3 - theta + d2)%Z in
  ntp_round_trip_nanos t1 t2 t3 t4 = (d1 + d2)%Z ∧
  (2 * Z.abs (ntp_offset_nanos t1 t2 t3 t4 - theta) ≤ d1 + d2 + 1)%Z.
Proof.
  intros H1 H2 H3 H4 t2 t3 t4. unfold ntp_round_trip_nanos, ntp_offset_nanos, nanos_since_epoch.
  replace (t4 - t1 - (t3 - t2))%Z with (d1 + d2)%Z by (subst t4 t3 t2; lia).
  replace (t2 - t1 + (t3 - t4))%Z with (2 * theta + d1 - d2)%Z by (subst t4 t3 t2; lia).
  pose proof (Z.quot_rem' (2 * theta + d1 - d2) 2).
  pose proof (Z.rem_bound_abs (2 * theta + d1 - d2) 2 ltac:(done)).
  unfold wrap_i64. rewrite !wrap_i_small by lia. lia.
Qed.

(** *** Failover *)

(** The server the [k]-th attempt from here would go to. *)
Definition server_at (c : NtpClient) (k : nat) : string :=
  current_server (Nat.iter k advance_server c).

Lemma iter_advance_comm k c : Nat.iter k advance_server (advance_server c) =
  Nat.iter (S k) advance_server c.
Proof. induction k as [|k IH]; [done|]. simpl. by rewrite IH. Qed.

Lemma server_at_advance c k : server_at (advance_server c) k = server_at c (S k).
Proof. unfold server_at. by rewrite iter_advance_comm. Qed.

(** The attempts up to the first success fail one after another. *)
Definition attempt_result (w : World) (c : NtpClient) (attempt k : nat) :
    result TimeResponse NtpError :=
  query_server (w_t1 w (attempt + k)) (w_net w (attempt + k) (server_at c k)).

Lemma query_loop_first w remaining attempt errors c k r :
  k < remaining → (∀ j, j < k → is_ok (attempt_result w c attempt j) = false) →
  (∀ j, j < k → w_cancelled w (attempt + j) = false) →
  attempt_result w c attempt k = Ok r →
  ∃ s, query_loop w remaining attempt errors c = (Ok r, with_sync s (Nat.iter k advance_server c)) ∧
       synchronized s = true ∧ last_offset_nanos s = tr_offset_nanos r.
Proof.
  revert attempt errors c k. induction remaining as [|n IH]; intros attempt errors c k Hk Hf Hc Hr;
    [lia|].
  simpl. destruct k as [|k].
  { unfold attempt_result, server_at in Hr. simpl in Hr. rewrite Nat.add_0_r in Hr. rewrite Hr.
    eexists. split; [done|done]. }
  pose proof (Hf 0 ltac:(lia)) as H0. unfold attempt_result, server_at in H0. simpl in H0.
  rewrite Nat.add_0_r in H0. destruct (query_server _ _) as [?|err]; [done|].
  specialize (Hc 0 ltac:(lia)) as Hc0. rewrite Nat.add_0_r in Hc0. rewrite Hc0, andb_false_r.
  destruct (IH (S attempt) (errors ++ [current_server c +:+ ": " +:+ NtpError_display err])
    (advance_server c) k) as (s & E & ?); [lia|..].
  - intros j Hj. unfold attempt_result. rewrite server_at_advance.
    replace (S attempt + j) with (attempt + S j) by lia. apply Hf. lia.
  - intros j Hj. replace (S attempt + j) with (attempt + S j) by lia. apply Hc. lia.
  - unfold attempt_result. rewrite server_at_advance.
    by replace (S attempt + k) with (attempt + S k) by lia.
  - exists s. rewrite E, iter_advance_comm. done.
Qed.

Lemma query_loop_all_fail w remaining attempt errors c :
  (∀ j, j < remaining → is_ok (attempt_result w c attempt j) = false) →
  (∀ j, w_cancelled w j = false) →
  ∃ errors' c', query_loop w remaining attempt errors c =
      (Err (AllServersFailed (max_retries c) (errors ++ errors')), c') ∧
    length errors' = remaining ∧ synchronized (sync c') = false.
Proof.
  revert attempt errors c. induction remaining as [|n IH]; intros attempt errors c Hf Hc; simpl.
  { exists []. eexists. rewrite app_nil_r. done. }
  pose proof (Hf 0 ltac:(lia)) as H0. unfold attempt_result, server_at in H0. simpl in H0.
  rewrite Nat.add_0_r in H0. destruct (query_server _ _) as [?|err]; [done|].
  rewrite Hc, andb_false_r.
  set (e := current_server c +:+ ": " +:+ NtpError_display err).
  destruct (IH (S attempt) (errors ++ [e]) (advance_server c)) as (errs & c' & E & Hl & Hs); [|done|].
  { intros j Hj. unfold attempt_result. rewrite server_at_advance.
    replace (S attempt + j) with (attempt + S j) by lia. apply Hf. lia. }
  exists (e :: errs), c'. rewrite E, <- app_assoc. simpl. split_and!; [done|lia|done].
Qed.

Lemma iter_advance k c : (0 ≤ current_index c)%Z → (current_index c + Z.of_nat k < 2 ^ 64)%Z →
  Nat.iter k advance_server c = with_index (current_index c + Z.of_nat k) c.
Proof.
  intros H0. induction k as [|k IH]; intros Hk.
  { destruct c. unfold with_index; simpl. by rewrite Z.add_0_r. }
  simpl Nat.iter. rewrite IH by lia. unfold advance_server, with_index; simpl. f_equal.
  unfold wrap_u64. rewrite wrap_u_small by lia. lia.
Qed.

(** A query goes round the configured servers from the current one, one
    per attempt, and returns the first answer it gets; the client is then
    synchronised with that answer's offset and stays with that server.  When
    all attempts fail it reports one error per attempt and is not
    synchronised. *)
Theorem query_fails_over (w : World) (c : NtpClient) :
  (0 ≤ current_index c)%Z → (0 ≤ max_retries c)%Z →
  (current_index c + max_retries c < 2 ^ 64)%Z → (∀ j, w_cancelled w j = false) →
  let n := Z.to_nat (max_retries c) in
  (∀ k, k ≤ n → server_at c k =
     nth (Z.to_nat ((current_index c + Z.of_nat k) mod Z.of_nat (length (server_urls c))))
       (server_urls c) "") ∧
  (∀ k r, k < n → (∀ j, j < k → is_ok (attempt_result w c 0 j) = false) →
     attempt_result w c 0 k = Ok r →
     ∃ c', query w c = (Ok r, c') ∧ synchronized (sync c') = true ∧
           last_offset_nanos (sync c') = tr_offset_nanos r ∧ current_server c' = server_at c k) ∧
  ((∀ j, j < n → is_ok (attempt_result w c 0 j) = false) →
     ∃ errors c', query w c = (Err (AllServersFailed (max_retries c) errors), c') ∧
       length errors = n ∧ synchronized (sync c') = false).
Proof.
  intros H0 Hm Hb Hc n. split_and!.
  - intros k Hk. unfold server_at. rewrite iter_advance by lia. done.
  - intros k r Hk Hf Hr. destruct (query_loop_first w n 0 [] c k r) as (s & E & Hs & Ho);
      [done|done|auto|done|].
    eexists. split; [exact E|]. done.
  - intros Hf. destruct (query_loop_all_fail w n 0 [] c Hf Hc) as (errs & c' & E & ?).
    by exists errs, c'.
Qed.

(** ** Concrete exchanges *)

Module NtpWitness.

Definition t2021 : Z := 1609459200000000123.

Lemma in_era_t2021 : in_era t2021.
Proof. by split. Qed.

Lemma reply_decoded_witness :
  ∃ t3', (t2021 - 1 ≤ t3' ≤ t2021)%Z ∧
    tr_server_time <$> (match query_server 0%Z (NetReceived (reply 2 t2021 t2021 []) 7%Z) with
                        | Ok r => Some r | Err _ => None end) = Some t3'.
Proof.
  destruct (reply_decoded 2 0 t2021 t2021 7 [] in_era_t2021 in_era_t2021)
    as (t2' & t3' & _ & H3 & E).
  exists t3'. split; [done|]. by rewrite E.
Defined.

Lemma offset_accuracy_witness :
  (ntp_round_trip_nanos 1000 1550 1600 1130 = 80)%Z ∧
  (2 * Z.abs (ntp_offset_nanos 1000 1550 1600 1130 - 500) ≤ 81)%Z.
Proof. by apply (offset_accuracy 500 50 30 1000 50). Defined.

(** The first of the default servers is down, the second answers. *)
Definition w : World :=
  mkWorld (λ _, 0%Z) (λ n _, if Nat.eqb n 0 then NetSendTimeout
                             else NetReceived (reply 2 t2021 t2021 []) 7%Z)
    (λ _, false) (λ _, 0%Z).
Definition c : NtpClient := client_new (mkClientConfig [] 0 0 0).

Lemma query_fails_over_witness :
  ∃ r c', query w c = (Ok r, c') ∧ current_server c' = "time.google.com:123".
Proof.
  destruct (query_fails_over w c) as (Hs & Hq & _); [done..|].
  destruct (reply_decoded 2 0 t2021 t2021 7 [] in_era_t2021 in_era_t2021)
    as (t2' & t3' & _ & _ & E).
  edestruct (Hq 1) as (c' & E' & _ & _ & Hcur).
  - vm_compute. lia.
  - intros j Hj. by replace j with 0 by lia.
  - exact E.
  - eexists _, c'. split; [exact E'|]. rewrite Hcur, Hs; [by vm_compute|vm_compute; lia].
Defined.

End NtpWitness.
