(* ===== verification/Handshake.v ===== *)
(** * The go-plugin handshake line (crates/penguin-goplugin-host/src/handshake.rs)

    [Handshake::parse], a pure function over the line a plugin prints on its
    standard output.  Base64 decoding is an argument. *)
From S2P Require Import Prelude Text.

(** ** The handshake *)

Definition CORE_PROTOCOL_VERSION : Z := 1.
Definition OFFERED_PROTOCOL_VERSIONS : list Z := [1%Z].
Definition PROTOCOL_TYPE_GRPC : string := "grpc".
Definition MIN_CERT_FIELD_LEN : nat := 50.
Definition pipe : Ascii.ascii := Ascii.ascii_of_nat 124.

Record Handshake := mkHandshake {
  hs_protocol_version : Z;
  hs_network : string;
  hs_address : string;
  hs_server_cert_der : option (list Byte.byte);
}.

Inductive HandshakeError :=
| TooFewFields (n : nat) (line : string)
| InvalidCoreVersion (field err : string)
| UnsupportedCoreVersion (v : Z)
| InvalidProtocolVersion (field err : string)
| UnsupportedProtocolVersion (v : Z)
| UnsupportedProtocolType (t : string)
| InvalidCertEncoding (err : string).

Section Handshake.

(** [base64::STANDARD_NO_PAD.decode]. *)
Context (base64_decode : string → result (list Byte.byte) string).

Definition decode_cert_der (field : string) : result (list Byte.byte) HandshakeError :=
  map_err InvalidCertEncoding (base64_decode field).

Definition parse_cert (field : option string) : result (option (list Byte.byte)) HandshakeError :=
  match field with
  | Some field =>
      if (MIN_CERT_FIELD_LEN <? String.length field) then
        let? der := decode_cert_der field in Ok (Some der)
      else Ok None
  | None => Ok None
  end.

Definition parse (line : string) : result Handshake HandshakeError :=
  let parts := split_on pipe line in
  match parts with
  | p0 :: p1 :: network :: address :: rest =>
      let? core_version := map_err (InvalidCoreVersion p0) (parse_u32 p0) in
      if negb (core_version =? CORE_PROTOCOL_VERSION)%Z then
        Err (UnsupportedCoreVersion core_version)
      else
        let? protocol_version := map_err (InvalidProtocolVersion p1) (parse_u32 p1) in
        if negb (bool_decide (protocol_version ∈ OFFERED_PROTOCOL_VERSIONS)) then
          Err (UnsupportedProtocolVersion protocol_version)
        else
          let protocol_type := default "" (rest !! 0) in
          if negb (String.eqb protocol_type PROTOCOL_TYPE_GRPC) then
            Err (UnsupportedProtocolType protocol_type)
          else
            let? cert := parse_cert (rest !! 1) in
            Ok (mkHandshake protocol_version network address cert)
  | _ => Err (TooFewFields (length parts) line)
  end.

(** A line is accepted exactly when it consists of pipe-separated fields
    of which the first two read as core and protocol version 1 and the fifth
    is [grpc]; the network and address are then the third and fourth field
    verbatim, and the certificate is the decoded sixth field when that is
    longer than 50 bytes, and none otherwise. *)
Theorem handshake_accepts (line : string) (h : Handshake) :
  parse line = Ok h ↔
  ∃ core proto network address rest cert,
    line = join pipe (core :: proto :: network :: address :: PROTOCOL_TYPE_GRPC :: rest) ∧
    Forall (λ p, no_char pipe p = true) (core :: proto :: network :: address :: rest) ∧
    parse_u32 core = Ok CORE_PROTOCOL_VERSION ∧ parse_u32 proto = Ok 1%Z ∧
    match rest with
    | field :: _ => if decide (50 < String.length field)
                    then ∃ der, base64_decode field = Ok der ∧ cert = Some der else cert = None
    | [] => cert = None
    end ∧
    h = mkHandshake 1 network address cert.
Proof.
  assert (∀ field cert, parse_cert (Some field) = Ok cert ↔
    if decide (50 < String.length field) then ∃ der, base64_decode field = Ok der ∧ cert = Some der
    else cert = None) as Hcert.
  { intros field cert. unfold parse_cert, decode_cert_der, MIN_CERT_FIELD_LEN.
    destruct (Nat.ltb_spec 50 (String.length field)); case_decide; try lia; [|naive_solver].
    destruct (base64_decode field); simpl; naive_solver. }
  split.
  - unfold parse. pose proof (split_pieces pipe line) as Hp.
    pose proof (join_split pipe line) as Hj.
    destruct (split_on pipe line) as [|p0 [|p1 [|net [|addr rest]]]]; try done.
    destruct (parse_u32 p0) as [v0|] eqn:E0; simpl; [|done].
    destruct (Z.eqb_spec v0 CORE_PROTOCOL_VERSION) as [->|]; simpl; [|done].
    destruct (parse_u32 p1) as [v1|] eqn:E1; simpl; [|done].
    case_bool_decide as Hv; simpl; [|done]. apply list_elem_of_singleton in Hv as ->.
    destruct rest as [|ty rest]; simpl; [done|].
    destruct (String.eqb_spec ty PROTOCOL_TYPE_GRPC) as [->|]; simpl; [|done].
    destruct (parse_cert (rest !! 0)) as [cert|] eqn:Ec; simpl; intros [= <-].
    exists p0, p1, net, addr, rest, cert. split_and!; try done.
    + do 5 apply Forall_cons in Hp as [? Hp]. by repeat constructor.
    + destruct rest; [by injection Ec|by apply Hcert].
  - intros (p0 & p1 & net & addr & rest & cert & -> & Hp & E0 & E1 & Hc & ->). unfold parse.
    rewrite split_join; [|done|].
    2: { do 4 apply Forall_cons in Hp as [? Hp]. by repeat constructor. }
    rewrite E0, E1. simpl.
    destruct rest as [|field rest]; [by rewrite Hc|].
    pose proof (proj2 (Hcert field cert) Hc) as Hp2. simpl in Hp2 |- *. by rewrite Hp2.
Qed.

End Handshake.

(** A line as a plugin without AutoMTLS prints it. *)
Example handshake_line :
  parse (λ _, Err "unused") "1|1|unix|/tmp/plugin.sock|grpc" =
    Ok (mkHandshake 1 "unix" "/tmp/plugin.sock" None).
Proof. by vm_compute. Qed.
