(* ===== verification/Ipc.v ===== *)
(** * Peer authorization (crates/penguin-ipc/src/authorize.rs)

    The decision whether a connected peer may drive the daemon.  The group
    database is the [GroupResolver] interface of the source. *)
From S2P Require Import Prelude.

Record PeerCredentials := mkCreds { uid : Z; gid : Z }.

Class GroupResolver := {
  group_gid : string → option Z;
  user_groups : Z → option (list Z);
}.

Inductive AuthError :=
| NoPeerInfo
| NoPeerCredentials
| NotAuthorized (uid gid : Z).

Section Authorize.

Context {resolver : GroupResolver}.

Definition is_authorized (creds : PeerCredentials) (self_uid : Z) (allowed_group : string) : bool :=
  if (uid creds =? 0)%Z || (uid creds =? self_uid)%Z then true
  else if String.eqb allowed_group "" then false
  else
    match group_gid allowed_group with
    | None => false
    | Some allowed_gid =>
        if (gid creds =? allowed_gid)%Z then true
        else
          match user_groups (uid creds) with
          | None => false
          | Some groups => bool_decide (allowed_gid ∈ groups)
          end
    end.

Definition check_peer (creds : option PeerCredentials) (self_uid : Z) (allowed_group : string) :
    result unit AuthError :=
  match creds with
  | None => Err NoPeerInfo
  | Some creds =>
      if is_authorized creds self_uid allowed_group then Ok ()
      else Err (NotAuthorized (uid creds) (gid creds))
  end.

(** The policy: the administrator, the daemon's owner, and the members of the
    named group when that group exists. *)
Inductive may_drive (self_uid : Z) (allowed_group : string) (c : PeerCredentials) : Prop :=
| drive_root : uid c = 0%Z → may_drive self_uid allowed_group c
| drive_owner : uid c = self_uid → may_drive self_uid allowed_group c
| drive_primary g : allowed_group ≠ "" → group_gid allowed_group = Some g → gid c = g →
    may_drive self_uid allowed_group c
| drive_member g gs : allowed_group ≠ "" → group_gid allowed_group = Some g →
    user_groups (uid c) = Some gs → g ∈ gs → may_drive self_uid allowed_group c.

Lemma is_authorized_spec creds self_uid group :
  is_authorized creds self_uid group = true ↔ may_drive self_uid group creds.
Proof.
  unfold is_authorized.
  destruct (Z.eqb_spec (uid creds) 0); [split; [intros _; by apply drive_root|done]|].
  destruct (Z.eqb_spec (uid creds) self_uid); [split; [intros _; by apply drive_owner|done]|]. simpl.
  destruct (String.eqb_spec group ""); [split; [done|by inversion 1]|].
  destruct (group_gid group) as [g|] eqn:Eg; [|split; [done|inversion 1; congruence]].
  destruct (Z.eqb_spec (gid creds) g); [split; [intros _; by eapply drive_primary|done]|].
  destruct (user_groups (uid creds)) as [gs|] eqn:Eu.
  - rewrite bool_decide_eq_true. split; [intros; by eapply drive_member|].
    inversion 1; simplify_eq; congruence.
  - split; [done|]. inversion 1; congruence.
Qed.

(** The peer check implements the policy and fails closed: a peer passes
    exactly when its credentials are known and it is root, the daemon's
    owner, or in the named group; without credentials, or when the group is
    unnamed or does not exist, or the peer's groups cannot be read, nobody
    else passes, and a refusal names the refused identity. *)
Theorem check_peer_policy (creds : option PeerCredentials) (self_uid : Z) (allowed_group : string) :
  (check_peer creds self_uid allowed_group = Ok () ↔
     ∃ c, creds = Some c ∧ may_drive self_uid allowed_group c) ∧
  (creds = None → check_peer creds self_uid allowed_group = Err NoPeerInfo) ∧
  (∀ c, creds = Some c → ¬ may_drive self_uid allowed_group c →
     check_peer creds self_uid allowed_group = Err (NotAuthorized (uid c) (gid c))) ∧
  (∀ c, creds = Some c → allowed_group = "" ∨ group_gid allowed_group = None →
     check_peer creds self_uid allowed_group = Ok () → uid c = 0%Z ∨ uid c = self_uid).
Proof.
  unfold check_peer. destruct creds as [c|]; [|by split_and!; [naive_solver|done..]].
  pose proof (is_authorized_spec c self_uid allowed_group) as H.
  destruct (is_authorized c self_uid allowed_group).
  - split_and!; [naive_solver|done|naive_solver|].
    intros c' [= <-] Hg _. destruct (proj1 H eq_refl); naive_solver.
  - split_and!; [|done|naive_solver|naive_solver].
    split; [done|]. intros (c' & [= <-] & Hd). by apply H in Hd.
Qed.

End Authorize.
