(* ===== verification/ExtPlugin.v ===== *)
(** * External plugins: manifest and verification (crates/penguin-extplugin)

    [plugin.json] loading and the verification pipeline: ownership of the
    directory and of the binary, the SHA-256 digest, the minisign signature.
    Each file access of the code is one observation of [Files], so two reads
    of one file are two observations; hashing and JSON decoding are the
    interface [Crypto], signatures the interface [Minisign]. *)
From S2P Require Import Prelude.

Definition bytes : Type := list Byte.byte.

(** [Path::join]: an absolute component replaces the base. *)
Definition join (base p : string) : string :=
  match p with
  | String c _ => if Nat.eqb (Ascii.nat_of_ascii c) 47 then p else base +:+ "/" +:+ p
  | EmptyString => base +:+ "/"
  end.

(** ** [manifest.rs] *)

Record Manifest := mkManifest {
  mf_name : string;
  mf_version : string;
  mf_sdk_version : string;
  mf_binary : string;
  mf_sha256 : string;
  mf_publisher : string;
}.

Inductive ManifestError :=
| MRead (path err : string)
| MParse (path err : string)
| MissingField (field : string).

Definition binary_path (m : Manifest) (plugin_dir : string) : string := join plugin_dir (mf_binary m).

Definition signature_path (m : Manifest) (plugin_dir : string) : string :=
  join plugin_dir (mf_binary m +:+ ".minisig").

(** ** [os_stat.rs] *)

Record FileMeta := mkMeta { fm_mode : Z; fm_uid : option Z }.

(** What the file system answers; errors are their text. *)
Record Files := mkFiles {
  f_is_dir : string → bool;
  f_stat : string → result FileMeta string;
  f_read : string → result bytes string;
  f_read_to_string : string → result string string;
  (** [File::open] and the chunks of up to 8192 bytes the reads return. *)
  f_open : string → result (list (result bytes string)) string;
  (** The entries of a directory: name, whether a directory, contents. *)
  f_read_dir : string → option (list (string * bool * result string string));
}.

(** [minisign_verify]: decoding, and [verify(data, signature, allow_legacy)]. *)
Class Minisign := {
  Signature : Type;
  PublicKey : Type;
  signature_decode : string → option Signature;
  public_key_decode : string → option PublicKey;
  key_verify : PublicKey → bytes → Signature → bool → bool;
}.

Class Crypto := {
  Hasher : Type;
  hasher_new : Hasher;
  hasher_update : Hasher → bytes → Hasher;
  hasher_finalize : Hasher → bytes;
  manifest_from_slice : bytes → result Manifest string;
  (** Hashing in pieces is hashing the whole. *)
  sha256 : bytes → bytes;
  hasher_chunks : ∀ chunks,
    hasher_finalize (foldl hasher_update hasher_new chunks) = sha256 (concat chunks);
}.

Section ExtPlugin.

Context {minisign : Minisign} {crypto : Crypto} (fs : Files).

Definition load_manifest (plugin_dir : string) : result Manifest ManifestError :=
  let manifest_path := join plugin_dir "plugin.json" in
  let? data := map_err (MRead manifest_path) (f_read fs manifest_path) in
  let? manifest := map_err (MParse manifest_path) (manifest_from_slice data) in
  if String.eqb (mf_name manifest) "" then Err (MissingField "name")
  else if String.eqb (mf_binary manifest) "" then Err (MissingField "binary")
  else if String.eqb (mf_sha256 manifest) "" then Err (MissingField "sha256")
  else Ok manifest.

(** ** [verify.rs] *)

Definition DEFAULT_TRUSTED_PUBLISHERS_DIR : string := "/etc/penguin/trusted-publishers.d".

Inductive VerifyError :=
| VStat (path err : string)
| WorldWritable (path : string) (mode : Z)
| WrongOwner (path : string) (uid expected_uid : Z)
| ReadBinary (path err : string)
| Sha256Mismatch (expected actual : string)
| ReadSignature (path err : string)
| MalformedSignature (path : string)
| UntrustedSigner.

Definition verify_ownership (path : string) (expected_uid : Z) : result unit VerifyError :=
  let? meta := map_err (VStat path) (f_stat fs path) in
  if negb (Z.land (fm_mode meta) 2 =? 0)%Z then Err (WorldWritable path (fm_mode meta))
  else
    match fm_uid meta with
    | None => Ok ()
    | Some uid =>
        if negb (uid =? 0)%Z && negb (uid =? expected_uid)%Z then
          Err (WrongOwner path uid expected_uid)
        else Ok ()
    end.

(** Lower-case hexadecimal, two digits a byte. *)
Definition hex_digit (n : Z) : Ascii.ascii :=
  Ascii.ascii_of_nat (Z.to_nat (if (n <? 10)%Z then 48 + n else 87 + n)%Z).

Fixpoint hex_encode (b : bytes) : string :=
  match b with
  | [] => EmptyString
  | x :: b =>
      let n := Z.of_N (Byte.to_N x) in
      String (hex_digit (n / 16)) (String (hex_digit (n mod 16)) (hex_encode b))
  end.

(** The read loop: stops at an empty read or an error. *)
Fixpoint hash_loop (path : string) (hasher : Hasher) (reads : list (result bytes string)) :
    result Hasher VerifyError :=
  match reads with
  | [] => Ok hasher
  | Err err :: _ => Err (ReadBinary path err)
  | Ok [] :: _ => Ok hasher
  | Ok buf :: reads => hash_loop path (hasher_update hasher buf) reads
  end.

Definition verify_sha256 (path expected_hex : string) : result unit VerifyError :=
  let? reads := map_err (ReadBinary path) (f_open fs path) in
  let? hasher := hash_loop path hasher_new reads in
  let actual := hex_encode (hasher_finalize hasher) in
  if negb (String.eqb actual expected_hex) then Err (Sha256Mismatch expected_hex actual)
  else Ok ().

Fixpoint try_keys (data : bytes) (signature : Signature) (keys : list string) :
    result unit VerifyError :=
  match keys with
  | [] => Err UntrustedSigner
  | key_text :: keys =>
      match public_key_decode key_text with
      | None => try_keys data signature keys
      | Some public_key =>
          if key_verify public_key data signature true then Ok () else try_keys data signature keys
      end
  end.

Definition verify_signature (trusted : list string) (path sig_path : string) :
    result unit VerifyError :=
  let? sig_text := map_err (ReadSignature sig_path) (f_read_to_string fs sig_path) in
  let? signature := ok_or (signature_decode sig_text) (MalformedSignature sig_path) in
  let? binary_data := map_err (ReadBinary path) (f_read fs path) in
  try_keys binary_data signature trusted.

Definition verify (trusted : list string) (plugin_dir : string) (manifest : Manifest)
    (expected_uid : Z) : result unit VerifyError :=
  let? _ := verify_ownership plugin_dir expected_uid in
  let bin := binary_path manifest plugin_dir in
  let? _ := verify_ownership bin expected_uid in
  let? _ := verify_sha256 bin (mf_sha256 manifest) in
  let? _ := verify_signature trusted bin (signature_path manifest plugin_dir) in
  Ok ().

Definition ends_with_pub (name : string) : bool :=
  String.eqb (String.substring (String.length name - 4) 4 name) ".pub".

Definition load_trusted_keys (trusted_dir : string) : list string :=
  match f_read_dir fs trusted_dir with
  | None => []
  | Some entries =>
      omap (λ e : string * bool * result string string,
              let '(name, is_dir, contents) := e in
              if is_dir || negb (ends_with_pub name) then None
              else match contents with Ok c => Some c | Err _ => None end) entries
  end.

(** ** Facts *)

Definition owned (path : string) (expected_uid : Z) : Prop :=
  ∃ meta, f_stat fs path = Ok meta ∧ Z.land (fm_mode meta) 2 = 0%Z ∧
    (∀ uid, fm_uid meta = Some uid → uid = 0%Z ∨ uid = expected_uid).

Lemma verify_ownership_spec path uid : verify_ownership path uid = Ok () ↔ owned path uid.
Proof.
  unfold verify_ownership, owned. destruct (f_stat fs path) as [meta|]; simpl; [|naive_solver].
  destruct (Z.eqb_spec (Z.land (fm_mode meta) 2) 0) as [E|E]; simpl.
  - destruct (fm_uid meta) as [u|] eqn:Eu; [|naive_solver].
    destruct (Z.eqb_spec u 0), (Z.eqb_spec u uid); simpl; split; try done; intros; naive_solver.
  - naive_solver.
Qed.

(** The bytes a complete reading of the file returns. *)
Fixpoint content (reads : list (result bytes string)) : option bytes :=
  match reads with
  | [] => Some []
  | Err _ :: _ => None
  | Ok [] :: _ => Some []
  | Ok buf :: reads => app buf <$> content reads
  end.

Lemma hash_loop_spec path reads h chunks0 :
  h = foldl hasher_update hasher_new chunks0 →
  match hash_loop path h reads, content reads with
  | Ok h', Some data => hasher_finalize h' = sha256 (concat chunks0 ++ data)
  | Err _, None => True
  | _, _ => False
  end.
Proof.
  revert h chunks0. induction reads as [|[buf|err] reads IH]; intros h chunks0 Hh; simpl; [|..|done].
  - by rewrite app_nil_r, Hh, hasher_chunks.
  - destruct buf as [|x buf]; [by rewrite app_nil_r, Hh, hasher_chunks|].
    specialize (IH (hasher_update h (x :: buf)) (chunks0 ++ [x :: buf])).
    rewrite foldl_app in IH. specialize (IH (f_equal (λ h, hasher_update h _) Hh)).
    destruct (hash_loop _ _ reads), (content reads); simpl; try done.
    rewrite IH, concat_app. simpl. by rewrite app_nil_r, <- app_assoc.
Qed.

Lemma verify_sha256_spec path expected :
  verify_sha256 path expected = Ok () ↔
  ∃ reads data, f_open fs path = Ok reads ∧ content reads = Some data ∧
    hex_encode (sha256 data) = expected.
Proof.
  unfold verify_sha256. destruct (f_open fs path) as [reads|]; simpl; [|naive_solver].
  pose proof (hash_loop_spec path reads hasher_new [] eq_refl) as H.
  destruct (hash_loop path hasher_new reads) as [h|], (content reads) as [data|] eqn:Ec; simpl in *;
    try done.
  - rewrite H. destruct (String.eqb_spec (hex_encode (sha256 data)) expected); simpl; naive_solver.
  - naive_solver.
Qed.

Lemma try_keys_spec data sig keys :
  try_keys data sig keys = Ok () ↔
  ∃ k pk, k ∈ keys ∧ public_key_decode k = Some pk ∧ key_verify pk data sig true = true.
Proof.
  induction keys as [|k keys IH]; simpl.
  { split; [done|]. intros (k & pk & Hk & _). by apply elem_of_nil in Hk. }
  assert ((∃ k' pk, k' ∈ keys ∧ public_key_decode k' = Some pk ∧ key_verify pk data sig true = true)
    → ∃ k' pk, k' ∈ k :: keys ∧ public_key_decode k' = Some pk ∧ key_verify pk data sig true = true)
    as Hmono.
  { intros (k' & pk & ? & ?). exists k', pk. split; [by apply list_elem_of_further|done]. }
  destruct (public_key_decode k) as [pk|] eqn:E; [destruct (key_verify pk data sig true) eqn:Ev|].
  - split; [|done]. intros _. exists k, pk. split_and!; [apply list_elem_of_here|done..].
  - rewrite IH. split; [done|]. intros (k' & pk' & [->|?]%elem_of_cons & ? & ?); [congruence|eauto].
  - rewrite IH. split; [done|]. intros (k' & pk' & [->|?]%elem_of_cons & ? & ?); [congruence|eauto].
Qed.

Lemma hex_digit_inj n m : (0 ≤ n < 16)%Z → (0 ≤ m < 16)%Z → hex_digit n = hex_digit m → n = m.
Proof.
  unfold hex_digit. intros Hn Hm E%(f_equal Ascii.nat_of_ascii).
  destruct (Z.ltb_spec n 10), (Z.ltb_spec m 10); rewrite !Ascii.nat_ascii_embedding in E by lia; lia.
Qed.

(** The manifest's text determines the digest. *)
Lemma hex_encode_inj b1 b2 : hex_encode b1 = hex_encode b2 → b1 = b2.
Proof.
  revert b2. induction b1 as [|x b1 IH]; intros [|y b2]; simpl; try done.
  intros [= E1 E2 E3]. f_equal; [|auto].
  pose proof (Byte.to_N_bounded x). pose proof (Byte.to_N_bounded y).
  apply hex_digit_inj in E1, E2; try (apply Z.mod_pos_bound; lia);
    try (split; [apply Z.div_pos; lia|apply Z.div_lt_upper_bound; lia]).
  assert (Z.of_N (Byte.to_N x) = Z.of_N (Byte.to_N y)) as E.
  { rewrite (Z.div_mod (Z.of_N (Byte.to_N x)) 16), (Z.div_mod (Z.of_N (Byte.to_N y)) 16) by lia. lia. }
  apply N2Z.inj in E. pose proof (Byte.of_to_N x) as Hx. pose proof (Byte.of_to_N y) as Hy.
  congruence.
Qed.

(** C10: Verification succeeds exactly when the directory and the binary are
    not world-writable and belong to root or the expected user, the digest
    of the bytes read from the binary is the one the manifest states, and
    the binary as read again carries a well-formed signature that some
    pinned key verifies; in particular nothing passes with no key pinned. *)
Theorem verify_exactly_trusted (trusted : list string) (plugin_dir : string) (m : Manifest)
    (uid : Z) :
  let bin := binary_path m plugin_dir in
  verify trusted plugin_dir m uid = Ok () ↔
  owned plugin_dir uid ∧ owned bin uid ∧
  (∃ reads data, f_open fs bin = Ok reads ∧ content reads = Some data ∧
     (∀ digest, mf_sha256 m = hex_encode digest ↔ digest = sha256 data)) ∧
  (∃ sig_text sig data, f_read_to_string fs (signature_path m plugin_dir) = Ok sig_text ∧
     signature_decode sig_text = Some sig ∧ f_read fs bin = Ok data ∧
     ∃ k pk, k ∈ trusted ∧ public_key_decode k = Some pk ∧ key_verify pk data sig true = true).
Proof.
  assert (∀ data, hex_encode (sha256 data) = mf_sha256 m ↔
    ∀ digest, mf_sha256 m = hex_encode digest ↔ digest = sha256 data) as Hhex.
  { intros data. split; [|by intros H; symmetry; apply H].
    intros <- digest. split; [by intros ?%hex_encode_inj|by intros ->]. }
  intros bin. unfold verify. fold bin.
  rewrite <- !verify_ownership_spec. setoid_rewrite <- Hhex.
  rewrite <- (verify_sha256_spec bin (mf_sha256 m)). setoid_rewrite <- try_keys_spec.
  destruct (verify_ownership plugin_dir uid) as [[]|]; simpl; [|by split; [|intros [? _]]].
  destruct (verify_ownership bin uid) as [[]|]; simpl; [|by split; [|intros (_ & ? & _)]].
  destruct (verify_sha256 bin (mf_sha256 m)) as [[]|]; simpl; [|by split; [|intros (_ & _ & ? & _)]].
  unfold verify_signature.
  destruct (f_read_to_string fs (signature_path m plugin_dir)) as [st|]; simpl.
  2: { split; [done|]. by intros (_ & _ & _ & ? & ? & ? & ? & _). }
  destruct (signature_decode st) as [sig|] eqn:Es; simpl.
  2: { split; [done|]. intros (_ & _ & _ & ? & ? & ? & [= <-] & ? & _). congruence. }
  destruct (f_read fs bin) as [data|]; simpl.
  2: { split; [done|]. by intros (_ & _ & _ & ? & ? & ? & _ & _ & ? & _). }
  split.
  - intros H. split_and!; [done..|]. exists st, sig, data. split_and!; try done.
    by destruct (try_keys data sig trusted) as [[]|].
  - intros (_ & _ & _ & ? & ? & ? & [= <-] & Es' & [= <-] & Hk). rewrite Es in Es'.
    injection Es' as <-. by rewrite Hk.
Qed.

End ExtPlugin.
