(* ===== verification/External.v ===== *)
(** * The external plugin loader (crates/penguin-daemon/src/external.rs)

    [PluginDirLoader] resolves, verifies and launches a plugin;
    [ExternalModule] owns its process and tears it down in [stop].  Launching,
    dispensing and shutting down processes (crates/penguin-goplugin-host) and
    the wire-level module are the interface [PluginHost]; [pw_trace] records
    the processes started, killed by a launch that failed, and asked to shut
    down. *)
From S2P Require Import Prelude Sdk Backoff Supervisor ExtPlugin.

(** What a launch that failed has left of its process: it was never started,
    it was started and killed again, or it goes on running. *)
Inductive Remains (Proc : Type) := NotStarted | KilledAgain (p : Proc) | LeftRunning (p : Proc).
Arguments NotStarted {Proc}.
Arguments KilledAgain {Proc}.
Arguments LeftRunning {Proc}.

Class PluginHost (W : Type) := {
  Proc : Type;
  Inner : Type;
  proc_launch : string → string → W → result Proc (string * Remains Proc) * W;
  proc_dispense : Proc → W → result Inner string * W;
  proc_shutdown : Proc → W → result unit string * W;
  inner_stop : Inner → W → result unit ModuleError * W;
}.

(** ** Error texts *)

Definition ManifestError_display (e : ManifestError) : string :=
  match e with
  | MRead path err => "read " +:+ path +:+ ": " +:+ err
  | MParse path err => "parse " +:+ path +:+ ": " +:+ err
  | MissingField f => "plugin.json: missing required field '" +:+ f +:+ "'"
  end.

(** [{:o}] of a [u32]: at most eleven digits. *)
Fixpoint octal_digits (fuel : nat) (n : Z) : string :=
  match fuel with
  | 0 => ""
  | S fuel =>
      (if (n <? 8)%Z then "" else octal_digits fuel (n / 8)) +:+
      String (Ascii.ascii_of_nat (48 + Z.to_nat (n mod 8))) ""
  end.
Definition octal (n : Z) : string := octal_digits 11 n.

Definition VerifyError_display (e : VerifyError) : string :=
  match e with
  | VStat path err => "stat " +:+ path +:+ ": " +:+ err
  | WorldWritable path mode => path +:+ " is world-writable (mode " +:+ octal mode +:+ ")"
  | WrongOwner path uid expected =>
      path +:+ " owned by uid " +:+ pretty uid +:+ ", expected root (0) or daemon uid " +:+
      pretty expected
  | ReadBinary path err => "read " +:+ path +:+ " for hashing: " +:+ err
  | Sha256Mismatch expected actual =>
      "sha256 mismatch: expected " +:+ expected +:+ ", got " +:+ actual
  | ReadSignature path err => "read signature " +:+ path +:+ ": " +:+ err
  | MalformedSignature path => path +:+ " is not a valid minisign signature"
  | UntrustedSigner => "no pinned publisher key verifies this signature"
  end.

Section External.

Context {minisign : Minisign} {crypto : Crypto} {W : Type} `{!PluginHost W} (fs : Files).

Inductive PEvent :=
| Launched (p : Proc) (path : string)
| Killed (p : Proc)
| ShutDown (p : Proc).

Record PWorld := mkPWorld { pw_world : W; pw_trace : list PEvent }.

Definition launch (path socket_dir : string) (s : PWorld) : result Proc string * PWorld :=
  let '(r, w) := proc_launch path socket_dir (pw_world s) in
  (map_err fst r,
   mkPWorld w (pw_trace s ++ match r with
                             | Ok p | Err (_, LeftRunning p) => [Launched p path]
                             | Err (_, KilledAgain p) => [Launched p path; Killed p]
                             | Err (_, NotStarted) => []
                             end)).

Definition dispense (p : Proc) (s : PWorld) : result Inner string * PWorld :=
  let '(r, w) := proc_dispense p (pw_world s) in (r, mkPWorld w (pw_trace s)).

Definition shutdown_process (p : Proc) (s : PWorld) : result unit string * PWorld :=
  let '(r, w) := proc_shutdown p (pw_world s) in (r, mkPWorld w (pw_trace s ++ [ShutDown p])).

(** ** [ExternalModule] *)

Record ExternalModule := mkExternal { em_process : option Proc; em_inner : Inner }.

Definition external_new (process : Proc) (inner : Inner) : ExternalModule :=
  mkExternal (Some process) inner.

Definition external_stop (m : ExternalModule) (s : PWorld) :
    result unit ModuleError * ExternalModule * PWorld :=
  let '(_, w) := inner_stop (em_inner m) (pw_world s) in
  let s := mkPWorld w (pw_trace s) in
  match em_process m with
  | None => (Ok (), m, s)
  | Some process =>
      let m := mkExternal None (em_inner m) in
      let '(r, s) := shutdown_process process s in
      (map_err mkModuleError r, m, s)
  end.

(** ** [PluginDirLoader] *)

Inductive VerifierSource :=
| VSDefault
| VSTrustedDir (dir : string)
| VSKeys (keys : list string).

(** The keys a verifier built now would trust. *)
Definition build (src : VerifierSource) : list string :=
  match src with
  | VSDefault => load_trusted_keys fs DEFAULT_TRUSTED_PUBLISHERS_DIR
  | VSTrustedDir dir => load_trusted_keys fs dir
  | VSKeys keys => keys
  end.

Record PluginDirLoader := mkLoader {
  pl_plugins_dir : string;
  pl_socket_dir : string;
  pl_verifier_source : VerifierSource;
  pl_daemon_uid : Z;
}.

Definition loader_new (plugins_dir socket_dir : string) (daemon_uid : Z) : PluginDirLoader :=
  mkLoader plugins_dir socket_dir VSDefault daemon_uid.

Definition load_plugin (l : PluginDirLoader) (name : string) (s : PWorld) :
    result ExternalModule ExternalLoadError * PWorld :=
  let plugin_dir := join (pl_plugins_dir l) name in
  if negb (f_is_dir fs plugin_dir) then (Err (ExtNotFound name), s)
  else
    match load_manifest fs plugin_dir with
    | Err err => (Err (ExtLoad (ManifestError_display err)), s)
    | Ok manifest =>
      match verify fs (build (pl_verifier_source l)) plugin_dir manifest (pl_daemon_uid l) with
      | Err err => (Err (ExtLoad (VerifyError_display err)), s)
      | Ok _ =>
        let '(launched, s) := launch (binary_path manifest plugin_dir) (pl_socket_dir l) s in
        match launched with
        | Err err => (Err (ExtLoad err), s)
        | Ok process =>
          let '(dispensed, s) := dispense process s in
          match dispensed with
          | Ok inner => (Ok (external_new process inner), s)
          | Err err =>
              let '(_, s) := shutdown_process process s in
              (Err (ExtLoad err), s)
          end
        end
      end
    end.

(** ** Theorems *)

(** The plugin directory [dir] holds a manifest and a binary that passed the
    whole verification against the keys trusted now. *)
Definition verified (l : PluginDirLoader) (name : string) (path : string) : Prop :=
  let dir := join (pl_plugins_dir l) name in
  ∃ m, load_manifest fs dir = Ok m ∧ path = binary_path m dir ∧
    verify fs (build (pl_verifier_source l)) dir m (pl_daemon_uid l) = Ok ().

(** C11: The loader never runs an unverified binary, and a module it returns
    owns its process.  A successful load started exactly one process, from the
    binary that was verified, and hands it to the module.  A failed load
    started none, or one from the verified binary: it asked it to shut down
    when the module could not be dispensed, and otherwise the launch itself had
    failed and had killed it again, or left it running without an owner; the
    last is up to the launch and nothing the loader makes up for
    ([failed_launch_leaks_process] is how it comes about).  A name is reported
    as not found exactly when its directory does not exist. *)
Theorem load_plugin_only_verified (l : PluginDirLoader) (name : string) (s s' : PWorld) r :
  load_plugin l name s = (r, s') →
  match r with
  | Ok m => ∃ p path, em_process m = Some p ∧ verified l name path ∧
      pw_trace s' = pw_trace s ++ [Launched p path]
  | Err e =>
      (e = ExtNotFound name ↔ f_is_dir fs (join (pl_plugins_dir l) name) = false) ∧
      (pw_trace s' = pw_trace s ∨
       ∃ p path, verified l name path ∧
         let launched := (proc_launch path (pl_socket_dir l) (pw_world s)).1 in
         (pw_trace s' = pw_trace s ++ [Launched p path; ShutDown p] ∧ launched = Ok p ∨
          pw_trace s' = pw_trace s ++ [Launched p path; Killed p] ∧ (∃ err, launched = Err (err, KilledAgain p)) ∨
          pw_trace s' = pw_trace s ++ [Launched p path] ∧ ∃ err, launched = Err (err, LeftRunning p)))
  end.
Proof.
  unfold load_plugin, verified. set (dir := join (pl_plugins_dir l) name).
  destruct (f_is_dir fs dir) eqn:Ed; simpl; [|by intros [= <- <-]; split; [|left]].
  destruct (load_manifest fs dir) as [m|err]; [|by intros [= <- <-]; split; [|left]].
  destruct (verify fs _ dir m _) as [[]|err] eqn:Ev; [|by intros [= <- <-]; split; [|left]].
  unfold launch, dispense, shutdown_process.
  assert (∃ m0, (Ok m : result Manifest ManifestError) = Ok m0 ∧ binary_path m dir = binary_path m0 dir ∧
    verify fs (build (pl_verifier_source l)) dir m0 (pl_daemon_uid l) = Ok ()) as Hv by eauto.
  destruct (proc_launch _ _ _) as [[p|[err remains]] w1] eqn:El; simpl.
  2: { intros [= <- <-]. split; [done|]. destruct remains as [|p|p]; [left; apply app_nil_r|right..];
       exists p, (binary_path m dir); (split; [done|]); rewrite El; eauto 6. }
  destruct (proc_dispense p w1) as [[inner|err] w2]; simpl.
  - intros [= <- <-]. exists p, (binary_path m dir). by split_and!.
  - destruct (proc_shutdown p w2) as [rs w3]; simpl. intros [= <- <-].
    split; [done|]. right. exists p, (binary_path m dir). split; [done|]. left. rewrite El. simpl.
    by rewrite <- app_assoc.
Qed.

Fixpoint stop_times (n : nat) (m : ExternalModule) (s : PWorld) : ExternalModule * PWorld :=
  match n with
  | 0 => (m, s)
  | S n => let '(_, m, s) := external_stop m s in stop_times n m s
  end.

Lemma stop_stopped n m s :
  em_process m = None → em_process (stop_times n m s).1 = None ∧
  pw_trace (stop_times n m s).2 = pw_trace s.
Proof.
  revert s. induction n as [|n IH]; intros s Hm; simpl; [done|]. unfold external_stop.
  destruct (inner_stop (em_inner m) (pw_world s)) as [r w]. rewrite Hm.
  by destruct (IH (mkPWorld w (pw_trace s)) Hm).
Qed.

(** However often a plugin module is stopped, and whatever its wire-level
    stop answers, its process is shut down exactly once, by the first stop;
    a later stop reports success. *)
Theorem external_stop_once (n : nat) (m : ExternalModule) (p : Proc) (s : PWorld) :
  em_process m = Some p →
  pw_trace (stop_times (S n) m s).2 = pw_trace s ++ [ShutDown p] ∧
  em_process (stop_times (S n) m s).1 = None ∧
  (external_stop (stop_times (S n) m s).1 (stop_times (S n) m s).2).1.1 = Ok ().
Proof.
  intros Hm. cbn [stop_times].
  assert (∃ r w, external_stop m s =
    (r, mkExternal None (em_inner m), mkPWorld w (pw_trace s ++ [ShutDown p]))) as (r & w & ->).
  { unfold external_stop, shutdown_process. destruct (inner_stop _ _) as [r w]. rewrite Hm. simpl.
    destruct (proc_shutdown p w). eauto. }
  destruct (stop_stopped n (mkExternal None (em_inner m)) (mkPWorld w (pw_trace s ++ [ShutDown p])))
    as [E1 E2]; [done|].
  split_and!; [exact E2|exact E1|]. unfold external_stop. rewrite E1. by destruct (inner_stop _ _).
Qed.

End External.

(** ** A concrete host *)

Module ExternalWitness.

(** Every launch and every call works; processes are numbered. *)
#[local] Instance host : PluginHost nat := {|
  Proc := nat;
  Inner := unit;
  proc_launch _ _ w := (Ok w, S w);
  proc_dispense _ w := (Ok (), w);
  proc_shutdown _ w := (Ok (), w);
  inner_stop _ w := (Err (mkModuleError "gone"), w);
|}.

(** One key, ["k"], signs everything. *)
#[local] Instance toy_minisign : Minisign := {|
  Signature := unit;
  PublicKey := unit;
  signature_decode s := if String.eqb s "sig" then Some () else None;
  public_key_decode s := if String.eqb s "k" then Some () else None;
  key_verify _ _ _ _ := true;
|}.

(** The digest of a file is the file. *)
#[local] Program Instance toy : Crypto := {|
  Hasher := bytes;
  hasher_new := [];
  hasher_update h b := h ++ b;
  hasher_finalize h := h;
  manifest_from_slice _ := Ok (mkManifest "hello" "1.0.0" "v1" "hello" "7f45" "acme");
  sha256 b := b;
|}.
Next Obligation.
  intros chunks. rewrite <- (app_nil_l (concat chunks)). generalize (@nil Byte.byte) as h.
  induction chunks as [|c chunks IH]; intros h; simpl; [by rewrite app_nil_r|].
  by rewrite IH, <- app_assoc.
Qed.

(** One plugin, owned by root, holding the bytes 7f 45. *)
Definition disk : Files :=
  mkFiles (λ _, true) (λ _, Ok (mkMeta 493 (Some 0%Z))) (λ _, Ok [Byte.x7f; Byte.x45])
    (λ _, Ok "sig") (λ _, Ok [Ok [Byte.x7f]; Ok [Byte.x45]; Ok []]) (λ _, None).

Definition p7 : @Proc nat host := 7.
Definition m7 : @ExternalModule nat host := mkExternal (Some p7) tt.
Definition w7 : @PWorld nat host := mkPWorld 7 [].

Definition loader : PluginDirLoader := mkLoader "/plugins" "/run" (VSKeys ["k"]) 1000.

Lemma verify_exactly_trusted_witness :
  verify disk ["k"] "/plugins/hello" (mkManifest "hello" "" "" "hello" "7f45" "") 1000 = Ok ().
Proof.
  apply verify_exactly_trusted. split_and!.
  - exists (mkMeta 493 (Some 0%Z)). split_and!; [done|done|]. intros uid [= <-]. by left.
  - exists (mkMeta 493 (Some 0%Z)). split_and!; [done|done|]. intros uid [= <-]. by left.
  - eexists _, _. split_and!; [reflexivity|reflexivity|]. intros digest. simpl.
    change "7f45" with (hex_encode [Byte.x7f; Byte.x45]).
    split; [by intros ->%hex_encode_inj|by intros ->].
  - exists "sig", (), [Byte.x7f; Byte.x45]. split_and!; try done. exists "k", ().
    split_and!; [apply list_elem_of_here|done..].
Defined.

Lemma load_plugin_only_verified_witness :
  ∃ p path, verified disk loader "hello" path ∧
    pw_trace (load_plugin disk loader "hello" w7).2 = [Launched p path].
Proof.
  destruct (load_plugin_only_verified disk loader "hello" w7
    (load_plugin disk loader "hello" w7).2 (Ok m7)) as (p & path & _ & Hv & E); [by vm_compute|].
  by exists p, path.
Defined.

Lemma external_stop_once_witness : pw_trace (stop_times 3 m7 w7).2 = [ShutDown p7].
Proof. by apply (external_stop_once 2 m7 p7 w7). Defined.

End ExternalWitness.
