(* ===== verification/Update.v ===== *)
(** * Self-update (crates/penguin-update)

    Platform and asset names ([platform.rs]), release and asset selection
    ([release.rs]), archive extraction ([archive.rs]), signature verification
    ([verify.rs]) and the updater that ties them together ([updater.rs]).
    HTTP, archive decoding and the executable swap are the interface
    [UpdateWorld]; semantic versions are the interface [Semver]. *)
From S2P Require Import Prelude Text ExtPlugin.

(** ** [platform.rs] *)

Inductive ArchiveFormat := TarGz | Zip.
Inductive Os := Linux | Macos | Windows.
Inductive Arch := Amd64 | Arm64.

#[global] Instance os_eq_dec : EqDecision Os.
Proof. solve_decision. Defined.
#[global] Instance arch_eq_dec : EqDecision Arch.
Proof. solve_decision. Defined.

Definition extension (f : ArchiveFormat) : string :=
  match f with TarGz => "tar.gz" | Zip => "zip" end.

Definition os_from_str (value : string) : option Os :=
  if String.eqb value "linux" then Some Linux
  else if String.eqb value "macos" then Some Macos
  else if String.eqb value "windows" then Some Windows
  else None.

Definition os_asset_token (o : Os) : string :=
  match o with Linux => "linux" | Macos => "darwin" | Windows => "windows" end.

Definition archive_format (o : Os) : ArchiveFormat :=
  match o with Windows => Zip | Linux | Macos => TarGz end.

Definition exe_suffix (o : Os) : string :=
  match o with Windows => ".exe" | Linux | Macos => "" end.

Definition arch_from_str (value : string) : option Arch :=
  if String.eqb value "x86_64" then Some Amd64
  else if String.eqb value "aarch64" then Some Arm64
  else None.

Definition arch_asset_token (a : Arch) : string :=
  match a with Amd64 => "amd64" | Arm64 => "arm64" end.

(** Strips one leading [v] or [V]. *)
Definition normalize_version (version : string) : string :=
  match version with
  | String c rest =>
      if Nat.eqb (Ascii.nat_of_ascii c) 118 || Nat.eqb (Ascii.nat_of_ascii c) 86 then rest
      else version
  | EmptyString => version
  end.

Definition asset_filename (version : string) (o : Os) (a : Arch) : string :=
  "penguin_" +:+ version +:+ "_" +:+ os_asset_token o +:+ "_" +:+ arch_asset_token a +:+ "." +:+
  extension (archive_format o).

Definition binary_filename (binary_name : string) (o : Os) : string := binary_name +:+ exe_suffix o.

(** ** [release.rs] *)

Record GithubAsset := mkAsset { as_name : string; as_url : string }.

Record GithubRelease := mkRelease {
  rl_tag_name : string;
  rl_draft : bool;
  rl_assets : list GithubAsset;
}.

Record SelectedAsset := mkSelected { sel_binary_url : string; sel_signature_url : string }.

Inductive SelectError :=
| AssetNotFound (name : string)
| SignatureNotFound (name : string).

(** [semver::Version]: parsing and its total order. *)
Class Semver := {
  Version : Type;
  version_parse : string → option Version;
  version_le : Version → Version → bool;
  version_le_total : ∀ a b, version_le a b = true ∨ version_le b a = true;
  version_le_trans : ∀ a b c, version_le a b = true → version_le b c = true → version_le a c = true;
}.

Definition find_asset (release : GithubRelease) (name : string) : option GithubAsset :=
  List.find (λ asset, String.eqb (as_name asset) name) (rl_assets release).

Definition select_asset (release : GithubRelease) (expected_filename : string) :
    result SelectedAsset SelectError :=
  let? binary := ok_or (find_asset release expected_filename) (AssetNotFound expected_filename) in
  let? signature := ok_or (find_asset release (expected_filename +:+ ".minisig"))
                      (SignatureNotFound expected_filename) in
  Ok (mkSelected (as_url binary) (as_url signature)).

Section Releases.

Context {semver : Semver}.

(** The published releases with a version, in order. *)
Definition candidates (releases : list GithubRelease) : list (Version * GithubRelease) :=
  omap (λ release, (λ v, (v, release)) <$> version_parse (normalize_version (rl_tag_name release)))
    (filter (λ release, rl_draft release = false) releases).

(** [Iterator::max_by]: the last of the greatest. *)
Fixpoint max_by (best : Version * GithubRelease) (l : list (Version * GithubRelease)) :
    Version * GithubRelease :=
  match l with
  | [] => best
  | x :: l => if version_le best.1 x.1 then max_by x l else max_by best l
  end.

Definition select_latest_release (releases : list GithubRelease) : option GithubRelease :=
  match candidates releases with
  | [] => None
  | x :: l => Some (max_by x l).2
  end.

(** *** Facts *)

Lemma elem_candidates releases v r :
  (v, r) ∈ candidates releases ↔
  r ∈ releases ∧ rl_draft r = false ∧ version_parse (normalize_version (rl_tag_name r)) = Some v.
Proof.
  unfold candidates. rewrite list_elem_of_omap. setoid_rewrite list_elem_of_filter. split.
  - intros (r' & [Hd Hin] & E). apply fmap_Some in E as (v' & Hv & E). by simplify_eq.
  - intros (Hin & Hd & Hv). exists r. split; [done|]. by rewrite Hv.
Qed.

Lemma max_by_spec best l :
  max_by best l ∈ best :: l ∧
  ∀ x, x ∈ best :: l → version_le x.1 (max_by best l).1 = true.
Proof.
  assert (∀ a, version_le a a = true) as Hrefl by (intros a; by destruct (version_le_total a a)).
  revert best. induction l as [|y l IH]; intros best; simpl.
  { split; [apply list_elem_of_here|]. intros x ->%list_elem_of_singleton. done. }
  destruct (version_le best.1 y.1) eqn:E.
  - destruct (IH y) as [Hin Hmax]. split; [by apply list_elem_of_further|].
    intros x [->|Hx]%elem_of_cons; [|auto].
    eapply version_le_trans; [exact E|]. apply Hmax, list_elem_of_here.
  - destruct (IH best) as [Hin Hmax]. split.
    { apply elem_of_cons in Hin as [->|Hin]; [apply list_elem_of_here|].
      by do 2 apply list_elem_of_further. }
    intros x [->|[->|Hx]%elem_of_cons]%elem_of_cons; [apply Hmax, list_elem_of_here| |].
    + destruct (version_le_total best.1 y.1) as [?|Hy]; [congruence|].
      eapply version_le_trans; [exact Hy|]. apply Hmax, list_elem_of_here.
    + by apply Hmax, list_elem_of_further.
Qed.

(** The release chosen is published and has the greatest version of all
    published releases whose tag reads as a version, prereleases included;
    none is chosen exactly when there is no such release. *)
Theorem latest_release_is_greatest (releases : list GithubRelease) :
  match select_latest_release releases with
  | None => ∀ r, r ∈ releases → rl_draft r = true ∨
      version_parse (normalize_version (rl_tag_name r)) = None
  | Some r => r ∈ releases ∧ rl_draft r = false ∧
      ∃ v, version_parse (normalize_version (rl_tag_name r)) = Some v ∧
        ∀ r' v', r' ∈ releases → rl_draft r' = false →
          version_parse (normalize_version (rl_tag_name r')) = Some v' → version_le v' v = true
  end.
Proof.
  unfold select_latest_release. pose proof (elem_candidates releases) as Hel.
  destruct (candidates releases) as [|x l].
  - intros r Hr. destruct (rl_draft r) eqn:Hd; [by left|right].
    destruct (version_parse _) as [v|] eqn:Hv; [|done].
    destruct (not_elem_of_nil (v, r)). by apply Hel.
  - destruct (max_by_spec x l) as [Hin Hmax]. destruct (max_by x l) as [v r]; simpl in *.
    apply Hel in Hin as (? & ? & ?). split_and!; [done..|]. exists v. split; [done|].
    intros r' v' ? ? ?. apply (Hmax (v', r')). by apply Hel.
Qed.

End Releases.

Lemma asset_filename_inj version o a o' a' :
  asset_filename version o a = asset_filename version o' a' → o = o' ∧ a = a'.
Proof.
  unfold asset_filename. intros E%(inj (String.append _))%(inj (String.append _)).
  by destruct o, a, o', a'.
Qed.

(** The asset selected for a platform is the one named exactly for that
    platform's system, architecture and archive format, and the signature
    is the one named after it; no asset of another platform can be taken
    for it.  Without either, nothing is selected. *)
Theorem asset_selected_exactly (release : GithubRelease) (version : string) (o : Os) (a : Arch) :
  let name := asset_filename version o a in
  match select_asset release name with
  | Ok sel => ∃ bin sg, bin ∈ rl_assets release ∧ sg ∈ rl_assets release ∧
      as_name bin = name ∧ as_name sg = name +:+ ".minisig" ∧
      sel = mkSelected (as_url bin) (as_url sg) ∧
      ∀ o' a', as_name bin = asset_filename version o' a' → o' = o ∧ a' = a
  | Err (AssetNotFound n) => n = name ∧ ∀ x, x ∈ rl_assets release → as_name x ≠ name
  | Err (SignatureNotFound n) => n = name ∧
      ∀ x, x ∈ rl_assets release → as_name x ≠ name +:+ ".minisig"
  end.
Proof.
  assert (∀ n, match find_asset release n with
    | Some x => x ∈ rl_assets release ∧ as_name x = n
    | None => ∀ x, x ∈ rl_assets release → as_name x ≠ n end) as Hfind.
  { intros n. unfold find_asset. destruct (List.find _ _) as [x|] eqn:E.
    - apply List.find_some in E as [Hin Hn]. split; [by apply list_elem_of_In|].
      by apply String.eqb_eq.
    - intros x Hx Hn. apply list_elem_of_In in Hx. pose proof (List.find_none _ _ E x Hx) as Hf.
      simpl in Hf. rewrite Hn, String.eqb_refl in Hf. done. }
  intros name. unfold select_asset. pose proof (Hfind name) as H1.
  pose proof (Hfind (name +:+ ".minisig")) as H2.
  destruct (find_asset release name) as [bin|]; simpl; [|done].
  destruct (find_asset release (name +:+ ".minisig")) as [sg|]; simpl; [|done].
  destruct H1 as [? E1], H2 as [? ?]. exists bin, sg. split_and!; try done.
  intros o' a' E. rewrite E1 in E. by apply asset_filename_inj in E as [-> ->].
Qed.

(** ** [archive.rs] *)

Inductive ArchiveError :=
| TarRead (err : string)
| ZipRead (err : string)
| EntryRead (name err : string)
| BinaryNotFound (name : string).

(** An archive entry as the archive libraries present it: whether it is a
    regular file, its path as text if that is readable and UTF-8, and its
    contents. *)
Record Entry := mkArchEntry {
  en_is_file : bool;
  en_path : result (option string) string;
  en_contents : result bytes string;
}.

(** [Path::file_name]: the last component that is not empty or [.], unless
    that is [..]. *)
Definition file_name (path : string) : option string :=
  match last (filter (λ c, c ≠ "" ∧ c ≠ ".") (split_on (Ascii.ascii_of_nat 47) path)) with
  | Some c => if String.eqb c ".." then None else Some c
  | None => None
  end.

Definition basename_matches (entry_name binary_name : string) : bool :=
  bool_decide (file_name entry_name = Some binary_name).

Definition entry_contents (binary_name : string) (e : Entry) : result bytes ArchiveError :=
  map_err (EntryRead binary_name) (en_contents e).

(** The entry loop; [wrap] is the format's read error. *)
Fixpoint find_entry (wrap : string → ArchiveError) (binary_name : string)
    (entries : list (result Entry string)) : result bytes ArchiveError :=
  match entries with
  | [] => Err (BinaryNotFound binary_name)
  | Err err :: _ => Err (wrap err)
  | Ok entry :: entries =>
      if negb (en_is_file entry) then find_entry wrap binary_name entries
      else
        match en_path entry with
        | Err err => Err (wrap err)
        | Ok path =>
            if from_option (λ name, basename_matches name binary_name) false path then
              entry_contents binary_name entry
            else find_entry wrap binary_name entries
        end
  end.

(** ** The outside *)

Inductive UpdateError :=
| NoVerificationKey
| UnsupportedOs
| UnsupportedArch
| Request (err : string)
| HttpStatus (status : Z)
| ResponseBody (err : string)
| Decode (err : string)
| NoReleaseFound (repo : string)
| Select (err : SelectError)
| InvalidSignatureEncoding
| MalformedPublicKey
| MalformedReleaseSignature
| SignatureMismatch
| Archive (err : ArchiveError)
| StageBinary (err : string)
| SelfReplace (err : string)
| InstallTask (err : string).

(** An HTTP answer: the request error, or a status and a body. *)
Definition Response : Type := result (Z * result bytes string) string.

Class UpdateWorld (W : Type) := {
  http_get : string → W → Response * W;
  releases_from_slice : bytes → result (list GithubRelease) string;
  utf8 : bytes → option string;
  (** [Archive::entries] over gzip, and [ZipArchive]: an error, or the entries. *)
  tar_gz_entries : bytes → result (list (result Entry string)) string;
  zip_entries : bytes → result (list (result Entry string)) string;
  (** Whether the blocking task runs to its end, the staged file with these
      bytes, and [self_replace] of a path. *)
  blocking_task : W → result unit string;
  stage : bytes → W → result string string * W;
  self_replace : string → W → result unit string * W;
}.

Section Updater.

Context {minisign : Minisign} {semver : Semver} {W : Type} `{!UpdateWorld W}.

Definition extract_binary (archive : bytes) (f : ArchiveFormat) (binary_name : string) :
    result bytes ArchiveError :=
  match f with
  | TarGz =>
      let? entries := map_err TarRead (tar_gz_entries archive) in
      find_entry TarRead binary_name entries
  | Zip =>
      let? entries := map_err ZipRead (zip_entries archive) in
      find_entry ZipRead binary_name entries
  end.

(** ** [verify.rs] *)

Definition verify_release (data : bytes) (signature_text public_key_text : string) :
    result unit UpdateError :=
  let? public_key := ok_or (public_key_decode public_key_text) MalformedPublicKey in
  let? signature := ok_or (signature_decode signature_text) MalformedReleaseSignature in
  if key_verify public_key data signature true then Ok () else Err SignatureMismatch.

(** ** [updater.rs] *)

Record UpdateConfig := mkUpdateConfig {
  uc_repo : string;
  uc_current_version : string;
  uc_binary_name : string;
  uc_public_key : option string;
}.

(** The world, with the requests made and their answers, the images handed to
    [self_replace], and those it has put in place. *)
Record UState := mkUState {
  us_world : W;
  us_requests : list (string * Response);
  us_swaps : list bytes;
  us_installed : list bytes;
}.

Definition GITHUB_API_BASE : string := "https://api.github.com".

Definition request (url : string) (s : UState) : Response * UState :=
  let '(r, w) := http_get url (us_world s) in
  (r, mkUState w (us_requests s ++ [(url, r)]) (us_swaps s) (us_installed s)).

Definition fetch_latest_release (cfg : UpdateConfig) (s : UState) :
    result GithubRelease UpdateError * UState :=
  let url := GITHUB_API_BASE +:+ "/repos/" +:+ uc_repo cfg +:+ "/releases" in
  let '(response, s) := request url s in
  (match response with
   | Err err => Err (Request err)
   | Ok (status, body) =>
       let? body := map_err ResponseBody body in
       if negb (status =? 200)%Z then Err (HttpStatus status)
       else
         let? releases := map_err Decode (releases_from_slice body) in
         ok_or (select_latest_release releases) (NoReleaseFound (uc_repo cfg))
   end, s).

Definition download_bytes (url : string) (s : UState) : result bytes UpdateError * UState :=
  let '(response, s) := request url s in
  (match response with
   | Err err => Err (Request err)
   | Ok (status, body) =>
       if negb (status =? 200)%Z then Err (HttpStatus status) else map_err ResponseBody body
   end, s).

Definition download_text (url : string) (s : UState) : result string UpdateError * UState :=
  let '(r, s) := download_bytes url s in
  (let? body := r in ok_or (utf8 body) InvalidSignatureEncoding, s).

Definition check (cfg : UpdateConfig) (s : UState) : result (bool * string) UpdateError * UState :=
  let '(r, s) := fetch_latest_release cfg s in
  (let? release := r in
   Ok (negb (String.eqb (normalize_version (rl_tag_name release))
               (normalize_version (uc_current_version cfg))), rl_tag_name release), s).

Definition install_blocking (binary : bytes) (s : UState) : result unit UpdateError * UState :=
  let '(staged, w) := stage binary (us_world s) in
  match staged with
  | Err e => (Err (StageBinary e), mkUState w (us_requests s) (us_swaps s) (us_installed s))
  | Ok path =>
      let '(r, w) := self_replace path w in
      (map_err SelfReplace r,
       mkUState w (us_requests s) (us_swaps s ++ [binary])
         (us_installed s ++ if is_ok r then [binary] else []))
  end.

(** A task that does not run to its end has not begun. *)
Definition install (binary : bytes) (s : UState) : result unit UpdateError * UState :=
  match blocking_task (us_world s) with
  | Err e => (Err (InstallTask e), s)
  | Ok _ => install_blocking binary s
  end.

(** [os] and [arch] are what [Os::current] and [Arch::current] return. *)
Definition apply_update (cfg : UpdateConfig) (os : option Os) (arch : option Arch) (s : UState) :
    result unit UpdateError * UState :=
  match uc_public_key cfg with
  | None => (Err NoVerificationKey, s)
  | Some public_key =>
    match os, arch with
    | None, _ => (Err UnsupportedOs, s)
    | Some _, None => (Err UnsupportedArch, s)
    | Some os, Some arch =>
      let '(r, s) := fetch_latest_release cfg s in
      match r with
      | Err e => (Err e, s)
      | Ok release =>
        let version := normalize_version (rl_tag_name release) in
        match select_asset release (asset_filename version os arch) with
        | Err e => (Err (Select e), s)
        | Ok selected =>
          let '(r, s) := download_bytes (sel_binary_url selected) s in
          match r with
          | Err e => (Err e, s)
          | Ok archive_bytes =>
            let '(r, s) := download_text (sel_signature_url selected) s in
            match r with
            | Err e => (Err e, s)
            | Ok signature_text =>
              match verify_release archive_bytes signature_text public_key with
              | Err e => (Err e, s)
              | Ok _ =>
                match extract_binary archive_bytes (archive_format os)
                        (binary_filename (uc_binary_name cfg) os) with
                | Err e => (Err (Archive e), s)
                | Ok extracted => install extracted s
                end
              end
            end
          end
        end
      end
    end
  end.

(** ** Theorems *)

(** What extraction returns is the contents of a matching regular file. *)
Lemma find_entry_sound wrap name entries image :
  find_entry wrap name entries = Ok image →
  ∃ e path, Ok e ∈ entries ∧ en_is_file e = true ∧ en_path e = Ok (Some path) ∧
    file_name path = Some name ∧ en_contents e = Ok image.
Proof.
  induction entries as [|[e|err] entries IH]; simpl; [done| |done].
  assert (find_entry wrap name entries = Ok image →
    ∃ e0 path, Ok e0 ∈ Ok e :: entries ∧ en_is_file e0 = true ∧ en_path e0 = Ok (Some path) ∧
      file_name path = Some name ∧ en_contents e0 = Ok image) as Hrec.
  { intros (e0 & path & ? & ?)%IH. exists e0, path. split; [by apply list_elem_of_further|done]. }
  destruct (en_is_file e) eqn:Ef; simpl; [|done].
  destruct (en_path e) as [[path|]|] eqn:Ep; simpl; [|done|done].
  unfold basename_matches. case_bool_decide as Hb; [|done].
  unfold entry_contents. destruct (en_contents e) as [c|] eqn:Ec; simpl; [|done]. intros [= <-].
  exists e, path. split_and!; [apply list_elem_of_here|done..].
Qed.

Lemma extract_binary_sound archive f name image :
  extract_binary archive f name = Ok image →
  ∃ entries e path, match f with TarGz => tar_gz_entries | Zip => zip_entries end archive = Ok entries ∧
    Ok e ∈ entries ∧ en_is_file e = true ∧ en_path e = Ok (Some path) ∧
    file_name path = Some name ∧ en_contents e = Ok image.
Proof.
  unfold extract_binary. destruct f.
  - destruct (tar_gz_entries archive) as [es|]; [|done]. intros (e & path & ?)%find_entry_sound; eauto.
  - destruct (zip_entries archive) as [es|]; [|done]. intros (e & path & ?)%find_entry_sound; eauto.
Qed.

Ltac nothing_installed := split; [done|left; split_and!; [congruence..|done]].

(** What the three requests leave. *)
Lemma fetch_latest_inv cfg s :
  let '(r, s1) := fetch_latest_release cfg s in
  us_swaps s1 = us_swaps s ∧ us_installed s1 = us_installed s ∧
  match r with
  | Err _ => True
  | Ok release => ∃ listing releases,
      us_requests s1 = us_requests s ++
        [(GITHUB_API_BASE +:+ "/repos/" +:+ uc_repo cfg +:+ "/releases", Ok (200%Z, Ok listing))] ∧
      releases_from_slice listing = Ok releases ∧ select_latest_release releases = Some release
  end.
Proof.
  unfold fetch_latest_release, request. destruct (http_get _ _) as [[[status [body|]]|] w]; simpl; [|done..].
  split_and!; [done..|]. destruct (status =? 200)%Z eqn:E; simpl; [|done]. apply Z.eqb_eq in E as ->.
  destruct (releases_from_slice body) as [releases|] eqn:Er; simpl; [|done].
  destruct (select_latest_release releases) eqn:El; simpl; [|done]. by exists body, releases.
Qed.

Lemma download_bytes_inv url s :
  let '(r, s1) := download_bytes url s in
  us_swaps s1 = us_swaps s ∧ us_installed s1 = us_installed s ∧
  match r with
  | Err _ => True
  | Ok body => us_requests s1 = us_requests s ++ [(url, Ok (200%Z, Ok body))]
  end.
Proof.
  unfold download_bytes, request. destruct (http_get _ _) as [[[status [body|]]|] w]; simpl; [|by destruct (_ =? _)%Z|done].
  split_and!; [done..|]. destruct (status =? 200)%Z eqn:E; simpl; [|done]. by apply Z.eqb_eq in E as ->.
Qed.

Lemma download_text_inv url s :
  let '(r, s1) := download_text url s in
  us_swaps s1 = us_swaps s ∧ us_installed s1 = us_installed s ∧
  match r with
  | Err _ => True
  | Ok text => ∃ body, us_requests s1 = us_requests s ++ [(url, Ok (200%Z, Ok body))] ∧ utf8 body = Some text
  end.
Proof.
  pose proof (download_bytes_inv url s) as H. unfold download_text.
  destruct (download_bytes url s) as [[body|] s1]; destruct H as (? & ? & H); simpl; [|done].
  split_and!; [done..|]. destruct (utf8 body) eqn:E; simpl; [|done]. by exists body.
Qed.

(** Only a swap that reported success has put the image in place. *)
Lemma install_inv image s :
  let '(r, s1) := install image s in
  us_requests s1 = us_requests s ∧
  (us_swaps s1 = us_swaps s ∧ us_installed s1 = us_installed s ∧ is_ok r = false ∨
   us_swaps s1 = us_swaps s ++ [image] ∧
   match r with
   | Ok _ => us_installed s1 = us_installed s ++ [image]
   | Err e => us_installed s1 = us_installed s ∧ ∃ err, e = SelfReplace err
   end).
Proof.
  unfold install, install_blocking. destruct (blocking_task _); [|by split; [|left]].
  destruct (stage _ _) as [[path|] w]; [|by split; [|left]].
  destruct (self_replace _ _) as [[|] w2]; simpl; (split; [done|right]); rewrite ?app_nil_r; split; eauto.
Qed.

(** C17: The updater fails closed.  With no key configured it makes no request.
    A run that succeeds has replaced the binary, once; one that fails has not:
    either it handed nothing to the swap, or the swap itself reported the
    failure.  Whatever it hands over comes of its own three requests: the
    contents of a regular file with exactly the expected binary name, in the
    archive downloaded for this platform from the latest release, which the
    configured key verifies with the signature downloaded next to it. *)
Theorem apply_installs_only_signed (cfg : UpdateConfig) (os : option Os) (arch : option Arch)
    (s : UState) :
  let '(r, s') := apply_update cfg os arch s in
  (uc_public_key cfg = None → s' = s ∧ r = Err NoVerificationKey) ∧
  (us_swaps s' = us_swaps s ∧ us_installed s' = us_installed s ∧ is_ok r = false ∨
   ∃ image key pk archive sig sig_bytes sig_text o a listing releases release sel,
     os = Some o ∧ arch = Some a ∧
     us_requests s' = us_requests s ++
       [(GITHUB_API_BASE +:+ "/repos/" +:+ uc_repo cfg +:+ "/releases", Ok (200%Z, Ok listing));
        (sel_binary_url sel, Ok (200%Z, Ok archive)); (sel_signature_url sel, Ok (200%Z, Ok sig_bytes))] ∧
     releases_from_slice listing = Ok releases ∧ select_latest_release releases = Some release ∧
     select_asset release (asset_filename (normalize_version (rl_tag_name release)) o a) = Ok sel ∧
     utf8 sig_bytes = Some sig_text ∧
     uc_public_key cfg = Some key ∧ public_key_decode key = Some pk ∧
     signature_decode sig_text = Some sig ∧ key_verify pk archive sig true = true ∧
     (∃ entries e path,
       match archive_format o with TarGz => tar_gz_entries | Zip => zip_entries end archive
         = Ok entries ∧ Ok e ∈ entries ∧ en_is_file e = true ∧ en_path e = Ok (Some path) ∧
       file_name path = Some (binary_filename (uc_binary_name cfg) o) ∧ en_contents e = Ok image) ∧
     us_swaps s' = us_swaps s ++ [image] ∧
     match r with
     | Ok _ => us_installed s' = us_installed s ++ [image]
     | Err e => us_installed s' = us_installed s ∧ ∃ err, e = SelfReplace err
     end).
Proof.
  unfold apply_update.
  destruct (uc_public_key cfg) as [key|] eqn:Ek; [|nothing_installed].
  destruct os as [o|], arch as [a|]; try nothing_installed.
  pose proof (fetch_latest_inv cfg s) as Hf.
  destruct (fetch_latest_release cfg s) as [[rel|e] s1]; destruct Hf as (E1 & E2 & Hf); [|nothing_installed].
  destruct Hf as (listing & releases & Hq1 & Hr & Hl).
  destruct (select_asset _ _) as [sel|e] eqn:Es; [|nothing_installed].
  pose proof (download_bytes_inv (sel_binary_url sel) s1) as Hb.
  destruct (download_bytes (sel_binary_url sel) s1) as [[ar|e] s2]; destruct Hb as (E3 & E4 & Hq2);
    [|nothing_installed].
  pose proof (download_text_inv (sel_signature_url sel) s2) as Ht.
  destruct (download_text (sel_signature_url sel) s2) as [[st|e] s3]; destruct Ht as (E5 & E6 & Hq3);
    [|nothing_installed].
  destruct Hq3 as (sig_bytes & Hq3 & Hu). unfold verify_release.
  destruct (public_key_decode key) as [pk|] eqn:Epk; cbn; [|nothing_installed].
  destruct (signature_decode st) as [sg|] eqn:Esg; cbn; [|nothing_installed].
  destruct (key_verify pk ar sg true) eqn:Ev; [|nothing_installed].
  destruct (extract_binary ar _ _) as [image|e] eqn:Ex; [|nothing_installed].
  pose proof (install_inv image s3) as Hi. destruct (install image s3) as [r s4].
  destruct Hi as (Hq4 & [(E7 & E8 & Hr4)|(E7 & Hr4)]); [nothing_installed|].
  split; [done|right]. exists image, key, pk, ar, sg, sig_bytes, st, o, a, listing, releases, rel, sel.
  split_and!; try done; [by rewrite Hq4, Hq3, Hq2, Hq1, <- !app_assoc|by apply extract_binary_sound|congruence|].
  by rewrite <- E2, <- E4, <- E6.
Qed.

End Updater.

(** ** Concrete versions *)

Module UpdateWitness.

(** Versions counted in letters: ["v"] is 0, ["vxx"] is 2. *)
#[local] Program Instance counting : Semver := {|
  Version := nat;
  version_parse s := Some (String.length s);
  version_le := Nat.leb;
|}.
Next Obligation. intros a b. destruct (Nat.le_ge_cases a b); [left|right]; by apply Nat.leb_le. Qed.
Next Obligation. intros a b c H1%Nat.leb_le H2%Nat.leb_le. apply Nat.leb_le. lia. Qed.

Lemma latest_release_is_greatest_witness :
  let rs := [mkRelease "vx" false []; mkRelease "vxxx" true []; mkRelease "vxx" false []] in
  select_latest_release rs = Some (mkRelease "vxx" false []) ∧
  mkRelease "vxx" false [] ∈ rs.
Proof.
  split; [by vm_compute|].
  pose proof (latest_release_is_greatest
    [mkRelease "vx" false []; mkRelease "vxxx" true []; mkRelease "vxx" false []]) as H.
  by destruct H.
Defined.

End UpdateWitness.
