(* ===== verification/Tray.v ===== *)
(** * The tray's menu (penguin-tray-model)

    The severity scale (severity.rs), the mapping of a module's state and
    health onto it (module.rs), what a click means (action.rs) and the menu
    built from the daemon's answer (menu.rs): a header with the worst severity
    among the loaded modules, a row per module with its load or unload action
    and the rows of its tray commands, and the footer. *)
From S2P Require Import Prelude.
From S2P Require Import Sdk.

Inductive Severity := SevUnknown | SevOk | SevWarn | SevBad.

#[global] Instance severity_eq_dec : EqDecision Severity.
Proof. solve_decision. Defined.

Definition rank (s : Severity) : Z :=
  match s with SevOk => 0 | SevUnknown => 1 | SevWarn => 2 | SevBad => 3 end.

Definition icon (s : Severity) : string :=
  match s with SevUnknown => "•" | SevOk => "●" | SevWarn => "▲" | SevBad => "✖" end.

Definition label (s : Severity) : string :=
  match s with
  | SevUnknown => "Unknown"
  | SevOk => "OK"
  | SevWarn => "Warning"
  | SevBad => "Critical"
  end.

Definition worse (a b : Severity) : Severity := if (rank a <? rank b)%Z then b else a.

(** ** Display of one module (module.rs) *)

Record ModuleInput := mkModuleInput {
  mi_name : string;
  mi_state : ModuleState;
  mi_health : option HealthLevel;
  mi_health_message : string;
  mi_commands : list CommandSpec;
}.

Definition is_loaded (state : ModuleState) : bool :=
  match state with Disabled => false | _ => true end.

Definition state_text (state : ModuleState) : string :=
  match state with
  | Disabled => "Disabled"
  | Initializing => "Starting…"
  | Running => "Running"
  | Degraded => "Degraded"
  | Stopping => "Stopping…"
  | Stopped => "Stopped"
  | Failed => "Failed"
  end.

Definition state_severity (state : ModuleState) : Severity :=
  match state with
  | Running => SevOk
  | Degraded => SevWarn
  | Failed => SevBad
  | Disabled | Initializing | Stopping | Stopped => SevUnknown
  end.

Definition health_text (level : HealthLevel) : string :=
  match level with
  | LHealthy => "Healthy"
  | LDegraded => "Degraded"
  | LUnhealthy => "Unhealthy"
  end.

Definition health_severity (level : HealthLevel) : Severity :=
  match level with LHealthy => SevOk | LDegraded => SevWarn | LUnhealthy => SevBad end.

Definition module_health_text (health : option HealthLevel) : string :=
  match health with None => "Unknown" | Some level => health_text level end.

Definition module_health_severity (health : option HealthLevel) : Severity :=
  match health with None => SevUnknown | Some level => health_severity level end.

Definition module_severity (state : ModuleState) (health : option HealthLevel) : Severity :=
  worse (state_severity state) (module_health_severity health).

(** ** Menu rows (action.rs, menu.rs) *)

Inductive Action :=
| Dispatch (module : string) (path : list string)
| LoadModule (module : string)
| UnloadModule (module : string)
| Refresh
| Quit.

Inductive MenuItem := mkMenuItem {
  it_label : string;
  it_detail : string;
  it_severity : Severity;
  it_action : option Action;
  it_children : list MenuItem;
}.

Record Menu := mkMenu {
  mn_header : MenuItem;
  mn_modules : list MenuItem;
  mn_footer : list MenuItem;
}.

Inductive DaemonConnection :=
| Connected (modules : list ModuleInput)
| Unreachable (reason : string).

Definition compare_module_names (a b : ModuleInput) : comparison :=
  String.compare (mi_name a) (mi_name b).

Definition name_le (a b : ModuleInput) : bool :=
  match compare_module_names a b with Gt => false | _ => true end.

Fixpoint tray_item (module_name : string) (prefix : list string) (command : CommandSpec) :
    option MenuItem :=
  let path := prefix ++ [cs_name command] in
  let children := omap (tray_item module_name path) (cs_subcommands command) in
  if negb (cs_tray command) && bool_decide (length children = 0) then None
  else
    let label :=
      if bool_decide (cs_short command = "") then cs_name command else cs_short command in
    let action := if cs_tray command then Some (Dispatch module_name path) else None in
    Some (mkMenuItem label (cs_use_line command) SevUnknown action children).

Definition load_unload_item (module : ModuleInput) : MenuItem :=
  if is_loaded (mi_state module)
  then mkMenuItem "Unload" "" SevUnknown (Some (UnloadModule (mi_name module))) []
  else mkMenuItem "Load" "" SevUnknown (Some (LoadModule (mi_name module))) [].

Definition build_module_item (module : ModuleInput) : MenuItem :=
  let severity := module_severity (mi_state module) (mi_health module) in
  let detail :=
    state_text (mi_state module) +:+ " · " +:+ module_health_text (mi_health module) in
  let detail :=
    if bool_decide (mi_health_message module = "") then detail
    else detail +:+ " — " +:+ mi_health_message module in
  let children :=
    load_unload_item module :: omap (tray_item (mi_name module) []) (mi_commands module) in
  mkMenuItem (mi_name module) detail severity None children.

Definition footer_items : list MenuItem :=
  [mkMenuItem "Refresh" "" SevUnknown (Some Refresh) [];
   mkMenuItem "Quit" "" SevUnknown (Some Quit) []].

(** The loop of [build_connected_menu]: the rows so far and the running
    overall severity. *)
Fixpoint row_loop (rows : list MenuItem) (overall : Severity) (sorted : list ModuleInput) :
    list MenuItem * Severity :=
  match sorted with
  | [] => (rows, overall)
  | module :: sorted' =>
      let row := build_module_item module in
      let overall :=
        if is_loaded (mi_state module) then worse overall (it_severity row) else overall in
      row_loop (rows ++ [row]) overall sorted'
  end.

Definition build_connected_menu (modules : list ModuleInput) : Menu :=
  let sorted := sort_by name_le modules in
  let '(rows, overall) := row_loop [] SevOk sorted in
  mkMenu
    (mkMenuItem "Penguin" (pretty (length rows) +:+ " module(s) — " +:+ label overall) overall None [])
    rows footer_items.

Definition build_unreachable_menu (reason : string) : Menu :=
  let detail :=
    if bool_decide (reason = "") then "Daemon unreachable"
    else "Daemon unreachable: " +:+ reason in
  mkMenu (mkMenuItem "Penguin" detail SevBad None []) [] footer_items.

Definition build_menu (connection : DaemonConnection) : Menu :=
  match connection with
  | Connected modules => build_connected_menu modules
  | Unreachable reason => build_unreachable_menu reason
  end.

(** ** Severity *)

Lemma rank_worse a b : rank (worse a b) = (rank a `max` rank b)%Z.
Proof. unfold worse. destruct (Z.ltb_spec (rank a) (rank b)); lia. Qed.

Lemma worse_either a b : worse a b = a ∨ worse a b = b.
Proof. unfold worse. destruct (rank a <? rank b)%Z; auto. Qed.

Lemma rank_ok s : (rank s ≤ 0)%Z ↔ s = SevOk.
Proof. by destruct s. Qed.

Lemma module_severity_ok state health :
  module_severity state health = SevOk ↔ state = Running ∧ health = Some LHealthy.
Proof. destruct state, health as [[]|]; split; intros H; try done; by destruct H. Qed.

(** ** The rows *)

(** The severity of a module that is loaded. *)
Definition loaded_severity (m : ModuleInput) : option Severity :=
  if is_loaded (mi_state m) then Some (module_severity (mi_state m) (mi_health m)) else None.

Lemma row_loop_spec rows overall ms :
  row_loop rows overall ms =
    (rows ++ map build_module_item ms, foldl worse overall (omap loaded_severity ms)).
Proof.
  revert rows overall. induction ms as [|m ms IH]; intros rows overall; simpl.
  { by rewrite app_nil_r. }
  rewrite IH, <- app_assoc. unfold loaded_severity at 2. simpl.
  by destruct (is_loaded (mi_state m)).
Qed.

Lemma foldl_worse_ge overall l s :
  s ∈ overall :: l → (rank s ≤ rank (foldl worse overall l))%Z.
Proof.
  revert overall s. induction l as [|x l IH]; intros overall s; simpl.
  { intros ->%list_elem_of_singleton. lia. }
  intros H. assert (rank (worse overall x) ≤ rank (foldl worse (worse overall x) l))%Z as Hw.
  { apply IH. left. }
  rewrite rank_worse in Hw. apply elem_of_cons in H as [->|[->|H]%elem_of_cons]; [lia..|].
  apply IH. by right.
Qed.

Lemma foldl_worse_attained overall l : foldl worse overall l ∈ overall :: l.
Proof.
  revert overall. induction l as [|x l IH]; intros overall; simpl; [left|].
  pose proof (IH (worse overall x)) as H. apply elem_of_cons in H as [->|H]; [|by do 2 right].
  destruct (worse_either overall x) as [->| ->]; [left|right; left].
Qed.

Lemma name_le_total a b : name_le a b = true ∨ name_le b a = true.
Proof.
  unfold name_le, compare_module_names. rewrite (String.compare_antisym (mi_name a) (mi_name b)).
  destruct (String.compare (mi_name b) (mi_name a)); auto.
Qed.

(** The menu in terms of the sorted modules. *)
Lemma connected_menu_eq ms :
  build_menu (Connected ms) =
    let sorted := sort_by name_le ms in
    let overall := foldl worse SevOk (omap loaded_severity sorted) in
    mkMenu
      (mkMenuItem "Penguin"
         (pretty (length (map build_module_item sorted)) +:+ " module(s) — " +:+ label overall)
         overall None [])
      (map build_module_item sorted) footer_items.
Proof. simpl. unfold build_connected_menu. by rewrite row_loop_spec. Qed.

Lemma elem_of_loaded_severity s ms :
  s ∈ omap loaded_severity (sort_by name_le ms) ↔
    ∃ m, m ∈ ms ∧ is_loaded (mi_state m) = true ∧ s = module_severity (mi_state m) (mi_health m).
Proof.
  rewrite list_elem_of_omap. setoid_rewrite (sort_by_permutation name_le ms).
  unfold loaded_severity. split.
  - intros (m & Hm & E). exists m. by destruct (is_loaded (mi_state m)); simplify_eq.
  - intros (m & Hm & El & ->). exists m. by rewrite El.
Qed.

(** For every list of modules the daemon reports, the menu has one row
    per module in ascending order of name (modules of one name in the order
    reported), and the header's severity is the worst among the modules that
    are not disabled: no loaded module is worse, it is the baseline or some
    loaded module's, and it reads OK exactly when every loaded module is
    running and was probed healthy. *)
Theorem menu_header_is_worst (ms : list ModuleInput) :
  let menu := build_menu (Connected ms) in
  let overall := it_severity (mn_header menu) in
  (∃ sorted, mn_modules menu = map build_module_item sorted ∧ sorted ≡ₚ ms ∧
     Sorted (λ a b, name_le a b = true) sorted ∧
     ∀ n, List.filter (λ m, bool_decide (mi_name m = n)) sorted =
          List.filter (λ m, bool_decide (mi_name m = n)) ms) ∧
  (∀ m, m ∈ ms → is_loaded (mi_state m) = true →
     (rank (module_severity (mi_state m) (mi_health m)) ≤ rank overall)%Z) ∧
  (overall = SevOk ∨ ∃ m, m ∈ ms ∧ is_loaded (mi_state m) = true ∧
     overall = module_severity (mi_state m) (mi_health m)) ∧
  (overall = SevOk ↔
     ∀ m, m ∈ ms → mi_state m = Disabled ∨ mi_state m = Running ∧ mi_health m = Some LHealthy).
Proof.
  rewrite connected_menu_eq. cbv zeta. cbn [mn_modules mn_header it_severity].
  pose proof (foldl_worse_ge SevOk (omap loaded_severity (sort_by name_le ms))) as Hge.
  pose proof (foldl_worse_attained SevOk (omap loaded_severity (sort_by name_le ms))) as Hat.
  set (overall := foldl worse _ _) in *.
  assert (∀ m, m ∈ ms → is_loaded (mi_state m) = true →
    (rank (module_severity (mi_state m) (mi_health m)) ≤ rank overall)%Z) as Hub.
  { intros m Hm Hl. apply Hge. right. apply elem_of_loaded_severity. eauto. }
  assert (overall = SevOk ∨ ∃ m, m ∈ ms ∧ is_loaded (mi_state m) = true ∧
    overall = module_severity (mi_state m) (mi_health m)) as Hdone.
  { apply elem_of_cons in Hat as [->|Hat]; [by left|right]. by apply elem_of_loaded_severity. }
  split_and!; [|done..|].
  - exists (sort_by name_le ms). split_and!; [done|apply sort_by_permutation| |].
    + apply sort_by_sorted, name_le_total.
    + intros n. apply sort_by_stable. intros x y Hx%bool_decide_eq_true Hy%bool_decide_eq_true.
      unfold name_le, compare_module_names. rewrite Hx, Hy.
      by destruct (name_le_total x y) as [H|H]; unfold name_le, compare_module_names in H;
        rewrite Hx, Hy in H.
  - split.
    + intros Ho m Hm. destruct (decide (mi_state m = Disabled)) as [|Hd]; [by left|right].
      apply module_severity_ok, rank_ok. rewrite Ho in Hub. apply (Hub m Hm).
      by destruct (mi_state m).
    + intros Hall. destruct Hdone as [|(m & Hm & Hl & ->)]; [done|].
      apply module_severity_ok. destruct (Hall m Hm) as [E|]; [by rewrite E in Hl|done].
Qed.

(** ** What the rows do *)

(** The actions of a row and of everything below it. *)
Fixpoint actions (i : MenuItem) : list Action :=
  option_list (it_action i) ++ flat_map actions (it_children i).

(** Every row is clickable or opens onto further rows. *)
Fixpoint no_dead_end (i : MenuItem) : bool :=
  (bool_decide (it_action i ≠ None) || negb (bool_decide (length (it_children i) = 0))) &&
  forallb no_dead_end (it_children i).

(** The command a path of names leads to. *)
Inductive at_path : list CommandSpec → list string → CommandSpec → Prop :=
| at_here c cs : c ∈ cs → at_path cs [cs_name c] c
| at_below c cs p d : c ∈ cs → at_path (cs_subcommands c) p d → at_path cs (cs_name c :: p) d.

Lemma at_path_member cs p d : at_path cs p d ↔ ∃ c, c ∈ cs ∧ at_path [c] p d.
Proof.
  split.
  - intros [c ? H|c ? q ? H Hq]; exists c; (split; [done|]); constructor; [left|left|done].
  - intros (c & Hc & H). inversion H as [? ? E|? ? ? ? E]; subst;
      apply list_elem_of_singleton in E as ->; by constructor.
Qed.

Lemma elem_of_flat_map {A B} (f : A → list B) l b : b ∈ flat_map f l ↔ ∃ a, a ∈ l ∧ b ∈ f a.
Proof.
  rewrite list_elem_of_In, in_flat_map. by setoid_rewrite list_elem_of_In.
Qed.

(** The actions of the rows kept for some commands. *)
Lemma elem_of_rows_actions {A} (f : A → option MenuItem) cs a :
  a ∈ flat_map actions (omap f cs) ↔ ∃ c, c ∈ cs ∧ a ∈ (i ← option_list (f c); actions i).
Proof.
  rewrite elem_of_flat_map. setoid_rewrite list_elem_of_omap. split.
  - intros (i & (c & Hc & E) & Ha). exists c. split; [done|]. rewrite E. simpl. by rewrite app_nil_r.
  - intros (c & Hc & Ha). destruct (f c) as [i|] eqn:E; simpl in Ha; [|by apply not_elem_of_nil in Ha].
    rewrite app_nil_r in Ha. eauto.
Qed.

(** The actions of a command's row: the tray commands at or below it. *)
Lemma tray_item_actions m c : ∀ prefix a,
  a ∈ (i ← option_list (tray_item m prefix c); actions i) ↔
    ∃ p d, a = Dispatch m (prefix ++ p) ∧ at_path [c] p d ∧ cs_tray d = true.
Proof.
  induction c as [n u s fl subs t mi ma IH] using CommandSpec_tree_ind. intros prefix a.
  set (c := mkCommandSpec n u s fl subs t mi ma).
  trans (t = true ∧ a = Dispatch m (prefix ++ [n]) ∨
    a ∈ flat_map actions (omap (tray_item m (prefix ++ [n])) subs)).
  - simpl. destruct t; simpl; rewrite ?app_nil_r, ?elem_of_cons.
    { split; [intros [->|H]; auto|intros [[_ ->]|H]; auto]. }
    destruct (omap _ subs) as [|x xs]; simpl.
    { rewrite !elem_of_nil. naive_solver. }
    rewrite app_nil_r. split; [by right|intros [[? ?]|H]; done].
  - rewrite elem_of_rows_actions. rewrite Forall_forall in IH. split.
    + intros [[-> ->]|(x & Hx & (p & d & -> & Hp & Hd)%(IH x Hx))].
      { exists [n], c. split_and!; [done| |done]. apply (at_here c). left. }
      exists (n :: p), d. split_and!; [by rewrite <- app_assoc| |done].
      apply (at_below c); [left|]. apply at_path_member. eauto.
    + intros (p & d & -> & Hp & Hd). inversion Hp as [? ? E|x ? q ? E Hq]; subst;
        apply list_elem_of_singleton in E as ->; [by left|right].
      apply at_path_member in Hq as (x & Hx & Hq). exists x. split; [done|].
      apply IH; [done|]. exists q, d. by rewrite <- app_assoc.
Qed.

Lemma forallb_omap {A} (f : A → option MenuItem) cs :
  Forall (λ c, ∀ i, f c = Some i → no_dead_end i = true) cs → forallb no_dead_end (omap f cs) = true.
Proof.
  induction 1 as [|c cs Hc Hcs IH]; simpl; [done|]. destruct (f c) eqn:E; simpl; [|done].
  apply andb_true_intro. split; [by apply Hc|exact IH].
Qed.

Lemma tray_item_no_dead_end m c : ∀ prefix i, tray_item m prefix c = Some i → no_dead_end i = true.
Proof.
  induction c as [n u s fl subs t mi ma IH] using CommandSpec_tree_ind. intros prefix i H.
  simpl in H. pose proof (forallb_omap (tray_item m (prefix ++ [n])) subs) as Hsub.
  destruct (omap (tray_item m (prefix ++ [n])) subs) as [|x xs] eqn:E, t; simpl in H; simplify_eq/=; [done|..].
  all: apply Hsub, (Forall_impl _ _ _ IH); intros c Hc j; apply Hc.
Qed.

Lemma module_item_actions mi a :
  a ∈ actions (build_module_item mi) ↔
    (is_loaded (mi_state mi) = true ∧ a = UnloadModule (mi_name mi)) ∨
    (is_loaded (mi_state mi) = false ∧ a = LoadModule (mi_name mi)) ∨
    (∃ p d, a = Dispatch (mi_name mi) p ∧ at_path (mi_commands mi) p d ∧ cs_tray d = true).
Proof.
  simpl. rewrite elem_of_app, elem_of_rows_actions.
  assert ((∃ c, c ∈ mi_commands mi ∧ a ∈ (i ← option_list (tray_item (mi_name mi) [] c); actions i))
    ↔ ∃ p d, a = Dispatch (mi_name mi) p ∧ at_path (mi_commands mi) p d ∧ cs_tray d = true) as ->.
  { setoid_rewrite tray_item_actions. setoid_rewrite (at_path_member (mi_commands mi)).
    split; [intros (c & Hc & p & d & -> & Hp & Hd)|intros (p & d & -> & (c & Hc & Hp) & Hd)];
      eauto 10. }
  unfold load_unload_item. destruct (is_loaded (mi_state mi)); simpl;
    rewrite list_elem_of_singleton; split; intros H; destruct_or?; destruct_and?; auto; done.
Qed.

Lemma module_item_no_dead_end mi : no_dead_end (build_module_item mi) = true.
Proof.
  simpl. rewrite forallb_omap.
  - unfold load_unload_item. by destruct (is_loaded (mi_state mi)).
  - apply Forall_forall. intros c _ i. apply tray_item_no_dead_end.
Qed.

(** The module rows of a menu offer exactly the actions the daemon's
    answer calls for: a dispatch of a module's command path exactly when that
    path leads to a command of that module marked for the tray, an unload for
    every module that is not disabled and a load for every one that is; no row
    of a module's submenu is a dead end, and refresh and quit are always there,
    with no module rows and a critical header when the daemon is unreachable. *)
Theorem menu_offers_exactly (ms : list ModuleInput) (reason : string) :
  let offered := flat_map actions (mn_modules (build_menu (Connected ms))) in
  (∀ m p, Dispatch m p ∈ offered ↔ ∃ mi d, mi ∈ ms ∧ mi_name mi = m ∧
     at_path (mi_commands mi) p d ∧ cs_tray d = true) ∧
  (∀ m, UnloadModule m ∈ offered ↔ ∃ mi, mi ∈ ms ∧ mi_name mi = m ∧ mi_state mi ≠ Disabled) ∧
  (∀ m, LoadModule m ∈ offered ↔ ∃ mi, mi ∈ ms ∧ mi_name mi = m ∧ mi_state mi = Disabled) ∧
  forallb no_dead_end (mn_modules (build_menu (Connected ms))) = true ∧
  (∀ conn, flat_map actions (mn_footer (build_menu conn)) = [Refresh; Quit]) ∧
  mn_modules (build_menu (Unreachable reason)) = [] ∧
  it_severity (mn_header (build_menu (Unreachable reason))) = SevBad.
Proof.
  rewrite connected_menu_eq. cbv zeta. cbn [mn_modules].
  assert (∀ a, a ∈ flat_map actions (map build_module_item (sort_by name_le ms)) ↔
    ∃ mi, mi ∈ ms ∧ a ∈ actions (build_module_item mi)) as Ha.
  { intros a. rewrite elem_of_flat_map. setoid_rewrite list_elem_of_fmap.
    setoid_rewrite (sort_by_permutation name_le ms). naive_solver. }
  assert (∀ st, is_loaded st = true ↔ st ≠ Disabled) as Hl by (by intros []).
  assert (∀ st, is_loaded st = false ↔ st = Disabled) as Hu by (by intros []).
  setoid_rewrite Ha. setoid_rewrite module_item_actions. setoid_rewrite Hl. setoid_rewrite Hu.
  split_and!; [naive_solver..| | |done|done].
  - apply forallb_forall. intros i (mi & <- & _)%in_map_iff. apply module_item_no_dead_end.
  - intros [?|?]; [by rewrite connected_menu_eq|done].
Qed.
