(* ===== verification/Timestamp.v ===== *)
(** * Log timestamps (penguin-cli-core timestamp.rs)

    [format_log_timestamp] prints an instant as [YYYY-MM-DD HH:MM:SS] in UTC,
    turning the day number into a civil date with integer arithmetic alone.
    The arithmetic is compared with the Gregorian calendar itself: the day
    after, with its month lengths and leap years. *)
From S2P Require Import Prelude.

#[local] Open Scope Z_scope.

(** [div_euclid] and [rem_euclid] by a positive constant are [Z.div] and
    [Z.modulo]; [/] and [%] truncate, and are only used on non-negative
    numbers ([quot_div], [rem_mod] below). *)
Definition civil_from_days (z : Z) : Z * Z * Z :=
  let z := z + 719468 in
  let era := z / 146097 in
  let doe := z mod 146097 in
  let yoe := (doe - doe ÷ 1460 + doe ÷ 36524 - doe ÷ 146096) ÷ 365 in
  let y := yoe + era * 400 in
  let doy := doe - (365 * yoe + yoe ÷ 4 - yoe ÷ 100) in
  let mp := (5 * doy + 2) ÷ 153 in
  let day := wrap_u32 (doy - (153 * mp + 2) ÷ 5 + 1) in
  let month := wrap_u32 (if mp <? 10 then mp + 3 else mp - 9) in
  let year := if month <=? 2 then y + 1 else y in
  (year, month, day).

Fixpoint zeros (n : nat) : string :=
  match n with O => "" | S n' => "0" +:+ zeros n' end.

(** [{:0w}]: zeros between the sign and the digits, up to the width. *)
Definition pad_zero (w : nat) (z : Z) : string :=
  let digits := pretty (Z.abs z) in
  let sign := if z <? 0 then "-" else "" in
  sign +:+ zeros (w - String.length sign - String.length digits) +:+ digits.

Definition format_log_timestamp (at_unix_nano : Z) : string :=
  let total_seconds := at_unix_nano / 1000000000 in
  let days := total_seconds / 86400 in
  let secs_of_day := total_seconds mod 86400 in
  let hour := secs_of_day ÷ 3600 in
  let minute := Z.rem secs_of_day 3600 ÷ 60 in
  let second := Z.rem secs_of_day 60 in
  let '(year, month, day) := civil_from_days days in
  pad_zero 4 year +:+ "-" +:+ pad_zero 2 month +:+ "-" +:+ pad_zero 2 day +:+ " " +:+
  pad_zero 2 hour +:+ ":" +:+ pad_zero 2 minute +:+ ":" +:+ pad_zero 2 second.

(** ** The Gregorian calendar *)

Definition leap (y : Z) : bool :=
  (y mod 4 =? 0) && (negb (y mod 100 =? 0) || (y mod 400 =? 0)).

Definition month_length (is_leap : bool) (m : Z) : Z :=
  if m =? 2 then (if is_leap then 29 else 28)
  else if (m =? 4) || (m =? 6) || (m =? 9) || (m =? 11) then 30 else 31.

Definition days_in_month (y m : Z) : Z := month_length (leap y) m.

Definition next_day (d : Z * Z * Z) : Z * Z * Z :=
  let '(y, m, d) := d in
  if d <? days_in_month y m then (y, m, d + 1)
  else if m <? 12 then (y, m + 1, 1) else (y + 1, 1, 1).

(** ** Years and days of the era, counted from the first of March *)

Definition year_start (yoe : Z) : Z := 365 * yoe + yoe / 4 - yoe / 100.

(** The length of the year that begins in March of [yoe]. *)
Definition length_of_year (is_leap : bool) : Z := if is_leap then 366 else 365.
Definition year_length (yoe : Z) : Z := length_of_year (leap (yoe + 1)).

Definition year_of_era (doe : Z) : Z :=
  (doe - doe / 1460 + doe / 36524 - doe / 146096) / 365.

(** Month and day of a day of the year counted from March. *)
Definition month_of (doy : Z) : Z :=
  let mp := (5 * doy + 2) / 153 in if mp <? 10 then mp + 3 else mp - 9.
Definition day_of (doy : Z) : Z := doy - (153 * ((5 * doy + 2) / 153) + 2) / 5 + 1.

Definition date_of (era yoe doy : Z) : Z * Z * Z :=
  (yoe + era * 400 + (if month_of doy <=? 2 then 1 else 0), month_of doy, day_of doy).

Lemma year_length_bounds y : 365 ≤ year_length y ≤ 366.
Proof. unfold year_length, length_of_year. destruct leap; lia. Qed.

Lemma year_of_era_mono a b : 0 ≤ a ≤ b → b < 146097 → year_of_era a ≤ year_of_era b.
Proof.
  intros. unfold year_of_era. apply Z.div_le_mono; [lia|].
  Z.to_euclidean_division_equations. lia.
Qed.

(** Checks a boolean property of every number below a bound. *)
Fixpoint all_below (n : nat) (f : Z → bool) : bool :=
  match n with O => true | S n' => f (Z.of_nat n') && all_below n' f end.

Lemma all_below_spec n f z : all_below n f = true → 0 ≤ z < Z.of_nat n → f z = true.
Proof.
  induction n as [|n IH]; [lia|]. cbn [all_below]. intros [Hf Hn]%andb_prop Hz.
  destruct (decide (z = Z.of_nat n)) as [->|]; [done|]. apply IH; [done|lia].
Qed.

Lemma year_ends :
  all_below 400 (λ y, (year_of_era (year_start y) =? y) &&
    (year_of_era (year_start y + year_length y - 1) =? y)) = true.
Proof. vm_compute. reflexivity. Qed.

Lemma year_starts :
  all_below 400 (λ y, year_start y + year_length y =?
    (if y =? 399 then 146097 else year_start (y + 1))) = true.
Proof. vm_compute. reflexivity. Qed.

Lemma year_start_succ y : 0 ≤ y < 399 → year_start (y + 1) = year_start y + year_length y.
Proof.
  intros H. pose proof (all_below_spec _ _ y year_starts ltac:(lia)) as E%Z.eqb_eq.
  by destruct (Z.eqb_spec y 399); [lia|].
Qed.

Lemma last_year_end : year_start 399 + year_length 399 = 146097.
Proof. reflexivity. Qed.

(** A day of the era lies in the year [year_of_era] gives. *)
Lemma in_year y doe :
  0 ≤ y < 400 → year_start y ≤ doe < year_start y + year_length y → year_of_era doe = y.
Proof.
  intros Hy Hdoe.
  pose proof (all_below_spec _ _ y year_ends ltac:(lia)) as [E1%Z.eqb_eq E2%Z.eqb_eq]%andb_prop.
  assert (0 ≤ year_start y) by (unfold year_start; Z.to_euclidean_division_equations; lia).
  assert (year_start y + year_length y ≤ 146097).
  { destruct (decide (y = 399)) as [->|]; [by rewrite last_year_end|].
    rewrite <- year_start_succ by lia. unfold year_start. Z.to_euclidean_division_equations. lia. }
  pose proof (year_of_era_mono (year_start y) doe ltac:(lia) ltac:(lia)).
  pose proof (year_of_era_mono doe (year_start y + year_length y - 1) ltac:(lia) ltac:(lia)). lia.
Qed.

Lemma some_year n doe :
  0 ≤ doe → 0 < Z.of_nat n ≤ 400 → doe < year_start (Z.of_nat n - 1) + year_length (Z.of_nat n - 1) →
  ∃ y, 0 ≤ y < 400 ∧ year_start y ≤ doe < year_start y + year_length y.
Proof.
  intros H0. induction n as [|n IH]; [lia|]. intros Hn Hd.
  replace (Z.of_nat (S n) - 1) with (Z.of_nat n) in Hd by lia.
  destruct (decide (year_start (Z.of_nat n) ≤ doe)); [exists (Z.of_nat n); lia|].
  destruct n as [|n]; [exfalso; change (year_start (Z.of_nat 0)) with 0 in *; lia|].
  apply IH; [lia|]. rewrite <- year_start_succ by lia.
  by replace (Z.of_nat (S n) - 1 + 1) with (Z.of_nat (S n)) by lia; lia.
Qed.

Lemma year_of_era_spec doe :
  0 ≤ doe < 146097 →
  0 ≤ year_of_era doe < 400 ∧
  year_start (year_of_era doe) ≤ doe < year_start (year_of_era doe) + year_length (year_of_era doe).
Proof.
  intros H. destruct (some_year 400 doe) as (y & Hy & Hd); [lia|lia| |].
  { change (Z.of_nat 400 - 1) with 399. rewrite last_year_end. lia. }
  by rewrite (in_year y doe).
Qed.

(** ** Days of the year *)

(** What follows day [doy] of a year whose February is that of a leap year or
    not. *)
Definition doy_step (is_leap : bool) (doy : Z) : bool :=
  let m := month_of doy in
  let d := day_of doy in
  let m' := month_of (doy + 1) in
  let d' := day_of (doy + 1) in
  if doy + 1 <? length_of_year is_leap then
    if d <? month_length is_leap m then (m' =? m) && (d' =? d + 1)
    else (d =? month_length is_leap m) && (d' =? 1) && (m' =? (if m <? 12 then m + 1 else 1)) && negb (m =? 2)
  else if doy + 1 =? length_of_year is_leap then (m =? 2) && (d =? month_length is_leap 2)
  else true.

Lemma doy_steps :
  all_below 366 (λ doy, doy_step true doy && doy_step false doy &&
    (1 <=? month_of doy) && (month_of doy <=? 12) && (1 <=? day_of doy) && (day_of doy <=? 31)) = true.
Proof. vm_compute. reflexivity. Qed.

Lemma doy_spec b doy :
  0 ≤ doy < 366 →
  doy_step b doy = true ∧ 1 ≤ month_of doy ≤ 12 ∧ 1 ≤ day_of doy ≤ 31.
Proof.
  intros H. pose proof (all_below_spec _ _ doy doy_steps H) as E.
  rewrite !andb_true_iff, !Z.leb_le in E. destruct_and? E. destruct b; auto with lia.
Qed.

Lemma month_length_leap b b' m : m ≠ 2 → month_length b m = month_length b' m.
Proof. intros H. unfold month_length. by destruct (Z.eqb_spec m 2). Qed.

Lemma leap_period y era : leap (y + era * 400) = leap y.
Proof.
  unfold leap. rewrite (Z.mod_add y era 400) by lia.
  replace (y + era * 400) with (y + (era * 4) * 100) at 2 by lia.
  replace (y + era * 400) with (y + (era * 100) * 4) by lia.
  by rewrite !Z.mod_add by lia.
Qed.

(** A date of the calendar. *)
Definition valid_date (d : Z * Z * Z) : Prop :=
  let '(y, m, d) := d in 1 ≤ m ≤ 12 ∧ 1 ≤ d ≤ days_in_month y m.

Lemma month_length_date_of era yoe m :
  month_length (leap (yoe + era * 400 + (if m <=? 2 then 1 else 0))) m =
  month_length (leap (yoe + 1)) m.
Proof.
  destruct (decide (m = 2)) as [->|?]; [|by apply month_length_leap].
  change (2 <=? 2) with true. cbv iota.
  replace (yoe + era * 400 + 1) with (yoe + 1 + era * 400) by lia. by rewrite leap_period.
Qed.

Lemma date_of_valid era yoe doy : 0 ≤ doy < year_length yoe → valid_date (date_of era yoe doy).
Proof.
  intros H. pose proof (year_length_bounds yoe).
  destruct (doy_spec (leap (yoe + 1)) doy ltac:(lia)) as (Hs & Hm & Hd).
  unfold valid_date, date_of, days_in_month. rewrite month_length_date_of.
  split; [done|]. split; [lia|]. unfold doy_step in Hs. fold (year_length yoe) in Hs.
  destruct (Z.ltb_spec (doy + 1) (year_length yoe)).
  - destruct (Z.ltb_spec (day_of doy) (month_length (leap (yoe + 1)) (month_of doy))); [lia|].
    rewrite !andb_true_iff, !Z.eqb_eq in Hs. destruct_and! Hs. lia.
  - destruct (Z.eqb_spec (doy + 1) (year_length yoe)); [|lia].
    apply andb_prop in Hs as [Hm2%Z.eqb_eq Hd2%Z.eqb_eq]. rewrite Hm2, Hd2. lia.
Qed.

(** Within a year, the next day of the year is the next day. *)
Lemma date_of_next era yoe doy :
  0 ≤ doy → doy + 1 < year_length yoe → date_of era yoe (doy + 1) = next_day (date_of era yoe doy).
Proof.
  intros H0 H1. pose proof (year_length_bounds yoe).
  destruct (doy_spec (leap (yoe + 1)) doy ltac:(lia)) as (Hs & Hm & Hd).
  unfold doy_step in Hs. fold (year_length yoe) in Hs.
  rewrite (proj2 (Z.ltb_lt _ _) H1) in Hs. unfold date_of, next_day, days_in_month.
  rewrite month_length_date_of.
  destruct (day_of doy <? _); rewrite !andb_true_iff, ?negb_true_iff, !Z.eqb_eq, ?Z.eqb_neq in Hs.
  { destruct Hs as [-> ->]. done. }
  destruct Hs as [[[_ ->] ->] Hm2]. destruct (Z.ltb_spec (month_of doy) 12) as [Hlt|Hge].
  - f_equal. f_equal. f_equal. destruct (Z.leb_spec (month_of doy) 2), (Z.leb_spec (month_of doy + 1) 2); lia.
  - replace (month_of doy) with 12 by lia. simpl. do 2 f_equal. lia.
Qed.

(** The last day of February is followed by the first of March. *)
Lemma date_of_year_end era yoe doy :
  0 ≤ doy → doy + 1 = year_length yoe →
  next_day (date_of era yoe doy) = (yoe + 1 + era * 400, 3, 1).
Proof.
  intros H0 H1. pose proof (year_length_bounds yoe).
  destruct (doy_spec (leap (yoe + 1)) doy ltac:(lia)) as (Hs & _).
  unfold doy_step in Hs. fold (year_length yoe) in Hs.
  rewrite H1, Z.ltb_irrefl, Z.eqb_refl in Hs. apply andb_prop in Hs as [Hm%Z.eqb_eq Hd%Z.eqb_eq].
  unfold date_of, next_day, days_in_month. rewrite Hm, Hd. change (2 <=? 2) with true. cbv iota.
  replace (yoe + era * 400 + 1) with (yoe + 1 + era * 400) by lia.
  rewrite leap_period, Z.ltb_irrefl. done.
Qed.

(** ** The program's arithmetic *)

Lemma civil_from_days_eq z :
  let doe := (z + 719468) mod 146097 in
  let yoe := year_of_era doe in
  civil_from_days z = date_of ((z + 719468) / 146097) yoe (doe - year_start yoe).
Proof.
  intros doe yoe. assert (0 ≤ doe < 146097) as Hdoe by (apply Z.mod_pos_bound; lia).
  destruct (year_of_era_spec doe Hdoe) as [Hy Hd]. fold yoe in Hy, Hd.
  unfold civil_from_days. cbv zeta. fold doe. rewrite !(Z.quot_div_nonneg doe) by lia.
  rewrite (Z.quot_div_nonneg (doe - _ + _ - _)) by (Z.to_euclidean_division_equations; lia).
  fold (year_of_era doe). fold yoe. rewrite !(Z.quot_div_nonneg yoe) by lia. fold (year_start yoe).
  set (doy := doe - year_start yoe) in *.
  pose proof (year_length_bounds yoe). assert (0 ≤ doy < 366) as Hdoy by lia.
  destruct (doy_spec true doy Hdoy) as (_ & Hm & Hday).
  rewrite (Z.quot_div_nonneg (5 * doy + 2)) by lia.
  assert (0 ≤ (5 * doy + 2) / 153) by (apply Z.div_pos; lia).
  rewrite (Z.quot_div_nonneg (153 * _ + 2)) by lia.
  fold (day_of doy). change (if (5 * doy + 2) / 153 <? 10 then _ else _) with (month_of doy).
  unfold wrap_u32. rewrite !wrap_u_small by lia. unfold date_of.
  destruct (month_of doy <=? 2); do 2 f_equal; lia.
Qed.

Lemma civil_from_days_next z : civil_from_days (z + 1) = next_day (civil_from_days z).
Proof.
  rewrite !civil_from_days_eq. cbv zeta.
  set (n := z + 719468). replace (z + 1 + 719468) with (n + 1) by (unfold n; lia).
  assert (0 ≤ n mod 146097 < 146097) as Hdoe by (apply Z.mod_pos_bound; lia).
  destruct (year_of_era_spec _ Hdoe) as [Hy Hd].
  destruct (decide (n mod 146097 = 146096)) as [E|E].
  - assert ((n + 1) / 146097 = n / 146097 + 1 ∧ (n + 1) mod 146097 = 0) as [-> ->].
    { Z.to_euclidean_division_equations. lia. }
    rewrite E in *. rewrite date_of_year_end by (vm_compute; congruence).
    unfold date_of. simpl. do 2 f_equal. change (year_of_era 146096) with 399.
    change (year_of_era 0) with 0. lia.
  - assert ((n + 1) / 146097 = n / 146097 ∧ (n + 1) mod 146097 = n mod 146097 + 1) as [-> ->].
    { Z.to_euclidean_division_equations. lia. }
    set (doe := n mod 146097) in *. set (yoe := year_of_era doe) in *.
    destruct (decide (doe + 1 < year_start yoe + year_length yoe)) as [Hlt|Hge].
    + rewrite (in_year yoe) by lia. rewrite <- date_of_next by lia. f_equal. lia.
    + assert (yoe < 399).
      { destruct (decide (yoe = 399)) as [Ey|]; [|lia]. rewrite Ey, last_year_end in *. lia. }
      rewrite (in_year (yoe + 1)).
      * rewrite date_of_year_end by lia. rewrite year_start_succ by lia.
        replace (doe + 1 - _) with 0 by lia. unfold date_of. simpl. do 2 f_equal. lia.
      * lia.
      * rewrite year_start_succ by lia. pose proof (year_length_bounds (yoe + 1)). lia.
Qed.

(** ** The printed form *)

Lemma pretty_Z_nonneg z : 0 ≤ z → (pretty z : string) = pretty (Z.to_N z).
Proof. by destruct z. Qed.

(** At most as many digits as the power of ten needs. *)
Lemma length_pretty_N_go (k : nat) (x : N) (s : string) :
  (x < 10 ^ N.of_nat k)%N → (String.length (pretty_N_go x s) ≤ k + String.length s)%nat.
Proof.
  revert x s. induction k as [|k IH]; intros x s Hx.
  { assert (x = 0%N) as -> by (simpl in Hx; lia). by rewrite pretty_N_go_0. }
  destruct (decide (0 < x)%N) as [Hp|]; [|assert (x = 0%N) as -> by lia; rewrite pretty_N_go_0; lia].
  rewrite pretty_N_go_step by done. etrans; [apply IH|simpl; lia].
  rewrite Nat2N.inj_succ, N.pow_succ_r' in Hx. apply N.Div0.div_lt_upper_bound. lia.
Qed.

Lemma length_zeros n : String.length (zeros n) = n.
Proof. induction n; simpl; auto. Qed.

Lemma length_pad_zero (w : nat) z :
  (0 < w)%nat → 0 ≤ z < 10 ^ Z.of_nat w → String.length (pad_zero w z) = w.
Proof.
  intros Hw Hz. unfold pad_zero. rewrite (proj2 (Z.ltb_ge z 0)), Z.abs_eq by lia.
  rewrite !string_length_app, length_zeros, pretty_Z_nonneg by lia. simpl.
  assert (String.length (pretty (Z.to_N z)) ≤ w)%nat; [|lia].
  unfold pretty, pretty_N. destruct (decide _) as [_|Hn]; [simpl; lia|].
  etrans; [apply (length_pretty_N_go w)|simpl; lia].
  apply N2Z.inj_lt. rewrite N2Z.inj_pow, nat_N_Z, Z2N.id; simpl; lia.
Qed.

Lemma civil_from_days_valid z : valid_date (civil_from_days z).
Proof.
  rewrite civil_from_days_eq. cbv zeta. apply date_of_valid.
  assert (0 ≤ (z + 719468) mod 146097 < 146097) as Hdoe by (apply Z.mod_pos_bound; lia).
  destruct (year_of_era_spec _ Hdoe). lia.
Qed.

(** The years an [i64] of nanoseconds reaches have four digits. *)
Lemma year_four_digits z y m d :
  -106752 ≤ z < 106752 → civil_from_days z = (y, m, d) → 1600 ≤ y ≤ 2400.
Proof.
  intros Hz. rewrite civil_from_days_eq. cbv zeta. unfold date_of. intros [= <- _ _].
  assert (0 ≤ (z + 719468) mod 146097 < 146097) as Hdoe by (apply Z.mod_pos_bound; lia).
  destruct (year_of_era_spec _ Hdoe) as [Hy _].
  assert (4 ≤ (z + 719468) / 146097 ≤ 5) by (Z.to_euclidean_division_equations; lia).
  destruct (month_of _ <=? 2); lia.
Qed.

(** The day arithmetic of log timestamps is the Gregorian calendar: day
    zero is 1970-01-01, every day's date is a valid one, and the date of day
    [z + 1] is the day after the date of day [z], for every day before or
    after the epoch. A timestamp of any [i64] nanosecond count prints the date
    of its day and the hour, minute and second of its second of the day, in
    exactly the 19 characters of [YYYY-MM-DD HH:MM:SS]. *)
Theorem log_timestamp_is_calendar (at_unix_nano : Z) :
  - 2 ^ 63 ≤ at_unix_nano < 2 ^ 63 →
  civil_from_days 0 = (1970, 1, 1) ∧
  (∀ z, civil_from_days (z + 1) = next_day (civil_from_days z)) ∧
  (∀ z, valid_date (civil_from_days z)) ∧
  ∃ y mo d h mi s,
    civil_from_days (at_unix_nano / (86400 * 1000000000)) = (y, mo, d) ∧
    (at_unix_nano / 1000000000) mod 86400 = 3600 * h + 60 * mi + s ∧
    0 ≤ h < 24 ∧ 0 ≤ mi < 60 ∧ 0 ≤ s < 60 ∧
    format_log_timestamp at_unix_nano =
      pad_zero 4 y +:+ "-" +:+ pad_zero 2 mo +:+ "-" +:+ pad_zero 2 d +:+ " " +:+
      pad_zero 2 h +:+ ":" +:+ pad_zero 2 mi +:+ ":" +:+ pad_zero 2 s ∧
    String.length (format_log_timestamp at_unix_nano) = 19%nat.
Proof.
  intros Hat. split_and!; [reflexivity|apply civil_from_days_next|apply civil_from_days_valid|].
  unfold format_log_timestamp. cbv zeta. rewrite Z.div_div by lia.
  replace (1000000000 * 86400) with (86400 * 1000000000) by lia.
  set (sod := (at_unix_nano / 1000000000) mod 86400).
  assert (0 ≤ sod < 86400) as Hsod by (apply Z.mod_pos_bound; lia).
  set (days := at_unix_nano / (86400 * 1000000000)).
  assert (-106752 ≤ days < 106752) as Hdays by (unfold days; Z.to_euclidean_division_equations; lia).
  pose proof (civil_from_days_valid days) as Hv.
  destruct (civil_from_days days) as [[y mo] d] eqn:E.
  pose proof (year_four_digits days y mo d Hdays E) as Hy. destruct Hv as [Hmo Hd].
  assert (d ≤ 31) by (revert Hd; unfold days_in_month, month_length; repeat case_match; lia).
  rewrite (Z.quot_div_nonneg sod), !(Z.rem_mod_nonneg sod) by lia.
  assert (0 ≤ sod mod 3600 < 3600) by (apply Z.mod_pos_bound; lia).
  rewrite (Z.quot_div_nonneg (sod mod 3600)) by lia.
  assert (0 ≤ sod / 3600 < 24 ∧ 0 ≤ sod mod 3600 / 60 < 60 ∧ 0 ≤ sod mod 60 < 60 ∧
    sod = 3600 * (sod / 3600) + 60 * (sod mod 3600 / 60) + sod mod 60) as (Hh & Hmi & Hs & Hsum)
    by (Z.to_euclidean_division_equations; lia).
  exists y, mo, d, (sod / 3600), (sod mod 3600 / 60), (sod mod 60).
  split_and!; [done|done|lia..|done|].
  rewrite !string_length_app, !length_pad_zero by (simpl; lia). reflexivity.
Qed.

Lemma log_timestamp_is_calendar_witness :
  format_log_timestamp 1709210096000000007 = "2024-02-29 12:34:56" ∧
  String.length (format_log_timestamp 1709210096000000007) = 19%nat.
Proof.
  split; [vm_compute; reflexivity|].
  by destruct (log_timestamp_is_calendar 1709210096000000007 ltac:(lia))
    as (_ & _ & _ & y & mo & d & h & mi & s & _ & _ & _ & _ & _ & _ & H).
Defined.
