(* ===== verification/Cli.v ===== *)
(** * The command line's dispatch (penguin-cli-core)

    How a parsed invocation of a module command becomes the [Dispatch] request
    (dispatch.rs, flags.rs), how the reply stream becomes output and an exit
    code, how the control socket's override is found before anything is
    parsed (socket.rs), and the limits of [logs --lines] (verbs.rs). The
    argument parser itself is clap's: the class [Clap] is the part of its
    [ArgMatches] the code reads. *)
From S2P Require Import Prelude.
From S2P Require Import Text.
From S2P Require Import Sdk.

Inductive ValueSource := DefaultValue | EnvVariable | CommandLine.

#[global] Instance value_source_eq_dec : EqDecision ValueSource.
Proof. solve_decision. Defined.

(** [ArgMatches] owns the matches of the subcommand it selects, so they nest
    to a finite depth. The readers are those of ids the command declares with
    that type; [try_get_many] is [None] for an undeclared or absent id. *)
Class Clap := {
  ArgMatches : Type;
  subcommand : ArgMatches → option (string * ArgMatches);
  value_source : ArgMatches → string → option ValueSource;
  get_one_bool : ArgMatches → string → option bool;
  get_one_i64 : ArgMatches → string → option Z;
  get_one_string : ArgMatches → string → option string;
  try_get_many : ArgMatches → string → option (list string);
  depth : ArgMatches → nat;
  subcommand_nested m n m' : subcommand m = Some (n, m') → depth m' < depth m;
}.

(** ** Flags *)

Inductive FlagKind := FKString | FKBool | FKInt.

Definition flag_kind (type_name : string) : FlagKind :=
  if decide (type_name = "bool") then FKBool
  else if decide (type_name = "int") then FKInt
  else FKString.

(** ** The reply stream *)

Record DispatchChunk := mkChunk { ch_output : string; ch_exit_code : Z; ch_final : bool }.

Record DispatchOutcome := mkOutcome { oc_output : string; oc_exit_code : Z }.

Record ChunkAccumulator := mkAccumulator { ac_exit_code : Z }.

Definition accumulator_new : ChunkAccumulator := mkAccumulator 0.

Definition record (chunk : DispatchChunk) (acc : ChunkAccumulator) : string * ChunkAccumulator :=
  (ch_output chunk, if ch_final chunk then mkAccumulator (ch_exit_code chunk) else acc).

Fixpoint fold_loop (output : string) (acc : ChunkAccumulator) (chunks : list DispatchChunk) :
    DispatchOutcome :=
  match chunks with
  | [] => mkOutcome output (ac_exit_code acc)
  | chunk :: chunks' =>
      let '(text, acc) := record chunk acc in
      fold_loop (output +:+ text) acc chunks'
  end.

Definition fold_chunks (chunks : list DispatchChunk) : DispatchOutcome :=
  fold_loop "" accumulator_new chunks.

(** ** Standard input for a command without positional arguments *)

(** [strip_suffix('\n')]: one trailing newline. *)
Fixpoint strip_newline (s : string) : string :=
  match s with
  | EmptyString => ""
  | String c EmptyString => if decide (c = newline) then "" else s
  | String c s' => String c (strip_newline s')
  end.

Definition apply_stdin_fallback (args : list string) (piped_stdin : option string) : list string :=
  match args with
  | _ :: _ => args
  | [] =>
      match piped_stdin with
      | Some content => if decide (content = "") then [] else [strip_newline content]
      | None => []
      end
  end.

(** ** The socket override *)

Definition socket_value (arg : string) : option string :=
  match strip_prefix "--socket=" arg with
  | Some v => Some v
  | None => strip_prefix "-socket=" arg
  end.

Definition bare_socket (arg : string) : bool :=
  bool_decide (arg = "--socket") || bool_decide (arg = "-socket").

(** The [while] loop from one index on. *)
Fixpoint socket_loop (found : option string) (args : list string) : option string :=
  match args with
  | [] => found
  | arg :: rest =>
      match socket_value arg with
      | Some value => socket_loop (Some value) rest
      | None =>
          if bare_socket arg then
            match rest with
            | value :: rest' => socket_loop (Some value) rest'
            | [] => found
            end
          else socket_loop found rest
      end
  end.

Definition extract_socket_override (args : list string) : option string := socket_loop None args.

(** ** [logs] *)

Definition i32_max : Z := 2 ^ 31 - 1.

Definition i32_try_from (z : Z) : option Z :=
  if ((- 2 ^ 31 <=? z) && (z <=? i32_max))%Z then Some z else None.

Definition validate_lines (lines : Z) : result unit string :=
  if ((0 <=? lines) && (lines <=? 10000))%Z then Ok ()
  else Err "lines must be between 0 and 10000".

Section Cli.
  Context `{Clap}.

Definition flag_value (flag : Pb.FlagSpec) (matches : ArgMatches) : option string :=
  match flag_kind (Pb.type flag) with
  | FKBool => (λ b : bool, if b then "true" else "false") <$> get_one_bool matches (Pb.name flag)
  | FKInt => pretty <$> get_one_i64 matches (Pb.name flag)
  | FKString => get_one_string matches (Pb.name flag)
  end.

Fixpoint collect_flags (flags : gmap string string) (flag_specs : list Pb.FlagSpec)
    (matches : ArgMatches) : gmap string string :=
  match flag_specs with
  | [] => flags
  | flag :: flag_specs' =>
      let flags :=
        if decide (value_source matches (Pb.name flag) ≠ Some CommandLine) then flags
        else
          match flag_value flag matches with
          | Some value => <[Pb.name flag := value]> flags
          | None => flags
          end in
      collect_flags flags flag_specs' matches
  end.

Record DispatchRequest := mkDispatchRequest {
  dr_api_version : string;
  dr_module : string;
  dr_path : list string;
  dr_flags : gmap string string;
  dr_args : list string;
}.

(** [specs.iter().find(|spec| spec.name == name)] *)
Definition find_spec (specs : list Pb.CommandSpec) (name : string) : option Pb.CommandSpec :=
  List.find (λ spec, bool_decide (Pb.c_name spec = name)) specs.

(** The [while let] loop: [fuel] bounds the nesting of the matches still to
    be walked. *)
Fixpoint walk_loop (fuel : nat) (path : list string) (current_spec : Pb.CommandSpec)
    (current_matches : ArgMatches) : list string * Pb.CommandSpec * ArgMatches :=
  match fuel with
  | O => (path, current_spec, current_matches)
  | S fuel' =>
      match subcommand current_matches with
      | None => (path, current_spec, current_matches)
      | Some (sub_name, sub_matches) =>
          match find_spec (Pb.c_subcommands current_spec) sub_name with
          | None => (path, current_spec, current_matches)
          | Some next_spec =>
              walk_loop fuel' (path ++ [Pb.c_name next_spec]) next_spec sub_matches
          end
      end
  end.

Definition ARGS_ID : string := "args".

Definition resolve_dispatch (module : string) (specs : list Pb.CommandSpec)
    (matches : ArgMatches) : option DispatchRequest :=
  '(name, current_matches) ← subcommand matches;
  current_spec ← find_spec specs name;
  let '(path, current_spec, current_matches) :=
    walk_loop (depth current_matches) [Pb.c_name current_spec] current_spec current_matches in
  let flags := collect_flags ∅ (Pb.c_flags current_spec) current_matches in
  let args := default [] (try_get_many current_matches ARGS_ID) in
  Some (mkDispatchRequest Convert.API_VERSION module path flags args).

Definition MODULE_ARG_ID : string := "module".
Definition LINES_ARG_ID : string := "lines".
Definition FOLLOW_ARG_ID : string := "follow".

Record LogsOptions := mkLogsOptions {
  lo_module : option string;
  lo_follow : bool;
  lo_lines : Z;
}.

(** [get_flag] of a declared switch is its parsed value. *)
Definition logs_options (matches : ArgMatches) : LogsOptions :=
  let lines := default i32_max (get_one_i64 matches LINES_ARG_ID ≫= i32_try_from) in
  mkLogsOptions (get_one_string matches MODULE_ARG_ID)
    (default false (get_one_bool matches FOLLOW_ARG_ID)) lines.

(** ** Flags that were typed *)

Lemma find_unique_name (specs : list Pb.FlagSpec) f :
  NoDup (map Pb.name specs) → f ∈ specs →
  List.find (λ g, bool_decide (Pb.name g = Pb.name f)) specs = Some f.
Proof.
  induction specs as [|g specs IH]; intros Hnd Hf; [by apply not_elem_of_nil in Hf|].
  apply NoDup_cons in Hnd as [Hg Hnd]. simpl. destruct (bool_decide_reflect (Pb.name g = Pb.name f)) as [E|E].
  - apply elem_of_cons in Hf as [->|Hf]; [done|]. destruct Hg. rewrite E. by apply list_elem_of_fmap_2.
  - apply elem_of_cons in Hf as [->|Hf]; [done|]. by apply IH.
Qed.

Lemma collect_flags_spec specs matches : ∀ flags k,
  NoDup (map Pb.name specs) →
  collect_flags flags specs matches !! k =
    match List.find (λ f, bool_decide (Pb.name f = k)) specs with
    | Some f =>
        if decide (value_source matches k = Some CommandLine) then
          match flag_value f matches with Some v => Some v | None => flags !! k end
        else flags !! k
    | None => flags !! k
    end.
Proof.
  induction specs as [|f specs IH]; intros flags k Hnd; simpl; [done|].
  apply NoDup_cons in Hnd as [Hf Hnd]. rewrite IH by done.
  destruct (bool_decide_reflect (Pb.name f = k)) as [<-|Hk].
  - destruct (List.find _ specs) as [g|] eqn:E.
    { apply find_some in E as [Hg%list_elem_of_In Eg%bool_decide_eq_true]. destruct Hf.
      rewrite <- Eg. by apply list_elem_of_fmap_2. }
    destruct (decide (value_source matches (Pb.name f) = Some CommandLine)) as [Hs|Hs];
      [rewrite decide_False by auto|by rewrite decide_True by done].
    destruct (flag_value f matches); [by rewrite lookup_insert_eq|done].
  - assert (∀ v, <[Pb.name f:=v]> flags !! k = flags !! k) as Hi.
    { intros v. by rewrite lookup_insert_ne. }
    destruct (decide (value_source matches (Pb.name f) ≠ Some CommandLine)); [done|].
    destruct (flag_value f matches) as [v|]; [by rewrite Hi|done].
Qed.

(** ** The walk *)

(** The subcommands an invocation selects, outermost first. *)
Inductive invoked : ArgMatches → list string → ArgMatches → Prop :=
| invoked_leaf m : subcommand m = None → invoked m [] m
| invoked_sub m n m' p leaf :
    subcommand m = Some (n, m') → invoked m' p leaf → invoked m (n :: p) leaf.

(** The matches come from a parser that was given these commands: every
    selected subcommand is one of those declared. *)
Inductive parsed_from : list Pb.CommandSpec → ArgMatches → Prop :=
| parsed_leaf specs m : subcommand m = None → parsed_from specs m
| parsed_sub specs m n m' spec :
    subcommand m = Some (n, m') → find_spec specs n = Some spec →
    parsed_from (Pb.c_subcommands spec) m' → parsed_from specs m.

(** The command a path of names leads to, the first of a name at each level. *)
Fixpoint spec_at (specs : list Pb.CommandSpec) (path : list string) : option Pb.CommandSpec :=
  match path with
  | [] => None
  | [n] => find_spec specs n
  | n :: path' => spec ← find_spec specs n; spec_at (Pb.c_subcommands spec) path'
  end.

Lemma find_spec_name specs n spec : find_spec specs n = Some spec → Pb.c_name spec = n.
Proof. intros [_ ?%bool_decide_eq_true]%find_some. done. Qed.

Lemma walk_loop_spec fuel path spec m p leaf :
  depth m ≤ fuel → parsed_from (Pb.c_subcommands spec) m → invoked m p leaf →
  ∃ d, walk_loop fuel path spec m = (path ++ p, d, leaf) ∧
    (p = [] ∧ d = spec ∨ spec_at (Pb.c_subcommands spec) p = Some d).
Proof.
  revert path spec m p. induction fuel as [|fuel IH]; intros path spec m p Hd Hp Hi; simpl.
  - destruct Hi as [m E|m n m' p leaf E _]; [exists spec; rewrite app_nil_r; auto|].
    apply subcommand_nested in E. lia.
  - destruct Hi as [m E|m n m' p leaf E Hi]; rewrite E; [exists spec; rewrite app_nil_r; auto|].
    inversion Hp as [? ? E'|? ? n' m'' sub E' Hsub Hp']; [congruence|].
    assert (n' = n ∧ m'' = m') as [-> ->] by (split; congruence). rewrite Hsub.
    pose proof (find_spec_name _ _ _ Hsub) as Hn. apply subcommand_nested in E.
    destruct (IH (path ++ [Pb.c_name sub]) sub m' p ltac:(lia) Hp' Hi) as (d & -> & Hd').
    exists d. rewrite Hn, <- app_assoc. split; [done|right].
    destruct p as [|n2 p]; simpl; [|rewrite Hsub]; destruct Hd' as [[? ->]|?]; done.
Qed.

(** When the matches were parsed from a module's commands, resolving
    them yields a request exactly when a subcommand was invoked, and the
    request carries what was typed: the full chain of invoked names as its
    path, which leads to a declared command; that command's positional
    arguments; and, for every flag name, a value exactly when the command
    declares the flag and it was given on the command line, a default never
    being sent. *)
Theorem dispatch_is_what_was_typed (module : string) (specs : list Pb.CommandSpec)
    (m leaf : ArgMatches) (path : list string) :
  parsed_from specs m → invoked m path leaf →
  match path with
  | [] => resolve_dispatch module specs m = None
  | _ => ∃ spec req, resolve_dispatch module specs m = Some req ∧
      dr_module req = module ∧ dr_path req = path ∧ spec_at specs path = Some spec ∧
      dr_args req = default [] (try_get_many leaf ARGS_ID) ∧
      (NoDup (map Pb.name (Pb.c_flags spec)) →
       ∀ k v, dr_flags req !! k = Some v ↔
         ∃ f, f ∈ Pb.c_flags spec ∧ Pb.name f = k ∧ value_source leaf k = Some CommandLine ∧
           flag_value f leaf = Some v)
  end.
Proof.
  intros Hp Hi. unfold resolve_dispatch. destruct Hi as [m E|m n m' p leaf E Hi]; rewrite E; [done|].
  inversion Hp as [? ? E'|? ? n' m'' spec E' Hs Hp']; [congruence|].
  assert (n' = n ∧ m'' = m') as [-> ->] by (split; congruence). simpl. rewrite Hs. simpl.
  destruct (walk_loop_spec (depth m') [Pb.c_name spec] spec m' p leaf) as (d & -> & Hd); [done..|].
  rewrite (find_spec_name _ _ _ Hs). exists d. eexists. split; [reflexivity|]. simpl.
  split_and!; [done|done| |done|].
  - destruct p; simpl; destruct Hd as [[? ->]|?]; done.
  - intros Hnd k v. rewrite collect_flags_spec by done. rewrite lookup_empty. split.
    + destruct (List.find _ _) as [f|] eqn:Ef; [|done].
      apply find_some in Ef as [Hf%list_elem_of_In Ek%bool_decide_eq_true].
      destruct (decide _); [|done]. intros Hv. exists f. by destruct (flag_value f leaf).
    + intros (f & Hf & <- & Hsrc & Hv).
      assert (List.find (λ g, bool_decide (Pb.name g = Pb.name f)) (Pb.c_flags d) = Some f) as ->.
      { by apply find_unique_name. }
      by rewrite decide_True, Hv.
Qed.
End Cli.

(** ** The socket override: the last one given wins *)

Lemma socket_loop_app found l r :
  match last l with Some a => bare_socket a = false | None => True end →
  socket_loop found (l ++ r) = socket_loop (socket_loop found l) r.
Proof.
  remember (length l) as n eqn:Hn. assert (length l ≤ n) as Hle by lia. clear Hn.
  revert found l Hle. induction n as [|n IH]; intros found [|a l] Hle Hlast; simpl in *; [done|lia|done|].
  assert (match last l with Some a => bare_socket a = false | None => True end) as Hl.
  { destruct l as [|b l]; [done|]. exact Hlast. }
  destruct (socket_value a); [apply IH; [lia|done]|].
  destruct (bare_socket a) eqn:E; [|apply IH; [lia|done]].
  destruct l as [|b l]; [simpl in Hlast; congruence|]. simpl in *. apply IH; [lia|].
  destruct l as [|c l]; [done|]. exact Hlast.
Qed.

Lemma socket_loop_absent found args :
  Forall (λ a, socket_value a = None ∧ bare_socket a = false) args → socket_loop found args = found.
Proof. induction 1 as [|a l [E1 E2] Hl IH]; simpl; [done|]. by rewrite E1, E2. Qed.

(** The last override wins, in either spelling and in any position, provided
    the argument before it is not itself a flag still waiting for its value. *)
Lemma socket_override_last (before after : list string) (v : string) :
  match last before with Some a => bare_socket a = false | None => True end →
  Forall (λ a, socket_value a = None ∧ bare_socket a = false) after →
  extract_socket_override (before ++ ("--socket=" +:+ v) :: after) = Some v ∧
  extract_socket_override (before ++ "--socket" :: v :: after) = Some v.
Proof.
  intros Hb Ha. unfold extract_socket_override. rewrite !socket_loop_app by done.
  assert (socket_value ("--socket=" +:+ v) = Some v) as E by (unfold socket_value; by rewrite strip_prefix_app).
  assert (socket_value "--socket" = None ∧ bare_socket "--socket" = true) as [E1 E2] by by vm_compute.
  split; cbn [socket_loop]; [rewrite E|rewrite E1, E2]; by apply socket_loop_absent.
Qed.

(** ** The reply stream: the exit code of the last final chunk *)

Definition text_of (chunks : list DispatchChunk) : string :=
  foldr (λ c s, ch_output c +:+ s) "" chunks.

Lemma fold_chunks_spec chunks :
  fold_chunks chunks =
    mkOutcome (text_of chunks)
      (default 0%Z (last (ch_exit_code <$> filter (λ c, ch_final c = true) chunks))).
Proof.
  assert (∀ out acc, fold_loop out acc chunks =
    mkOutcome (out +:+ text_of chunks)
      (default (ac_exit_code acc)
         (last (ch_exit_code <$> filter (λ c, ch_final c = true) chunks)))) as E; [|apply E].
  induction chunks as [|c chunks IH]; intros out acc; simpl.
  { by rewrite string_app_nil_r. }
  rewrite IH, string_app_assoc. rewrite filter_cons.
  destruct (ch_final c) eqn:Ef; [rewrite decide_True by done|by rewrite decide_False].
  rewrite fmap_cons, last_cons. by destruct (last _).
Qed.

(** ** A line count that does not fit an [i32] is refused, never wrapped *)

Lemma logs_lines_checked `{Clap} m z :
  get_one_i64 m LINES_ARG_ID = Some z →
  validate_lines (lo_lines (logs_options m)) =
    if ((0 <=? z) && (z <=? 10000))%Z then Ok () else Err "lines must be between 0 and 10000".
Proof.
  intros E. unfold logs_options, i32_try_from, i32_max. simpl. rewrite E. simpl.
  destruct (Z.leb_spec (- 2 ^ 31) z), (Z.leb_spec z (2 ^ 31 - 1)); simpl; [done|..];
    unfold validate_lines; destruct (Z.leb_spec 0 z), (Z.leb_spec z 10000); simpl; try done; lia.
Qed.

(** ** A parsed invocation *)

Module CliWitness.

(** Matches as nested data. *)
Inductive M := mkM {
  m_sub : option (string * M);
  m_strings : list (string * string);
  m_args : option (list string);
}.

Fixpoint m_depth (m : M) : nat :=
  match m_sub m with Some (_, m') => S (m_depth m') | None => O end.

#[local] Program Instance nested : Clap := {|
  ArgMatches := M;
  subcommand := m_sub;
  value_source m k := _ ← (list_to_map (m_strings m) : gmap string string) !! k; Some CommandLine;
  get_one_bool m k := None;
  get_one_i64 m k := None;
  get_one_string m k := (list_to_map (m_strings m) : gmap string string) !! k;
  try_get_many m k := m_args m;
  depth := m_depth;
|}.
Next Obligation. intros [[[n' m0]|] ? ?] n m' E; simplify_eq/=; lia. Qed.

Definition server_flag : Pb.FlagSpec := Pb.mkFlagSpec "server" "s" "" "dns0" "string".
Definition query_spec : Pb.CommandSpec := Pb.mkCommandSpec "query" "" "" [server_flag] [] false 1 1.
Definition dns_spec : Pb.CommandSpec := Pb.mkCommandSpec "dns" "" "" [] [query_spec] false 0 0.
Definition leaf : @ArgMatches nested := mkM None [("server", "ns1")] (Some ["example.org"]).
Definition typed : @ArgMatches nested := mkM (Some ("dns", mkM (Some ("query", leaf)) [] None)) [] None.

Lemma dispatch_is_what_was_typed_witness :
  ∃ req, resolve_dispatch "squawk" [dns_spec] typed = Some req ∧
    dr_path req = ["dns"; "query"] ∧ dr_args req = ["example.org"].
Proof.
  destruct (dispatch_is_what_was_typed "squawk" [dns_spec] typed leaf ["dns"; "query"])
    as (spec & req & E & _ & Hp & _ & Ha & _).
  - eapply parsed_sub; [reflexivity..|]. eapply parsed_sub; [reflexivity..|]. by apply parsed_leaf.
  - eapply invoked_sub; [reflexivity|]. eapply invoked_sub; [reflexivity|]. by apply invoked_leaf.
  - exists req. auto.
Defined.
End CliWitness.
