(* ===== verification/Bridge.v ===== *)
(** * The bot module's local bridge (penguin-module-waddlebot/src/bridge)

    Local scripts reach the hub through the bridge with narrow credentials of
    its own: the scopes and operations (scope.rs), the registry of names and
    bearer tokens (token.rs), the relay that makes the hub calls and scrubs the
    module's own secret out of what comes back (relay.rs, state.rs), the two
    transports (http.rs, unixsock.rs) and their start and stop (mod.rs). *)
From S2P Require Import Prelude.
From S2P Require Import Text.
From S2P Require Import Json.
From S2P Require Import Mask.
From S2P Require Import Ipc.

(** ** Scopes and operations *)

Inductive Scope :=
| ScStatus
| MusicRead
| MusicWrite
| AnnouncementRead
| AnnouncementWrite
| BrowserSourceRead.

#[global] Instance scope_eq_dec : EqDecision Scope.
Proof. solve_decision. Defined.

Definition scope_index (s : Scope) : nat :=
  match s with
  | ScStatus => 0 | MusicRead => 1 | MusicWrite => 2
  | AnnouncementRead => 3 | AnnouncementWrite => 4 | BrowserSourceRead => 5
  end.

Definition scope_of_index (n : nat) : option Scope :=
  [ScStatus; MusicRead; MusicWrite; AnnouncementRead; AnnouncementWrite; BrowserSourceRead] !! n.

#[global] Program Instance scope_countable : Countable Scope :=
  inj_countable scope_index scope_of_index _.
Next Obligation. by intros []. Qed.

Definition scope_all : gset Scope :=
  {[ ScStatus; MusicRead; MusicWrite; AnnouncementRead; AnnouncementWrite; BrowserSourceRead ]}.

Inductive Operation :=
| GetStatus
| GetMusicSettings
| UpdateMusicSettings
| ListAnnouncements
| CreateAnnouncement
| ListBrowserSources.

#[global] Instance operation_eq_dec : EqDecision Operation.
Proof. solve_decision. Defined.

Definition operation_parse (name : string) : option Operation :=
  if decide (name = "status") then Some GetStatus
  else if decide (name = "music.get") then Some GetMusicSettings
  else if decide (name = "music.update") then Some UpdateMusicSettings
  else if decide (name = "announcements.list") then Some ListAnnouncements
  else if decide (name = "announcements.create") then Some CreateAnnouncement
  else if decide (name = "browser_sources.list") then Some ListBrowserSources
  else None.

Definition required_scope (op : Operation) : Scope :=
  match op with
  | GetStatus => ScStatus
  | GetMusicSettings => MusicRead
  | UpdateMusicSettings => MusicWrite
  | ListAnnouncements => AnnouncementRead
  | CreateAnnouncement => AnnouncementWrite
  | ListBrowserSources => BrowserSourceRead
  end.

(** ** The token registry *)

Record ScriptIdentity := mkIdentity { id_name : string; id_scopes : gset Scope }.

Definition TOKEN_PREFIX : string := "wdlbridge_".

Record TokenRegistry := mkRegistry {
  scopes_by_name : gmap string (gset Scope);
  token_to_name : gmap string string;
}.

Definition registry_new : TokenRegistry := mkRegistry ∅ ∅.

Definition register (name : string) (scopes : gset Scope) (r : TokenRegistry) : TokenRegistry :=
  mkRegistry (<[name := scopes]> (scopes_by_name r)) (token_to_name r).

(** [retain(|_token, owner| owner != name)] *)
Definition drop_owner (name : string) (m : gmap string string) : gmap string string :=
  filter (λ p, p.2 ≠ name) m.

(** [random] is the text of [random_hex(TOKEN_ENTROPY_BYTES)]. *)
Definition mint (name random : string) (r : TokenRegistry) : option string * TokenRegistry :=
  match scopes_by_name r !! name with
  | None => (None, r)
  | Some _ =>
      let token := TOKEN_PREFIX +:+ random in
      (Some token,
       mkRegistry (scopes_by_name r) (<[token := name]> (drop_owner name (token_to_name r))))
  end.

Definition revoke (name : string) (r : TokenRegistry) : TokenRegistry :=
  mkRegistry (scopes_by_name r) (drop_owner name (token_to_name r)).

Definition authorize_token (token : string) (r : TokenRegistry) : option ScriptIdentity :=
  if decide (token = "") then None
  else
    name ← token_to_name r !! token;
    scopes ← scopes_by_name r !! name;
    Some (mkIdentity name scopes).

Definition identity_for_name (name : string) (r : TokenRegistry) : option ScriptIdentity :=
  scopes ← scopes_by_name r !! name;
  Some (mkIdentity name scopes).

(** ** Hub calls *)

(** The fields of the client's models that the bridge renders. *)
Record Community := mkCommunity {
  cm_id : Z; cm_name : string; cm_display_name : string; cm_role : string }.
Record MusicSettings := mkMusicSettings {
  ms_default_provider : option string; ms_autoplay_enabled : bool; ms_volume_limit : Z;
  ms_allowed_genres : list string; ms_blocked_artists : list string;
  ms_require_dj_approval : bool; ms_is_active : bool }.
Record Announcement := mkAnnouncement {
  an_id : Z; an_title : string; an_content : string; an_status : string;
  an_announcement_type : string; an_is_pinned : bool }.
Record BrowserSource := mkBrowserSource {
  bs_source_type : string; bs_url : string; bs_is_active : bool }.

Record MusicSettingsUpdate := mkMusicUpdate {
  up_default_provider : option string; up_autoplay_enabled : option bool;
  up_volume_limit : option Z; up_allowed_genres : option (list string);
  up_blocked_artists : option (list string); up_require_dj_approval : option bool;
  up_is_active : option bool }.
Record AnnouncementParams := mkAnnouncementParams {
  ap_title : string; ap_content : string; ap_announcement_type : option string;
  ap_is_pinned : option bool; ap_status : option string }.

(** The hub client; an error is the text it displays as. *)
Class Hub (W : Type) := {
  list_my_communities : W → result (list Community) string * W;
  get_music_settings : W → result MusicSettings string * W;
  update_music_settings : MusicSettingsUpdate → W → result MusicSettings string * W;
  list_announcements : option string → W → result (list Announcement) string * W;
  create_announcement : AnnouncementParams → W → result Announcement string * W;
  list_browser_sources : W → result (list BrowserSource) string * W;
}.

Inductive RelayError :=
| InvalidParams (message : string)
| HubError (message : string).

Definition RelayError_display (e : RelayError) : string :=
  match e with
  | InvalidParams m => "invalid params: " +:+ m
  | HubError m => "hub error: " +:+ m
  end.

Definition community_json (c : Community) : Value :=
  JObject [("id", JInt (cm_id c)); ("name", JString (cm_name c));
           ("display_name", JString (cm_display_name c)); ("role", JString (cm_role c))].

Definition music_settings_json (s : MusicSettings) : Value :=
  JObject [("default_provider", of_option JString (ms_default_provider s));
           ("autoplay_enabled", JBool (ms_autoplay_enabled s));
           ("volume_limit", JInt (ms_volume_limit s));
           ("allowed_genres", JArray (map JString (ms_allowed_genres s)));
           ("blocked_artists", JArray (map JString (ms_blocked_artists s)));
           ("require_dj_approval", JBool (ms_require_dj_approval s));
           ("is_active", JBool (ms_is_active s))].

Definition announcement_json (a : Announcement) : Value :=
  JObject [("id", JInt (an_id a)); ("title", JString (an_title a));
           ("content", JString (an_content a)); ("status", JString (an_status a));
           ("announcement_type", JString (an_announcement_type a));
           ("is_pinned", JBool (an_is_pinned a))].

Definition browser_source_json (s : BrowserSource) : Value :=
  JObject [("source_type", JString (bs_source_type s)); ("url", JString (bs_url s));
           ("is_active", JBool (bs_is_active s))].

Definition string_array (values : list Value) : list string := omap as_str values.

Definition music_settings_update_from_params (params : Value) : MusicSettingsUpdate :=
  mkMusicUpdate (get params "default_provider" ≫= as_str)
    (get params "autoplay_enabled" ≫= as_bool) (get params "volume_limit" ≫= as_i64)
    (string_array <$> (get params "allowed_genres" ≫= as_array))
    (string_array <$> (get params "blocked_artists" ≫= as_array))
    (get params "require_dj_approval" ≫= as_bool) (get params "is_active" ≫= as_bool).

Definition quote : string := String (Ascii.ascii_of_nat 34) "".

Definition announcement_params (params : Value) : result AnnouncementParams RelayError :=
  match get params "title" ≫= as_str with
  | None => Err (InvalidParams (quote +:+ "title" +:+ quote +:+ " is required"))
  | Some title =>
    match get params "content" ≫= as_str with
    | None => Err (InvalidParams (quote +:+ "content" +:+ quote +:+ " is required"))
    | Some content =>
        Ok (mkAnnouncementParams title content (get params "announcement_type" ≫= as_str)
              (get params "is_pinned" ≫= as_bool) (get params "status" ≫= as_str))
    end
  end.

(** ** The bridge *)

Record RpcRequest := mkRequest {
  rq_integration : string; rq_token : string; rq_op : string; rq_params : Value }.

Record RpcResponse := mkResponse {
  rs_ok : bool; rs_result : option Value; rs_error : option string }.

Definition response_ok (result : Value) : RpcResponse := mkResponse true (Some result) None.
Definition response_err (message : string) : RpcResponse := mkResponse false None (Some message).

Inductive ScopedRelayError := OutOfScope | RelayFailed (e : RelayError).

Definition UNAUTHORIZED : Z := 401.
Definition FORBIDDEN : Z := 403.
Definition OK_STATUS : Z := 200.
Definition BAD_GATEWAY : Z := 502.

Section Bridge.
  Context {W : Type} `{Hub W}.

(** What the module and the bridge share: the registry, the hub, the request
    and error counters of [WaddlebotModule::call], and the operations that
    reached the hub. *)
Record BridgeState := mkBridge {
  br_cat : string;
  br_tokens : TokenRegistry;
  br_world : W;
  br_requests_total : Z;
  br_errors_total : Z;
  br_calls : list Operation;
}.

Definition after_call (op : Operation) (failed : bool) (w : W) (s : BridgeState) : BridgeState :=
  mkBridge (br_cat s) (br_tokens s) w (br_requests_total s + 1)
    (if failed then (br_errors_total s + 1)%Z else br_errors_total s) (br_calls s ++ [op]).

(** [module.call(..).await.map_err(hub_error)], then the rendering. *)
Definition call {A} (op : Operation) (f : W → result A string * W) (render : A → Value)
    (s : BridgeState) : result Value RelayError * BridgeState :=
  let '(r, w) := f (br_world s) in
  match r with
  | Ok a => (Ok (render a), after_call op false w s)
  | Err message => (Err (HubError message), after_call op true w s)
  end.

Definition dispatch (op : Operation) (params : Value) (s : BridgeState) :
    result Value RelayError * BridgeState :=
  match op with
  | GetStatus =>
      call op list_my_communities
        (λ cs, JObject [("communities", JArray (map community_json cs))]) s
  | GetMusicSettings => call op get_music_settings music_settings_json s
  | UpdateMusicSettings =>
      call op (update_music_settings (music_settings_update_from_params params))
        music_settings_json s
  | ListAnnouncements =>
      call op (list_announcements (get params "status" ≫= as_str))
        (λ l, JObject [("announcements", JArray (map announcement_json l))]) s
  | CreateAnnouncement =>
      match announcement_params params with
      | Err e => (Err e, s)
      | Ok params => call op (create_announcement params) announcement_json s
      end
  | ListBrowserSources =>
      call op list_browser_sources
        (λ l, JObject [("sources", JArray (map browser_source_json l))]) s
  end.

(** [relay::relay] *)
Definition relay_scrubbed (op : Operation) (params : Value) (s : BridgeState) :
    result Value RelayError * BridgeState :=
  let cat := br_cat s in
  let '(r, s) := dispatch op params s in
  (match r with
   | Ok value => Ok (scrub_value value cat)
   | Err (InvalidParams message) => Err (InvalidParams (scrub_string message cat))
   | Err (HubError message) => Err (HubError (scrub_string message cat))
   end, s).

(** [BridgeState::relay] *)
Definition relay (identity : ScriptIdentity) (op : Operation) (params : Value) (s : BridgeState) :
    result Value ScopedRelayError * BridgeState :=
  if decide (required_scope op ∈ id_scopes identity) then
    let '(r, s) := relay_scrubbed op params s in (map_err RelayFailed r, s)
  else (Err OutOfScope, s).

Definition not_permitted : string := "integration is not permitted to invoke this operation".

Definition rpc_handler (request : RpcRequest) (s : BridgeState) :
    (Z * RpcResponse) * BridgeState :=
  match authorize_token (rq_token request) (br_tokens s) with
  | None => ((UNAUTHORIZED, response_err "invalid or missing token"), s)
  | Some identity =>
    if decide (id_name identity ≠ rq_integration request) then
      ((UNAUTHORIZED, response_err "token does not match integration"), s)
    else
      match operation_parse (rq_op request) with
      | None => ((FORBIDDEN, response_err ("unknown operation: " +:+ rq_op request)), s)
      | Some op =>
        let '(r, s) := relay identity op (rq_params request) s in
        (match r with
         | Ok result => (OK_STATUS, response_ok result)
         | Err OutOfScope => (FORBIDDEN, response_err not_permitted)
         | Err (RelayFailed err) => (BAD_GATEWAY, response_err (RelayError_display err))
         end, s)
      end
  end.

(** [unixsock::handle_request] of a line that parsed. *)
Definition handle_parsed (request : RpcRequest) (s : BridgeState) : RpcResponse * BridgeState :=
  match identity_for_name (rq_integration request) (br_tokens s) with
  | None => (response_err "unknown integration", s)
  | Some identity =>
    match operation_parse (rq_op request) with
    | None => (response_err ("unknown operation: " +:+ rq_op request), s)
    | Some op =>
      let '(r, s) := relay identity op (rq_params request) s in
      (match r with
       | Ok result => response_ok result
       | Err OutOfScope => response_err not_permitted
       | Err (RelayFailed err) => response_err (RelayError_display err)
       end, s)
    end
  end.

(** ** The unix transport *)

(** [serde_json::from_str] of a line without its trailing white space. *)
Context (parse_request : string → result RpcRequest string).

Definition handle_request (raw : string) (s : BridgeState) : RpcResponse * BridgeState :=
  match parse_request raw with
  | Err err => (response_err ("invalid request: " +:+ err), s)
  | Ok request => handle_parsed request s
  end.

Record UnixAuth := mkUnixAuth { ua_self_uid : Z; ua_allowed_group : string }.

Section Unix.
  Context `{GroupResolver}.

Definition authorize_connection (creds : option PeerCredentials) (auth : UnixAuth) :
    result unit AuthError :=
  check_peer creds (ua_self_uid auth) (ua_allowed_group auth).

(** The request loop of [handle_connection]: [reads] are the lines as the
    peer sends them ([Err] a read error, the end of the list the end of the
    stream), [writes] whether each reply could be written.  The result is the
    replies written. *)
Fixpoint connection_loop (reads : list (result string unit)) (writes : list bool)
    (s : BridgeState) : list RpcResponse * BridgeState :=
  match reads with
  | [] | Err _ :: _ => ([], s)
  | Ok line :: reads' =>
      if decide (line = "") then ([], s)
      else
        let '(response, s) := handle_request line s in
        match writes with
        | true :: writes' =>
            let '(rest, s) := connection_loop reads' writes' s in (response :: rest, s)
        | _ => ([], s)
        end
  end.

Definition handle_connection (creds : option PeerCredentials) (auth : UnixAuth)
    (reads : list (result string unit)) (writes : list bool) (s : BridgeState) :
    list RpcResponse * BridgeState :=
  match authorize_connection creds auth with
  | Err _ => ([], s)
  | Ok _ => connection_loop reads writes s
  end.
End Unix.

(** ** The event stream's handshake *)

Definition ampersand : Ascii.ascii := Ascii.ascii_of_nat 38.
Definition equals : Ascii.ascii := Ascii.ascii_of_nat 61.

(** [splitn(2, '=')]: the part before the first sign and the part after. *)
Fixpoint split_pair (s : string) : string * string :=
  match s with
  | EmptyString => ("", "")
  | String c s' =>
      if decide (c = equals) then ("", s')
      else let '(k, v) := split_pair s' in (String c k, v)
  end.

Definition parse_query_pairs (raw : string) : gmap string string :=
  foldl (λ m pair, if decide (pair = "") then m
                   else let '(k, v) := split_pair pair in <[k := v]> m)
    ∅ (split_on ampersand raw).

(** Whether [ws_handler] upgrades the connection, or its refusal. *)
Definition ws_handler (query : option string) (s : BridgeState) : result unit (Z * string) :=
  let pairs := parse_query_pairs (default "" query) in
  let token := default "" (pairs !! "token") in
  let integration := default "" (pairs !! "integration") in
  match authorize_token token (br_tokens s) with
  | None => Err (UNAUTHORIZED, "invalid or missing token")
  | Some identity =>
      if decide (id_name identity ≠ integration)
      then Err (UNAUTHORIZED, "token does not match integration")
      else Ok ()
  end.
End Bridge.

Arguments BridgeState W : clear implicits.

(** ** Start and stop *)

Record BridgeSection := mkBridgeSection {
  bc_listen_tcp : string;
  bc_listen_unix : string;
  bc_allowed_integrations : list string;
}.

Inductive BridgeError :=
| NonLoopbackTcp (addr : string)
| InvalidTcpAddr (addr source : string)
| TcpBind (addr source : string)
| UnixBind (source : string)
| AdapterAttach (name source : string).

(** Addresses and the outcome of binding them. *)
Class BridgeNet := {
  Addr : Type;
  parse_addr : string → result Addr string;
  is_loopback : Addr → bool;
  tcp_bind : Addr → result unit string;
  unix_bind : string → result unit string;
}.

Section Start.
  Context `{BridgeNet}.

(** The servers accepting connections. *)
Record Listening := mkListening { ls_tcp : list Addr; ls_unix : list string }.

Record BridgeHandle := mkHandle { bh_tcp : option Addr; bh_unix : option string }.

Definition start_tcp (cfg : BridgeSection) (l : Listening) :
    result (option Addr) BridgeError * Listening :=
  if decide (bc_listen_tcp cfg = "") then (Ok None, l)
  else
    match parse_addr (bc_listen_tcp cfg) with
    | Err source => (Err (InvalidTcpAddr (bc_listen_tcp cfg) source), l)
    | Ok addr =>
      if negb (is_loopback addr) then (Err (NonLoopbackTcp (bc_listen_tcp cfg)), l)
      else
        match tcp_bind addr with
        | Err source => (Err (TcpBind (bc_listen_tcp cfg) source), l)
        | Ok _ => (Ok (Some addr), mkListening (ls_tcp l ++ [addr]) (ls_unix l))
        end
    end.

Definition start_unix (cfg : BridgeSection) (l : Listening) :
    result (option string) BridgeError * Listening :=
  if decide (bc_listen_unix cfg = "") then (Ok None, l)
  else
    match unix_bind (bc_listen_unix cfg) with
    | Err source => (Err (UnixBind source), l)
    | Ok _ =>
        (Ok (Some (bc_listen_unix cfg)),
         mkListening (ls_tcp l) (ls_unix l ++ [bc_listen_unix cfg]))
    end.

(** [adapters]: each adapter's name and what its [attach] returns. *)
Fixpoint attach_all (adapters : list (string * result unit string)) : result unit BridgeError :=
  match adapters with
  | [] => Ok ()
  | (name, Ok _) :: rest => attach_all rest
  | (name, Err source) :: _ => Err (AdapterAttach name source)
  end.

(** Each allowed name is registered with every scope and given a token; the
    [randoms] are those of the successive [mint]s. *)
Fixpoint register_all (names randoms : list string) (r : TokenRegistry) : TokenRegistry :=
  match names with
  | [] => r
  | name :: names' =>
      let r := register name scope_all r in
      register_all names' (tail randoms) (mint name (default "" (head randoms)) r).2
  end.

Definition start (cfg : BridgeSection) (randoms : list string)
    (adapters : list (string * result unit string)) (l : Listening) :
    result (BridgeHandle * TokenRegistry) BridgeError * Listening :=
  let tokens := register_all (bc_allowed_integrations cfg) randoms registry_new in
  let '(tcp, l) := start_tcp cfg l in
  match tcp with
  | Err e => (Err e, l)
  | Ok tcp =>
    let '(unix, l) := start_unix cfg l in
    match unix with
    | Err e => (Err e, l)
    | Ok unix =>
      match attach_all adapters with
      | Err e => (Err e, l)
      | Ok _ => (Ok (mkHandle tcp unix, tokens), l)
      end
    end
  end.

(** [BridgeHandle::stop]: the accept loops of the handle's transports end. *)
Definition stop (handle : BridgeHandle) (l : Listening) `{EqDecision Addr} : Listening :=
  mkListening (filter (λ a, bh_tcp handle ≠ Some a) (ls_tcp l))
    (filter (λ p, bh_unix handle ≠ Some p) (ls_unix l)).
End Start.

(** ** The registry as a history *)

Inductive TokenOp :=
| OpRegister (name : string) (scopes : gset Scope)
| OpMint (name random : string)
| OpRevoke (name : string).

Definition token_step (r : TokenRegistry) (op : TokenOp) : TokenRegistry :=
  match op with
  | OpRegister name scopes => register name scopes r
  | OpMint name random => (mint name random r).2
  | OpRevoke name => revoke name r
  end.

Definition registry_after (ops : list TokenOp) : TokenRegistry := foldl token_step registry_new ops.

(** What a history, latest first, grants a name, and the token it left it. *)
Fixpoint granted (h : list TokenOp) (name : string) : option (gset Scope) :=
  match h with
  | [] => None
  | OpRegister n scopes :: h' => if decide (n = name) then Some scopes else granted h' name
  | _ :: h' => granted h' name
  end.

Fixpoint token_of (h : list TokenOp) (name : string) : option string :=
  match h with
  | [] => None
  | OpRegister _ _ :: h' => token_of h' name
  | OpRevoke n :: h' => if decide (n = name) then None else token_of h' name
  | OpMint n random :: h' =>
      let token := TOKEN_PREFIX +:+ random in
      match granted h' n with
      | None => token_of h' name
      | Some _ =>
          if decide (n = name) then Some token
          else if decide (token_of h' name = Some token) then None
          else token_of h' name
      end
  end.

Lemma registry_after_snoc ops op : registry_after (ops ++ [op]) = token_step (registry_after ops) op.
Proof. unfold registry_after. by rewrite foldl_app. Qed.

Lemma drop_owner_lookup name m t n :
  drop_owner name m !! t = Some n ↔ m !! t = Some n ∧ n ≠ name.
Proof. unfold drop_owner. by rewrite map_lookup_filter_Some. Qed.

Lemma granted_spec ops name :
  scopes_by_name (registry_after ops) !! name = granted (reverse ops) name.
Proof.
  induction ops as [|op ops IH] using rev_ind; [done|].
  rewrite registry_after_snoc, reverse_app. simpl.
  destruct op as [n sc|n rnd|n]; simpl.
  - rewrite lookup_insert. destruct (decide (n = name)); [done|exact IH].
  - unfold mint. destruct (scopes_by_name (registry_after ops) !! n); exact IH.
  - exact IH.
Qed.

Lemma token_of_spec ops name t :
  token_to_name (registry_after ops) !! t = Some name ↔ token_of (reverse ops) name = Some t.
Proof.
  revert name t. induction ops as [|op ops IH] using rev_ind; intros name t; [done|].
  rewrite registry_after_snoc, reverse_app. simpl.
  destruct op as [n sc|n rnd|n]; simpl; [apply IH| |].
  - unfold mint. rewrite granted_spec. destruct (granted (reverse ops) n); [simpl|apply IH].
    rewrite lookup_insert. destruct (decide (TOKEN_PREFIX +:+ rnd = t)) as [<-|Ht].
    + destruct (decide (n = name)) as [->|Hn]; [done|]. split; [intros [= ->]; done|].
      destruct (decide (token_of (reverse ops) name = _)); congruence.
    + rewrite drop_owner_lookup, IH. destruct (decide (n = name)) as [->|Hn]; [naive_solver|].
      destruct (decide (token_of (reverse ops) name = _)) as [E|]; [|naive_solver].
      rewrite E. naive_solver.
  - rewrite drop_owner_lookup, IH. destruct (decide (n = name)); naive_solver.
Qed.

Lemma token_of_not_empty h name : token_of h name ≠ Some "".
Proof.
  induction h as [|[| |] h IH]; simpl; [done|done| |].
  - destruct (granted h name0); [|done]. repeat case_decide; done.
  - by case_decide.
Qed.

Lemma authorize_token_spec ops token name scopes :
  authorize_token token (registry_after ops) = Some (mkIdentity name scopes) ↔
  token_of (reverse ops) name = Some token ∧ granted (reverse ops) name = Some scopes.
Proof.
  unfold authorize_token. destruct (decide (token = "")) as [->|Hne].
  { split; [done|]. intros [[]%token_of_not_empty _]. }
  rewrite <- token_of_spec.
  destruct (token_to_name (registry_after ops) !! token) as [n|]; simpl; [|naive_solver].
  rewrite granted_spec. destruct (granted (reverse ops) n) as [sc|] eqn:E; simpl; naive_solver.
Qed.

Lemma identity_for_name_spec ops name identity :
  identity_for_name name (registry_after ops) = Some identity ↔
  id_name identity = name ∧ granted (reverse ops) name = Some (id_scopes identity).
Proof.
  unfold identity_for_name. rewrite granted_spec. destruct identity as [n sc].
  destruct (granted (reverse ops) name); simpl; naive_solver.
Qed.

Lemma token_of_granted h token name : token_of h name = Some token → is_Some (granted h name).
Proof.
  induction h as [|[n sc|n rnd|n] h IH]; simpl; [done| | |].
  - intros Ht. destruct (decide (n = name)); [done|]. by apply IH.
  - destruct (granted h n) eqn:E; [|done]. destruct (decide (n = name)) as [->|]; [by rewrite E|].
    destruct (decide (token_of h name = _)); [done|apply IH].
  - destruct (decide (n = name)); [done|apply IH].
Qed.

(** The token registry implements its contract over every history of
    registrations, mints and revocations: a token is accepted exactly while
    it is the last one minted for a registered name (neither revoked nor
    replaced since, and not handed to another name), with the scopes last
    registered for that name; no two names share a token and no name has two;
    the unix transport resolves a name to the same scopes. *)
Theorem registry_refines_history (ops : list TokenOp) :
  let r := registry_after ops in
  let h := reverse ops in
  (∀ token name scopes,
     authorize_token token r = Some (mkIdentity name scopes) ↔
     token_of h name = Some token ∧ granted h name = Some scopes) ∧
  (∀ name scopes,
     identity_for_name name r = Some (mkIdentity name scopes) ↔ granted h name = Some scopes) ∧
  (∀ token n n', token_of h n = Some token → token_of h n' = Some token → n = n') ∧
  (∀ token name, token_of h name = Some token → is_Some (granted h name)).
Proof.
  cbv zeta. split_and!.
  - intros. apply authorize_token_spec.
  - intros. rewrite identity_for_name_spec. naive_solver.
  - intros token n n' H1 H2. apply token_of_spec in H1, H2. congruence.
  - intros token name. apply token_of_granted.
Qed.

(** ** What reaches the hub *)

Section BridgeFacts.
  Context {W : Type} `{Hub W}.

Lemma call_effect {A} op (f : W → result A string * W) render s r s' :
  call op f render s = (r, s') →
  br_calls s' = br_calls s ++ [op] ∧ br_tokens s' = br_tokens s ∧ br_cat s' = br_cat s ∧
  br_requests_total s' = (br_requests_total s + 1)%Z ∧
  br_errors_total s' = (br_errors_total s + if is_ok r then 0 else 1)%Z.
Proof.
  unfold call. destruct (f (br_world s)) as [[a|e] w]; intros [= <- <-]; simpl;
    split_and!; try done; lia.
Qed.

Lemma dispatch_effect op params s r s' :
  dispatch op params s = (r, s') →
  (br_calls s' = br_calls s ∨ br_calls s' = br_calls s ++ [op]) ∧
  br_tokens s' = br_tokens s ∧ br_cat s' = br_cat s.
Proof.
  destruct op; simpl; try by intros (? & ? & ? & _)%call_effect; auto.
  destruct (announcement_params params); [by intros (? & ? & ? & _)%call_effect; auto|].
  by intros [= _ <-]; auto.
Qed.

Lemma relay_effect identity op params s r s' :
  relay identity op params s = (r, s') →
  (br_calls s' = br_calls s ∨
   br_calls s' = br_calls s ++ [op] ∧ required_scope op ∈ id_scopes identity) ∧
  br_tokens s' = br_tokens s ∧ br_cat s' = br_cat s.
Proof.
  unfold relay, relay_scrubbed. destruct (decide (required_scope op ∈ id_scopes identity));
    [|by intros [= _ <-]; auto].
  destruct (dispatch op params s) as [v s1] eqn:E. intros [= _ <-].
  apply dispatch_effect in E as ([->| ->] & -> & ->); auto.
Qed.

(** C18: Whatever a script sends over either transport, at most one hub call
    is made, and only the operation it named, when that operation's scope is
    among those last registered for the integration it named; over TCP the
    request must also carry that integration's live token, and the answer is
    401 exactly when it does not.  The registry is never changed by a
    request. *)
Theorem bridge_calls_only_in_scope (ops : list TokenOp) (request : RpcRequest) (s : BridgeState W) :
  br_tokens s = registry_after ops →
  let h := reverse ops in
  let may_call (op : Operation) :=
    ∃ scopes, operation_parse (rq_op request) = Some op ∧
      granted h (rq_integration request) = Some scopes ∧ required_scope op ∈ scopes in
  let live := token_of h (rq_integration request) = Some (rq_token request) in
  (let '((status, response), s') := rpc_handler request s in
   (br_calls s' = br_calls s ∨ ∃ op, br_calls s' = br_calls s ++ [op] ∧ may_call op ∧ live) ∧
   (status = UNAUTHORIZED ↔ ¬ live) ∧ (rs_ok response = true ↔ status = OK_STATUS) ∧
   br_tokens s' = br_tokens s) ∧
  (let '(response, s') := handle_parsed request s in
   (br_calls s' = br_calls s ∨ ∃ op, br_calls s' = br_calls s ++ [op] ∧ may_call op) ∧
   br_tokens s' = br_tokens s).
Proof.
  intros Hr h may_call live. split.
  - unfold rpc_handler. rewrite Hr.
    destruct (authorize_token (rq_token request) (registry_after ops)) as [[n sc]|] eqn:Ea.
    2: { split_and!; [by left| |done|by rewrite Hr]. split; [intros _ Hl|done].
         destruct (token_of_granted _ _ _ Hl) as [sc Hsc].
         by rewrite (proj2 (authorize_token_spec ops _ _ _) (conj Hl Hsc)) in Ea. }
    apply authorize_token_spec in Ea as [Ht Hg]. simpl.
    destruct (decide (n ≠ rq_integration request)) as [Hn|Hn].
    { split_and!; [by left| |done|by rewrite Hr]. split; [intros _ Hl|done]. apply Hn.
      apply token_of_spec in Ht, Hl. congruence. }
    apply dec_stable in Hn as ->.
    destruct (operation_parse (rq_op request)) as [op|] eqn:Eo.
    2: { split_and!; [by left| |done|by rewrite Hr]. split; [done|intros Hl; by destruct Hl]. }
    destruct (relay _ op _ s) as [r s'] eqn:Er. apply relay_effect in Er as (Hc & Htk & _).
    assert (br_calls s' = br_calls s ∨ ∃ op, br_calls s' = br_calls s ++ [op] ∧ may_call op ∧ live)
      as Hcalls.
    { destruct Hc as [?|[? Hin]]; [by left|right]. exists op. split_and!; [done| |done]. by exists sc. }
    destruct r as [v|[|e]]; (split_and!; [done| | |by rewrite Htk, Hr]); (split; [done|]);
      first [done | intros Hl; by destruct Hl].
  - unfold handle_parsed. rewrite Hr.
    destruct (identity_for_name _ _) as [identity|] eqn:Ei; [|by split; [left|rewrite Hr]].
    apply identity_for_name_spec in Ei as [_ Hg].
    destruct (operation_parse (rq_op request)) as [op|] eqn:Eo; [|by split; [left|rewrite Hr]].
    destruct (relay _ op _ s) as [r s'] eqn:Er. apply relay_effect in Er as (Hc & Htk & _).
    split; [|by rewrite Htk, Hr]. destruct Hc as [?|[? Hin]]; [by left|right].
    exists op. split; [done|]. by exists (id_scopes identity).
Qed.

(** ** The module's secret *)

(** The Community Access Tokens of the hub. *)
Definition CAT_PREFIX : string := "wdl_c_".

Definition clean (secret : string) (r : RpcResponse) : Prop :=
  match rs_result r with
  | Some v => strings_all (λ s, contains secret s = false) v
  | None => True
  end ∧
  match rs_error r with Some e => contains secret e = false | None => True end.

Lemma relay_clean identity op params s r s' :
  br_cat s ≠ "" → token_shaped (br_cat s) = true → relay identity op params s = (r, s') →
  match r with
  | Ok v => strings_all (λ t, contains (br_cat s) t = false) v
  | Err OutOfScope => True
  | Err (RelayFailed (InvalidParams m)) | Err (RelayFailed (HubError m)) =>
      contains (br_cat s) m = false
  end.
Proof.
  intros Hne Ht. unfold relay, relay_scrubbed.
  destruct (decide (required_scope op ∈ id_scopes identity)); [|by intros [= <- _]].
  destruct (dispatch op params s) as [[v|[m|m]] s1]; intros [= <- _]; simpl.
  - by apply scrub_value_clean.
  - by apply scrub_string_clean.
  - by apply scrub_string_clean.
Qed.

Lemma literal_clean rest text r :
  contains CAT_PREFIX text = false → unbordered (CAT_PREFIX +:+ rest) text = true →
  contains (CAT_PREFIX +:+ rest) r = false → contains (CAT_PREFIX +:+ rest) (text +:+ r) = false.
Proof. intros. apply contains_app; [by apply contains_longer|done|done]. Qed.

Lemma relay_error_clean rest e :
  contains (CAT_PREFIX +:+ rest) (match e with InvalidParams m | HubError m => m end) = false →
  contains (CAT_PREFIX +:+ rest) (RelayError_display e) = false.
Proof. destruct e; intros He; (apply literal_clean; [reflexivity|reflexivity|done]). Qed.

(** C19: The bridge gives no hub token away that begins as the hub's tokens do
    ([wdl_c_]), has no star, and of which no end of the four last characters is
    also its beginning; one that overlaps itself can survive the scrubbing
    ([scrub_self_overlap]).  Whatever the hub answers, no string of an answer
    contains it: not of an answer to [POST /rpc], nor of one to a line on the
    unix socket, readable or not.  An unknown operation and what was unreadable
    are echoed to the script, so it must not have sent the token there itself.
    The event stream is not scrubbed and not part of this. *)
Theorem bridge_never_leaks_token (parse_request : string → result RpcRequest string)
    (rest : string) (s : BridgeState W) :
  br_cat s = CAT_PREFIX +:+ rest → token_shaped (br_cat s) = true →
  (∀ request, contains (br_cat s) (rq_op request) = false → clean (br_cat s) (rpc_handler request s).1.2) ∧
  ∀ line,
    match parse_request line with
    | Ok request => contains (br_cat s) (rq_op request) = false
    | Err err => contains (br_cat s) err = false
    end →
    clean (br_cat s) (handle_request parse_request line s).1.
Proof.
  intros Hcat Ht.
  assert (br_cat s ≠ "") as Hne by (by rewrite Hcat).
  assert (∀ t, contains CAT_PREFIX t = false → clean (br_cat s) (response_err t)) as Hlit.
  { intros t Hc. split; [done|]. simpl. rewrite Hcat. by apply contains_longer. }
  assert (∀ e, contains (br_cat s) (match e with InvalidParams m | HubError m => m end) = false →
    clean (br_cat s) (response_err (RelayError_display e))) as Herr.
  { intros e He. split; [done|]. simpl. rewrite Hcat in *. by apply relay_error_clean. }
  assert (∀ t, contains (br_cat s) t = false → clean (br_cat s) (response_err ("unknown operation: " +:+ t)) ∧
    clean (br_cat s) (response_err ("invalid request: " +:+ t))) as Hecho.
  { intros t Hc. rewrite Hcat in *. by split; (split; [done|]; simpl; apply literal_clean). }
  assert (∀ identity op params r s', relay identity op params s = (r, s') →
    match r with
    | Ok result => clean (br_cat s) (response_ok result)
    | Err OutOfScope => True
    | Err (RelayFailed err) => clean (br_cat s) (response_err (RelayError_display err))
    end) as Hrel.
  { intros identity op params r s' E. apply relay_clean in E; [|done|done].
    destruct r as [v|[|[m|m]]]; [by split|done|by apply Herr..]. }
  split.
  - intros request Hop. unfold rpc_handler. destruct (authorize_token _ _) as [identity|]; [|by apply Hlit].
    destruct (decide _); [by apply Hlit|].
    destruct (operation_parse _) as [op|]; [|by apply Hecho].
    destruct (relay identity op _ s) as [r s'] eqn:E. specialize (Hrel _ _ _ _ _ E).
    by destruct r as [v|[|e]]; [|apply Hlit|].
  - intros line. unfold handle_request. destruct (parse_request line) as [request|err]; [|intros; by apply Hecho].
    intros Hop. unfold handle_parsed. destruct (identity_for_name _ _) as [identity|]; [|by apply Hlit].
    destruct (operation_parse _) as [op|]; [|by apply Hecho].
    destruct (relay identity op _ s) as [r s'] eqn:E. specialize (Hrel _ _ _ _ _ E).
    by destruct r as [v|[|e]]; [|apply Hlit|].
Qed.
End BridgeFacts.

(** ** Starting *)

Section StartFacts.
  Context `{BridgeNet}.

Lemma start_tcp_effect cfg l r l' :
  start_tcp cfg l = (r, l') →
  ls_unix l' = ls_unix l ∧
  match r with
  | Ok o => ls_tcp l' = ls_tcp l ++ option_list o ∧ (o = None ↔ bc_listen_tcp cfg = "") ∧
      ∀ a, o = Some a → is_loopback a = true ∧ parse_addr (bc_listen_tcp cfg) = Ok a
  | Err _ => l' = l
  end.
Proof.
  unfold start_tcp. destruct (decide _).
  { intros [= <- <-]. simpl. by rewrite app_nil_r. }
  destruct (parse_addr _) as [a|]; [|by intros [= <- <-]].
  destruct (is_loopback a) eqn:El; simpl; [|by intros [= <- <-]].
  destruct (tcp_bind a); intros [= <- <-]; [|done]. simpl. split_and!; [done..|].
  by intros ? [= <-].
Qed.

Lemma start_unix_effect cfg l r l' :
  start_unix cfg l = (r, l') →
  ls_tcp l' = ls_tcp l ∧
  match r with
  | Ok o => ls_unix l' = ls_unix l ++ option_list o ∧ (o = None ↔ bc_listen_unix cfg = "")
  | Err e => ∃ source, e = UnixBind source
  end.
Proof.
  unfold start_unix. destruct (decide _).
  { intros [= <- <-]. simpl. by rewrite app_nil_r. }
  destruct (unix_bind _); intros [= <- <-]; simpl; [done|]. eauto.
Qed.

Lemma attach_all_error adapters e : attach_all adapters = Err e → ∃ n source, e = AdapterAttach n source.
Proof. induction adapters as [|[n [u|src]] l IH]; simpl; [done|done|]. intros [= <-]. eauto. Qed.

(** A started bridge listens on exactly the transports configured, on TCP
    only on a loopback address, and stopping its handle ends them.  A start
    that fails gives no handle, but does not undo its steps: a TCP server
    bound before the unix socket or an adapter failed goes on listening, with
    nothing left that could stop it. *)
Theorem bridge_start_outcomes `{EqDecision Addr} (cfg : BridgeSection) (randoms : list string)
    (adapters : list (string * result unit string)) r l :
  start cfg randoms adapters (mkListening [] []) = (r, l) →
  Forall (λ a, is_loopback a = true ∧ parse_addr (bc_listen_tcp cfg) = Ok a) (ls_tcp l) ∧
  match r with
  | Ok (handle, _) =>
      ls_tcp l = option_list (bh_tcp handle) ∧ ls_unix l = option_list (bh_unix handle) ∧
      (bh_tcp handle = None ↔ bc_listen_tcp cfg = "") ∧
      (bh_unix handle = None ↔ bc_listen_unix cfg = "") ∧
      stop handle l = mkListening [] []
  | Err e =>
      ls_tcp l = [] ∨
      (∃ a, ls_tcp l = [a]) ∧ ((∃ source, e = UnixBind source) ∨ ∃ n source, e = AdapterAttach n source)
  end.
Proof.
  unfold start. destruct (start_tcp cfg _) as [r1 l1] eqn:E1. apply start_tcp_effect in E1 as [Hu1 E1].
  destruct r1 as [o1|e1]; [|subst l1; intros [= <- <-]; split; [done|by left]].
  destruct E1 as (Ht1 & Hn1 & Hl1). simpl in Ht1, Hu1.
  destruct (start_unix cfg l1) as [r2 l2] eqn:E2. apply start_unix_effect in E2 as [Ht2 E2].
  rewrite Ht1 in Ht2.
  assert (Forall (λ a, is_loopback a = true ∧ parse_addr (bc_listen_tcp cfg) = Ok a) (ls_tcp l2)) as Hf.
  { rewrite Ht2. destruct o1; simpl; [|done]. repeat constructor; by apply Hl1. }
  assert (ls_tcp l2 = [] ∨ ∃ a, ls_tcp l2 = [a]) as Hone.
  { rewrite Ht2. destruct o1; simpl; eauto. }
  destruct r2 as [o2|e2]; [|intros [= <- <-]; split; [done|]; destruct Hone; auto].
  destruct E2 as [Hu2 Hn2]. rewrite Hu1 in Hu2. simpl in Hu2.
  destruct (attach_all adapters) as [u|e] eqn:Ea; intros [= <- <-]; (split; [done|]).
  - simpl. split_and!; [done..|]. unfold stop. simpl. rewrite Ht2, Hu2. f_equal.
    + destruct o1 as [a|]; [|done]. simpl. rewrite filter_cons, decide_False by auto. done.
    + destruct o2 as [p|]; [|done]. simpl. rewrite filter_cons, decide_False by auto. done.
  - apply attach_all_error in Ea. destruct Hone; auto.
Qed.
End StartFacts.

(** ** A bridge with one integration *)

Module BridgeWitness.

(** A hub whose error page echoes the token it was sent. *)
Definition cat : string := "wdl_c_5f3a".

#[local] Instance echoing : Hub nat := {|
  list_my_communities w := (Ok [mkCommunity 1 "c" "C" "owner"], S w);
  get_music_settings w := (Err ("500: Authorization: Bearer " +:+ cat +:+ "!"), S w);
  update_music_settings _ w := (Err cat, S w);
  list_announcements _ w := (Ok [], S w);
  create_announcement p w := (Ok (mkAnnouncement 1 (ap_title p) (ap_content p) "draft" "info" false), S w);
  list_browser_sources w := (Ok [], S w);
|}.

Definition ops : list TokenOp := [OpRegister "obs" {[ ScStatus; MusicRead ]}; OpMint "obs" "00ff"].

Definition bridge : BridgeState nat := mkBridge cat (registry_after ops) 0 0 0 [].

Definition ask (op : string) : RpcRequest := mkRequest "obs" "wdlbridge_00ff" op JNull.

Example music_is_scrubbed :
  (rpc_handler (ask "music.get") bridge).1 =
    (BAD_GATEWAY, response_err "hub error: 500: Authorization: Bearer ****5f3a!").
Proof. vm_compute. reflexivity. Qed.

Lemma bridge_calls_only_in_scope_witness :
  br_calls (rpc_handler (ask "music.get") bridge).2 = [GetMusicSettings] ∧
  (rpc_handler (ask "music.update") bridge).1.1 = FORBIDDEN ∧
  br_tokens (rpc_handler (ask "music.get") bridge).2 = registry_after ops.
Proof.
  split; [vm_compute; reflexivity|]. split; [vm_compute; reflexivity|].
  pose proof (bridge_calls_only_in_scope ops (ask "music.get") bridge eq_refl) as [Hrpc _].
  destruct (rpc_handler (ask "music.get") bridge) as [[st rs] s']. by destruct Hrpc as (_ & _ & _ & H).
Defined.

Lemma bridge_never_leaks_token_witness :
  clean cat (rpc_handler (ask "music.get") bridge).1.2.
Proof.
  apply (bridge_never_leaks_token (λ _, Err "expected value at line 1 column 1") "5f3a" bridge);
    vm_compute; reflexivity.
Defined.

#[local] Instance local_net : BridgeNet := {|
  Addr := string;
  parse_addr s := Ok s;
  is_loopback a := String.prefix "127." a;
  tcp_bind _ := Ok ();
  unix_bind _ := Err "address in use";
|}.

#[local] Instance addr_eq_dec : EqDecision (@Addr local_net) := String.eq_dec.

Definition home : @Addr local_net := "127.0.0.1:7000".

Lemma bridge_start_outcomes_witness :
  start (mkBridgeSection "127.0.0.1:7000" "/run/bridge.sock" ["obs"]) ["00ff"] [] (mkListening [] [])
    = (Err (UnixBind "address in use"), mkListening [home] []) ∧
  Forall (λ a, is_loopback a = true) [home].
Proof.
  split; [reflexivity|].
  destruct (bridge_start_outcomes (mkBridgeSection "127.0.0.1:7000" "/run/bridge.sock" ["obs"])
    ["00ff"] [] (Err (UnixBind "address in use")) (mkListening [home] []) eq_refl) as [Hf _].
  eapply Forall_impl; [exact Hf|]. by intros a [? _].
Defined.
End BridgeWitness.
