(* ===== verification/Executor.v ===== *)
(** * Remote actions on the desktop (penguin-desktop-core/src/action_executor)

    The desktop client polls the hub for actions and answers each: signed
    binaries are verified and run, scripts and Lua run after the user has
    approved the displayed source, OBS commands and webhooks are handed to the
    daemon.  mod.rs, approval.rs, script.rs and signed.rs; verification is
    [ExtPlugin]'s.  The user's machine is the class [Desktop]; what the
    executor did to it is a trace. *)
From S2P Require Import Prelude.
From S2P Require Import Json.
From S2P Require Import ExtPlugin.
From S2P Require Import External.

(** ** Data *)

(** error.rs *)
Inductive DesktopError :=
| LuaError (message : string)
| JsonError (message : string)
| IpcConnection (message : string)
| KeychainError (message : string)
| NoSession
| InvalidCredentials
| ApiRequest (status : Z)
| OAuthError (message : string)
| InvalidCallback (message : string)
| UrlError (message : string)
| TokenRotationFailed (message : string)
| GrpcError (message : string)
| Internal (message : string).

Definition DesktopError_display (e : DesktopError) : string :=
  match e with
  | LuaError m => "Lua error: " +:+ m
  | JsonError m => "JSON error: " +:+ m
  | IpcConnection m => "IPC connection failed: " +:+ m
  | KeychainError m => "keychain operation failed: " +:+ m
  | NoSession => "no active session"
  | InvalidCredentials => "invalid credentials"
  | ApiRequest status => "API request failed: status " +:+ pretty status
  | OAuthError m => "OAuth failed: " +:+ m
  | InvalidCallback m => "invalid OAuth callback: " +:+ m
  | UrlError m => "URL parsing failed: " +:+ m
  | TokenRotationFailed m => "token rotation incomplete: " +:+ m
  | GrpcError m => "gRPC error: " +:+ m
  | Internal m => "internal error: " +:+ m
  end.

Definition MAX_OUTPUT_BYTES : nat := 64 * 1024.

Record ActionRequest := mkAction {
  ac_id : string;
  ac_type : string;
  ac_module_name : option string;
  ac_action : option string;
  ac_parameters : Value;
  ac_user_id : string;
  ac_community_id : string;
  ac_priority : Z;
  ac_timeout : Z;
  ac_created_at : string;
  ac_expires_at : string;
}.

Record ActionResult := mkResult {
  ar_exit_code : option Z;
  ar_stdout : bytes;
  ar_stderr : bytes;
  ar_truncated : bool;
}.

Record ActionResponse := mkActionResponse {
  rp_id : string;
  rp_success : bool;
  rp_result : option ActionResult;
  rp_error : option string;
  rp_duration_ms : Z;
  rp_timestamp : string;
}.

Record PendingAction := mkPending {
  pe_id : string;
  pe_action_type : string;
  pe_content : string;
  pe_user_id : string;
  pe_community_id : string;
  pe_timeout_secs : Z;
}.

Inductive ApprovalDecision := Approved | Denied | Timeout.

(** [parameters.get("source").or_else(get("content")).and_then(as_str)] *)
Definition script_source (parameters : Value) : option string :=
  match get parameters "source" with
  | Some v => as_str v
  | None => get parameters "content" ≫= as_str
  end.

Definition from_request (action : ActionRequest) : PendingAction :=
  mkPending (ac_id action) (ac_type action)
    (default "<script content not found>" (script_source (ac_parameters action)))
    (ac_user_id action) (ac_community_id action) (ac_timeout action).

(** A process to start, with the environment it will see. *)
Record Command := mkCommand {
  cd_program : string;
  cd_dir : option string;
  cd_env : gmap string string;
}.

Inductive WaitOutcome :=
| Exited (code : option Z) (stdout stderr : bytes)
| WaitFailed (message : string)
| TimedOut.

Record BridgeActionRequest := mkBridgeAction {
  ba_module_name : string;
  ba_action_type : string;
  ba_obs_request_type : string;
  ba_obs_request_data : bytes;
  ba_webhook_name : string;
  ba_webhook_payload : bytes;
}.

Record BridgeActionResponse := mkBridgeResponse {
  br_success : bool;
  br_error : string;
  br_obs_response_data : bytes;
  br_http_status : Z;
}.

(** The user's machine and the services the executor calls; errors of the
    system are their text.  [dk_wait] races a child against the timeout in
    seconds; [dk_lua] builds the sandboxed interpreter and evaluates. *)
Class Desktop (W : Type) := {
  dk_env : W → gmap string string;
  dk_clock : W → Z;
  dk_utc : W → string;
  dk_uid : W → Z;
  dk_files : W → Files;
  dk_ask : PendingAction → W → ApprovalDecision * W;
  dk_tempdir : W → result string string * W;
  dk_write : string → bytes → W → result unit string * W;
  dk_chmod : string → Z → W → result unit string * W;
  dk_spawn : Command → W → result nat string * W;
  dk_write_stdin : nat → bytes → W → result unit string * W;
  dk_wait : nat → Z → W → WaitOutcome * W;
  dk_lua : string → W → result unit string * W;
  dk_bridge_action : BridgeActionRequest → W → result BridgeActionResponse DesktopError * W;
  dk_api_request : string → string → option bytes → W → result (Z * bytes) DesktopError * W;
  base64_decode : string → result bytes string;
  value_to_vec : Value → result bytes string;
  response_to_vec : ActionResponse → bytes;
  poll_from_slice : bytes → result (list ActionRequest) string;
}.

(** What the executor did, in order. *)
Inductive Deed :=
| Asked (p : PendingAction) (d : ApprovalDecision)
| Spawned (c : Command)
| Fed (data : bytes)
| LuaRan (source : string)
| BridgeSent (request : BridgeActionRequest)
| Polled (actions : list ActionRequest)
| Posted (r : ActionResponse).

Section Executor.
  Context {W : Type} `{Desktop W} `{Minisign} `{Crypto}.

Record Desk := mkDesk { de_world : W; de_deeds : list Deed }.

Definition St (A : Type) : Type := Desk → A * Desk.
Definition Try (A : Type) : Type := eff Desk DesktopError A.

Definition did (d : list Deed) (w : W) (s : Desk) : Desk := mkDesk w (de_deeds s ++ d).

(** A call of the world, its error mapped, with the deeds it leaves. *)
Definition sys {A E} (f : W → result A E * W) (err : E → DesktopError) (d : list Deed) : Try A :=
  λ s, let '(r, w) := f (de_world s) in (map_err err r, did d w s).

Definition internal (what : string) (e : string) : DesktopError := Internal (what +:+ e).

Definition script_bytes (s : string) : bytes := String.list_byte_of_string s.

(** ** script.rs *)

Definition ALLOWED_ENV_KEYS : list string := ["CUSTOM_VAR_1"; "CUSTOM_VAR_2"; "CUSTOM_VAR_3"].

Definition add_env (env : gmap string string) (member : string * Value) : gmap string string :=
  if decide (member.1 ∈ ALLOWED_ENV_KEYS) then
    match as_str member.2 with
    | Some v => <[member.1 := v]> env
    | None => env
    end
  else env.

(** The variables set explicitly; [home] is the executor's own [HOME]. *)
Definition script_env (home : option string) (parameters : Value) : gmap string string :=
  let env := <["PATH" := "/usr/local/bin:/usr/bin:/bin"]> (∅ : gmap string string) in
  let env := match home with Some h => <["HOME" := h]> env | None => env end in
  let env := <["LANG" := "en_US.UTF-8"]> env in
  match get parameters "env" ≫= as_object with
  | Some members => foldl add_env env members
  | None => env
  end.

Definition interpreter (type : string) : option string :=
  if decide (type = "bash") then Some "bash"
  else if decide (type = "powershell") then Some "powershell"
  else if decide (type = "python") then Some "python3"
  else None.

Definition cap_output (data : bytes) : bytes :=
  if MAX_OUTPUT_BYTES <? length data then take MAX_OUTPUT_BYTES data else data.

(** [Duration::from_secs(action.timeout as u64)]: an [i32] sign-extended. *)
Definition timeout_secs (action : ActionRequest) : Z := wrap_u64 (ac_timeout action).

(** The child inherits the executor's environment, overlaid by [envs]. *)
Definition script_execute (action : ActionRequest) : Try (Z * bytes * bytes) :=
  match interpreter (ac_type action) with
  | None => pure (Err (Internal ("unsupported script type: " +:+ ac_type action)))
  | Some program =>
    let! source := pure (ok_or (script_source (ac_parameters action))
                          (Internal "script source not found")) in
    let! dir := sys dk_tempdir (internal "failed to create work dir: ") [] in
    λ s,
    let inherited := dk_env (de_world s) in
    let env := script_env (inherited !! "HOME") (ac_parameters action) in
    let command := mkCommand program (Some dir) (env ∪ inherited) in
    (let! child := sys (dk_spawn command) (internal ("failed to spawn " +:+ program +:+ ": "))
                     [Spawned command] in
     let! _ := sys (dk_write_stdin child (script_bytes source)) (internal "failed to write stdin: ")
                 [Fed (script_bytes source)] in
     λ s,
     let '(outcome, w) := dk_wait child (timeout_secs action) (de_world s) in
     (match outcome with
      | Exited code stdout stderr => Ok (default (-1)%Z code, cap_output stdout, cap_output stderr)
      | WaitFailed e => Err (Internal ("subprocess error: " +:+ e))
      | TimedOut => Err (Internal "subprocess timeout")
      end, did [] w s)) s
  end.

Definition script_execute_lua (action : ActionRequest) : Try (bytes * bytes) :=
  let! source := pure (ok_or (script_source (ac_parameters action))
                        (Internal "script source not found")) in
  let! _ := sys (dk_lua source) LuaError [LuaRan source] in
  pure (Ok ([], [])).

(** ** signed.rs *)

(** [Verifier::new().verify(..)] on the files as they are. *)
Definition verify_staged (staging : string) (manifest : Manifest) (w : W) : result unit VerifyError :=
  let fs := dk_files w in
  verify fs (load_trusted_keys fs DEFAULT_TRUSTED_PUBLISHERS_DIR) staging manifest (dk_uid w).

(** The second half, from loading the manifest; [w] is the machine then. *)
Definition signed_run (action : ActionRequest) (staging_path : string) (w : W) :
    Try (Z * bytes * bytes) :=
  let! manifest := pure (map_err (λ e, internal "failed to load manifest: " (ManifestError_display e))
                          (load_manifest (dk_files w) (join staging_path "plugin.json"))) in
  let! _ := pure (map_err (λ e, internal "signature verification failed: " (VerifyError_display e))
                   (verify_staged staging_path manifest w)) in
  let command := mkCommand (join staging_path "binary") None (dk_env w) in
  let! child := sys (dk_spawn command) (internal "failed to spawn binary: ") [Spawned command] in
  λ s,
  let '(outcome, w) := dk_wait child (timeout_secs action) (de_world s) in
  (match outcome with
   | Exited code stdout stderr => Ok (default (-1)%Z code, stdout, stderr)
   | WaitFailed e => Err (Internal ("binary execution error: " +:+ e))
   | TimedOut => Err (Internal "binary execution timeout")
   end, did [] w s).

Definition signed_execute (action : ActionRequest) : Try (Z * bytes * bytes) :=
  let! binary_b64 := pure (ok_or (get (ac_parameters action) "binary" ≫= as_str)
                            (Internal "binary field missing")) in
  let! manifest_json := pure (ok_or (get (ac_parameters action) "manifest")
                               (Internal "manifest field missing")) in
  let! binary_bytes := pure (map_err (internal "failed to decode binary: ")
                              (base64_decode binary_b64)) in
  let! staging_path := sys dk_tempdir (internal "failed to create staging dir: ") [] in
  let binary_path := join staging_path "binary" in
  let! _ := sys (dk_write binary_path binary_bytes) (internal "failed to write binary: ") [] in
  let! _ := sys (dk_chmod binary_path 493) (internal "failed to chmod binary: ") [] in
  let manifest_path := join staging_path "plugin.json" in
  let! manifest_bytes := pure (map_err (internal "failed to serialize manifest: ")
                                (value_to_vec manifest_json)) in
  let! _ := sys (dk_write manifest_path manifest_bytes) (internal "failed to write manifest: ") [] in
  λ s, signed_run action staging_path (de_world s) s.

(** ** mod.rs *)

(** A response stamped when it is built; [start] is the operation's start. *)
Definition respond (action : ActionRequest) (start : Z) (success : bool)
    (result : option ActionResult) (error : option string) (s : Desk) : ActionResponse :=
  mkActionResponse (ac_id action) success result error
    (wrap_i64 ((dk_clock (de_world s) - start) / 1000000)) (dk_utc (de_world s)).

(** The response to an output, or to an error under [label]. *)
Definition respond_output (action : ActionRequest) (start : Z) (label : string)
    (r : result (Z * bytes * bytes) DesktopError) (s : Desk) : ActionResponse :=
  match r with
  | Ok (exit_code, stdout, stderr) =>
      respond action start true (Some (mkResult (Some exit_code) stdout stderr false)) None s
  | Err e => respond action start false None (Some (label +:+ DesktopError_display e)) s
  end.

Definition execute_signed_binary (action : ActionRequest) (s : Desk) : ActionResponse * Desk :=
  let start := dk_clock (de_world s) in
  let '(r, s) := signed_execute action s in
  (respond_output action start "signed binary error: " r s, s).

(** The gate shared by scripts and Lua: ask, then [run] only when approved. *)
Definition approved (action : ActionRequest) (label : string)
    (run : Try (Z * bytes * bytes)) (s : Desk) : ActionResponse * Desk :=
  let start := dk_clock (de_world s) in
  let pending := from_request action in
  let '(decision, w) := dk_ask pending (de_world s) in
  let s := did [Asked pending decision] w s in
  match decision with
  | Approved => let '(r, s) := run s in (respond_output action start label r s, s)
  | Denied => (respond action start false None (Some "denied by user") s, s)
  | Timeout => (respond action start false None (Some "approval timed out") s, s)
  end.

Definition execute_script (action : ActionRequest) (s : Desk) : ActionResponse * Desk :=
  approved action "script execution error: " (script_execute action) s.

Definition execute_lua (action : ActionRequest) (s : Desk) : ActionResponse * Desk :=
  approved action "Lua execution error: "
    (let! out := script_execute_lua action in pure (Ok (0%Z, out.1, out.2))) s.

(** A parameter as text, empty when it is missing or no string. *)
Definition text_param (action : ActionRequest) (key : string) : string :=
  default "" (get (ac_parameters action) key ≫= as_str).

(** Sends [request] to the daemon and relays its verdict. *)
Definition relay_bridge (action : ActionRequest) (request : BridgeActionRequest) (label : string)
    (s : Desk) : ActionResponse * Desk :=
  let start := dk_clock (de_world s) in
  let '(r, s) := sys (dk_bridge_action request) id [BridgeSent request] s in
  (match r with
   | Ok resp =>
       respond action start (br_success resp) None
         (if decide (br_error resp = "") then None else Some (br_error resp)) s
   | Err e => respond action start false None (Some (label +:+ DesktopError_display e)) s
   end, s).

Definition execute_obs_command (action : ActionRequest) (s : Desk) : ActionResponse * Desk :=
  relay_bridge action
    (mkBridgeAction (default "" (ac_module_name action)) "obs_command"
       (text_param action "obs_request_type") (script_bytes (text_param action "obs_request_data"))
       "" []) "OBS command error: " s.

Definition execute_webhook (action : ActionRequest) (s : Desk) : ActionResponse * Desk :=
  relay_bridge action
    (mkBridgeAction (default "" (ac_module_name action)) "webhook" "" []
       (text_param action "webhook_name") (script_bytes (text_param action "webhook_payload")))
    "webhook error: " s.

Definition is_script (type : string) : bool :=
  bool_decide (type = "bash") || bool_decide (type = "powershell") || bool_decide (type = "python").

Definition execute (action : ActionRequest) (s : Desk) : ActionResponse * Desk :=
  if decide (ac_type action = "signed_binary") then execute_signed_binary action s
  else if is_script (ac_type action) then execute_script action s
  else if decide (ac_type action = "lua") then execute_lua action s
  else if decide (ac_type action = "obs_command") then execute_obs_command action s
  else if decide (ac_type action = "webhook") then execute_webhook action s
  else (respond action (dk_clock (de_world s)) false None
          (Some ("unknown action type: " +:+ ac_type action)) s, s).

Definition poll (machine_id : string) : Try (list ActionRequest) :=
  λ s,
  let '(r, w) := dk_api_request "GET" ("/api/v1/bridge/poll?bridge_id=" +:+ machine_id) None
                   (de_world s) in
  match r with
  | Err e => (Err e, did [] w s)
  | Ok (status, body) =>
    if (status =? 200)%Z then
      match poll_from_slice body with
      | Err e => (Err (JsonError e), did [] w s)
      | Ok actions => (Ok actions, did [Polled actions] w s)
      end
    else (Err (ApiRequest status), did [] w s)
  end.

Definition post_response (response : ActionResponse) : Try unit :=
  let! _ := sys (dk_api_request "POST" "/api/v1/bridge/response" (Some (response_to_vec response)))
              id [Posted response] in
  pure (Ok ()).

(** The body of the loop over the actions of one poll. *)
Fixpoint process (actions : list ActionRequest) (count : Z) (s : Desk) : Z * Desk :=
  match actions with
  | [] => (count, s)
  | action :: actions =>
      let '(resp, s) := execute action s in
      let '(_, s) := post_response resp s in
      process actions (wrap_u64 (count + 1)) s
  end.

(** [run_poll_loop], cancelled after [ticks] ticks. *)
Fixpoint run_poll_loop (machine_id : string) (ticks : nat) (count : Z) (s : Desk) : Z * Desk :=
  match ticks with
  | O => (count, s)
  | S ticks =>
      let '(r, s) := poll machine_id s in
      let '(count, s) := match r with Ok actions => process actions count s | Err _ => (count, s) end in
      run_poll_loop machine_id ticks count s
  end.

End Executor.

Arguments Desk W : clear implicits.
Arguments St W A : clear implicits.
Arguments Try W A : clear implicits.

(** ** The policy

    What may happen for an action, as a relation between the action, the deeds
    done for it and whether the response reports success. *)
Section Policy.
  Context {W : Type} `{Desktop W} `{Minisign} `{Crypto}.

Definition gated (type : string) : Prop := is_script type = true ∨ type = "lua".

(** The command a script becomes on a machine in state [w]. *)
Definition script_command (action : ActionRequest) (program dir : string) (w : W) : Command :=
  mkCommand program (Some dir)
    (script_env (dk_env w !! "HOME") (ac_parameters action) ∪ dk_env w).

Inductive Policy (action : ActionRequest) : list Deed → bool → Prop :=
| PolicyUnknown :
    ac_type action ∉ ["signed_binary"; "bash"; "powershell"; "python"; "lua"; "obs_command"; "webhook"] →
    Policy action [] false
| PolicyRefused d :
    gated (ac_type action) → d ≠ Approved → Policy action [Asked (from_request action) d] false
| PolicyNotStarted :
    gated (ac_type action) → Policy action [Asked (from_request action) Approved] false
| PolicyLua ok :
    ac_type action = "lua" →
    script_source (ac_parameters action) = Some (pe_content (from_request action)) →
    Policy action [Asked (from_request action) Approved; LuaRan (pe_content (from_request action))] ok
| PolicyScriptNotFed program dir w :
    interpreter (ac_type action) = Some program →
    Policy action
      [Asked (from_request action) Approved; Spawned (script_command action program dir w)] false
| PolicyScript program dir w ok :
    interpreter (ac_type action) = Some program →
    script_source (ac_parameters action) = Some (pe_content (from_request action)) →
    Policy action
      [Asked (from_request action) Approved; Spawned (script_command action program dir w);
       Fed (script_bytes (pe_content (from_request action)))] ok
| PolicySignedRejected :
    ac_type action = "signed_binary" → Policy action [] false
| PolicySigned staging manifest w ok :
    ac_type action = "signed_binary" →
    load_manifest (dk_files w) (join staging "plugin.json") = Ok manifest →
    verify_staged staging manifest w = Ok () →
    Policy action [Spawned (mkCommand (join staging "binary") None (dk_env w))] ok
| PolicyBridge request ok :
    ac_type action = ba_action_type request →
    ac_type action = "obs_command" ∨ ac_type action = "webhook" →
    Policy action [BridgeSent request] ok.

(** The deeds of a step, and the success it may report. *)
Definition does {A} (m : St W A) (P : list Deed → A → Prop) : Prop :=
  ∀ s a s', m s = (a, s') → ∃ l, de_deeds s' = de_deeds s ++ l ∧ P l a.

Lemma does_pure {A} (r : result A DesktopError) (P : list Deed → result A DesktopError → Prop) :
  P [] r → does (pure r) P.
Proof. intros HP s a s' [= <- <-]. exists []. by rewrite app_nil_r. Qed.

Lemma does_sys {A E} (f : W → result A E * W) err d (P : list Deed → result A DesktopError → Prop) :
  (∀ r, P d r) → does (sys f err d) P.
Proof.
  intros HP s a s'. unfold sys. destruct (f (de_world s)) as [r w]. intros [= <- <-]. by exists d.
Qed.

Lemma does_bind {A B} (m : Try W A) (k : A → Try W B) (P : list Deed → result B DesktopError → Prop) :
  does m (λ l r, match r with
                 | Err e => P l (Err e)
                 | Ok a => does (k a) (λ l' r', P (l ++ l') r')
                 end) →
  does (eff_bind m k) P.
Proof.
  intros Hm s b s'. unfold eff_bind. destruct (m s) as [r s1] eqn:E.
  destruct (Hm _ _ _ E) as (l & Hl & Hr). destruct r as [a|e].
  - intros Hk. destruct (Hr _ _ _ Hk) as (l' & Hl' & HP). exists (l ++ l').
    by rewrite Hl', Hl, app_assoc.
  - intros [= <- <-]. by exists l.
Qed.

Lemma does_read {A} (k : W → St W A) (P : list Deed → A → Prop) :
  (∀ w, does (k w) P) → does (λ s, k (de_world s) s) P.
Proof. intros Hk s a s' E. by eapply Hk. Qed.

Lemma does_wait {A} child t (g : WaitOutcome → result A DesktopError)
    (P : list Deed → result A DesktopError → Prop) :
  (∀ o, P [] (g o)) →
  does (λ s, let '(outcome, w) := dk_wait child t (de_world s) in (g outcome, did [] w s)) P.
Proof.
  intros HP s a s'. destruct (dk_wait _ _ _) as [o w]. intros [= <- <-]. exists []. done.
Qed.

(** Runs through a body step by step; the deeds are left to each goal. *)
Ltac walk :=
  repeat first
    [ apply does_bind
    | apply does_pure
    | apply does_sys; intros []
    | apply does_wait; intros [] ].

Lemma shown_source action source :
  script_source (ac_parameters action) = Some source → pe_content (from_request action) = source.
Proof. intros E. simpl. by rewrite E. Qed.

Lemma interpreter_is_script t : (is_Some (interpreter t) ↔ is_script t = true).
Proof.
  unfold interpreter. destruct (decide (t = "bash")) as [->|?]; [done|].
  destruct (decide (t = "powershell")) as [->|?]; [done|].
  destruct (decide (t = "python")) as [->|?]; [done|].
  unfold is_script. rewrite !bool_decide_false by done. split; [by intros []|done].
Qed.

Lemma script_execute_does action program :
  interpreter (ac_type action) = Some program →
  does (script_execute action)
    (λ l r, Policy action (Asked (from_request action) Approved :: l) (is_ok r)).
Proof.
  intros Hi. unfold script_execute. rewrite Hi.
  assert (gated (ac_type action)) as Hg.
  { left. apply interpreter_is_script. by rewrite Hi. }
  apply does_bind, does_pure. destruct (script_source _) as [source|] eqn:Es; [|by apply PolicyNotStarted].
  simpl. apply does_bind, does_sys. intros [dir|]; [|by apply PolicyNotStarted]. simpl.
  apply (does_read (λ w, eff_bind (sys (dk_spawn (script_command action program dir w)) _
    [Spawned (script_command action program dir w)]) _)).
  intros w. pose proof (shown_source _ _ Es) as <-.
  walk; simpl; by econstructor.
Qed.

Lemma script_execute_lua_does action :
  ac_type action = "lua" →
  does (eff_bind (script_execute_lua action) (λ out, pure (Ok (0%Z, out.1, out.2))))
    (λ l r, Policy action (Asked (from_request action) Approved :: l) (is_ok r)).
Proof.
  intros Ht. assert (gated (ac_type action)) as Hg by by right.
  unfold script_execute_lua. apply does_bind, does_bind, does_pure.
  destruct (script_source _) as [source|] eqn:Es; [|by apply PolicyNotStarted]. simpl.
  pose proof (shown_source _ _ Es) as <-. walk; simpl; by apply PolicyLua.
Qed.

Lemma signed_run_does action staging w :
  ac_type action = "signed_binary" →
  does (signed_run action staging w) (λ l r, Policy action l (is_ok r)).
Proof.
  intros Ht. unfold signed_run.
  apply does_bind, does_pure. destruct (load_manifest _ _) as [m|] eqn:El; [|by apply PolicySignedRejected].
  simpl. apply does_bind, does_pure. destruct (verify_staged _ _ _) as [[]|] eqn:Ev;
    [|by apply PolicySignedRejected].
  simpl. walk; simpl; by eapply PolicySigned.
Qed.

Lemma signed_execute_does action :
  ac_type action = "signed_binary" →
  does (signed_execute action) (λ l r, Policy action l (is_ok r)).
Proof.
  intros Ht. unfold signed_execute.
  repeat (apply does_bind; first [apply does_pure | apply does_sys; intros ?];
    match goal with |- match ?r with _ => _ end => destruct r end; [simpl|by apply PolicySignedRejected]).
  apply does_read. intros w. by apply signed_run_does.
Qed.

Lemma respond_output_success action start label r (s : Desk W) :
  rp_success (respond_output action start label r s) = is_ok r.
Proof. by destruct r as [[[??]?]|]. Qed.

Lemma execute_id action (s : Desk W) response s' :
  execute action s = (response, s') → rp_id response = ac_id action.
Proof.
  unfold execute, execute_signed_binary, execute_script, execute_lua, execute_obs_command,
    execute_webhook, approved, relay_bridge, respond_output, respond.
  repeat case_match; intros; simplify_eq; done.
Qed.

Lemma approved_does action label run :
  gated (ac_type action) →
  does run (λ l r, Policy action (Asked (from_request action) Approved :: l) (is_ok r)) →
  does (approved action label run) (λ l r, Policy action l (rp_success r)).
Proof.
  intros Hg Hrun s a s'. unfold approved. destruct (dk_ask _ _) as [d w].
  destruct d; [|intros [= <- <-]; eexists; split; [done|by apply PolicyRefused]..].
  destruct (run _) as [r s1] eqn:E. intros [= <- <-].
  destruct (Hrun _ _ _ E) as (l & Hl & HP). simpl in Hl. rewrite <- app_assoc in Hl.
  eexists. split; [exact Hl|]. by rewrite respond_output_success.
Qed.

Lemma relay_bridge_does action request label :
  ac_type action = ba_action_type request →
  ac_type action = "obs_command" ∨ ac_type action = "webhook" →
  does (relay_bridge action request label) (λ l r, Policy action l (rp_success r)).
Proof.
  intros Ht Hor s a s'. unfold relay_bridge, sys. destruct (dk_bridge_action _ _) as [r w].
  intros [= <- <-]. exists [BridgeSent request]. split; [done|]. by apply PolicyBridge.
Qed.

Lemma execute_policy action :
  does (execute action) (λ l r, rp_id r = ac_id action ∧ Policy action l (rp_success r)).
Proof.
  intros s response s' E. pose proof (execute_id _ _ _ _ E) as Hid.
  enough (∃ l, de_deeds s' = de_deeds s ++ l ∧ Policy action l (rp_success response)) as (l & ? & ?)
    by by exists l.
  revert E. unfold execute.
  destruct (decide (ac_type action = "signed_binary")) as [Ht|Hn1].
  { unfold execute_signed_binary. destruct (signed_execute action s) as [r s1] eqn:E. intros [= <- <-].
    rewrite respond_output_success. by eapply signed_execute_does in E. }
  destruct (is_script (ac_type action)) eqn:Hs.
  { intros E. eapply approved_does in E; [exact E|by left|].
    apply interpreter_is_script in Hs as [program Hp]. by eapply script_execute_does. }
  destruct (decide (ac_type action = "lua")) as [Ht|Hn2].
  { intros E. eapply approved_does in E; [exact E|by right|]. by apply script_execute_lua_does. }
  destruct (decide (ac_type action = "obs_command")) as [Ht|Hn3].
  { intros E. eapply relay_bridge_does in E; [exact E|done|by left]. }
  destruct (decide (ac_type action = "webhook")) as [Ht|Hn4].
  { intros E. eapply relay_bridge_does in E; [exact E|done|by right]. }
  intros [= <- <-]. exists []. split; [by rewrite app_nil_r|]. apply PolicyUnknown.
  unfold is_script in Hs. apply orb_false_iff in Hs as [[Hb Hp]%orb_false_iff Hy].
  apply bool_decide_eq_false in Hb, Hp, Hy. rewrite !not_elem_of_cons. split_and!; try done.
  apply not_elem_of_nil.
Qed.

(** C4: Executing an action does exactly what the policy allows for its type:
    nothing for unknown types; scripts and Lua only after the user approved,
    and what is run is the very source that was shown; a signed binary only
    when its staged manifest was loaded and verified; bridge actions are only
    handed to the daemon.  Success is never reported for a refused, unknown
    or rejected action, and the response carries the action's id. *)
Theorem execute_follows_policy (action : ActionRequest) (s : Desk W) :
  let '(response, s') := execute action s in
  rp_id response = ac_id action ∧
  ∃ deeds, de_deeds s' = de_deeds s ++ deeds ∧ Policy action deeds (rp_success response).
Proof.
  destruct (execute action s) as [response s'] eqn:E.
  destruct (execute_policy _ _ _ _ E) as (l & ? & ? & ?). eauto.
Qed.

(** ** The loop *)

(** A trace of polls: each poll's actions are worked off in order, what is
    done for an action follows the policy and ends with the one response to
    it. *)
Inductive Rounds : list Deed → nat → Prop :=
| RoundsEnd : Rounds [] 0
| RoundsPoll actions works rest n :
    Forall2 (λ action work, ∃ deeds response,
      work = deeds ++ [Posted response] ∧ rp_id response = ac_id action ∧
      Policy action deeds (rp_success response)) actions works →
    Rounds rest n →
    Rounds (Polled actions :: concat works ++ rest) (length actions + n).

Lemma process_works actions count (s : Desk W) :
  ∃ works, de_deeds (process actions count s).2 = de_deeds s ++ concat works ∧
    Forall2 (λ action work, ∃ deeds response,
      work = deeds ++ [Posted response] ∧ rp_id response = ac_id action ∧
      Policy action deeds (rp_success response)) actions works.
Proof.
  revert count s. induction actions as [|action actions IH]; intros count s; simpl.
  { exists []. by rewrite app_nil_r. }
  destruct (execute action s) as [response s1] eqn:E.
  destruct (execute_policy _ _ _ _ E) as (deeds & Hd & Hid & Hp).
  destruct (post_response response s1) as [r s2] eqn:E2.
  assert (de_deeds s2 = de_deeds s1 ++ [Posted response]) as H2.
  { revert E2. unfold post_response, eff_bind, sys, pure.
    destruct (dk_api_request _ _ _ _) as [[|] w]; by intros [= _ <-]. }
  destruct (IH (wrap_u64 (count + 1)) s2) as (works & Hw & Hall).
  exists ((deeds ++ [Posted response]) :: works). split.
  - rewrite Hw, H2, Hd. simpl. by rewrite <- !app_assoc.
  - constructor; [|done]. by exists deeds, response.
Qed.

Lemma process_count actions count (s : Desk W) :
  (0 ≤ count < 2 ^ 64)%Z → (process actions count s).1 = wrap_u64 (count + Z.of_nat (length actions)).
Proof.
  revert count s. induction actions as [|action actions IH]; intros count s Hc; simpl.
  { rewrite Z.add_0_r. symmetry. by apply wrap_u_small. }
  destruct (execute action s), (post_response _ _). rewrite IH by (by apply wrap_u_range).
  unfold wrap_u64, wrap_u. rewrite Zplus_mod_idemp_l. f_equal. lia.
Qed.

Lemma poll_loop_rounds machine_id ticks count (s : Desk W) :
  (0 ≤ count < 2 ^ 64)%Z →
  ∃ l n, de_deeds (run_poll_loop machine_id ticks count s).2 = de_deeds s ++ l ∧ Rounds l n ∧
    (run_poll_loop machine_id ticks count s).1 = wrap_u64 (count + Z.of_nat n).
Proof.
  revert count s. induction ticks as [|ticks IH]; intros count s Hc; simpl.
  { exists [], 0. rewrite app_nil_r, Z.add_0_r. split_and!; [done|constructor|].
    symmetry. by apply wrap_u_small. }
  unfold poll. destruct (dk_api_request _ _ _ _) as [[[status body]|e] w].
  2: { destruct (IH count (did [] w s) Hc) as (l & n & Hl & ?). exists l, n.
       simpl in Hl. by rewrite app_nil_r in Hl. }
  assert (∀ e, let '(count0, s0) := match Err e : result (list ActionRequest) DesktopError with
      | Ok actions => process actions count (did [] w s) | Err _ => (count, did [] w s) end in
      ∃ l n, de_deeds (run_poll_loop machine_id ticks count0 s0).2 = de_deeds s ++ l ∧ Rounds l n ∧
        (run_poll_loop machine_id ticks count0 s0).1 = wrap_u64 (count + Z.of_nat n)) as Hfail.
  { intros e. destruct (IH count (did [] w s) Hc) as (l & n & Hl & ?). exists l, n.
    simpl in Hl. by rewrite app_nil_r in Hl. }
  destruct (status =? 200)%Z; [|apply (Hfail (ApiRequest status))].
  destruct (poll_from_slice body) as [actions|e]; [|apply (Hfail (JsonError e))].
  destruct (process_works actions count (did [Polled actions] w s)) as (works & Hw & Hall).
  pose proof (process_count actions count (did [Polled actions] w s) Hc) as Hn.
  destruct (process _ _ _) as [count' s'] eqn:E. simpl in *. subst count'.
  destruct (IH (wrap_u64 (count + Z.of_nat (length actions))) s') as (l & n & Hl & Hr & Hcnt);
    [by apply wrap_u_range|].
  exists (Polled actions :: concat works ++ l), (length actions + n). split_and!.
  - rewrite Hl, Hw, <- !app_assoc. done.
  - by constructor.
  - rewrite Hcnt. unfold wrap_u64, wrap_u. rewrite Zplus_mod_idemp_l. f_equal. lia.
Qed.

(** The poll loop answers every action it polls, once, in the order
    received and before it turns to the next, with the action's own id and
    after nothing but what the policy allows for it, whatever fails on the
    way; and it counts them. *)
Theorem poll_loop_answers_in_turn (machine_id : string) (ticks : nat) (w : W) :
  let '(count, s) := run_poll_loop machine_id ticks 0 (mkDesk w []) in
  ∃ n, Rounds (de_deeds s) n ∧ count = wrap_u64 (Z.of_nat n).
Proof.
  destruct (poll_loop_rounds machine_id ticks 0 (mkDesk w [])) as (l & n & Hl & Hr & Hn); [done|].
  destruct (run_poll_loop _ _ _ _) as [count s]. simpl in *. subst. eauto.
Qed.

(** ** Signed binaries *)

Lemma signed_run_unreadable action staging w e (s : Desk W) :
  f_read (dk_files w) (join (join staging "plugin.json") "plugin.json") = Err e →
  ∃ err, signed_run action staging w s = (Err err, s).
Proof.
  intros He. unfold signed_run, load_manifest, eff_bind, pure. rewrite He. simpl. eauto.
Qed.

(** A computation that fails and leaves no deed. *)
Definition silent_failure {A} (m : Try W A) : Prop :=
  ∀ s, ∃ e s', m s = (Err e, s') ∧ de_deeds s' = de_deeds s.

Lemma silent_pure {A B} (r : result A DesktopError) (k : A → Try W B) :
  (∀ a, silent_failure (k a)) → silent_failure (eff_bind (pure r) k).
Proof. intros Hk s. unfold eff_bind, pure. destruct r as [a|e]; [apply Hk|eauto]. Qed.

Lemma silent_sys {A B E} (f : W → result A E * W) err (k : A → Try W B) :
  (∀ a, silent_failure (k a)) → silent_failure (eff_bind (sys f err []) k).
Proof.
  intros Hk s. unfold eff_bind, sys. destruct (f (de_world s)) as [[a|e] w]; simpl.
  - destruct (Hk a (did [] w s)) as (e & s' & E1 & E2). exists e, s'. split; [done|].
    rewrite E2. simpl. by rewrite app_nil_r.
  - eexists _, _. split; [done|]. simpl. by rewrite app_nil_r.
Qed.

(** A signed binary never runs.  The manifest is written to
    [plugin.json] in the staging directory and then looked for in the
    directory [plugin.json] of the staging directory; since nothing can be
    read below a regular file, loading it always fails, and every such action
    is answered with an error. *)
Theorem signed_binary_never_runs (action : ActionRequest) (s : Desk W) :
  (∀ path data w w', dk_write path data w = (Ok (), w') →
    ∀ name, ∃ e, f_read (dk_files w') (path +:+ "/" +:+ name) = Err e) →
  ac_type action = "signed_binary" →
  let '(response, s') := execute action s in
  de_deeds s' = de_deeds s ∧ rp_success response = false ∧ rp_result response = None ∧
  ∃ e, rp_error response = Some ("signed binary error: " +:+ DesktopError_display e).
Proof.
  intros Hlaw Ht. unfold execute. rewrite decide_True by done. unfold execute_signed_binary.
  assert (∃ e s', signed_execute action s = (Err e, s') ∧ de_deeds s' = de_deeds s) as (e & s' & -> & Hs').
  2: { split_and!; [done..|]. by exists e. }
  revert s. fold (silent_failure (signed_execute action)). unfold signed_execute.
  do 7 (first [apply silent_pure | apply silent_sys]; intros ?).
  intros s. unfold eff_bind, sys.
  destruct (dk_write _ _ (de_world s)) as [[[]|e] w] eqn:Ew; simpl.
  - destruct (Hlaw _ _ _ _ Ew "plugin.json") as [e He].
    destruct (signed_run_unreadable action a2 w e (did [] w s) He) as [err Herr].
    exists err, (did [] w s). rewrite Herr. simpl. by rewrite app_nil_r.
  - eexists _, _. split; [done|]. simpl. by rewrite app_nil_r.
Qed.
End Policy.

(** ** The environment of a script *)

Lemma add_env_lookup members env k :
  NoDup members.*1 →
  foldl add_env env members !! k =
    match (if decide (k ∈ ALLOWED_ENV_KEYS) then assoc k members ≫= as_str else None) with
    | Some v => Some v
    | None => env !! k
    end.
Proof.
  revert env. induction members as [|[n v] members IH]; intros env Hnd; simpl; [by case_decide|].
  apply NoDup_cons in Hnd as [Hn Hnd]. rewrite IH by done. unfold add_env at 1. simpl.
  assert (n = k → assoc k members = None) as Hnone.
  { intros ->. clear -Hn. induction members as [|[m x] members IH]; [done|]. simpl in *.
    apply not_elem_of_cons in Hn as [Hm Hn]. rewrite decide_False by done. auto. }
  destruct (decide (n = k)) as [->|Hk].
  - rewrite Hnone by done. simpl. destruct (decide (k ∈ ALLOWED_ENV_KEYS)); [|done].
    destruct (as_str v); [|done]. by rewrite lookup_insert_eq.
  - destruct (if decide (k ∈ ALLOWED_ENV_KEYS) then _ else _); [done|].
    case_decide; [|done]. destruct (as_str v); [|done]. by rewrite lookup_insert_ne.
Qed.

(** The environment a script sees: the hub can set the three allowed
    variables and no other; [PATH] and [LANG] are fixed; every other variable
    is the one of the desktop client's own process, which is inherited and not
    cleared. *)
Theorem script_environment (parameters : Value) (inherited : gmap string string) (k : string) :
  (∀ members, get parameters "env" ≫= as_object = Some members → NoDup members.*1) →
  (script_env (inherited !! "HOME") parameters ∪ inherited) !! k =
    if decide (k = "PATH") then Some "/usr/local/bin:/usr/bin:/bin"
    else if decide (k = "LANG") then Some "en_US.UTF-8"
    else
      match (if decide (k ∈ ALLOWED_ENV_KEYS)
             then get parameters "env" ≫= (λ env, get env k ≫= as_str) else None) with
      | Some v => Some v
      | None => inherited !! k
      end.
Proof.
  intros Hnd. rewrite lookup_union. unfold script_env.
  set (env0 := <["LANG" := _]> _).
  assert (env0 !! k = if decide (k = "PATH") then Some "/usr/local/bin:/usr/bin:/bin"
    else if decide (k = "LANG") then Some "en_US.UTF-8"
    else if decide (k = "HOME") then inherited !! "HOME" else None) as H0.
  { subst env0. repeat case_decide; subst; simpl; simplify_map_eq; try done;
      destruct (inherited !! "HOME") eqn:E; simplify_map_eq; done. }
  clearbody env0. assert (k ∈ ALLOWED_ENV_KEYS → k ≠ "PATH" ∧ k ≠ "LANG" ∧ k ≠ "HOME") as Hk.
  { intros Hin. by repeat (apply elem_of_cons in Hin as [->|Hin]); [..|apply elem_of_nil in Hin]. }
  assert ((get parameters "env" ≫= (λ env, get env k ≫= as_str)) =
    ((get parameters "env" ≫= as_object) ≫= (λ ms, assoc k ms ≫= as_str))) as Hg.
  { destruct (get parameters "env") as [[]|]; done. }
  rewrite Hg. destruct (get parameters "env" ≫= as_object) as [members|]; simpl.
  - rewrite add_env_lookup by auto.
    destruct (decide (k ∈ ALLOWED_ENV_KEYS)) as [Hin|Hin].
    + destruct (Hk Hin) as (? & ? & ?). rewrite !decide_False by done.
      destruct (assoc k members ≫= as_str); simpl; [by destruct (inherited !! k)|].
      rewrite H0, !decide_False by done. by destruct (inherited !! k).
    + rewrite H0. repeat case_decide; subst; destruct (inherited !! _) eqn:?; simplify_eq/=; done.
  - rewrite H0. repeat case_decide; subst; destruct (inherited !! _) eqn:?; simplify_eq/=; done.
Qed.

(** ** A machine with a few files *)

Module ExecutorWitness.
#[local] Existing Instance ExternalWitness.toy_minisign.
#[local] Existing Instance ExternalWitness.toy.

Abbreviation Disk := (gmap string bytes).

(** Whether a file lies on the way to [path]. *)
Definition below_file (d : Disk) (path : string) : bool :=
  existsb (λ f, String.prefix (f.1 +:+ "/") path) (map_to_list d).

Definition read (d : Disk) (path : string) : result bytes string :=
  if below_file d path then Err "Not a directory" else ok_or (d !! path) "No such file".

Definition files (d : Disk) : Files :=
  mkFiles (λ _, false) (λ _, Err "No such file") (read d) (λ _, Err "No such file")
    (λ _, Err "No such file") (λ _, None).

#[local] Instance machine : Desktop Disk := {|
  dk_env _ := {[ "HOME" := "/home/u" ]};
  dk_clock _ := 0%Z; dk_utc _ := "2024-01-01T00:00:00+00:00"; dk_uid _ := 1000%Z;
  dk_files := files;
  dk_ask p d := (if decide (pe_content p = "rm -rf /") then Denied else Approved, d);
  dk_tempdir d := (Ok "/tmp/a", d);
  dk_write path data d := (Ok (), <[path := data]> d);
  dk_chmod _ _ d := (Ok (), d);
  dk_spawn _ d := (Ok 7, d);
  dk_write_stdin _ _ d := (Ok (), d);
  dk_wait _ _ d := (Exited (Some 0%Z) [] [], d);
  dk_lua _ d := (Ok (), d);
  dk_bridge_action _ d := (Ok (mkBridgeResponse true "" [] 200), d);
  dk_api_request _ _ _ d := (Ok (200%Z, []), d);
  base64_decode _ := Ok [];
  value_to_vec _ := Ok [];
  response_to_vec _ := [];
  poll_from_slice _ := Ok [];
|}.

Definition act (type : string) (parameters : Value) : ActionRequest :=
  mkAction "a1" type None None parameters "u" "c" 0 30 "" "".

Definition script (source : string) : ActionRequest :=
  act "bash" (JObject [("source", JString source)]).

Example refused_script :
  let '(r, s) := execute (script "rm -rf /") (mkDesk (∅ : Disk) []) in
  rp_error r = Some "denied by user" ∧ length (de_deeds s) = 1.
Proof. vm_compute. split; reflexivity. Qed.

Example approved_script :
  let '(r, s) := execute (script "date") (mkDesk (∅ : Disk) []) in
  rp_success r = true ∧ length (de_deeds s) = 3.
Proof. vm_compute. split; reflexivity. Qed.

Definition client_env : gmap string string := {[ "HOME" := "/home/u"; "API_KEY" := "hunter2" ]}.
Definition hub_env : Value :=
  JObject [("env", JObject [("LD_PRELOAD", JString "x.so"); ("CUSTOM_VAR_1", JString "1")])].

(** A client variable reaches the script; a variable of the hub's choice does not. *)
Lemma script_environment_witness :
  let env := script_env (client_env !! "HOME") hub_env ∪ client_env in
  env !! "LD_PRELOAD" = None ∧ env !! "CUSTOM_VAR_1" = Some "1" ∧ env !! "API_KEY" = Some "hunter2".
Proof.
  split_and!; (etransitivity; [apply script_environment|vm_compute; reflexivity]);
    intros members [= <-]; apply (bool_decide_unpack _); vm_compute; exact I.
Defined.

Lemma prefix_self p q : String.prefix (p +:+ "/") (p +:+ "/" +:+ q) = true.
Proof.
  induction p as [|c p IH]; simpl; [by destruct q|]. by destruct (Ascii.ascii_dec c c).
Qed.

Lemma signed_binary_never_runs_witness :
  let '(response, s) := execute (act "signed_binary" (JObject [("binary", JString "AA==");
    ("manifest", JObject [])])) (mkDesk (∅ : Disk) []) in
  rp_success response = false ∧ de_deeds s = [].
Proof.
  pose proof (signed_binary_never_runs (act "signed_binary" (JObject [("binary", JString "AA==");
    ("manifest", JObject [])])) (mkDesk (∅ : Disk) [])) as H.
  destruct (execute _ _) as [response s]. destruct H as (H1 & H2 & _).
  - intros path data w w' [= <-] name. exists "Not a directory". simpl. unfold read.
    replace (below_file _ _) with true; [done|]. symmetry. apply existsb_exists.
    exists (path, data). split; [|apply prefix_self].
    apply list_elem_of_In, elem_of_map_to_list, lookup_insert_eq.
  - reflexivity.
  - split; [exact H2|exact H1].
Defined.
End ExecutorWitness.
