(* ===== verification/SysResolver.v ===== *)
(** * The system resolver (penguin-module-squawk/src/sysresolver)

    Pointing the host's DNS at other servers, and back: the crash marker
    (marker.rs, fsutil.rs), the backends for [resolv.conf] and for
    systemd-resolved (linux/), and the state machine over them (mod.rs).

    The host is a set of files and of per-link DNS settings on which any call
    may fail; [h_seen] collects the durable state after every call, and after
    every byte of a write, so that a crash is one of its elements.  Files have
    their permission bits, which opening a file that exists does not change. *)
From S2P Require Import Prelude.
From S2P Require Import Text.

(** [std::net::IpAddr]: printing and parsing. *)
Class IpAddr := {
  Ip : Type;
  ip_eq_dec :: EqDecision Ip;
  ip_to_string : Ip → string;
  ip_parse : string → option Ip;
  ip_round_trip : ∀ a, ip_parse (ip_to_string a) = Some a;
  ip_text : ∀ a, ip_to_string a ≠ "" ∧ all_chars plain_char (ip_to_string a) = true;
}.

Record Marker := mkMarker {
  mk_previous_servers : list string;
  mk_backend : string;
  mk_applied_at : Z;
}.

(** [serde_json] on [Marker]: what is written parses back, and a document cut
    short does not parse. *)
Class MarkerCodec := {
  marker_to_vec : Marker → result string string;
  marker_from_slice : string → result Marker string;
  marker_round_trip : ∀ m data, marker_to_vec m = Ok data → marker_from_slice data = Ok m;
  marker_cut_short : ∀ m data k, marker_to_vec m = Ok data → k < String.length data →
    ∃ e, marker_from_slice (String.substring 0 k data) = Err e;
}.

(** [String::from_utf8_lossy], and whether bytes are UTF-8. *)
Class Utf8 := {
  from_utf8_lossy : string → string;
  is_utf8 : string → bool;
}.

Inductive SysResolverError :=
| NoServers
| NoBackendAvailable
| NoBackupAvailable
| CorruptMarker (original quarantined source : string)
| SrIo (context source : string)
| SrBackend (message : string).

Section Host.
  Context `{IpAddr}.

(** ** The host *)

Record LinkDns := mkLinkDns { ln_servers : list Ip; ln_default_route : bool }.

Record Durable := mkDurable {
  d_dir : bool;                         (* the data directory exists *)
  d_files : gmap string string;
  d_modes : gmap string Z;              (* the files' permission bits *)
  d_links : gmap Z LinkDns;             (* overrides held by systemd-resolved *)
}.

Inductive IoKind := NotFound | OtherIo.
Record IoError := mkIoError { io_kind : IoKind; io_text : string }.

(** A failing call: its message and, for a write, the bytes that got through. *)
Record Fault := mkFault { ft_text : string; ft_written : nat }.

Record Host := mkHost {
  h_disk : Durable;
  h_seen : list Durable;
  h_fault : nat → option Fault;
  h_calls : nat;
  h_now : Z;                            (* the wall clock, seconds since 1970 *)
  h_resolved : bool;                    (* systemd-resolved is on the bus *)
  h_net : result (list (result (string * result string string) string)) string;
      (* [/sys/class/net]: each entry's name and the text of its [ifindex] *)
  h_applied : option (string * list Ip); (* [AppliedState], lost in a crash *)
}.

Definition IO (A : Type) : Type := eff Host SysResolverError A.
Definition Sys (A : Type) : Type := eff Host IoError A.

(** The durable state moves on by the states [ds], to [d]. *)
Definition reach (ds : list Durable) (d : Durable) (h : Host) : Host :=
  mkHost d (h_seen h ++ ds ++ [d]) (h_fault h) (S (h_calls h)) (h_now h) (h_resolved h) (h_net h)
    (h_applied h).

Definition set_applied (a : option (string * list Ip)) (h : Host) : Host :=
  mkHost (h_disk h) (h_seen h) (h_fault h) (h_calls h) (h_now h) (h_resolved h) (h_net h) a.

Definition syscall {A} (f : Durable → result A IoError * Durable) : Sys A := λ h,
  match h_fault h (h_calls h) with
  | Some ft => (Err (mkIoError OtherIo (ft_text ft)), reach [] (h_disk h) h)
  | None => let '(r, d) := f (h_disk h) in (r, reach [] d h)
  end.

Definition not_found : IoError := mkIoError NotFound "No such file or directory (os error 2)".

Definition set_files (fl : gmap string string) (d : Durable) : Durable :=
  mkDurable (d_dir d) fl (d_modes d) (d_links d).
Definition set_modes (ms : gmap string Z) (d : Durable) : Durable :=
  mkDurable (d_dir d) (d_files d) ms (d_links d).
Definition set_links (ls : gmap Z LinkDns) (d : Durable) : Durable :=
  mkDurable (d_dir d) (d_files d) (d_modes d) ls.

Definition read (path : string) : Sys string :=
  syscall (λ d, (ok_or (d_files d !! path) not_found, d)).

Definition remove_file (path : string) : Sys unit :=
  syscall (λ d, match d_files d !! path with
                | Some _ => (Ok (), set_modes (delete path (d_modes d)) (set_files (delete path (d_files d)) d))
                | None => (Err not_found, d)
                end).

Definition rename (from to : string) : Sys unit :=
  syscall (λ d, match d_files d !! from with
                | Some c =>
                    let modes := delete from (d_modes d) in
                    (Ok (), set_modes (partial_alter (λ _, d_modes d !! from) to modes)
                              (set_files (<[to := c]> (delete from (d_files d))) d))
                | None => (Err not_found, d)
                end).

Context (data_dir : string).

Definition in_data_dir (path : string) : bool := String.prefix (data_dir +:+ "/") path.

(** 0600 *)
Definition OWNER_ONLY : Z := 6 * 64.

(** [OpenOptions::create(true).truncate(true).mode(0o600)]: the mode is that
    of a file created; one that exists keeps its own. *)
Definition open_truncate (path : string) : Sys unit :=
  syscall (λ d, if in_data_dir path && negb (d_dir d) then (Err not_found, d)
                else
                  let modes := match d_files d !! path with
                               | Some _ => d_modes d
                               | None => <[path := OWNER_ONLY]> (d_modes d)
                               end in
                  (Ok (), set_modes modes (set_files (<[path := ""]> (d_files d)) d))).

(** [write_all] on a file just truncated: the bytes arrive one by one. *)
Definition write_all (path data : string) : Sys unit := λ h,
  let upto k := set_files (<[path := String.substring 0 k data]> (d_files (h_disk h))) (h_disk h) in
  match h_fault h (h_calls h) with
  | Some ft =>
      let n := ft_written ft `min` String.length data in
      (Err (mkIoError OtherIo (ft_text ft)), reach (map upto (seq 0 n)) (upto n) h)
  | None => (Ok (), reach (map upto (seq 0 (String.length data))) (upto (String.length data)) h)
  end.

Definition set_permissions (path : string) (mode : Z) : Sys unit :=
  syscall (λ d, (Ok (), set_modes (<[path := mode]> (d_modes d)) d)).

Definition create_dir : Sys unit :=
  syscall (λ d, (Ok (), mkDurable true (d_files d) (d_modes d) (d_links d))).

(** [map_err(|source| SysResolverError::Io { context, source })] *)
Definition ctx {A} (context : string) (m : Sys A) : IO A := λ h,
  let '(r, h) := m h in (map_err (λ e, SrIo context (io_text e)) r, h).

(** ** fsutil.rs *)

Definition create_dir_all_owner_only : IO unit := λ h,
  if d_dir (h_disk h) then (Ok (), h) else ctx ("create directory " +:+ data_dir) create_dir h.

Definition write_owner_only (path data : string) : IO unit :=
  let! _ := ctx ("create " +:+ path) (open_truncate path) in
  let! _ := ctx ("write " +:+ path) (write_all path data) in
  ctx ("chmod " +:+ path) (set_permissions path OWNER_ONLY).

(** ** marker.rs *)

Context `{MarkerCodec}.

Definition MARKER_FILENAME : string := "dns-applied.json".
Definition marker_path : string := data_dir +:+ "/" +:+ MARKER_FILENAME.

Definition marker_new (now : Z) (backend : string) (previous : list Ip) : Marker :=
  mkMarker (map ip_to_string previous) backend now.

Definition parse_servers (m : Marker) : list Ip := omap ip_parse (mk_previous_servers m).

Definition marker_write (m : Marker) : IO unit :=
  let! _ := create_dir_all_owner_only in
  let! data := pure (map_err (λ e, SrBackend ("failed to serialize crash marker: " +:+ e))
                      (marker_to_vec m)) in
  write_owner_only marker_path data.

(** The path the bad marker is found under afterwards. *)
Definition quarantine (h : Host) : string * Host :=
  let quarantined := marker_path +:+ ".corrupt-" +:+ pretty (h_now h) in
  let '(r, h) := rename marker_path quarantined h in
  (match r with Ok _ => quarantined | Err _ => marker_path end, h).

Definition marker_load : IO (option Marker) := λ h,
  let '(r, h) := read marker_path h in
  match r with
  | Err e =>
      match io_kind e with
      | NotFound => (Ok None, h)
      | OtherIo => (Err (SrIo ("read crash marker " +:+ marker_path) (io_text e)), h)
      end
  | Ok data =>
      match marker_from_slice data with
      | Ok m => (Ok (Some m), h)
      | Err parse_err =>
          let '(quarantined, h) := quarantine h in
          (Err (CorruptMarker marker_path quarantined parse_err), h)
      end
  end.

Definition marker_delete : IO unit := λ h,
  let '(r, h) := remove_file marker_path h in
  match r with
  | Ok _ => (Ok (), h)
  | Err e =>
      match io_kind e with
      | NotFound => (Ok (), h)
      | OtherIo => (Err (SrIo ("delete crash marker " +:+ marker_path) (io_text e)), h)
      end
  end.

(** ** backend.rs *)

Record PlatformBackend := mkBackend {
  pb_name : string;
  pb_snapshot : IO (list Ip);
  pb_commit : list Ip → IO unit;
  pb_restore : list Ip → IO unit;
  pb_current : IO (list Ip);
}.

(** ** linux/resolv_conf.rs *)

Context `{Utf8}.
Context (resolv_conf_path : string).

Definition BACKUP_FILENAME : string := "resolv.conf.backup".
Definition backup_path : string := data_dir +:+ "/" +:+ BACKUP_FILENAME.

Definition parse_nameserver (line : string) : option Ip :=
  rest ← strip_prefix "nameserver " (trim line); ip_parse (trim rest).

Definition parse_nameservers (content : string) : list Ip := omap parse_nameserver (lines content).

Definition format_resolv_conf (servers : list Ip) : string :=
  join newline
    ("# Generated by penguin squawk module"
       :: map (λ server, "nameserver " +:+ ip_to_string server) servers ++ [""]).

Definition conf_snapshot : IO (list Ip) := λ h,
  let '(r, h) := read resolv_conf_path h in
  match r with
  | Err e =>
      match io_kind e with
      | NotFound => (Ok [], h)
      | OtherIo => (Err (SrIo ("read " +:+ resolv_conf_path) (io_text e)), h)
      end
  | Ok content =>
      (let! _ := write_owner_only backup_path content in
       pure (Ok (parse_nameservers (from_utf8_lossy content)))) h
  end.

Definition conf_commit (servers : list Ip) : IO unit :=
  write_owner_only resolv_conf_path (format_resolv_conf servers).

Definition conf_restore (fallback_servers : list Ip) : IO unit := λ h,
  let '(r, h) := read backup_path h in
  match r with
  | Err e =>
      match io_kind e with
      | NotFound => conf_commit fallback_servers h
      | OtherIo => (Err (SrIo ("read " +:+ backup_path) (io_text e)), h)
      end
  | Ok backup =>
      (let! _ := write_owner_only resolv_conf_path backup in
       λ h, let '(_, h) := remove_file backup_path h in (Ok (), h)) h
  end.

Definition conf_current : IO (list Ip) := λ h,
  let '(r, h) := ctx ("read " +:+ resolv_conf_path) (read resolv_conf_path) h in
  match r with
  | Err e => (Err e, h)
  | Ok content =>
      if negb (is_utf8 content)
      then (Err (SrIo ("read " +:+ resolv_conf_path) "stream did not contain valid UTF-8"), h)
      else
        match parse_nameservers content with
        | [] => (Err (SrBackend ("no nameservers found in " +:+ resolv_conf_path)), h)
        | servers => (Ok servers, h)
        end
  end.

Definition resolv_conf_backend : PlatformBackend :=
  mkBackend "resolv.conf" conf_snapshot conf_commit conf_restore conf_current.

(** ** linux/links.rs *)

Record Link := mkLink { lk_name : string; lk_index : Z }.

Definition sysfs_net_dir : string := "/sys/class/net".

Fixpoint collect_links (entries : list (result (string * result string string) string)) :
    result (list Link) SysResolverError :=
  match entries with
  | [] => Ok []
  | Err e :: _ => Err (SrIo ("read directory entry in " +:+ sysfs_net_dir) e)
  | Ok (name, index) :: entries =>
      if decide (name = "lo") then collect_links entries
      else
        let index_path := sysfs_net_dir +:+ "/" +:+ name +:+ "/ifindex" in
        match index with
        | Err e => Err (SrIo ("read " +:+ index_path) e)
        | Ok raw =>
            match parse_i32 (trim raw) with
            | None => Err (SrBackend ("invalid ifindex content in " +:+ index_path))
            | Some i => let? rest := collect_links entries in Ok (mkLink name i :: rest)
            end
        end
  end.

Definition enumerate_links (net : result (list (result (string * result string string) string)) string) :
    result (list Link) SysResolverError :=
  match net with
  | Err e => Err (SrIo ("list network interfaces in " +:+ sysfs_net_dir) e)
  | Ok entries =>
      let? links := collect_links entries in
      Ok (sort_by (λ a b, String.leb (lk_name a) (lk_name b)) links)
  end.

(** ** linux/resolved.rs *)

(** A call of [org.freedesktop.resolve1.Manager]. *)
Definition bus {A} (method : string) (f : Durable → result A IoError * Durable) : IO A := λ h,
  let '(r, h) := syscall f h in (map_err (λ e, SrBackend (method +:+ ": " +:+ io_text e)) r, h).

Definition set_link_dns (i : Z) (servers : list Ip) : IO unit :=
  bus "SetLinkDNS" (λ d,
    let route := from_option ln_default_route false (d_links d !! i) in
    (Ok (), set_links (<[i := mkLinkDns servers route]> (d_links d)) d)).

Definition set_link_default_route (i : Z) (enable : bool) : IO unit :=
  bus "SetLinkDefaultRoute" (λ d,
    let servers := from_option ln_servers [] (d_links d !! i) in
    (Ok (), set_links (<[i := mkLinkDns servers enable]> (d_links d)) d)).

Definition revert_link (i : Z) : IO unit :=
  bus "RevertLink" (λ d, (Ok (), set_links (delete i (d_links d)) d)).

Definition resolved_snapshot : IO (list Ip) := λ h,
  if h_resolved h then (Ok [], h)
  else (Err (SrBackend "systemd-resolved is not reachable on the system bus"), h).

Fixpoint set_links_dns (targets : list Link) (servers : list Ip) : IO unit :=
  match targets with
  | [] => pure (Ok ())
  | link :: targets =>
      let! _ := set_link_dns (lk_index link) servers in
      let! _ := set_link_default_route (lk_index link) true in
      set_links_dns targets servers
  end.

Definition resolved_commit (servers : list Ip) : IO unit := λ h,
  match enumerate_links (h_net h) with
  | Err e => (Err e, h)
  | Ok [] => (Err (SrBackend "no network links found"), h)
  | Ok targets => set_links_dns targets servers h
  end.

Fixpoint revert_links (targets : list Link) : IO unit :=
  match targets with
  | [] => pure (Ok ())
  | link :: targets => let! _ := revert_link (lk_index link) in revert_links targets
  end.

Definition resolved_restore (fallback_servers : list Ip) : IO unit := λ h,
  match enumerate_links (h_net h) with
  | Err e => (Err e, h)
  | Ok targets => revert_links targets h
  end.

Definition resolved_current : IO (list Ip) :=
  pure (Err (SrBackend "systemd-resolved current-servers query not supported")).

Definition resolved_backend : PlatformBackend :=
  mkBackend "systemd-resolved" resolved_snapshot resolved_commit resolved_restore resolved_current.

(** linux/mod.rs *)
Definition build_backends : list PlatformBackend := [resolved_backend; resolv_conf_backend].

(** ** mod.rs *)

Fixpoint select_and_snapshot (last_err : option SysResolverError) (bs : list PlatformBackend) :
    IO (PlatformBackend * list Ip) :=
  match bs with
  | [] => pure (Err (default NoBackendAvailable last_err))
  | b :: bs => λ h,
      let '(attempt, h) := pb_snapshot b h in
      match attempt with
      | Ok previous => (Ok (b, previous), h)
      | Err err => select_and_snapshot (Some err) bs h
      end
  end.

Section Resolver.
  Context (backends : list PlatformBackend).

Definition apply (servers : list Ip) : IO unit :=
  if decide (servers = []) then pure (Err NoServers)
  else
    let! selected := select_and_snapshot None backends in
    let '(backend, previous) := selected in
    λ h,
    (let! _ := marker_write (marker_new (h_now h) (pb_name backend) previous) in
     λ h,
     let '(committed, h) := pb_commit backend servers h in
     match committed with
     | Err err => let '(_, h) := marker_delete h in (Err err, h)
     | Ok _ => (Ok (), set_applied (Some (pb_name backend, previous)) h)
     end) h.

Fixpoint find_named (name : string) (bs : list PlatformBackend) : option PlatformBackend :=
  match bs with
  | [] => None
  | b :: bs => if decide (pb_name b = name) then Some b else find_named name bs
  end.

Definition find_backend (name : string) : result PlatformBackend SysResolverError :=
  match find_named name backends with
  | Some b => Ok b
  | None => ok_or (head backends) NoBackendAvailable
  end.

Definition load_marker_or_fail : IO (string * list Ip) :=
  let! loaded := marker_load in
  pure (match loaded with
        | None => Err NoBackupAvailable
        | Some m => Ok (mk_backend m, parse_servers m)
        end).

Definition restore : IO unit := λ h,
  (let! resolved := match h_applied h with
                    | Some recorded => pure (Ok recorded)
                    | None => load_marker_or_fail
                    end in
   let '(backend_name, previous) := resolved in
   let! backend := pure (find_backend backend_name) in
   let! _ := pb_restore backend previous in
   λ h, let '(_, h) := marker_delete (set_applied None h) in (Ok (), h)) h.

Fixpoint current_loop (last_err : option SysResolverError) (bs : list PlatformBackend) : IO (list Ip) :=
  match bs with
  | [] => pure (Err (default NoBackendAvailable last_err))
  | b :: bs => λ h,
      let '(attempt, h) := pb_current b h in
      match attempt with
      | Ok [] => current_loop last_err bs h
      | Ok servers => (Ok servers, h)
      | Err err => current_loop (Some err) bs h
      end
  end.

Definition current : IO (list Ip) := current_loop None backends.

Definition recover_from_crash : IO unit :=
  let! loaded := marker_load in
  match loaded with
  | None => pure (Ok ())
  | Some marker =>
      let! backend := pure (find_backend (mk_backend marker)) in
      let! _ := pb_restore backend (parse_servers marker) in
      let! _ := marker_delete in
      λ h, (Ok (), set_applied None h)
  end.
End Resolver.
End Host.

Arguments Durable _ : clear implicits.
Arguments Host _ : clear implicits.
