(* ===== verification/SysResolverFacts.v ===== *)
(** * What the resolver's operations do to the host

    How each call moves the host's durable state; the contract a backend keeps
    so that its changes can be undone after a crash ([Recoverable]), kept by
    both Linux backends; and what recovery does in the states that the
    contract allows. *)
From S2P Require Import Prelude.
From S2P Require Import Text.
From S2P Require Import Mask.
From S2P Require Import SysResolver.

Lemma substring_full s : String.substring 0 (String.length s) s = s.
Proof. induction s as [|c s IH]; [done|]. simpl. by rewrite IH. Qed.

Section Facts.
  Context `{IpAddr} `{MarkerCodec} `{Utf8}.
  Context (data_dir resolv_conf_path : string).

Local Abbreviation marker := (marker_path data_dir).
Local Abbreviation backup := (backup_path data_dir).

(** ** Moving the host *)

Definition put (path data : string) (d : Durable _) : Durable _ :=
  set_files (<[path := data]> (d_files d)) d.

(** From [h] to [h'] only states in [P] were seen; everything but the disk
    and its history is as before. *)
Record moved (P : Durable _ → Prop) (h h' : Host _) : Prop := mkMoved {
  mv_seen : ∃ ds, h_seen h' = h_seen h ++ ds ∧ Forall P ds;
  mv_disk : h_disk h' = h_disk h ∨ P (h_disk h');
  mv_fault : h_fault h' = h_fault h;
  mv_now : h_now h' = h_now h;
  mv_resolved : h_resolved h' = h_resolved h;
  mv_net : h_net h' = h_net h;
  mv_applied : h_applied h' = h_applied h;
}.

Lemma moved_refl P h : moved P h h.
Proof. split; try done; [exists []; by rewrite app_nil_r|by left]. Qed.

Lemma moved_trans P h1 h2 h3 : moved P h1 h2 → moved P h2 h3 → moved P h1 h3.
Proof.
  intros [(ds1 & Hs1 & Hp1) Hd1 ?????] [(ds2 & Hs2 & Hp2) Hd2 ?????]. split; try congruence.
  - exists (ds1 ++ ds2). rewrite Hs2, Hs1, app_assoc. split; [done|by apply Forall_app].
  - destruct Hd2 as [Hd2|]; [|by right]. rewrite Hd2. done.
Qed.

Lemma moved_weaken (P Q : Durable _ → Prop) h h' : (∀ d, P d → Q d) → moved P h h' → moved Q h h'.
Proof.
  intros HPQ [(ds & Hs & Hp) Hd ?????]. split; try done.
  - exists ds. split; [done|]. by eapply Forall_impl.
  - destruct Hd; auto.
Qed.

Lemma moved_disk P h h' : P (h_disk h) → moved P h h' → P (h_disk h').
Proof. intros HP Hm. by destruct (mv_disk _ _ _ Hm) as [->|]. Qed.

Lemma reach_moved (P : Durable _ → Prop) ds d h : Forall P ds → P d → moved P h (reach ds d h).
Proof.
  intros Hds Hd. split; simpl; try done; [|by right]. exists (ds ++ [d]). split; [done|].
  apply Forall_app. split; [done|by constructor].
Qed.

Lemma syscall_moved {A} (f : Durable _ → result A IoError * Durable _) (P : Durable _ → Prop) h r h' :
  syscall f h = (r, h') → P (h_disk h) → P (f (h_disk h)).2 → moved P h h'.
Proof.
  unfold syscall. destruct (h_fault h (h_calls h)); intros E HP Hf.
  - injection E as <- <-. by apply reach_moved.
  - destruct (f (h_disk h)) as [r0 d] eqn:Ef. injection E as <- <-. by apply reach_moved.
Qed.

(** A host on which nothing fails. *)
Definition faultless (h : Host _) : Prop := ∀ n, h_fault h n = None.

Lemma moved_faultless P h h' : moved P h h' → faultless h → faultless h'.
Proof. intros Hm Hf n. by rewrite (mv_fault _ _ _ Hm). Qed.

Lemma syscall_faultless {A} (f : Durable _ → result A IoError * Durable _) h :
  faultless h → syscall f h = ((f (h_disk h)).1, reach [] (f (h_disk h)).2 h).
Proof. intros Hf. unfold syscall. rewrite Hf. by destruct (f (h_disk h)). Qed.

Lemma put_put path a b d : put path b (put path a d) = put path b d.
Proof. unfold put, set_files. simpl. by rewrite insert_insert_eq. Qed.

(** [d] is [d0] but for the mode of [path]. *)
Definition remoded (path : string) (d0 d : Durable _) : Prop :=
  ∃ ms, d = set_modes ms d0 ∧ ∀ p, p ≠ path → ms !! p = d_modes d0 !! p.

Lemma remoded_refl path d : remoded path d d.
Proof. exists (d_modes d). by destruct d. Qed.

Lemma remoded_trans path d1 d2 d3 : remoded path d1 d2 → remoded path d2 d3 → remoded path d1 d3.
Proof.
  intros (m1 & -> & Hm1) (m2 & -> & Hm2). exists m2. split; [done|]. intros p Hp. rewrite Hm2 by done. by apply Hm1.
Qed.

Lemma remoded_put path data d0 d : remoded path d0 d → remoded path (put path data d0) (put path data d).
Proof. intros (ms & -> & Hm). exists ms. by split. Qed.

(** The contents a file passes through while it is written, its mode aside. *)
Definition writing (path data : string) (d0 d : Durable _) : Prop :=
  remoded path d0 d ∨ ∃ k, k ≤ String.length data ∧ remoded path (put path (String.substring 0 k data) d0) d.

Lemma open_truncate_moved path data h r h' :
  open_truncate data_dir path h = (r, h') →
  moved (writing path data (h_disk h)) h h' ∧
  (r = Ok () → remoded path (put path (String.substring 0 0 data) (h_disk h)) (h_disk h')).
Proof.
  intros E. assert (String.substring 0 0 data = "") as E0 by by destruct data.
  set (modes := match d_files (h_disk h) !! path with
                | Some _ => d_modes (h_disk h)
                | None => <[path := OWNER_ONLY]> (d_modes (h_disk h))
                end).
  assert (remoded path (put path (String.substring 0 0 data) (h_disk h))
    (set_modes modes (set_files (<[path := ""]> (d_files (h_disk h))) (h_disk h)))) as Hrm.
  { rewrite E0. exists modes. split; [done|]. intros p Hp. subst modes.
    destruct (d_files (h_disk h) !! path); [done|]. by rewrite lookup_insert_ne. }
  split.
  - eapply syscall_moved; [exact E|left; apply remoded_refl|]. simpl.
    destruct (in_data_dir _ _ && _); [left; apply remoded_refl|]. right. exists 0. split; [lia|exact Hrm].
  - intros ->. revert E. unfold open_truncate, syscall.
    destruct (h_fault h (h_calls h)); [done|]. destruct (in_data_dir _ _ && _); [done|]. intros [= <-]. exact Hrm.
Qed.

Lemma write_all_moved path data h0 h r h' :
  write_all path data h = (r, h') → remoded path (put path (String.substring 0 0 data) h0) (h_disk h) →
  moved (writing path data h0) h h' ∧ (r = Ok () → remoded path (put path data h0) (h_disk h')).
Proof.
  unfold write_all. intros E Hd.
  assert (∀ k, remoded path (put path (String.substring 0 k data) h0)
    (set_files (<[path := String.substring 0 k data]> (d_files (h_disk h))) (h_disk h))) as Hup.
  { intros k. apply (remoded_put path (String.substring 0 k data)) in Hd. by rewrite put_put in Hd. }
  assert (∀ n, n ≤ String.length data →
    Forall (writing path data h0) (map (λ k, set_files (<[path := String.substring 0 k data]>
      (d_files (h_disk h))) (h_disk h)) (seq 0 n))) as Hall.
  { intros n Hn. apply Forall_forall. intros d (k & -> & Hk)%list_elem_of_fmap.
    apply elem_of_seq in Hk. right. exists k. split; [lia|apply Hup]. }
  destruct (h_fault h (h_calls h)); injection E as <- <-.
  - split; [|done]. apply reach_moved; [apply Hall; lia|]. right. eexists. split; [|apply Hup]. lia.
  - split; [|intros _; simpl; specialize (Hup (String.length data)); by rewrite substring_full in Hup |- *].
    apply reach_moved; [by apply Hall|]. right. eexists. split; [|apply Hup]. done.
Qed.

Lemma ctx_inv {A} c (m : Sys A) h r h' :
  ctx c m h = (r, h') → ∃ r0, m h = (r0, h') ∧ r = map_err (λ e, SrIo c (io_text e)) r0.
Proof. unfold ctx. destruct (m h) as [r0 h0]. intros [= <- <-]. eauto. Qed.

Lemma write_owner_only_moved path data h r h' :
  write_owner_only data_dir path data h = (r, h') →
  moved (writing path data (h_disk h)) h h' ∧
  (r = Ok () → remoded path (put path data (h_disk h)) (h_disk h') ∧ d_modes (h_disk h') !! path = Some OWNER_ONLY).
Proof.
  unfold write_owner_only, eff_bind.
  destruct (ctx _ _ h) as [r1 h1] eqn:E1. apply ctx_inv in E1 as (r1' & E1 & ->).
  apply (open_truncate_moved path data) in E1 as [Hm1 Hd1].
  destruct r1' as [[]|e]; simpl; [|by intros [= <- <-]].
  destruct (ctx _ _ h1) as [r2 h2] eqn:E2. apply ctx_inv in E2 as (r2' & E2 & ->).
  eapply write_all_moved in E2 as [Hm2 Hd2]; [|by apply Hd1].
  destruct r2' as [[]|e]; simpl.
  2: { intros [= <- <-]. split; [|done]. by eapply moved_trans. }
  intros E3. apply ctx_inv in E3 as (r3 & E3 & ->). specialize (Hd2 eq_refl).
  assert (remoded path (h_disk h2) (set_modes (<[path := OWNER_ONLY]> (d_modes (h_disk h2))) (h_disk h2))) as Hch.
  { eexists. split; [done|]. intros p Hp. by rewrite lookup_insert_ne. }
  assert (∀ d, remoded path (h_disk h2) d → writing path data (h_disk h) d) as Hw.
  { intros d Hrm. right. exists (String.length data). rewrite substring_full. split; [done|].
    by eapply remoded_trans. }
  split.
  - eapply moved_trans; [exact Hm1|]. eapply moved_trans; [exact Hm2|].
    eapply syscall_moved; [exact E3|apply Hw, remoded_refl|by apply Hw].
  - revert E3. unfold set_permissions, syscall. destruct (h_fault h2 (h_calls h2)); intros [= <- <-]; [done|].
    intros _. simpl. split; [by eapply remoded_trans|apply lookup_insert_eq].
Qed.

Lemma write_owner_only_faultless path data h :
  faultless h → in_data_dir data_dir path = false ∨ d_dir (h_disk h) = true →
  (write_owner_only data_dir path data h).1 = Ok ().
Proof.
  intros Hf Hdir. unfold write_owner_only, eff_bind, ctx, open_truncate.
  rewrite syscall_faultless by done.
  assert (in_data_dir data_dir path && negb (d_dir (h_disk h)) = false) as ->.
  { destruct Hdir as [-> | ->]; [done|]. apply andb_false_r. }
  simpl. unfold write_all. simpl. rewrite Hf. simpl.
  unfold set_permissions. rewrite syscall_faultless; [done|]. intros n. simpl. apply Hf.
Qed.

(** ** The contract of a backend *)

(** What the host resolves with: the contents of [resolv.conf], not its mode,
    and the links' settings. *)
Definition View : Type := option string * gmap Z (LinkDns (H:=_)).
Definition view (d : Durable _) : View := (d_files d !! resolv_conf_path, d_links d).

Definition Net : Type := result (list (result (string * result string string) string)) string.

Definition same_marker (d0 d : Durable _) : Prop := d_files d !! marker = d_files d0 !! marker.

(** Equal but for the marker and the directory. *)
Definition sim (d d' : Durable _) : Prop :=
  d_links d' = d_links d ∧ ∀ p, p ≠ marker → d_files d' !! p = d_files d !! p.

(** [covered]: the hosts whose settings [b] can bring back.  [ready]: from
    this durable state, restoring with these servers brings back that view. *)
Class Recoverable (b : PlatformBackend) (covered : Net → View → Prop)
    (ready : Net → list Ip → View → Durable _ → Prop) : Prop := {
  rc_snapshot : ∀ h r h', pb_snapshot b h = (r, h') →
    moved (λ d, view d = view (h_disk h) ∧ same_marker (h_disk h) d) h h';
  rc_ready : ∀ h prev h', pb_snapshot b h = (Ok prev, h') →
    covered (h_net h) (view (h_disk h)) → ready (h_net h) prev (view (h_disk h)) (h_disk h');
  rc_stable : ∀ net prev v d d', ready net prev v d → sim d d' → ready net prev v d';
  rc_commit : ∀ servers h r h' prev v, pb_commit b servers h = (r, h') →
    ready (h_net h) prev v (h_disk h) →
    moved (λ d, ready (h_net h) prev v d ∧ same_marker (h_disk h) d) h h';
  rc_restore : ∀ h prev v, faultless h → ready (h_net h) prev v (h_disk h) →
    ∃ h', pb_restore b prev h = (Ok (), h') ∧ view (h_disk h') = v ∧
      moved (same_marker (h_disk h)) h h';
}.

Context (Hlive : in_data_dir data_dir resolv_conf_path = false).

Lemma in_dir name : in_data_dir data_dir (data_dir +:+ "/" +:+ name) = true.
Proof. unfold in_data_dir. rewrite <- string_app_assoc. apply prefix_app. Qed.

Lemma string_app_inj s t u : s +:+ t = s +:+ u → t = u.
Proof. induction s as [|c s IH]; [done|]. rewrite !string_app_cons. by intros [= ?%IH]. Qed.

Lemma live_not_in_dir name : resolv_conf_path ≠ data_dir +:+ "/" +:+ name.
Proof. intros E. pose proof (in_dir name) as Hin. rewrite <- E, Hlive in Hin. done. Qed.

Lemma live_ne_marker : resolv_conf_path ≠ marker.
Proof. apply live_not_in_dir. Qed.
Lemma live_ne_backup : resolv_conf_path ≠ backup.
Proof. apply live_not_in_dir. Qed.
Lemma backup_ne_marker : backup ≠ marker.
Proof. unfold backup_path, marker_path. by intros ?%string_app_inj. Qed.

Hint Resolve live_ne_marker live_ne_backup backup_ne_marker : core.

Lemma lookup_put path data d p :
  d_files (put path data d) !! p = if decide (p = path) then Some data else d_files d !! p.
Proof. unfold put. simpl. case_decide; subst; by simplify_map_eq. Qed.

Lemma remoded_files path d0 d : remoded path d0 d → d_files d = d_files d0 ∧ d_links d = d_links d0.
Proof. by intros (ms & -> & _). Qed.

Lemma writing_view path data d0 d : path ≠ resolv_conf_path → writing path data d0 d → view d = view d0.
Proof.
  intros Hne [Hd|(k & _ & Hd)]; apply remoded_files in Hd as [Hf Hl]; unfold view; rewrite Hf, Hl; [done|].
  by rewrite lookup_put, decide_False.
Qed.

Lemma writing_other path data d0 d p : p ≠ path → writing path data d0 d → d_files d !! p = d_files d0 !! p.
Proof.
  intros Hne [Hd|(k & _ & Hd)]; apply remoded_files in Hd as [-> _]; [done|]. by rewrite lookup_put, decide_False.
Qed.

Lemma writing_links path data d0 d : writing path data d0 d → d_links d = d_links d0.
Proof. by intros [Hd|(k & _ & Hd)]; apply remoded_files in Hd as [_ ->]. Qed.

Lemma read_inv path h r h' :
  read path h = (r, h') →
  h_disk h' = h_disk h ∧ (∀ P : Durable _ → Prop, P (h_disk h) → moved P h h') ∧
  (∀ c, r = Ok c → d_files (h_disk h) !! path = Some c) ∧
  (faultless h → r = ok_or (d_files (h_disk h) !! path) not_found).
Proof.
  intros E. split_and!.
  - revert E. unfold read, syscall. by destruct (h_fault h (h_calls h)); intros [= _ <-].
  - intros P HP. by eapply syscall_moved.
  - intros c ->. revert E. unfold read, syscall. destruct (h_fault h (h_calls h)); [done|].
    by destruct (d_files (h_disk h) !! path); intros [= <- _].
  - intros Hf. unfold read in E. rewrite syscall_faultless in E by done. by injection E.
Qed.

(** *** resolv.conf *)

Definition conf_covered (_ : Net) (v : View) : Prop := is_Some v.1.
Definition conf_ready (_ : Net) (_ : list Ip) (v : View) (d : Durable _) : Prop :=
  ∃ c, d_files d !! backup = Some c ∧ v = (Some c, d_links d).

Lemma conf_snapshot_moved :
  ∀ h r h', conf_snapshot data_dir resolv_conf_path h = (r, h') →
    moved (λ d, view d = view (h_disk h) ∧ same_marker (h_disk h) d) h h'.
Proof.
  intros h r h' E. unfold conf_snapshot in E.
  destruct (read resolv_conf_path h) as [r1 h1] eqn:E1.
  apply read_inv in E1 as (Hd1 & Hm1 & _). 
  specialize (Hm1 (λ d, view d = view (h_disk h) ∧ same_marker (h_disk h) d) (conj eq_refl eq_refl)).
  destruct r1 as [content|[k t]]; [|destruct k; injection E as <- <-; exact Hm1].
  unfold eff_bind in E. destruct (write_owner_only _ _ _ h1) as [r2 h2] eqn:E2.
  apply write_owner_only_moved in E2 as [Hm2 _]. rewrite Hd1 in Hm2.
  assert (h' = h2) as -> by (by destruct r2; injection E as <- <-).
  eapply moved_trans; [exact Hm1|]. eapply moved_weaken; [|exact Hm2]. intros d Hd. split.
  - eapply writing_view; [|exact Hd]. done.
  - eapply writing_other; [|exact Hd]. done.
Qed.

Lemma conf_snapshot_ready :
  ∀ h prev h', conf_snapshot data_dir resolv_conf_path h = (Ok prev, h') →
    conf_covered (h_net h) (view (h_disk h)) →
    conf_ready (h_net h) prev (view (h_disk h)) (h_disk h').
Proof.
  intros h prev h' E [c Hc]. simpl in Hc. unfold conf_snapshot in E.
  destruct (read resolv_conf_path h) as [r1 h1] eqn:E1.
  pose proof E1 as E1'. apply read_inv in E1 as (Hd1 & _ & Hok & _).
  destruct r1 as [content|[k t]].
  - rewrite (Hok content) in Hc by done. injection Hc as ->.
    unfold eff_bind in E. destruct (write_owner_only _ _ _ h1) as [r2 h2] eqn:E2.
    apply write_owner_only_moved in E2 as [_ Hd2].
    destruct r2 as [[]|]; [|done]. injection E as _ <-.
    destruct (Hd2 eq_refl) as [[Hf2 Hl2]%remoded_files _].
    exists c. rewrite Hf2, lookup_put, decide_True, Hl2 by done. split; [done|].
    unfold view. rewrite (Hok c) by done. simpl. by rewrite Hd1.
  - destruct k; [|done]. exfalso. revert E1'. unfold read, syscall.
    destruct (h_fault h (h_calls h)); [done|]. by rewrite Hc.
Qed.

Lemma conf_ready_stable :
  ∀ net prev v d d', conf_ready net prev v d → sim d d' → conf_ready net prev v d'.
Proof.
  intros net prev v d d' (c & Hc & ->) [Hl Hf]. exists c. rewrite Hf, Hl by done. done.
Qed.

Lemma conf_commit_ready :
  ∀ servers h r h' prev v, conf_commit data_dir resolv_conf_path servers h = (r, h') →
    conf_ready (h_net h) prev v (h_disk h) →
    moved (λ d, conf_ready (h_net h) prev v d ∧ same_marker (h_disk h) d) h h'.
Proof.
  intros servers h r h' prev v E (c & Hc & ->).
  apply write_owner_only_moved in E as [Hm _]. eapply moved_weaken; [|exact Hm]. intros d Hd. split.
  - exists c. rewrite (writing_links _ _ _ _ Hd). split; [|done].
    by rewrite (writing_other _ _ _ _ backup (not_eq_sym live_ne_backup) Hd).
  - eapply writing_other; [|exact Hd]. done.
Qed.

Lemma conf_restore_back :
  ∀ h prev v, faultless h → conf_ready (h_net h) prev v (h_disk h) →
    ∃ h', conf_restore data_dir resolv_conf_path prev h = (Ok (), h') ∧ view (h_disk h') = v ∧
      moved (same_marker (h_disk h)) h h'.
Proof.
  intros h prev v Hf (c & Hc & ->). unfold conf_restore.
  destruct (read backup h) as [r1 h1] eqn:E1. apply read_inv in E1 as (Hd1 & Hm1 & _ & Hr).
  rewrite (Hr Hf), Hc. simpl. specialize (Hm1 (same_marker (h_disk h)) eq_refl).
  pose proof (moved_faultless _ _ _ Hm1 Hf) as Hf1.
  unfold eff_bind. destruct (write_owner_only _ _ _ h1) as [r2 h2] eqn:E2.
  pose proof (write_owner_only_faultless resolv_conf_path c h1 Hf1 (or_introl Hlive)) as Hok.
  rewrite E2 in Hok. simpl in Hok. subst r2. apply write_owner_only_moved in E2 as [Hm2 Hd2].
  pose proof (moved_faultless _ _ _ Hm2 Hf1) as Hf2.
  unfold remove_file. rewrite syscall_faultless by done.
  destruct (Hd2 eq_refl) as [[Hf2' Hl2]%remoded_files _].
  rewrite Hf2', lookup_put, decide_False, Hd1, Hc by done. simpl.
  eexists. split; [done|]. split.
  { unfold view. simpl. rewrite lookup_delete_ne, lookup_insert_eq, Hl2 by done. simpl. by rewrite Hd1. }
  eapply moved_trans; [exact Hm1|]. eapply moved_trans.
  { eapply moved_weaken; [|exact Hm2]. intros d Hd. rewrite Hd1 in Hd.
    eapply writing_other; [|exact Hd]. done. }
  apply reach_moved; [done|]. unfold same_marker. simpl.
  by rewrite lookup_delete_ne, lookup_insert_ne by done.
Qed.

#[export] Instance conf_recoverable :
  Recoverable (resolv_conf_backend data_dir resolv_conf_path) conf_covered conf_ready.
Proof.
  split; [exact conf_snapshot_moved|exact conf_snapshot_ready|exact conf_ready_stable
    |exact conf_commit_ready|exact conf_restore_back].
Qed.

(** *** systemd-resolved *)

Definition indices (net : Net) : list Z :=
  match enumerate_links net with Ok links => map lk_index links | Err _ => [] end.

(** No link has settings of its own before. *)
Definition resolved_covered (net : Net) (v : View) : Prop :=
  is_ok (enumerate_links net) = true ∧ ∀ i, i ∈ indices net → v.2 !! i = None.

(** Only the enumerated links may differ. *)
Definition resolved_ready (net : Net) (_ : list Ip) (v : View) (d : Durable _) : Prop :=
  resolved_covered net v ∧ d_files d !! resolv_conf_path = v.1 ∧
  ∀ i, i ∉ indices net → d_links d !! i = v.2 !! i.

Lemma bus_moved {A} m (f : Durable _ → result A IoError * Durable _) (P : Durable _ → Prop) h r h' :
  bus m f h = (r, h') → P (h_disk h) → P (f (h_disk h)).2 → moved P h h'.
Proof.
  unfold bus. destruct (syscall f h) as [r0 h0] eqn:E. intros [= _ <-]. by eapply syscall_moved.
Qed.

Lemma set_links_dns_moved (P : Durable _ → Prop) targets servers :
  (∀ i d ln, i ∈ map lk_index targets → P d → P (set_links (<[i := ln]> (d_links d)) d)) →
  ∀ h r h', set_links_dns targets servers h = (r, h') → P (h_disk h) → moved P h h'.
Proof.
  induction targets as [|l targets IH]; intros HP h r h' E Hd; simpl in E.
  { injection E as _ <-. apply moved_refl. }
  assert (∀ d ln, P d → P (set_links (<[lk_index l := ln]> (d_links d)) d)) as Hl.
  { intros. apply HP; [|done]. simpl. set_solver. }
  unfold eff_bind in E.
  destruct (set_link_dns _ _ h) as [r1 h1] eqn:E1.
  eapply (bus_moved _ _ P) in E1; [|done|by apply Hl].
  pose proof (moved_disk _ _ _ Hd E1) as Hd1.
  destruct r1; [|by injection E as _ <-].
  destruct (set_link_default_route _ _ h1) as [r2 h2] eqn:E2.
  eapply (bus_moved _ _ P) in E2; [|done|by apply Hl].
  pose proof (moved_disk _ _ _ Hd1 E2) as Hd2.
  pose proof (moved_trans _ _ _ _ E1 E2) as Hm. destruct r2; [|by injection E as _ <-].
  eapply moved_trans; [exact Hm|]. eapply IH; [|exact E|done].
  intros. apply HP; [|done]. simpl. set_solver.
Qed.

Lemma revert_links_faultless targets h :
  faultless h →
  ∃ h', revert_links targets h = (Ok (), h') ∧ d_files (h_disk h') = d_files (h_disk h) ∧
    (∀ i, d_links (h_disk h') !! i =
      if decide (i ∈ map lk_index targets) then None else d_links (h_disk h) !! i) ∧
    moved (same_marker (h_disk h)) h h'.
Proof.
  revert h. induction targets as [|l targets IH]; intros h Hf; simpl.
  { exists h. split_and!; [done..| |apply moved_refl]. done. }
  unfold eff_bind, revert_link, bus. rewrite syscall_faultless by done. simpl.
  match goal with |- context [revert_links targets ?x] => set (h1 := x) end.
  destruct (IH h1) as (h' & -> & Hfl & Hl & Hm); [done|].
  exists h'. split_and!; [done|by rewrite Hfl| |].
  - intros i. rewrite Hl. simpl. destruct (decide (i ∈ map lk_index targets)).
    + by rewrite decide_True by set_solver.
    + destruct (decide (i = lk_index l)) as [->|].
      * rewrite decide_True by set_solver. apply lookup_delete_eq.
      * rewrite decide_False by set_solver. by rewrite lookup_delete_ne.
  - eapply moved_trans; [|exact Hm]. by apply reach_moved.
Qed.

#[export] Instance resolved_recoverable : Recoverable resolved_backend resolved_covered resolved_ready.
Proof.
  split.
  - intros h r h'. simpl. unfold resolved_snapshot.
    destruct (h_resolved h); intros [= _ <-]; apply moved_refl.
  - intros h prev h'. simpl. unfold resolved_snapshot.
    destruct (h_resolved h); [|done]. by intros [= _ <-] Hc.
  - intros net prev v d d' (Hc & Hv & Hl) [Hl' Hf]. split_and!; [done|by rewrite Hf|].
    intros i Hi. rewrite Hl'. auto.
  - intros servers h r h' prev v E (Hc & Hv & Hl). simpl in E. unfold resolved_commit in E.
    assert (∀ ts, enumerate_links (h_net h) = Ok ts → map lk_index ts = indices (h_net h)) as Hi.
    { intros ts Ets. unfold indices. by rewrite Ets. }
    destruct (enumerate_links (h_net h)) as [[|l ts]|]; [injection E as _ <-; apply moved_refl| |].
    + eapply set_links_dns_moved; [|exact E|exact (conj (conj Hc (conj Hv Hl)) eq_refl)].
      intros i d ln Hin ((? & ? & Hd) & ?). rewrite (Hi _ eq_refl) in Hin.
      split; [|done]. split_and!; [done..|]. intros j Hj. simpl.
      rewrite lookup_insert_ne; [auto|]. by intros ->.
    + injection E as _ <-. apply moved_refl.
  - intros h prev v Hf ((Hok & Hnone) & Hv & Hl). simpl. unfold resolved_restore.
    assert (∃ ts, enumerate_links (h_net h) = Ok ts ∧ map lk_index ts = indices (h_net h)) as (ts & -> & Hi).
    { unfold indices. destruct (enumerate_links (h_net h)); [eauto|done]. }
    destruct (revert_links_faultless ts h Hf) as (h' & -> & Hfl & Hls & Hm).
    exists h'. split_and!; [done| |done]. unfold view. rewrite Hfl, Hv.
    destruct v as [v1 v2]. simpl in *. f_equal. apply map_eq. intros i. rewrite Hls, Hi.
    destruct (decide (i ∈ indices (h_net h))) as [Hin|Hin]; [by rewrite Hnone|auto].
Qed.

(** ** Recovery *)

(** The process died in the durable state [d]; nothing fails afterwards. *)
Definition reboot (d : Durable _) (h : Host _) : Host _ :=
  mkHost d [] (λ _, None) 0 (h_now h) (h_resolved h) (h_net h) None.

Section Recovery.
  Context (backends : list PlatformBackend)
    (cov : string → Net → View → Prop) (rdy : string → Net → list Ip → View → Durable _ → Prop).
  Context (Hrec : ∀ b, b ∈ backends → Recoverable b (cov (pb_name b)) (rdy (pb_name b))).
  Context (Hnames : NoDup (map pb_name backends)).

(** The durable states from which recovery brings back the view [v]. *)
Inductive recoverable (net : Net) (v : View) (d : Durable _) : Prop :=
| RecoverableUntouched :
    d_files d !! marker = None → view d = v → recoverable net v d
| RecoverableCorrupt data e :
    d_files d !! marker = Some data → marker_from_slice data = Err e → view d = v →
    recoverable net v d
| RecoverableReady data m b prev :
    d_files d !! marker = Some data → marker_from_slice data = Ok m → b ∈ backends →
    mk_backend m = pb_name b → parse_servers m = prev → rdy (pb_name b) net prev v d →
    recoverable net v d.

Lemma find_backend_in b : b ∈ backends → find_backend backends (pb_name b) = Ok b.
Proof.
  unfold find_backend. intros Hb.
  assert (find_named (pb_name b) backends = Some b) as ->; [|done].
  clear Hrec. revert Hb Hnames. generalize backends. intros bs. induction bs as [|b' bs IH]; intros Hb Hnd; [by apply elem_of_nil in Hb|].
  apply NoDup_cons in Hnd as [Hn Hnd]. simpl. apply elem_of_cons in Hb as [->|Hb]; [by rewrite decide_True|].
  destruct (decide (pb_name b' = pb_name b)) as [E|]; [|auto].
  exfalso. apply Hn. rewrite E. by apply list_elem_of_fmap_2.
Qed.

Lemma marker_delete_faultless h :
  faultless h →
  ∃ h', marker_delete data_dir h = (Ok (), h') ∧ view (h_disk h') = view (h_disk h) ∧
    d_files (h_disk h') !! marker = None ∧ h_applied h' = h_applied h ∧ faultless h'.
Proof.
  intros Hf. unfold marker_delete, remove_file. rewrite syscall_faultless by done.
  destruct (d_files (h_disk h) !! marker) eqn:E; simpl; eexists; (split; [done|]); simpl.
  - split_and!; [|apply lookup_delete_eq|done|done]. unfold view. simpl. by rewrite lookup_delete_ne by done.
  - done.
Qed.

Lemma read_faultless path h :
  faultless h →
  read path h = (ok_or (d_files (h_disk h) !! path) not_found, reach [] (h_disk h) h).
Proof. intros Hf. unfold read. by rewrite syscall_faultless. Qed.

(** Recovery after a crash in a recoverable state. *)
Lemma recover_outcome v d h :
  recoverable (h_net h) v d →
  let '(r, h') := recover_from_crash data_dir backends (reboot d h) in
  view (h_disk h') = v ∧ d_files (h_disk h') !! marker = None ∧
  (r = Ok () ∨ ∃ q e, r = Err (CorruptMarker marker q e)).
Proof.
  intros Hd. unfold recover_from_crash, eff_bind, marker_load.
  assert (faultless (reboot d h)) as Hf by done. rewrite read_faultless by done. simpl.
  inversion_clear Hd as [Hm Hv|data e Hm Hp Hv|data m b prev Hm Hp Hb Hn Hs Hr]; rewrite Hm; simpl.
  - split_and!; [done|done|by left].
  - rewrite Hp. unfold quarantine, rename. simpl.
    rewrite syscall_faultless by done. simpl. rewrite Hm. simpl.
    split_and!; [| |right; eauto].
    + rewrite <- Hv. unfold view. simpl.
      rewrite lookup_insert_ne; [by rewrite lookup_delete_ne by done|].
      intros E. apply (live_not_in_dir (MARKER_FILENAME +:+ ".corrupt-" +:+ pretty (h_now h))).
      rewrite <- E. unfold marker_path. by rewrite !string_app_assoc.
    + rewrite lookup_insert_ne; [apply lookup_delete_eq|].
      intros E. apply (f_equal String.length) in E. rewrite !string_length_app in E. simpl in E. lia.
  - rewrite Hp, Hn, find_backend_in by done. simpl. subst prev.
    match goal with |- context [pb_restore b _ ?x] => set (h1 := x) end.
    assert (faultless h1) as Hf1 by done. specialize (Hrec b Hb).
    destruct (rc_restore h1 (parse_servers m) v Hf1 Hr) as (h2 & -> & Hv2 & Hm2).
    destruct (marker_delete_faultless h2) as (h3 & -> & Hv3 & Hd3 & _ & _); [by eapply moved_faultless|].
    simpl. split_and!; [by rewrite Hv3|done|by left].
Qed.
End Recovery.
End Facts.
