(* ===== verification/SysResolverProps.v ===== *)
(** * Crash safety of the system resolver

    The theorems about the resolver's state machine, over the backends' contract
    of [SysResolverFacts]: crashes during [apply], undoing it, the text of
    [resolv.conf], and two ways in which the host's settings can be lost. *)
From S2P Require Import Prelude.
From S2P Require Import Text.
From S2P Require Import SysResolver.
From S2P Require Import SysResolverFacts.

Section Props.
  Context `{IpAddr} `{MarkerCodec} `{Utf8}.
  Context (data_dir resolv_conf_path : string).

Local Abbreviation marker := (marker_path data_dir).
Local Abbreviation view := (view resolv_conf_path).

Lemma parse_servers_new now b prev : parse_servers (marker_new now b prev) = prev.
Proof.
  unfold parse_servers, marker_new. simpl. induction prev as [|a prev IH]; [done|].
  simpl. rewrite ip_round_trip. by f_equal.
Qed.

Lemma sim_refl d : sim data_dir d d.
Proof. done. Qed.

(** The marker as it is written: as before, or a prefix of the document. *)
Definition marking (m : Marker) (d0 d : Durable _) : Prop :=
  sim data_dir d0 d ∧
  (same_marker data_dir d0 d ∨
   ∃ data k, marker_to_vec m = Ok data ∧ k ≤ String.length data ∧
     d_files d !! marker = Some (String.substring 0 k data)).

Lemma writing_marking m data d0 d1 d :
  marker_to_vec m = Ok data → marking m d0 d1 → writing marker data d1 d → marking m d0 d.
Proof.
  intros Hm [[Hl Hf] Hd1] [Hd|(k & Hk & Hd)]; apply remoded_files in Hd as [Hdf Hdl].
  { unfold marking, sim, same_marker in *. by rewrite Hdf, Hdl. }
  split.
  - split; [by rewrite Hdl|]. intros p Hp. rewrite Hdf, lookup_put, decide_False by done. auto.
  - right. exists data, k. split_and!; [done..|]. by rewrite Hdf, lookup_put, decide_True.
Qed.

Lemma marker_write_moved m h r h' :
  marker_write data_dir m h = (r, h') →
  moved (marking m (h_disk h)) h h' ∧
  (r = Ok () → ∃ data, marker_to_vec m = Ok data ∧ d_files (h_disk h') !! marker = Some data).
Proof.
  unfold marker_write, eff_bind, pure.
  destruct (create_dir_all_owner_only data_dir h) as [r1 h1] eqn:E1.
  assert (moved (marking m (h_disk h)) h h1 ∧ marking m (h_disk h) (h_disk h1)) as [Hm1 Hd1].
  { assert (marking m (h_disk h) (h_disk h)) as Hself by (split; [done|by left]).
    revert E1. unfold create_dir_all_owner_only. destruct (d_dir (h_disk h)).
    - intros [= _ <-]. split; [apply moved_refl|done].
    - intros (r0 & E & _)%ctx_inv. assert (moved (marking m (h_disk h)) h h1) as Hmv.
      { eapply syscall_moved; [exact E|done|]. split; [done|by left]. }
      split; [done|]. exact (moved_disk _ _ _ Hself Hmv). }
  destruct r1 as [[]|]; [|by intros [= <- <-]].
  destruct (marker_to_vec m) as [data|e] eqn:Ev; simpl; [|by intros [= <- <-]].
  intros E2. apply write_owner_only_moved in E2 as [Hm2 Hd2]. split.
  - eapply moved_trans; [exact Hm1|]. eapply moved_weaken; [|exact Hm2].
    intros d Hd. by eapply writing_marking.
  - intros Hok. exists data. split; [done|]. destruct (Hd2 Hok) as [[-> _]%remoded_files _]. by rewrite lookup_put, decide_True.
Qed.

Context (Hlive : in_data_dir data_dir resolv_conf_path = false).

Lemma sim_view d0 d : sim data_dir d0 d → view d = view d0.
Proof.
  intros [Hl Hf]. unfold SysResolverFacts.view. rewrite Hl, Hf; [done|]. by apply live_ne_marker.
Qed.

Section Apply.
  Context (backends : list PlatformBackend)
    (cov : string → Net → View → Prop) (rdy : string → Net → list Ip → View → Durable _ → Prop).
  Context (Hrec : ∀ b, b ∈ backends →
    Recoverable data_dir resolv_conf_path b (cov (pb_name b)) (rdy (pb_name b))).

Local Abbreviation recoverable := (recoverable data_dir resolv_conf_path backends rdy).

Lemma select_moved bs le h r h' :
  bs ⊆ backends → select_and_snapshot le bs h = (r, h') →
  moved (λ d, view d = view (h_disk h) ∧ same_marker data_dir (h_disk h) d) h h' ∧
  ∀ b prev, r = Ok (b, prev) → b ∈ backends ∧
    (cov (pb_name b) (h_net h) (view (h_disk h)) →
     rdy (pb_name b) (h_net h) prev (view (h_disk h)) (h_disk h')).
Proof.
  revert le h. induction bs as [|b bs IH]; intros le h Hsub E; simpl in E.
  { injection E as <- <-. split; [apply moved_refl|done]. }
  assert (b ∈ backends) as Hb by (apply Hsub; set_solver).
  destruct (pb_snapshot b h) as [r1 h1] eqn:E1. pose proof (Hrec b Hb) as Hlaw.
  pose proof (rc_snapshot data_dir resolv_conf_path _ _ _ E1) as Hm1. destruct r1 as [previous|e].
  - injection E as <- <-. split; [done|]. intros b' prev [= <- <-]. split; [done|].
    intros Hc. by apply (rc_ready data_dir resolv_conf_path _ _ _ E1).
  - destruct (IH (Some e) h1) as [Hm2 Hr]; [set_solver|done|].
    pose proof (moved_disk (λ d, view d = view (h_disk h) ∧ same_marker data_dir (h_disk h) d)
      h h1 (conj eq_refl eq_refl) Hm1) as [Hv1 Hk1]. unfold same_marker in *.
    rewrite Hv1, Hk1, (mv_net _ _ _ Hm1) in *. split; [|done]. by eapply moved_trans.
Qed.

Lemma marking_recoverable now b prev net v d0 d :
  b ∈ backends → d_files d0 !! marker = None → view d0 = v → rdy (pb_name b) net prev v d0 →
  marking (marker_new now (pb_name b) prev) d0 d → recoverable net v d.
Proof.
  intros Hb Hnone0 Hv Hr [Hsim [Hsame|(data & k & Hvec & Hk & Hd)]].
  - apply RecoverableUntouched; [by rewrite Hsame|]. by rewrite (sim_view d0).
  - destruct (decide (k < String.length data)) as [Hlt|Hge].
    + destruct (marker_cut_short _ _ k Hvec Hlt) as [e He].
      eapply RecoverableCorrupt; [exact Hd|exact He|]. by rewrite (sim_view d0).
    + assert (k = String.length data) as -> by lia. rewrite substring_full in Hd.
      eapply (RecoverableReady _ _ _ _ _ _ _ _ _ b); [exact Hd|by apply marker_round_trip|done|done|
        apply parse_servers_new|].
      specialize (Hrec b Hb). by eapply (rc_stable data_dir resolv_conf_path).
Qed.

(** A host whose marker is complete and whose backend is ready. *)
Definition armed (b : PlatformBackend) (prev : list Ip) (net : Net) (v : View) (d : Durable _) : Prop :=
  rdy (pb_name b) net prev v d ∧
  ∃ data now, marker_from_slice data = Ok (marker_new now (pb_name b) prev) ∧
    d_files d !! marker = Some data.

Lemma armed_recoverable b prev net v d : b ∈ backends → armed b prev net v d → recoverable net v d.
Proof.
  intros Hb (Hr & data & now & Hp & Hd).
  eapply (RecoverableReady _ _ _ _ _ _ _ _ _ b); [exact Hd|exact Hp|done|done|apply parse_servers_new|done].
Qed.

(** Up to the marker: nothing has changed that the marker does not cover. *)
Lemma prepare_recoverable b prev h h1 r2 h2 :
  select_and_snapshot None backends h = (Ok (b, prev), h1) →
  marker_write data_dir (marker_new (h_now h1) (pb_name b) prev) h1 = (r2, h2) →
  d_files (h_disk h) !! marker = None →
  (∀ b, b ∈ backends → cov (pb_name b) (h_net h) (view (h_disk h))) →
  b ∈ backends ∧ moved (recoverable (h_net h) (view (h_disk h))) h h2 ∧
  (r2 = Ok () → armed b prev (h_net h) (view (h_disk h)) (h_disk h2)).
Proof.
  intros E1 E2 Hnone0 Hcov. apply select_moved in E1 as [Hm1 Hsel]; [|done].
  destruct (Hsel b prev eq_refl) as [Hb Hr]. specialize (Hr (Hcov b Hb)). split; [done|].
  pose proof (moved_disk (λ d, view d = view (h_disk h) ∧ same_marker data_dir (h_disk h) d)
    h h1 (conj eq_refl eq_refl) Hm1) as [Hv1 Hk1]. unfold same_marker in Hk1. rewrite Hnone0 in Hk1.
  apply marker_write_moved in E2 as [Hm2 Hok2]. split.
  - eapply moved_trans.
    + eapply moved_weaken; [|exact Hm1]. intros d [Hv Hk]. apply RecoverableUntouched; [|done].
      unfold same_marker in Hk. by rewrite Hk.
    + eapply moved_weaken; [|exact Hm2]. intros d Hd. by eapply marking_recoverable.
  - intros ->. destruct (Hok2 eq_refl) as (data & Hvec & Hdata). split.
    + specialize (Hrec b Hb). eapply (rc_stable data_dir resolv_conf_path); [exact Hr|].
      eapply (moved_disk (marking _ (h_disk h1)) h1 h2); [split; [done|by left]|exact Hm2].
    + exists data, (h_now h1). split; [by apply marker_round_trip|done].
Qed.

Lemma commit_armed b prev servers v h r h' :
  b ∈ backends → pb_commit b servers h = (r, h') → armed b prev (h_net h) v (h_disk h) →
  moved (armed b prev (h_net h) v) h h'.
Proof.
  intros Hb E (Hr & data & now & Hp & Hd). specialize (Hrec b Hb).
  eapply moved_weaken; [|by eapply (rc_commit data_dir resolv_conf_path)]. intros d [Hrd Hsame]. split; [done|].
  exists data, now. split; [done|]. unfold same_marker in Hsame. by rewrite Hsame.
Qed.

Lemma marker_delete_seen h r h' :
  marker_delete data_dir h = (r, h') →
  ∃ d, h_seen h' = h_seen h ++ [d] ∧ (d = h_disk h ∨ d_files d !! marker = None).
Proof.
  unfold marker_delete. destruct (remove_file _ h) as [r0 h0] eqn:E. intros E'.
  assert (h' = h0) as -> by (destruct r0 as [|[[] ?]]; simpl in E'; congruence).
  revert E. unfold remove_file, syscall. destruct (h_fault h (h_calls h)).
  - intros [= _ <-]. simpl. eauto.
  - destruct (d_files (h_disk h) !! marker) eqn:Em; intros [= _ <-]; simpl; [|by eauto].
    eexists. split; [done|]. right. apply lookup_delete_eq.
Qed.

Lemma moved_covers (P : Durable _ → Prop) h h' :
  moved P h h' → ∃ ds, h_seen h' = h_seen h ++ ds ∧ ∀ d, d ∈ ds → P d.
Proof. intros [(ds & Hs & Hp) _ _ _ _ _ _]. exists ds. split; [done|]. by apply Forall_forall. Qed.

(** The states [apply] passes through. *)
Lemma apply_recoverable servers h r h' :
  apply data_dir backends servers h = (r, h') →
  d_files (h_disk h) !! marker = None →
  (∀ b, b ∈ backends → cov (pb_name b) (h_net h) (view (h_disk h))) →
  (∃ ds, h_seen h' = h_seen h ++ ds ∧
    ∀ d, d ∈ ds → r = Ok () ∨ is_Some (d_files d !! marker) →
      recoverable (h_net h) (view (h_disk h)) d) ∧
  (r = Ok () → ∃ b prev, b ∈ backends ∧ h_applied h' = Some (pb_name b, prev) ∧
    armed b prev (h_net h) (view (h_disk h)) (h_disk h') ∧ h_net h' = h_net h).
Proof.
  intros E Hnone0 Hcov. revert E. unfold apply. destruct (decide (servers = [])).
  { intros [= <- <-]. split; [|done]. exists []. split; [by rewrite app_nil_r|].
    intros d Hd. by apply elem_of_nil in Hd. }
  unfold eff_bind at 1. destruct (select_and_snapshot None backends h) as [r1 h1] eqn:E1.
  destruct r1 as [[b prev]|e].
  2: { intros [= <- <-]. split; [|done]. apply select_moved in E1 as [Hm1 _]; [|done].
       destruct (moved_covers _ _ _ Hm1) as (ds & Hs & Hp). exists ds. split; [done|]. intros d Hd _.
       destruct (Hp d Hd) as [Hv Hk]. apply RecoverableUntouched; [|done].
       unfold same_marker in Hk. by rewrite Hk. }
  unfold eff_bind. destruct (marker_write _ _ h1) as [r2 h2] eqn:E2.
  destruct (prepare_recoverable _ _ _ _ _ _ E1 E2 Hnone0 Hcov) as (Hb & Hm2 & Harm).
  destruct r2 as [[]|e].
  2: { intros [= <- <-]. split; [|done].
       destruct (moved_covers _ _ _ Hm2) as (ds & Hs & Hp). exists ds. auto. }
  specialize (Harm eq_refl). destruct (pb_commit b servers h2) as [r3 h3] eqn:E3.
  pose proof (mv_net _ _ _ Hm2) as Hnet. rewrite <- Hnet in Harm.
  pose proof (commit_armed _ _ _ _ _ _ _ Hb E3 Harm) as Hm3.
  pose proof (moved_disk _ _ _ Harm Hm3) as Harm3. rewrite Hnet in *.
  destruct (moved_covers (recoverable (h_net h) (view (h_disk h))) h h3) as (ds & Hs & Hp).
  { eapply moved_trans; [exact Hm2|]. eapply moved_weaken; [|exact Hm3].
    intros d Hd. by eapply armed_recoverable. }
  destruct r3 as [[]|e].
  - intros [= <- <-]. split; [by exists ds; auto|]. intros _. exists b, prev.
    split_and!; [done..|]. simpl. by rewrite (mv_net _ _ _ Hm3).
  - destruct (marker_delete data_dir h3) as [r4 h4] eqn:E4. intros [= <- <-]. split; [|done].
    apply marker_delete_seen in E4 as (d4 & Hs4 & Hd4). exists (ds ++ [d4]).
    rewrite Hs4, Hs, app_assoc. split; [done|]. intros d [Hd|Hd]%elem_of_app [Hok|[c Hc]]; [done|auto|done|].
    apply list_elem_of_singleton in Hd as ->. destruct Hd4 as [->|Hnone]; [by eapply armed_recoverable|].
    by rewrite Hc in Hnone.
Qed.
End Apply.

(** ** On Linux *)

Definition linux_covered (name : string) : Net → View → Prop :=
  if decide (name = "resolv.conf") then conf_covered else resolved_covered.
Definition linux_ready (name : string) : Net → list Ip → View → Durable _ → Prop :=
  if decide (name = "resolv.conf") then conf_ready data_dir else resolved_ready resolv_conf_path.

Local Abbreviation linux := (build_backends data_dir resolv_conf_path).

Lemma linux_recoverable b :
  b ∈ linux → Recoverable data_dir resolv_conf_path b (linux_covered (pb_name b)) (linux_ready (pb_name b)).
Proof.
  intros [->|[->|Hb%elem_of_nil]%elem_of_cons]%elem_of_cons; [| |done].
  - by apply resolved_recoverable.
  - by apply conf_recoverable.
Qed.

Lemma linux_names : NoDup (map pb_name linux).
Proof. apply (bool_decide_unpack _). vm_compute. exact I. Qed.

(** A host whose DNS can be changed and changed back: [resolv.conf] exists,
    the links can be listed, and none has settings of its own. *)
Definition manageable (h : Host _) : Prop :=
  d_files (h_disk h) !! marker = None ∧ is_Some (d_files (h_disk h) !! resolv_conf_path) ∧
  d_links (h_disk h) = ∅ ∧ is_ok (enumerate_links (h_net h)) = true.

Lemma manageable_covered h :
  manageable h → ∀ b, b ∈ linux → linux_covered (pb_name b) (h_net h) (view (h_disk h)).
Proof.
  intros (_ & Hl & He & Hn) b [->|[->|Hb%elem_of_nil]%elem_of_cons]%elem_of_cons; [| |done].
  - split; [done|]. intros i _. simpl. by rewrite He, lookup_empty.
  - done.
Qed.

(** What [recover_from_crash] finds and leaves after [apply], crashed or not. *)
Lemma apply_recovers (servers : list Ip) (h : Host _) r h' (d : Durable _) :
  manageable h → h_seen h = [] → apply data_dir linux servers h = (r, h') →
  d ∈ h_seen h' → r = Ok () ∨ is_Some (d_files d !! marker) →
  recoverable data_dir resolv_conf_path linux linux_ready (h_net h) (view (h_disk h)) d.
Proof.
  intros Hm Hs E Hd Hr. pose proof (manageable_covered h Hm) as Hcov. destruct Hm as (Hnone & _).
  eapply (apply_recoverable linux linux_covered linux_ready linux_recoverable) in E as [(ds & Hs' & Hall) _];
    [|done|done].
  rewrite Hs in Hs'. simpl in Hs'. rewrite Hs' in Hd. by apply Hall.
Qed.

(** C3: On a host whose settings the module can bring back ([manageable]:
    [resolv.conf] exists, the links can be listed and none has settings of its
    own), let the process die while the host's DNS is being changed, after any
    system call and after any byte written, in a change that goes on to
    succeed, or in a failing one as long as the crash marker is still there.
    Then recovery at the next start, with no call failing, brings back the
    contents of [resolv.conf] and the links' settings exactly as they were:
    restored, or never touched and the half-written marker reported and set
    aside.  Outside this: a change whose last step fails deletes the marker and
    is not undone ([ResolverRuns.failed_apply_not_undone]); and the mode of
    [resolv.conf] is not brought back ([ResolverRuns.restored_but_owner_only]). *)
Theorem apply_survives_crash (servers : list Ip) (h : Host _) r h' (d : Durable _) :
  manageable h → h_seen h = [] → apply data_dir linux servers h = (r, h') →
  d ∈ h_seen h' → r = Ok () ∨ is_Some (d_files d !! marker) →
  let '(recovered, h2) := recover_from_crash data_dir linux (reboot d h) in
  view (h_disk h2) = view (h_disk h) ∧ d_files (h_disk h2) !! marker = None ∧
  (recovered = Ok () ∨ ∃ quarantined e, recovered = Err (CorruptMarker marker quarantined e)).
Proof.
  intros. eapply recover_outcome; [done|exact linux_recoverable|exact linux_names|by eapply apply_recovers].
Qed.

(** The host a successful change leaves. *)
Lemma applied_recovers (servers : list Ip) (h h' : Host _) :
  manageable h → apply data_dir linux servers h = (Ok (), h') →
  recoverable data_dir resolv_conf_path linux linux_ready (h_net h) (view (h_disk h)) (h_disk h') ∧
  h_net h' = h_net h.
Proof.
  intros Hm E. pose proof (manageable_covered h Hm) as Hcov. destruct Hm as (Hnone & _).
  eapply (apply_recoverable linux linux_covered linux_ready linux_recoverable) in E as [_ Harm]; [|done..].
  destruct (Harm eq_refl) as (b & prev & Hb & _ & Hr & Hnet). split; [|done]. by eapply armed_recoverable.
Qed.

(** Looking at the resolver's settings changes nothing. *)
Lemma current_moved h :
  moved (λ d, d = h_disk h) h (current linux h).2.
Proof.
  unfold current. simpl. destruct (conf_current resolv_conf_path h) as [r h1] eqn:E.
  assert (moved (λ d, d = h_disk h) h h1) as Hm; [|by destruct r as [[|]|]].
  revert E. unfold conf_current. destruct (ctx _ _ h) as [r0 h0] eqn:E0.
  apply ctx_inv in E0 as (r0' & E0 & _). apply read_inv in E0 as (_ & Hm & _).
  destruct r0 as [content|]; [destruct (negb _); [|destruct (parse_nameservers content)]|];
    intros [= _ <-]; by apply Hm.
Qed.

Lemma restore_armed b prev v h :
  b ∈ linux → faultless h → armed linux_ready b prev (h_net h) v (h_disk h) →
  h_applied h = Some (pb_name b, prev) ∨ h_applied h = None →
  ∃ h', restore data_dir linux h = (Ok (), h') ∧ view (h_disk h') = v ∧
    d_files (h_disk h') !! marker = None ∧ h_applied h' = None ∧ faultless h'.
Proof.
  intros Hb Hf Harm Hap. unfold restore.
  assert (∃ h1, (match h_applied h with
    | Some recorded => pure (Ok recorded) | None => load_marker_or_fail data_dir end) h
    = (Ok (pb_name b, prev), h1) ∧ faultless h1 ∧ h_disk h1 = h_disk h ∧ h_net h1 = h_net h)
    as (h1 & E1 & Hf1 & Hd1 & Hn1).
  { destruct Harm as (_ & data & now & Hp & Hd). destruct Hap as [-> | ->]; [by exists h|].
    unfold load_marker_or_fail, eff_bind, marker_load. rewrite read_faultless, Hd by done. simpl.
    rewrite Hp. simpl. eexists. unfold pure. rewrite parse_servers_new. split_and!; done. }
  unfold eff_bind at 1. rewrite E1. unfold eff_bind, pure.
  rewrite find_backend_in by (done || exact linux_names).
  destruct Harm as [Hr _]. rewrite <- Hd1, <- Hn1 in Hr.
  pose proof (linux_recoverable b Hb) as Hlaw.
  destruct (rc_restore data_dir resolv_conf_path h1 prev v Hf1 Hr) as (h2 & -> & Hv2 & Hm2).
  pose proof (moved_faultless _ _ _ Hm2 Hf1) as Hf2.
  destruct (marker_delete data_dir (set_applied None h2)) as [r3 h3] eqn:E3.
  destruct (marker_delete_faultless data_dir resolv_conf_path Hlive (set_applied None h2))
    as (h3' & E3' & Hv3 & Hk3 & Ha3 & Hf3); [done|]. rewrite E3 in E3'. injection E3' as -> <-.
  exists h3. split_and!; [done|by rewrite Hv3|done..].
Qed.

Lemma apply_restores (servers : list Ip) (h h1 h2 : Host _) :
  manageable h → apply data_dir linux servers h = (Ok (), h1) →
  h_disk h2 = h_disk h1 → h_net h2 = h_net h1 → faultless h2 →
  h_applied h2 = h_applied h1 ∨ h_applied h2 = None →
  ∃ h3, restore data_dir linux h2 = (Ok (), h3) ∧ view (h_disk h3) = view (h_disk h) ∧
    d_files (h_disk h3) !! marker = None ∧
    (restore data_dir linux h3).1 = Err NoBackupAvailable.
Proof.
  intros Hm E Hd Hn Hf Ha. pose proof (manageable_covered h Hm) as Hcov. destruct Hm as (Hnone & _).
  eapply (apply_recoverable linux linux_covered linux_ready linux_recoverable) in E as [_ Harm];
    [|done|done].
  destruct (Harm eq_refl) as (b & prev & Hb & Hap & Hr & Hnet).
  rewrite <- Hd, <- Hnet, <- Hn in Hr. rewrite Hap in Ha.
  destruct (restore_armed b prev _ h2 Hb Hf Hr Ha) as (h3 & E3 & Hv & Hk & Ha3 & Hf3).
  exists h3. split_and!; [done..|]. unfold restore, eff_bind at 1. rewrite Ha3.
  unfold load_marker_or_fail, eff_bind, marker_load. rewrite read_faultless, Hk by done. done.
Qed.

(** Restoring undoes a change exactly: the bytes of [resolv.conf] and the
    links' settings are those from before, whether the same process restores
    or a later one that only finds the marker; the marker is gone afterwards,
    and restoring once more says that there is nothing to restore. *)
Theorem apply_restore_round_trip (servers : list Ip) (h h1 h2 : Host _) :
  manageable h → apply data_dir linux servers h = (Ok (), h1) →
  h_disk h2 = h_disk h1 → h_net h2 = h_net h1 → faultless h2 →
  h_applied h2 = h_applied h1 ∨ h_applied h2 = None →
  ∃ h3, restore data_dir linux h2 = (Ok (), h3) ∧ view (h_disk h3) = view (h_disk h) ∧
    d_files (h_disk h3) !! marker = None ∧
    (restore data_dir linux h3).1 = Err NoBackupAvailable.
Proof. apply apply_restores. Qed.

(** ** The text of resolv.conf *)

Lemma no_newline_plain s : all_chars plain_char s = true → no_char newline s = true.
Proof.
  induction s as [|c s IH]; [done|]. simpl. intros [Hc Hs]%andb_prop. rewrite IH by done.
  rewrite andb_true_r. apply negb_true_iff. destruct (Ascii.eqb_spec c newline) as [->|]; done.
Qed.

Lemma strip_cr_plain s c : plain_char c = true → strip_cr (s +:+ String c "") = s +:+ String c "".
Proof.
  intros Hc. induction s as [|a s IH].
  - change (strip_cr (String c "") = String c ""). simpl. rewrite decide_False; [done|].
    intros ->. done.
  - rewrite string_app_cons. cbn [strip_cr]. rewrite IH. by destruct s.
Qed.

Definition server_line (a : Ip) : string := "nameserver " +:+ ip_to_string a.

Lemma server_line_ends a : ∃ s c, server_line a = s +:+ String c "" ∧ plain_char c = true.
Proof.
  destruct (ip_text a) as [Hne Hp]. destruct (string_snoc _ Hne) as (r & c & E).
  rewrite E, all_chars_app in Hp. apply andb_prop in Hp as [_ [Hc _]%andb_prop].
  exists ("nameserver " +:+ r), c. unfold server_line. by rewrite E, string_app_assoc.
Qed.

Lemma parse_server_line a : parse_nameserver (strip_cr (server_line a)) = Some a.
Proof.
  destruct (server_line_ends a) as (s & c & E & Hc). rewrite E, strip_cr_plain by done. rewrite <- E.
  assert (trim (server_line a) = server_line a) as Ht.
  { unfold trim. assert (trim_start (server_line a) = server_line a) as -> by by apply trim_start_plain.
    rewrite E. by apply trim_end_plain. }
  unfold parse_nameserver. rewrite Ht. unfold server_line. rewrite strip_prefix_app. simpl.
  destruct (ip_text a). rewrite trim_plain_ends by done. apply ip_round_trip.
Qed.

Lemma parse_server_lines servers :
  omap parse_nameserver (map strip_cr (map server_line servers)) = servers.
Proof.
  induction servers as [|a servers IH]; [done|]. cbn [map].
  change (omap parse_nameserver (strip_cr (server_line a) :: map strip_cr (map server_line servers)))
    with (match parse_nameserver (strip_cr (server_line a)) with
          | Some y => y :: omap parse_nameserver (map strip_cr (map server_line servers))
          | None => omap parse_nameserver (map strip_cr (map server_line servers))
          end).
  by rewrite parse_server_line, IH.
Qed.

(** What [format_resolv_conf] writes, [parse_nameservers] reads back: the
    same servers in the same order. *)
Theorem resolv_conf_round_trip (servers : list Ip) :
  parse_nameservers (format_resolv_conf servers) = servers.
Proof.
  unfold parse_nameservers, format_resolv_conf, lines. rewrite split_join.
  2: { done. }
  2: { constructor; [done|]. apply Forall_app. split; [|by constructor].
       apply Forall_map, Forall_forall. intros a _. destruct (ip_text a) as [_ Hp]. simpl.
       by apply no_newline_plain. }
  rewrite app_comm_cons, last_snoc, removelast_last. apply parse_server_lines.
Qed.
End Props.

(** ** A host with a search domain *)

Module ResolverRuns.

(** Two addresses. *)
#[local] Program Instance two : IpAddr := {|
  Ip := bool;
  ip_to_string a := if a then "8.8.8.8" else "1.1.1.1";
  ip_parse s := if decide (s = "8.8.8.8") then Some true
                else if decide (s = "1.1.1.1") then Some false else None;
|}.
Next Obligation. by intros []. Qed.
Next Obligation. by intros []. Qed.

Definition the_marker : Marker := mkMarker ["1.1.1.1"] "resolv.conf" 0.

(** One document, for one marker. *)
#[local] Program Instance one_document : MarkerCodec := {|
  marker_to_vec m :=
    if decide (mk_previous_servers m = ["1.1.1.1"] ∧ mk_backend m = "resolv.conf" ∧ mk_applied_at m = 0%Z)
    then Ok "{}" else Err "unknown marker";
  marker_from_slice s := if decide (s = "{}") then Ok the_marker else Err "EOF while parsing";
|}.
Next Obligation.
  intros [servers backend at_] data. simpl. case_decide as Hm; [|done]. intros [= <-].
  destruct Hm as (-> & -> & ->). done.
Qed.
Next Obligation.
  intros m data k. simpl. case_decide; [|done]. intros [= <-] Hk. exists "EOF while parsing".
  by destruct k as [|[|k]]; [..|simpl in Hk; lia].
Qed.

#[local] Instance all_utf8 : Utf8 := {| from_utf8_lossy s := s; is_utf8 _ := true |}.

Definition dir : string := "/var/lib/penguin/squawk".
Definition conf : string := "/etc/resolv.conf".

Definition original : string :=
  "search corp" +:+ String newline ("nameserver 1.1.1.1" +:+ String newline "").

Definition with_faults (faults : nat → option Fault) : Host two :=
  mkHost (mkDurable true {[ conf := original ]} {[ conf := 6 * 64 + 4 * 8 + 4 ]}%Z ∅) [] faults 0 0 false (Ok []) None.

Definition host : Host two := with_faults (λ _, None).

Definition managed : Host two := (apply dir (build_backends dir conf) [true] host).2.

Lemma host_manageable : manageable dir conf host.
Proof. split_and!; [reflexivity|by eexists|reflexivity|reflexivity]. Qed.

(** A state in the middle of the change: the marker is written and the file
    holds its first six bytes. *)
Definition crash : Durable two :=
  mkDurable true
    {[ conf := "# Gene"; backup_path dir := original; marker_path dir := "{}" ]}
    {[ conf := 6 * 64 + 4 * 8 + 4; backup_path dir := OWNER_ONLY; marker_path dir := OWNER_ONLY ]}%Z ∅.

Lemma managed_applied : apply dir (build_backends dir conf) [true] host = (Ok (), managed).
Proof.
  assert ((apply dir (build_backends dir conf) [true] host).1 = Ok ()) as E by (vm_compute; reflexivity).
  unfold managed. rewrite <- E. apply surjective_pairing.
Qed.

Lemma crash_seen : crash ∈ h_seen managed.
Proof. apply (list_elem_of_lookup_2 _ 47). vm_compute. reflexivity. Qed.

Lemma managed_faultless : faultless managed.
Proof. intros n. vm_compute. reflexivity. Qed.

Lemma apply_survives_crash_witness :
  view conf (h_disk (recover_from_crash dir (build_backends dir conf) (reboot crash host)).2)
    = view conf (h_disk host).
Proof.
  pose proof (apply_survives_crash dir conf eq_refl ([true] : list (@Ip two)) host (Ok ()) managed crash
    host_manageable eq_refl managed_applied crash_seen (or_introl eq_refl)) as H.
  destruct (recover_from_crash _ _ _) as [r2 h2]. exact (proj1 H).
Defined.

Lemma apply_restore_round_trip_witness :
  ∃ h3, restore dir (build_backends dir conf) managed = (Ok (), h3) ∧
    view conf (h_disk h3) = view conf (h_disk host).
Proof.
  destruct (apply_restore_round_trip dir conf eq_refl ([true] : list (@Ip two)) host managed managed
    host_manageable managed_applied eq_refl eq_refl managed_faultless (or_introl eq_refl))
    as (h3 & E & Hv & _).
  exists h3. exact (conj E Hv).
Defined.

(** The file restored, its backup already removed, the marker still there. *)
Definition late_crash : Durable two :=
  mkDurable true {[ conf := original; marker_path dir := "{}" ]}
    {[ conf := OWNER_ONLY; marker_path dir := OWNER_ONLY ]} ∅.

Definition live_after (d : Durable two) : option string :=
  d_files (h_disk (recover_from_crash dir (build_backends dir conf) (reboot d host)).2) !! conf.

(** A crash during [restore] can lose the file it has just restored: the
    backup is removed before the marker, and when the process dies between
    the two, recovery finds a marker without a backup and overwrites the
    restored [resolv.conf], search domains and options included, with a bare
    list of servers. *)
Theorem restore_crash_loses_options :
  late_crash ∈ h_seen (restore dir (build_backends dir conf) managed).2 ∧
  d_files late_crash !! conf = Some original ∧
  live_after late_crash = Some (format_resolv_conf ([false] : list (@Ip two))) ∧
  live_after late_crash ≠ Some original.
Proof.
  split; [apply (list_elem_of_lookup_2 _ 134); vm_compute; reflexivity|].
  split; [reflexivity|]. split; [vm_compute; reflexivity|]. vm_compute. done.
Qed.

(** [resolv.conf] was readable by everybody; pointing the host elsewhere
    makes it the owner's alone, so that no program of another user can resolve
    a name through it any more, and restoring its bytes leaves it so. *)
Theorem restored_but_owner_only :
  let '(r, restored) := restore dir (build_backends dir conf) managed in
  d_modes (h_disk host) !! conf = Some (6 * 64 + 4 * 8 + 4)%Z ∧
  d_modes (h_disk managed) !! conf = Some OWNER_ONLY ∧
  r = Ok () ∧ d_files (h_disk restored) !! conf = Some original ∧
  d_modes (h_disk restored) !! conf = Some OWNER_ONLY.
Proof. vm_compute. repeat split. Qed.

(** The ninth call, the write of the new file, finds the disk full. *)
Definition disk_full (n : nat) : option Fault :=
  if n =? 8 then Some (mkFault "No space left on device (os error 28)" 0) else None.

Definition failed : Host two := (apply dir (build_backends dir conf) [true] (with_faults disk_full)).2.

(** A change that fails half-way is not undone: the write truncates
    [resolv.conf], runs out of space and fails; the marker is then deleted as
    if there were nothing to recover, so that neither [restore] nor the
    recovery at the next start brings the host's servers back. *)
Theorem failed_apply_not_undone :
  is_ok (apply dir (build_backends dir conf) [true] (with_faults disk_full)).1 = false ∧
  d_files (h_disk failed) !! conf = Some "" ∧
  d_files (h_disk failed) !! marker_path dir = None ∧
  (restore dir (build_backends dir conf) failed).1 = Err NoBackupAvailable ∧
  (recover_from_crash dir (build_backends dir conf) (reboot (h_disk failed) host)).1 = Ok () ∧
  live_after (h_disk failed) = Some "".
Proof. vm_compute. repeat split. Qed.
End ResolverRuns.
