(* ===== verification/Service.v ===== *)
(** * The daemon's gRPC service (crates/penguin-daemon/src/service.rs)

    One definition per call of the [Daemon] service, over the supervisor, the
    event broker and the log ring: version check, argument checks, the call
    itself, and the mapping of errors to status codes.  [handle] is the service
    as a whole.  The two streaming calls are the loops that feed their
    streams. *)
From S2P Require Import Prelude Sdk Backoff Supervisor SupervisorFacts LogRing Cli FakeEnv.

(** ** Status codes and messages *)

Inductive Code :=
| Unimplemented | InvalidArgument | NotFound | PermissionDenied | InternalError
| Unavailable | FailedPrecondition | DeadlineExceeded.

Record GrpcStatus := mkGrpcStatus { gs_code : Code; gs_message : string }.

Record ModuleSummary := mkSummary {
  ms_name : string; ms_version : string; ms_description : string; ms_state : string;
  ms_external : bool; ms_license_feature : string }.

Record ModuleStatus := mkModuleStatus {
  mt_name : string; mt_state : string; mt_detail : gmap string string;
  mt_health : string; mt_health_message : string; mt_checked_at_unix_nano : Z }.

Record PbEvent := mkPbEvent {
  pe_module : string; pe_type : string; pe_message : string; pe_at_unix_nano : Z;
  pe_fields : gmap string string }.

Record PbLogLine := mkPbLogLine { pl_at_unix_nano : Z; pl_level : string; pl_message : string }.

Record PbChunk := mkPbChunk {
  pc_output : string; pc_json : list Byte.byte; pc_exit_code : Z; pc_final : bool }.

Definition API_VERSION : string := "v1".

Section Service.
  Context {W : Type} `{!ModuleEnv W} `{!StateStore W}.
  Context (cfg : SupervisorConfig W).
  (** [{:?}] of a string. *)
  Context (debug : string → string).

Definition Svc (A : Type) : Type := Prelude.eff (Sup W) GrpcStatus A.

(** A method of the supervisor, its error mapped. *)
Definition ask {A} (m : Sup W → result A SupervisorError * Sup W) (f : SupervisorError → GrpcStatus) :
    Svc A :=
  λ s, let '(r, s) := m s in (map_err f r, s).

Definition check_api_version (version : string) : result unit GrpcStatus :=
  if decide (version = "") then Ok ()
  else if decide (version = API_VERSION) then Ok ()
  else Err (mkGrpcStatus Unimplemented ("api_version " +:+ debug version +:+ " not supported")).

Definition module_not_found (name : string) : GrpcStatus :=
  mkGrpcStatus NotFound ("module " +:+ debug name +:+ " not found").

Definition name_required : GrpcStatus := mkGrpcStatus InvalidArgument "module name required".

Definition load_error_to_status (name : string) (err : SupervisorError) : GrpcStatus :=
  match err with
  | UnknownModule _ => module_not_found name
  | _ => mkGrpcStatus PermissionDenied ("cannot load module: " +:+ SupervisorError_display err)
  end.

Definition dispatch_error_to_status (name : string) (err : SupervisorError) : GrpcStatus :=
  match err with
  | UnknownModule _ | NotLoaded _ => module_not_found name
  | _ => mkGrpcStatus InternalError ("dispatch failed: " +:+ SupervisorError_display err)
  end.

(** ** The calls *)

Definition version_rpc (daemon_version api_version : string) : Svc (string * string) :=
  let! _ := pure (check_api_version api_version) in
  pure (Ok (daemon_version, API_VERSION)).

Definition summary (m : ModuleInfo * ModuleState * bool) : ModuleSummary :=
  let '(info, state, external) := m in
  mkSummary (mi_name info) (mi_version info) (mi_description info) (ModuleStateM.as_str state)
    external (mi_license_feature info).

Definition list_modules_rpc (api_version : string) : Svc (list ModuleSummary) :=
  let! _ := pure (check_api_version api_version) in
  λ s, (Ok (map summary (list_modules cfg s)), s).

Definition load_module (api_version name : string) : Svc string :=
  let! _ := pure (check_api_version api_version) in
  if decide (name = "") then pure (Err name_required)
  else
    let! state := ask (load cfg name) (load_error_to_status name) in
    pure (Ok (ModuleStateM.as_str state)).

Definition unload_module (api_version name : string) : Svc string :=
  let! _ := pure (check_api_version api_version) in
  if decide (name = "") then pure (Err name_required)
  else λ s,
    let '(r, s) := unload name s in
    match r with
    | Ok _ | Err (UnknownModule _) => (Ok (ModuleStateM.as_str Stopped), s)
    | Err err =>
        (Err (mkGrpcStatus InternalError ("failed to unload: " +:+ SupervisorError_display err)), s)
    end.

Definition module_status_proto (name : string) : Prelude.eff (Sup W) SupervisorError ModuleStatus :=
  let! status := Supervisor.status cfg name in
  let! health := Supervisor.health cfg name in
  pure (Ok (mkModuleStatus name (ModuleStateM.as_str (st_state status)) (st_detail status)
              (HealthLevelM.as_str (hr_level health)) (hr_message health)
              (Convert.system_time_to_unix_nano (hr_checked_at health)))).

(** The loop of [get_status] over the listed modules. *)
Fixpoint status_loop (infos : list ModuleInfo) (s : Sup W) : list ModuleStatus * Sup W :=
  match infos with
  | [] => ([], s)
  | info :: infos =>
      let '(r, s) := module_status_proto (mi_name info) s in
      let '(rest, s) := status_loop infos s in
      (match r with Ok status => status :: rest | Err _ => rest end, s)
  end.

Definition infos (s : Sup W) : list ModuleInfo := map (λ m, m.1.1) (list_modules cfg s).

Definition get_status (daemon_version api_version name : string) : Svc (string * list ModuleStatus) :=
  let! _ := pure (check_api_version api_version) in
  if decide (name = "") then λ s,
    let '(modules, s) := status_loop (infos s) s in (Ok (daemon_version, modules), s)
  else
    let! status := ask (module_status_proto name) (λ _, module_not_found name) in
    pure (Ok (daemon_version, [status])).

Definition flag_spec_to_daemon_proto (flag : FlagSpec) : Pb.FlagSpec :=
  Pb.mkFlagSpec (fs_name flag) (fs_shorthand flag) (fs_usage flag) (fs_default flag)
    (FlagTypeM.as_str (fs_flag_type flag)).

Fixpoint command_spec_to_daemon_proto (command : CommandSpec) : Pb.CommandSpec :=
  Pb.mkCommandSpec (cs_name command) (cs_use_line command) (cs_short command)
    (map flag_spec_to_daemon_proto (cs_flags command))
    (map command_spec_to_daemon_proto (cs_subcommands command))
    (cs_tray command) (cs_min_args command) (cs_max_args command).

Definition module_commands (s : Sup W) (info : ModuleInfo) : option (string * list Pb.CommandSpec) :=
  match commands cfg (mi_name info) s with
  | Err _ => None
  | Ok cmds => Some (mi_name info, map command_spec_to_daemon_proto cmds)
  end.

Definition list_commands (api_version : string) : Svc (list (string * list Pb.CommandSpec)) :=
  let! _ := pure (check_api_version api_version) in
  λ s, (Ok (omap (module_commands s) (infos s)), s).

(** The stream of [dispatch] has one chunk. *)
Definition dispatch_rpc (api_version module : string) (path : list string)
    (flags : gmap string string) (args : list string) : Svc (list PbChunk) :=
  let! _ := pure (check_api_version api_version) in
  if decide (module = "") then pure (Err name_required)
  else
    let! result := ask (dispatch cfg module path flags args) (dispatch_error_to_status module) in
    pure (Ok [mkPbChunk (cr_output result) (cr_json result) (cr_exit_code result) true]).

(** [UpdateClient] as the calls see it. *)
Record UpdateClient := mkUpdateClient {
  uc_check : W → result (bool * string) string * W;
  uc_apply : W → result unit string * W;
}.

(** A call of the update client changes the world only. *)
Definition outside {A} (f : W → A * W) (s : Sup W) : A * Sup W := call f s.

Definition check_update (daemon_version : string) (update : option UpdateClient) (api_version : string) :
    Svc (bool * string * string) :=
  let! _ := pure (check_api_version api_version) in
  match update with
  | None => pure (Ok (false, daemon_version, daemon_version))
  | Some client => λ s,
      let '(r, s) := outside (uc_check client) s in
      (match r with
       | Ok (available, latest) => Ok (available, daemon_version, latest)
       | Err err => Err (mkGrpcStatus InternalError ("check update failed: " +:+ err))
       end, s)
  end.

Definition apply_update (update : option UpdateClient) (api_version : string) : Svc (bool * string) :=
  let! _ := pure (check_api_version api_version) in
  match update with
  | None => pure (Ok (false, "update client not configured"))
  | Some client => λ s,
      let '(r, s) := outside (uc_apply client) s in
      (match r with
       | Ok _ => Ok (true, "update applied successfully")
       | Err err => Ok (false, err)
       end, s)
  end.

(** ** The service *)

Inductive Request :=
| Version (v : string)
| ListModules (v : string)
| LoadModule (v name : string)
| UnloadModule (v name : string)
| GetStatusOf (v name : string)
| ListCommands (v : string)
| Dispatch (v module : string) (path : list string) (flags : gmap string string) (args : list string)
| CheckUpdate (v : string)
| ApplyUpdate (v : string).

Inductive Response :=
| RVersion (daemon api : string)
| RModules (l : list ModuleSummary)
| RState (state : string)
| RStatus (daemon : string) (l : list ModuleStatus)
| RCommands (l : list (string * list Pb.CommandSpec))
| RChunks (l : list PbChunk)
| RUpdate (available : bool) (current latest : string)
| RApplied (applied : bool) (message : string).

Context (daemon_version : string) (update : option UpdateClient).

Definition answer {A} (m : Svc A) (f : A → Response) : Svc Response :=
  let! a := m in pure (Ok (f a)).

Definition handle (r : Request) : Svc Response :=
  match r with
  | Version v => answer (version_rpc daemon_version v) (λ p, RVersion p.1 p.2)
  | ListModules v => answer (list_modules_rpc v) RModules
  | LoadModule v name => answer (load_module v name) RState
  | UnloadModule v name => answer (unload_module v name) RState
  | GetStatusOf v name => answer (get_status daemon_version v name) (λ p, RStatus p.1 p.2)
  | ListCommands v => answer (list_commands v) RCommands
  | Dispatch v module path flags args => answer (dispatch_rpc v module path flags args) RChunks
  | CheckUpdate v => answer (check_update daemon_version update v) (λ p, RUpdate p.1.1 p.1.2 p.2)
  | ApplyUpdate v => answer (apply_update update v) (λ p, RApplied p.1 p.2)
  end.

(** ** The streams *)

Definition event_to_daemon_proto (event : Event) : PbEvent :=
  mkPbEvent (ev_module event) (EventTypeM.as_str (ev_event_type event)) (ev_message event)
    (Convert.system_time_to_unix_nano (ev_at event)) (ev_fields event).

Definition log_line_to_proto (line : LogLine) : PbLogLine :=
  mkPbLogLine (Convert.system_time_to_unix_nano (ll_at line)) (ll_level line) (ll_message line).

(** [recvs] is what [recv] yields, [None] being an error (lagged or closed);
    [room] is how many sends succeed before the client is gone.  The result is
    what the client receives. *)
Fixpoint forward_events (recvs : list (option Event)) (module_filter : string) (room : nat) :
    list PbEvent :=
  match recvs with
  | [] | None :: _ => []
  | Some event :: recvs =>
      if bool_decide (module_filter ≠ "") && bool_decide (ev_module event ≠ module_filter)
      then forward_events recvs module_filter room
      else
        match room with
        | O => []
        | S room => event_to_daemon_proto event :: forward_events recvs module_filter room
        end
  end.

(** [watch_events], with [published] sent to the broker between the
    subscription and the end of the call; a receiver that fell behind yields an
    error first. *)
Definition watch_events `{Broadcast Event} (api_version module : string) (published : list Event) (room : nat)
    (broker : EventBroker.EventBroker) : result (list PbEvent) GrpcStatus :=
  let? _ := check_api_version api_version in
  let '(events, broker) := EventBroker.subscribe broker in
  let broker := foldl (λ b e, EventBroker.publish e b) broker published in
  let recvs :=
    if bc_retained (EventBroker.eb_sender broker) <? length published then [None]
    else map Some (bc_unread events (EventBroker.eb_sender broker)) in
  Ok (forward_events recvs module room).

(** The live part of [forward_logs]. *)
Fixpoint follow_logs (recvs : list (option LogLine)) (room : nat) : list PbLogLine :=
  match recvs, room with
  | Some line :: recvs, S room => log_line_to_proto line :: follow_logs recvs room
  | _, _ => []
  end.

Fixpoint forward_logs (backlog : list LogLine) (follow : option (list (option LogLine))) (room : nat) :
    list PbLogLine :=
  match backlog with
  | line :: backlog =>
      match room with
      | O => []
      | S room => log_line_to_proto line :: forward_logs backlog follow room
      end
  | [] => match follow with None => [] | Some recvs => follow_logs recvs room end
  end.

(** [if req.lines > 0 { req.lines as usize } else { 0 }] *)
Definition requested_lines (lines : Z) : nat := if (0 <? lines)%Z then Z.to_nat lines else 0.

(** [tail_logs] on a log to which [racing] is appended between the
    subscription and the reading of the backlog, and [later] before the client
    reads; a receiver that missed lines yields an error first. *)
Definition tail_logs `{Broadcast LogLine} (api_version module : string) (follow : bool) (lines : Z)
    (racing later : list (string * LogLine)) (room : nat) (ring : Ring.LogRing) :
    result (list PbLogLine) GrpcStatus :=
  let? _ := check_api_version api_version in
  let '(rx, ring) :=
    if follow then let '(rx, ring) := Ring.subscribe module ring in (Some rx, ring)
    else (None, ring) in
  let ring := Ring.append_all racing ring in
  let backlog := Ring.backlog module (requested_lines lines) ring in
  let ring := Ring.append_all later ring in
  let live rx :=
    let tail := Ring.tail (Ring.source_entry (Ring.sources ring) module (Ring.capacity ring)) in
    if bc_retained tail <? length (Ring.history module (racing ++ later)) then [None]
    else map Some (bc_unread rx tail) in
  Ok (forward_logs backlog (live <$> rx) room).
End Service.
