(* ===== verification/ServiceProps.v ===== *)
(** * What the daemon's service guarantees

    The version gate over every call, the outcomes of loading and unloading,
    which modules are reported, dispatch from the command line to the module
    and back, and the two streams against the histories they are fed from. *)
From S2P Require Import Prelude Sdk Backoff Supervisor SupervisorFacts LogRing Cli FakeEnv Service.

Section ServiceProps.
  Context {W : Type} `{!ModuleEnv W} `{!StateStore W}.
  Context (cfg : SupervisorConfig W) (debug : string → string).
  Context (daemon_version : string) (update : option (UpdateClient (W:=W))).

Definition req_version (r : Request) : string :=
  match r with
  | Version v | ListModules v | LoadModule v _ | UnloadModule v _ | GetStatusOf v _
  | ListCommands v | Dispatch v _ _ _ _ | CheckUpdate v | ApplyUpdate v => v
  end.

Definition supported (v : string) : bool := bool_decide (v = "") || bool_decide (v = "v1").

Lemma check_api_version_spec v :
  check_api_version debug v =
    if supported v then Ok ()
    else Err (mkGrpcStatus Unimplemented ("api_version " +:+ debug v +:+ " not supported")).
Proof.
  unfold check_api_version, supported.
  destruct (decide (v = "")), (decide (v = API_VERSION)); subst; try done;
    rewrite ?bool_decide_false by done; done.
Qed.

Lemma check_accepts v : supported v = true → check_api_version debug v = Ok ().
Proof. intros Hv. by rewrite check_api_version_spec, Hv. Qed.

(** A call that never answers [Unimplemented]. *)
Definition implemented {A} (m : Svc (W:=W) A) : Prop :=
  ∀ s st, (m s).1 = Err st → gs_code st ≠ Unimplemented.

Lemma implemented_bind {A B} (m : Svc A) (k : A → Svc B) :
  implemented m → (∀ a, implemented (k a)) → implemented (eff_bind m k).
Proof.
  intros Hm Hk s st. unfold eff_bind. destruct (m s) as [[a|e] s1] eqn:E; [apply Hk|].
  intros [= <-]. apply (Hm s). by rewrite E.
Qed.

Lemma implemented_pure {A} (r : result A GrpcStatus) :
  (∀ st, r = Err st → gs_code st ≠ Unimplemented) → implemented (pure r).
Proof. intros Hr s st. apply Hr. Qed.

Lemma implemented_ask {A} (m : Sup W → result A SupervisorError * Sup W) f :
  (∀ e, gs_code (f e) ≠ Unimplemented) → implemented (ask m f).
Proof. intros Hf s st. unfold ask. destruct (m s) as [[|e] s1]; intros [= <-]. apply Hf. Qed.

Lemma implemented_answer {A} v (m : Svc A) (f : A → Response) :
  supported v = true → implemented m →
  implemented (answer (eff_bind (pure (check_api_version debug v)) (λ _, m)) f).
Proof.
  intros Hv Hm. apply implemented_bind; [|by intros; apply implemented_pure].
  apply implemented_bind; [|done]. apply implemented_pure. by rewrite check_accepts.
Qed.

(** Once the version is accepted, no call answers [Unimplemented]. *)
Lemma handle_implemented r :
  supported (req_version r) = true → implemented (handle cfg debug daemon_version update r).
Proof.
  intros Hv. destruct r; simpl in Hv; apply implemented_answer; try done.
  - destruct (decide _); [by apply implemented_pure; intros st [= <-]|].
    apply implemented_bind; [|by intros; apply implemented_pure].
    by apply implemented_ask; intros [].
  - destruct (decide _); [by apply implemented_pure; intros st [= <-]|].
    intros s st. destruct (unload name s) as [[[]|[]] s1]; by intros [= <-].
  - destruct (decide _).
    + intros s st. by destruct (status_loop _ _ _).
    + apply implemented_bind; [by apply implemented_ask|by intros; apply implemented_pure].
  - destruct (decide _); [by apply implemented_pure; intros st [= <-]|].
    apply implemented_bind; [|by intros; apply implemented_pure].
    by apply implemented_ask; intros [].
  - destruct update as [client|]; [|by apply implemented_pure].
    intros s st. destruct (outside _ s) as [[[]|] s1]; by intros [= <-].
  - destruct update as [client|]; [|by apply implemented_pure].
    intros s st. by destruct (outside _ s) as [[|] s1].
Qed.

(** Every call of the service checks the API version first: a request for
    another version is answered [Unimplemented] and changes nothing, and no
    other request is ever answered so. *)
Theorem version_gate (r : Request) (s : Sup W) :
  let '(reply, s') := handle cfg debug daemon_version update r s in
  if supported (req_version r)
  then ∀ m, reply ≠ Err (mkGrpcStatus Unimplemented m)
  else s' = s ∧ ∃ m, reply = Err (mkGrpcStatus Unimplemented m).
Proof.
  destruct (handle _ _ _ _ r s) as [reply s'] eqn:E. destruct (supported (req_version r)) eqn:Hv.
  - intros m ->. apply (handle_implemented r Hv s (mkGrpcStatus Unimplemented m)); [by rewrite E|done].
  - assert (check_api_version debug (req_version r) =
      Err (mkGrpcStatus Unimplemented ("api_version " +:+ debug (req_version r) +:+ " not supported"))) as Hc
      by by rewrite check_api_version_spec, Hv.
    destruct r; simpl in Hc; revert E; unfold handle, answer, version_rpc, list_modules_rpc, load_module,
      unload_module, get_status, list_commands, dispatch_rpc, check_update, apply_update, eff_bind, pure;
      rewrite Hc; intros [= <- <-]; eauto.
Qed.

(** ** Loading and unloading *)

(** What [LoadModule] and [UnloadModule] report is so: a successful load
    names the state of the module, which is loaded; a failed one leaves the
    loaded and the enabled modules as they were and is [NotFound] only for a
    module that is not built in.  Unloading always reports [stopped] and the
    module is not loaded afterwards; but only a module that was loaded is
    disabled, one that is enabled and failed to come up stays enabled. *)
Theorem load_unload_reports (v name : string) (s : Sup W) :
  supported v = true → name ≠ "" →
  (let '(reply, s') := load_module cfg debug v name s in
   match reply with
   | Ok state => ∃ m, loaded s' !! name = Some m ∧ state = ModuleStateM.as_str (lm_state m)
   | Err st =>
       loaded s' = loaded s ∧ persisted s' = persisted s ∧ loaded s !! name = None ∧
       (gs_code st = NotFound ∧ cfg_registry cfg !! name = None ∨ gs_code st = PermissionDenied)
   end) ∧
  (let '(reply, s') := unload_module debug v name s in
   reply = Ok "stopped" ∧ loaded s' = delete name (loaded s) ∧
   persisted s' = (if decide (is_Some (loaded s !! name)) then persisted s ∖ {[name]} else persisted s)).
Proof.
  intros Hv Hn. split.
  - unfold load_module, eff_bind, pure, ask. rewrite check_accepts, decide_False by done.
    pose proof (wp_elim _ _ _ (load_spec cfg name s)) as Ho.
    destruct (load cfg name s) as [r s']. simpl in Ho.
    destruct Ho as [e He|err s1 Hl Hi Hu|i err s1 Hl Hu|i err s1 Hl Hu|i s1 Hl Hi Hlt Hu]; simpl.
    + by exists e.
    + destruct Hu as (Hcore & _). apply core_inv in Hcore as (? & ? & _).
      split_and!; [done..|]. inversion Hi; subst; simpl; auto.
    + destruct Hu as (Hcore & _). apply core_inv in Hcore as (? & ? & _). auto 6.
    + destruct Hu as (Hcore & _). apply core_inv in Hcore as (? & ? & _). auto 6.
    + eexists. split; [apply lookup_insert_eq|done].
  - unfold unload_module, eff_bind, pure. rewrite check_accepts, decide_False by done.
    destruct (loaded s !! name) as [m|] eqn:Hl.
    + pose proof (wp_elim _ _ _ (unload_spec cfg name m s Hl)) as Ho.
      destruct (unload name s) as [r s']. destruct Ho as (Hr & s1 & He & Hs). simpl in Hr, Hs. subst r s'.
      apply eff_inv in He as (Hld & _). rewrite decide_True by eauto. by rewrite Hld.
    + rewrite unload_none by done. rewrite decide_False by (by intros []). by rewrite delete_id.
Qed.

(** ** Which modules are reported *)

(** The name a loaded module gives for itself. *)
Definition declared (s : Sup W) (name : string) (m : LoadedModule) : string :=
  mi_name (default (env_info (lm_instance m) (world s)) (module_infos cfg !! name)).

Lemma elem_of_infos s info :
  info ∈ infos cfg s ↔
  (∃ n, module_infos cfg !! n = Some info) ∨
  (∃ n m, loaded s !! n = Some m ∧ module_infos cfg !! n = None ∧
     info = env_info (lm_instance m) (world s)).
Proof.
  unfold infos, list_modules. rewrite map_app, !map_map. rewrite elem_of_app. f_equiv.
  - rewrite list_elem_of_fmap. split.
    + intros ((n & i) & -> & (n' & _ & Hi)%list_elem_of_omap).
      destruct (module_infos cfg !! n') eqn:E; simplify_eq/=. eauto.
    + intros (n & Hn). exists (n, info). split; [done|]. apply list_elem_of_omap. exists n.
      split; [|by rewrite Hn]. unfold sorted_names. rewrite merge_sort_Permutation.
      apply list_elem_of_fmap. exists (n, info). split; [done|]. by apply elem_of_map_to_list.
  - rewrite list_elem_of_fmap. split.
    + intros ((n & m) & -> & [Hnone Hin%elem_of_map_to_list]%list_elem_of_filter). eauto 6.
    + intros (n & m & Hl & Hnone & ->). exists (n, m). split; [done|].
      apply list_elem_of_filter. split; [done|]. by apply elem_of_map_to_list.
Qed.

Lemma declared_in_infos s name m :
  loaded s !! name = Some m → ∃ info, info ∈ infos cfg s ∧ mi_name info = declared s name m.
Proof.
  intros Hl. unfold declared. destruct (module_infos cfg !! name) as [info|] eqn:E; simpl.
  - exists info. split; [|done]. apply elem_of_infos. eauto.
  - eexists. split; [|done]. apply elem_of_infos. right. eauto 6.
Qed.

Lemma commands_spec name s cs :
  commands cfg name s = Ok cs ↔
  ∃ m, loaded s !! name = Some m ∧ cs = env_commands (lm_instance m) (world s).
Proof.
  unfold commands, loaded_module_or_err. destruct (loaded s !! name) as [m|]; simpl.
  - split; [intros [= <-]; eauto|]. by intros (m' & [= <-] & ->).
  - destruct (cfg_registry cfg !! name); simpl; (split; [done|]); by intros (m' & ? & _).
Qed.

(** [ListCommands] reads nothing but what is there, changes nothing, and
    reports each module's own command trees under the name it is loaded as;
    every loaded module that calls itself by that name is reported. *)
Theorem list_commands_exact (v : string) (s : Sup W) :
  supported v = true →
  ∃ l, list_commands cfg debug v s = (Ok l, s) ∧
    (∀ name cs, (name, cs) ∈ l → ∃ m, loaded s !! name = Some m ∧
      cs = map command_spec_to_daemon_proto (env_commands (lm_instance m) (world s))) ∧
    (∀ name m, loaded s !! name = Some m → declared s name m = name →
      (name, map command_spec_to_daemon_proto (env_commands (lm_instance m) (world s))) ∈ l).
Proof.
  intros Hv. unfold list_commands, eff_bind, pure. rewrite check_accepts by done.
  eexists. split; [done|]. split.
  - intros name cs (info & _ & Hc)%list_elem_of_omap. unfold module_commands in Hc.
    destruct (commands cfg (mi_name info) s) as [cmds|] eqn:E; [|done]. injection Hc as <- <-.
    apply commands_spec in E as (m & Hl & ->). eauto.
  - intros name m Hl Hd. destruct (declared_in_infos s name m Hl) as (info & Hin & Hname).
    apply list_elem_of_omap. exists info. split; [done|]. unfold module_commands.
    rewrite Hname, Hd. by rewrite (proj2 (commands_spec name s _) (ex_intro _ m (conj Hl eq_refl))).
Qed.

(** ** Dispatch, end to end *)

(** What a module answers to a command arrives at the command line; a module that is not loaded is [NotFound], one that fails is
    [Internal] with its message; and the daemon itself is not changed. *)
Lemma dispatch_replies (v module : string) (path : list string) (flags : gmap string string)
    (args : list string) (s : Sup W) :
  supported v = true → module ≠ "" →
  let '(reply, s') := dispatch_rpc cfg debug v module path flags args s in
  core s' = core s ∧ obs s' = obs s ∧
  match loaded s !! module with
  | None => reply = Err (module_not_found debug module) ∧ world s' = world s
  | Some m =>
      let '(r, w) := env_dispatch (lm_instance m) path flags args (world s) in
      world s' = w ∧
      match r with
      | Ok out => reply = Ok [mkPbChunk (cr_output out) (cr_json out) (cr_exit_code out) true]
      | Err e => reply = Err (mkGrpcStatus InternalError ("dispatch failed: " +:+ me_message e))
      end
  end.
Proof.
  intros Hv Hn. unfold dispatch_rpc, eff_bind, pure, ask. rewrite check_accepts, decide_False by done.
  unfold dispatch, bind, gets, loaded_module_or_err, call.
  destruct (loaded s !! module) as [m|]; simpl.
  2: { destruct (cfg_registry cfg !! module); simpl; done. }
  by destruct (env_dispatch _ _ _ _ (world s)) as [[out|e] w].
Qed.
End ServiceProps.

(** ** The streams *)

(** What was received before the first error. *)
Fixpoint until_error {A} (recvs : list (option A)) : list A :=
  match recvs with Some a :: recvs => a :: until_error recvs | _ => [] end.

Definition watched (module_filter : string) (e : Event) : Prop :=
  module_filter = "" ∨ ev_module e = module_filter.

#[global] Instance watched_dec f e : Decision (watched f e).
Proof. unfold watched. apply _. Defined.

(** A watcher receives exactly the events of the module it asked for (of
    every module, when it named none), in order, up to the first one the
    broker could not deliver, and as many as it stays to read. *)
Theorem forward_events_filters (recvs : list (option Event)) (module_filter : string) (room : nat) :
  forward_events recvs module_filter room =
    take room (map event_to_daemon_proto (filter (watched module_filter) (until_error recvs))).
Proof.
  revert room. induction recvs as [|[e|] recvs IH]; intros room; simpl; try by rewrite take_nil.
  rewrite filter_cons.
  destruct (decide (watched module_filter e)) as [Hw|Hw].
  - replace (_ && _) with false; [by destruct room; simpl; rewrite ?IH|].
    symmetry. apply andb_false_iff. destruct Hw as [-> | <-]; [left|right]; by apply bool_decide_eq_false_2; intros [].
  - rewrite !bool_decide_true; [apply IH|..]; intros E; apply Hw; [right|left]; congruence.
Qed.

Lemma until_error_some {A} (l : list A) : until_error (map Some l) = l.
Proof. induction l as [|a l IH]; simpl; by f_equal. Qed.

(** A watcher that stays is sent every event of its module published after
    it subscribed, in order, as long as it does not fall behind the broker's
    capacity; one that falls behind is sent nothing more, and no error. *)
Theorem watch_events_delivers `{Broadcast Event} (debug : string → string) (v module : string)
    (past published : list Event) (c room : nat) :
  supported v = true → 0 < c →
  let broker := foldl (λ b e, EventBroker.publish e b) (EventBroker.new c) past in
  let wanted := filter (watched module) published in
  (length published ≤ c → length wanted ≤ room →
   watch_events debug v module published room broker = Ok (map event_to_daemon_proto wanted)) ∧
  (bc_retained (EventBroker.eb_sender broker) < length published →
   watch_events debug v module published room broker = Ok []).
Proof.
  intros Hv Hc broker wanted. unfold watch_events. rewrite check_accepts by done. simpl.
  pose proof (subscribe_unread (EventBroker.eb_sender broker)) as Hu.
  pose proof (subscribe_retained (EventBroker.eb_sender broker)) as Hr.
  pose proof (subscribe_live (EventBroker.eb_sender broker)) as Hl.
  unfold EventBroker.subscribe. destruct (bc_subscribe _) as [rx s1]; simpl in *.
  rewrite EventBroker.publishes. simpl. rewrite sends_retained, Hr.
  assert (c ≤ bc_retained (EventBroker.eb_sender broker)) as Hge.
  { unfold broker. rewrite EventBroker.publishes. simpl. rewrite sends_retained. by apply channel_retained. }
  split.
  - intros Hp Hroom. rewrite (proj2 (Nat.ltb_ge _ _)) by lia.
    rewrite sends_unread, Hu, Hr by (done || by rewrite Hu). simpl. rewrite keep_last_all by lia.
    rewrite forward_events_filters, until_error_some, take_ge; [done|]. by rewrite length_map.
  - intros Hp. by rewrite (proj2 (Nat.ltb_lt _ _)) by lia.
Qed.

(** Dropping the oldest elements early does not change what is kept. *)
Lemma keep_last_app {A} k m (l q : list A) :
  k ≤ m → keep_last k (keep_last m l ++ q) = keep_last k (l ++ q).
Proof.
  intros Hk. induction q as [|a q IH] using rev_ind.
  - rewrite !app_nil_r, keep_last_keep_last. f_equal. lia.
  - rewrite !app_assoc, <- (keep_last_snoc k k (keep_last m l ++ q)), IH by lia. by apply keep_last_snoc; lia.
Qed.

Section Tail.
  Context `{Broadcast LogLine}.

Lemma kept_append_from source appends (r : Ring.LogRing) :
  length (Ring.kept source r) ≤ Ring.capacity r `max` 1 →
  Ring.kept source (Ring.append_all appends r) =
    keep_last (Ring.capacity r `max` 1) (Ring.kept source r ++ Ring.history source appends) ∧
  Ring.capacity (Ring.append_all appends r) = Ring.capacity r.
Proof.
  intros Hl. unfold Ring.append_all. induction appends as [|p l [IH IHc]] using rev_ind.
  { simpl. by rewrite app_nil_r, keep_last_all. }
  rewrite foldl_app. simpl. split; [|done].
  rewrite Ring.kept_append, IH, IHc, Ring.history_snoc by (rewrite IH, IHc, length_keep_last; lia).
  rewrite app_assoc. destruct (decide (p.1 = source)); [by apply keep_last_snoc; lia|by rewrite app_nil_r].
Qed.

Lemma tail_after source appends (r : Ring.LogRing) e :
  Ring.sources r !! source = Some e →
  ∃ e', Ring.sources (Ring.append_all appends r) !! source = Some e' ∧
    Ring.tail e' = foldl (λ s a, bc_send a s) (Ring.tail e) (Ring.history source appends).
Proof.
  intros He. unfold Ring.append_all. induction appends as [|p l IH] using rev_ind; [by exists e|].
  destruct IH as (e1 & He1 & Ht). rewrite foldl_app. simpl. rewrite Ring.history_snoc, foldl_app.
  destruct (decide (p.1 = source)) as [->|Hne]; simpl.
  - rewrite lookup_insert_eq. eexists. split; [done|]. unfold Ring.source_entry. rewrite He1. simpl. by rewrite Ht.
  - rewrite lookup_insert_ne by done. eauto.
Qed.

Lemma forward_logs_all backlog recvs room :
  length backlog + length recvs ≤ room →
  forward_logs backlog (Some (map Some recvs)) room = map log_line_to_proto (backlog ++ recvs).
Proof.
  revert room. induction backlog as [|l backlog IH]; intros room Hr; simpl in *.
  - revert room Hr. induction recvs as [|x recvs IH]; intros room Hr; [by destruct room|].
    destruct room; simpl in *; [lia|]. f_equal. apply IH. lia.
  - destruct room; [lia|]. f_equal. apply IH. lia.
Qed.

Lemma history_app source a b : Ring.history source (a ++ b) = Ring.history source a ++ Ring.history source b.
Proof. unfold Ring.history. by rewrite filter_app, map_app. Qed.

(** The subscription starts empty and sees what is sent from then on. *)
Lemma subscribed_unread source appends (r : Ring.LogRing) :
  let '(rx, r1) := Ring.subscribe source r in
  let r2 := Ring.append_all appends r1 in
  let tail := Ring.tail (Ring.source_entry (Ring.sources r2) source (Ring.capacity r2)) in
  bc_retained tail = bc_retained (Ring.tail (Ring.source_entry (Ring.sources r) source (Ring.capacity r))) ∧
  bc_unread rx tail = keep_last (bc_retained tail) (Ring.history source appends).
Proof.
  unfold Ring.subscribe. set (entry := Ring.source_entry (Ring.sources r) source (Ring.capacity r)).
  pose proof (subscribe_unread (Ring.tail entry)) as Hu. pose proof (subscribe_retained (Ring.tail entry)) as Hr.
  pose proof (subscribe_live (Ring.tail entry)) as Hl.
  destruct (bc_subscribe (Ring.tail entry)) as [rx t]. simpl in *.
  match goal with |- context [Ring.append_all appends ?x] => set (r1 := x) end.
  destruct (tail_after source appends r1 (Ring.mkSource (Ring.lines entry) t)) as (e' & He' & Ht).
  { apply lookup_insert_eq. }
  unfold Ring.source_entry. rewrite He'. simpl. simpl in Ht. rewrite Ht, sends_retained.
  split; [done|]. rewrite sends_unread, Hu by (done || by rewrite Hu). done.
Qed.

Lemma entry_retained source appends c :
  c `max` 1 ≤ bc_retained (Ring.tail (Ring.source_entry
    (Ring.sources (Ring.append_all appends (Ring.new c))) source c)).
Proof.
  unfold Ring.append_all. induction appends as [|p l IH] using rev_ind.
  { simpl. unfold Ring.source_entry. rewrite lookup_empty. simpl. apply channel_retained. lia. }
  destruct (Ring.kept_append_all source l c) as [_ Hc]. unfold Ring.append_all in Hc.
  rewrite foldl_app. simpl. destruct (decide (p.1 = source)) as [->|Hne].
  - unfold Ring.source_entry at 1. rewrite lookup_insert_eq. simpl. by rewrite send_retained, Hc.
  - unfold Ring.source_entry at 1. by rewrite lookup_insert_ne.
Qed.

(** Following a log misses nothing: the client first gets the lines asked
    for, the most recent ones first appended, then every line appended since it
    subscribed, in order.  A line appended while the call is being answered
    comes twice, once in each part. *)
Theorem tail_logs_no_gap (debug : string → string) (v module : string) (lines : Z) (c room : nat)
    (past racing later : list (string * LogLine)) :
  supported v = true →
  let live := Ring.history module (racing ++ later) in
  let shown := keep_last (requested_lines lines `min` (c `max` 1)) (Ring.history module (past ++ racing)) in
  length live ≤ c `max` 1 →
  length shown + length live ≤ room →
  tail_logs debug v module true lines racing later room (Ring.append_all past (Ring.new c)) =
    Ok (map log_line_to_proto (shown ++ live)).
Proof.
  intros Hv live shown Hlive Hroom. unfold tail_logs. rewrite check_accepts by done. simpl.
  set (r := Ring.append_all past (Ring.new c)) in *.
  destruct (Ring.kept_append_all module past c) as [Hk Hc]. fold r in Hk, Hc.
  pose proof (subscribed_unread module (racing ++ later) r) as Hsub.
  destruct (Ring.subscribe module r) as [rx r1] eqn:Es. rewrite Hc in Hsub.
  assert (Ring.kept module r1 = Ring.kept module r ∧ Ring.capacity r1 = c) as [Hk1 Hc1].
  { revert Es. unfold Ring.subscribe. destruct (bc_subscribe _) as [rx' t]. intros [= _ <-]. simpl.
    split; [|done]. unfold Ring.kept. simpl. rewrite lookup_insert_eq. simpl.
    unfold Ring.source_entry. by destruct (Ring.sources r !! module). }
  assert (Ring.append_all later (Ring.append_all racing r1) = Ring.append_all (racing ++ later) r1) as ->.
  { unfold Ring.append_all. by rewrite foldl_app. }
  destruct Hsub as [Hret Hun]. pose proof (entry_retained module past c) as Hge. fold r in Hge.
  rewrite Hret. fold live. assert ((bc_retained (Ring.tail (Ring.source_entry (Ring.sources r) module c)) <?
    length live) = false) as -> by (apply Nat.ltb_ge; lia).
  simpl. fold live in Hun. rewrite Hun, Hret, keep_last_all by lia.
  assert (Ring.backlog module (requested_lines lines) (Ring.append_all racing r1) = shown) as ->.
  { destruct (kept_append_from module racing r1) as [Hk2 _]; [rewrite Hk1, Hk, Hc1, length_keep_last; lia|].
    assert (Ring.backlog module (requested_lines lines) (Ring.append_all racing r1) =
      keep_last (requested_lines lines) (Ring.kept module (Ring.append_all racing r1))) as ->.
    { unfold Ring.backlog, Ring.kept, keep_last. by destruct (Ring.sources _ !! module). }
    rewrite Hk2, Hk1, Hk, Hc1, keep_last_keep_last. unfold shown. rewrite history_app.
    by rewrite keep_last_app by lia. }
  f_equal. by apply forward_logs_all.
Qed.
End Tail.

(** ** Runs of a small daemon *)

Module ServiceRuns.
Import Fake.

Definition quoted (s : string) : string := s.

(** [a] and [b] are built in; any other name is a plugin that calls itself
    [external]. *)
Definition with_plugins : SupervisorConfig FakeWorld :=
  mkConfig {["a" := info "a"; "b" := info "b"]} 3 10 100 (Some (λ _ _ w, (Ok (), w))).

Definition loaded_as (name : string) : Sup FakeWorld :=
  (load with_plugins name (new good)).2.

Lemma load_unload_reports_witness :
  (load_module with_plugins quoted "v1" "a" (new good)).1 = Ok "running" ∧
  (unload_module quoted "v1" "a" (loaded_as "a")).1 = Ok "stopped".
Proof.
  split; [vm_compute; reflexivity|].
  destruct (load_unload_reports with_plugins quoted "v1" "a" (loaded_as "a") eq_refl) as [_ H]; [done|].
  destruct (unload_module _ _ _ _) as [r s']. exact (proj1 H).
Defined.

Lemma list_commands_exact_witness :
  ∃ l, list_commands with_plugins quoted "" (loaded_as "a") = (Ok l, loaded_as "a") ∧ ("a", []) ∈ l.
Proof.
  destruct (list_commands_exact with_plugins quoted "" (loaded_as "a") eq_refl) as (l & E & _ & H).
  exists l. split; [exact E|]. apply (H "a" (mkLoaded 0 Running 0 0 0 0)); vm_compute; reflexivity.
Defined.

Lemma dispatch_replies_witness :
  (dispatch_rpc with_plugins quoted "v1" "a" ["status"] ∅ [] (loaded_as "a")).1 =
    Err (mkGrpcStatus InternalError "dispatch failed: boom").
Proof.
  pose proof (dispatch_replies with_plugins quoted "v1" "a" ["status"] ∅ [] (loaded_as "a") eq_refl) as H.
  destruct (dispatch_rpc _ _ _ _ _ _ _ _) as [reply s'].
  destruct H as (_ & _ & H); [done|].
  replace (loaded (loaded_as "a") !! "a") with (Some (mkLoaded 0 Running 0 0 0 0)) in H
    by (vm_compute; reflexivity).
  exact (proj2 H).
Defined.

Example named_module_seen :
  match (get_status with_plugins quoted "1.0" "v1" "" (loaded_as "a")).1 with
  | Ok (_, l) => map mt_name l
  | Err _ => []
  end = ["a"].
Proof. vm_compute. reflexivity. Qed.

(** A plugin loaded under another name than it gives itself cannot be
    seen: [GetStatus] and [ListCommands] look the listed modules up by the
    names they declare, find nothing under that name and skip them, although
    the plugin is loaded and running. *)
Theorem misnamed_plugin_hidden :
  let s := loaded_as "hello" in
  (load_module with_plugins quoted "v1" "hello" (new good)).1 = Ok "running" ∧
  is_Some (loaded s !! "hello") ∧
  (list_commands with_plugins quoted "v1" s).1 = Ok [] ∧
  (get_status with_plugins quoted "1.0" "v1" "" s).1 = Ok ("1.0", []).
Proof. vm_compute. split_and!; [done|by eexists|done|done]. Qed.

Definition line (t : Z) : LogLine := mkLogLine t "info" "x".

Lemma tail_logs_no_gap_witness :
  tail_logs (H := Queue.queue) quoted "v1" "m" true 2 [("m", line 3)] [("m", line 4)] 9
    (Ring.append_all [("m", line 1); ("m", line 2)] (Ring.new 4))
  = Ok (map log_line_to_proto [line 2; line 3; line 3; line 4]).
Proof.
  etransitivity; [apply (tail_logs_no_gap (H := Queue.queue) quoted "v1" "m" 2 4 9
    [("m", line 1); ("m", line 2)] [("m", line 3)] [("m", line 4)])|];
    vm_compute; (reflexivity || lia).
Defined.
End ServiceRuns.
