(* ===== verification/TrayClient.v ===== *)
(** * The tray's side of the daemon (bins/penguin-tray)

    What the tray makes of the daemon's replies (snapshot.rs), what a click
    sends back (daemon_loop.rs) and how a row is printed (label.rs), composed
    with the daemon's own service: the menu a user sees against the state of
    the supervisor. *)
From S2P Require Import Prelude Sdk Backoff Supervisor SupervisorFacts Cli Service ServiceProps.
From S2P Require Import Tray.

(** ** Joining the replies (snapshot.rs) *)

Definition parse_health (value : string) : option HealthLevel :=
  if decide (value = "healthy") then Some LHealthy
  else if decide (value = "degraded") then Some LDegraded
  else if decide (value = "unhealthy") then Some LUnhealthy
  else None.

Definition flag_spec_from_daemon_proto (flag : Pb.FlagSpec) : FlagSpec :=
  mkFlagSpec (Pb.name flag) (Pb.shorthand flag) (Pb.usage flag) (Pb.default flag)
    (FlagTypeM.parse (Pb.type flag)).

Fixpoint command_spec_from_daemon_proto (command : Pb.CommandSpec) : CommandSpec :=
  mkCommandSpec (Pb.c_name command) (Pb.c_use command) (Pb.c_short command)
    (map flag_spec_from_daemon_proto (Pb.c_flags command))
    (map command_spec_from_daemon_proto (Pb.c_subcommands command))
    (Pb.c_tray command) (Pb.c_min_args command) (Pb.c_max_args command).

(** A [HashMap] filled by inserting in order. *)
Fixpoint insert_all {A} (l : list (string * A)) (m : gmap string A) : gmap string A :=
  match l with
  | [] => m
  | (k, a) :: l => insert_all l (<[k := a]> m)
  end.

Definition join_snapshot (modules : list ModuleSummary) (status : list ModuleStatus)
    (commands : list (string * list Pb.CommandSpec)) : list ModuleInput :=
  let status_by_name := insert_all (map (λ e, (mt_name e, e)) status) ∅ in
  let commands_by_module := insert_all commands ∅ in
  map (λ summary,
    let status_entry := status_by_name !! ms_name summary in
    mkModuleInput (ms_name summary)
      (default Disabled (ModuleStateM.parse (ms_state summary)))
      (entry ← status_entry; parse_health (mt_health entry))
      (default "" (mt_health_message <$> status_entry))
      (default [] (map command_spec_from_daemon_proto <$> commands_by_module !! ms_name summary)))
    modules.

(** ** Clicks (daemon_loop.rs) *)

Inductive ActionRequest :=
| RequestDispatch (request : DispatchRequest)
| RequestLoadModule (api_version name : string)
| RequestUnloadModule (api_version name : string)
| RequestRefresh
| RequestQuit.

Definition action_to_request (action : Action) : ActionRequest :=
  match action with
  | Tray.Dispatch module path => RequestDispatch (mkDispatchRequest API_VERSION module path ∅ [])
  | Tray.LoadModule module => RequestLoadModule API_VERSION module
  | Tray.UnloadModule module => RequestUnloadModule API_VERSION module
  | Refresh => RequestRefresh
  | Quit => RequestQuit
  end.

(** ** Labels (label.rs) *)

Definition render_label (item : MenuItem) : string :=
  if decide (it_detail item = "") then icon (it_severity item) +:+ " " +:+ it_label item
  else icon (it_severity item) +:+ " " +:+ it_label item +:+ " — " +:+ it_detail item.

(** ** The daemon behind it *)

Section Daemon.
  Context {W : Type} `{!ModuleEnv W} `{!StateStore W}.
  Context (cfg : SupervisorConfig W) (debug : string → string) (daemon_version : string).

(** The three calls, one after another. *)
Definition fetch_snapshot : Svc (W := W) (list ModuleInput) :=
  let! modules := list_modules_rpc cfg debug API_VERSION in
  let! status := get_status cfg debug daemon_version API_VERSION "" in
  let! commands := list_commands cfg debug API_VERSION in
  pure (Ok (join_snapshot modules status.2 commands)).

(** [None] when the calls took too long. *)
Definition render (fetched : option (result (list ModuleInput) GrpcStatus)) : Menu :=
  build_menu
    (match fetched with
     | Some (Ok modules) => Connected modules
     | Some (Err status) => Unreachable (gs_message status)
     | None => Unreachable "request timed out"
     end).

(** What a click does to the daemon; the reply is not looked at. *)
Definition apply_action (request : ActionRequest) (s : Sup W) : Sup W :=
  match request with
  | RequestDispatch r =>
      (dispatch_rpc cfg debug (dr_api_version r) (dr_module r) (dr_path r) (dr_flags r) (dr_args r) s).2
  | RequestLoadModule v name => (load_module cfg debug v name s).2
  | RequestUnloadModule v name => (unload_module debug v name s).2
  | RequestRefresh | RequestQuit => s
  end.

Lemma command_spec_daemon_round_trip c :
  command_spec_from_daemon_proto (command_spec_to_daemon_proto c) = c.
Proof.
  induction c as [n u sh fl subs t mn mx IH] using CommandSpec_tree_ind. simpl. f_equal.
  - rewrite map_map. rewrite (map_ext _ id); [apply map_id|]. intros [].
    unfold flag_spec_from_daemon_proto. simpl. by rewrite FlagType_parse_as_str.
  - rewrite map_map. induction IH as [|c l Hc Hl IHl]; simpl; [done|]. by rewrite Hc, IHl.
Qed.

(** Asking for status changes nothing of the daemon itself. *)
Lemma module_status_core name s :
  let '(_, s') := module_status_proto cfg name s in core s' = core s ∧ obs s' = obs s.
Proof.
  unfold module_status_proto, eff_bind, Supervisor.status, Supervisor.health, bind, gets, ret, call, pure,
    loaded_module_or_err.
  destruct (loaded s !! name) as [m|] eqn:Em; [|by destruct (cfg_registry cfg !! name)].
  destruct (env_status (lm_instance m) (world s)) as [[st|e] w]; simpl; [|done].
  rewrite Em. simpl. by destruct (env_health (lm_instance m) w).
Qed.

Lemma status_loop_core l s :
  let '(_, s') := status_loop cfg l s in core s' = core s ∧ obs s' = obs s.
Proof.
  revert s. induction l as [|i l IH]; intros s; [done|]. simpl.
  pose proof (module_status_core (Sdk.mi_name i) s) as H1.
  destruct (module_status_proto cfg (Sdk.mi_name i) s) as [r s1].
  specialize (IH s1). destruct (status_loop cfg l s1) as [rest s2]. by destruct H1 as [<- <-].
Qed.

Lemma insert_all_lookup {A} (l : list (string * A)) m k :
  match insert_all l m !! k with
  | Some a => (k, a) ∈ l ∨ m !! k = Some a
  | None => (∀ a, (k, a) ∉ l) ∧ m !! k = None
  end.
Proof.
  revert m. induction l as [|[k' a] l IH]; intros m; simpl.
  { destruct (m !! k); [by right|]. split; [|done]. intros a. apply not_elem_of_nil. }
  specialize (IH (<[k' := a]> m)). destruct (insert_all l (<[k' := a]> m) !! k) as [b|].
  - destruct (decide (k' = k)) as [->|Hne].
    + rewrite lookup_insert_eq in IH. destruct IH as [IH|[= ->]]; left; [by right|by left].
    + rewrite lookup_insert_ne in IH by done. destruct IH; [left; by right|by right].
  - destruct IH as [IH1 IH2]. destruct (decide (k' = k)) as [->|Hne]; [by rewrite lookup_insert_eq in IH2|].
    rewrite lookup_insert_ne in IH2 by done. split; [|done].
    intros b [[= ? ?]|Hin]%elem_of_cons; [congruence|]. by apply (IH1 b).
Qed.

(** The tray shows the daemon as it is.  Fetching a snapshot succeeds from
    every state of the supervisor and changes nothing of it; the rows are the
    modules the supervisor lists, in its order and with the states it has them
    in; the commands of a row are those the module of that name has (decoded
    without loss), none only when the name is not reported. *)
Theorem tray_snapshot_exact (s : Sup W) :
  let '(r, s') := fetch_snapshot s in
  core s' = core s ∧ obs s' = obs s ∧ ∃ inputs, r = Ok inputs ∧
    map (λ i, (Tray.mi_name i, Tray.mi_state i)) inputs =
      map (λ m, (Sdk.mi_name m.1.1, m.1.2)) (list_modules cfg s) ∧
    ∀ i, i ∈ inputs →
      (commands cfg (Tray.mi_name i) s' = Ok (mi_commands i) ∨
       mi_commands i = [] ∧ ∀ info, info ∈ infos cfg s' → Sdk.mi_name info = Tray.mi_name i →
         ∃ e, commands cfg (Tray.mi_name i) s' = Err e).
Proof.
  unfold fetch_snapshot, list_modules_rpc, get_status, list_commands, eff_bind, pure.
  rewrite (check_accepts debug API_VERSION) by done. rewrite decide_True by done.
  pose proof (status_loop_core (infos cfg s) s) as Hc.
  destruct (status_loop cfg (infos cfg s) s) as [statuses s']. destruct Hc as [Hc Ho].
  split_and!; [done|done|]. eexists. split; [reflexivity|]. split.
  - unfold join_snapshot. rewrite !map_map. apply map_ext. intros [[info st] ext]. simpl.
    by rewrite ModuleState_parse_as_str.
  - intros i. unfold join_snapshot. rewrite list_elem_of_fmap. intros (sm & -> & _). simpl.
    set (cl := omap (module_commands cfg s') (infos cfg s')).
    assert (∀ n cs, (n, cs) ∈ cl ↔ ∃ info cmds, info ∈ infos cfg s' ∧ Sdk.mi_name info = n ∧
      commands cfg n s' = Ok cmds ∧ cs = map command_spec_to_daemon_proto cmds) as Hcl.
    { intros n cs. unfold cl. rewrite list_elem_of_omap. unfold module_commands. split.
      - intros (info & Hi & E). destruct (commands cfg _ s') as [cmds|] eqn:Ec; [|done]. naive_solver.
      - intros (info & cmds & Hi & <- & Ec & ->). exists info. by rewrite Ec. }
    pose proof (insert_all_lookup cl ∅ (ms_name sm)) as Hl.
    destruct (insert_all cl ∅ !! ms_name sm) as [cs|]; simpl.
    + destruct Hl as [(info & cmds & _ & _ & Ec & ->)%Hcl|]; [|done]. left. rewrite Ec, map_map.
      rewrite (map_ext _ id); [by rewrite map_id|]. intros c. apply command_spec_daemon_round_trip.
    + right. split; [done|]. intros info Hi Hn. destruct (commands cfg (ms_name sm) s') as [cmds|e] eqn:Ec; [|eauto].
      destruct Hl as [Hl _]. exfalso. eapply (Hl (map command_spec_to_daemon_proto cmds)), Hcl. eauto 10.
Qed.
End Daemon.
