(* ===== verification/Hooks.v ===== *)
(** * Agent hook shims (penguin-module-waddleai/src/fsutil.rs, src/hooks)

    Merging a hook entry into an editor's own configuration file, and putting
    the file back: the atomic write (fsutil.rs), the backup of the original
    bytes (hooks/backup.rs), the three shims (claude.rs, gemini.rs, vscode.rs)
    and [install], [uninstall] and [status] over them (hooks/mod.rs).

    The file system is a set of files on which any call may fail; [seen]
    collects its contents after every call, and after every byte of a write,
    so that a crash is one of its elements.  A path is the list of its
    components; directories are implicit, [create_dir_all] is a call that may
    fail.  JSON coding is a parameter with its round trip. *)
From S2P Require Import Prelude.
From S2P Require Import Text.
From S2P Require Import Json.
From S2P Require Import Mask.

Abbreviation Path := (list string).

(** [Path::parent]: the root has none. *)
Definition parent (p : Path) : option Path :=
  match p with [] => None | _ => Some (removelast p) end.

Definition display (p : Path) : string := foldr (λ c s, "/" +:+ c +:+ s) "" p.

(** ** Files *)

Module Files.

Record File := mkFile { f_mode : Z; f_data : string }.
Abbreviation disk := (gmap Path File).

Inductive IoKind := NotFound | AlreadyExists | InvalidInput | InvalidData | OtherIo.
Record IoError := mkIoError { io_kind : IoKind; io_text : string }.

(** A failing call: its message and, for a write, the bytes that got through. *)
Record Fault := mkFault { ft_text : string; ft_written : nat }.

Record t := mk {
  files : disk;
  fault : nat → option Fault;     (* what the n-th call does *)
  calls : nat;
  stat_fault : nat → bool;        (* whether the n-th [is_file] fails to look *)
  stats : nat;
  rng : nat → Z;                  (* the n-th random [u64] *)
  draws : nat;
  seen : list disk;
}.

Definition set_files (d : disk) (fs : t) : t :=
  mk d (fault fs) (calls fs) (stat_fault fs) (stats fs) (rng fs) (draws fs) (seen fs ++ [d]).

Definition see (ds : list disk) (fs : t) : t :=
  mk (files fs) (fault fs) (calls fs) (stat_fault fs) (stats fs) (rng fs) (draws fs) (seen fs ++ ds).

(** Takes the next fault. *)
Definition next (fs : t) : option Fault * t :=
  (fault fs (calls fs),
   mk (files fs) (fault fs) (S (calls fs)) (stat_fault fs) (stats fs) (rng fs) (draws fs) (seen fs)).

Definition random (fs : t) : Z * t :=
  (rng fs (draws fs),
   mk (files fs) (fault fs) (calls fs) (stat_fault fs) (stats fs) (rng fs) (S (draws fs)) (seen fs)).

Definition call {A} (k : eff t IoError A) : eff t IoError A := λ fs,
  let '(ft, fs) := next fs in
  match ft with
  | Some ft => (Err (mkIoError OtherIo (ft_text ft)), fs)
  | None => k fs
  end.

Definition not_found : IoError := mkIoError NotFound "No such file or directory (os error 2)".

(** [std::fs::read]. *)
Definition read (p : Path) : eff t IoError string :=
  call (λ fs, (ok_or (f_data <$> files fs !! p) not_found, fs)).

(** [std::fs::metadata], of which the mode is used. *)
Definition metadata (p : Path) : eff t IoError Z :=
  call (λ fs, (ok_or (f_mode <$> files fs !! p) not_found, fs)).

(** [Path::is_file]: no when the file cannot be looked at. *)
Definition is_file (p : Path) (fs : t) : bool * t :=
  (negb (stat_fault fs (stats fs)) && bool_decide (is_Some (files fs !! p)),
   mk (files fs) (fault fs) (calls fs) (stat_fault fs) (S (stats fs)) (rng fs) (draws fs) (seen fs)).

Definition create_dir_all (p : Path) : eff t IoError unit := call (pure (Ok ())).

(** [OpenOptions::create_new]: an empty file with the process's default mode
    (0666 less the usual umask 022). *)
Definition create_new (p : Path) : eff t IoError unit :=
  call (λ fs,
    match files fs !! p with
    | Some _ => (Err (mkIoError AlreadyExists "File exists (os error 17)"), fs)
    | None => (Ok (), set_files (<[p := mkFile (6 * 64 + 4 * 8 + 4) ""]> (files fs)) fs)
    end).

Definition set_permissions (p : Path) (mode : Z) : eff t IoError unit :=
  call (λ fs, (Ok (), set_files (alter (λ f, mkFile mode (f_data f)) p (files fs)) fs)).

(** [write_all]: the bytes arrive one after another; a fault stops it part of
    the way. *)
Definition write_all (p : Path) (data : string) : eff t IoError unit := λ fs,
  let '(ft, fs) := next fs in
  let upto k := alter (λ f, mkFile (f_mode f) (f_data f +:+ String.substring 0 k data)) p (files fs) in
  let n := match ft with Some ft => ft_written ft | None => String.length data end in
  let fs := see (map upto (seq 0 n)) fs in
  (match ft with Some ft => Err (mkIoError OtherIo (ft_text ft)) | None => Ok () end,
   set_files (upto n) fs).

Definition sync_all : eff t IoError unit := call (pure (Ok ())).

Definition remove_file (p : Path) : eff t IoError unit :=
  call (λ fs,
    match files fs !! p with
    | Some _ => (Ok (), set_files (delete p (files fs)) fs)
    | None => (Err not_found, fs)
    end).

(** [rename(2)] replaces the destination in one step. *)
Definition rename (from to : Path) : eff t IoError unit :=
  call (λ fs,
    match files fs !! from with
    | Some f => (Ok (), set_files (<[to := f]> (delete from (files fs))) fs)
    | None => (Err not_found, fs)
    end).

End Files.

(** ** The atomic write (fsutil.rs) *)

Section Fsutil.
  (** The [{:x}] rendering of a [u64]. *)
  Context (hex : Z → string).
  Abbreviation io := (eff Files.t Files.IoError).

Definition NEW_FILE_MODE : Z := 6 * 64.

Definition existing_file_mode (path : Path) : io (option Z) := λ fs,
  let '(r, fs) := Files.metadata path fs in
  match r with
  | Ok mode => (Ok (Some (Z.land mode 4095)), fs)
  | Err err =>
      match Files.io_kind err with
      | Files.NotFound => (Ok None, fs)
      | _ => (Err err, fs)
      end
  end.

Definition apply_mode (file : Path) (existing_mode : option Z) : io unit :=
  Files.set_permissions file (default NEW_FILE_MODE existing_mode).

Definition random_suffix (fs : Files.t) : string * Files.t :=
  let '(v, fs) := Files.random fs in (hex v, fs).

Definition tmp_prefix : string := ".waddleai-tmp-".

(** The loop of [create_temp_file] with [n] attempts left. *)
Fixpoint create_temp_loop (n : nat) (dir : Path) : io Path := λ fs,
  match n with
  | 0 => (Err (Files.mkIoError Files.AlreadyExists
                 "could not create a unique temp file after 100 attempts"), fs)
  | S n =>
      let '(suffix, fs) := random_suffix fs in
      let path := dir ++ [tmp_prefix +:+ suffix] in
      let '(opened, fs) := Files.create_new path fs in
      match opened with
      | Ok _ => (Ok path, fs)
      | Err err =>
          match Files.io_kind err with
          | Files.AlreadyExists => create_temp_loop n dir fs
          | _ => (Err err, fs)
          end
      end
  end.

Definition create_temp_file (dir : Path) : io Path := create_temp_loop 100 dir.

(** [m], after whose failure the temporary file is removed. *)
Definition or_remove {A} (tmp_path : Path) (m : io A) : io A := λ fs,
  let '(r, fs) := m fs in
  match r with
  | Ok a => (Ok a, fs)
  | Err err => let '(_, fs) := Files.remove_file tmp_path fs in (Err err, fs)
  end.

Definition write_atomic (path : Path) (data : string) : io unit :=
  let! dir := pure (ok_or (parent path)
    (Files.mkIoError Files.InvalidInput (display path +:+ " has no parent directory"))) in
  let! _ := Files.create_dir_all dir in
  let! existing_mode := existing_file_mode path in
  let! tmp_path := create_temp_file dir in
  let! _ := or_remove tmp_path (apply_mode tmp_path existing_mode) in
  let! _ := or_remove tmp_path (let! _ := Files.write_all tmp_path data in Files.sync_all) in
  Files.rename tmp_path path.

End Fsutil.

(** ** Documents *)

(** The members of an object are in the order of their names. *)
Fixpoint ordered (m : list (string * Value)) : bool :=
  match m with
  | (k, _) :: ((k', _) :: _) as m' => String.ltb k k' && ordered m'
  | _ => true
  end.

(** Every object is ordered by name, as [serde_json::Map] keeps it, and no
    number is a float, whose text may change when it is read back. *)
Fixpoint regular (v : Value) : bool :=
  match v with
  | JFloat _ => false
  | JArray items => forallb regular items
  | JObject m => ordered m && forallb (λ kv, regular (snd kv)) m
  | _ => true
  end.

(** ** Backups of the original bytes (hooks/backup.rs) *)

Record Manifest := mkManifest { mf_target_path : string; mf_existed : bool }.

(** [serde_json] on manifests and on whole documents. *)
Class HookCodec := {
  manifest_to_vec_pretty : Manifest → result string string;
  manifest_from_slice : string → result Manifest string;
  manifest_round_trip : ∀ m data, manifest_to_vec_pretty m = Ok data → manifest_from_slice data = Ok m;
  doc_to_vec_pretty : Value → result string string;
  doc_from_slice : string → result Value string;
  doc_round_trip : ∀ v data, regular v = true → doc_to_vec_pretty v = Ok data →
    data ≠ "" ∧ doc_from_slice (data +:+ String newline "") = Ok v;
}.

Section Backup.
  Context {Codec : HookCodec} (hex : Z → string).
  Abbreviation io := (eff Files.t Files.IoError).

Definition meta_path (backup_dir : Path) (ecosystem : string) : Path :=
  backup_dir ++ [ecosystem +:+ ".meta.json"].
Definition orig_path (backup_dir : Path) (ecosystem : string) : Path :=
  backup_dir ++ [ecosystem +:+ ".orig"].

Definition backup_exists (backup_dir : Path) (ecosystem : string) (fs : Files.t) : bool * Files.t :=
  Files.is_file (meta_path backup_dir ecosystem) fs.

(** The bytes of a file, [None] when there is none. *)
Definition read_if_present (p : Path) : io (option string) := λ fs,
  let '(r, fs) := Files.read p fs in
  match r with
  | Ok bytes => (Ok (Some bytes), fs)
  | Err err =>
      match Files.io_kind err with
      | Files.NotFound => (Ok None, fs)
      | _ => (Err err, fs)
      end
  end.

Definition invalid_data (err : string) : Files.IoError := Files.mkIoError Files.InvalidData err.

Definition snapshot (backup_dir : Path) (ecosystem : string) (target : Path) : io unit := λ fs,
  let '(there, fs) := backup_exists backup_dir ecosystem fs in
  if there then (Ok (), fs)
  else
    (let! original := read_if_present target in
     let manifest := mkManifest (display target) (bool_decide (is_Some original)) in
     let! manifest_bytes := pure (map_err invalid_data (manifest_to_vec_pretty manifest)) in
     let! _ := match original with
               | Some bytes => write_atomic hex (orig_path backup_dir ecosystem) bytes
               | None => pure (Ok ())
               end in
     write_atomic hex (meta_path backup_dir ecosystem) manifest_bytes) fs.

Record Backup := mkBackup { bk_original : option string }.

Definition load (backup_dir : Path) (ecosystem : string) : io (option Backup) :=
  let! meta_bytes := read_if_present (meta_path backup_dir ecosystem) in
  match meta_bytes with
  | None => pure (Ok None)
  | Some meta_bytes =>
      let! manifest := pure (map_err invalid_data (manifest_from_slice meta_bytes)) in
      if mf_existed manifest then
        let! bytes := Files.read (orig_path backup_dir ecosystem) in
        pure (Ok (Some (mkBackup (Some bytes))))
      else pure (Ok (Some (mkBackup None)))
  end.

Definition remove_if_present (path : Path) : io unit := λ fs,
  let '(r, fs) := Files.remove_file path fs in
  match r with
  | Ok _ => (Ok (), fs)
  | Err err =>
      match Files.io_kind err with
      | Files.NotFound => (Ok (), fs)
      | _ => (Err err, fs)
      end
  end.

Definition clear (backup_dir : Path) (ecosystem : string) : io unit :=
  let! _ := remove_if_present (meta_path backup_dir ecosystem) in
  remove_if_present (orig_path backup_dir ecosystem).

End Backup.

(** ** Shims (hooks/mod.rs) *)

Definition HOOK_EVENTS : list string := ["pre-tool-use"; "post-tool-use"].
Definition HOOK_COMMAND : string := "penguin waddleai hook".

Definition build_guarded_command (probe command : string) : string :=
  "command -v " +:+ probe +:+ " >/dev/null 2>&1 && exec " +:+ command +:+ " || true".

Definition guarded_hook_command (event : string) : string :=
  build_guarded_command "penguin" (HOOK_COMMAND +:+ " " +:+ event).

Definition is_hook_command (command : string) : bool := contains HOOK_COMMAND command.

Inductive Ecosystem := Claude | Gemini | VsCode.

#[global] Instance Ecosystem_eq_dec : EqDecision Ecosystem.
Proof. solve_decision. Defined.

Definition eco_as_str (e : Ecosystem) : string :=
  match e with Claude => "claude" | Gemini => "gemini" | VsCode => "vscode" end.

Definition eco_parse (value : string) : option Ecosystem :=
  if decide (value = "claude") then Some Claude
  else if decide (value = "gemini") then Some Gemini
  else if decide (value = "vscode") then Some VsCode
  else None.

Definition eco_all : list Ecosystem := [Claude; Gemini; VsCode].

Inductive ShimError :=
| NoHomeDir
| NoConfigDir
| NotAnObject (path : Path)
| InvalidJson (path : Path) (source : string)
| ShimIo (path : Path) (source : Files.IoError)
| NotInstalled (ecosystem : string).

Definition shim_error_text (e : ShimError) : string :=
  match e with
  | NoHomeDir => "could not resolve the user's home directory"
  | NoConfigDir => "could not resolve the user's config directory"
  | NotAnObject p => display p +:+ ": top-level JSON value is not an object"
  | InvalidJson p s => display p +:+ ": invalid JSON: " +:+ s
  | ShimIo p s => display p +:+ ": " +:+ Files.io_text s
  | NotInstalled s => s +:+ ": not installed"
  end.

(** A call ends with an error, or the program panics. *)
Inductive Stop := Returns (e : ShimError) | Panics (message : string).

(** The trait: where the file is, and the merge, [None] when it panics. *)
Record Shim := mkShim {
  shim_ecosystem : Ecosystem;
  shim_target_path : result Path ShimError;
  shim_merge : Value → option Value;
}.

Record InstallReport := mkInstallReport { ir_target_path : Path; ir_freshly_installed : bool }.
Record UninstallReport := mkUninstallReport { ur_target_path : Path }.
Record ShimStatus := mkShimStatus {
  ss_ecosystem : Ecosystem; ss_target_path : Path; ss_installed : bool
}.

Definition is_object (v : Value) : bool := match v with JObject _ => true | _ => false end.
Definition is_array (v : Value) : bool := match v with JArray _ => true | _ => false end.

Section Install.
  Context {Codec : HookCodec} (hex : Z → string).
  Abbreviation act := (eff Files.t Stop).

(** [map_err] to [ShimError::Io]. *)
Definition on_path {A} (path : Path) (m : eff Files.t Files.IoError A) : act A := λ fs,
  let '(r, fs) := m fs in (map_err (λ source, Returns (ShimIo path source)) r, fs).

(** A missing or empty file is an empty object. *)
Definition read_document (path : Path) : act Value :=
  let! bytes := on_path path (read_if_present path) in
  match bytes with
  | None | Some "" => pure (Ok (JObject []))
  | Some bytes =>
      let! document := pure (map_err (λ s, Returns (InvalidJson path s)) (doc_from_slice bytes)) in
      if negb (is_object document) then pure (Err (Returns (NotAnObject path)))
      else pure (Ok document)
  end.

Definition write_document (path : Path) (document : Value) : act unit :=
  on_path path
    (let! bytes := pure (map_err invalid_data (doc_to_vec_pretty document)) in
     write_atomic hex path (bytes +:+ String newline "")).

(** [remove_if_present] of mod.rs, the one of backup.rs with its error mapped. *)
Definition remove_target (path : Path) : act unit := on_path path (remove_if_present path).

Definition install (backup_dir : Path) (shim : Shim) : act InstallReport :=
  let! target := pure (map_err Returns (shim_target_path shim)) in
  let ecosystem := eco_as_str (shim_ecosystem shim) in
  let! there := λ fs, let '(b, fs) := backup_exists backup_dir ecosystem fs in (Ok b, fs) in
  let! _ := on_path target (snapshot hex backup_dir ecosystem target) in
  let! document := read_document target in
  let! document := pure (ok_or (shim_merge shim document)
                           (Panics "Shim::merge contract: document is always a JSON object")) in
  let! _ := write_document target document in
  pure (Ok (mkInstallReport target (negb there))).

Definition uninstall (backup_dir : Path) (shim : Shim) : act UninstallReport :=
  let! target := pure (map_err Returns (shim_target_path shim)) in
  let ecosystem := eco_as_str (shim_ecosystem shim) in
  let! loaded := on_path target (load backup_dir ecosystem) in
  match loaded with
  | None => pure (Err (Returns (NotInstalled ecosystem)))
  | Some backup =>
      let! _ := match bk_original backup with
                | Some bytes => on_path target (write_atomic hex target bytes)
                | None => remove_target target
                end in
      let! _ := on_path target (clear backup_dir ecosystem) in
      pure (Ok (mkUninstallReport target))
  end.

Definition hooks_status (backup_dir : Path) (shim : Shim) : act ShimStatus :=
  let! target := pure (map_err Returns (shim_target_path shim)) in
  λ fs, let '(b, fs) := backup_exists backup_dir (eco_as_str (shim_ecosystem shim)) fs in
        (Ok (mkShimStatus (shim_ecosystem shim) target b), fs).

End Install.

(** ** The merges *)

(** [serde_json::Map::insert]: the map is ordered by key. *)
Fixpoint obj_insert (k : string) (v : Value) (m : list (string * Value)) : list (string * Value) :=
  match m with
  | [] => [(k, v)]
  | (k', v') :: m' =>
      match String.compare k k' with
      | Lt => (k, v) :: m
      | Eq => (k, v) :: m'
      | Gt => (k', v') :: obj_insert k v m'
      end
  end.

(** [entry(k).or_insert_with(d)], replaced by [d] when it has the wrong
    shape: what the entry then holds. *)
Definition entry_as (ok : Value → bool) (d : Value) (k : string) (m : list (string * Value)) : Value :=
  match assoc k m with
  | Some v => if ok v then v else d
  | None => d
  end.

(** [Value::starts_with] on strings. *)
Definition starts_with (p s : string) : bool := String.prefix p s.

(** *** Claude Code (hooks/claude.rs) *)

(** [None] where the source is [unreachable!]. *)
Definition claude_event_name (event : string) : option string :=
  if decide (event = "pre-tool-use") then Some "PreToolUse"
  else if decide (event = "post-tool-use") then Some "PostToolUse"
  else None.

Definition is_waddleai_group (group : Value) : bool :=
  match get group "hooks" with
  | Some hooks =>
      match as_array hooks with
      | Some inner =>
          existsb (λ entry,
            match get entry "command" with
            | Some c => match as_str c with Some s => is_hook_command s | None => false end
            | None => false
            end) inner
      | None => false
      end
  | None => false
  end.

(** The group pushed for a command; [json!] orders the members by name. *)
Definition waddleai_group (command : string) : Value :=
  JObject [("hooks", JArray [JObject [("command", JString command); ("type", JString "command")]]);
           ("matcher", JString "*")].

(** One turn of the loop over the events. *)
Definition claude_event (hooks_object : list (string * Value)) (event : string) :
    option (list (string * Value)) :=
  event_name ← claude_event_name event;
  let command := guarded_hook_command event in
  array ← as_array (entry_as is_array (JArray []) event_name hooks_object);
  Some (obj_insert event_name
          (JArray (List.filter (λ g, negb (is_waddleai_group g)) array ++ [waddleai_group command]))
          hooks_object).

Fixpoint claude_events (hooks_object : list (string * Value)) (events : list string) :
    option (list (string * Value)) :=
  match events with
  | [] => Some hooks_object
  | event :: events => h ← claude_event hooks_object event; claude_events h events
  end.

Definition claude_merge (document : Value) : option Value :=
  root ← as_object document;
  hooks_object ← as_object (entry_as is_object (JObject []) "hooks" root);
  hooks_object ← claude_events hooks_object HOOK_EVENTS;
  Some (JObject (obj_insert "hooks" (JObject hooks_object) root)).

(** *** Gemini (hooks/gemini.rs) *)

Definition ID_PREFIX : string := "waddleai-".

Definition is_waddleai_entry (entry : Value) : bool :=
  match get entry "id" with
  | Some v => match as_str v with Some id => starts_with ID_PREFIX id | None => false end
  | None => false
  end.

Definition waddleai_entry (event : string) : Value :=
  JObject [("command", JString (guarded_hook_command event)); ("event", JString event);
           ("id", JString (ID_PREFIX +:+ event))].

Definition gemini_merge (document : Value) : option Value :=
  root ← as_object document;
  hooks_array ← as_array (entry_as is_array (JArray []) "hooks" root);
  let kept := List.filter (λ e, negb (is_waddleai_entry e)) hooks_array in
  Some (JObject (obj_insert "hooks" (JArray (kept ++ map waddleai_entry HOOK_EVENTS)) root)).

(** *** VS Code (hooks/vscode.rs) *)

Definition vscode_merge (document : Value) : option Value :=
  root ← as_object document;
  Some (JObject (obj_insert "waddleai.hookCommand" (JString HOOK_COMMAND)
                   (obj_insert "waddleai.enabled" (JBool true) root))).

(** *** The shims: where each file is *)

Section Shims.
  (** [dirs::home_dir] and [dirs::config_dir]. *)
  Context (home_dir config_dir : option Path).

Definition ClaudeShim (override_path : option Path) : Shim :=
  mkShim Claude
    (match override_path with
     | Some path => Ok path
     | None => let? home := ok_or home_dir NoHomeDir in Ok (home ++ [".claude"; "settings.json"])
     end) claude_merge.

Definition GeminiShim (override_path : option Path) : Shim :=
  mkShim Gemini
    (match override_path with
     | Some path => Ok path
     | None => let? home := ok_or home_dir NoHomeDir in
               Ok (home ++ [".gemini"; "config"; "hooks.json"])
     end) gemini_merge.

Definition VsCodeShim (override_path : option Path) : Shim :=
  mkShim VsCode
    (match override_path with
     | Some path => Ok path
     | None => let? dir := ok_or config_dir NoConfigDir in
               Ok (dir ++ ["Code"; "User"; "settings.json"])
     end) vscode_merge.

(** [WaddleAiModule::shim_for]; the override is set by tests only. *)
Definition shim_for (override_dir : option Path) (ecosystem : Ecosystem) : Shim :=
  match ecosystem with
  | Claude => ClaudeShim ((λ dir, dir ++ ["claude-settings.json"]) <$> override_dir)
  | Gemini => GeminiShim ((λ dir, dir ++ ["gemini-hooks.json"]) <$> override_dir)
  | VsCode => VsCodeShim ((λ dir, dir ++ ["vscode-settings.json"]) <$> override_dir)
  end.
End Shims.
