(* ===== verification/HooksFacts.v ===== *)
(** * Hook shims: reasoning about calls that fail and machines that crash

    A small program logic for the file operations of [Hooks]: a triple states
    what holds of the files before a call, after it, and at every moment a
    crash could have hit in between.  Files are compared up to temporary ones
    ([same]).  The file ends with the specifications of the atomic write and of
    the backup. *)
From S2P Require Import Prelude.
From S2P Require Import Text.
From S2P Require Import Json.
From S2P Require Import Hooks.
Import Files.

(** ** Files up to temporary ones *)

Definition is_tmp (p : Path) : Prop := ∃ dir s, p = dir ++ [tmp_prefix +:+ s].

Definition same (d d' : disk) : Prop := ∀ p, ¬ is_tmp p → d' !! p = d !! p.

#[global] Instance same_equivalence : Equivalence same.
Proof.
  split.
  - by intros d p.
  - intros d d' H p Hp. by rewrite H.
  - intros d1 d2 d3 H1 H2 p Hp. by rewrite H2, H1.
Qed.

#[global] Instance insert_same p f : Proper (same ==> same) (insert (M := disk) p f).
Proof.
  intros d d' H q Hq. destruct (decide (p = q)) as [->|]; [by rewrite !lookup_insert_eq|].
  rewrite !lookup_insert_ne by done. auto.
Qed.

#[global] Instance delete_same p : Proper (same ==> same) (delete (M := disk) p).
Proof.
  intros d d' H q Hq. destruct (decide (p = q)) as [->|]; [by rewrite !lookup_delete_eq|].
  rewrite !lookup_delete_ne by done. auto.
Qed.

Lemma same_tmp_insert d p f : is_tmp p → same d (<[p := f]> d).
Proof. intros Hp q Hq. rewrite lookup_insert_ne; [done|]. by intros ->. Qed.

Lemma same_tmp_delete d p : is_tmp p → same d (delete p d).
Proof. intros Hp q Hq. rewrite lookup_delete_ne; [done|]. by intros ->. Qed.

Lemma same_tmp_alter d p g : is_tmp p → same d (alter g p d).
Proof. intros Hp q Hq. rewrite lookup_alter_ne; [done|]. by intros ->. Qed.

(** The last component decides. *)
Lemma not_tmp dir name : String.prefix tmp_prefix name = false → ¬ is_tmp (dir ++ [name]).
Proof.
  intros H (dir' & s & E). apply app_inj_tail in E as [_ ->].
  assert (∀ q r, String.prefix q (q +:+ r) = true) as Hp.
  { clear. induction q as [|c q IH]; intros r; [by destruct r|]. rewrite string_app_cons. simpl.
    by destruct (Ascii.ascii_dec c c). }
  by rewrite Hp in H.
Qed.

(** ** Triples *)

Section Triples.
  Context {E : Type}.

(** Every [is_file] can look. *)
Definition quiet (fs : t) : Prop := ∀ n, stat_fault fs n = false.

Definition triple {A : Type} (P : disk → Prop) (m : eff t E A) (Q : result A E → disk → Prop)
    (C : disk → Prop) : Prop :=
  ∀ fs, quiet fs → P (files fs) →
    let '(r, fs') := m fs in
    quiet fs' ∧ Q r (files fs') ∧ ∃ ext, seen fs' = seen fs ++ ext ∧ Forall C ext.

Lemma triple_conseq {A : Type} (P P' : disk → Prop) (m : eff t E A) (Q Q' : result A E → disk → Prop)
    (C C' : disk → Prop) :
  triple P m Q C → (∀ d, P' d → P d) → (∀ r d, Q r d → Q' r d) → (∀ d, C d → C' d) →
  triple P' m Q' C'.
Proof.
  intros H HP HQ HC fs Hq HP'. specialize (H fs Hq (HP _ HP')). destruct (m fs) as [r fs'].
  destruct H as (? & ? & ext & ? & ?). split_and!; [done|auto|]. exists ext. split; [done|].
  by eapply Forall_impl.
Qed.

Lemma triple_pure {A : Type} (P : disk → Prop) (r : result A E) (Q : result A E → disk → Prop)
    (C : disk → Prop) :
  (∀ d, P d → Q r d) → triple P (pure r) Q C.
Proof. intros H fs Hq HP. simpl. split_and!; [done|auto|]. exists []. by rewrite app_nil_r. Qed.

Lemma triple_bind {A B : Type} (P : disk → Prop) (m : eff t E A) (M : result A E → disk → Prop)
    (k : A → eff t E B) (Q : result B E → disk → Prop) (C : disk → Prop) :
  triple P m M C → (∀ a, triple (M (Ok a)) (k a) Q C) → (∀ e d, M (Err e) d → Q (Err e) d) →
  triple P (eff_bind m k) Q C.
Proof.
  intros Hm Hk He fs Hq HP. unfold eff_bind. specialize (Hm fs Hq HP).
  destruct (m fs) as [[a|e] fs1]; destruct Hm as (Hq1 & HM & ext & S1 & F1).
  - specialize (Hk a fs1 Hq1 HM). destruct (k a fs1) as [r fs2].
    destruct Hk as (? & ? & ext' & S2 & F2). split_and!; [done..|].
    exists (ext ++ ext'). rewrite S2, S1, app_assoc. split; [done|]. by apply Forall_app.
  - split_and!; [done|auto|]. eauto.
Qed.

(** A fact that does not depend on the files. *)
Lemma triple_fact {A : Type} (φ : Prop) (P : disk → Prop) (m : eff t E A) (Q : result A E → disk → Prop)
    (C : disk → Prop) :
  (φ → triple P m Q C) → triple (λ d, P d ∧ φ) m Q C.
Proof. intros H fs Hq [HP Hφ]. by apply H. Qed.

Lemma triple_exists {A X : Type} (P : X → disk → Prop) (m : eff t E A)
    (Q : result A E → disk → Prop) (C : disk → Prop) :
  (∀ x, triple (P x) m Q C) → triple (λ d, ∃ x, P x d) m Q C.
Proof. intros H fs Hq [x HP]. by apply (H x). Qed.
End Triples.

(** A call either fails with an error of another kind or does its work. *)
Lemma triple_call {A : Type} (P : disk → Prop) (k : eff t IoError A) (Q : result A IoError → disk → Prop)
    (C : disk → Prop) :
  triple P k Q C → (∀ e d, io_kind e = OtherIo → P d → Q (Err e) d) → triple P (call k) Q C.
Proof.
  intros Hk He fs Hq HP. unfold call, next.
  destruct (fault fs (calls fs)) as [ft|].
  - split_and!; [done|by apply He|]. exists []. by rewrite app_nil_r.
  - match goal with |- context [k ?x] => apply (Hk x) end; done.
Qed.

(** Replaces the files by [g], as the last thing a call does. *)
Lemma triple_set {A E : Type} (P : disk → Prop) (r : disk → result A E) (g : disk → disk)
    (Q : result A E → disk → Prop) (C : disk → Prop) :
  (∀ d, P d → Q (r d) (g d) ∧ C (g d)) →
  triple P (λ fs, (r (files fs), set_files (g (files fs)) fs)) Q C.
Proof. intros H fs Hq HP. destruct (H _ HP). split_and!; [done|done|]. exists [g (files fs)]. auto. Qed.

Lemma triple_look {A E : Type} (P : disk → Prop) (r : disk → result A E)
    (Q : result A E → disk → Prop) (C : disk → Prop) :
  (∀ d, P d → Q (r d) d) → triple P (λ fs, (r (files fs), fs)) Q C.
Proof. intros H fs Hq HP. split_and!; [done|auto|]. exists []. by rewrite app_nil_r. Qed.

(** Handling an error without touching the files. *)
Lemma triple_handle {A B E F : Type} (P : disk → Prop) (m : eff t E A) (M : result A E → disk → Prop)
    (h : result A E → result B F) (Q : result B F → disk → Prop) (C : disk → Prop) :
  triple P m M C → (∀ r d, M r d → Q (h r) d) →
  triple P (λ fs, let '(r, fs) := m fs in (h r, fs)) Q C.
Proof.
  intros Hm Hh fs Hq HP. specialize (Hm fs Hq HP). destruct (m fs) as [r fs'].
  destruct Hm as (? & ? & ?). split_and!; auto.
Qed.

(** ** The calls *)

Section Calls.
  Context (d0 : disk) (C : disk → Prop).

Lemma read_spec p : ¬ is_tmp p →
  triple (same d0) (read p)
    (λ r d, same d0 d ∧
      match r with
      | Ok bytes => f_data <$> d0 !! p = Some bytes
      | Err e => io_kind e = NotFound → d0 !! p = None
      end) C.
Proof.
  intros Hp. apply triple_call.
  - apply (triple_look _ (λ d, ok_or (f_data <$> d !! p) not_found)). intros d Hd. split; [done|]. rewrite (Hd p Hp).
    destruct (d0 !! p) as [f|]; done.
  - intros e d He Hd. split; [done|]. congruence.
Qed.

Lemma read_if_present_spec p : ¬ is_tmp p →
  triple (same d0) (read_if_present p)
    (λ r d, same d0 d ∧ match r with Ok o => f_data <$> d0 !! p = o | Err _ => True end) C.
Proof.
  intros Hp fs Hq HP. unfold read_if_present.
  pose proof (read_spec p Hp fs Hq HP) as H. destruct (read p fs) as [[b|e] fs'];
    destruct H as (? & [Hs Hr] & ?); [done|].
  destruct (io_kind e); split_and!; try done. by rewrite Hr.
Qed.

Lemma remove_if_present_spec p : ¬ is_tmp p → (∀ d, same (delete p d0) d → C d) →
  triple (same d0) (remove_if_present p)
    (λ r d, match r with Ok _ => same (delete p d0) d | Err _ => same d0 d end) C.
Proof.
  intros Hp HC fs Hq HP. unfold remove_if_present, remove_file, call, next.
  destruct (fault fs (calls fs)) as [ft|]; simpl.
  { split_and!; [done..|]. exists []. by rewrite app_nil_r. }
  destruct (files fs !! p) as [f|] eqn:Hf; simpl.
  - assert (same (delete p d0) (delete p (files fs))) by by rewrite HP.
    split_and!; [done..|]. exists [delete p (files fs)]. auto.
  - split_and!; [done| |exists []; by rewrite app_nil_r].
    rewrite delete_id; [done|]. by rewrite <- (HP p Hp).
Qed.

Lemma existing_file_mode_spec p : ¬ is_tmp p →
  triple (same d0) (existing_file_mode p)
    (λ r d, same d0 d ∧
      match r with
      | Ok m => (λ f, Z.land (f_mode f) 4095) <$> d0 !! p = m
      | Err _ => True
      end) C.
Proof.
  intros Hp fs Hq HP. unfold existing_file_mode, metadata, call, next.
  destruct (fault fs (calls fs)) as [ft|]; simpl.
  { split_and!; [done..|]. exists []. by rewrite app_nil_r. }
  rewrite (HP p Hp). destruct (d0 !! p) as [f|]; simpl;
    (split_and!; [done..|]; exists []; by rewrite app_nil_r).
Qed.
End Calls.

(** ** Work on a temporary file

    [I] is an invariant that the file [tmp] does not matter to. *)

Lemma substring_all s : String.substring 0 (String.length s) s = s.
Proof. induction s as [|c s IH]; simpl; [done|]. by rewrite IH. Qed.

Section Temporary.
  Context (I C : disk → Prop) (HC : ∀ d, I d → C d) (tmp : Path).

Lemma write_all_inv mode data :
  (∀ d g, (∀ f, f_mode (g f) = f_mode f) → I d → I (alter g tmp d)) →
  triple (λ d, I d ∧ d !! tmp = Some (mkFile mode "")) (write_all tmp data)
    (λ r d, match r with
            | Ok _ => I d ∧ d !! tmp = Some (mkFile mode data)
            | Err _ => I d
            end) C.
Proof.
  intros HI fs Hq [Hs Hd]. unfold write_all, next.
  set (upto k := alter (λ f, mkFile (f_mode f) (f_data f +:+ String.substring 0 k data)) tmp (files fs)).
  assert (∀ k, I (upto k)) as Hu by (intros k; by apply HI).
  set (n := match fault fs (calls fs) with Some ft => ft_written ft | None => String.length data end).
  split_and!; [done| |].
  - cbn [files set_files see]. fold (upto n).
    destruct (fault fs (calls fs)) as [ft|] eqn:Hft; [apply Hu|]. split; [apply Hu|].
    subst n. unfold upto. rewrite lookup_alter_eq, Hd. simpl. by rewrite substring_all.
  - exists (map upto (seq 0 n) ++ [upto n]). cbn. rewrite <- app_assoc. split; [done|].
    apply Forall_app. split; [|constructor; [by apply HC|done]].
    apply Forall_map, Forall_forall. intros k _. by apply HC.
Qed.

(** A failure removes the temporary file, or leaves it. *)
Lemma or_remove_inv {A : Type} (m : eff t IoError A) (P : disk → Prop) (Q : A → disk → Prop) :
  (∀ d, I d → I (delete tmp d)) →
  triple P m (λ r d, match r with Ok a => Q a d | Err _ => I d end) C →
  triple P (or_remove tmp m) (λ r d, match r with Ok a => Q a d | Err _ => I d end) C.
Proof.
  intros HI Hm fs Hq HP. unfold or_remove. specialize (Hm fs Hq HP).
  destruct (m fs) as [[a|e] fs1]; destruct Hm as (Hq1 & HQ & ext & S1 & F1);
    [split_and!; eauto|].
  unfold remove_file, call, next. destruct (fault fs1 (calls fs1)) as [ft|]; simpl.
  { split_and!; eauto. }
  destruct (files fs1 !! tmp) as [f|]; simpl; [|split_and!; eauto].
  split_and!; [done|auto|]. exists (ext ++ [delete tmp (files fs1)]).
  rewrite S1, app_assoc. split; [done|]. apply Forall_app. auto.
Qed.
End Temporary.

(** ** The atomic write *)

Section Write.
  Context (hex : Z → string) (d0 : disk) (C : disk → Prop).
  Context (HC : ∀ d, same d0 d → C d).

(** The files are those of [d0] and the temporary file [tmp] holds [f]. *)
Definition holds (tmp : Path) (f : File) (d : disk) : Prop := same d0 d ∧ d !! tmp = Some f.

Lemma unique_temp_spec n dir :
  triple (same d0) (create_temp_loop hex n dir)
    (λ r d, match r with
            | Ok tmp => is_tmp tmp ∧ ∃ mode, holds tmp (mkFile mode "") d
            | Err _ => same d0 d
            end) C.
Proof.
  induction n as [|n IH]; intros fs Hq HP; simpl.
  { split_and!; [done..|]. exists []. by rewrite app_nil_r. }
  unfold random_suffix, random, create_new, call, next; simpl.
  destruct (fault fs (calls fs)) as [ft|]; simpl.
  { split_and!; [done..|]. exists []. by rewrite app_nil_r. }
  set (tmp := dir ++ [tmp_prefix +:+ hex (rng fs (draws fs))]).
  assert (is_tmp tmp) as Ht by (eexists _, _; reflexivity).
  destruct (files fs !! tmp) eqn:Hf; simpl.
  { match goal with |- context [create_temp_loop hex n dir ?x] => apply (IH x) end; done. }
  assert (same d0 (<[tmp := mkFile (6 * 64 + 4 * 8 + 4) ""]> (files fs))) as Hs.
  { rewrite HP at 1. by apply same_tmp_insert. }
  split; [done|]. split; [|eexists [_]; split; [done|]; constructor; [by apply HC|done]].
  split; [done|]. eexists. split; [exact Hs|]. apply lookup_insert_eq.
Qed.

Lemma set_permissions_spec tmp f mode : is_tmp tmp →
  triple (holds tmp f) (set_permissions tmp mode)
    (λ r d, match r with Ok _ => holds tmp (mkFile mode (f_data f)) d | Err _ => same d0 d end) C.
Proof.
  intros Ht. apply triple_call; [|by intros e d _ [? _]].
  apply (triple_set (holds tmp f) (λ _, Ok ()) (alter (λ f, mkFile mode (f_data f)) tmp)).
  intros d [Hs Hd]. assert (same d0 (alter (λ f, mkFile mode (f_data f)) tmp d)).
  { rewrite Hs at 1. by apply same_tmp_alter. }
  split; [|by apply HC]. split; [done|]. by rewrite lookup_alter_eq, Hd.
Qed.

Lemma write_all_spec tmp mode data : is_tmp tmp →
  triple (holds tmp (mkFile mode "")) (write_all tmp data)
    (λ r d, match r with Ok _ => holds tmp (mkFile mode data) d | Err _ => same d0 d end) C.
Proof.
  intros Ht. apply (write_all_inv (same d0) C HC).
  intros d g _ Hs. rewrite Hs at 1. by apply same_tmp_alter.
Qed.

(** A failure removes the temporary file, or leaves it. *)
Lemma or_remove_spec {A : Type} (tmp : Path) (m : eff t IoError A) (P : disk → Prop) (Q : A → disk → Prop) :
  is_tmp tmp →
  triple P m (λ r d, match r with Ok a => Q a d | Err _ => same d0 d end) C →
  triple P (or_remove tmp m) (λ r d, match r with Ok a => Q a d | Err _ => same d0 d end) C.
Proof.
  intros Ht. apply (or_remove_inv (same d0) C HC).
  intros d Hs. rewrite Hs at 1. by apply same_tmp_delete.
Qed.

(** What replaces [path]: the old mode, or the private one of a new file. *)
Definition replacement (path : Path) (data : string) : File :=
  mkFile (default NEW_FILE_MODE ((λ f, Z.land (f_mode f) 4095) <$> d0 !! path)) data.

Lemma rename_spec tmp path f : is_tmp tmp → ¬ is_tmp path →
  (∀ d, same (<[path := f]> d0) d → C d) →
  triple (holds tmp f) (rename tmp path)
    (λ r d, match r with Ok _ => same (<[path := f]> d0) d | Err _ => same d0 d end) C.
Proof.
  intros Ht Hp HC' fs Hq [Hs Hd]. unfold rename, call, next.
  destruct (fault fs (calls fs)) as [ft|]; simpl.
  { split_and!; [done..|]. exists []. by rewrite app_nil_r. }
  rewrite Hd. simpl. assert (same (<[path := f]> d0) (<[path := f]> (delete tmp (files fs)))).
  { rewrite Hs at 1. by rewrite <- (same_tmp_delete (files fs) tmp). }
  split_and!; [done..|]. eexists [_]. split; [done|]. auto.
Qed.

(** The file is replaced as a whole or not at all, at any moment. *)
Lemma write_atomic_spec path data : ¬ is_tmp path →
  (∀ d, same (<[path := replacement path data]> d0) d → C d) →
  triple (same d0) (write_atomic hex path data)
    (λ r d, match r with
            | Ok _ => same (<[path := replacement path data]> d0) d
            | Err _ => same d0 d
            end) C.
Proof.
  intros Hp HC'. unfold write_atomic.
  eapply (triple_bind _ _ (λ _ d, same d0 d)); [by apply triple_pure| |done]. intros dir.
  eapply (triple_bind _ _ (λ _ d, same d0 d)); [|intros _|done].
  { apply triple_call; [by apply triple_pure|done]. }
  eapply triple_bind; [by apply existing_file_mode_spec| |by intros e d [? _]]. intros mode.
  apply triple_fact. intros Hmode.
  eapply triple_bind; [apply unique_temp_spec| |done]. intros tmp.
  eapply (triple_conseq (λ d, (∃ m0, holds tmp (mkFile m0 "") d) ∧ is_tmp tmp));
    [|intros d [Ht [m0 H0]]; split; [by exists m0|done]|intros r d H; exact H|intros d H; exact H].
  apply triple_fact. intros Ht. apply triple_exists. intros m0.
  eapply (triple_bind (holds tmp (mkFile m0 "")) _
    (λ r d, match r with Ok _ => holds tmp (mkFile (default NEW_FILE_MODE mode) "") d
                       | Err _ => same d0 d end)); [|intros _|done].
  { by apply (or_remove_spec tmp _ _ (λ _, _)); [|apply set_permissions_spec]. }
  eapply (triple_bind _ _
    (λ r d, match r with Ok _ => holds tmp (replacement path data) d | Err _ => same d0 d end));
    [|intros _; by apply rename_spec|done].
  apply (or_remove_spec tmp _ _ (λ _, _)); [done|].
  unfold replacement. rewrite Hmode.
  eapply triple_bind; [by apply write_all_spec|intros []|done].
  apply triple_call; [|by intros e d _ [? _]]. by apply triple_pure.
Qed.
End Write.

(** ** The backup: what must hold at every moment *)

(** A shim whose file is none of the files this code keeps for itself. *)
Record placed (backup_dir : Path) (shim : Shim) (target : Path) : Prop := mkPlaced {
  placed_at : shim_target_path shim = Ok target;
  placed_tmp : ¬ is_tmp target;
  placed_meta : target ≠ meta_path backup_dir (eco_as_str (shim_ecosystem shim));
  placed_orig : target ≠ orig_path backup_dir (eco_as_str (shim_ecosystem shim));
  placed_named : target ≠ [];
}.

Section Original.
  Context {Codec : HookCodec} (hex : Z → string) (backup_dir : Path) (shim : Shim) (target : Path).
  Abbreviation eco := (eco_as_str (shim_ecosystem shim)).
  Abbreviation meta := (meta_path backup_dir eco).
  Abbreviation orig := (orig_path backup_dir eco).
  Context (Hplaced : placed backup_dir shim target).

(** The bytes of the configuration file. *)
Definition content (d : disk) : option string := f_data <$> d !! target.

(** The record of an installation, with [o] as the original. *)
Definition backed_up (o : option string) (d : disk) : Prop :=
  ∃ f m, d !! meta = Some f ∧ manifest_from_slice (f_data f) = Ok m ∧
    mf_existed m = bool_decide (is_Some o) ∧
    (∀ bytes, o = Some bytes → f_data <$> d !! orig = Some bytes).

(** [o] can be got back: it is in place and nothing is recorded, or it is
    recorded. *)
Definition recoverable (o : option string) (d : disk) : Prop :=
  (d !! meta = None ∧ content d = o) ∨ backed_up o d.

Lemma meta_not_tmp : ¬ is_tmp meta.
Proof. apply not_tmp. by destruct (shim_ecosystem shim). Qed.

Lemma orig_not_tmp : ¬ is_tmp orig.
Proof. apply not_tmp. by destruct (shim_ecosystem shim). Qed.

Lemma meta_orig : meta ≠ orig.
Proof. intros [_ E]%app_inj_tail. by destruct (shim_ecosystem shim). Qed.

Lemma same_at d d' p : same d d' → ¬ is_tmp p → d' !! p = d !! p.
Proof. intros H Hp. by apply H. Qed.

Lemma same_content d d' : same d d' → content d' = content d.
Proof. intros H. unfold content. by rewrite (same_at _ _ target H (placed_tmp _ _ _ Hplaced)). Qed.

(** [backed_up] looks at two files. *)
Lemma backed_up_ext o d d' :
  d' !! meta = d !! meta → d' !! orig = d !! orig → backed_up o d → backed_up o d'.
Proof. intros E1 E2 (f & m & ?). exists f, m. by rewrite E1, E2. Qed.

Lemma backed_up_same o d d' : same d d' → backed_up o d → backed_up o d'.
Proof. intros H. apply backed_up_ext; apply (same_at _ _ _ H); [apply meta_not_tmp|apply orig_not_tmp]. Qed.

Lemma recoverable_same o d d' : same d d' → recoverable o d → recoverable o d'.
Proof.
  intros H [[Hm Hc]|Hb]; [left|right; by eapply backed_up_same].
  split; [|by rewrite (same_content _ _ H)]. by rewrite (same_at _ _ _ H meta_not_tmp).
Qed.

(** Writing the configuration file leaves the record alone. *)
Lemma backed_up_target o d f : backed_up o d → backed_up o (<[target := f]> d).
Proof.
  destruct Hplaced. apply backed_up_ext; by rewrite lookup_insert_ne.
Qed.

Lemma backed_up_exists o d : backed_up o d → is_Some (d !! meta).
Proof. intros (f & ? & -> & _). eauto. Qed.

(** The two writes of a backup: the bytes, then the manifest. *)
Lemma write_backup_spec o d0 bytes :
  d0 !! meta = None → content d0 = o →
  manifest_from_slice bytes = Ok (mkManifest (display target) (bool_decide (is_Some o))) →
  triple (same d0)
    (let! _ := match o with Some b => write_atomic hex orig b | None => pure (Ok ()) end in
     write_atomic hex meta bytes)
    (λ r d, content d = o ∧ recoverable o d ∧ (is_ok r = true → backed_up o d))
    (recoverable o).
Proof.
  intros Hm Hc Hbytes. pose proof meta_orig as Hmo.
  set (d1 := match o with Some b => <[orig := replacement d0 orig b]> d0 | None => d0 end).
  assert (d1 !! meta = None ∧ content d1 = o) as [Hm1 Hc1].
  { subst d1. destruct o as [b|]; [|done]. rewrite lookup_insert_ne by done. split; [done|].
    unfold content. rewrite lookup_insert_ne; [done|]. apply not_eq_sym, Hplaced. }
  assert (∀ d' d, d' !! meta = None → content d' = o → same d' d → content d = o ∧ recoverable o d) as H1.
  { intros d' d Hm' Hc' Hd. rewrite (same_content _ _ Hd), Hc'. split; [done|].
    apply (recoverable_same o _ _ Hd). by left. }
  eapply (triple_bind _ _ (λ r d, match r with Ok _ => same d1 d | Err _ => same d0 d end)); [|intros []|].
  { destruct o as [b|]; [|by apply triple_pure].
    apply write_atomic_spec; [intros; by eapply (H1 d0)|apply orig_not_tmp|intros; by eapply (H1 d1)]. }
  2: { intros e d Hd. by destruct (H1 d0 d). }
  set (d2 := <[meta := replacement d1 meta bytes]> d1).
  assert (backed_up o d2) as Hb2.
  { eexists _, _. subst d2. rewrite lookup_insert_eq. split; [done|]. split; [exact Hbytes|]. split; [done|].
    intros b ->. rewrite lookup_insert_ne by done. subst d1. by rewrite lookup_insert_eq. }
  assert (content d2 = o) as Hc2.
  { unfold content, d2. rewrite lookup_insert_ne; [done|]. apply not_eq_sym, Hplaced. }
  eapply triple_conseq; [apply (write_atomic_spec hex d1 (recoverable o))|intros d H; exact H| |intros d H; exact H].
  - intros; by eapply (H1 d1).
  - apply meta_not_tmp.
  - intros d Hd. right. by eapply backed_up_same.
  - intros [[]|e] d Hd; [|by destruct (H1 d1 d)].
    apply (backed_up_same o) in Hd as Hb; [|done]. split_and!; [|by right|done].
    transitivity (content d2); [by apply same_content|done].
Qed.

(** Taking the backup, unless there is one. *)
Lemma snapshot_spec o d0 : recoverable o d0 →
  triple (same d0) (snapshot hex backup_dir eco target)
    (λ r d, content d = content d0 ∧ recoverable o d ∧ (is_ok r = true → backed_up o d))
    (recoverable o).
Proof.
  intros Hrec fs Hq Hs. unfold snapshot, backup_exists, is_file. rewrite Hq. cbn [negb andb].
  rewrite (same_at _ _ _ Hs meta_not_tmp).
  destruct (bool_decide_reflect (is_Some (d0 !! meta))) as [Hm|Hm%eq_None_not_Some].
  { destruct Hrec as [[E _]|Hb]; [rewrite E in Hm; by destruct Hm|].
    apply (backed_up_same o _ _ Hs) in Hb. split; [done|]. split; [|by exists []; rewrite app_nil_r].
    split_and!; [by apply same_content|by right|done]. }
  destruct Hrec as [[_ Hc]|Hb%backed_up_exists]; [|rewrite Hm in Hb; by destruct Hb].
  match goal with |- context [eff_bind ?a ?b ?x] =>
    enough (triple (same d0) (eff_bind a b) (λ r d, content d = content d0 ∧ recoverable o d ∧
             (is_ok r = true → backed_up o d)) (recoverable o)) as H by exact (H x Hq Hs) end.
  clear fs Hq Hs. rewrite Hc.
  assert (∀ d, same d0 d → content d = o ∧ recoverable o d) as H0.
  { intros d Hd. split; [by rewrite (same_content _ _ Hd)|]. apply (recoverable_same o _ _ Hd). by left. }
  eapply triple_bind; [apply read_if_present_spec; apply Hplaced| |].
  2: { intros e d [Hd _]. by destruct (H0 d Hd). }
  intros original. apply triple_fact. intros Eo. fold (content d0) in Eo. rewrite Hc in Eo. subst original.
  eapply (triple_bind _ _ (λ r d, same d0 d ∧ ∀ b, r = Ok b →
    manifest_from_slice b = Ok (mkManifest (display target) (bool_decide (is_Some o)))));
    [apply triple_pure| |intros e d [Hd _]; by destruct (H0 d Hd)].
  { intros d Hd. split; [done|]. destruct (manifest_to_vec_pretty _) as [b|e] eqn:E; [|done].
    intros b' [= <-]. by apply manifest_round_trip. }
  intros bytes. apply triple_fact. intros Hbytes. by apply write_backup_spec; [..|apply Hbytes].
Qed.
End Original.
