(* ===== verification/HooksMerge.v ===== *)
(** * Hook shims: the merges

    Each shim's merge never panics on an object, changes nothing when it is
    applied again, and leaves alone every member and every entry that is not
    its own. *)
From S2P Require Import Prelude.
From S2P Require Import Text.
From S2P Require Import Json.
From S2P Require Import Mask.
From S2P Require Import Hooks.

(** ** The order of member names *)

Lemma compare_refl s : String.compare s s = Eq.
Proof. induction s as [|c s IH]; simpl; [done|]. unfold Ascii.compare. by rewrite N.compare_refl. Qed.

Lemma compare_lt_trans s t u :
  String.compare s t = Lt → String.compare t u = Lt → String.compare s u = Lt.
Proof.
  revert t u. induction s as [|a s IH]; intros [|b t] [|c u]; simpl; try done.
  unfold Ascii.compare.
  destruct (N.compare_spec (Ascii.N_of_ascii a) (Ascii.N_of_ascii b)) as [E1|E1|E1]; [| |done];
  destruct (N.compare_spec (Ascii.N_of_ascii b) (Ascii.N_of_ascii c)) as [E2|E2|E2]; try done;
  intros H1 H2; destruct (N.compare_spec (Ascii.N_of_ascii a) (Ascii.N_of_ascii c)) as [E3|E3|E3];
    try lia; try done. by eapply IH.
Qed.

Lemma compare_gt_lt s t : String.compare s t = Gt ↔ String.compare t s = Lt.
Proof. rewrite (String.compare_antisym s t). by destruct (String.compare t s). Qed.

(** ** Inserting members *)

Lemma assoc_obj_insert k v k' m :
  assoc k' (obj_insert k v m) = if decide (k = k') then Some v else assoc k' m.
Proof.
  induction m as [|[k1 v1] m IH]; simpl; [done|].
  destruct (String.compare k k1) eqn:E; simpl; [|done|].
  - apply String.compare_eq_iff in E as ->. by destruct (decide (k1 = k')).
  - rewrite IH. destruct (decide (k1 = k')) as [->|]; [|done].
    destruct (decide (k = k')) as [->|]; [|done]. by rewrite compare_refl in E.
Qed.

(** [k] with value [v] sits where inserting [k] would put it. *)
Fixpoint sits (k : string) (v : Value) (m : list (string * Value)) : Prop :=
  match m with
  | [] => False
  | (k', v') :: m' =>
      match String.compare k k' with
      | Lt => False
      | Eq => v' = v
      | Gt => sits k v m'
      end
  end.

Lemma sits_insert k v m : sits k v (obj_insert k v m).
Proof.
  induction m as [|[k1 v1] m IH]; simpl; [by rewrite compare_refl|].
  destruct (String.compare k k1) eqn:E; simpl; [by rewrite compare_refl..|]. by rewrite E.
Qed.

Lemma sits_id k v m : sits k v m → obj_insert k v m = m.
Proof.
  induction m as [|[k1 v1] m IH]; simpl; [done|].
  destruct (String.compare k k1) eqn:E; [|done|].
  - apply String.compare_eq_iff in E as ->. by intros ->.
  - intros H. by rewrite IH.
Qed.

Lemma sits_other k v k' v' m : k ≠ k' → sits k v m → sits k v (obj_insert k' v' m).
Proof.
  intros Hne. induction m as [|[k1 v1] m IH]; simpl; [done|].
  destruct (String.compare k k1) eqn:E; [|done|].
  - apply String.compare_eq_iff in E as ->. intros ->. destruct (String.compare k' k1) eqn:E'; simpl.
    + apply String.compare_eq_iff in E'. congruence.
    + apply compare_gt_lt in E'. by rewrite E', compare_refl.
    + by rewrite compare_refl.
  - intros H. destruct (String.compare k' k1) eqn:E'; simpl.
    + apply String.compare_eq_iff in E' as ->. by rewrite E.
    + assert (String.compare k k' = Gt) as ->; [|by rewrite E].
      apply compare_gt_lt. apply compare_gt_lt in E. by eapply compare_lt_trans.
    + rewrite E. auto.
Qed.

(** The second insertion replaces the first. *)
Lemma obj_insert_twice k v v' m : obj_insert k v (obj_insert k v' m) = obj_insert k v m.
Proof.
  induction m as [|[k1 v1] m IH]; simpl; [by rewrite compare_refl|].
  destruct (String.compare k k1) eqn:E; simpl; [by rewrite compare_refl..|]. by rewrite E, IH.
Qed.

(** ** Own entries *)

Lemma group_is_own event : is_waddleai_group (waddleai_group (guarded_hook_command event)) = true.
Proof. reflexivity. Qed.

Lemma filter_filter_id {A} (f : A → bool) l : List.filter f (List.filter f l) = List.filter f l.
Proof. induction l as [|a l IH]; simpl; [done|]. destruct (f a) eqn:E; simpl; [|done]. by rewrite E, IH. Qed.

(** ** The three merges *)

(** The elements of the array at a member, when there is one. *)
Definition items (v : option Value) : list Value :=
  match v with Some (JArray l) => l | _ => [] end.

Lemma entry_as_array k m : entry_as is_array (JArray []) k m = JArray (items (assoc k m)).
Proof. unfold entry_as. by destruct (assoc k m) as [[]|]. Qed.

Lemma entry_as_object k m :
  entry_as is_object (JObject []) k m =
    JObject (match assoc k m with Some (JObject l) => l | _ => [] end).
Proof. unfold entry_as. by destruct (assoc k m) as [[]|]. Qed.

(** The groups of one event after a merge. *)
Definition merged_groups (event : string) (groups : list Value) : list Value :=
  List.filter (λ g, negb (is_waddleai_group g)) groups ++ [waddleai_group (guarded_hook_command event)].

Lemma merged_groups_twice event groups :
  merged_groups event (merged_groups event groups) = merged_groups event groups.
Proof.
  unfold merged_groups. rewrite List.filter_app, filter_filter_id.
  cbn -[is_waddleai_group waddleai_group guarded_hook_command]. rewrite group_is_own.
  by rewrite app_nil_r.
Qed.

(** What the Claude shim makes of the [hooks] object. *)
Definition merged_hooks (h : list (string * Value)) : list (string * Value) :=
  obj_insert "PostToolUse" (JArray (merged_groups "post-tool-use" (items (assoc "PostToolUse" h))))
    (obj_insert "PreToolUse" (JArray (merged_groups "pre-tool-use" (items (assoc "PreToolUse" h)))) h).

Lemma claude_event_spec h event n : claude_event_name event = Some n →
  claude_event h event = Some (obj_insert n (JArray (merged_groups event (items (assoc n h)))) h).
Proof. intros E. unfold claude_event. rewrite E. simpl. by rewrite entry_as_array. Qed.

Lemma claude_events_spec h : claude_events h HOOK_EVENTS = Some (merged_hooks h).
Proof.
  unfold HOOK_EVENTS, merged_hooks. cbn [claude_events].
  rewrite (claude_event_spec _ _ "PreToolUse") by done. cbn [mbind option_bind].
  rewrite (claude_event_spec _ _ "PostToolUse") by done. cbn [mbind option_bind].
  by rewrite assoc_obj_insert, decide_False by done.
Qed.

Lemma merged_hooks_twice h : merged_hooks (merged_hooks h) = merged_hooks h.
Proof.
  unfold merged_hooks at 1.
  assert (items (assoc "PostToolUse" (merged_hooks h)) = merged_groups "post-tool-use" (items (assoc "PostToolUse" h)) ∧
          items (assoc "PreToolUse" (merged_hooks h)) = merged_groups "pre-tool-use" (items (assoc "PreToolUse" h)))
    as [-> ->] by (unfold merged_hooks; by rewrite !assoc_obj_insert).
  rewrite !merged_groups_twice. unfold merged_hooks at 1.
  rewrite (sits_id "PreToolUse") by (apply sits_other; [done|apply sits_insert]).
  apply sits_id, sits_insert.
Qed.

(** The [hooks] object of a document. *)
Definition hooks_of (m : list (string * Value)) : list (string * Value) :=
  match assoc "hooks" m with Some (JObject l) => l | _ => [] end.

Lemma claude_merge_spec m :
  claude_merge (JObject m) = Some (JObject (obj_insert "hooks" (JObject (merged_hooks (hooks_of m))) m)).
Proof.
  unfold claude_merge. cbn [as_object mbind option_bind]. rewrite entry_as_object.
  cbn [as_object mbind option_bind]. by rewrite claude_events_spec.
Qed.

Definition merged_entries (l : list Value) : list Value :=
  List.filter (λ e, negb (is_waddleai_entry e)) l ++ map waddleai_entry HOOK_EVENTS.

Lemma merged_entries_twice l : merged_entries (merged_entries l) = merged_entries l.
Proof. unfold merged_entries. by rewrite List.filter_app, filter_filter_id, app_nil_r. Qed.

Lemma gemini_merge_spec m :
  gemini_merge (JObject m) = Some (JObject (obj_insert "hooks" (JArray (merged_entries (items (assoc "hooks" m)))) m)).
Proof. unfold gemini_merge. cbn [as_object mbind option_bind]. by rewrite entry_as_array. Qed.

(** The members a shim writes. *)
Definition owned (e : Ecosystem) : list string :=
  match e with
  | Claude | Gemini => ["hooks"]
  | VsCode => ["waddleai.enabled"; "waddleai.hookCommand"]
  end.

(** What a shim's own members hold after a merge into the members [m]. *)
Definition merged_members (e : Ecosystem) (m m' : list (string * Value)) : Prop :=
  match e with
  | Claude => assoc "hooks" m' = Some (JObject (merged_hooks (hooks_of m)))
  | Gemini => assoc "hooks" m' = Some (JArray (merged_entries (items (assoc "hooks" m))))
  | VsCode => assoc "waddleai.enabled" m' = Some (JBool true) ∧
      assoc "waddleai.hookCommand" m' = Some (JString HOOK_COMMAND)
  end.

Section Merges.
  Context (home_dir config_dir override_dir : option Path).

(** What the merge makes of the members of an object. *)
Definition merge_result (e : Ecosystem) (m : list (string * Value)) : list (string * Value) :=
  match e with
  | Claude => obj_insert "hooks" (JObject (merged_hooks (hooks_of m))) m
  | Gemini => obj_insert "hooks" (JArray (merged_entries (items (assoc "hooks" m)))) m
  | VsCode => obj_insert "waddleai.hookCommand" (JString HOOK_COMMAND)
                (obj_insert "waddleai.enabled" (JBool true) m)
  end.

Lemma shim_merge_spec e m :
  shim_merge (shim_for home_dir config_dir override_dir e) (JObject m) = Some (JObject (merge_result e m)).
Proof. destruct e; [apply claude_merge_spec|apply gemini_merge_spec|done]. Qed.

Lemma shim_merge_total e v : is_object v = true →
  is_Some (shim_merge (shim_for home_dir config_dir override_dir e) v).
Proof.
  destruct v as [| | | | | |m]; try done. intros _. rewrite shim_merge_spec. eauto.
Qed.

Lemma hooks_of_insert h m : hooks_of (obj_insert "hooks" (JObject h) m) = h.
Proof. unfold hooks_of. by rewrite assoc_obj_insert. Qed.

Lemma merge_result_twice e m : merge_result e (merge_result e m) = merge_result e m.
Proof.
  destruct e; cbn [merge_result].
  - by rewrite hooks_of_insert, obj_insert_twice, merged_hooks_twice.
  - rewrite obj_insert_twice, assoc_obj_insert, decide_True by done. cbn [items]. by rewrite merged_entries_twice.
  - rewrite (sits_id "waddleai.enabled") by (apply sits_other; [done|apply sits_insert]). apply obj_insert_twice.
Qed.

Lemma shim_merge_twice e m :
  let merge := shim_merge (shim_for home_dir config_dir override_dir e) in
  ∃ m', merge (JObject m) = Some (JObject m') ∧ merge (JObject m') = Some (JObject m').
Proof. exists (merge_result e m). by rewrite !shim_merge_spec, merge_result_twice. Qed.

(** Merging a hook entry into any JSON object succeeds, changes nothing
    when repeated, leaves every member that is not the shim's own as it was,
    and gives the shim's members their values: for Claude Code each event's
    groups are the user's, in order, followed by exactly one group of its own,
    and the groups of other events are untouched; for Gemini the same holds of
    the entries; for VS Code the two settings are set. *)
Theorem merge_local_and_idempotent (e : Ecosystem) (m : list (string * Value)) :
  let merge := shim_merge (shim_for home_dir config_dir override_dir e) in
  ∃ m', merge (JObject m) = Some (JObject m') ∧ merge (JObject m') = Some (JObject m') ∧
    (∀ k, k ∉ owned e → assoc k m' = assoc k m) ∧ merged_members e m m' ∧
    (e = Claude → ∀ k, k ≠ "PreToolUse" → k ≠ "PostToolUse" → assoc k (hooks_of m') = assoc k (hooks_of m)).
Proof.
  exists (merge_result e m). rewrite !shim_merge_spec, merge_result_twice.
  split_and!; [done..| | |].
  - intros k Hk. destruct e; cbn [merge_result owned] in *; by rewrite !assoc_obj_insert, !decide_False by set_solver.
  - destruct e; cbn [merge_result merged_members]; by rewrite !assoc_obj_insert.
  - intros -> k H1 H2. cbn [merge_result]. rewrite hooks_of_insert. unfold merged_hooks.
    by rewrite !assoc_obj_insert, !decide_False by done.
Qed.
End Merges.
