(* ===== verification/HooksProps.v ===== *)
(** * Hook shims: what installing and uninstalling promise

    [install] and [uninstall] under failing calls and crashes, the merges of
    the three shims, and the life of a configuration file over any number of
    installations, edits, crashes and removals. *)
From S2P Require Import Prelude.
From S2P Require Import Text.
From S2P Require Import Json.
From S2P Require Import Mask.
From S2P Require Import Hooks.
From S2P Require Import HooksFacts.
From S2P Require Import HooksMerge.
Import Files.

(** ** [install] and [uninstall] as triples *)

Section Specs.
  Context {Codec : HookCodec} (hex : Z → string) (backup_dir : Path) (shim : Shim) (target : Path).
  Abbreviation eco := (eco_as_str (shim_ecosystem shim)).
  Abbreviation meta := (meta_path backup_dir eco).
  Abbreviation orig := (orig_path backup_dir eco).
  Abbreviation content := (content target).
  Abbreviation backed_up := (backed_up backup_dir shim).
  Abbreviation recoverable := (recoverable backup_dir shim target).
  Context (Hplaced : placed backup_dir shim target).

Lemma triple_on_path {A : Type} (P : disk → Prop) (m : eff t IoError A) M path Q C :
  triple P m M C → (∀ r d, M r d → Q (map_err (λ s, Returns (ShimIo path s)) r) d) →
  triple P (on_path path m) Q C.
Proof. apply triple_handle. Qed.

(** The document a configuration file stands for. *)
Definition document_of (o : option string) : option Value :=
  match o with
  | None | Some "" => Some (JObject [])
  | Some bytes =>
      match doc_from_slice bytes with
      | Ok v => if is_object v then Some v else None
      | Err _ => None
      end
  end.

Lemma read_document_spec d0 C :
  triple (same d0) (read_document target)
    (λ r d, same d0 d ∧
      match r with
      | Ok v => document_of (content d0) = Some v ∧ is_object v = true
      | Err (Returns _) => True
      | Err (Panics _) => False
      end) C.
Proof.
  unfold read_document.
  eapply (triple_bind _ _ (λ r d, same d0 d ∧
    match r with Ok o => content d0 = o | Err (Returns _) => True | Err (Panics _) => False end)).
  - eapply triple_on_path; [apply read_if_present_spec; apply Hplaced|]. by intros [o|e] d.
  - intros o. apply triple_fact. intros <-. unfold document_of.
    destruct (content d0) as [[|c s]|]; [by apply triple_pure| |by apply triple_pure].
    intros fs Hq Hs. unfold eff_bind, pure. destruct (doc_from_slice (String c s)) as [v|e]; simpl.
    + destruct (is_object v) eqn:?; simpl; (split_and!; [done..|]; by exists []; rewrite app_nil_r).
    + split_and!; [done..|]. by exists []; rewrite app_nil_r.
  - by intros [e|m] d.
Qed.

Lemma write_document_spec d0 v C :
  (∀ d, same d0 d → C d) → (∀ f d, same (<[target := f]> d0) d → C d) →
  triple (same d0) (write_document hex target v)
    (λ r d, match r with
            | Ok _ => ∃ data, doc_to_vec_pretty v = Ok data ∧
                same (<[target := replacement d0 target (data +:+ String newline "")]> d0) d
            | Err (Returns _) => same d0 d
            | Err (Panics _) => False
            end) C.
Proof.
  intros HC HC'. unfold write_document. eapply triple_on_path.
  - eapply (triple_bind _ _ (λ r d, same d0 d ∧ ∀ data, r = Ok data → doc_to_vec_pretty v = Ok data)).
    + apply triple_pure. intros d Hd. split; [done|]. by destruct (doc_to_vec_pretty v) as [b|e]; intros b' [= <-].
    + intros data. apply triple_fact. intros Hd. specialize (Hd data eq_refl).
      eapply triple_conseq; [apply (write_atomic_spec hex d0 C HC target (data +:+ String newline ""))
        |intros d H; exact H| |intros d H; exact H]; [apply Hplaced|apply HC'|].
      intros r d Hr. instantiate (1 := λ r d, match r with
        | Ok _ => ∃ data, doc_to_vec_pretty v = Ok data ∧
            same (<[target := replacement d0 target (data +:+ String newline "")]> d0) d
        | Err _ => same d0 d end). destruct r; [eauto|done].
    + by intros e d [? _].
  - by intros [[]|e] d.
Qed.

(** How an installation that began with the files [d0] ends. *)
Definition install_post (o : option string) (d0 : disk) (r : result InstallReport Stop) (d : disk) : Prop :=
  recoverable o d ∧
  match r with
  | Ok report => backed_up o d ∧ ir_target_path report = target ∧
      ∃ doc doc' data, document_of (content d0) = Some doc ∧ shim_merge shim doc = Some doc' ∧
        doc_to_vec_pretty doc' = Ok data ∧ content d = Some (data +:+ String newline "")
  | Err (Returns _) => content d = content d0
  | Err (Panics _) => False
  end.

Context (Hmerge : ∀ v, is_object v = true → is_Some (shim_merge shim v)).

(** The part of [install] after the backup. *)
Lemma merge_and_write_spec o d0 d1 there :
  backed_up o d1 → content d1 = content d0 →
  triple (same d1)
    (let! document := read_document target in
     let! document := pure (ok_or (shim_merge shim document)
                              (Panics "Shim::merge contract: document is always a JSON object")) in
     let! _ := write_document hex target document in
     pure (Ok (mkInstallReport target there)))
    (install_post o d0) (recoverable o).
Proof.
  intros Hb Hc. assert (∀ d, same d1 d → recoverable o d ∧ content d = content d0) as H1.
  { intros d Hd. rewrite (same_content _ _ _ Hplaced _ _ Hd), Hc. split; [|done]. right. by eapply backed_up_same. }
  eapply triple_bind; [apply read_document_spec| |intros [e|m] d [Hd ?]; [by apply H1|done]].
  intros doc. apply triple_fact. rewrite Hc. intros [Hdoc Hobj]. destruct (Hmerge doc Hobj) as [doc' Hm].
  rewrite Hm. eapply (triple_bind _ _ (λ r d, same d1 d ∧ r = Ok doc')); [by apply triple_pure| |by intros e d [_ ?]].
  intros dc. apply triple_fact. intros [= ->].
  eapply triple_bind; [apply (write_document_spec d1 doc' (recoverable o))| |].
  - intros d Hd. by apply H1.
  - intros f d Hd. right. eapply backed_up_same; [done|]. by apply (backed_up_target _ _ _ Hplaced).
  - intros []. apply triple_pure. intros d (data & Hd & Hs).
    assert (backed_up o d) by (eapply backed_up_same; [done|]; by apply (backed_up_target _ _ _ Hplaced)).
    split; [by right|]. split_and!; [done..|]. exists doc, doc', data. split_and!; [done..|].
    rewrite (same_content _ _ _ Hplaced _ _ Hs). unfold HooksFacts.content. by rewrite lookup_insert_eq.
  - intros [e|m] d Hd; [by apply H1|done].
Qed.

Lemma install_spec o d0 : recoverable o d0 →
  triple (same d0) (install hex backup_dir shim) (install_post o d0) (recoverable o).
Proof.
  intros Hrec. unfold install. rewrite (placed_at _ _ _ Hplaced).
  eapply (triple_bind _ _ (λ r d, same d0 d ∧ r = Ok target)); [by apply triple_pure| |by intros e d [_ ?]].
  intros tg. apply triple_fact. intros [= ->].
  eapply (triple_bind _ _ (λ r d, same d0 d ∧ is_ok r = true)); [| |by intros e d [_ ?]].
  { intros fs Hq Hs. simpl. split_and!; [done..|]. exists []. by rewrite app_nil_r. }
  intros there. apply triple_fact. intros _.
  eapply (triple_bind _ _ (λ r d, content d = content d0 ∧ recoverable o d ∧
    match r with Ok _ => backed_up o d | Err (Returns _) => True | Err (Panics _) => False end)).
  - eapply triple_on_path; [by apply snapshot_spec|]. intros [[]|e] d (? & ? & Hb); split_and!; simpl; auto.
  - intros [] fs Hq (Hc & _ & Hb). by apply (merge_and_write_spec o d0 (files fs)).
  - intros [e|m] d (? & ? & ?); done.
Qed.

(** How a removal that began with the files [d0] ends. *)
Definition uninstall_post (o : option string) (d0 : disk) (r : result UninstallReport Stop) (d : disk) : Prop :=
  recoverable o d ∧
  match r with
  | Ok report => ur_target_path report = target ∧ d !! meta = None ∧ d !! orig = None ∧ content d = o
  | Err (Returns (NotInstalled _)) => d0 !! meta = None ∧ same d0 d
  | Err (Returns _) => True
  | Err (Panics _) => False
  end.

Lemma load_backup_spec o d0 C : recoverable o d0 →
  triple (same d0) (load backup_dir eco)
    (λ r d, same d0 d ∧
      match r with
      | Ok None => d0 !! meta = None
      | Ok (Some b) => backed_up o d0 ∧ bk_original b = o
      | Err _ => True
      end) C.
Proof.
  intros Hrec. unfold load.
  eapply triple_bind; [apply read_if_present_spec, meta_not_tmp| |by intros e d [? _]].
  intros mb. apply triple_fact. intros Emb. destruct mb as [mb|].
  2: { apply triple_pure. intros d Hd. split; [done|]. by destruct (d0 !! meta). }
  destruct Hrec as [[Hm _]|Hb]; [by rewrite Hm in Emb|].
  pose proof Hb as (f & m & Hf & Hp & He & Ho). rewrite Hf in Emb. injection Emb as <-. rewrite Hp.
  eapply (triple_bind _ _ (λ r d, same d0 d ∧ r = Ok m)); [by apply triple_pure| |by intros e d [_ ?]].
  intros m'. apply triple_fact. intros [= ->]. rewrite He. destruct o as [b|]; simpl.
  - eapply triple_bind; [apply read_spec, orig_not_tmp| |by intros e d [? _]].
    intros b'. apply triple_fact. rewrite (Ho b eq_refl). intros [= <-]. by apply triple_pure.
  - by apply triple_pure.
Qed.

(** Putting the original back. *)
Lemma restore_spec o d0 : backed_up o d0 →
  triple (same d0)
    (match o with
     | Some bytes => on_path target (write_atomic hex target bytes)
     | None => remove_target target
     end)
    (λ r d, backed_up o d ∧
      match r with Ok _ => content d = o | Err (Panics _) => False
      | Err (Returns (NotInstalled _)) => False | _ => True end) (recoverable o).
Proof.
  intros Hb. destruct Hplaced as [_ Ht Hm Ho]. destruct o as [bytes|].
  - eapply triple_on_path; [apply (write_atomic_spec hex d0)|].
    + intros d Hd. right. by eapply backed_up_same.
    + done.
    + intros d Hd. right. eapply backed_up_same; [done|]. by apply (backed_up_target _ _ _ Hplaced).
    + intros [[]|e] d Hd; [|split; [by eapply backed_up_same|done]].
      split; [eapply backed_up_same; [done|]; by apply (backed_up_target _ _ _ Hplaced)|]. simpl.
      rewrite (same_content _ _ _ Hplaced _ _ Hd). unfold HooksFacts.content. by rewrite lookup_insert_eq.
  - assert (backed_up None (delete target d0)) as Hb'.
    { revert Hb. apply backed_up_ext; by rewrite lookup_delete_ne. }
    eapply triple_on_path; [apply remove_if_present_spec; [done|]|].
    + intros d Hd. right. by eapply backed_up_same.
    + intros [[]|e] d Hd; (split; [by eapply backed_up_same|]); [|done]. simpl.
      rewrite (same_content _ _ _ Hplaced _ _ Hd). unfold HooksFacts.content. by rewrite lookup_delete_eq.
Qed.

(** Forgetting the record, once the original is in place. *)
Lemma clear_spec o d0 : backed_up o d0 → content d0 = o →
  triple (same d0) (clear backup_dir eco)
    (λ r d, recoverable o d ∧ (is_ok r = true → d !! meta = None ∧ d !! orig = None ∧ content d = o))
    (recoverable o).
Proof.
  intros Hb Hc. pose proof (meta_not_tmp backup_dir shim) as Htm. pose proof (orig_not_tmp backup_dir shim) as Hto.
  destruct Hplaced as [_ Ht Hm Ho]. unfold clear. set (d1 := delete meta d0). set (d2 := delete orig d1).
  assert (d1 !! meta = None ∧ content d1 = o) as [Hm1 Hc1].
  { subst d1. rewrite lookup_delete_eq. unfold HooksFacts.content. by rewrite lookup_delete_ne. }
  assert (d2 !! meta = None ∧ content d2 = o) as [Hm2 Hc2].
  { subst d2. unfold HooksFacts.content. rewrite !lookup_delete_ne by (done || by apply not_eq_sym, meta_orig). done. }
  assert (∀ d' d, d' !! meta = None → content d' = o → same d' d → recoverable o d) as H.
  { intros d' d Hm' Hc' Hd. eapply recoverable_same; [done..|]. by left. }
  eapply triple_bind; [apply remove_if_present_spec; [done|]| |].
  - intros d Hd. by apply (H d1).
  - intros []. eapply triple_conseq; [apply (remove_if_present_spec d1 (recoverable o)); [done|]
      |intros d Hd; exact Hd| |intros d Hd; exact Hd].
    + intros d Hd. by apply (H d2).
    + intros [[]|e] d Hd; [|split; [by apply (H d1)|done]]. split; [by apply (H d2)|]. intros _.
      rewrite (same_at _ _ _ Hd Htm), (same_at _ _ _ Hd Hto), (same_content _ _ _ Hplaced _ _ Hd).
      split_and!; [done| |done]. by apply lookup_delete_eq.
  - intros e d Hd. split; [right; eapply backed_up_same; [exact Hd|done]|done].
Qed.

Lemma uninstall_spec o d0 : recoverable o d0 →
  triple (same d0) (uninstall hex backup_dir shim) (uninstall_post o d0) (recoverable o).
Proof.
  intros Hrec. unfold uninstall. rewrite (placed_at _ _ _ Hplaced).
  eapply (triple_bind _ _ (λ r d, same d0 d ∧ r = Ok target)); [by apply triple_pure| |by intros e d [_ ?]].
  intros tg. apply triple_fact. intros [= ->].
  eapply (triple_bind _ _ (λ r d, same d0 d ∧ match r with
    | Ok None => d0 !! meta = None | Ok (Some b) => backed_up o d0 ∧ bk_original b = o
    | Err (Returns (NotInstalled _)) | Err (Panics _) => False | _ => True end)).
  { eapply triple_on_path; [by apply load_backup_spec|]. by intros [[b|]|e] d. }
  2: { intros [[]|m] d [Hd ?]; try done; (split; [by eapply recoverable_same|done]). }
  intros [b|]; apply triple_fact.
  2: { intros Hm. apply triple_pure. intros d Hd. split; [by eapply recoverable_same|done]. }
  intros [Hb ->]. eapply triple_bind; [by apply restore_spec| |].
  2: { intros [[]|m] d [? ?]; try done; (split; [by right|done]). }
  intros [] fs Hq [Hb1 Hc1]. set (d1 := files fs) in *.
  eapply (triple_bind (same d1) _ (λ r d, recoverable o d ∧
    match r with Ok _ => d !! meta = None ∧ d !! orig = None ∧ content d = o
    | Err (Returns (NotInstalled _)) | Err (Panics _) => False | _ => True end)); [| | |done|done].
  - eapply triple_on_path; [by apply clear_spec|]. intros [[]|e] d [? Hok]; (split; [done|]); simpl; auto.
  - intros []. apply triple_pure. intros d [? ?]. by split.
  - intros [[]|m] d [? ?]; done.
Qed.
End Specs.

(** ** The life of a configuration file *)

Section Life.
  Context {Codec : HookCodec} (hex : Z → string) (home_dir config_dir : option Path)
    (backup_dir : Path) (ecosystem : Ecosystem) (target : Path).
  Abbreviation shim := (shim_for home_dir config_dir None ecosystem).
  Abbreviation meta := (meta_path backup_dir (eco_as_str ecosystem)).
  Abbreviation orig := (orig_path backup_dir (eco_as_str ecosystem)).

(** The real shims' files are none of those this code keeps for itself. *)
Lemma shim_for_placed : shim_target_path shim = Ok target → placed backup_dir shim target.
Proof.
  intros H. assert (∃ dir name, target = dir ++ [name] ∧ name ∈ ["settings.json"; "hooks.json"]) as (dir & name & -> & Hn).
  { destruct ecosystem; simpl in H;
      [destruct home_dir as [h|]|destruct home_dir as [h|]|destruct config_dir as [h|]]; simplify_eq/=.
    - exists (h ++ [".claude"]), "settings.json". rewrite <- app_assoc. split; [done|set_solver].
    - exists (h ++ [".gemini"; "config"]), "hooks.json". rewrite <- app_assoc. split; [done|set_solver].
    - exists (h ++ ["Code"; "User"]), "settings.json". rewrite <- app_assoc. split; [done|set_solver]. }
  assert (name = "settings.json" ∨ name = "hooks.json") as Hn' by set_solver.
  split; [done|apply not_tmp; by destruct Hn' as [-> | ->]|..|by destruct dir];
    intros [_ ->]%app_inj_tail; destruct ecosystem; simpl in Hn'; naive_solver.
Qed.

(** Everything the files can be when [m] is done or interrupted. *)
Definition outcomes {E A : Type} (m : eff t E A) (fs : t) : list disk :=
  files (m fs).2 :: drop (length (seen fs)) (seen (m fs).2).

Lemma triple_outcomes {E A : Type} (P : disk → Prop) (m : eff t E A)
    (Q : result A E → disk → Prop) (C : disk → Prop) (fs : t) :
  triple P m Q C → quiet fs → P (files fs) → (∀ r d, Q r d → C d) → Forall C (outcomes m fs).
Proof.
  intros H Hq HP HQ. specialize (H fs Hq HP). unfold outcomes. destruct (m fs) as [r fs'].
  destruct H as (_ & Hr & ext & S & F). simpl. constructor; [by eapply HQ|].
  rewrite S. by rewrite drop_app_length.
Qed.

(** The files, and what the user last had while no installation was recorded. *)
Record Life := mkLife { lf_original : option string; lf_disk : disk }.

Inductive life_step : Life → Life → Prop :=
| life_install s fs d :
    quiet fs → files fs = lf_disk s → d ∈ outcomes (install hex backup_dir shim) fs →
    life_step s (mkLife (lf_original s) d)
| life_uninstall s fs d :
    quiet fs → files fs = lf_disk s → d ∈ outcomes (uninstall hex backup_dir shim) fs →
    life_step s (mkLife (lf_original s) d)
| life_edit s d :
    (∀ p, p ≠ target → d !! p = lf_disk s !! p) →
    life_step s (mkLife (if decide (lf_disk s !! meta = None) then content target d else lf_original s) d).

Abbreviation recoverable := (recoverable backup_dir shim target).

Lemma life_step_recoverable s s' :
  shim_target_path shim = Ok target →
  recoverable (lf_original s) (lf_disk s) → life_step s s' → recoverable (lf_original s') (lf_disk s').
Proof.
  intros Ht Hr Hstep. pose proof (shim_for_placed Ht) as Hp.
  assert (shim_ecosystem shim = ecosystem) as Heco by (by destruct ecosystem).
  revert Hr. destruct Hstep as [s0 fs d Hq Hf Hd|s0 fs d Hq Hf Hd|s0 d Hd]; simpl; intros Hr; try rewrite <- Hf in Hr.
  - revert d Hd. apply Forall_forall.
    eapply triple_outcomes; [apply install_spec; [done|apply shim_merge_total|done]|done|reflexivity|].
    by intros r d' [? _].
  - revert d Hd. apply Forall_forall.
    eapply triple_outcomes; [by apply uninstall_spec|done|reflexivity|]. by intros r d' [? _].
  - destruct Hp as [_ _ Hm Ho]. rewrite Heco in Hm, Ho.
    assert (d !! meta = lf_disk s0 !! meta ∧ d !! orig = lf_disk s0 !! orig) as [Em Eo] by (by rewrite !Hd).
    unfold HooksFacts.recoverable in *. rewrite Heco in *. destruct (decide (lf_disk s0 !! meta = None)) as [E|E].
    + left. split; [congruence|done].
    + right. destruct Hr as [[? _]|Hb]; [done|]. revert Hb. apply backed_up_ext; by rewrite Heco.
Qed.

(** C5: From a machine on which no installation is recorded, over any number
    of installations, removals and edits of the configuration file by others,
    where every call that reads or changes files may fail and the machine may
    crash at any moment, but whether a file is there can always be looked up
    ([quiet]: no [is_file] fails): the content the user last had before an
    installation is never lost.  It is in place with nothing recorded, or it is
    recorded; and a removal then either puts exactly it back and forgets the
    record, or finds nothing installed with the content in place, or reports
    an error; it never panics.  When the look-up fails it can be lost
    ([HookRuns.failed_lookup_loses_original]). *)
Theorem original_always_recoverable (d0 : disk) (s : Life) :
  shim_target_path shim = Ok target → d0 !! meta = None →
  rtc life_step (mkLife (content target d0) d0) s →
  recoverable (lf_original s) (lf_disk s) ∧
  ∀ fs, quiet fs → files fs = lf_disk s →
    match uninstall hex backup_dir shim fs with
    | (Ok _, fs') => content target (files fs') = lf_original s ∧
        files fs' !! meta = None ∧ files fs' !! orig = None
    | (Err (Returns (NotInstalled _)), fs') => content target (files fs') = lf_original s
    | (Err (Returns _), fs') => recoverable (lf_original s) (files fs')
    | (Err (Panics _), _) => False
    end.
Proof.
  intros Ht Hm Hrtc. pose proof (shim_for_placed Ht) as Hp.
  assert (shim_ecosystem shim = ecosystem) as Heco by (by destruct ecosystem).
  assert (recoverable (lf_original s) (lf_disk s)) as Hr.
  { apply (rtc_ind_r (λ s, recoverable (lf_original s) (lf_disk s)) _) in Hrtc; [done|..].
    - left. rewrite Heco. done.
    - intros s1 s2 _ Hstep IH. by eapply life_step_recoverable. }
  split; [done|]. intros fs Hq Hf.
  pose proof (uninstall_spec hex backup_dir shim target Hp _ _ Hr fs Hq) as H. rewrite Hf in H.
  specialize (H ltac:(reflexivity)). destruct (uninstall hex backup_dir shim fs) as [r fs'].
  destruct H as (_ & [Hrec Hpost] & _). rewrite Heco in Hpost. destruct r as [rep|[e|m]]; [|destruct e|]; try done.
  - by destruct Hpost as (_ & ? & ? & ?).
  - destruct Hpost as [Hmn Hs]. rewrite (same_content _ _ _ Hp _ _ Hs).
    destruct Hr as [[_ ?]|(f & ? & Hb & _)]; [done|]. rewrite Heco in Hb. congruence.
Qed.
End Life.

(** ** When no call fails *)

Section Reliable.
  Context {Codec : HookCodec} (hex : Z → string).

Definition reliable (fs : t) : Prop := (∀ n, fault fs n = None) ∧ quiet fs.

(** No temporary file is left over. *)
Definition clean (d : disk) : Prop := ∀ p, is_tmp p → d !! p = None.

(** On the files [d], [m] succeeds with a result and files in [Q]. *)
Definition gives {E A : Type} (d : disk) (m : eff t E A) (Q : A → disk → Prop) : Prop :=
  ∀ fs, reliable fs → files fs = d → ∃ a fs', m fs = (Ok a, fs') ∧ reliable fs' ∧ Q a (files fs').

Lemma gives_bind {E A B : Type} (d : disk) (m : eff t E A) (k : A → eff t E B)
    (M : A → disk → Prop) (Q : B → disk → Prop) :
  gives d m M → (∀ a d', M a d' → gives d' (k a) Q) → gives d (eff_bind m k) Q.
Proof.
  intros Hm Hk fs Hr Hd. destruct (Hm fs Hr Hd) as (a & fs1 & E1 & Hr1 & HM).
  destruct (Hk a _ HM fs1 Hr1 eq_refl) as (b & fs2 & E2 & ? & ?).
  exists b, fs2. unfold eff_bind. by rewrite E1.
Qed.

Lemma gives_pure {E A : Type} (d : disk) (a : A) (Q : A → disk → Prop) :
  Q a d → gives d (pure (E := E) (Ok a)) Q.
Proof. intros H fs Hr <-. by exists a, fs. Qed.

Lemma gives_call {A : Type} (d : disk) (k : eff t IoError A) (Q : A → disk → Prop) :
  gives d k Q → gives d (call k) Q.
Proof.
  intros Hk fs [Hf Hq] Hd. unfold call, next. rewrite Hf. by apply Hk.
Qed.

(** A call that looks at the files and replaces them. *)
Lemma gives_set {E A : Type} (d d' : disk) (k : eff t E A) (a : A) (Q : A → disk → Prop) :
  (∀ fs, files fs = d → k fs = (Ok a, set_files d' fs)) → Q a d' → gives d k Q.
Proof. intros Hk HQ fs Hr Hd. exists a, (set_files d' fs). split; [by apply Hk|done]. Qed.

Lemma gives_on_path {A : Type} (d : disk) (m : eff t IoError A) (path : Path) (Q : A → disk → Prop) :
  gives d m Q → gives d (on_path path m) Q.
Proof.
  intros H fs Hr Hd. destruct (H fs Hr Hd) as (a & fs' & E & ?). exists a, fs'. unfold on_path. by rewrite E.
Qed.

Lemma create_temp_gives (d : disk) (dir : Path) n : clean d →
  gives d (create_temp_loop hex (S n) dir) (λ tmp d', is_tmp tmp ∧ ∃ mode, d' = <[tmp := mkFile mode ""]> d).
Proof.
  intros Hc fs [Hf Hq] Hd. cbn [create_temp_loop].
  set (tmp := dir ++ [tmp_prefix +:+ hex (rng fs (draws fs))]).
  assert (is_tmp tmp) as Ht by (eexists _, _; reflexivity).
  unfold random_suffix, random, create_new, call, next. cbn [fault calls]. rewrite Hf. cbn [files].
  fold tmp. rewrite Hd, (Hc tmp Ht). eexists tmp, _. split; [reflexivity|]. split; [done|]. split; [done|]. eauto.
Qed.

Lemma or_remove_gives {A : Type} (d : disk) (tmp : Path) (m : eff t IoError A) (Q : A → disk → Prop) :
  gives d m Q → gives d (or_remove tmp m) Q.
Proof.
  intros H fs Hr Hd. destruct (H fs Hr Hd) as (a & fs' & E & ?). exists a, fs'. unfold or_remove. by rewrite E.
Qed.

Lemma write_all_gives (d : disk) (p : Path) (data : string) :
  gives d (write_all p data) (λ _ d', d' = alter (λ f, mkFile (f_mode f) (f_data f +:+ data)) p d).
Proof.
  intros fs [Hf Hq] Hd. unfold write_all, next. rewrite Hf. eexists _, _. split; [reflexivity|].
  split; [done|]. cbn. by rewrite substring_all, Hd.
Qed.

Lemma write_atomic_gives (d : disk) (path : Path) (data : string) :
  clean d → path ≠ [] → ¬ is_tmp path →
  gives d (write_atomic hex path data) (λ _ d', d' = <[path := replacement d path data]> d).
Proof.
  intros Hc Hp Hn. unfold write_atomic. destruct (parent path) as [dir|] eqn:Hd; [|by destruct path].
  eapply (gives_bind _ _ _ (λ r d', r = dir ∧ d' = d)); [by apply gives_pure|]. intros ? ? [-> ->].
  eapply (gives_bind _ _ _ (λ _ d', d' = d)); [by apply gives_call, gives_pure|]. intros _ ? ->.
  eapply (gives_bind _ _ _ (λ m d', m = (λ f, Z.land (f_mode f) 4095) <$> d !! path ∧ d' = d)).
  { intros fs [Hf Hq] E. unfold existing_file_mode, metadata, call, next. rewrite Hf. cbn [files]. rewrite E.
    destruct (d !! path) as [f|]; eexists _, _; split; reflexivity || done. }
  intros mode ? [-> ->]. eapply gives_bind; [by apply create_temp_gives|]. intros tmp ? (Ht & m0 & ->).
  eapply (gives_bind _ _ _ (λ _ d', d' = <[tmp := replacement d path ""]> d)).
  { apply or_remove_gives, gives_call. eapply gives_set; [intros fs ->; reflexivity|]. by rewrite alter_insert_eq. }
  intros _ ? ->.
  eapply (gives_bind _ _ _ (λ _ d', d' = <[tmp := replacement d path data]> d)).
  { apply or_remove_gives. eapply gives_bind; [apply write_all_gives|]. intros _ ? ->.
    apply gives_call, gives_pure. by rewrite alter_insert_eq. }
  intros _ ? ->. apply gives_call. eapply gives_set.
  - intros fs ->. rewrite lookup_insert_eq. reflexivity.
  - by rewrite delete_insert_id by auto.
Qed.

Lemma read_if_present_gives (d : disk) (p : Path) :
  gives d (read_if_present p) (λ o d', o = f_data <$> d !! p ∧ d' = d).
Proof.
  intros fs [Hf Hq] E. unfold read_if_present, read, call, next. rewrite Hf. cbn [files]. rewrite E.
  destruct (d !! p) as [f|]; eexists _, _; split; reflexivity || done.
Qed.

Lemma remove_if_present_gives (d : disk) (p : Path) :
  gives d (remove_if_present p) (λ _ d', d' = delete p d).
Proof.
  intros fs [Hf Hq] E. unfold remove_if_present, remove_file, call, next. rewrite Hf. cbn [files]. rewrite E.
  destruct (d !! p) as [f|] eqn:Ep; eexists _, _; (split; [reflexivity|]); (split; [done|]); cbn; rewrite ?E; [done|].
  symmetry. by apply delete_id.
Qed.

Lemma clean_insert (d : disk) (p : Path) (f : File) : ¬ is_tmp p → clean d → clean (<[p := f]> d).
Proof. intros Hp Hc q Hq. rewrite lookup_insert_ne; [by apply Hc|]. by intros ->. Qed.

(** The files with the record of an installation added. *)
Definition record_disk (meta orig : Path) (o : option string) (mb : string) (d : disk) : disk :=
  <[meta := mkFile NEW_FILE_MODE mb]>
    match o with Some b => <[orig := mkFile NEW_FILE_MODE b]> d | None => d end.

  Context (home_dir config_dir : option Path) (backup_dir : Path) (ecosystem : Ecosystem) (target : Path).
  Abbreviation shim := (shim_for home_dir config_dir None ecosystem).
  Abbreviation meta := (meta_path backup_dir (eco_as_str (shim_ecosystem shim))).
  Abbreviation orig := (orig_path backup_dir (eco_as_str (shim_ecosystem shim))).
  Context (Hplaced : placed backup_dir shim target).

Lemma snapshot_gives (d : disk) (mb : string) :
  clean d → d !! meta = None → d !! orig = None →
  manifest_to_vec_pretty (mkManifest (display target) (bool_decide (is_Some (content target d)))) = Ok mb →
  gives d (snapshot hex backup_dir (eco_as_str (shim_ecosystem shim)) target)
    (λ _ d', d' = record_disk meta orig (content target d) mb d).
Proof.
  intros Hc Hm Ho Hmb fs [Hf Hq] E. unfold snapshot, backup_exists, is_file. rewrite Hq, E, Hm.
  cbn [negb andb]. rewrite bool_decide_eq_false_2 by (by intros [? ?]).
  match goal with |- context [eff_bind ?a ?b ?x] =>
    enough (gives d (eff_bind a b) (λ _ d', d' = record_disk meta orig (content target d) mb d)) as H
      by (by apply (H x)) end.
  clear fs Hf Hq E. pose proof (orig_not_tmp backup_dir shim) as Hto. pose proof (meta_not_tmp backup_dir shim) as Htm.
  pose proof (meta_orig backup_dir shim) as Hmo.
  eapply gives_bind; [apply read_if_present_gives|]. intros o ? [-> ->]. fold (content target d). rewrite Hmb.
  eapply (gives_bind _ _ _ (λ r d', r = mb ∧ d' = d)); [by apply gives_pure|]. intros ? ? [-> ->].
  eapply (gives_bind _ _ _ (λ _ d', d' = match content target d with
    | Some b => <[orig := mkFile NEW_FILE_MODE b]> d | None => d end)).
  { destruct (content target d) as [b|]; [|by apply gives_pure].
    intros fs Hr E. destruct (write_atomic_gives d orig b Hc ltac:(by destruct backup_dir) Hto fs Hr E)
      as (a & fs' & ? & ? & E'). exists a, fs'. split_and!; [done..|].
    rewrite E'. unfold replacement. by rewrite Ho. }
  intros _ ? ->. set (d1 := match content target d with Some _ => _ | None => d end).
  assert (clean d1 ∧ d1 !! meta = None) as [Hc1 Hm1].
  { subst d1. destruct (content target d); [|done]. split; [by apply clean_insert|]. by rewrite lookup_insert_ne. }
  intros fs Hr E. destruct (write_atomic_gives d1 meta mb Hc1 ltac:(by destruct backup_dir) Htm fs Hr E)
    as (a & fs' & ? & ? & E'). exists a, fs'. split_and!; [done..|].
  rewrite E'. unfold replacement, record_disk. by rewrite Hm1.
Qed.

Lemma document_of_object (o : option string) (v : Value) : document_of o = Some v → is_object v = true.
Proof.
  destruct o as [[|c s]|]; simpl; [by intros [= <-]| |by intros [= <-]].
  destruct (doc_from_slice _) as [w|]; [|done]. destruct (is_object w) eqn:?; naive_solver.
Qed.

Lemma read_document_gives (d : disk) (doc : Value) :
  document_of (content target d) = Some doc →
  gives d (read_document target) (λ v d', v = doc ∧ d' = d).
Proof.
  intros Hdoc. unfold read_document. eapply gives_bind; [by apply gives_on_path, read_if_present_gives|].
  intros o ? [-> ->]. fold (content target d). unfold document_of in Hdoc.
  destruct (content target d) as [[|c s]|]; simplify_eq/=; [by apply gives_pure| |by apply gives_pure].
  destruct (doc_from_slice _) as [v|]; [|done]. destruct (is_object v) eqn:Hv; [|done]. simplify_eq.
  eapply (gives_bind _ _ _ (λ v d', v = doc ∧ d' = d)); [by apply gives_pure|]. intros ? ? [-> ->].
  rewrite Hv. by apply gives_pure.
Qed.

Lemma read_document_fails (d : disk) (b : string) (fs : t) :
  content target d = Some b → document_of (Some b) = None → reliable fs → files fs = d →
  ∃ e fs1, read_document target fs = (Err (Returns e), fs1) ∧ reliable fs1 ∧ files fs1 = d.
Proof.
  intros Hb Hdoc Hr F. destruct (read_if_present_gives d target fs Hr F) as (? & fs1 & Er & Hr1 & -> & F1).
  fold (content target d) in Er. rewrite Hb in Er.
  unfold read_document, on_path, eff_bind. rewrite Er. simpl. destruct b as [|c s]; [done|].
  unfold document_of in Hdoc.
  destruct (doc_from_slice _) as [v|e]; simpl; [destruct (is_object v); [done|]|]; simpl; eauto.
Qed.

Lemma install_gives (d : disk) (mb : string) (doc : Value) (data : string) :
  clean d → d !! meta = None → d !! orig = None →
  manifest_to_vec_pretty (mkManifest (display target) (bool_decide (is_Some (content target d)))) = Ok mb →
  document_of (content target d) = Some doc →
  (∀ doc', shim_merge shim doc = Some doc' → doc_to_vec_pretty doc' = Ok data) →
  gives d (install hex backup_dir shim) (λ r d', r = mkInstallReport target true ∧
    let d1 := record_disk meta orig (content target d) mb d in
    d' = <[target := replacement d target (data +:+ String newline "")]> d1).
Proof.
  intros Hc Hm Ho Hmb Hdoc Hdata. pose proof Hplaced as [Hat Ht Hpm Hpo].
  pose proof (orig_not_tmp backup_dir shim) as Hto. pose proof (meta_not_tmp backup_dir shim) as Htm.
  unfold install. rewrite Hat.
  eapply (gives_bind _ _ _ (λ r d', r = target ∧ d' = d)); [by apply gives_pure|]. intros ? ? [-> ->].
  eapply (gives_bind _ _ _ (λ r d', r = false ∧ d' = d)).
  { intros fs [Hf Hq] E. unfold backup_exists, is_file. rewrite Hq, E, Hm. eexists _, _. split; [reflexivity|]. done. }
  intros ? ? [-> ->]. eapply gives_bind; [by apply gives_on_path, snapshot_gives|]. intros _ ? ->.
  set (d1 := record_disk meta orig (content target d) mb d).
  assert (clean d1) as Hc1.
  { subst d1. unfold record_disk. apply clean_insert; [done|]. destruct (content target d); [by apply clean_insert|done]. }
  assert (d1 !! target = d !! target) as E1.
  { subst d1. unfold record_disk. rewrite lookup_insert_ne by done.
    destruct (content target d); [by rewrite lookup_insert_ne|done]. }
  pose proof (document_of_object _ _ Hdoc) as Hobj.
  eapply gives_bind; [apply (read_document_gives d1 doc); unfold content; by rewrite E1|].
  intros ? ? [-> ->].
  destruct (shim_merge_total home_dir config_dir None ecosystem doc Hobj) as [doc' Hm']. rewrite Hm'.
  eapply (gives_bind _ _ _ (λ v d', v = doc' ∧ d' = d1)); [by apply gives_pure|]. intros ? ? [-> ->].
  eapply (gives_bind _ _ _ (λ _ d', d' = <[target := replacement d1 target (data +:+ String newline "")]> d1)).
  { apply gives_on_path. rewrite (Hdata doc' Hm').
    eapply (gives_bind _ _ _ (λ v d', v = data ∧ d' = d1)); [by apply gives_pure|]. intros ? ? [-> ->].
    apply write_atomic_gives; [done|apply Hplaced|done]. }
  intros _ ? ->. apply gives_pure. split; [done|]. simpl. unfold replacement. by rewrite E1.
Qed.

(** Installing over an installation. *)
Lemma install_again_gives (d : disk) (doc : Value) (data : string) :
  clean d → is_Some (d !! meta) → document_of (content target d) = Some doc →
  shim_merge shim doc = Some doc → doc_to_vec_pretty doc = Ok data →
  gives d (install hex backup_dir shim) (λ r d', r = mkInstallReport target false ∧
    d' = <[target := replacement d target (data +:+ String newline "")]> d).
Proof.
  intros Hc Hm Hdoc Hmerge Hdata. pose proof Hplaced as [Hat Ht Hpm Hpo].
  unfold install. rewrite Hat.
  eapply (gives_bind _ _ _ (λ r d', r = target ∧ d' = d)); [by apply gives_pure|]. intros ? ? [-> ->].
  assert (gives (E := Stop) d (λ fs, let '(b, fs) := backup_exists backup_dir (eco_as_str (shim_ecosystem shim)) fs in
    (Ok b, fs)) (λ r d', r = true ∧ d' = d)) as Hex.
  { intros fs [Hf Hq] E. unfold backup_exists, is_file. rewrite Hq, E.
    rewrite bool_decide_eq_true_2 by done. eexists _, _. split; [reflexivity|]. done. }
  eapply gives_bind; [exact Hex|]. intros ? ? [-> ->].
  eapply (gives_bind _ _ _ (λ _ d', d' = d)).
  { apply gives_on_path. intros fs Hr E. destruct (Hex fs Hr E) as (? & fs' & Ef & Hr' & -> & F).
    unfold snapshot. destruct (backup_exists _ _ fs) as [there fs0]. simplify_eq. by exists (), fs'. }
  intros _ ? ->. eapply gives_bind; [by apply read_document_gives|]. intros ? ? [-> ->]. rewrite Hmerge.
  eapply (gives_bind _ _ _ (λ v d', v = doc ∧ d' = d)); [by apply gives_pure|]. intros ? ? [-> ->].
  eapply (gives_bind _ _ _ (λ _ d', d' = <[target := replacement d target (data +:+ String newline "")]> d));
    [|intros _ ? ->; by apply gives_pure].
  apply gives_on_path. rewrite Hdata.
  eapply (gives_bind _ _ _ (λ v d', v = data ∧ d' = d)); [by apply gives_pure|]. intros ? ? [-> ->].
  apply write_atomic_gives; [done|apply Hplaced|done].
Qed.

Lemma load_gives (d : disk) (o : option string) :
  backed_up backup_dir shim o d →
  gives d (load backup_dir (eco_as_str (shim_ecosystem shim))) (λ r d', r = Some (mkBackup o) ∧ d' = d).
Proof.
  intros (f & m & Hf & Hm & He & Ho). unfold load. eapply gives_bind; [apply read_if_present_gives|].
  intros ? ? [-> ->]. rewrite Hf. simpl. rewrite Hm.
  eapply (gives_bind _ _ _ (λ r d', r = m ∧ d' = d)); [by apply gives_pure|]. intros ? ? [-> ->].
  rewrite He. destruct o as [b|]; [|by apply gives_pure]. simpl.
  eapply (gives_bind _ _ _ (λ r d', r = b ∧ d' = d)); [|intros ? ? [-> ->]; by apply gives_pure].
  apply gives_call. intros fs Hr E. rewrite E, (Ho b eq_refl). simpl. eexists _, _. split; [reflexivity|done].
Qed.

(** Taking the record away again. *)
Lemma undo_record (d : disk) (o : option string) (mb : string) :
  d !! meta = None → d !! orig = None → delete orig (delete meta (record_disk meta orig o mb d)) = d.
Proof.
  intros Hm Ho. pose proof (meta_orig backup_dir shim) as Hmo. unfold record_disk.
  destruct o as [b|]; rewrite delete_insert_id; rewrite ?lookup_insert_ne by done; try done.
  - by rewrite delete_insert_id.
  - by rewrite delete_id.
Qed.

(** Removing what [record_disk] recorded, with anything in the target's place. *)
Lemma uninstall_gives (d : disk) (mb : string) (f : File) :
  clean d → d !! meta = None → d !! orig = None →
  manifest_to_vec_pretty (mkManifest (display target) (bool_decide (is_Some (content target d)))) = Ok mb →
  gives (<[target := f]> (record_disk meta orig (content target d) mb d)) (uninstall hex backup_dir shim)
    (λ r d', r = mkUninstallReport target ∧ d' = match content target d with
       | Some b => <[target := mkFile (Z.land (f_mode f) 4095) b]> d | None => delete target d end).
Proof.
  intros Hc Hm Ho Hmb. pose proof Hplaced as [Hat Ht Hpm Hpo].
  pose proof (orig_not_tmp backup_dir shim) as Hto. pose proof (meta_not_tmp backup_dir shim) as Htm.
  pose proof (meta_orig backup_dir shim) as Hmo.
  set (o := content target d) in *. set (d1 := <[target := f]> (record_disk meta orig o mb d)).
  assert (clean d1) as Hc1.
  { subst d1. unfold record_disk. apply clean_insert; [done|]. apply clean_insert; [done|].
    destruct o; [by apply clean_insert|done]. }
  assert (backed_up backup_dir shim o d1) as Hb.
  { apply (backed_up_target _ _ _ Hplaced). eexists _, _. unfold record_disk. rewrite lookup_insert_eq.
    split; [done|]. split; [by apply manifest_round_trip|]. split; [done|].
    intros b ->. rewrite lookup_insert_ne by done. by rewrite lookup_insert_eq. }
  unfold uninstall. rewrite Hat.
  eapply (gives_bind _ _ _ (λ r d', r = target ∧ d' = d1)); [by apply gives_pure|]. intros ? ? [-> ->].
  eapply gives_bind; [by apply gives_on_path, load_gives|]. intros ? ? [-> ->]. cbn [bk_original].
  eapply (gives_bind _ _ _ (λ _ d', d' = match o with
    | Some b => <[target := mkFile (Z.land (f_mode f) 4095) b]> d1 | None => delete target d1 end)).
  { destruct o as [b|]; apply gives_on_path; [|apply remove_if_present_gives].
    assert (replacement d1 target b = mkFile (Z.land (f_mode f) 4095) b) as <-
      by (unfold replacement, d1; by rewrite lookup_insert_eq).
    apply write_atomic_gives; [done|apply Hplaced|done]. }
  intros _ ? ->. eapply gives_bind.
  { apply gives_on_path. unfold clear. eapply gives_bind; [apply remove_if_present_gives|].
    intros _ ? ->. apply remove_if_present_gives. }
  intros _ ? ->. apply gives_pure. split; [done|]. subst d1. destruct o as [b|].
  - by rewrite insert_insert_eq, !delete_insert_ne, undo_record by done.
  - rewrite delete_insert_eq, (delete_delete _ _ target), (delete_delete _ _ target). by rewrite undo_record.
Qed.

End Reliable.

Section Total.
  Context {Codec : HookCodec} (hex : Z → string) (home_dir config_dir : option Path)
    (backup_dir : Path) (ecosystem : Ecosystem) (target : Path).
  Abbreviation shim := (shim_for home_dir config_dir None ecosystem).
  Abbreviation meta := (meta_path backup_dir (eco_as_str (shim_ecosystem shim))).
  Abbreviation orig := (orig_path backup_dir (eco_as_str (shim_ecosystem shim))).

(** On a machine where no call fails, installing into a configuration
    file that holds a JSON object (or nothing) succeeds and leaves the merged
    document there, and uninstalling then succeeds and leaves every file of
    the machine exactly as it was: bytes, permissions, and a file that did not
    exist is gone again. *)
Theorem install_uninstall_identity (d : disk) (mb data : string) (doc : Value) (fs : t) :
  shim_target_path shim = Ok target →
  reliable fs → files fs = d → clean d → d !! meta = None → d !! orig = None →
  (∀ f, d !! target = Some f → Z.land (f_mode f) 4095 = f_mode f) →
  document_of (content target d) = Some doc →
  manifest_to_vec_pretty (mkManifest (display target) (bool_decide (is_Some (content target d)))) = Ok mb →
  (∀ doc', shim_merge shim doc = Some doc' → doc_to_vec_pretty doc' = Ok data) →
  ∃ fs1 fs2,
    install hex backup_dir shim fs = (Ok (mkInstallReport target true), fs1) ∧
    content target (files fs1) = Some (data +:+ String newline "") ∧
    uninstall hex backup_dir shim fs1 = (Ok (mkUninstallReport target), fs2) ∧
    files fs2 = d.
Proof.
  intros Htg Hr Hd Hc Hm Ho Hmode Hdoc Hmb Hdata.
  pose proof (shim_for_placed home_dir config_dir backup_dir ecosystem target Htg) as Hplaced.
  destruct (install_gives hex _ _ _ _ _ Hplaced d mb doc data Hc Hm Ho Hmb Hdoc Hdata fs Hr Hd) as (? & fs1 & E1 & Hr1 & -> & F1).
  destruct (uninstall_gives hex _ _ _ _ _ Hplaced d mb _ Hc Hm Ho Hmb fs1 Hr1 F1) as (? & fs2 & E2 & Hr2 & -> & F2).
  exists fs1, fs2. split_and!; [done| |done|].
  - unfold content. rewrite F1. by rewrite lookup_insert_eq.
  - rewrite F2. unfold content, replacement. destruct (d !! target) as [[mode b]|] eqn:E; simpl.
    + pose proof (Hmode _ eq_refl) as Hmd. simpl in Hmd. rewrite !Hmd. by apply insert_id.
    + by apply delete_id.
Qed.

(** Installing again, on a machine where no call fails, changes no file and
    reports that nothing is new. *)
Theorem reinstall_changes_nothing (d : disk) (mb data : string) (doc doc' : Value) (fs : t) :
  shim_target_path shim = Ok target →
  reliable fs → files fs = d → clean d → d !! meta = None → d !! orig = None →
  document_of (content target d) = Some doc →
  manifest_to_vec_pretty (mkManifest (display target) (bool_decide (is_Some (content target d)))) = Ok mb →
  shim_merge shim doc = Some doc' → regular doc' = true → doc_to_vec_pretty doc' = Ok data →
  ∃ fs1 fs2,
    install hex backup_dir shim fs = (Ok (mkInstallReport target true), fs1) ∧
    install hex backup_dir shim fs1 = (Ok (mkInstallReport target false), fs2) ∧
    files fs2 = files fs1.
Proof.
  intros Htg Hr Hd Hc Hm Ho Hdoc Hmb Hmerge Hreg Hdata.
  pose proof (shim_for_placed home_dir config_dir backup_dir ecosystem target Htg) as Hplaced.
  pose proof Hplaced as [Hat Ht Hpm Hpo].
  destruct (install_gives hex _ _ _ _ _ Hplaced d mb doc data Hc Hm Ho Hmb Hdoc) with (fs := fs)
    as (? & fs1 & E1 & Hr1 & -> & F1); [by intros ? ?; simplify_eq|done..|].
  destruct (doc_round_trip doc' data Hreg Hdata) as [Hne Hrt].
  pose proof (document_of_object _ _ Hdoc) as Hobj. destruct doc as [| | | | | |m]; try done.
  destruct (shim_merge_twice home_dir config_dir None ecosystem m) as (m' & Em & Em').
  rewrite Hmerge in Em. injection Em as ->.
  destruct (install_again_gives hex _ _ _ _ _ Hplaced (files fs1) (JObject m') data) with (fs := fs1)
    as (? & fs2 & E2 & Hr2 & -> & F2); try done.
  - rewrite F1. pose proof (orig_not_tmp backup_dir shim). pose proof (meta_not_tmp backup_dir shim).
    apply clean_insert; [done|]. unfold record_disk. apply clean_insert; [done|].
    destruct (content target d); [by apply clean_insert|done].
  - rewrite F1, lookup_insert_ne by done. unfold record_disk. rewrite lookup_insert_eq. eauto.
  - unfold content. rewrite F1, lookup_insert_eq. simpl. rewrite Hrt. simpl. by destruct data.
  - exists fs1, fs2. split_and!; [done..|]. rewrite F2. apply insert_id. rewrite F1, lookup_insert_eq.
    unfold replacement at 2. rewrite lookup_insert_eq. simpl. unfold replacement. f_equal. f_equal.
    destruct (d !! target) as [f|]; simpl; [|done]. by rewrite <- Z.land_assoc.
Qed.

(** Installing into a file that is not a JSON object fails and leaves the
    file alone, but its backup has been recorded by then: the shim counts as
    installed from now on, and when the user repairs the file, uninstalling
    puts the broken content back over the repair. *)
Theorem broken_config_counts_as_installed (d : disk) (mb b : string) (fs : t) :
  shim_target_path shim = Ok target →
  reliable fs → files fs = d → clean d → d !! meta = None → d !! orig = None →
  content target d = Some b → document_of (Some b) = None →
  manifest_to_vec_pretty (mkManifest (display target) true) = Ok mb →
  ∃ e fs1, install hex backup_dir shim fs = (Err (Returns e), fs1) ∧
    content target (files fs1) = Some b ∧
    (hooks_status backup_dir shim fs1).1 = Ok (mkShimStatus ecosystem target true) ∧
    ∀ repaired fs2, reliable fs2 → files fs2 = <[target := repaired]> (files fs1) →
      ∃ fs3, uninstall hex backup_dir shim fs2 = (Ok (mkUninstallReport target), fs3) ∧
        content target (files fs3) = Some b.
Proof.
  intros Htg Hr Hd Hc Hm Ho Hb Hdoc Hmb.
  pose proof (shim_for_placed home_dir config_dir backup_dir ecosystem target Htg) as Hplaced.
  pose proof Hplaced as [Hat Ht Hpm Hpo].
  assert (manifest_to_vec_pretty (mkManifest (display target) (bool_decide (is_Some (content target d)))) = Ok mb)
    as Hmb' by (by rewrite Hb).
  set (d1 := record_disk meta orig (content target d) mb d).
  assert (gives d (on_path target (snapshot hex backup_dir (eco_as_str (shim_ecosystem shim)) target))
    (λ _ d', d' = d1)) as Hsnap by by apply gives_on_path, snapshot_gives.
  assert (d1 !! target = d !! target) as E1.
  { subst d1. unfold record_disk. rewrite lookup_insert_ne by done. rewrite Hb. by rewrite lookup_insert_ne. }
  destruct Hr as [Hf Hq].
  destruct (Hsnap (backup_exists backup_dir (eco_as_str (shim_ecosystem shim)) fs).2) as ([] & fs0 & E0 & Hr0 & F0);
    [done|done|].
  destruct (read_document_fails target d1 b fs0) as (e & fs1 & Er & Hr1 & F1); [|done..|].
  { unfold content. by rewrite E1. }
  exists e, fs1. split_and!.
  - unfold install. rewrite Hat. unfold eff_bind. cbn [map_err pure].
    destruct (backup_exists backup_dir _ fs) as [there fs'] eqn:Eb. cbn [snd] in E0. by rewrite E0, Er.
  - unfold content. by rewrite F1, E1.
  - unfold hooks_status. rewrite Hat. unfold eff_bind, backup_exists, is_file. cbn [map_err pure fst snd].
    destruct Hr1 as [_ Hq1]. rewrite Hq1, F1. subst d1. unfold record_disk. rewrite lookup_insert_eq.
    by destruct ecosystem.
  - intros f fs2 Hr2 F2. rewrite F1 in F2.
    destruct (uninstall_gives hex _ _ _ _ _ Hplaced d mb f Hc Hm Ho Hmb' fs2 Hr2 F2) as (? & fs3 & E3 & _ & -> & F3).
    exists fs3. split; [done|]. rewrite F3, Hb. unfold content. by rewrite lookup_insert_eq.
Qed.
End Total.

(** ** Hook shims: a concrete machine

    A coding of three documents and one machine on which the theorems of
    [HooksProps] are applied. *)

Import Files.

Module HookRuns.

(** The user's settings, and what the shim makes of them. *)
Definition settings : Value := JObject [("model", JString "opus")].
Definition merged : Value :=
  match claude_merge settings with Some v => v | None => JNull end.

Definition table : list (Value * string) :=
  [(JObject [], "{}"); (settings, "{model}"); (merged, "{hooks,model}")].

Definition print (v : Value) : result string string :=
  match List.find (λ e, value_eqb e.1 v) table with
  | Some (_, s) => Ok s
  | None => Err "not in the table"
  end.

Definition scan (s : string) : result Value string :=
  match List.find (λ e, String.eqb e.2 s || String.eqb (e.2 +:+ String newline "") s) table with
  | Some (v, _) => Ok v
  | None => Err "expected value"
  end.

Definition flag (b : bool) : string := if b then "1" else "0".

#[local] Program Instance table_codec : HookCodec := {|
  manifest_to_vec_pretty m := Ok (flag (mf_existed m) +:+ mf_target_path m);
  manifest_from_slice s :=
    match s with String c rest => Ok (mkManifest rest (Nat.eqb (Ascii.nat_of_ascii c) 49)) | EmptyString => Err "eof" end;
  doc_to_vec_pretty := print;
  doc_from_slice := scan;
|}.
Next Obligation. by intros [p []] data [= <-]. Qed.
Next Obligation.
  intros v data _. unfold print. destruct (List.find _ table) as [[w s]|] eqn:E; [|done]. intros [= <-].
  apply find_some in E as [Hin Heq]. apply value_eqb_eq in Heq. simpl in Heq. subst w.
  destruct Hin as [[= <- <-]|[[= <- <-]|[[= <- <-]|[]]]]; by vm_compute.
Qed.

Definition home : option Path := Some ["home"; "u"].
Definition target : Path := ["home"; "u"; ".claude"; "settings.json"].
Definition backup_dir : Path := ["data"; "hooks"].
Abbreviation shim := (shim_for home None None Claude).

Definition machine (d : disk) : t := mk d (λ _, None) 0 (λ _, false) 0 Z.of_nat 0 [].
Definition hex (z : Z) : string := pretty z.
Definition with_settings (text : string) : disk := {[target := mkFile 420 text]}.

Lemma with_settings_clean text : clean (with_settings text).
Proof.
  intros p Hp. unfold with_settings. rewrite lookup_singleton_ne; [done|]. intros <-.
  by apply (not_tmp ["home"; "u"; ".claude"] "settings.json") in Hp.
Qed.

Lemma install_uninstall_identity_witness :
  ∃ fs1 fs2,
    install hex backup_dir shim (machine (with_settings "{model}")) = (Ok (mkInstallReport target true), fs1) ∧
    content target (files fs1) = Some ("{hooks,model}" +:+ String newline "") ∧
    uninstall hex backup_dir shim fs1 = (Ok (mkUninstallReport target), fs2) ∧
    files fs2 = with_settings "{model}".
Proof.
  apply (install_uninstall_identity hex home None backup_dir Claude target (with_settings "{model}")
           ("1/home/u/.claude/settings.json") "{hooks,model}" settings (machine (with_settings "{model}"))).
  - reflexivity.
  - by split.
  - reflexivity.
  - apply with_settings_clean.
  - by vm_compute.
  - by vm_compute.
  - intros f. unfold with_settings. rewrite lookup_singleton_eq. by intros [= <-].
  - by vm_compute.
  - by vm_compute.
  - intros doc' [= <-]. by vm_compute.
Defined.

Lemma broken_config_counts_as_installed_witness :
  ∃ e fs1, install hex backup_dir shim (machine (with_settings "{model")) = (Err (Returns e), fs1) ∧
    (hooks_status backup_dir shim fs1).1 = Ok (mkShimStatus Claude target true).
Proof.
  destruct (broken_config_counts_as_installed hex home None backup_dir Claude target (with_settings "{model")
    "1/home/u/.claude/settings.json" "{model" (machine (with_settings "{model"))) as (e & fs1 & E1 & _ & E2 & _).
  - reflexivity.
  - by split.
  - reflexivity.
  - apply with_settings_clean.
  - by vm_compute.
  - by vm_compute.
  - by vm_compute.
  - by vm_compute.
  - by vm_compute.
  - exists e, fs1. split; [exact E1|exact E2].
Defined.

(** Installed, then edited by someone else. *)
Definition first : t := (install hex backup_dir shim (machine (with_settings "{model}"))).2.
Definition edited : disk := <[target := mkFile 420 "{}"]> (files first).

Lemma original_always_recoverable_witness :
  recoverable backup_dir shim target (Some "{model}") edited ∧
  content target (files (uninstall hex backup_dir shim (machine edited)).2) = Some "{model}".
Proof.
  destruct (original_always_recoverable hex home None backup_dir Claude target
    (with_settings "{model}") (mkLife (Some "{model}") edited)) as [H1 H2].
  - by vm_compute.
  - by vm_compute.
  - eapply rtc_l.
    { apply (life_install hex home None backup_dir Claude target _ (machine (with_settings "{model}")) (files first));
        [done|done|]. apply list_elem_of_here. }
    eapply rtc_l; [|apply rtc_refl].
    replace (Some "{model}") with (lf_original (mkLife (Some "{model}") (files first))) by done.
    match goal with |- life_step _ _ _ _ _ _ ?a ?b =>
      replace b with (mkLife (if decide (lf_disk a !! meta_path backup_dir "claude" = None)
                              then content target edited else lf_original a) edited) by (by vm_compute) end.
    apply life_edit. intros p Hp. unfold edited. by rewrite lookup_insert_ne.
  - split; [exact H1|]. specialize (H2 (machine edited) ltac:(done) eq_refl).
    assert (is_ok (uninstall hex backup_dir shim (machine edited)).1 = true) as Hok by (by vm_compute).
    destruct (uninstall hex backup_dir shim (machine edited)) as [[r|e] fs']; [by destruct H2|done].
Defined.

(** Installed a second time while the second [is_file], whether a backup was
    taken, cannot look. *)
Definition unlucky : t := mk (files first) (λ _, None) 0 (λ n, n =? 1) 0 (λ n, 100 + Z.of_nat n)%Z 0 [].

Definition again : t := (install hex backup_dir shim unlucky).2.

(** [Path::is_file] says no also when it fails to look, and the snapshot takes
    that for no backup: the second installation records the file with the hooks
    already in it over the original, which is nowhere any more. *)
Theorem failed_lookup_loses_original :
  content (orig_path backup_dir "claude") (files first) = Some "{model}" ∧
  (install hex backup_dir shim unlucky).1 = Ok (mkInstallReport target false) ∧
  content (orig_path backup_dir "claude") (files again) = content target (files first) ∧
  content target (files (uninstall hex backup_dir shim (machine (files again))).2) ≠ Some "{model}".
Proof. vm_compute. split_and!; try reflexivity. discriminate. Qed.
End HookRuns.
