(* ===== verification/AiModule.v ===== *)
(** * The AI hooks module (penguin-module-waddleai/src)

    The denylist cache (cache.rs), the HTTP client (client.rs, error.rs), the
    module (module.rs) and its commands (commands.rs).

    The outside is a [World]: the files, the clock, the secret store and the
    server, each of which answers the [n]-th question put to it as it likes, so
    every theorem holds for every behaviour of the server and every failure.
    HTTP and the coding of replies, YAML and the cache file are parameters.
    Times are nanoseconds since 1970 and within the range of [SystemTime];
    metrics are the counters the code bumps. *)
From S2P Require Import Prelude.
From S2P Require Import Text.
From S2P Require Import Json.
From S2P Require Import Mask.
From S2P Require Import Sdk.
From S2P Require Import Cli.
From S2P Require Import Hooks.

Definition nanos (secs : Z) : Z := (secs * 1000000000)%Z.

Definition bool_text (b : bool) : string := if b then "true" else "false".

(** ** The denylist cache (cache.rs) *)

Record DenylistCache := mkDenylist {
  dl_version : string;
  dl_entries : list string;
  dl_synced_at_unix : option Z;
}.

#[global] Instance DenylistCache_eq_dec : EqDecision DenylistCache.
Proof. solve_decision. Defined.

Definition denylist_empty : DenylistCache := mkDenylist "" [] None.

Definition synced_at (c : DenylistCache) : option Z := nanos <$> dl_synced_at_unix c.

Definition age (c : DenylistCache) (now : Z) : option Z :=
  synced ← synced_at c; if (synced <=? now)%Z then Some (now - synced)%Z else None.

Definition is_stale (c : DenylistCache) (now max_age : Z) : bool :=
  match age c now with
  | Some a => (max_age <? a)%Z
  | None => true
  end.

Definition denylist_contains (c : DenylistCache) (subject : string) : bool :=
  existsb (λ entry, bool_decide (entry = subject)) (dl_entries c).

Definition record_sync (c : DenylistCache) (version : string) (entries : list string) (now : Z) :
    DenylistCache :=
  mkDenylist version entries (if (0 <=? now)%Z then Some (now / 1000000000)%Z else None).

(** ** The server's replies (client.rs, error.rs) *)

Record DenylistResponse := mkDenylistResponse { dr_version : string; dr_entries : list string }.
Record EvaluateResponse := mkEvaluateResponse { ev_decision : string; ev_reason : string }.

Inductive ErrorBody :=
| Structured (code message : string)
| Plain (message : string)
| Unparsed (raw : string).

Definition error_body_text (b : ErrorBody) : string :=
  match b with
  | Structured code message => code +:+ ": " +:+ message
  | Plain message => message
  | Unparsed raw => raw
  end.

Inductive WaddleAiError :=
| Setup (e : string)
| Transport (e : string)
| Auth (status : Z) (body : ErrorBody)
| HttpStatus (status : Z) (body : ErrorBody)
| Decode (e : string).

Definition ai_error_text (e : WaddleAiError) : string :=
  match e with
  | Setup e => "failed to set up HTTP client: " +:+ e
  | Transport e => "transport error: " +:+ e
  | Auth status body =>
      "authentication rejected (HTTP " +:+ pretty status +:+ "): " +:+ error_body_text body
  | HttpStatus status body => "HTTP " +:+ pretty status +:+ ": " +:+ error_body_text body
  | Decode e => "failed to decode response: " +:+ e
  end.

Record ModuleConfig := mkModuleConfig {
  cf_base_url : string;
  cf_sync_interval_secs : Z;
  cf_max_age_secs : Z;
  cf_hooks : Ecosystem → bool;
}.

Definition DEFAULT_BASE_URL : string := "https://waddleai.app/api/v1".

Definition config_default : ModuleConfig :=
  mkModuleConfig DEFAULT_BASE_URL (60 * 60) (24 * 60 * 60) (λ _, false).

(** The coders: [serde_json] on documents, replies and the cache file, the
    YAML configuration, and [String::from_utf8_lossy]. *)
Class AiCodec := {
  ai_hooks :: HookCodec;
  json_from_slice : string → result Value string;
  json_to_string : Value → string;
  json_to_string_pretty : Value → string;
  decode_health : string → result unit string;
  decode_denylist : string → result DenylistResponse string;
  decode_evaluate : string → result EvaluateResponse string;
  cache_to_vec_pretty : DenylistCache → result string string;
  cache_from_slice : string → result DenylistCache string;
  cache_round_trip : ∀ c data, cache_to_vec_pretty c = Ok data → data ≠ "" ∧ cache_from_slice data = Ok c;
  config_from_slice : string → result ModuleConfig string;
  utf8_lossy : string → string;
}.

Definition parse_error_body `{AiCodec} (bytes : string) : ErrorBody :=
  match json_from_slice bytes with
  | Err _ => Unparsed (utf8_lossy bytes)
  | Ok value =>
      match get value "error" with
      | None => Unparsed (utf8_lossy bytes)
      | Some error_value =>
          match as_str error_value with
          | Some message => Plain message
          | None =>
              match as_object error_value with
              | Some _ =>
                  let field k := default "" (v ← get error_value k; as_str v) in
                  Structured (field "code") (field "message")
              | None => Unparsed (utf8_lossy bytes)
              end
          end
      end
  end.

(** ** The outside *)

Inductive Method := GET | POST.
Record Request := mkRequest {
  rq_method : Method; rq_url : string; rq_bearer : string; rq_body : option Value;
}.

(** What becomes of a request: a status and a body, or no usable response. *)
Inductive Answer := Replied (status : Z) (body : string) | NoResponse (error : string).

Record World := mkWorld {
  w_fs : Files.t;
  w_secrets : gmap string string;
  w_log : list string;
  w_asked : nat;                                   (* questions so far *)
  w_server : nat → Request → Answer;
  w_slow : nat → bool;                             (* takes longer than the probe waits *)
  w_clock : nat → Z;
  w_setup : nat → option string;                   (* building the HTTP stack fails *)
  w_secret_fault : nat → option string;
}.

Definition set_fs (fs : Files.t) (w : World) : World :=
  mkWorld fs (w_secrets w) (w_log w) (w_asked w) (w_server w) (w_slow w) (w_clock w) (w_setup w)
    (w_secret_fault w).
Definition set_secrets (m : gmap string string) (w : World) : World :=
  mkWorld (w_fs w) m (w_log w) (w_asked w) (w_server w) (w_slow w) (w_clock w) (w_setup w)
    (w_secret_fault w).
Definition log (line : string) (w : World) : World :=
  mkWorld (w_fs w) (w_secrets w) (w_log w ++ [line]) (w_asked w) (w_server w) (w_slow w) (w_clock w)
    (w_setup w) (w_secret_fault w).
Definition tick (w : World) : World :=
  mkWorld (w_fs w) (w_secrets w) (w_log w) (S (w_asked w)) (w_server w) (w_slow w) (w_clock w)
    (w_setup w) (w_secret_fault w).

Definition now (w : World) : Z * World := (w_clock w (w_asked w), tick w).

Definition secret_get (k : string) (w : World) : result string string * World :=
  (match w_secret_fault w (w_asked w) with
   | Some e => Err e
   | None => ok_or (w_secrets w !! k) "secret not found"
   end, tick w).

Definition secret_set (k v : string) (w : World) : result unit string * World :=
  match w_secret_fault w (w_asked w) with
  | Some e => (Err e, tick w)
  | None => (Ok (), set_secrets (<[k := v]> (w_secrets w)) (tick w))
  end.

(** ** The client *)

Record Client := mkClient { cl_base_url : string; cl_virtual_key : string }.

Definition client_new (base_url virtual_key : string) (w : World) : result Client WaddleAiError * World :=
  (match w_setup w (w_asked w) with
   | Some e => Err (Setup e)
   | None => Ok (mkClient (trim_end_slashes base_url) virtual_key)
   end, tick w).

Definition url (c : Client) (path : string) : string := cl_base_url c +:+ path.

Section Module_.
  Context {Codec : AiCodec} (hex : Z → string).

(** The reply to a request, read by the decoder of its type. *)
Definition execute {A} (decode : string → result A string) (answer : Answer) : result A WaddleAiError :=
  match answer with
  | NoResponse e => Err (Transport e)
  | Replied status bytes =>
      if (200 <=? status)%Z && (status <? 300)%Z then map_err Decode (decode bytes)
      else
        let body := parse_error_body bytes in
        if (status =? 401)%Z || (status =? 403)%Z then Err (Auth status body)
        else Err (HttpStatus status body)
  end.

Definition health_request (c : Client) : Request := mkRequest GET (url c "/health") (cl_virtual_key c) None.
Definition denylist_request (c : Client) : Request :=
  mkRequest GET (url c "/agent-hooks/denylist") (cl_virtual_key c) None.
Definition event_request (c : Client) (ecosystem event : string) (payload : Value) : Request :=
  mkRequest POST (url c "/agent-hooks/events") (cl_virtual_key c)
    (Some (JObject [("ecosystem", JString ecosystem); ("event", JString event); ("payload", payload)])).

(** ** The module's state *)

Inductive AuthState := AuthOk | AuthUnauthorized | AuthUnreachable.

Definition auth_as_str (a : AuthState) : string :=
  match a with
  | AuthOk => "ok" | AuthUnauthorized => "unauthorized" | AuthUnreachable => "unreachable"
  end.

Record AuthProbe := mkAuthProbe { pb_state : AuthState; pb_checked_at : Z }.

Inductive DecisionSource := Live | CachedDenylist.

Inductive HookOutcome :=
| Allow (reason : string)
| Deny (reason : string) (source : DecisionSource)
| Unavailable (reason : string).

Record Metrics := mkMetrics {
  mt_api_requests : nat;
  mt_api_errors : nat;
  mt_up : bool;
  mt_hook_invocations : gmap (string * string) nat;
  mt_hook_decisions : gmap string nat;
  mt_latency_samples : nat;
  mt_denylist_entries : nat;
  mt_denylist_last_synced : option Z;
  mt_denylist_stale : bool;
}.

(** [Inner] after [init]; the sync task is running or not. *)
Record Ai := mkAi {
  ai_config : ModuleConfig;
  ai_metrics : Metrics;
  ai_virtual_key : string;
  ai_client : Client;
  ai_running : bool;
  ai_last_probe : option AuthProbe;
  ai_denylist : DenylistCache;
  ai_denylist_path : Path;
  ai_hooks_backup_dir : Path;
  ai_sync_task : bool;
}.

Definition set_metrics (m : Metrics) (a : Ai) : Ai :=
  mkAi (ai_config a) m (ai_virtual_key a) (ai_client a) (ai_running a) (ai_last_probe a)
    (ai_denylist a) (ai_denylist_path a) (ai_hooks_backup_dir a) (ai_sync_task a).
Definition set_key (c : Client) (k : string) (a : Ai) : Ai :=
  mkAi (ai_config a) (ai_metrics a) k c (ai_running a) None
    (ai_denylist a) (ai_denylist_path a) (ai_hooks_backup_dir a) (ai_sync_task a).
Definition set_running (b : bool) (a : Ai) : Ai :=
  mkAi (ai_config a) (ai_metrics a) (ai_virtual_key a) (ai_client a) b (ai_last_probe a)
    (ai_denylist a) (ai_denylist_path a) (ai_hooks_backup_dir a) (ai_sync_task a).
Definition set_probe (p : AuthProbe) (a : Ai) : Ai :=
  mkAi (ai_config a) (ai_metrics a) (ai_virtual_key a) (ai_client a) (ai_running a) (Some p)
    (ai_denylist a) (ai_denylist_path a) (ai_hooks_backup_dir a) (ai_sync_task a).
Definition set_denylist (c : DenylistCache) (a : Ai) : Ai :=
  mkAi (ai_config a) (ai_metrics a) (ai_virtual_key a) (ai_client a) (ai_running a) (ai_last_probe a)
    c (ai_denylist_path a) (ai_hooks_backup_dir a) (ai_sync_task a).
Definition set_task (b : bool) (a : Ai) : Ai :=
  mkAi (ai_config a) (ai_metrics a) (ai_virtual_key a) (ai_client a) (ai_running a) (ai_last_probe a)
    (ai_denylist a) (ai_denylist_path a) (ai_hooks_backup_dir a) b.

Definition metric_requests (m : Metrics) : Metrics :=
  mkMetrics (S (mt_api_requests m)) (mt_api_errors m) (mt_up m) (mt_hook_invocations m)
    (mt_hook_decisions m) (mt_latency_samples m) (mt_denylist_entries m) (mt_denylist_last_synced m)
    (mt_denylist_stale m).
Definition metric_errors (m : Metrics) : Metrics :=
  mkMetrics (mt_api_requests m) (S (mt_api_errors m)) (mt_up m) (mt_hook_invocations m)
    (mt_hook_decisions m) (mt_latency_samples m) (mt_denylist_entries m) (mt_denylist_last_synced m)
    (mt_denylist_stale m).
Definition metric_up (b : bool) (m : Metrics) : Metrics :=
  mkMetrics (mt_api_requests m) (mt_api_errors m) b (mt_hook_invocations m)
    (mt_hook_decisions m) (mt_latency_samples m) (mt_denylist_entries m) (mt_denylist_last_synced m)
    (mt_denylist_stale m).
Definition metric_invocation (labels : string * string) (m : Metrics) : Metrics :=
  mkMetrics (mt_api_requests m) (mt_api_errors m) (mt_up m)
    (<[labels := S (default 0 (mt_hook_invocations m !! labels))]> (mt_hook_invocations m))
    (mt_hook_decisions m) (mt_latency_samples m) (mt_denylist_entries m) (mt_denylist_last_synced m)
    (mt_denylist_stale m).
Definition metric_decision (outcome : string) (m : Metrics) : Metrics :=
  mkMetrics (mt_api_requests m) (mt_api_errors m) (mt_up m) (mt_hook_invocations m)
    (<[outcome := S (default 0 (mt_hook_decisions m !! outcome))]> (mt_hook_decisions m))
    (mt_latency_samples m) (mt_denylist_entries m) (mt_denylist_last_synced m) (mt_denylist_stale m).
Definition metric_latency (m : Metrics) : Metrics :=
  mkMetrics (mt_api_requests m) (mt_api_errors m) (mt_up m) (mt_hook_invocations m)
    (mt_hook_decisions m) (S (mt_latency_samples m)) (mt_denylist_entries m) (mt_denylist_last_synced m)
    (mt_denylist_stale m).
(** The three denylist gauges; the time is left alone when there is none. *)
Definition metric_denylist (c : DenylistCache) (stale : bool) (m : Metrics) : Metrics :=
  mkMetrics (mt_api_requests m) (mt_api_errors m) (mt_up m) (mt_hook_invocations m)
    (mt_hook_decisions m) (mt_latency_samples m) (length (dl_entries c))
    (match dl_synced_at_unix c with Some s => Some s | None => mt_denylist_last_synced m end) stale.

Definition metrics_new : Metrics := mkMetrics 0 0 false ∅ ∅ 0 0 None false.

(** The module and the outside. *)
Abbreviation St := (Ai * World)%type.

Definition bump (f : Metrics → Metrics) (s : St) : St := (set_metrics (f (ai_metrics s.1)) s.1, s.2).
Definition record_decision (outcome : string) (s : St) : St := bump (metric_decision outcome) s.

(** [call]: one request, counted, and counted again when it fails. *)
Definition call {A} (decode : string → result A string) (rq : Request) (s : St) : result A WaddleAiError * St :=
  let s := bump metric_requests s in
  let '(a, w) := s in
  let r := execute decode (w_server w (w_asked w) rq) in
  let s := (a, tick w) in
  (r, if is_ok r then s else bump metric_errors s).

Definition key_present (a : Ai) : bool := negb (bool_decide (ai_virtual_key a = "")).
Definition masked_key (a : Ai) : string := mask_secret (ai_virtual_key a).

Definition VIRTUAL_KEY_SECRET_KEY : string := "virtual_key".

Definition set_virtual_key (value : string) (s : St) : result unit ModuleError * St :=
  let '(a, w) := s in
  let '(r, w) := secret_set VIRTUAL_KEY_SECRET_KEY value w in
  match r with
  | Err err => (Err (mkModuleError ("store virtual key: " +:+ err)), (a, w))
  | Ok _ =>
      let '(r, w) := client_new (cf_base_url (ai_config a)) value w in
      match r with
      | Err err => (Err (mkModuleError ("rebuild WaddleAI client: " +:+ ai_error_text err)), (a, w))
      | Ok client => (Ok (), (set_key client value a, w))
      end
  end.

Definition AUTH_CACHE_TTL : Z := nanos 5.

(** A probe that takes too long is dropped before its failure is counted. *)
Definition fresh_probe (s : St) : AuthProbe * St :=
  let '(a, w) := s in
  let '(r, s) := if w_slow w (w_asked w) then (None, bump metric_requests (a, tick w))
                 else let '(r, s) := call decode_health (health_request (ai_client a)) s in (Some r, s) in
  let state := match r with
               | Some (Ok _) => AuthOk
               | Some (Err (Auth _ _)) => AuthUnauthorized
               | Some (Err _) => AuthUnreachable
               | None => AuthUnreachable
               end in
  let '(t, w) := now s.2 in
  let probe := mkAuthProbe state t in
  (probe, (set_probe probe s.1, w)).

Definition probe_auth (s : St) : AuthProbe * St :=
  let '(a, w) := s in
  match ai_last_probe a with
  | Some probe =>
      let '(t, w) := now w in
      if (pb_checked_at probe <=? t)%Z && (t - pb_checked_at probe <? AUTH_CACHE_TTL)%Z
      then (probe, (a, w))
      else fresh_probe (a, w)
  | None => fresh_probe s
  end.

(** ** The denylist on disk and from the server *)

Definition cache_load (path : Path) : eff Files.t Files.IoError DenylistCache := λ fs,
  let '(r, fs) := Files.read path fs in
  match r with
  | Ok "" => (Ok denylist_empty, fs)
  | Ok bytes => (map_err invalid_data (cache_from_slice bytes), fs)
  | Err err =>
      match Files.io_kind err with
      | Files.NotFound => (Ok denylist_empty, fs)
      | _ => (Err err, fs)
      end
  end.

Definition cache_save (path : Path) (cache : DenylistCache) : eff Files.t Files.IoError unit :=
  let! bytes := pure (map_err invalid_data (cache_to_vec_pretty cache)) in
  write_atomic hex path bytes.

(** A failure to save is logged; the copy in memory is replaced all the same. *)
Definition sync_denylist (s : St) : result DenylistCache WaddleAiError * St :=
  let '(r, s) := call decode_denylist (denylist_request (ai_client s.1)) s in
  match r with
  | Err err => (Err err, s)
  | Ok response =>
      let '(a, w) := s in
      let '(t, w) := now w in
      let cache := record_sync (ai_denylist a) (dr_version response) (dr_entries response) t in
      let '(saved, fs) := cache_save (ai_denylist_path a) cache (w_fs w) in
      let w := set_fs fs w in
      let w := if is_ok saved then w else log "failed to persist denylist cache to disk" w in
      let s := bump (metric_denylist cache false) (a, w) in
      (Ok cache, (set_denylist cache s.1, s.2))
  end.

(** One round of the background task. *)
Definition sync_round (warning : string) (s : St) : St :=
  let '(r, s) := sync_denylist s in
  if is_ok r then s else (s.1, log warning s.2).

(** ** Deciding *)

Definition evaluate_hook_event (ecosystem : Ecosystem) (event : string) (payload : Value) (s : St) :
    HookOutcome * St :=
  let s := bump (metric_invocation (eco_as_str ecosystem, event)) s in
  let '(r, s) := call decode_evaluate
                   (event_request (ai_client s.1) (eco_as_str ecosystem) event payload) s in
  match r with
  | Ok response =>
      if decide (ev_decision response = "allow") then
        (Allow (ev_reason response), record_decision "allow" s)
      else
        let reason := if decide (ev_reason response = "") then "denied by WaddleAI"
                      else ev_reason response in
        (Deny reason Live, record_decision "deny" s)
  | Err _ =>
      let subject := v ← get payload "subject"; as_str v in
      let cache := ai_denylist s.1 in
      if (match subject with Some subject => denylist_contains cache subject | None => false end) then
        (Deny "subject matches the cached Tier-1 denylist" CachedDenylist, record_decision "deny" s)
      else
        (Unavailable "WaddleAI is unreachable and the subject is not on the cached denylist",
         record_decision "unavailable" s)
  end.

(** ** Shims and life cycle *)

  (** [dirs::home_dir], [dirs::config_dir] and [Path::new]. *)
  Context (home_dir config_dir : option Path) (to_path : string → Path) (is_utf8 : string → bool).

Abbreviation real_shim := (shim_for home_dir config_dir None).

(** The error's text; the merge of a real shim never panics. *)
Definition stop_text (e : Stop) : string :=
  match e with Returns e => shim_error_text e | Panics m => m end.

Definition on_files {A} (m : Ai → eff Files.t Stop A) (s : St) : result A string * St :=
  let '(a, w) := s in
  let '(r, fs) := m a (w_fs w) in (map_err stop_text r, (a, set_fs fs w)).

Definition install_hook (ecosystem : Ecosystem) : St → result InstallReport string * St :=
  on_files (λ a, install hex (ai_hooks_backup_dir a) (real_shim ecosystem)).
Definition uninstall_hook (ecosystem : Ecosystem) : St → result UninstallReport string * St :=
  on_files (λ a, uninstall hex (ai_hooks_backup_dir a) (real_shim ecosystem)).
Definition hook_status (ecosystem : Ecosystem) : St → result ShimStatus string * St :=
  on_files (λ a, hooks_status (ai_hooks_backup_dir a) (real_shim ecosystem)).

(** [data_dir] and [raw] are the host's; registering the metrics may fail. *)
Definition init (data_dir : Path) (raw : string) (register : result unit string) (w : World) :
    result Ai ModuleError * World :=
  match (if decide (raw = "") then Ok config_default
         else map_err (λ err, mkModuleError ("parse waddleai config: " +:+ err)) (config_from_slice raw)) with
  | Err e => (Err e, w)
  | Ok cfg =>
    let '(r, w) := secret_get VIRTUAL_KEY_SECRET_KEY w in
    let virtual_key := match r with Ok bytes => utf8_lossy bytes | Err _ => "" end in
    let '(r, w) := client_new (cf_base_url cfg) virtual_key w in
    match r with
    | Err err => (Err (mkModuleError ("create WaddleAI client: " +:+ ai_error_text err)), w)
    | Ok client =>
      match register with
      | Err err => (Err (mkModuleError ("register metrics: " +:+ err)), w)
      | Ok _ =>
        let denylist_path := data_dir ++ ["denylist.json"] in
        let hooks_backup_dir := data_dir ++ ["hooks"] in
        let '(r, fs) := cache_load denylist_path (w_fs w) in
        let w := set_fs fs w in
        match r with
        | Err err => (Err (mkModuleError ("load denylist cache: " +:+ Files.io_text err)), w)
        | Ok denylist =>
          let '(t, w) := now w in
          let metrics := metric_denylist denylist (is_stale denylist t (nanos (cf_max_age_secs cfg))) metrics_new in
          (Ok (mkAi cfg metrics virtual_key client false None denylist denylist_path hooks_backup_dir false),
           log "waddleai module initialized" w)
        end
      end
    end
  end.

(** The enabled shims, in order; a failure is logged. *)
Fixpoint auto_install (l : list Ecosystem) (s : St) : St :=
  match l with
  | [] => s
  | ecosystem :: l =>
      if cf_hooks (ai_config s.1) ecosystem then
        let '(r, s) := install_hook ecosystem s in
        auto_install l (if is_ok r then s else (s.1, log "auto-install of hook shim failed" s.2))
      else auto_install l s
  end.

Definition start (s : St) : St :=
  if ai_running s.1 then s
  else
    let s := bump (metric_up true) (set_running true s.1, s.2) in
    let s := auto_install [Claude; Gemini; VsCode] s in
    (set_task true s.1, log "waddleai module started" s.2).

(** The task ends when it next looks at its cancellation. *)
Definition stop (s : St) : St :=
  if negb (ai_running s.1) then s
  else
    let s := (set_task false (set_running false s.1), s.2) in
    let s := bump (metric_up false) s in
    (s.1, log "waddleai module stopped" s.2).

(** The entry of one shim in the details of the status. *)
Fixpoint hook_details (l : list Ecosystem) (detail : gmap string string) (s : St) :
    gmap string string * St :=
  match l with
  | [] => (detail, s)
  | ecosystem :: l =>
      let '(r, s) := hook_status ecosystem s in
      let installed := match r with Ok st => ss_installed st | Err _ => false end in
      hook_details l (<["hook_" +:+ eco_as_str ecosystem := bool_text installed]> detail) s
  end.

Definition synced_text (c : DenylistCache) : string :=
  match dl_synced_at_unix c with Some secs => pretty secs | None => "never" end.

Definition status (s : St) : Status * St :=
  let state := if ai_running s.1 then Running else Stopped in
  let '(probe, s) := probe_auth s in
  let denylist := ai_denylist s.1 in
  let '(t, w) := now s.2 in
  let a := s.1 in
  let detail : gmap string string :=
    <["denylist_stale" := bool_text (is_stale denylist t (nanos (cf_max_age_secs (ai_config a))))]>
    (<["denylist_last_synced" := synced_text denylist]>
    (<["denylist_entries" := pretty (length (dl_entries denylist))]>
    (<["auth" := auth_as_str (pb_state probe)]>
    (<["key_present" := bool_text (key_present a)]>
    {["server" := cf_base_url (ai_config a)]})))) in
  let '(detail, s) := hook_details eco_all detail (a, w) in
  (mkStatus state detail, s).

Definition health (s : St) : HealthReport * St :=
  let '(probe, s) := probe_auth s in
  let denylist := ai_denylist s.1 in
  let '(level, message) :=
    match pb_state probe with
    | AuthOk => (LHealthy, "OK")
    | AuthUnauthorized => (LDegraded, "WaddleAI rejected the virtual key")
    | AuthUnreachable =>
        (LDegraded,
         if is_stale denylist (pb_checked_at probe) (nanos (cf_max_age_secs (ai_config s.1))) then
           "WaddleAI unreachable; cached Tier-1 denylist is stale, offline fail-closed coverage is degraded"
         else
           "WaddleAI unreachable; falling back to a fresh cached Tier-1 denylist (" +:+
             pretty (length (dl_entries denylist)) +:+ " entries)")
    end in
  (mkHealthReport level message (pb_checked_at probe), s).

(** ** Commands (commands.rs) *)

Definition bytes_of (s : string) : list Byte.byte := String.list_byte_of_string s.

Definition usage_result (message : string) : CommandResult := mkCommandResult message [] 1.
Definition unknown_command (name : string) : CommandResult :=
  usage_result ("waddleai: unknown command '" +:+ name +:+ "'").
Definition unknown_subcommand (name : string) : CommandResult :=
  usage_result ("Unknown subcommand: " +:+ name).

Definition json_requested (flags : gmap string string) : bool :=
  bool_decide (flags !! "json" = Some "true").

Definition success (as_json : bool) (text : string) (value : Value) : CommandResult :=
  mkCommandResult (if as_json then json_to_string_pretty value else text)
    (bytes_of (json_to_string value)) 0.

Definition parse_ecosystem (raw : string) : result Ecosystem CommandResult :=
  ok_or (eco_parse raw)
    (usage_result ("invalid ecosystem '" +:+ raw +:+ "': expected claude, gemini, or vscode")).

(** The details of a status by name; as JSON their order is unspecified. *)
Definition sorted_details (detail : gmap string string) : list (string * string) :=
  sort_by (λ x y, String.leb x.1 y.1) (map_to_list detail).

Definition cmd_status (as_json : bool) (s : St) : CommandResult * St :=
  let '(st, s) := status s in
  let entries := sorted_details (st_detail st) in
  let text := "State: " +:+ ModuleStateM.as_str (st_state st) +:+ String newline
    (foldr (λ kv t, "  " +:+ kv.1 +:+ ": " +:+ kv.2 +:+ String newline t) "" entries) in
  (success as_json text (JObject (map (λ kv, (kv.1, JString kv.2)) entries)), s).

Definition read_key_file (path : string) (fs : Files.t) : result string string * Files.t :=
  let '(r, fs) := Files.read (to_path path) fs in
  (match r with
   | Ok raw => if is_utf8 raw then Ok (strip_newline raw) else Err "stream did not contain valid UTF-8"
   | Err err => Err (Files.io_text err)
   end, fs).

Definition dquote : Ascii.ascii := Ascii.ascii_of_nat 34.

Definition no_key_text : string :=
  "no virtual key provided: pipe it on stdin (e.g. `echo " +:+ String dquote ("$KEY" +:+ String dquote
    " | penguin waddleai key set`) or pass --key-file <path>").

(** The value is taken from the file when one is named, else from [args]. *)
Definition key_set_value (flags : gmap string string) (args : list string) (s : St) :
    result string CommandResult * St :=
  let from_args := ok_or (head args) (usage_result no_key_text) in
  match flags !! "key-file" with
  | Some path =>
      if decide (path = "") then (from_args, s)
      else
        let '(r, fs) := read_key_file path (w_fs s.2) in
        (map_err (λ err, usage_result ("failed to read --key-file " +:+ path +:+ ": " +:+ err)) r,
         (s.1, set_fs fs s.2))
  | None => (from_args, s)
  end.

Definition key_set (flags : gmap string string) (args : list string) (as_json : bool) (s : St) :
    CommandResult * St :=
  let '(r, s) := key_set_value flags args s in
  match r with
  | Err result => (result, s)
  | Ok value =>
      if decide (value = "") then (usage_result "virtual key must not be empty", s)
      else
        let '(r, s) := set_virtual_key value s in
        (match r with
         | Ok _ => success as_json ("virtual key set: " +:+ masked_key s.1)
                     (JObject [("key", JString (masked_key s.1))])
         | Err err => usage_result ("failed to set virtual key: " +:+ me_message err)
         end, s)
  end.

Definition key_status (as_json : bool) (s : St) : CommandResult :=
  let present := key_present s.1 in
  let masked := masked_key s.1 in
  success as_json (if present then "virtual key set: " +:+ masked else "no virtual key set")
    (JObject [("key", JString masked); ("present", JBool present)]).

Definition dispatch_key (path : list string) (flags : gmap string string) (args : list string)
    (as_json : bool) (s : St) : CommandResult * St :=
  match path !! 1 with
  | Some sub =>
      if decide (sub = "set") then key_set flags args as_json s
      else if decide (sub = "status") then (key_status as_json s, s)
      else (unknown_subcommand sub, s)
  | None => (usage_result "Usage: waddleai key {set|status}", s)
  end.

(** The lines and rows of [hooks list]. *)
Fixpoint hook_rows (l : list Ecosystem) (s : St) : (list string * list Value) * St :=
  match l with
  | [] => (([], []), s)
  | ecosystem :: l =>
      let '(r, s) := hook_status ecosystem s in
      let '((ls, rows), s) := hook_rows l s in
      match r with
      | Ok st =>
          (((eco_as_str ecosystem +:+ ": " +:+ (if ss_installed st then "installed" else "not installed")
               +:+ " (" +:+ display (ss_target_path st) +:+ ")") :: ls,
            JObject [("ecosystem", JString (eco_as_str ecosystem));
                     ("target_path", JString (display (ss_target_path st)));
                     ("installed", JBool (ss_installed st))] :: rows), s)
      | Err err => (((eco_as_str ecosystem +:+ ": error (" +:+ err +:+ ")") :: ls, rows), s)
      end
  end.

Definition hooks_list (as_json : bool) (s : St) : CommandResult * St :=
  let '((ls, rows), s) := hook_rows eco_all s in
  (success as_json (join newline ls) (JArray rows), s).

Definition hooks_install (args : list string) (as_json : bool) (s : St) : CommandResult * St :=
  match head args with
  | None => (usage_result "Usage: waddleai hooks install <claude|gemini|vscode>", s)
  | Some raw =>
      match parse_ecosystem raw with
      | Err result => (result, s)
      | Ok ecosystem =>
          let '(r, s) := install_hook ecosystem s in
          (match r with
           | Ok report =>
               success as_json
                 (eco_as_str ecosystem +:+ " hook installed at " +:+ display (ir_target_path report))
                 (JObject [("ecosystem", JString (eco_as_str ecosystem));
                           ("freshly_installed", JBool (ir_freshly_installed report));
                           ("target_path", JString (display (ir_target_path report)))])
           | Err err => usage_result ("install failed: " +:+ err)
           end, s)
      end
  end.

Definition hooks_uninstall (args : list string) (as_json : bool) (s : St) : CommandResult * St :=
  match head args with
  | None => (usage_result "Usage: waddleai hooks uninstall <claude|gemini|vscode>", s)
  | Some raw =>
      match parse_ecosystem raw with
      | Err result => (result, s)
      | Ok ecosystem =>
          let '(r, s) := uninstall_hook ecosystem s in
          (match r with
           | Ok report =>
               success as_json
                 (eco_as_str ecosystem +:+ " hook uninstalled, " +:+ display (ur_target_path report)
                    +:+ " restored")
                 (JObject [("ecosystem", JString (eco_as_str ecosystem));
                           ("target_path", JString (display (ur_target_path report)))])
           | Err err => usage_result ("uninstall failed: " +:+ err)
           end, s)
      end
  end.

Definition dispatch_hooks (path : list string) (args : list string) (as_json : bool) (s : St) :
    CommandResult * St :=
  match path !! 1 with
  | Some sub =>
      if decide (sub = "list") then hooks_list as_json s
      else if decide (sub = "install") then hooks_install args as_json s
      else if decide (sub = "uninstall") then hooks_uninstall args as_json s
      else (unknown_subcommand sub, s)
  | None => (usage_result "Usage: waddleai hooks {list|install <ecosystem>|uninstall <ecosystem>}", s)
  end.

Definition cmd_denylist_sync (as_json : bool) (s : St) : CommandResult * St :=
  let '(r, s) := sync_denylist s in
  (match r with
   | Ok cache =>
       success as_json ("denylist synced: " +:+ pretty (length (dl_entries cache)) +:+ " entries")
         (JObject [("entries", JInt (Z.of_nat (length (dl_entries cache)))); ("version", JString (dl_version cache))])
   | Err err => usage_result ("denylist sync failed: " +:+ ai_error_text err)
   end, s).

Definition cmd_denylist_status (as_json : bool) (s : St) : CommandResult * St :=
  let cache := ai_denylist s.1 in
  let '(t, w) := now s.2 in
  let stale := is_stale cache t (nanos (cf_max_age_secs (ai_config s.1))) in
  let text := "entries: " +:+ pretty (length (dl_entries cache)) +:+ String newline
    ("last_synced: " +:+ synced_text cache +:+ String newline ("stale: " +:+ bool_text stale)) in
  (success as_json text
     (JObject [("entries", JInt (Z.of_nat (length (dl_entries cache)))); ("last_synced", JString (synced_text cache));
               ("stale", JBool stale); ("version", JString (dl_version cache))]), (s.1, w)).

Definition dispatch_denylist (path : list string) (as_json : bool) (s : St) : CommandResult * St :=
  match path !! 1 with
  | Some sub =>
      if decide (sub = "sync") then cmd_denylist_sync as_json s
      else if decide (sub = "status") then cmd_denylist_status as_json s
      else (unknown_subcommand sub, s)
  | None => (usage_result "Usage: waddleai denylist {sync|status}", s)
  end.

Definition source_text (source : DecisionSource) : string :=
  match source with Live => "live" | CachedDenylist => "cached_denylist" end.

(** The reply of [hook] and its exit code. *)
Definition hook_result (outcome : HookOutcome) : CommandResult :=
  let '(value, code) :=
    match outcome with
    | Allow reason => (JObject [("decision", JString "allow"); ("reason", JString reason)], 0%Z)
    | Deny reason source =>
        (JObject [("decision", JString "deny"); ("reason", JString reason);
                  ("source", JString (source_text source))], 1%Z)
    | Unavailable reason =>
        (JObject [("decision", JString "unavailable"); ("reason", JString reason)], 2%Z)
    end in
  mkCommandResult (json_to_string value) (bytes_of (json_to_string value)) code.

(** The ecosystem named by the payload, Claude when it names none. *)
Definition payload_ecosystem (payload : Value) : Ecosystem :=
  default Claude (v ← get payload "ecosystem"; e ← as_str v; eco_parse e).

Definition hook_command (path : list string) (args : list string) (s : St) : CommandResult * St :=
  match path !! 1 with
  | None =>
      (usage_result "Usage: waddleai hook {pre-tool-use|post-tool-use} (payload piped on stdin)", s)
  | Some event =>
      if negb (bool_decide (event ∈ HOOK_EVENTS)) then (unknown_subcommand event, s)
      else
        match head args with
        | None => (usage_result ("no payload provided on stdin for `waddleai hook " +:+ event +:+ "`"), s)
        | Some raw_payload =>
            match json_from_slice raw_payload with
            | Err err => (usage_result ("invalid JSON payload: " +:+ err), s)
            | Ok payload =>
                let '(outcome, s) := evaluate_hook_event (payload_ecosystem payload) event payload s in
                (hook_result outcome, bump metric_latency s)
            end
        end
  end.

Definition dispatch (path : list string) (flags : gmap string string) (args : list string) (s : St) :
    CommandResult * St :=
  match head path with
  | None => (usage_result "waddleai: no command specified", s)
  | Some command =>
      let as_json := json_requested flags in
      if decide (command = "status") then cmd_status as_json s
      else if decide (command = "key") then dispatch_key path flags args as_json s
      else if decide (command = "hooks") then dispatch_hooks path args as_json s
      else if decide (command = "denylist") then dispatch_denylist path as_json s
      else if decide (command = "hook") then hook_command path args s
      else (unknown_command command, s)
  end.

End Module_.

Abbreviation St := (Ai * World)%type.

(** ** The command tree *)

Definition json_flag : FlagSpec := mkFlagSpec "json" "" "Output as JSON" "false" FTBool.
Definition key_file_flag : FlagSpec :=
  mkFlagSpec "key-file" ""
    "Read the virtual key from this file's contents (the path itself is not secret)" "" FTString.

Definition command_tree : list CommandSpec :=
  [ mkCommandSpec "status" "status" "Show WaddleAI connectivity, auth, hook, and denylist status"
      [json_flag] [] false 0 0;
    mkCommandSpec "key" "key" "Manage the WaddleAI virtual key" []
      [ mkCommandSpec "set" "set" "Set the virtual key from stdin or --key-file (never a CLI argument)"
          [json_flag; key_file_flag] [] false 0 0;
        mkCommandSpec "status" "status" "Show whether a virtual key is set (masked hint only)"
          [json_flag] [] false 0 0 ] false 0 0;
    mkCommandSpec "hooks" "hooks" "Install, remove, and report on per-ecosystem hook shims" []
      [ mkCommandSpec "list" "list" "List every ecosystem shim and its install state"
          [json_flag] [] false 0 0;
        mkCommandSpec "install" "install <claude|gemini|vscode>"
          "Install a hook shim, merging into the ecosystem's own config" [json_flag] [] true 1 1;
        mkCommandSpec "uninstall" "uninstall <claude|gemini|vscode>"
          "Uninstall a hook shim, restoring the config byte-for-byte" [json_flag] [] true 1 1 ] false 0 0;
    mkCommandSpec "denylist" "denylist" "Manage the cached Tier-1 denylist snapshot" []
      [ mkCommandSpec "sync" "sync" "Fetch a fresh denylist snapshot from WaddleAI now"
          [json_flag] [] false 0 0;
        mkCommandSpec "status" "status" "Show the cached denylist's size and staleness"
          [json_flag] [] false 0 0 ] false 0 0;
    mkCommandSpec "hook" "hook" "Evaluate one normalized agent-hook event (invoked by installed shims)" []
      [ mkCommandSpec "pre-tool-use" "pre-tool-use"
          "Evaluate a pre-tool-use event (payload read from stdin)" [] [] false 0 0;
        mkCommandSpec "post-tool-use" "post-tool-use"
          "Evaluate a post-tool-use event (payload read from stdin)" [] [] false 0 0 ] false 0 0 ].
