(* ===== verification/AiProps.v ===== *)
(** * The AI hooks module: what it promises

    Tool calls are blocked unless the server allowed them; the denylist on disk
    survives crashes; the virtual key never reaches an output, a log line or a
    file; what the tray offers of this module. *)
From S2P Require Import Prelude.
From S2P Require Import Tray.
From S2P Require Import TrayClient.
From S2P Require Import HooksProps.
From S2P Require Import Text.
From S2P Require Import Json.
From S2P Require Import Mask.
From S2P Require Import Sdk.
From S2P Require Import Cli.
From S2P Require Import Hooks.
From S2P Require Import HooksFacts.
From S2P Require Import HooksProps.
From S2P Require Import AiModule.

Section Props.
  Context {Codec : AiCodec} (hex : Z → string) (home_dir config_dir : option Path)
    (to_path : string → Path) (is_utf8 : string → bool).
  Abbreviation dispatch := (dispatch hex home_dir config_dir to_path is_utf8).

(** ** Failing closed *)

(** What the server says to an event, in the state it is asked in. *)
Definition verdict (s : St) (event : string) (payload : Value) : result EvaluateResponse WaddleAiError :=
  execute decode_evaluate
    (w_server s.2 (w_asked s.2)
       (event_request (ai_client s.1) (eco_as_str (payload_ecosystem payload)) event payload)).

(** A well-formed invocation of [hook]. *)
Definition hook_asked (rest args : list string) (event : string) (payload : Value) : Prop :=
  head rest = Some event ∧ event ∈ HOOK_EVENTS ∧
  ∃ raw, head args = Some raw ∧ json_from_slice raw = Ok payload.

(** The denylist the module last got holds the payload's subject. *)
Definition denied_offline (a : Ai) (payload : Value) : Prop :=
  ∃ subject, get payload "subject" = Some (JString subject) ∧ subject ∈ dl_entries (ai_denylist a).

Lemma denylist_contains_spec c subject : denylist_contains c subject = true ↔ subject ∈ dl_entries c.
Proof.
  unfold denylist_contains. rewrite existsb_exists. setoid_rewrite bool_decide_eq_true.
  setoid_rewrite <- list_elem_of_In. naive_solver.
Qed.

Lemma evaluate_spec event payload s :
  let '(outcome, s') := evaluate_hook_event (payload_ecosystem payload) event payload s in
  match verdict s event payload with
  | Ok response =>
      if decide (ev_decision response = "allow") then outcome = Allow (ev_reason response)
      else ∃ reason, outcome = Deny reason Live
  | Err _ =>
      (denied_offline s.1 payload ∧ ∃ reason, outcome = Deny reason CachedDenylist) ∨
      (¬ denied_offline s.1 payload ∧ ∃ reason, outcome = Unavailable reason)
  end.
Proof.
  destruct s as [a w]. unfold evaluate_hook_event, call, bump, verdict. simpl.
  destruct (execute decode_evaluate _) as [response|err]; simpl.
  - destruct (decide _); [done|]. eauto.
  - assert (∀ b, (match (v ← get payload "subject"; as_str v) with
        | Some subject => denylist_contains (ai_denylist a) subject | None => false end) = b →
      b = true ↔ denied_offline a payload) as H.
    { intros b <-. unfold denied_offline. destruct (get payload "subject") as [[]|]; simpl;
        try (split; [done|]; naive_solver). rewrite denylist_contains_spec. naive_solver. }
    destruct (match (v ← get payload "subject"; as_str v) with Some _ => _ | None => _ end) eqn:E;
      specialize (H _ eq_refl); [left|right]; (split; [naive_solver|eauto]).
Qed.

(** C6: A tool call is let through, with exit code 0, exactly when the hook
    was invoked with a known event and a JSON payload and the server, asked
    about that very payload, answered with a 2xx reply that says allow.  When
    the server gives no usable answer the exit code is 1 if the payload's
    subject is on the cached denylist and 2 if not.  Any other invocation
    exits with 1 and is recorded nowhere. *)
Theorem hook_fails_closed (rest args : list string) (flags : gmap string string) (s : St) :
  let '(r, s') := dispatch ("hook" :: rest) flags args s in
  (cr_exit_code r = 0%Z ↔ ∃ event payload response, hook_asked rest args event payload ∧
     verdict s event payload = Ok response ∧ ev_decision response = "allow") ∧
  (∀ event payload e, hook_asked rest args event payload → verdict s event payload = Err e →
     (cr_exit_code r = 1%Z ∧ denied_offline s.1 payload) ∨
     (cr_exit_code r = 2%Z ∧ ¬ denied_offline s.1 payload)) ∧
  ((∀ event payload, ¬ hook_asked rest args event payload) → cr_exit_code r = 1%Z ∧ s' = s).
Proof.
  unfold AiModule.dispatch. simpl. unfold hook_command. simpl. rewrite <- head_lookup.
  assert (∀ event payload event' payload', hook_asked rest args event payload →
    hook_asked rest args event' payload' → event' = event ∧ payload' = payload) as Hdet.
  { intros e p e' p' (H1 & _ & r1 & H2 & H3) (H1' & _ & r1' & H2' & H3').
    assert (r1' = r1) as -> by congruence. split; congruence. }
  assert ((∀ event payload, ¬ hook_asked rest args event payload) →
    (1%Z = 0%Z ↔ ∃ event payload response, hook_asked rest args event payload ∧
       verdict s event payload = Ok response ∧ ev_decision response = "allow") ∧
    (∀ event payload e, hook_asked rest args event payload → verdict s event payload = Err e →
       (1%Z = 1%Z ∧ denied_offline s.1 payload) ∨ (1%Z = 2%Z ∧ ¬ denied_offline s.1 payload)) ∧
    ((∀ event payload, ¬ hook_asked rest args event payload) → 1%Z = 1%Z ∧ s = s)) as Hbad.
  { intros Hno. split; [split; [done|]; intros (ev & pl & re & H & _); by destruct (Hno ev pl)|].
    split; [|done]. intros ev pl e H. by destruct (Hno ev pl). }
  destruct (head rest) as [event|] eqn:Er; [|apply Hbad; intros ev pl (E & _); congruence].
  destruct (bool_decide_reflect (event ∈ HOOK_EVENTS)) as [He|He]; simpl;
    [|apply Hbad; intros ev pl (E & ? & _); congruence].
  destruct (head args) as [raw|] eqn:Ea; [|apply Hbad; intros ev pl (_ & _ & ? & E & _); congruence].
  destruct (json_from_slice raw) as [payload|err] eqn:Ej;
    [|apply Hbad; intros ev pl (_ & _ & ? & E & ?); congruence].
  assert (hook_asked rest args event payload) as Hask by (unfold hook_asked; eauto 10).
  pose proof (evaluate_spec event payload s) as Hev.
  destruct (evaluate_hook_event _ _ _ s) as [outcome s'].
  destruct (verdict s event payload) as [response|e] eqn:Ev.
  - split; [|split].
    + destruct (decide _) as [Hd|Hd]; [subst outcome|destruct Hev as [reason ->]]; simpl.
      * split; [intros _; eauto 10|done].
      * split; [done|]. intros (ev & pl & re & Hq & Hv & Hal). destruct (Hdet _ _ _ _ Hask Hq) as [-> ->].
        congruence.
    + intros ev pl e' Hq Hv. destruct (Hdet _ _ _ _ Hask Hq) as [-> ->]. congruence.
    + intros H. by destruct (H event payload).
  - split; [|split].
    + destruct Hev as [[_ [reason ->]]|[_ [reason ->]]]; simpl; (split; [done|]);
        intros (ev & pl & re & Hq & Hv & _); destruct (Hdet _ _ _ _ Hask Hq) as [-> ->]; congruence.
    + intros ev pl e' Hq _. destruct (Hdet _ _ _ _ Hask Hq) as [-> ->].
      destruct Hev as [[? [reason ->]]|[? [reason ->]]]; [left|right]; done.
    + intros H. by destruct (H event payload).
Qed.

(** ** A stale denylist *)

(** The age of the cached denylist plays no part in a decision.  When the
    server gives no usable answer and the subject is on the list, the hook
    denies with exit code 1 whenever the list was synced, or never; with an
    empty list, to which the module's comments liken a stale one, it exits
    with 2. *)
Theorem stale_denylist_still_denies (rest args : list string) (flags : gmap string string)
    (event : string) (payload : Value) (e : WaddleAiError) (a : Ai) (w : World) :
  hook_asked rest args event payload → verdict (a, w) event payload = Err e →
  denied_offline a payload →
  (∀ version synced,
    let a' := set_denylist (mkDenylist version (dl_entries (ai_denylist a)) synced) a in
    cr_exit_code (dispatch ("hook" :: rest) flags args (a', w)).1 = 1%Z) ∧
  cr_exit_code (dispatch ("hook" :: rest) flags args (set_denylist denylist_empty a, w)).1 = 2%Z.
Proof.
  intros (Er & He & raw & Ea & Ej) Hv Hd.
  assert (∀ c, let s := (set_denylist c a, w) in
    cr_exit_code (dispatch ("hook" :: rest) flags args s).1 =
      if decide (denylist_contains c (default "" (v ← get payload "subject"; as_str v)) = true) then 1%Z else 2%Z) as H.
  { intros c. unfold AiModule.dispatch, hook_command. simpl. rewrite <- head_lookup, Er.
    rewrite bool_decide_eq_true_2 by done. simpl. rewrite Ea, Ej.
    pose proof (evaluate_spec event payload (set_denylist c a, w)) as Hev.
    destruct (evaluate_hook_event _ _ _ _) as [outcome s'].
    change (verdict (set_denylist c a, w) event payload) with (verdict (a, w) event payload) in Hev.
    rewrite Hv in Hev. destruct Hd as (subject & Hs & _). rewrite Hs. simpl.
    destruct Hev as [[(s1 & E1 & Hin) [reason ->]]|[Hno [reason ->]]]; simpl.
    - rewrite decide_True; [done|]. apply denylist_contains_spec. by replace subject with s1 by congruence.
    - rewrite decide_False; [done|]. rewrite denylist_contains_spec. intros Hin. apply Hno. by exists subject. }
  simpl in H. destruct Hd as (subject & Hs & Hin). rewrite Hs in H. split.
  - intros version synced a'. unfold a'. rewrite H, decide_True; [done|]. by apply denylist_contains_spec.
  - rewrite H, decide_False; [done|]. rewrite denylist_contains_spec. apply not_elem_of_nil.
Qed.

(** ** The virtual key stays inside *)

Definition rekey (k : string) (a : Ai) : Ai :=
  mkAi (ai_config a) (ai_metrics a) k (mkClient (cl_base_url (ai_client a)) k) (ai_running a)
    (ai_last_probe a) (ai_denylist a) (ai_denylist_path a) (ai_hooks_backup_dir a) (ai_sync_task a).

(** The server's answers do not depend on the key they are asked with. *)
Definition blind (w : World) : Prop :=
  ∀ n m u b b' body, w_server w n (mkRequest m u b body) = w_server w n (mkRequest m u b' body).

(** [f] does the same whichever of two keys the module has, when they show
    the same mask. *)
Definition keyless {A : Type} (f : St → A * St) : Prop :=
  ∀ k a w, blind w → mask_secret k = mask_secret (ai_virtual_key a) →
    f (rekey k a, w) = ((f (a, w)).1, (rekey k (f (a, w)).2.1, (f (a, w)).2.2)) ∧
    blind (f (a, w)).2.2 ∧ ai_virtual_key (f (a, w)).2.1 = ai_virtual_key a.

(** Sequencing and case analysis. *)
Lemma keyless_bind {A B : Type} (f : St → A * St) (g : A → St → B * St) :
  keyless f → (∀ x, keyless (g x)) → keyless (λ s, let '(x, s) := f s in g x s).
Proof.
  intros Hf Hg k a w Hb Hm. destruct (Hf k a w Hb Hm) as (-> & Hb' & Hk').
  destruct (f (a, w)) as [x [a1 w1]]. simpl in *. rewrite <- Hk' in Hm |- *. apply Hg; done.
Qed.

Lemma keyless_look {A : Type} (g : St → A) :
  (∀ k a w, mask_secret k = mask_secret (ai_virtual_key a) → g (rekey k a, w) = g (a, w)) →
  keyless (λ s, (g s, s)).
Proof. intros H k a w Hb Hm. simpl. by rewrite H. Qed.

Lemma keyless_ret {A : Type} (x : A) : keyless (λ s, (x, s)).
Proof. by apply (keyless_look (λ _, x)). Qed.

(** Changes of the metrics and of the outside that ask nobody. *)
Lemma keyless_step {A : Type} (x : Ai → World → A) (f : Ai → World → Ai) (g : Ai → World → World) :
  (∀ k a w, x (rekey k a) w = x a w) → (∀ k a w, f (rekey k a) w = rekey k (f a w)) →
  (∀ a w, ai_virtual_key (f a w) = ai_virtual_key a) →
  (∀ k a w, g (rekey k a) w = g a w) → (∀ a w, w_server (g a w) = w_server w) →
  keyless (λ s, (x s.1 s.2, (f s.1 s.2, g s.1 s.2))).
Proof.
  intros Hx Hf Hk Hg Hs k a w Hb Hm. simpl. rewrite Hx, Hf, Hg. split_and!; [done| |done].
  unfold blind. by rewrite Hs.
Qed.

Lemma keyless_ext {A : Type} (f g : St → A * St) : (∀ s, f s = g s) → keyless f → keyless g.
Proof. intros H Hf k a w. rewrite <- !H. apply Hf. Qed.

Lemma keyless_call {A : Type} (decode : string → result A string) (rq : Client → Request) :
  (∀ c k, rq (mkClient (cl_base_url c) k) =
    mkRequest (rq_method (rq c)) (rq_url (rq c)) k (rq_body (rq c))) →
  keyless (λ s, call decode (rq (ai_client s.1)) s).
Proof.
  intros Hrq k a w Hb Hm. unfold call, bump. simpl. rewrite Hrq.
  assert (w_server w (w_asked w) (mkRequest (rq_method (rq (ai_client a))) (rq_url (rq (ai_client a))) k
    (rq_body (rq (ai_client a)))) = w_server w (w_asked w) (rq (ai_client a))) as ->.
  { destruct (rq (ai_client a)). apply Hb. }
  by destruct (execute decode _).
Qed.

Lemma keyless_fresh_probe : keyless fresh_probe.
Proof.
  intros k a w Hb Hm. unfold fresh_probe.
  destruct (keyless_call decode_health health_request (λ _ _, eq_refl) k a w Hb Hm) as (Hc & Hb' & Hk').
  cbn [fst] in Hc, Hb', Hk'. cbv beta iota. destruct (w_slow w (w_asked w)); [done|]. rewrite Hc.
  destruct (call decode_health (health_request (ai_client a)) (a, w)) as [r [a1 w1]].
  simpl in *. split_and!; [done| |done]. exact Hb'.
Qed.

Lemma keyless_probe_auth : keyless probe_auth.
Proof.
  intros k a w Hb Hm. unfold probe_auth. simpl.
  destruct (ai_last_probe a) as [probe|]; [|by apply keyless_fresh_probe].
  destruct (_ && _); [done|]. by apply (keyless_fresh_probe k a (tick w)).
Qed.

Lemma keyless_sync_denylist : keyless (sync_denylist hex).
Proof.
  intros k a w Hb Hm. unfold sync_denylist.
  destruct (keyless_call decode_denylist denylist_request (λ _ _, eq_refl) k a w Hb Hm) as (Hc & Hb' & Hk').
  cbn [fst] in Hc, Hb', Hk' |- *. rewrite Hc.
  destruct (call decode_denylist (denylist_request (ai_client a)) (a, w)) as [[response|e] [a1 w1]];
    [|done]. simpl in *.
  destruct (cache_save hex _ _ (w_fs w1)) as [saved fs]. simpl. split_and!; [done| |done].
  by destruct (is_ok saved).
Qed.

Lemma keyless_evaluate ecosystem event payload : keyless (evaluate_hook_event ecosystem event payload).
Proof.
  intros k a w Hb Hm. unfold evaluate_hook_event.
  set (a0 := set_metrics (metric_invocation (eco_as_str ecosystem, event) (ai_metrics a)) a).
  destruct (keyless_call decode_evaluate (λ c, event_request c (eco_as_str ecosystem) event payload)
    (λ _ _, eq_refl) k a0 w Hb Hm) as (Hc & Hb' & Hk').
  unfold bump. cbn [fst snd] in Hc, Hb', Hk' |- *. fold a0.
  change (set_metrics (metric_invocation (eco_as_str ecosystem, event) (ai_metrics (rekey k a))) (rekey k a))
    with (rekey k a0). rewrite Hc.
  destruct (call decode_evaluate _ (a0, w)) as [[response|e] [a1 w1]]; simpl in *.
  - by destruct (decide _).
  - by destruct (match (v ← get payload "subject"; as_str v) with Some _ => _ | None => _ end).
Qed.

Lemma keyless_on_files {A : Type} (m : Ai → eff Files.t Stop A) :
  (∀ k a, m (rekey k a) = m a) → keyless (on_files m).
Proof.
  intros H k a w Hb Hm. unfold on_files. rewrite H. by destruct (m a (w_fs w)).
Qed.

Abbreviation hook_status := (hook_status home_dir config_dir).

Lemma keyless_hook_status ecosystem : keyless (hook_status ecosystem).
Proof. by apply keyless_on_files. Qed.

Lemma keyless_hook_details l detail : keyless (hook_details home_dir config_dir l detail).
Proof.
  revert detail. induction l as [|e l IH]; intros detail; [apply keyless_ret|]. simpl.
  apply (keyless_bind (hook_status e)); [apply keyless_hook_status|]. intros r. apply IH.
Qed.

Lemma keyless_hook_rows l : keyless (hook_rows home_dir config_dir l).
Proof.
  induction l as [|e l IH]; [apply keyless_ret|]. simpl.
  apply (keyless_bind (hook_status e)); [apply keyless_hook_status|]. intros r k a w Hb Hm.
  destruct (IH k a w Hb Hm) as (-> & Hb' & Hk').
  destruct (hook_rows home_dir config_dir l (a, w)) as [[ls rows] [a1 w1]]. by destruct r.
Qed.

Lemma mask_empty v : mask_secret v = "" → v = "".
Proof. unfold mask_secret. destruct (decide (v = "")) as [|]; [done|]. by destruct (chars_count v <=? 4). Qed.

Lemma key_present_rekey k a :
  mask_secret k = mask_secret (ai_virtual_key a) → key_present (rekey k a) = key_present a.
Proof.
  intros Hm. unfold key_present. simpl. f_equal. apply bool_decide_ext.
  split; intros E; apply mask_empty; [rewrite <- Hm, E|rewrite Hm, E]; done.
Qed.

Lemma keyless_status : keyless (status home_dir config_dir).
Proof.
  intros k a w Hb Hm. unfold status.
  destruct (keyless_probe_auth k a w Hb Hm) as (-> & Hb1 & Hk1).
  destruct (probe_auth (a, w)) as [probe [a1 w1]]. cbn [fst snd] in *. rewrite <- Hk1 in Hm |- *.
  cbn [now fst snd]. rewrite (key_present_rekey k a1 Hm).
  match goal with |- context [hook_details _ _ _ ?d _] =>
    destruct (keyless_hook_details eco_all d k a1 (tick w1) Hb1 Hm) as (E & Hb2 & Hk2) end.
  cbn [ai_config ai_denylist rekey] in E |- *. rewrite E.
  by destruct (hook_details _ _ _ _ (a1, tick w1)) as [d [a2 w2]].
Qed.

(** A result computed from what was found and the state it left. *)
Lemma keyless_map {A B : Type} (f : St → A * St) (h : A → B) :
  keyless f → keyless (λ s, let '(x, s) := f s in (h x, s)).
Proof. intros Hf. apply (keyless_bind f (λ x s, (h x, s)) Hf). intros x. apply keyless_ret. Qed.

Lemma keyless_hook_command path args : keyless (hook_command path args).
Proof.
  unfold hook_command. destruct (path !! 1) as [event|]; [|apply keyless_ret].
  destruct (negb _); [apply keyless_ret|]. destruct (head args) as [raw|]; [|apply keyless_ret].
  destruct (json_from_slice raw) as [payload|]; [|apply keyless_ret].
  apply (keyless_bind _ (λ o s, (hook_result o, bump metric_latency s)) (keyless_evaluate _ _ _)).
  intros o k a w Hb Hm. done.
Qed.

Lemma keyless_dispatch_hooks path args as_json : keyless (dispatch_hooks hex home_dir config_dir path args as_json).
Proof.
  unfold dispatch_hooks. destruct (path !! 1) as [sub|]; [|apply keyless_ret].
  destruct (decide _); [|destruct (decide _); [|destruct (decide _); [|apply keyless_ret]]].
  - apply (keyless_ext (λ s, let '(x, s) := hook_rows home_dir config_dir eco_all s in
      (success as_json (join newline x.1) (JArray x.2), s))); [|apply keyless_map, keyless_hook_rows].
    intros s. unfold hooks_list. by destruct (hook_rows _ _ _ s) as [[ls rows] s'].
  - unfold hooks_install. destruct (head args) as [raw|]; [|apply keyless_ret].
    destruct (parse_ecosystem raw) as [eco|]; [|apply keyless_ret].
    apply (keyless_bind (install_hook hex home_dir config_dir eco)); [by apply keyless_on_files|].
    intros r. apply keyless_ret.
  - unfold hooks_uninstall. destruct (head args) as [raw|]; [|apply keyless_ret].
    destruct (parse_ecosystem raw) as [eco|]; [|apply keyless_ret].
    apply (keyless_bind (uninstall_hook hex home_dir config_dir eco)); [by apply keyless_on_files|].
    intros r. apply keyless_ret.
Qed.

Lemma keyless_dispatch_denylist path as_json : keyless (dispatch_denylist hex path as_json).
Proof.
  unfold dispatch_denylist. destruct (path !! 1) as [sub|]; [|apply keyless_ret].
  destruct (decide _); [|destruct (decide _); [|apply keyless_ret]].
  - apply (keyless_bind (sync_denylist hex)); [apply keyless_sync_denylist|]. intros r. apply keyless_ret.
  - by intros k a w Hb Hm.
Qed.

(** [key set] ends with the same key, or with each its own. *)
Lemma key_set_rekey flags args as_json k a w :
  mask_secret k = mask_secret (ai_virtual_key a) →
  let '(r1, s1) := key_set to_path is_utf8 flags args as_json (a, w) in
  let '(r2, s2) := key_set to_path is_utf8 flags args as_json (rekey k a, w) in
  r2 = r1 ∧ s2.2 = s1.2 ∧ (s2.1 = rekey k s1.1 ∨ s2.1 = s1.1).
Proof.
  intros Hm. unfold key_set.
  assert (∃ x w', key_set_value to_path is_utf8 flags args (a, w) = (x, (a, w')) ∧
    key_set_value to_path is_utf8 flags args (rekey k a, w) = (x, (rekey k a, w'))) as (x & w' & -> & ->).
  { unfold key_set_value. simpl. destruct (flags !! "key-file") as [path|]; [|eauto].
    destruct (decide (path = "")); [eauto|]. destruct (read_key_file _ _ path (w_fs w)) as [r fs]. eauto. }
  destruct x as [value|]; [|by auto]. destruct (decide (value = "")); [by auto|].
  unfold set_virtual_key. destruct (secret_set VIRTUAL_KEY_SECRET_KEY value w') as [[[]|] w1]; [|by auto].
  cbn [ai_config rekey]. destruct (client_new (cf_base_url (ai_config a)) value w1) as [[client|] w2]; by auto.
Qed.

(** Every command but [key set] works without the key. *)
Lemma dispatch_keyless path flags args :
  keyless (dispatch path flags args) ∨
  ∀ s, dispatch path flags args s = key_set to_path is_utf8 flags args (json_requested flags) s.
Proof.
  unfold AiModule.dispatch. destruct (head path) as [command|]; [|left; apply keyless_ret].
  destruct (decide _).
  { left. unfold cmd_status. apply (keyless_bind (status home_dir config_dir)); [apply keyless_status|].
    intros st. apply keyless_ret. }
  destruct (decide _).
  { unfold dispatch_key. destruct (path !! 1) as [sub|]; [|left; apply keyless_ret].
    destruct (decide _); [by right|left]. destruct (decide _); [|apply keyless_ret].
    apply (keyless_look (key_status _)). intros k' a' w' Hm'. unfold key_status, masked_key. simpl.
    by rewrite (key_present_rekey k' a' Hm'), Hm'. }
  left. destruct (decide _); [apply keyless_dispatch_hooks|].
  destruct (decide _); [apply keyless_dispatch_denylist|].
  destruct (decide _); [apply keyless_hook_command|apply keyless_ret].
Qed.

(** The virtual key never reaches the outside through a command.  Take two
    modules alike but for their keys, of which the masked forms agree, and a
    server that answers both alike: whatever command is run, both return the
    same output, JSON and exit code, write the same files and log lines and
    store the same secrets, and end alike but for their keys again, or, after
    a new key was set, entirely alike. *)
Theorem key_never_shown (path args : list string) (flags : gmap string string) (k : string) (a : Ai) (w : World) :
  blind w → mask_secret k = mask_secret (ai_virtual_key a) →
  let '(r1, s1) := dispatch path flags args (a, w) in
  let '(r2, s2) := dispatch path flags args (rekey k a, w) in
  r2 = r1 ∧ s2.2 = s1.2 ∧ (s2.1 = rekey k s1.1 ∨ s2.1 = s1.1).
Proof.
  intros Hb Hm. destruct (dispatch_keyless path flags args) as [Hk|Hk].
  - destruct (Hk k a w Hb Hm) as [-> _]. destruct (dispatch path flags args (a, w)) as [r [a1 w1]]. by auto.
  - rewrite !Hk. by apply key_set_rekey.
Qed.

(** ** The denylist on disk *)

(** What [cache_load] makes of the files. *)
Definition disk_denylist (path : Path) (d : Files.disk) : result DenylistCache string :=
  match Files.f_data <$> d !! path with
  | None | Some "" => Ok denylist_empty
  | Some bytes => cache_from_slice bytes
  end.

Lemma cache_load_reliable path fs : reliable fs →
  ∃ fs', cache_load path fs =
    (map_err invalid_data (disk_denylist path (Files.files fs)), fs').
Proof.
  intros [Hf Hq]. unfold cache_load, Files.read, Files.call, Files.next. rewrite Hf. simpl.
  unfold disk_denylist. destruct (Files.files fs !! path) as [[mode [|c s]]|]; simpl; eauto.
Qed.

(** The module starts with the denylist that is on disk. *)
Lemma init_loads data_dir raw register w a w' :
  init data_dir raw register w = (Ok a, w') → reliable (w_fs w) →
  disk_denylist (data_dir ++ ["denylist.json"]) (Files.files (w_fs w)) = Ok (ai_denylist a).
Proof.
  unfold init. intros H Hr. destruct (if decide (raw = "") then _ else _) as [cfg|]; [|done].
  unfold secret_get, client_new in H. cbn [w_setup tick w_asked w_fs] in H.
  destruct (w_setup w _); [done|]. destruct register; [|done].
  destruct (cache_load_reliable (data_dir ++ ["denylist.json"]) (w_fs w) Hr) as [fs' E].
  cbn [w_fs tick] in H. rewrite E in H.
  destruct (disk_denylist _ _) as [c|]; [|done]. cbn in H. by simplify_eq/=.
Qed.

Lemma same_denylist path d d' : ¬ is_tmp path → same d d' → disk_denylist path d' = disk_denylist path d.
Proof. intros Hp Hs. unfold disk_denylist. by rewrite (Hs path Hp). Qed.

(** Saving replaces the cache file as a whole or not at all, at any moment. *)
Lemma cache_save_spec path cache d0 : ¬ is_tmp path →
  triple (same d0) (cache_save hex path cache)
    (λ r d, if is_ok r then disk_denylist path d = Ok cache else disk_denylist path d = disk_denylist path d0)
    (λ d, disk_denylist path d = disk_denylist path d0 ∨ disk_denylist path d = Ok cache).
Proof.
  intros Hp. unfold cache_save.
  eapply (triple_bind _ _ (λ r d, same d0 d ∧ ∀ b, r = Ok b → cache_to_vec_pretty cache = Ok b)).
  - apply triple_pure. intros d Hd. split; [done|].
    destruct (cache_to_vec_pretty cache); [|done]. by intros ? [= <-].
  - intros bytes. apply triple_fact. intros Hb. specialize (Hb bytes eq_refl).
    destruct (cache_round_trip _ _ Hb) as [Hne Hrt].
    assert (∀ d, same (<[path := replacement d0 path bytes]> d0) d → disk_denylist path d = Ok cache) as Hnew.
    { intros d Hd. rewrite (same_denylist _ _ _ Hp Hd). unfold disk_denylist. rewrite lookup_insert_eq. simpl.
      by destruct bytes. }
    eapply triple_conseq; [apply (write_atomic_spec hex d0
      (λ d, disk_denylist path d = disk_denylist path d0 ∨ disk_denylist path d = Ok cache))|
      intros d H; exact H| |intros d H; exact H].
    + intros d Hd. left. by apply same_denylist.
    + done.
    + intros d Hd. right. by apply Hnew.
    + intros [[]|e] d Hd; simpl; [by apply Hnew|by apply same_denylist].
  - intros e d [Hd _]. by apply same_denylist.
Qed.

(** The file system of a call's state, at its end and at every moment since. *)
Definition since (w w' : World) : list Files.disk :=
  Files.files (w_fs w') :: drop (length (Files.seen (w_fs w))) (Files.seen (w_fs w')).

(** A denylist sync is crash safe and its effect survives a restart.  A
    sync that fails changes neither the denylist in memory nor any file.  One
    that succeeds puts exactly the entries the server sent into memory, and a
    module that starts from the disk of any moment during the sync, whatever
    calls failed, has the denylist that was on disk before or the new one; it
    has the new one when the sync ran to its end without logging a failure to
    save. *)
Theorem denylist_sync_survives_restart (a : Ai) (w : World) (data_dir : Path) (d : Files.disk)
    (raw : string) (register : result unit string) (w2 w3 : World) (a2 : Ai) :
  ai_denylist_path a = data_dir ++ ["denylist.json"] → quiet (w_fs w) →
  init data_dir raw register w2 = (Ok a2, w3) → reliable (w_fs w2) → Files.files (w_fs w2) = d →
  let '(r, s') := sync_denylist hex (a, w) in
  match r with
  | Err _ => ai_denylist s'.1 = ai_denylist a ∧ w_fs s'.2 = w_fs w
  | Ok cache =>
      ai_denylist s'.1 = cache ∧
      (∃ response, execute decode_denylist (w_server w (w_asked w) (denylist_request (ai_client a))) = Ok response ∧
         dl_entries cache = dr_entries response) ∧
      (d ∈ since w s'.2 → Ok (ai_denylist a2) = disk_denylist (ai_denylist_path a) (Files.files (w_fs w)) ∨
                           ai_denylist a2 = cache) ∧
      (d = Files.files (w_fs s'.2) → w_log s'.2 = w_log w → ai_denylist a2 = cache)
  end.
Proof.
  intros Hpath Hq Hinit Hr2 Hd2.
  assert (disk_denylist (ai_denylist_path a) d = Ok (ai_denylist a2)) as Hload.
  { rewrite Hpath, <- Hd2. by eapply init_loads. }
  assert (¬ is_tmp (ai_denylist_path a)) as Hp by (rewrite Hpath; by apply not_tmp).
  unfold sync_denylist, call, bump. cbn [fst snd].
  destruct (execute decode_denylist _) as [response|e] eqn:Ev; [|done]. cbn -[cache_save].
  set (cache := record_sync _ _ _ _).
  pose proof (cache_save_spec (ai_denylist_path a) cache (Files.files (w_fs w)) Hp (w_fs w) Hq ltac:(reflexivity)) as Hs.
  destruct (cache_save hex (ai_denylist_path a) cache (w_fs w)) as [saved fs]. destruct Hs as (_ & Hpost & ext & Hseen & Hext).
  assert (∀ P : Files.disk → Prop, P (Files.files fs) → Forall P ext → ∀ s', w_fs s' = fs → ∀ d', d' ∈ since w s' → P d') as Hsince.
  { intros P H1 H2 s' Es d'. unfold since. rewrite Es, Hseen, drop_app_length.
    intros [->|Hin]%elem_of_cons; [done|]. by eapply Forall_forall. }
  split_and!; [done|by exists response| |].
  - intros Hin. eapply (Hsince (λ d, disk_denylist (ai_denylist_path a) d = disk_denylist (ai_denylist_path a) (Files.files (w_fs w)) ∨
      disk_denylist (ai_denylist_path a) d = Ok cache)) in Hin; [|by destruct (is_ok saved); auto|done|by destruct (is_ok saved)].
    rewrite Hload in Hin. destruct Hin as [Hin|[= ->]]; auto.
  - intros Ed Hlog. destruct (is_ok saved) eqn:Eok.
    + cbn in Ed. subst d. cbn in *. rewrite Ed in Hload. congruence.
    + cbn in Hlog. apply (f_equal length) in Hlog. rewrite length_app in Hlog. simpl in Hlog. lia.
Qed.

(** ** Setting the key from standard input *)

Lemma strip_newline_snoc s : strip_newline (s +:+ String newline "") = s.
Proof.
  induction s as [|c s IH]; [done|]. rewrite string_app_cons.
  assert (∃ c' t, s +:+ String newline "" = String c' t) as (c' & t & E).
  { destruct s as [|c' s]; eexists _, _; [done|]. by rewrite string_app_cons. }
  rewrite E in *. cbn [strip_newline] in *. by rewrite IH.
Qed.

(** A key piped into [key set], with the newline a shell adds, is the key the
    module stores and uses from then on; the reply shows its mask. *)
Theorem piped_key_takes_effect (key : string) (a : Ai) (w : World) :
  key ≠ "" → w_secret_fault w (w_asked w) = None → w_setup w (S (w_asked w)) = None →
  let '(r, (a', w')) := dispatch ["key"; "set"] ∅
                          (apply_stdin_fallback [] (Some (key +:+ String newline ""))) (a, w) in
  cr_output r = "virtual key set: " +:+ mask_secret key ∧ cr_exit_code r = 0%Z ∧
  ai_virtual_key a' = key ∧ cl_virtual_key (ai_client a') = key ∧ ai_last_probe a' = None ∧
  w_secrets w' = <["virtual_key" := key]> (w_secrets w) ∧
  (∀ data_dir raw register w2 a2 w3, w_secrets w2 = w_secrets w' → w_secret_fault w2 (w_asked w2) = None →
     init data_dir raw register w2 = (Ok a2, w3) → ai_virtual_key a2 = utf8_lossy key).
Proof.
  intros Hk Hs Hc.
  assert (apply_stdin_fallback [] (Some (key +:+ String newline "")) = [key]) as ->.
  { unfold apply_stdin_fallback. rewrite decide_False; [by rewrite strip_newline_snoc|]. by destruct key. }
  change (dispatch ["key"; "set"] ∅ [key] (a, w)) with (key_set to_path is_utf8 ∅ [key] false (a, w)).
  unfold key_set. change (key_set_value to_path is_utf8 ∅ [key] (a, w)) with (Ok (E := CommandResult) key, (a, w)).
  cbv beta iota. rewrite decide_False by done. unfold set_virtual_key, secret_set, client_new.
  rewrite Hs. cbn [w_setup w_asked tick set_secrets]. rewrite Hc. split_and!; [done..|].
  intros data_dir raw register w2 a2 w3 Hsec Hf2 Hi. unfold init in Hi.
  destruct (if decide (raw = "") then _ else _) as [cfg|]; [|done].
  unfold secret_get, client_new in Hi. rewrite Hf2, Hsec in Hi. cbn in Hi. rewrite lookup_insert_eq in Hi. cbn in Hi.
  destruct (w_setup w2 _); [done|]. destruct register; [|done].
  destruct (cache_load _ _) as [[c|] fs]; [|done]. by simplify_eq/=.
Qed.
End Props.

(** ** The AI hooks module: concrete runs, and its rows in the tray

    What the tray offers of this module, and one module with one server on
    which the theorems of [AiProps] are applied. *)

(** ** In the tray *)

Section InTheTray.
  Context {Codec : AiCodec} (hex : Z → string) (home_dir config_dir : option Path)
    (to_path : string → Path) (is_utf8 : string → bool).

(** The commands the tray offers of this module. *)
Definition offered (module : string) : list Action :=
  flat_map (λ c, match tray_item module [] c with Some i => actions i | None => [] end) command_tree.

(** What a click on [action] does to the module. *)
Definition clicked (action : Action) (s : St) : CommandResult * St :=
  match action_to_request action with
  | RequestDispatch r =>
      dispatch hex home_dir config_dir to_path is_utf8 (dr_path r) (dr_flags r) (dr_args r) s
  | _ => (usage_result "", s)
  end.

(** Of this module the tray offers installing and uninstalling a hook
    shim, and nothing else; but a click sends no argument and both commands
    need one, so that every click ends in a usage error and does nothing. *)
Theorem tray_entries_never_work (module : string) (s : St) :
  offered module = [Dispatch module ["hooks"; "install"]; Dispatch module ["hooks"; "uninstall"]] ∧
  ∀ action, action ∈ offered module →
    let '(r, s') := clicked action s in cr_exit_code r = 1%Z ∧ s' = s.
Proof.
  assert (offered module = [Dispatch module ["hooks"; "install"]; Dispatch module ["hooks"; "uninstall"]])
    as E by reflexivity.
  split; [done|]. rewrite E. intros action [->|[->|[]%not_elem_of_nil]%elem_of_cons]%elem_of_cons; done.
Qed.
End InTheTray.

(** ** One module, one server *)

Module AiWitness.

Definition synced : DenylistCache := mkDenylist "v2" ["rm -rf /"] (Some 1000%Z).
Definition payload : Value := JObject [("subject", JString "rm -rf /")].

#[local] Program Instance witness_codec : AiCodec := {|
  ai_hooks := HookRuns.table_codec;
  json_from_slice s := if decide (s = "payload") then Ok payload else Err "expected value";
  json_to_string _ := "{}";
  json_to_string_pretty _ := "{}";
  decode_health _ := Ok ();
  decode_denylist _ := Ok (mkDenylistResponse "v2" ["rm -rf /"]);
  decode_evaluate _ := Err "expected value";
  cache_to_vec_pretty c := if decide (c = synced) then Ok "v2" else Err "not this one";
  cache_from_slice s := if decide (s = "v2") then Ok synced else Err "expected value";
  config_from_slice _ := Err "no configuration";
  utf8_lossy s := s;
|}.
Next Obligation. intros c data. cbn. destruct (decide (c = synced)) as [->|]; [|done]. by intros [= <-]. Qed.

Definition hex (z : Z) : string := pretty z.
Definition home : option Path := Some ["home"; "u"].
Definition to_path (s : string) : Path := [s].
Definition data_dir : Path := ["data"].

(** The server knows the denylist and answers nothing else. *)
Definition server (n : nat) (rq : Request) : Answer :=
  match rq_method rq with GET => Replied 200 "" | POST => NoResponse "connection refused" end.

Definition outside (d : Files.disk) : World :=
  mkWorld (HookRuns.machine d) ∅ [] 0 server (λ _, false) (λ _, nanos 1000) (λ _, None) (λ _, None).

Definition started (key : string) (c : DenylistCache) : Ai :=
  mkAi config_default metrics_new key (mkClient DEFAULT_BASE_URL key) true None c
    (data_dir ++ ["denylist.json"]) (data_dir ++ ["hooks"]) true.

Abbreviation run := (dispatch hex home None to_path (λ _, true)).

(** A denylist that was never synced, and so is stale. *)
Lemma stale_denylist_still_denies_witness :
  is_stale (mkDenylist "" ["rm -rf /"] None) 0 0 = true ∧
  cr_exit_code (run ["hook"; "pre-tool-use"] ∅ ["payload"]
                  (started "wa-key" (mkDenylist "" ["rm -rf /"] None), outside ∅)).1 = 1%Z.
Proof.
  split; [reflexivity|].
  destruct (stale_denylist_still_denies hex home None to_path (λ _, true) ["pre-tool-use"] ["payload"] ∅
    "pre-tool-use" payload (Transport "connection refused") (started "wa-key" synced) (outside ∅)) as [H _].
  - split; [done|]. split; [apply list_elem_of_here|]. exists "payload". done.
  - reflexivity.
  - exists "rm -rf /". split; [done|]. apply list_elem_of_here.
  - exact (H "" None).
Defined.

Lemma key_never_shown_witness :
  (run ["key"; "status"] ∅ [] (started "wa-other-5678" synced, outside ∅)).1 =
  (run ["key"; "status"] ∅ [] (started "wa-first-5678" synced, outside ∅)).1.
Proof.
  pose proof (key_never_shown hex home None to_path (λ _, true) ["key"; "status"] [] ∅ "wa-other-5678"
    (started "wa-first-5678" synced) (outside ∅)) as H.
  change (rekey "wa-other-5678" (started "wa-first-5678" synced)) with (started "wa-other-5678" synced) in H.
  destruct (run ["key"; "status"] ∅ [] (started "wa-first-5678" synced, outside ∅)) as [r1 s1].
  destruct (run ["key"; "status"] ∅ [] (started "wa-other-5678" synced, outside ∅)) as [r2 s2].
  apply H; [done|by vm_compute].
Defined.

Definition saved : World := (sync_denylist hex (started "wa-key" denylist_empty, outside ∅)).2.2.

Lemma denylist_sync_survives_restart_witness :
  ∃ a2 w3, init data_dir "" (Ok ()) (outside (Files.files (w_fs saved))) = (Ok a2, w3) ∧
    ai_denylist a2 = synced.
Proof.
  destruct (init data_dir "" (Ok ()) (outside (Files.files (w_fs saved)))) as [[a2|e] w3] eqn:E.
  2: { exfalso. assert (is_ok (init data_dir "" (Ok ()) (outside (Files.files (w_fs saved)))).1 = true) as Hok
         by (by vm_compute). by rewrite E in Hok. }
  exists a2, w3. split; [done|].
  pose proof (denylist_sync_survives_restart hex (started "wa-key" denylist_empty) (outside ∅) data_dir
    (Files.files (w_fs saved)) "" (Ok ()) (outside (Files.files (w_fs saved))) w3 a2 eq_refl
    (λ _, eq_refl) E (conj (λ _, eq_refl) (λ _, eq_refl)) eq_refl) as H.
  assert (sync_denylist hex (started "wa-key" denylist_empty, outside ∅) =
    (Ok synced, (sync_denylist hex (started "wa-key" denylist_empty, outside ∅)).2)) as Es.
  { assert ((sync_denylist hex (started "wa-key" denylist_empty, outside ∅)).1 = Ok synced) as E1 by (by vm_compute).
    rewrite <- E1. apply surjective_pairing. }
  rewrite Es in H. destruct H as (_ & _ & _ & H). apply H; [reflexivity|by vm_compute].
Defined.

Lemma piped_key_takes_effect_witness :
  cr_output (run ["key"; "set"] ∅ (apply_stdin_fallback [] (Some ("wa-secret-1234" +:+ String newline "")))
               (started "" synced, outside ∅)).1 = "virtual key set: ****1234".
Proof.
  pose proof (piped_key_takes_effect hex home None to_path (λ _, true) "wa-secret-1234"
    (started "" synced) (outside ∅) ltac:(done) eq_refl eq_refl) as H.
  destruct (run ["key"; "set"] ∅ _ (started "" synced, outside ∅)) as [r [a' w']].
  cbn [fst]. destruct H as (-> & _). reflexivity.
Defined.
End AiWitness.
