(* ===== verification/Pem.v ===== *)
(** * PEM files (crates/squawk-client/src/pem.rs)

    Certificates and keys of the DNS client's TLS set-up are cut out of PEM
    text by searching for the markers around each block.  Base64 decoding and
    the file system are parameters. *)
From S2P Require Import Prelude.
From S2P Require Import Text.
From S2P Require Import Mask.

(** ** [str::find] and slices *)

Fixpoint str_find (sub s : string) : option nat :=
  if String.prefix sub s then Some 0
  else match s with EmptyString => None | String _ s' => S <$> str_find sub s' end.

(** [&s[n..]] and [&s[..n]] *)
Fixpoint str_from (n : nat) (s : string) : string :=
  match n, s with
  | S n', String _ s' => str_from n' s'
  | S _, EmptyString => ""
  | O, _ => s
  end.

Fixpoint str_upto (n : nat) (s : string) : string :=
  match n, s with
  | S n', String c s' => String c (str_upto n' s')
  | _, _ => ""
  end.

(** [chars().filter(|c| !c.is_whitespace()).collect()] *)
Fixpoint remove_whitespace (s : string) : string :=
  match s with
  | String a ((String b ((String c s3) as s2)) as s1) =>
      if ws1 a then remove_whitespace s1
      else if ws2 a b then remove_whitespace s2
      else if ws3 a b c then remove_whitespace s3
      else String a (remove_whitespace s1)
  | String a ((String b s2) as s1) =>
      if ws1 a then remove_whitespace s1
      else if ws2 a b then remove_whitespace s2 else String a (remove_whitespace s1)
  | String a s1 => if ws1 a then remove_whitespace s1 else String a (remove_whitespace s1)
  | EmptyString => ""
  end.

(** [base64]'s standard alphabet: bytes are strings here. *)
Class Base64 := {
  base64_decode : string → result string string;
  base64_encode : string → string;
  base64_round_trip : ∀ bytes, base64_decode (base64_encode bytes) = Ok bytes;
}.

Inductive PemError :=
| PemRead (path source : string)
| PemNoBlock (path label : string)
| PemDecode (path label source : string).

Definition PemError_display (e : PemError) : string :=
  match e with
  | PemRead path source => "failed to read " +:+ path +:+ ": " +:+ source
  | PemNoBlock path label => path +:+ " contains no " +:+ label +:+ " block"
  | PemDecode path label source =>
      path +:+ " contains a malformed " +:+ label +:+ " block: " +:+ source
  end.

Definition begin_marker (label : string) : string := "-----BEGIN " +:+ label +:+ "-----".
Definition end_marker (label : string) : string := "-----END " +:+ label +:+ "-----".

(** The body of the next block and the text after it. *)
Definition next_block (label rest : string) : option (string * string) :=
  begin_at ← str_find (begin_marker label) rest;
  let after_begin := str_from (begin_at + String.length (begin_marker label)) rest in
  end_at ← str_find (end_marker label) after_begin;
  Some (str_upto end_at after_begin,
        str_from (end_at + String.length (end_marker label)) after_begin).

Inductive PrivateKeyDer :=
| Pkcs8 (der : string)
| Pkcs1 (der : string)
| Sec1 (der : string).

Section Pem.
  Context `{Base64} (read_to_string : string → result string string).

(** The [while let] loop; [fuel] bounds its rounds. *)
Fixpoint extract_loop (fuel : nat) (label rest : string) (blocks : list string) :
    option (result (list string) string) :=
  match fuel with
  | O => None
  | S fuel' =>
      match next_block label rest with
      | None => Some (Ok blocks)
      | Some (body, rest') =>
          match base64_decode (remove_whitespace body) with
          | Err e => Some (Err e)
          | Ok der => extract_loop fuel' label rest' (blocks ++ [der])
          end
      end
  end.

(** No block is shorter than its markers, so one round per byte is enough. *)
Definition extract_blocks (pem label : string) : result (list string) string :=
  default (Ok []) (extract_loop (S (String.length pem)) label pem []).

Definition load_certificate_chain (path : string) : result (list string) PemError :=
  let? contents := map_err (PemRead path) (read_to_string path) in
  let? blocks := map_err (PemDecode path "CERTIFICATE") (extract_blocks contents "CERTIFICATE") in
  match blocks with
  | [] => Err (PemNoBlock path "CERTIFICATE")
  | certs => Ok certs
  end.

Definition load_private_key (path : string) : result PrivateKeyDer PemError :=
  let? contents := map_err (PemRead path) (read_to_string path) in
  let? pkcs8 := map_err (PemDecode path "PRIVATE KEY") (extract_blocks contents "PRIVATE KEY") in
  match pkcs8 with
  | der :: _ => Ok (Pkcs8 der)
  | [] =>
      let? pkcs1 := map_err (PemDecode path "RSA PRIVATE KEY")
                      (extract_blocks contents "RSA PRIVATE KEY") in
      match pkcs1 with
      | der :: _ => Ok (Pkcs1 der)
      | [] =>
          let? sec1 := map_err (PemDecode path "EC PRIVATE KEY")
                         (extract_blocks contents "EC PRIVATE KEY") in
          match sec1 with
          | der :: _ => Ok (Sec1 der)
          | [] => Err (PemNoBlock path "PRIVATE KEY / RSA PRIVATE KEY / EC PRIVATE KEY")
          end
      end
  end.

(** ** Searching *)

Lemma str_from_length n s : String.length (str_from n s) = String.length s - n.
Proof. revert s. induction n as [|n IH]; intros [|c s]; simpl; [done..|apply IH]. Qed.

Lemma str_from_app s t : str_from (String.length s) (s +:+ t) = t.
Proof. induction s as [|c s IH]; [by destruct t|exact IH]. Qed.

Lemma str_upto_app s t : str_upto (String.length s) (s +:+ t) = s.
Proof. induction s as [|c s IH]; [by destruct t|]. simpl. f_equal. exact IH. Qed.

(** A text is found right behind one that lacks its first character. *)
Lemma str_find_skip c sub s t :
  no_char c s = true → str_find (String c sub) (s +:+ (String c sub +:+ t)) = Some (String.length s).
Proof.
  induction s as [|d s IH].
  - intros _. change ("" +:+ ?x) with x.
    destruct (String c sub +:+ t) eqn:E; [done|]. cbn [str_find]. rewrite <- E. by rewrite prefix_app.
  - intros [Hd Hs]%andb_prop. rewrite string_app_cons. cbn [str_find]. rewrite (IH Hs).
    cbn [String.prefix]. destruct (Ascii.ascii_dec c d) as [->|]; [|done].
    by rewrite Ascii.eqb_refl in Hd.
Qed.

Lemma str_find_marker c sub m s t :
  m = String c sub → no_char c s = true → str_find m (s +:+ (m +:+ t)) = Some (String.length s).
Proof. intros ->. apply str_find_skip. Qed.

Lemma str_find_length sub s n : str_find sub s = Some n → n + String.length sub ≤ String.length s.
Proof.
  revert n. induction s as [|c s IH]; intros n; cbn [str_find];
    match goal with |- context [String.prefix sub ?t] => destruct (String.prefix sub t) eqn:E end.
  1, 3: intros [= <-]; by apply prefix_length in E.
  - done.
  - destruct (str_find sub s) as [m|]; [|done]. intros [= <-]. specialize (IH m eq_refl). simpl. lia.
Qed.

(** ** The loop ends *)

(** Every round leaves a shorter text: both markers are gone from it. *)
Lemma next_block_shorter label rest body rest' :
  next_block label rest = Some (body, rest') → String.length rest' + 2 ≤ String.length rest.
Proof.
  unfold next_block. destruct (str_find _ rest) as [b|] eqn:Eb; [|done]. simpl.
  destruct (str_find _ (str_from _ _)) as [e|] eqn:Ee; [|done]. simpl. intros [= <- <-].
  apply str_find_length in Eb, Ee. rewrite str_from_length in Ee. rewrite !str_from_length.
  unfold begin_marker, end_marker in *. simpl in *. lia.
Qed.

Lemma extract_loop_more f g label rest blocks r :
  extract_loop f label rest blocks = Some r → f ≤ g → extract_loop g label rest blocks = Some r.
Proof.
  revert g rest blocks. induction f as [|f IH]; intros [|g] rest blocks; [done|done|lia|]. simpl.
  destruct (next_block label rest) as [[body rest']|]; [|done].
  destruct (base64_decode _); [|done]. intros E Hle. apply IH; [done|lia].
Qed.

Lemma extract_loop_ends f label rest blocks :
  String.length rest < f → is_Some (extract_loop f label rest blocks).
Proof.
  revert rest blocks. induction f as [|f IH]; intros rest blocks Hf; [lia|]. simpl.
  destruct (next_block label rest) as [[body rest']|] eqn:E; [|eauto].
  apply next_block_shorter in E. destruct (base64_decode _); [|eauto]. apply IH. lia.
Qed.

(** The blocks are found one by one, whatever was found before them. *)
Lemma extract_loop_app f label rest blocks :
  extract_loop f label rest blocks =
  (λ r, let? found := r in Ok (blocks ++ found)) <$> extract_loop f label rest [].
Proof.
  revert rest blocks. induction f as [|f IH]; intros rest blocks; [done|]. simpl.
  destruct (next_block label rest) as [[body rest']|]; [|simpl; by rewrite app_nil_r].
  destruct (base64_decode _) as [der|e]; [|done]. rewrite IH, (IH rest' [der]).
  destruct (extract_loop f label rest' []) as [[found|e]|]; simpl; [by rewrite <- app_assoc|done..].
Qed.

Lemma extract_loop_count f label rest found :
  extract_loop f label rest [] = Some (Ok found) → 2 * length found ≤ String.length rest.
Proof.
  revert rest found. induction f as [|f IH]; intros rest found; [done|]. simpl.
  destruct (next_block label rest) as [[body rest']|] eqn:E; [|intros [= <-]; simpl; lia].
  apply next_block_shorter in E. destruct (base64_decode _) as [der|e]; [|done].
  rewrite extract_loop_app. destruct (extract_loop f label rest' []) as [[l|e]|] eqn:El; simpl; [|done..].
  intros [= <-]. specialize (IH _ _ El). simpl. lia.
Qed.

(** C30: Looking for blocks ends on every text, well-formed or not: each round
    consumes both markers of a block, so that any number of rounds above the
    length of the text gives the same result, the one returned, with at most
    half as many blocks as the text has bytes. *)
Theorem extract_blocks_terminates (pem label : string) :
  ∃ r, extract_blocks pem label = r ∧
    (∀ fuel, String.length pem < fuel → extract_loop fuel label pem [] = Some r) ∧
    match r with Ok found => 2 * length found ≤ String.length pem | Err _ => True end.
Proof.
  destruct (extract_loop_ends (S (String.length pem)) label pem []) as [r E]; [lia|].
  exists r. split_and!.
  - unfold extract_blocks. by rewrite E.
  - intros fuel Hf. eapply extract_loop_more; [exact E|lia].
  - destruct r as [found|]; [|done]. by eapply extract_loop_count.
Qed.

(** ** A bundle of blocks *)

Definition dash : Ascii.ascii := Ascii.ascii_of_nat 45.

(** Text without dashes, a block, and so on; text without dashes. *)
Fixpoint bundle (label : string) (blocks : list (string * string)) (tail : string) : string :=
  match blocks with
  | [] => tail
  | (junk, body) :: blocks =>
      junk +:+ (begin_marker label +:+ (body +:+ (end_marker label +:+ bundle label blocks tail)))
  end.

Lemma next_block_found label junk body rest :
  no_char dash junk = true → no_char dash body = true →
  next_block label (junk +:+ (begin_marker label +:+ (body +:+ (end_marker label +:+ rest)))) =
    Some (body, rest).
Proof.
  intros Hj Hb. unfold next_block.
  rewrite (str_find_marker dash ("----BEGIN " +:+ label +:+ "-----")) by done. cbn [option_bind mbind].
  rewrite <- string_app_assoc, <- string_length_app, str_from_app.
  rewrite (str_find_marker dash ("----END " +:+ label +:+ "-----")) by done. cbn [option_bind mbind].
  by rewrite str_upto_app, <- string_app_assoc, <- string_length_app, str_from_app.
Qed.

Lemma next_block_none label tail : no_char dash tail = true → next_block label tail = None.
Proof.
  intros Ht. unfold next_block.
  assert (str_find (begin_marker label) tail = None) as ->; [|done].
  unfold begin_marker. induction tail as [|c tail IH]; [done|].
  simpl in Ht. apply andb_prop in Ht as [Hc Ht]. cbn [str_find]. rewrite (IH Ht).
  change ("-----BEGIN " +:+ label +:+ "-----") with (String dash ("----BEGIN " +:+ label +:+ "-----")).
  cbn [String.prefix]. destruct (Ascii.ascii_dec dash c) as [<-|]; [|done].
  by rewrite Ascii.eqb_refl in Hc.
Qed.

Lemma extract_bundle f label (blocks : list (string * string)) tail ders :
  Forall2 (λ b der, no_char dash b.1 = true ∧ no_char dash b.2 = true ∧
             remove_whitespace b.2 = base64_encode der) blocks ders →
  no_char dash tail = true → length blocks < f →
  extract_loop f label (bundle label blocks tail) [] = Some (Ok ders).
Proof.
  intros Hf Ht. revert f. induction Hf as [|[junk body] der blocks ders (Hj & Hb & He) Hf IH];
    intros [|f] Hlen; [lia| |lia|]; cbn [bundle extract_loop].
  - by rewrite next_block_none.
  - simpl in Hj, Hb, He. rewrite next_block_found by done. rewrite He, base64_round_trip.
    rewrite extract_loop_app, IH by (simpl in Hlen; lia). done.
Qed.

Lemma bundle_length label blocks tail : length blocks ≤ String.length (bundle label blocks tail).
Proof.
  induction blocks as [|[junk body] blocks IH]; [simpl; lia|]. cbn [bundle].
  rewrite !string_length_app. unfold begin_marker. simpl. lia.
Qed.

(** C31: Loading a certificate file gives back exactly the certificates it was
    written from, in order: any number of blocks, their Base64 wrapped and
    indented at will, with other text, free of dashes, before, between and
    after them; a file with none is reported as such. *)
Theorem certificate_chain_round_trip (path tail : string) (blocks : list (string * string))
    (ders : list string) :
  read_to_string path = Ok (bundle "CERTIFICATE" blocks tail) →
  Forall2 (λ b der, no_char dash b.1 = true ∧ no_char dash b.2 = true ∧
             remove_whitespace b.2 = base64_encode der) blocks ders →
  no_char dash tail = true →
  load_certificate_chain path =
    match ders with [] => Err (PemNoBlock path "CERTIFICATE") | _ => Ok ders end.
Proof.
  intros Hr Hf Ht. unfold load_certificate_chain. rewrite Hr. simpl. unfold extract_blocks.
  rewrite (extract_bundle _ _ _ _ ders Hf Ht); [by destruct ders|].
  pose proof (bundle_length "CERTIFICATE" blocks tail). lia.
Qed.
End Pem.

(** ** A file *)

Module PemWitness.

#[local] Program Instance plain : Base64 := {| base64_decode := Ok; base64_encode s := s |}.
Next Obligation. done. Qed.

Definition body (s : string) : string := String newline (s +:+ String newline "").
Definition blocks : list (string * string) := [("a root: ", body "AAAA"); (String newline "", body "BBBB")].

Lemma certificate_chain_round_trip_witness :
  load_certificate_chain (λ _, Ok (bundle "CERTIFICATE" blocks "end")) "ca.pem" = Ok ["AAAA"; "BBBB"].
Proof.
  apply (certificate_chain_round_trip _ "ca.pem" "end" blocks ["AAAA"; "BBBB"]); [done| |done].
  repeat constructor; done.
Defined.
End PemWitness.
