(* ===== verification/NetAddr.v ===== *)
(** * Internet addresses (Rust's [core::net])

    The textual forms the DNS client reads: [Ipv4Addr::from_str] and
    [Ipv6Addr::from_str], as backtracking parsers of the standard library.  A
    parser takes the text and returns what it read and the rest. *)
From S2P Require Import Prelude.
From S2P Require Import Text.

Definition Parser (A : Type) : Type := string → option (A * string).

Definition read_char (c : Ascii.ascii) : Parser unit := λ s,
  match s with
  | String d s' => if decide (d = c) then Some ((), s') else None
  | EmptyString => None
  end.

(** [char::to_digit] *)
Definition to_digit_radix (radix : Z) (c : Ascii.ascii) : option Z :=
  let n := Z.of_nat (code c) in
  let v := if (48 <=? n)%Z && (n <=? 57)%Z then Some (n - 48)%Z
           else if (97 <=? n)%Z && (n <=? 122)%Z then Some (n - 97 + 10)%Z
           else if (65 <=? n)%Z && (n <=? 90)%Z then Some (n - 65 + 10)%Z
           else None in
  d ← v; if (d <? radix)%Z then Some d else None.

(** The digits of [read_number] from the [count]-th on: they end at the first
    other character, and fail beyond [limit] or [max_digits]. *)
Fixpoint read_digits (radix limit : Z) (max_digits count : nat) (acc : Z) (s : string) :
    option (Z * nat * string) :=
  match s with
  | EmptyString => Some (acc, count, s)
  | String c s' =>
      match to_digit_radix radix c with
      | None => Some (acc, count, s)
      | Some d =>
          if (limit <? acc * radix + d)%Z then None
          else if max_digits <? S count then None
          else read_digits radix limit max_digits (S count) (acc * radix + d) s'
      end
  end.

Definition zero_char : Ascii.ascii := Ascii.ascii_of_nat 48.

Definition read_number (radix limit : Z) (max_digits : nat) (allow_zero_prefix : bool) : Parser Z :=
  λ s,
  let has_leading_zero := match s with String c _ => bool_decide (c = zero_char) | _ => false end in
  match read_digits radix limit max_digits 0 0 s with
  | Some (n, count, rest) =>
      if (count =? 0)%nat then None
      else if negb allow_zero_prefix && has_leading_zero && (1 <? count)%nat then None
      else Some (n, rest)
  | None => None
  end.

(** [read_separator]: the separator goes before every element but the first. *)
Definition read_separator {A} (sep : Ascii.ascii) (index : nat) (inner : Parser A) : Parser A := λ s,
  match index with
  | O => inner s
  | S _ => '(_, s') ← read_char sep s; inner s'
  end.

Definition dot : Ascii.ascii := Ascii.ascii_of_nat 46.
Definition colon : Ascii.ascii := Ascii.ascii_of_nat 58.

Definition Ipv4Addr : Type := Z * Z * Z * Z.

Definition read_octet (index : nat) : Parser Z :=
  read_separator dot index (read_number 10 255 3 false).

Definition read_ipv4_addr : Parser Ipv4Addr := λ s,
  '(a, s) ← read_octet 0 s;
  '(b, s) ← read_octet 1 s;
  '(c, s) ← read_octet 2 s;
  '(d, s) ← read_octet 3 s;
  Some ((a, b, c, d), s).

(** Up to [limit] groups of an IPv6 address, the [i]-th next; whether the last
    two are an embedded IPv4 address. *)
Fixpoint read_groups (limit i : nat) (groups : list Z) (s : string) : list Z * bool * string :=
  match limit with
  | O => (groups, false, s)
  | S limit' =>
      let v4 := if decide (limit' = 0) then None else read_separator colon i read_ipv4_addr s in
      match v4 with
      | Some ((a, b, c, d), s') => (groups ++ [a * 256 + b; c * 256 + d]%Z, true, s')
      | None =>
          match read_separator colon i (read_number 16 65535 4 true) s with
          | Some (g, s') => read_groups limit' (S i) (groups ++ [g]) s'
          | None => (groups, false, s)
          end
      end
  end.

Definition read_ipv6_addr : Parser (list Z) := λ s,
  let '(head, head_ipv4, s) := read_groups 8 0 [] s in
  if decide (length head = 8) then Some (head, s)
  else if head_ipv4 then None
  else
    '(_, s) ← read_char colon s;
    '(_, s) ← read_char colon s;
    let '(tail, _, s) := read_groups (8 - (length head + 1)) 0 [] s in
    Some (head ++ replicate (8 - length head - length tail) 0%Z ++ tail, s).

(** [parse_with]: nothing may be left. *)
Definition parse_all {A} (p : Parser A) (s : string) : option A :=
  '(a, rest) ← p s; if decide (rest = "") then Some a else None.

(** An IPv4 address in decimal has at most fifteen characters. *)
Definition ipv4_parse (s : string) : option Ipv4Addr :=
  if 15 <? String.length s then None else parse_all read_ipv4_addr s.

Definition ipv6_parse (s : string) : option (list Z) := parse_all read_ipv6_addr s.

(** [IpAddr::from_str], as far as whether it succeeds. *)
Definition is_ip_addr (s : string) : bool :=
  bool_decide (is_Some (parse_all (λ s, match read_ipv4_addr s with
                                        | Some (a, rest) => Some (inl a, rest)
                                        | None => '(g, rest) ← read_ipv6_addr s; Some (inr g, rest)
                                        end) s)).

Example ipv4_ok : ipv4_parse "192.0.2.255" = Some (192, 0, 2, 255)%Z.
Proof. reflexivity. Qed.
Example ipv4_bad : ipv4_parse "192.0.2.256" = None ∧ ipv4_parse "192.0.02.1" = None ∧ ipv4_parse "1.2.3" = None.
Proof. split_and!; reflexivity. Qed.
Example ipv6_ok : ipv6_parse "2001:db8::1" = Some [8193; 3512; 0; 0; 0; 0; 0; 1]%Z ∧
  ipv6_parse "::" = Some (replicate 8 0%Z) ∧ ipv6_parse "::ffff:192.0.2.1" = Some [0; 0; 0; 0; 0; 65535; 49152; 513]%Z ∧
  ipv6_parse "1:2:3:4:5:6:7::" = Some [1; 2; 3; 4; 5; 6; 7; 0]%Z.
Proof. split_and!; reflexivity. Qed.
Example ipv6_bad : ipv6_parse "1:2:3:4:5:6:7:8:9" = None ∧ ipv6_parse ":1" = None ∧ ipv6_parse "12345::" = None ∧
  ipv6_parse "[::1]" = None ∧ ipv6_parse "1.2.3.4::" = None.
Proof. split_and!; reflexivity. Qed.

(** ** What is read fits *)

Definition octet (z : Z) : Prop := (0 ≤ z ≤ 255)%Z.
Definition group (z : Z) : Prop := (0 ≤ z ≤ 65535)%Z.

Lemma to_digit_radix_range radix c d : to_digit_radix radix c = Some d → (0 ≤ d < radix)%Z.
Proof.
  unfold to_digit_radix. set (n := Z.of_nat (code c)).
  destruct ((48 <=? n) && (n <=? 57))%Z eqn:E1; [|destruct ((97 <=? n) && (n <=? 122))%Z eqn:E2;
    [|destruct ((65 <=? n) && (n <=? 90))%Z eqn:E3; [|done]]]; simpl;
    match goal with |- context [(?x <? radix)%Z] => destruct (Z.ltb_spec x radix); [|done] end;
    intros [= <-]; rewrite ?andb_true_iff, ?Z.leb_le in *; lia.
Qed.

Lemma read_digits_range radix limit max count acc s n count' rest :
  (0 < radix)%Z → (0 ≤ acc ≤ limit)%Z →
  read_digits radix limit max count acc s = Some (n, count', rest) → (0 ≤ n ≤ limit)%Z.
Proof.
  intros Hr. revert count acc. induction s as [|c s IH]; intros count acc Ha; simpl; [by intros [= <- _ _]|].
  destruct (to_digit_radix radix c) as [d|] eqn:Ed; [|by intros [= <- _ _]].
  apply to_digit_radix_range in Ed. destruct (Z.ltb_spec limit (acc * radix + d)); [done|].
  destruct (max <? S count); [done|]. apply IH. nia.
Qed.

Lemma read_number_range radix limit max zeros s n rest :
  (0 < radix)%Z → (0 ≤ limit)%Z → read_number radix limit max zeros s = Some (n, rest) → (0 ≤ n ≤ limit)%Z.
Proof.
  intros Hr Hl. unfold read_number. destruct (read_digits _ _ _ _ _ _) as [[[x count] r]|] eqn:E; [|done].
  apply read_digits_range in E; [|done|lia]. destruct (count =? 0)%nat; [done|].
  destruct (_ && _ && _); [done|]. by intros [= <- _].
Qed.

Lemma read_separator_inner {A} sep i (p : Parser A) s a rest :
  read_separator sep i p s = Some (a, rest) → ∃ s', p s' = Some (a, rest).
Proof.
  unfold read_separator. destruct i; [eauto|]. destruct (read_char sep s) as [[? s']|]; [|done]. simpl. eauto.
Qed.

Lemma read_octet_range i s n rest : read_octet i s = Some (n, rest) → octet n.
Proof. intros (s' & E)%read_separator_inner. by eapply (read_number_range 10 255 3 false s'). Qed.

Lemma read_ipv4_range s a b c d rest :
  read_ipv4_addr s = Some ((a, b, c, d), rest) → octet a ∧ octet b ∧ octet c ∧ octet d.
Proof.
  unfold read_ipv4_addr. intros E.
  destruct (read_octet 0 s) as [[a' s1]|] eqn:E1; [|done]. cbn [mbind option_bind] in E.
  destruct (read_octet 1 s1) as [[b' s2]|] eqn:E2; [|done]. cbn [mbind option_bind] in E.
  destruct (read_octet 2 s2) as [[c' s3]|] eqn:E3; [|done]. cbn [mbind option_bind] in E.
  destruct (read_octet 3 s3) as [[d' s4]|] eqn:E4; [|done]. cbn [mbind option_bind] in E. simplify_eq.
  split_and!; by eapply read_octet_range.
Qed.

Lemma read_groups_range limit i groups s groups' v4 rest :
  Forall group groups → read_groups limit i groups s = (groups', v4, rest) →
  Forall group groups' ∧ length groups' ≤ length groups + limit.
Proof.
  revert i groups s. induction limit as [|limit IH]; intros i groups s Hg; cbn [read_groups].
  { intros [= <- _ _]. split; [done|lia]. }
  destruct (if decide (limit = 0) then None else read_separator colon i read_ipv4_addr s) as [[ip s']|] eqn:E4.
  - destruct ip as [[[a b] c] d]. case_decide; [done|]. apply read_separator_inner in E4 as (s0 & E4).
    apply read_ipv4_range in E4 as (? & ? & ? & ?). intros [= <- _ _]. rewrite length_app. split; [|simpl; lia].
    apply Forall_app. split; [done|]. unfold octet, group in *. repeat constructor; lia.
  - destruct (read_separator colon i (read_number 16 65535 4 true) s) as [[g s']|] eqn:En; [|intros [= <- _ _]; split; [done|lia]].
    apply read_separator_inner in En as (s0 & En). apply read_number_range in En; [|done|done].
    intros [Hg' Hl]%IH; [|apply Forall_app; split; [done|by apply Forall_singleton]].
    rewrite length_app in Hl. simpl in Hl. split; [done|lia].
Qed.

Lemma ipv4_parse_range s a b c d :
  ipv4_parse s = Some (a, b, c, d) → octet a ∧ octet b ∧ octet c ∧ octet d.
Proof.
  unfold ipv4_parse, parse_all. destruct (15 <? _)%nat; [done|].
  destruct (read_ipv4_addr s) as [[[[[a' b'] c'] d'] rest]|] eqn:E; [|done]. simpl.
  destruct (decide (rest = "")); [|done]. intros [= -> -> -> ->]. by eapply read_ipv4_range.
Qed.

Lemma ipv6_parse_range s groups : ipv6_parse s = Some groups → length groups = 8 ∧ Forall group groups.
Proof.
  unfold ipv6_parse, parse_all, read_ipv6_addr.
  destruct (read_groups 8 0 [] s) as [[head v4] s1] eqn:Eh.
  apply read_groups_range in Eh as [Hh Hl]; [|constructor]. simpl in Hl.
  destruct (decide (length head = 8)) as [H8|H8].
  { simpl. destruct (decide (s1 = "")); [|done]. by intros [= <-]. }
  destruct v4; [done|].
  destruct (read_char colon s1) as [[? s2]|]; [|done]. simpl.
  destruct (read_char colon s2) as [[? s3]|]; [|done]. simpl.
  destruct (read_groups (8 - (length head + 1)) 0 [] s3) as [[tail v4'] s4] eqn:Et.
  apply read_groups_range in Et as [Ht Hlt]; [|constructor]. simpl in Hlt |- *.
  destruct (decide (s4 = "")); [|done]. intros [= <-].
  rewrite !length_app, length_replicate. split; [lia|].
  apply Forall_app. split; [done|]. apply Forall_app. split; [|done].
  apply Forall_replicate. unfold group. lia.
Qed.

(** ** Addresses as they are written

    [dotted] is the decimal form of an IPv4 address, [hex_groups] the groups
    of an IPv6 address in hexadecimal without leading zeros. *)

Definition digit_char (d : Z) : Ascii.ascii :=
  Ascii.ascii_of_nat (Z.to_nat (if (d <? 10)%Z then 48 + d else 87 + d)).

Fixpoint digits_go (radix : Z) (fuel : nat) (n : Z) (rest : string) : string :=
  match fuel with
  | O => String (digit_char n) rest
  | S fuel => if (n <? radix)%Z then String (digit_char n) rest
              else digits_go radix fuel (n / radix) (String (digit_char (n mod radix)) rest)
  end.

(** Numbers below 2^16: at most five decimal and four hexadecimal digits. *)
Definition dec_text (n : Z) : string := digits_go 10 4 n "".
Definition hex_text (n : Z) : string := digits_go 16 3 n "".

Definition dotted (ip : Ipv4Addr) : string :=
  let '(a, b, c, d) := ip in
  dec_text a +:+ String dot (dec_text b +:+ String dot (dec_text c +:+ String dot (dec_text d))).

Fixpoint hex_groups (groups : list Z) : string :=
  match groups with
  | [] => ""
  | [g] => hex_text g
  | g :: groups => hex_text g +:+ String colon (hex_groups groups)
  end.

(** [rest] does not go on with a digit. *)
Definition ends_number (radix : Z) (rest : string) : Prop :=
  match rest with EmptyString => True | String c _ => to_digit_radix radix c = None end.

Lemma read_digits_app radix limit max count acc s n count' rest :
  ends_number radix rest → read_digits radix limit max count acc s = Some (n, count', "") →
  read_digits radix limit max count acc (s +:+ rest) = Some (n, count', rest).
Proof.
  intros Hr. revert count acc. induction s as [|c s IH]; intros count acc; simpl.
  - intros [= <- <-]. destruct rest as [|c rest]; [done|]. simpl in *. by rewrite Hr.
  - destruct (to_digit_radix radix c); [|done]. destruct (_ <? _)%Z; [done|]. destruct (_ <? _); [done|]. apply IH.
Qed.

Lemma read_number_app radix limit max zeros s n rest :
  ends_number radix rest → read_number radix limit max zeros s = Some (n, "") →
  read_number radix limit max zeros (s +:+ rest) = Some (n, rest).
Proof.
  intros Hr. unfold read_number. destruct (read_digits _ _ _ _ _ s) as [[[x count] r]|] eqn:E; [|done].
  destruct (count =? 0)%nat eqn:E0; [done|]. destruct (_ && _ && _) eqn:Ez; [done|]. intros [= -> ->].
  rewrite (read_digits_app _ _ _ _ _ _ _ _ _ Hr E), E0.
  destruct s as [|c s]; [simpl in E; injection E as <- <-; done|]. rewrite string_app_cons, Ez. done.
Qed.

(** A property of the numbers from [z] on, [k] of them, checked one by one. *)
Fixpoint all_from (p : Z → bool) (k : nat) (z : Z) : bool :=
  match k with O => true | S k => p z && all_from p k (z + 1) end.

Lemma all_from_spec p k z n : all_from p k z = true → (z ≤ n < z + Z.of_nat k)%Z → p n = true.
Proof.
  revert z. induction k as [|k IH]; intros z; [lia|]. intros [Hz Hk]%andb_prop Hn.
  destruct (decide (n = z)) as [->|]; [done|]. apply (IH (z + 1)%Z); [done|lia].
Qed.

Lemma below_checked (p : Z → bool) (m n : Z) :
  all_from p (Z.to_nat m) 0 = true → (0 ≤ n < m)%Z → p n = true.
Proof. intros H Hn. eapply all_from_spec; [done|lia]. Qed.

Lemma read_octet_text n rest :
  octet n → ends_number 10 rest → read_number 10 255 3 false (dec_text n +:+ rest) = Some (n, rest).
Proof.
  intros Hn Hr. apply read_number_app; [done|].
  pose proof (below_checked (λ n, bool_decide (read_number 10 255 3 false (dec_text n) = Some (n, ""))) 256 n) as H.
  apply bool_decide_eq_true in H; [done|by vm_compute|]. unfold octet in Hn. lia.
Qed.

Lemma digit_char_read radix d : (radix ≤ 16)%Z → (0 ≤ d < radix)%Z → to_digit_radix radix (digit_char d) = Some d.
Proof.
  intros Hr Hd. unfold to_digit_radix.
  assert (d = 0 ∨ d = 1 ∨ d = 2 ∨ d = 3 ∨ d = 4 ∨ d = 5 ∨ d = 6 ∨ d = 7 ∨ d = 8 ∨ d = 9 ∨ d = 10 ∨ d = 11 ∨
          d = 12 ∨ d = 13 ∨ d = 14 ∨ d = 15)%Z as Hin by lia.
  repeat destruct Hin as [->|Hin]; try subst d;
    lazymatch goal with |- ?v ≫= _ = Some ?d =>
      replace v with (Some d) by reflexivity; simpl mbind; by destruct (Z.ltb_spec d radix); [|lia] end.
Qed.

(** The digits of a number are read back, whatever follows them. *)
Lemma read_digits_go radix limit max fuel n :
  (1 < radix ≤ 16)%Z → (0 ≤ n ≤ limit)%Z → (n < radix ^ Z.of_nat (S fuel))%Z → S fuel ≤ max →
  ∃ k, 1 ≤ k ≤ S fuel ∧ ∀ rest,
    read_digits radix limit max 0 0 (digits_go radix fuel n rest) = read_digits radix limit max k n rest.
Proof.
  intros Hr. revert n. induction fuel as [|fuel IH]; intros n Hn Hlt Hmax.
  all: assert ((n < radix)%Z → ∀ rest,
    read_digits radix limit max 0 0 (String (digit_char n) rest) = read_digits radix limit max 1 n rest) as Hone
    by (intros Hs rest; cbn [read_digits]; rewrite digit_char_read by lia; replace (0 * radix + n)%Z with n by lia;
        destruct (Z.ltb_spec limit n); [lia|]; destruct (Nat.ltb_spec max 1); [lia|done]).
  - exists 1. split; [lia|]. apply Hone. by rewrite Z.pow_1_r in Hlt.
  - cbn [digits_go]. destruct (Z.ltb_spec n radix) as [Hs|Hs]; [exists 1; split; [lia|by apply Hone]|].
    assert (0 ≤ n / radix ≤ n)%Z as Hq by (split; [apply Z.div_pos|apply Z.div_le_upper_bound]; nia).
    destruct (IH (n / radix)%Z) as (k & Hk & E); [lia| |lia|].
    { apply Z.div_lt_upper_bound; [lia|]. rewrite Nat2Z.inj_succ, Z.pow_succ_r in Hlt by lia. done. }
    exists (S k). split; [lia|]. intros rest. rewrite E. cbn [read_digits].
    pose proof (Z.mod_pos_bound n radix ltac:(lia)). rewrite digit_char_read by lia.
    rewrite (Z.mul_comm (n / radix)), <- Z.div_mod by lia.
    destruct (Z.ltb_spec limit n); [lia|]. destruct (Nat.ltb_spec max (S k)); [lia|done].
Qed.

Lemma digits_go_app radix fuel n r rest : digits_go radix fuel n r +:+ rest = digits_go radix fuel n (r +:+ rest).
Proof.
  revert n r. induction fuel as [|fuel IH]; intros n r; cbn [digits_go]; [done|].
  destruct (_ <? _)%Z; [done|]. by rewrite IH.
Qed.

Lemma read_group_text n rest :
  group n → ends_number 16 rest → read_number 16 65535 4 true (hex_text n +:+ rest) = Some (n, rest).
Proof.
  intros Hn Hr. apply read_number_app; [done|]. unfold read_number, hex_text.
  destruct (read_digits_go 16 65535 4 3 n) as (k & Hk & E); [lia|done|unfold group in Hn; lia|lia|].
  rewrite E. cbn [read_digits]. by destruct k; [lia|].
Qed.

Lemma dec_text_length n : octet n → 1 ≤ String.length (dec_text n) ≤ 3.
Proof.
  intros Hn.
  pose proof (below_checked (λ n, (1 <=? String.length (dec_text n))%nat && (String.length (dec_text n) <=? 3)%nat) 256 n) as H.
  rewrite andb_true_iff, !Nat.leb_le in H. apply H; [by vm_compute|]. unfold octet in Hn. lia.
Qed.

Lemma read_ipv4_text a b c d rest :
  octet a → octet b → octet c → octet d → ends_number 10 rest →
  read_ipv4_addr (dotted (a, b, c, d) +:+ rest) = Some ((a, b, c, d), rest).
Proof.
  intros Ha Hb Hc Hd Hr. unfold read_ipv4_addr, read_octet, dotted. cbn [read_separator].
  rewrite !string_app_assoc, string_app_cons, string_app_assoc, string_app_cons, string_app_assoc, string_app_cons.
  rewrite read_octet_text by done. cbn [mbind option_bind read_char]. rewrite decide_True by done.
  cbn [mbind option_bind]. rewrite read_octet_text by done. cbn [mbind option_bind read_char].
  rewrite decide_True by done. cbn [mbind option_bind]. rewrite read_octet_text by done.
  cbn [mbind option_bind read_char]. rewrite decide_True by done. cbn [mbind option_bind].
  by rewrite read_octet_text.
Qed.

(** What [dotted] writes is read back. *)
Lemma ipv4_parse_text a b c d :
  octet a → octet b → octet c → octet d → ipv4_parse (dotted (a, b, c, d)) = Some (a, b, c, d).
Proof.
  intros Ha Hb Hc Hd. unfold ipv4_parse, parse_all.
  assert (String.length (dotted (a, b, c, d)) ≤ 15) as Hl.
  { unfold dotted. repeat (rewrite string_length_app; cbn [String.length]).
    pose proof (dec_text_length a Ha). pose proof (dec_text_length b Hb). pose proof (dec_text_length c Hc).
    pose proof (dec_text_length d Hd). lia. }
  destruct (Nat.ltb_spec 15 (String.length (dotted (a, b, c, d)))); [lia|].
  rewrite <- (string_app_nil_r (dotted _)), read_ipv4_text by done. done.
Qed.

(** *** IPv6 *)

Lemma colon_ends radix rest : ends_number radix (String colon rest).
Proof. done. Qed.

(** Text without a dot holds no IPv4 address. *)
Lemma read_digits_no_dot radix limit max count acc s x :
  no_char dot s = true → read_digits radix limit max count acc s = Some x → no_char dot x.2 = true.
Proof.
  revert count acc. induction s as [|c s IH]; intros count acc; cbn [read_digits]; [by intros _ [= <-]|].
  intros Hn. destruct (to_digit_radix radix c); [|by intros [= <-]].
  destruct (_ <? _)%Z; [done|]. destruct (_ <? _); [done|]. apply IH. by apply andb_prop in Hn as [_ ?].
Qed.

Lemma read_ipv4_no_dot s : no_char dot s = true → read_ipv4_addr s = None.
Proof.
  intros Hn. unfold read_ipv4_addr. destruct (read_octet 0 s) as [[a r]|] eqn:E; [|done].
  unfold read_octet, read_separator, read_number in E.
  destruct (read_digits 10 255 3 0 0 s) as [[[x k] r']|] eqn:Ed; [|done].
  apply read_digits_no_dot in Ed; [|done]. destruct (k =? 0)%nat; [done|]. destruct (_ && _ && _); [done|].
  injection E as -> ->. cbn in Ed |- *. destruct r as [|c r]; [done|]. cbn in *.
  apply andb_prop in Ed as [Hc _]. rewrite decide_False; [done|]. intros ->. by rewrite Ascii.eqb_refl in Hc.
Qed.

Lemma no_char_app c s t : no_char c (s +:+ t) = no_char c s && no_char c t.
Proof. induction s as [|d s IH]; [done|]. simpl. by rewrite IH, andb_assoc. Qed.

Lemma digit_char_not_dot d : (0 ≤ d < 16)%Z → negb (Ascii.eqb (digit_char d) dot) = true.
Proof.
  intros Hd. pose proof (digit_char_read 16 d ltac:(lia) Hd) as H.
  destruct (Ascii.eqb_spec (digit_char d) dot) as [E|]; [|done]. by rewrite E in H.
Qed.

Lemma hex_text_no_dot n : group n → no_char dot (hex_text n) = true.
Proof.
  assert (∀ fuel n rest, (0 ≤ n < 16 ^ Z.of_nat (S fuel))%Z → no_char dot rest = true →
    no_char dot (digits_go 16 fuel n rest) = true) as H.
  { induction fuel as [|fuel IH]; intros m rest Hm Hr; cbn [digits_go].
    { simpl. rewrite Hr, digit_char_not_dot; [done|]. by rewrite Z.pow_1_r in Hm. }
    pose proof (Z.mod_pos_bound m 16 ltac:(lia)).
    destruct (Z.ltb_spec m 16); [simpl; rewrite Hr, digit_char_not_dot; [done|lia]|].
    apply IH; [|simpl; rewrite Hr, digit_char_not_dot; [done|lia]].
    rewrite Nat2Z.inj_succ, Z.pow_succ_r in Hm by lia. split; [apply Z.div_pos; lia|].
    apply Z.div_lt_upper_bound; lia. }
  intros Hn. apply H; [|done]. unfold group in Hn. lia.
Qed.

Lemma hex_groups_no_dot gs : Forall group gs → no_char dot (hex_groups gs) = true.
Proof.
  induction 1 as [|g gs Hg Hgs IH]; [done|]. destruct gs as [|g' gs]; [by apply hex_text_no_dot|].
  change (hex_groups (g :: g' :: gs)) with (hex_text g +:+ String colon (hex_groups (g' :: gs))).
  rewrite no_char_app, hex_text_no_dot by done. exact IH.
Qed.

(** The separator before the [i]-th group, and the groups after it. *)
Definition more_groups (i : nat) (gs : list Z) : string :=
  match i, gs with
  | O, _ | _, [] => hex_groups gs
  | S _, _ => String colon (hex_groups gs)
  end.

Definition colon_before (i : nat) : string := match i with O => "" | S _ => String colon "" end.

(** What follows the groups: nothing, or the two colons of a gap. *)
Definition gap (rest : string) : Prop := rest = "" ∨ ∃ more, rest = String colon (String colon more).

Lemma read_groups_end limit i acc rest : gap rest → no_char dot rest = true →
  read_groups limit i acc rest = (acc, false, rest).
Proof.
  intros Hg Hn. destruct limit as [|limit]; [done|]. cbn [read_groups].
  assert ((if decide (limit = 0) then None else read_separator colon i read_ipv4_addr rest) = None) as ->.
  { case_decide; [done|]. destruct Hg as [->|[more ->]]; destruct i; [done..|by apply read_ipv4_no_dot|].
    apply read_ipv4_no_dot. simpl in Hn. done. }
  by destruct Hg as [->|[more ->]]; destruct i.
Qed.

Lemma read_groups_text limit i acc gs rest :
  Forall group gs → length gs ≤ limit → gap rest → no_char dot rest = true →
  read_groups limit i acc (more_groups i gs +:+ rest) = (acc ++ gs, false, rest).
Proof.
  intros Hgs. revert limit i acc. induction Hgs as [|g gs Hg Hgs IH]; intros limit i acc Hl Hgap Hn.
  { rewrite app_nil_r. replace (more_groups i []) with "" by (by destruct i). by apply read_groups_end. }
  destruct limit as [|limit]; simpl in Hl; [lia|]. cbn [read_groups].
  assert (more_groups i (g :: gs) = (colon_before i) +:+ (hex_text g +:+ more_groups 1 gs)) as ->.
  { destruct i, gs; simpl; by rewrite ?string_app_nil_r. }
  assert (ends_number 16 (more_groups 1 gs +:+ rest)) as He.
  { destruct gs; [destruct Hgap as [->|[? ->]]; done|done]. }
  assert (no_char dot (hex_text g +:+ (more_groups 1 gs +:+ rest)) = true) as Hd.
  { rewrite !no_char_app, hex_text_no_dot, Hn by done.
    rewrite andb_true_r. destruct gs as [|g' gs]; [done|]. exact (hex_groups_no_dot _ Hgs). }
  assert ((if decide (limit = 0) then None else read_separator colon i read_ipv4_addr
            (((colon_before i) +:+ (hex_text g +:+ more_groups 1 gs)) +:+ rest)) = None) as ->.
  { case_decide; [done|]. rewrite !string_app_assoc. destruct i; cbn; rewrite ?decide_True by done; cbn;
      by apply read_ipv4_no_dot. }
  rewrite !string_app_assoc.
  assert (read_separator colon i (read_number 16 65535 4 true)
    ((colon_before i) +:+ (hex_text g +:+ (more_groups 1 gs +:+ rest))) =
    Some (g, more_groups 1 gs +:+ rest)) as ->.
  { destruct i; cbn; rewrite ?decide_True by done; cbn; by apply read_group_text. }
  replace (more_groups 1 gs) with (more_groups (S i) gs) by (by destruct gs).
  rewrite IH by (done || lia). by rewrite <- app_assoc.
Qed.

(** An address written out in full, and one with a gap for groups of zero. *)
Lemma ipv6_parse_full gs : Forall group gs → length gs = 8 → ipv6_parse (hex_groups gs) = Some gs.
Proof.
  intros Hg Hl. unfold ipv6_parse, parse_all, read_ipv6_addr.
  pose proof (read_groups_text 8 0 [] gs "" Hg ltac:(lia) (or_introl eq_refl) eq_refl) as E.
  cbn [more_groups] in E. rewrite string_app_nil_r in E. rewrite E. cbn -[decide].
  rewrite decide_True by done. done.
Qed.

Lemma ipv6_parse_gap head tail :
  Forall group head → Forall group tail → length head + length tail ≤ 7 →
  ipv6_parse (hex_groups head +:+ String colon (String colon (hex_groups tail))) =
    Some (head ++ replicate (8 - length head - length tail) 0%Z ++ tail).
Proof.
  intros Hh Ht Hl. unfold ipv6_parse, parse_all, read_ipv6_addr.
  pose proof (read_groups_text 8 0 [] head (String colon (String colon (hex_groups tail))) Hh ltac:(lia)
    ltac:(right; eauto)) as E.
  cbn [more_groups app] in E. rewrite E by (simpl; by rewrite hex_groups_no_dot). clear E.
  rewrite decide_False by lia. cbn [read_char]. rewrite !decide_True by done. cbn [mbind option_bind].
  cbn [read_char]. rewrite decide_True by done. cbn [mbind option_bind].
  pose proof (read_groups_text (8 - (length head + 1)) 0 [] tail "" Ht ltac:(lia) (or_introl eq_refl) eq_refl) as E.
  cbn [more_groups app] in E. rewrite string_app_nil_r in E. rewrite E. cbn.
  done.
Qed.
