(* ===== verification/Doh.v ===== *)
(** * The DNS-over-HTTPS client (crates/squawk-client/src/doh.rs)

    Which servers and names are accepted, how the TLS set-up is put together,
    and how a query goes round the servers until one answers.  The network is
    a [Wire]: what each request meets and how long it takes.  Time passes
    while a request or a pause lasts, and a [deadline] is the instant at which
    [tokio::time::timeout] drops the query, with what it has done so far
    done. *)
From S2P Require Import Prelude.
From S2P Require Import Text.
From S2P Require Import Mask.
From S2P Require Import DnsCache.
From S2P Require Import Pem.
From S2P Require Import NetAddr.

(** ** Configuration and data *)

Definition DEFAULT_TIMEOUT : Z := 30000.                  (* milliseconds *)
Definition DEFAULT_RETRY_DELAY : Z := 2 * 1000000000.      (* nanoseconds, as every duration below *)
Definition IDLE_CONNECTIONS_PER_HOST : Z := 10.
Definition IDLE_CONNECTION_TIMEOUT : Z := 30 * 1000000000.
Definition USER_AGENT : string := "Squawk DNS Client (Rust)".

Definition ALLOWED_DOH_HOSTS : list string :=
  ["dns.google"; "dns.google.com"; "cloudflare-dns.com"; "1.1.1.1"; "1.0.0.1"; "dns.quad9.net";
   "dns.opendns.com"; "doh.opendns.com"; "dns.nextdns.io"; "doh.cleanbrowsing.org"].

Definition VALID_RECORD_TYPES : list string :=
  ["A"; "AAAA"; "CNAME"; "MX"; "TXT"; "NS"; "SOA"; "PTR"; "SRV"; "CAA"; "DNSKEY"; "DS"; "NAPTR";
   "SSHFP"; "TLSA"; "ANY"].

Record Config := mkConfig {
  server_url : string;
  server_urls : list string;
  auth_token : string;
  client_cert : string;
  client_key : string;
  ca_cert : string;
  verify_ssl : bool;
  max_retries : Z;
  retry_delay : Z;
}.

Definition Config_default : Config := mkConfig "" [] "" "" "" "" true 0 0.

Record DnsResponse := mkDnsResponse {
  rs_status : Z;
  rs_tc : bool;
  rs_rd : bool;
  rs_ra : bool;
  rs_ad : bool;
  rs_cd : bool;
  rs_question : list DnsRecord;
  rs_answer : list DnsRecord;
  rs_comment : string;
  rs_ttl : Z;
}.

Definition type_int_to_str (type_int : Z) : string :=
  let known :=
    if (type_int =? 1)%Z then Some "A"
    else if (type_int =? 2)%Z then Some "NS"
    else if (type_int =? 5)%Z then Some "CNAME"
    else if (type_int =? 6)%Z then Some "SOA"
    else if (type_int =? 12)%Z then Some "PTR"
    else if (type_int =? 15)%Z then Some "MX"
    else if (type_int =? 16)%Z then Some "TXT"
    else if (type_int =? 28)%Z then Some "AAAA"
    else if (type_int =? 33)%Z then Some "SRV"
    else None in
  match known with
  | Some name => name
  | None => "TYPE" +:+ pretty type_int
  end.

Definition as_type_str (k : RecordKind) : string :=
  match k with
  | KText text => text
  | KInt value => type_int_to_str value
  end.

Inductive DohError :=
| NoServerUrls
| InvalidServerUrl (index : Z) (message : string)
| InvalidName (message : string)
| InvalidRecordType (message : string)
| HttpSetup (message : string)
| Cancelled
| AllServersFailed (attempts : Z) (errors : list string).

Definition DohError_display (e : DohError) : string :=
  match e with
  | NoServerUrls => "no server URLs provided"
  | InvalidServerUrl index message =>
      "invalid server URL at index " +:+ pretty index +:+ ": " +:+ message
  | InvalidName message => message
  | InvalidRecordType message => message
  | HttpSetup message => "failed to set up HTTP client: " +:+ message
  | Cancelled => "query cancelled"
  | AllServersFailed attempts errors =>
      "all DNS servers failed after " +:+ pretty attempts +:+ " attempts: " +:+ String.concat "; " errors
  end.

(** ** Names and record types *)

(** [{VALID_RECORD_TYPES:?}]; the names need no escaping. *)
Definition quote : string := String (Ascii.ascii_of_nat 34) "".
Definition debug_list (l : list string) : string :=
  "[" +:+ String.concat ", " (map (λ s, quote +:+ s +:+ quote) l) +:+ "]".

Definition validate_record_type (record_type : string) : result unit string :=
  if decide (record_type ∈ VALID_RECORD_TYPES) then Ok ()
  else Err ("invalid DNS record type '" +:+ record_type +:+ "': must be one of " +:+
            debug_list VALID_RECORD_TYPES).

Definition normalize_record_type (record_type : string) : result string DohError :=
  let candidate := if decide (record_type = "") then "A" else record_type in
  let upper := to_ascii_uppercase candidate in
  let? _ := map_err InvalidRecordType (validate_record_type upper) in
  Ok upper.

Definition is_ascii_alphanumeric (c : Ascii.ascii) : bool :=
  let n := code c in
  ((48 <=? n) && (n <=? 57)) || ((65 <=? n) && (n <=? 90)) || ((97 <=? n) && (n <=? 122)).

Definition hyphen : Ascii.ascii := Ascii.ascii_of_nat 45.

Fixpoint str_last (s : string) : option Ascii.ascii :=
  match s with
  | EmptyString => None
  | String c EmptyString => Some c
  | String _ s' => str_last s'
  end.

Definition is_valid_label (label : string) : bool :=
  match label with
  | EmptyString => false
  | String first _ =>
      match str_last label with
      | None => false
      | Some last =>
          if negb (is_ascii_alphanumeric first) || negb (is_ascii_alphanumeric last) then false
          else all_chars (λ c, is_ascii_alphanumeric c || Ascii.eqb c hyphen) label
      end
  end.

(** [strip_suffix('.')] *)
Fixpoint strip_suffix_char (d : Ascii.ascii) (s : string) : option string :=
  match s with
  | EmptyString => None
  | String c EmptyString => if decide (c = d) then Some "" else None
  | String c s' => String c <$> strip_suffix_char d s'
  end.

Definition INVALID_CHARS : string :=
  " !@#$%^&*()+={}[]|\:;" +:+ quote +:+ "'<>,?/`~".

Definition char_in (c : Ascii.ascii) (s : string) : bool := negb (no_char c s).

(** One label of the loop, the [index]-th. *)
Definition check_label (index : nat) (is_last : bool) (label : string) : result unit string :=
  if decide (label = "") then Err ("DNS name contains empty label at position " +:+ pretty index)
  else if 63 <? String.length label then
    Err ("DNS label '" +:+ label +:+ "' too long: " +:+ pretty (String.length label) +:+
         " characters (max 63)")
  else if is_last && bool_decide (label = "arpa") then Ok ()
  else if String.prefix "xn--" label then Ok ()
  else if negb (is_valid_label label) then
    Err ("invalid DNS label '" +:+ label +:+
         "': must start/end with alphanumeric and contain only letters, digits, and hyphens")
  else if contains "--" label then
    Err ("invalid DNS label '" +:+ label +:+ "': contains consecutive hyphens")
  else Ok ().

Fixpoint check_labels (index : nat) (labels : list string) : result unit string :=
  match labels with
  | [] => Ok ()
  | label :: rest =>
      let? _ := check_label index (bool_decide (rest = [])) label in
      check_labels (S index) rest
  end.

Definition validate_dns_name (domain : string) : result unit string :=
  if decide (domain = "") then Err "DNS name cannot be empty"
  else if 253 <? String.length domain then
    Err ("DNS name too long: " +:+ pretty (String.length domain) +:+ " characters (max 253)")
  else
    let trimmed := default domain (strip_suffix_char dot domain) in
    if negb (all_chars (λ c, negb (char_in c INVALID_CHARS)) trimmed) then
      Err "DNS name contains invalid characters"
    else check_labels 0 (split_on dot trimmed).

(** ** Server addresses *)

(** The [url] crate: a parsed URL, its parts, and printing it. *)
Class UrlCrate := {
  Url : Type;
  url_parse : string → result Url string;
  url_scheme : Url → string;
  url_host_str : Url → option string;
  url_path : Url → string;
  url_set_path : string → Url → Url;
  url_to_string : Url → string;
}.

(** The name itself, or what begins with it and a dot. *)
Definition host_allowed (host_lower : string) : bool :=
  existsb (λ allowed, bool_decide (host_lower = allowed) || String.prefix (allowed +:+ ".") host_lower)
    ALLOWED_DOH_HOSTS.

Section Client.
  Context `{UrlCrate}.

Definition validate_server_url (server_url : string) : result unit string :=
  if decide (server_url = "") then Err "server URL cannot be empty"
  else
    let? parsed := map_err (λ err, "invalid server URL format: " +:+ err) (url_parse server_url) in
    if negb (bool_decide (url_scheme parsed = "https")) && negb (bool_decide (url_scheme parsed = "http")) then
      Err ("server URL must use http or https scheme, got: " +:+ url_scheme parsed)
    else
      match url_host_str parsed with
      | None => Err "server URL must include a host"
      | Some host =>
          if is_ip_addr host then Ok ()
          else if decide (to_ascii_lowercase host = "localhost") then Ok ()
          else if host_allowed (to_ascii_lowercase host) then Ok ()
          else Err ("server URL must use an IP address (not hostname '" +:+ host +:+
                    "') to prevent DNS resolution loops. Use the IP address of your DNS server instead")
      end.

Definition normalize_server_url (server_url : string) : string :=
  match url_parse server_url with
  | Err _ => server_url
  | Ok parsed =>
      let path_is_default := bool_decide (url_path parsed = "") || bool_decide (url_path parsed = "/") in
      if negb path_is_default then url_to_string parsed
      else
        let host := to_ascii_lowercase (default "" (url_host_str parsed)) in
        url_to_string (url_set_path (if contains "dns.google" host then "/resolve" else "/dns-query") parsed)
  end.

(** ** TLS *)

(** What a connection is verified with. *)
Inductive Verifier :=
| VerifyWebpki
| VerifyRoots (certs : list string)
| VerifyNothing.

Record TlsConfig := mkTls {
  tls_verifier : Verifier;
  tls_identity : option (list string * PrivateKeyDer);
}.

(** [rustls] and [reqwest]: accepting a root certificate, a client identity,
    and building the client. *)
Class TlsCrates := {
  store_add : string → result unit string;
  client_auth_cert : list string → PrivateKeyDer → result unit string;
  http_build : TlsConfig → result unit string;
}.

  Context `{TlsCrates} `{Base64} (read_to_string : string → result string string).

Fixpoint add_certs (certs : list string) : result unit string :=
  match certs with
  | [] => Ok ()
  | cert :: certs =>
      let? _ := map_err (λ err, "invalid CA certificate: " +:+ err) (store_add cert) in
      add_certs certs
  end.

Definition build_root_store (config : Config) : result Verifier string :=
  if decide (ca_cert config = "") then Ok VerifyWebpki
  else
    let? certs := map_err PemError_display (load_certificate_chain read_to_string (ca_cert config)) in
    let? _ := add_certs certs in
    Ok (VerifyRoots certs).

Definition load_client_identity (config : Config) : result (list string * PrivateKeyDer) string :=
  let? chain := map_err PemError_display (load_certificate_chain read_to_string (client_cert config)) in
  let? key := map_err PemError_display (load_private_key read_to_string (client_key config)) in
  Ok (chain, key).

Definition build_tls_config (config : Config) : result TlsConfig string :=
  let? verifier := (if verify_ssl config then build_root_store config else Ok VerifyNothing) in
  let has_client_cert := negb (bool_decide (client_cert config = "")) in
  let has_client_key := negb (bool_decide (client_key config = "")) in
  if xorb has_client_cert has_client_key then
    Err "client_cert and client_key must both be set, or both be empty, for mTLS"
  else if has_client_cert && has_client_key then
    let? identity := load_client_identity config in
    let? _ := map_err (λ err, "invalid client certificate/key: " +:+ err)
                (client_auth_cert identity.1 identity.2) in
    Ok (mkTls verifier (Some identity))
  else Ok (mkTls verifier None).

Definition build_http_client (config : Config) : result TlsConfig string :=
  let? tls := build_tls_config config in
  let? _ := http_build tls in
  Ok tls.

(** ** The client *)

Record DohClient := mkDoh {
  dc_server_urls : list string;
  dc_auth_token : string;
  dc_http : TlsConfig;
  dc_timeout_millis : Z;
  dc_max_retries : Z;
  dc_retry_delay : Z;
  dc_current_index : Z;
}.

(** The loop of [new] over the URLs. *)
Fixpoint prepare_urls (index : Z) (urls : list string) : result (list string) DohError :=
  match urls with
  | [] => Ok []
  | url :: urls =>
      let? _ := map_err (InvalidServerUrl index) (validate_server_url url) in
      let? rest := prepare_urls (index + 1) urls in
      Ok (normalize_server_url url :: rest)
  end.

Definition doh_new (config : Config) : result DohClient DohError :=
  let? urls := (match server_urls config with
                | [] => if decide (server_url config = "") then Err NoServerUrls
                        else Ok [server_url config]
                | urls => Ok urls
                end) in
  let? urls := prepare_urls 0 urls in
  let retries := if (0 <? max_retries config)%Z then max_retries config
                 else (Z.of_nat (length urls) * 2)%Z in
  let delay := if (0 <? retry_delay config)%Z then (retry_delay config * 1000000000)%Z
               else DEFAULT_RETRY_DELAY in
  let? http := map_err HttpSetup (build_http_client config) in
  Ok (mkDoh urls (auth_token config) http DEFAULT_TIMEOUT retries delay 0).
End Client.

(** ** The network *)

Inductive Method := GET | POST.

Record Request := mkRequest {
  rq_method : Method;
  rq_url : string;
  rq_name : string;
  rq_type : string;
  rq_bearer : option string;
  rq_timeout : Z;                        (* milliseconds *)
}.

Inductive HttpOutcome :=
| SendFailed (err : string)
| BodyFailed (err : string)
| Replied (status : Z) (body : string).

(** The clock, the requests sent so far, and what the [n]-th request of the
    run will meet and how long that takes. *)
Record Wire := mkWire {
  w_now : Z;
  w_sent : list Request;
  w_answer : nat → Request → HttpOutcome * Z;
}.

Definition pass (d : Z) (w : Wire) : Wire := mkWire (w_now w + d) (w_sent w) (w_answer w).
Definition at_instant (t : Z) (w : Wire) : Wire := mkWire t (w_sent w) (w_answer w).
Definition sending (rq : Request) (w : Wire) : Wire := mkWire (w_now w) (w_sent w ++ [rq]) (w_answer w).

(** JSON, and the texts of status codes and of bytes in error messages. *)
Class DohCodec := {
  decode_response : string → result DnsResponse string;
  status_text : Z → string;
  from_utf8_lossy : string → string;
}.

Definition is_success (status : Z) : bool := (200 <=? status)%Z && (status <? 300)%Z.

(** ** Querying *)

(** The query was dropped when its time was over. *)
Inductive Elapsed := TimedOut.

Section Query.
  Context `{DohCodec} (cancelled_at deadline : option Z).

Abbreviation St := (DohClient * Wire)%type.
Abbreviation Timed := (eff St Elapsed).

(** Waiting for [d]: the time is over when the deadline comes first. *)
Definition wait (d : Z) : Timed unit := λ '(c, w),
  match deadline with
  | Some t => if (t <? w_now w + d)%Z then (Err TimedOut, (c, at_instant t w))
              else (Ok (), (c, pass d w))
  | None => (Ok (), (c, pass d w))
  end.

Definition send (rq : Request) : Timed HttpOutcome := λ '(c, w),
  let '(outcome, d) := w_answer w (length (w_sent w)) rq in
  (let! _ := wait d in pure (Ok outcome)) (c, sending rq w).

(** [timeout_millis] and [auth_token], as every request carries them. *)
Definition request (c : DohClient) (method : Method) (url name record_type : string) : Request :=
  mkRequest method url name record_type
    (if decide (dc_auth_token c = "") then None else Some (dc_auth_token c)) (dc_timeout_millis c).

(** The reply as a response, or the message of the failure. *)
Definition read_reply (outcome : HttpOutcome) : result DnsResponse string :=
  match outcome with
  | SendFailed err => Err ("HTTP request failed: " +:+ err)
  | BodyFailed err => Err ("failed to read response body: " +:+ err)
  | Replied status body =>
      if negb (is_success status) then
        Err ("HTTP " +:+ status_text status +:+ ": " +:+ from_utf8_lossy body)
      else map_err (λ err, "failed to parse DNS response: " +:+ err) (decode_response body)
  end.

Definition try_get (server_url domain record_type : string) : Timed (result DnsResponse string) := λ '(c, w),
  (let! outcome := send (request c GET server_url domain record_type) in
   pure (Ok (read_reply outcome))) (c, w).

(** Whether the pause went by without the token being cancelled. *)
Definition wait_for_retry : Timed bool := λ '(c, w),
  match cancelled_at with
  | Some t =>
      if (t <=? w_now w + dc_retry_delay c)%Z
      then (let! _ := wait (Z.max 0 (t - w_now w)) in pure (Ok false)) (c, w)
      else (let! _ := wait (dc_retry_delay c) in pure (Ok true)) (c, w)
  | None => (let! _ := wait (dc_retry_delay c) in pure (Ok true)) (c, w)
  end.

Definition current_server (c : DohClient) : string :=
  nth (Z.to_nat (dc_current_index c mod Z.of_nat (length (dc_server_urls c)))) (dc_server_urls c) "".

Definition advance_server (c : DohClient) : DohClient :=
  mkDoh (dc_server_urls c) (dc_auth_token c) (dc_http c) (dc_timeout_millis c) (dc_max_retries c)
    (dc_retry_delay c) (wrap_u64 (dc_current_index c + 1)).

Definition timeout (c : DohClient) : Z := dc_timeout_millis c.

(** The [as u64] cast of the milliseconds. *)
Definition set_timeout (millis : Z) (c : DohClient) : DohClient :=
  mkDoh (dc_server_urls c) (dc_auth_token c) (dc_http c) (wrap_u64 millis) (dc_max_retries c)
    (dc_retry_delay c) (dc_current_index c).

(** The loop of [query] from [attempt] with [remaining] attempts to go. *)
Fixpoint query_loop (domain record_type : string) (remaining attempt : nat) (errors : list string) :
    Timed (result DnsResponse DohError) := λ '(c, w),
  match remaining with
  | O => (Ok (Err (AllServersFailed (dc_max_retries c) errors)), (c, w))
  | S remaining =>
      let server_url := current_server c in
      (let! outcome := try_get server_url domain record_type in
       match outcome with
       | Ok response => pure (Ok (Ok response))
       | Err message => λ '(c, w),
           let errors := errors ++ [server_url +:+ ": " +:+ message] in
           let c := advance_server c in
           if (Z.of_nat attempt + 1 <? dc_max_retries c)%Z then
             (let! go_on := wait_for_retry in
              if go_on then query_loop domain record_type remaining (S attempt) errors
              else pure (Ok (Err Cancelled))) (c, w)
           else query_loop domain record_type remaining (S attempt) errors (c, w)
       end) (c, w)
  end.

Definition query (domain record_type : string) : Timed (result DnsResponse DohError) := λ '(c, w),
  match normalize_record_type record_type with
  | Err e => (Ok (Err e), (c, w))
  | Ok record_type =>
      match validate_dns_name domain with
      | Err e => (Ok (Err (InvalidName e)), (c, w))
      | Ok _ => query_loop domain record_type (Z.to_nat (dc_max_retries c)) 0 [] (c, w)
      end
  end.

Definition query_with_json (domain record_type : string) : Timed (result DnsResponse DohError) := λ '(c, w),
  match normalize_record_type record_type with
  | Err e => (Ok (Err e), (c, w))
  | Ok record_type =>
      match validate_dns_name domain with
      | Err e => (Ok (Err (InvalidName e)), (c, w))
      | Ok _ =>
          if decide (dc_server_urls c = []) then (Ok (Err NoServerUrls), (c, w))
          else
            let server_url := current_server c in
            (let! outcome := send (request c POST server_url domain record_type) in
             pure (Ok (map_err (λ message, AllServersFailed 1 [server_url +:+ ": " +:+ message])
                         (read_reply outcome)))) (c, w)
      end
  end.
End Query.
