(* ===== verification/DohProps.v ===== *)
(** * What the DNS-over-HTTPS client promises

    Which servers pass the check, which names may be asked, and how the
    attempts of a query go round the servers. *)
From S2P Require Import Prelude.
From S2P Require Import Text.
From S2P Require Import Mask.
From S2P Require Import DnsCache.
From S2P Require Import Pem.
From S2P Require Import NetAddr.
From S2P Require Import Doh.

(** ** Servers *)

Section Servers.
  Context `{UrlCrate}.

Lemma host_allowed_spec host :
  host_allowed host = true ↔
  ∃ allowed, allowed ∈ ALLOWED_DOH_HOSTS ∧ (host = allowed ∨ ∃ rest, host = allowed +:+ "." +:+ rest).
Proof.
  unfold host_allowed. rewrite existsb_exists. setoid_rewrite list_elem_of_In.
  split; intros (a & Ha & Hh); exists a; (split; [done|]).
  - apply orb_true_iff in Hh as [Hh%bool_decide_eq_true|(r & ->)%prefix_inv]; [by left|right].
    exists r. by rewrite string_app_assoc.
  - apply orb_true_iff. destruct Hh as [->|(r & ->)]; [left; by apply bool_decide_eq_true|right].
    rewrite <- string_app_assoc. apply prefix_app.
Qed.

(** A server may be used when its URL has a host that [ok] accepts. *)
Definition server_ok (ok : string → Prop) (s : string) : Prop :=
  s ≠ "" ∧ ∃ u host, url_parse s = Ok u ∧ url_scheme u ∈ ["https"; "http"] ∧
    url_host_str u = Some host ∧ ok host.

Definition host_ok (host : string) : Prop :=
  is_ip_addr host = true ∨ to_ascii_lowercase host = "localhost" ∨
  ∃ allowed, allowed ∈ ALLOWED_DOH_HOSTS ∧
    (to_ascii_lowercase host = allowed ∨ ∃ rest, to_ascii_lowercase host = allowed +:+ "." +:+ rest).

Lemma validate_server_url_spec s : validate_server_url s = Ok () ↔ server_ok host_ok s.
Proof.
  unfold validate_server_url, server_ok, host_ok. destruct (decide (s = "")) as [->|Hs]; [naive_solver|].
  destruct (url_parse s) as [u|e]; simpl; [|naive_solver].
  assert (url_scheme u ∈ ["https"; "http"] ↔
    negb (bool_decide (url_scheme u = "https")) && negb (bool_decide (url_scheme u = "http")) = false) as Hsch.
  { rewrite elem_of_cons, list_elem_of_singleton. do 2 case_bool_decide; simpl; naive_solver. }
  destruct (negb _ && negb _).
  { split; [done|]. intros (_ & ? & ? & [= <-] & Hin & _). by apply Hsch in Hin. }
  destruct (url_host_str u) as [host|] eqn:Eh; [|naive_solver].
  pose proof (host_allowed_spec (to_ascii_lowercase host)) as Ha.
  destruct (is_ip_addr host) eqn:Ei; [naive_solver|].
  destruct (decide (to_ascii_lowercase host = "localhost")) as [El|El]; [naive_solver|].
  destruct (host_allowed _).
  - split; [|done]. intros _. split; [done|]. exists u, host. naive_solver.
  - split; [done|]. intros (_ & u' & host' & [= <-] & _ & Eh' & Hok). rewrite Eh in Eh'. simplify_eq.
    naive_solver congruence.
Qed.

Lemma host_refused host :
  is_ip_addr host = false → to_ascii_lowercase host ≠ "localhost" →
  host_allowed (to_ascii_lowercase host) = false → ¬ host_ok host.
Proof.
  intros Hi Hl Ha [?|[?|He%host_allowed_spec]]; congruence.
Qed.

Lemma refused s u :
  url_parse s = Ok u → (∀ host, url_host_str u = Some host → ¬ host_ok host) →
  ∃ e, validate_server_url s = Err e.
Proof.
  intros Hp Hn. destruct (validate_server_url s) as [[]|e] eqn:E; [|eauto].
  apply validate_server_url_spec in E as (_ & u' & host & Hp' & _ & Hh & Hok).
  assert (u' = u) as -> by congruence. by apply Hn in Hh.
Qed.

(** The check of a server's host looks at the wrong end of the name.  It
    lets through every host that begins with an allowed name and a dot, such
    as a domain anyone can register below [dns.google.], while the host names
    below an allowed one are refused; and an IPv6 literal, which a URL holds
    between brackets, is not recognized as an address and refused as well. *)
Theorem server_host_check (s : string) (u : Url) :
  s ≠ "" → url_parse s = Ok u → url_scheme u = "https" →
  (∀ allowed domain, allowed ∈ ALLOWED_DOH_HOSTS →
     to_ascii_lowercase (allowed +:+ "." +:+ domain) = allowed +:+ "." +:+ domain →
     url_host_str u = Some (allowed +:+ "." +:+ domain) → validate_server_url s = Ok ()) ∧
  (url_host_str u = Some "public.dns.google" → ∃ e, validate_server_url s = Err e) ∧
  (∀ address, url_host_str u = Some ("[" +:+ address) → ∃ e, validate_server_url s = Err e).
Proof.
  intros Hs Hp Hh. split_and!.
  - intros allowed domain Ha Hl E. apply validate_server_url_spec. split; [done|].
    exists u, (allowed +:+ "." +:+ domain). split_and!; [done|rewrite Hh; by left|done|].
    right. right. exists allowed. split; [done|]. right. by exists domain.
  - intros E. apply (refused s u); [done|]. rewrite E. intros host [= <-]. by apply host_refused.
  - intros address E. apply (refused s u); [done|]. rewrite E. intros host [= <-]. by apply host_refused.
Qed.
End Servers.

(** ** Names *)

(** A label as RFC 1035 has it, with the two exceptions the client makes. *)
Definition label_ok (is_last : bool) (label : string) : Prop :=
  label ≠ "" ∧ String.length label ≤ 63 ∧
  (is_last = true ∧ label = "arpa" ∨ String.prefix "xn--" label = true ∨
   is_valid_label label = true ∧ contains "--" label = false).

Fixpoint labels_ok (labels : list string) : Prop :=
  match labels with
  | [] => True
  | label :: rest => label_ok (bool_decide (rest = [])) label ∧ labels_ok rest
  end.

Lemma check_label_spec i is_last label : check_label i is_last label = Ok () ↔ label_ok is_last label.
Proof.
  unfold check_label, label_ok. destruct (decide (label = "")) as [->|Hne]; [naive_solver|].
  destruct (Nat.ltb_spec 63 (String.length label)); [split; [done|lia]|].
  destruct is_last; simpl; [case_bool_decide|]; [naive_solver|..].
  all: destruct (String.prefix "xn--" label); [naive_solver|].
  all: destruct (is_valid_label label); simpl; [|naive_solver].
  all: destruct (contains "--" label); naive_solver.
Qed.

Lemma check_labels_spec labels i : check_labels i labels = Ok () ↔ labels_ok labels.
Proof.
  revert i. induction labels as [|label labels IH]; intros i; [done|]. cbn [check_labels labels_ok].
  rewrite <- (check_label_spec i), <- (IH (S i)).
  destruct (check_label _ _ _) as [[]|]; simpl; [by split; [|intros []]|by split; [|intros []]].
Qed.

Lemma validate_dns_name_spec domain :
  validate_dns_name domain = Ok () ↔
  domain ≠ "" ∧ String.length domain ≤ 253 ∧
  let trimmed := default domain (strip_suffix_char dot domain) in
  all_chars (λ c, negb (char_in c INVALID_CHARS)) trimmed = true ∧ labels_ok (split_on dot trimmed).
Proof.
  unfold validate_dns_name. destruct (decide (domain = "")) as [->|Hne]; [naive_solver|].
  destruct (Nat.ltb_spec 253 (String.length domain)); [split; [done|lia]|].
  cbv zeta. destruct (all_chars _ _); simpl; [rewrite check_labels_spec|]; naive_solver lia.
Qed.

Lemma strip_suffix_cons d c e t :
  strip_suffix_char d (String c (String e t)) = String c <$> strip_suffix_char d (String e t).
Proof. reflexivity. Qed.

(** Taking off a final dot leaves the text before an earlier dot alone. *)
Lemma trimmed_at_dot s t :
  let trimmed := default (s +:+ String dot t) (strip_suffix_char dot (s +:+ String dot t)) in
  trimmed = s ∨ ∃ rest, trimmed = s +:+ String dot rest.
Proof.
  cbv zeta. induction s as [|c s IH].
  - destruct t as [|e t]; [by left|right]. change ("" +:+ ?x) with x.
    rewrite strip_suffix_cons. destruct (strip_suffix_char dot (String e t)) as [r|]; by eexists.
  - rewrite string_app_cons.
    assert (∃ e u, s +:+ String dot t = String e u) as (e & u & Eu)
      by (destruct s as [|? s]; [by exists dot, t|eexists _, _; reflexivity]).
    rewrite Eu in IH |- *. rewrite strip_suffix_cons.
    destruct (strip_suffix_char dot (String e u)) as [r|]; simpl in *;
      (destruct IH as [->|(rest & ->)]; [by left|right; by exists rest]).
Qed.

(** Names of services begin with an underscore; none of them may be asked. *)
Lemma underscore_refused l d :
  no_char dot l = true → ∃ e, validate_dns_name (String (Ascii.ascii_of_nat 95) l +:+ String dot d) = Err e.
Proof.
  intros Hl. destruct (validate_dns_name _) as [[]|e] eqn:E; [|eauto]. exfalso.
  apply validate_dns_name_spec in E as (_ & _ & _ & Hlab). revert Hlab.
  assert (no_char dot (String (Ascii.ascii_of_nat 95) l) = true) as Hn by done.
  destruct (trimmed_at_dot (String (Ascii.ascii_of_nat 95) l) d) as [->|(rest & ->)];
    [rewrite split_no_char by done|rewrite split_app by done];
    cbn [labels_ok]; intros [(_ & _ & [[_ ?]|[?|[Hv _]]]) _]; try done.
  all: unfold is_valid_label in Hv; by destruct (str_last _).
Qed.

(** ** Attempts *)

(** The server of the [j]-th attempt from here on. *)
Definition server_at (c : DohClient) (j : nat) : string := current_server (Nat.iter j advance_server c).

Section Attempts.
  Context `{DohCodec} (cancelled_at deadline : option Z).

(** The [j]-th request of a query, and what comes of it. *)
Definition turn (c : DohClient) (domain ty : string) (j : nat) : Request :=
  request c GET (server_at c j) domain ty.

Definition outcome_at (c : DohClient) (w : Wire) (domain ty : string) (j : nat) : result DnsResponse string :=
  read_reply (w_answer w (length (w_sent w) + j) (turn c domain ty j)).1.

Lemma iter_advance_next j c : Nat.iter j advance_server (advance_server c) = Nat.iter (S j) advance_server c.
Proof. induction j as [|j IH]; [done|]. simpl. by rewrite IH. Qed.

Lemma server_at_next c j : server_at (advance_server c) j = server_at c (S j).
Proof. unfold server_at. by rewrite iter_advance_next. Qed.

Lemma turn_next c domain ty j : turn (advance_server c) domain ty j = turn c domain ty (S j).
Proof. unfold turn. by rewrite server_at_next. Qed.

(** The network has moved on by the requests [l]. *)
Definition moved_on (l : list Request) (w w' : Wire) : Prop :=
  w_sent w' = w_sent w ++ l ∧ w_answer w' = w_answer w.

Lemma outcome_next c w w' domain ty j :
  moved_on [turn c domain ty 0] w w' →
  outcome_at (advance_server c) w' domain ty j = outcome_at c w domain ty (S j).
Proof.
  intros [Hs Ha]. unfold outcome_at. rewrite Ha, Hs, turn_next, length_app. simpl.
  by replace (length (w_sent w) + 1 + j) with (length (w_sent w) + S j) by lia.
Qed.

Lemma wait_moves d c w r s :
  wait deadline d (c, w) = (r, s) →
  s.1 = c ∧ moved_on [] w s.2 ∧ (r = Ok () ∨ r = Err TimedOut ∧ is_Some deadline).
Proof.
  unfold wait, moved_on. destruct deadline as [t|]; [destruct (t <? _)%Z|]; intros [= <- <-]; simpl;
    rewrite app_nil_r; split_and!; eauto.
Qed.

Lemma try_get_moves c w domain ty r s :
  try_get deadline (server_at c 0) domain ty (c, w) = (r, s) →
  s.1 = c ∧ moved_on [turn c domain ty 0] w s.2 ∧
  (r = Ok (outcome_at c w domain ty 0) ∨ r = Err TimedOut ∧ is_Some deadline).
Proof.
  unfold try_get, send, eff_bind, pure, outcome_at. rewrite Nat.add_0_r. fold (turn c domain ty 0).
  destruct (w_answer w _ _) as [outcome d].
  destruct (wait deadline d (c, sending _ w)) as [r1 s1] eqn:E. apply wait_moves in E as (Hc & [Hs Ha] & Hr).
  rewrite app_nil_r in Hs. intros Hx.
  destruct Hr as [-> | [-> ?]]; injection Hx as <- <-; (split_and!; [done|done|auto]).
Qed.

Lemma retry_moves c w r s :
  wait_for_retry cancelled_at deadline (c, w) = (r, s) →
  s.1 = c ∧ moved_on [] w s.2 ∧
  (r = Ok true ∨ r = Ok false ∧ is_Some cancelled_at ∨ r = Err TimedOut ∧ is_Some deadline).
Proof.
  unfold wait_for_retry, eff_bind, pure.
  destruct cancelled_at as [t|]; [destruct (t <=? _)%Z|];
    match goal with |- context [wait deadline ?d (c, w)] => destruct (wait deadline d (c, w)) as [r1 s1] eqn:E end;
    apply wait_moves in E as (Hc & Hm & [-> | [-> ?]]); intros [= <- <-]; eauto 6.
Qed.

(** What a query that made the first [k] attempts of [n] may end with. *)
Definition ends (n k : nat) (reply : nat → result DnsResponse string) (max : Z) (errors : list string)
    (servers : nat → string) (r : result (result DnsResponse DohError) Elapsed) : Prop :=
  match r with
  | Ok (Ok response) => ∃ j, k = S j ∧ reply j = Ok response ∧ ∀ i, i < j → is_ok (reply i) = false
  | Ok (Err (AllServersFailed attempts errors')) =>
      k = n ∧ attempts = max ∧ ∃ ms, errors' = errors ++ imap (λ i m, servers i +:+ ": " +:+ m) ms ∧
        length ms = n ∧ ∀ i m, ms !! i = Some m → reply i = Err m
  | Ok (Err Cancelled) => is_Some cancelled_at ∧ ∀ i, i < k → is_ok (reply i) = false
  | Ok (Err _) => False
  | Err TimedOut => is_Some deadline ∧ ∀ i, S i < k → is_ok (reply i) = false
  end.

(** One more failed attempt in front. *)
Lemma ends_cons n k reply m max errors servers r :
  reply 0 = Err m →
  ends n k (reply ∘ S) max (errors ++ [servers 0 +:+ ": " +:+ m]) (servers ∘ S) r →
  ends (S n) (S k) reply max errors servers r.
Proof.
  intros H0. unfold ends. destruct r as [[response|[]]|[]]; try done.
  - intros (j & -> & Hr & Hf). exists (S j). split_and!; [done|done|].
    intros [|i] Hi; [by rewrite H0|]. apply Hf. lia.
  - intros [? Hf]. split; [done|]. intros [|i] Hi; [by rewrite H0|]. apply Hf. lia.
  - intros (-> & -> & ms & -> & Hl & Hms). split_and!; [done|done|]. exists (m :: ms).
    rewrite imap_cons, <- app_assoc. split_and!; [done|simpl; lia|].
    intros [|i] m'; simpl; [by intros [= <-]|apply Hms].
  - intros [? Hf]. split; [done|]. intros [|i] Hi; [by rewrite H0|]. apply Hf. lia.
Qed.

Lemma ends_ext n k reply reply' max errors servers servers' r :
  (∀ i, reply i = reply' i) → (∀ i, servers i = servers' i) →
  ends n k reply max errors servers r → ends n k reply' max errors servers' r.
Proof.
  intros Hr Hs. unfold ends. destruct r as [[response|[]]|[]]; try done.
  - intros (j & ? & ? & Hf). exists j. rewrite <- Hr. split_and!; [done|done|].
    intros i Hi. rewrite <- Hr. by apply Hf.
  - intros [? Hf]. split; [done|]. intros i Hi. rewrite <- Hr. by apply Hf.
  - intros (? & ? & ms & ? & ? & Hms). split_and!; [done|done|]. exists ms. split_and!; [|done|].
    + subst. f_equal. apply imap_ext. intros i x _. by rewrite Hs.
    + intros i x Hi. rewrite <- Hr. by apply Hms.
  - intros [? Hf]. split; [done|]. intros i Hi. rewrite <- Hr. by apply Hf.
Qed.

Lemma query_loop_ends domain ty n attempt errors c w r s :
  Z.of_nat (attempt + n) = dc_max_retries c →
  query_loop cancelled_at deadline domain ty n attempt errors (c, w) = (r, s) →
  ∃ k, k ≤ n ∧ moved_on (map (turn c domain ty) (seq 0 k)) w s.2 ∧
    ends n k (outcome_at c w domain ty) (dc_max_retries c) errors (server_at c) r.
Proof.
  revert attempt errors c w. induction n as [|n IH]; intros attempt errors c w Hn.
  { intros [= <- <-]. exists 0. split_and!; [done|split; [by rewrite app_nil_r|done]|].
    simpl. split_and!; [done|done|]. exists []. simpl. rewrite app_nil_r. done. }
  cbn [query_loop]. change (current_server c) with (server_at c 0). unfold eff_bind at 1.
  destruct (try_get _ _ _ _ (c, w)) as [r1 [c1 w1]] eqn:E1.
  apply try_get_moves in E1 as (Hc & Hm & Hr). simpl in Hc, Hm. subst c1.
  destruct Hr as [-> | [-> Hd]]; [|intros [= <- <-]; exists 1; split_and!; [lia|done|]; split; [done|lia]].
  destruct (outcome_at c w domain ty 0) as [response|m] eqn:E0.
  { intros [= <- <-]. exists 1. split_and!; [lia|done|]. exists 0. split_and!; [done|done|lia]. }
  assert (∀ w2, moved_on [] w1 w2 → moved_on [turn c domain ty 0] w w2) as Hadd.
  { intros w2 [Hs Ha]. destruct Hm as [Hs1 Ha1]. split; [by rewrite Hs, Hs1, app_nil_r|by rewrite Ha]. }
  assert (∀ w2, moved_on [] w1 w2 →
    query_loop cancelled_at deadline domain ty n (S attempt) (errors ++ [server_at c 0 +:+ ": " +:+ m])
      (advance_server c, w2) = (r, s) →
    ∃ k, k ≤ S n ∧ moved_on (map (turn c domain ty) (seq 0 k)) w s.2 ∧
      ends (S n) k (outcome_at c w domain ty) (dc_max_retries c) errors (server_at c) r) as Hrest.
  { intros w2 Hw2 E. pose proof (Hadd _ Hw2) as Hw. apply IH in E as (k & Hk & Hm2 & He); [|simpl; lia].
    exists (S k). split_and!; [lia| |].
    - destruct Hw as [Hs Ha], Hm2 as [Hs2 Ha2]. split; [|by rewrite Ha2].
      rewrite Hs2, Hs, <- app_assoc. simpl. do 2 f_equal. rewrite <- seq_shift, map_map.
      apply map_ext. intros j. apply turn_next.
    - eapply ends_cons; [done|]. revert He. apply ends_ext; intros i; [|by rewrite server_at_next].
      by rewrite (outcome_next _ _ _ _ _ _ Hw). }
  destruct (_ <? _)%Z; [|apply Hrest; split; [by rewrite app_nil_r|done]].
  unfold eff_bind at 1. destruct (wait_for_retry _ _ _) as [r2 [c2 w2]] eqn:E2.
  apply retry_moves in E2 as (Hc2 & Hm2 & Hr2). simpl in Hc2, Hm2. subst c2.
  destruct Hr2 as [-> |[[-> Hca]|[-> Hd]]]; [by apply Hrest| |].
  - intros [= <- <-]. exists 1. split_and!; [lia|by apply Hadd|]. split; [done|].
    intros i Hi. assert (i = 0) as -> by lia. by rewrite E0.
  - intros [= <- <-]. exists 1. split_and!; [lia|by apply Hadd|]. split; [done|lia].
Qed.

Lemma query_ends domain ty ty' c w r s :
  normalize_record_type ty = Ok ty' → validate_dns_name domain = Ok () → (0 ≤ dc_max_retries c)%Z →
  query cancelled_at deadline domain ty (c, w) = (r, s) →
  ∃ k, k ≤ Z.to_nat (dc_max_retries c) ∧ moved_on (map (turn c domain ty') (seq 0 k)) w s.2 ∧
    ends (Z.to_nat (dc_max_retries c)) k (outcome_at c w domain ty') (dc_max_retries c) [] (server_at c) r.
Proof.
  intros Ht Hd Hm. unfold query. rewrite Ht, Hd. apply query_loop_ends. simpl. lia.
Qed.

(** ** Only checked servers are asked *)

Context `{UrlCrate} `{TlsCrates} `{Base64} (read_to_string : string → result string string).

(** The servers of a configuration: the list, or else the single one. *)
Definition configured (config : Config) : list string :=
  match server_urls config with [] => [server_url config] | urls => urls end.

Lemma prepare_urls_checked i urls l :
  prepare_urls i urls = Ok l →
  length l = length urls ∧
  ∀ u, u ∈ l → ∃ url, url ∈ urls ∧ validate_server_url url = Ok () ∧ u = normalize_server_url url.
Proof.
  revert i l. induction urls as [|url urls IH]; intros i l; simpl.
  { intros [= <-]. split; [done|]. by intros u ?%elem_of_nil. }
  destruct (validate_server_url url) as [[]|] eqn:Ev; [|done]. simpl.
  destruct (prepare_urls (i + 1) urls) as [rest|] eqn:Er; [|done]. simpl. intros [= <-].
  destruct (IH _ _ Er) as [Hl Hu]. split; [simpl; lia|].
  intros u [->|Hin]%elem_of_cons; [exists url; split_and!; [by left|done|done]|].
  destruct (Hu u Hin) as (url' & ? & ? & ?). exists url'. split_and!; [by right|done|done].
Qed.

Lemma doh_new_checked config c :
  doh_new read_to_string config = Ok c →
  dc_server_urls c ≠ [] ∧ (0 < dc_max_retries c)%Z ∧ dc_auth_token c = auth_token config ∧
  ∀ u, u ∈ dc_server_urls c → ∃ url, url ∈ configured config ∧
    validate_server_url url = Ok () ∧ u = normalize_server_url url.
Proof.
  unfold doh_new. intros E.
  assert (∃ l, prepare_urls 0 (configured config) = Ok l ∧ configured config ≠ [] ∧
    dc_server_urls c = l ∧ dc_auth_token c = auth_token config ∧
    dc_max_retries c = if (0 <? max_retries config)%Z then max_retries config else (Z.of_nat (length l) * 2)%Z)
    as (l & Hp & Hne & Hl & Ha & Hm).
  { unfold configured. destruct (server_urls config) as [|u us]; [destruct (decide (server_url config = "")); [done|]|];
      cbn [result_bind] in E;
      (destruct (prepare_urls 0 _) as [l|]; [|done]); cbn [result_bind] in E;
      (destruct (build_http_client _ config) as [http|]; [|done]); cbn [result_bind map_err] in E;
      injection E as <-; exists l; done. }
  apply prepare_urls_checked in Hp as [Hlen Hu]. rewrite Hl, Ha, Hm.
  assert (l ≠ []) as Hl0 by (intros ->; by destruct (configured config)).
  split_and!; [done| |done|done]. destruct (Z.ltb_spec 0 (max_retries config)); [done|].
  destruct l; [done|simpl; lia].
Qed.

Lemma iter_advance_keeps j c :
  dc_server_urls (Nat.iter j advance_server c) = dc_server_urls c ∧
  dc_auth_token (Nat.iter j advance_server c) = dc_auth_token c ∧
  dc_max_retries (Nat.iter j advance_server c) = dc_max_retries c.
Proof. induction j as [|j IH]; [done|]. exact IH. Qed.

Lemma server_at_configured c j : dc_server_urls c ≠ [] → server_at c j ∈ dc_server_urls c.
Proof.
  intros Hne. unfold server_at, current_server. destruct (iter_advance_keeps j c) as (-> & _).
  apply list_elem_of_In, nth_In. apply Nat2Z.inj_lt.
  assert (0 < Z.of_nat (length (dc_server_urls c)))%Z by (destruct (dc_server_urls c); [done|simpl; lia]).
  rewrite Z2Nat.id; apply Z.mod_pos_bound; lia.
Qed.

(** A query asks the configured servers in turn, from where the last one
    left off, and each at most once per attempt; it returns the first usable
    answer, and only when every attempt of the budget failed the list of what
    went wrong with each, in order.  It is given up early only when it is
    cancelled in a pause or its time is over, and every request goes, with the
    configured token and for the name asked, to the normalized form of a
    configured URL that passed the check.  A name or type that is not valid is
    refused without asking anyone. *)
Theorem query_in_turn (config : Config) (c0 c : DohClient) (used : nat) (w : Wire) (domain ty : string)
    (r : result (result DnsResponse DohError) Elapsed) (s : DohClient * Wire) :
  doh_new read_to_string config = Ok c0 → c = Nat.iter used advance_server c0 →
  query cancelled_at deadline domain ty (c, w) = (r, s) →
  match normalize_record_type ty, validate_dns_name domain with
  | Ok ty', Ok _ =>
      ∃ k, k ≤ Z.to_nat (dc_max_retries c) ∧
        w_sent s.2 = w_sent w ++ map (turn c domain ty') (seq 0 k) ∧
        ends (Z.to_nat (dc_max_retries c)) k (outcome_at c w domain ty') (dc_max_retries c) [] (server_at c) r ∧
        ∀ j, rq_name (turn c domain ty' j) = domain ∧ rq_type (turn c domain ty' j) = ty' ∧
          rq_bearer (turn c domain ty' j) = (if decide (auth_token config = "") then None else Some (auth_token config)) ∧
          ∃ url, url ∈ configured config ∧ validate_server_url url = Ok () ∧
            rq_url (turn c domain ty' j) = normalize_server_url url
  | _, _ => s = (c, w) ∧ ∃ e, r = Ok (Err e)
  end.
Proof.
  intros Hn -> E. apply doh_new_checked in Hn as (Hne & Hm & Ha & Hu).
  destruct (iter_advance_keeps used c0) as (Eu & Ea & Em). set (c := Nat.iter used advance_server c0) in *.
  destruct (normalize_record_type ty) as [ty'|e] eqn:Et.
  2: { unfold query in E. rewrite Et in E. injection E as <- <-. eauto. }
  destruct (validate_dns_name domain) as [[]|e] eqn:Ed.
  2: { unfold query in E. rewrite Et, Ed in E. injection E as <- <-. eauto. }
  eapply query_ends in E as (k & Hk & [Hs _] & He); [|done|done|lia].
  exists k. split_and!; [done|done|done|]. intros j. split_and!; [done|done|cbn; by rewrite Ea, Ha|].
  apply Hu. rewrite <- Eu. apply server_at_configured. by rewrite Eu.
Qed.
End Attempts.

(** ** Two servers, of which the first is down *)

Module DohWitness.

(** URLs that are nothing but a host. *)
#[local] Instance hosts : UrlCrate := {|
  Url := string * string;
  url_parse s := Ok (s, "");
  url_scheme _ := "https";
  url_host_str u := Some u.1;
  url_path := snd;
  url_set_path p u := (u.1, p);
  url_to_string u := "https://" +:+ u.1 +:+ u.2;
|}.

#[local] Instance tls : TlsCrates := {|
  store_add _ := Ok (); client_auth_cert _ _ := Ok (); http_build _ := Ok ();
|}.

#[local] Instance codec : DohCodec := {|
  decode_response body :=
    if decide (body = "ok") then Ok (mkDnsResponse 0 false true true false false [] [] "" 0) else Err "expected value";
  status_text _ := "500 Internal Server Error";
  from_utf8_lossy s := s;
|}.

Definition config : Config := mkConfig "" ["127.0.0.1"; "dns.google"] "token" "" "" "" true 0 0.
Definition wire : Wire :=
  mkWire 0 [] (λ n _, if decide (n = 0) then (SendFailed "refused", 5%Z) else (Replied 200 "ok", 7%Z)).
Definition client : DohClient :=
  mkDoh ["https://127.0.0.1/dns-query"; "https://dns.google/resolve"] "token" (mkTls VerifyWebpki None)
    30000 4 2000000000 0.

Lemma server_host_check_witness :
  (validate_server_url "dns.google.attacker.example" = Ok ()) ∧
  (∃ e, validate_server_url "public.dns.google" = Err e) ∧ (∃ e, validate_server_url "[2606:4700:4700::1111]" = Err e).
Proof.
  split_and!.
  - apply (@server_host_check hosts "dns.google.attacker.example" ("dns.google.attacker.example", "")
      ltac:(done) ltac:(done) ltac:(done)) with "dns.google" "attacker.example"; [by left|done|done].
  - by apply (@server_host_check hosts "public.dns.google" ("public.dns.google", "")).
  - by apply (@server_host_check hosts "[2606:4700:4700::1111]" ("[2606:4700:4700::1111]", "")
      ltac:(done) ltac:(done) ltac:(done)) with "2606:4700:4700::1111]".
Defined.

Lemma query_in_turn_witness :
  ∃ k, w_sent (query None None "example.com" "a" (client, wire)).2.2 =
    map (turn client "example.com" "A") (seq 0 k) ∧ k ≤ 4.
Proof.
  destruct (@query_in_turn codec None None hosts tls PemWitness.plain (λ _, Err "") config client client 0 wire "example.com" "a"
    _ _ ltac:(reflexivity) ltac:(reflexivity) (surjective_pairing _)) as (k & Hk & Hs & _).
  exists k. split; [exact Hs|exact Hk].
Defined.
End DohWitness.
