(* ===== verification/Forwarder.v ===== *)
(** * The DNS forwarder (crates/squawk-client/src/forwarder/mod.rs)

    Answering DNS messages from the cache and the DNS-over-HTTPS client, and
    framing them over TCP.  The DNS message format is the [hickory_proto]
    crate's: names, decoding and encoding are parameters; [Message] has the
    fields the forwarder reads and sets.  A panic ends the task that serves
    the query. *)
From S2P Require Import Prelude.
From S2P Require Import Text.
From S2P Require Import DnsCache.
From S2P Require Import NetAddr.
From S2P Require Import Doh.

Definition UPSTREAM_TIMEOUT : Z := 30 * 1000000000.
Definition MAX_UDP_MESSAGE_SIZE : nat := 4096.

Class DnsNames := {
  Name : Type;
  name_from_ascii : string → option Name;
  name_to_ascii : Name → string;
}.

Inductive ResponseCode := NoError | ServFail | NXDomain | NotImp.

(** [RecordType], by number. *)
Definition RT_A : Z := 1.
Definition RT_NS : Z := 2.
Definition RT_CNAME : Z := 5.
Definition RT_MX : Z := 15.
Definition RT_TXT : Z := 16.
Definition RT_AAAA : Z := 28.

Definition supported_type_name (record_type : Z) : option string :=
  if decide (record_type = RT_A) then Some "A"
  else if decide (record_type = RT_AAAA) then Some "AAAA"
  else if decide (record_type = RT_CNAME) then Some "CNAME"
  else if decide (record_type = RT_MX) then Some "MX"
  else if decide (record_type = RT_TXT) then Some "TXT"
  else if decide (record_type = RT_NS) then Some "NS"
  else None.

Definition clamp_ttl (ttl : Z) : Z :=
  if (ttl <? 0)%Z then 0%Z else if (2 ^ 32 - 1 <? ttl)%Z then (2 ^ 32 - 1)%Z else ttl.

(** [split_once(char::is_whitespace)] *)
Fixpoint split_once_whitespace (s : string) : option (string * string) :=
  match s with
  | EmptyString => None
  | String a s1 =>
      let found :=
        if ws1 a then Some s1
        else match s1 with
             | String b s2 =>
                 if ws2 a b then Some s2
                 else match s2 with
                      | String c s3 => if ws3 a b c then Some s3 else None
                      | EmptyString => None
                      end
             | EmptyString => None
             end in
      match found with
      | Some rest => Some ("", rest)
      | None => '(before, rest) ← split_once_whitespace s1; Some (String a before, rest)
      end
  end.

Definition parse_u16 (s : string) : option Z :=
  match parse_u32 s with
  | Ok z => if (z <? 2 ^ 16)%Z then Some z else None
  | Err _ => None
  end.

Section Messages.
  Context `{DnsNames}.

Inductive RData :=
| RDataA (ip : Ipv4Addr)
| RDataAAAA (groups : list Z)
| RDataCNAME (target : Name)
| RDataNS (target : Name)
| RDataMX (preference : Z) (exchange : Name)
| RDataTXT (strings : list string).

(** [Record::from_rdata] *)
Record Rr := mkRr { rr_owner : Name; rr_ttl : Z; rr_data : RData }.

Record Query := mkQuery { q_name : Name; q_type : Z; q_class : Z }.

Record Message := mkMessage {
  msg_id : Z;
  msg_op_code : Z;
  msg_recursion_desired : bool;
  msg_recursion_available : bool;
  msg_response_code : ResponseCode;
  msg_queries : list Query;
  msg_answers : list Rr;
}.

Definition set_code (code : ResponseCode) (m : Message) : Message :=
  mkMessage (msg_id m) (msg_op_code m) (msg_recursion_desired m) (msg_recursion_available m) code
    (msg_queries m) (msg_answers m).

Definition add_answer (r : Rr) (m : Message) : Message :=
  mkMessage (msg_id m) (msg_op_code m) (msg_recursion_desired m) (msg_recursion_available m)
    (msg_response_code m) (msg_queries m) (msg_answers m ++ [r]).

(** ** Answers *)

Definition parse_mx_data (data : string) : option (Z * Name) :=
  let trimmed := trim data in
  match split_once_whitespace trimmed with
  | None => exchange ← name_from_ascii trimmed; Some (0%Z, exchange)
  | Some (preference_str, exchange_str) =>
      let preference := default 0%Z (parse_u16 preference_str) in
      exchange ← name_from_ascii (trim exchange_str); Some (preference, exchange)
  end.

Definition convert_answer_to_record (answer : DnsRecord) : option Rr :=
  owner ← name_from_ascii (dr_name answer);
  let ttl := clamp_ttl (dr_ttl answer) in
  let type_str := to_ascii_uppercase (as_type_str (dr_kind answer)) in
  if decide (type_str = "A") then
    ip ← ipv4_parse (dr_data answer); Some (mkRr owner ttl (RDataA ip))
  else if decide (type_str = "AAAA") then
    ip ← ipv6_parse (dr_data answer); Some (mkRr owner ttl (RDataAAAA ip))
  else if decide (type_str = "CNAME") then
    target ← name_from_ascii (dr_data answer); Some (mkRr owner ttl (RDataCNAME target))
  else if decide (type_str = "NS") then
    target ← name_from_ascii (dr_data answer); Some (mkRr owner ttl (RDataNS target))
  else if decide (type_str = "MX") then
    '(preference, exchange) ← parse_mx_data (dr_data answer);
    Some (mkRr owner ttl (RDataMX preference exchange))
  else if decide (type_str = "TXT") then
    Some (mkRr owner ttl (RDataTXT [dr_data answer]))
  else None.

Fixpoint add_answers (answers : list DnsRecord) (response : Message) : Message :=
  match answers with
  | [] => response
  | answer :: answers =>
      add_answers answers
        (match convert_answer_to_record answer with
         | Some record => add_answer record response
         | None => response
         end)
  end.

Definition apply_doh_answer (status : Z) (answers : list DnsRecord) (response : Message) : Message :=
  if (status =? 3)%Z then set_code NXDomain response
  else if negb (status =? 0)%Z then set_code ServFail response
  else add_answers answers response.

(** ** Queries *)

(** [Message::from_vec] and [Message::to_vec]. *)
Class DnsMessages := {
  message_from_vec : string → option Message;
  message_to_vec : Message → option string;
}.

Record Fw := mkFw { fw_doh : DohClient; fw_wire : Wire; fw_cache : Cache.t }.

Inductive Panic := Panicked.

  Context `{DnsMessages} `{DohCodec} (cancelled_at : option Z).

Definition resolve_one (query : Query) (response : Message) : eff Fw Panic Message := λ s,
  match supported_type_name (q_type query) with
  | None => (Ok (set_code NotImp response), s)
  | Some record_type =>
      let name_ascii := name_to_ascii (q_name query) in
      let '(cached, cache) := Cache.get name_ascii record_type (w_now (fw_wire s)) (fw_cache s) in
      match cached with
      | Some cached =>
          (Ok (apply_doh_answer (Cache.ca_status cached) (Cache.ca_answers cached) response),
           mkFw (fw_doh s) (fw_wire s) cache)
      | None =>
          let deadline := (w_now (fw_wire s) + UPSTREAM_TIMEOUT)%Z in
          let '(outcome, (doh, wire)) :=
            Doh.query cancelled_at (Some deadline) name_ascii record_type (fw_doh s, fw_wire s) in
          match outcome with
          | Err TimedOut | Ok (Err _) => (Ok (set_code ServFail response), mkFw doh wire cache)
          | Ok (Ok doh_response) =>
              match Cache.insert name_ascii record_type (rs_status doh_response)
                      (rs_answer doh_response) (w_now wire) cache with
              | None => (Err Panicked, mkFw doh wire cache)
              | Some cache =>
                  (Ok (apply_doh_answer (rs_status doh_response) (rs_answer doh_response) response),
                   mkFw doh wire cache)
              end
          end
      end
  end.

Fixpoint resolve_all (queries : list Query) (response : Message) : eff Fw Panic Message :=
  match queries with
  | [] => pure (Ok response)
  | query :: queries =>
      let! response := resolve_one query response in
      resolve_all queries response
  end.

(** [Message::response], the flags, and the questions. *)
Definition response_to (request : Message) : Message :=
  mkMessage (msg_id request) (msg_op_code request) (msg_recursion_desired request) true NoError
    (msg_queries request) [].

Definition handle_query (raw : string) : eff Fw Panic (option string) := λ s,
  match message_from_vec raw with
  | None => (Ok None, s)
  | Some request =>
      (let! response := resolve_all (msg_queries request) (response_to request) in
       pure (Ok (message_to_vec response))) s
  end.

(** ** TCP connections *)

(** [u16::from_be_bytes] and [to_be_bytes] of a length prefix. *)
Definition len_of_prefix (a b : Ascii.ascii) : nat := code a * 256 + code b.
Definition prefix_of_len (n : nat) : string :=
  String (Ascii.ascii_of_nat (n / 256)) (String (Ascii.ascii_of_nat (n mod 256)) "").

Fixpoint split_at (n : nat) (s : string) : option (string * string) :=
  match n, s with
  | O, _ => Some ("", s)
  | S n', String c s' => '(before, rest) ← split_at n' s'; Some (String c before, rest)
  | S _, EmptyString => None
  end.

(** Serves the messages [input] holds; what has been written back when the
    input ends, a frame is cut short, a message gets no answer or the task
    panics.  [fuel] bounds the number of messages. *)
Fixpoint serve_frames (fuel : nat) (input output : string) (s : Fw) : string * Fw :=
  match fuel with
  | O => (output, s)
  | S fuel =>
      match input with
      | String a (String b rest) =>
          match split_at (len_of_prefix a b) rest with
          | None => (output, s)
          | Some (message, rest) =>
              let '(answer, s) := handle_query message s in
              match answer with
              | Ok (Some response) =>
                  if String.length response <? 2 ^ 16 then
                    serve_frames fuel rest
                      (output +:+ prefix_of_len (String.length response) +:+ response) s
                  else (output, s)
              | Ok None | Err Panicked => (output, s)
              end
          end
      | _ => (output, s)
      end
  end.

(** Every frame takes at least the two bytes of its length. *)
Definition serve_tcp_connection (input : string) (s : Fw) : string * Fw :=
  serve_frames (S (String.length input)) input "" s.

(** A datagram longer than the buffer is cut off. *)
Definition udp_request (datagram : string) : string := String.substring 0 MAX_UDP_MESSAGE_SIZE datagram.

Definition serve_datagram (datagram : string) : eff Fw Panic (option string) :=
  handle_query (udp_request datagram).
End Messages.
