(* ===== verification/ForwarderLife.v ===== *)
(** * Starting and stopping the forwarder (crates/squawk-client/src/forwarder/mod.rs)

    [Forwarder::start] binds the sockets one after the other and spawns a
    serve loop for each; a loop ends when its token is cancelled and spawns a
    task per datagram or connection.  The tasks are a list; a UDP socket stays
    open as long as a task holds it.  A call of [start] may be interleaved
    with anything else at its awaits, so it is cut into its phases, and
    [ls_starting] has the calls in progress. *)
From S2P Require Import Prelude.

Record FwConfig := mkFwConfig {
  fc_udp_address : string;
  fc_tcp_address : string;
  fc_listen_udp : bool;
  fc_listen_tcp : bool;
}.

Definition default_bind_address : string := "127.0.0.1:53".
Definition FwConfig_default : FwConfig := mkFwConfig default_bind_address default_bind_address true true.

Inductive ForwarderError :=
| AlreadyRunning
| NotRunning
| UdpBind (addr source : string)
| TcpBind (addr source : string).

Definition ForwarderError_display (e : ForwarderError) : string :=
  match e with
  | AlreadyRunning => "forwarder is already running"
  | NotRunning => "forwarder is not running"
  | UdpBind addr source => "failed to bind UDP socket on " +:+ addr +:+ ": " +:+ source
  | TcpBind addr source => "failed to bind TCP listener on " +:+ addr +:+ ": " +:+ source
  end.

(** Tokens are numbered as they are created. *)
Inductive Task :=
| UdpLoop (token : nat)
| TcpLoop (token : nat)
| UdpQuery (token : nat)                 (* holds the socket of its loop *)
| TcpConnection (token : nat).

#[global] Instance Task_eq_dec : EqDecision Task.
Proof. solve_decision. Defined.

(** How far a call of [start] has got. *)
Inductive Phase := Checked | UdpDone | TcpDone.

Record Life := mkLife {
  ls_cancel : option nat;                (* [RunState::cancel]: set while running *)
  ls_udp_local : option string;
  ls_tcp_local : option string;
  ls_tokens : nat;
  ls_cancelled : gset nat;
  ls_starting : gmap nat Phase;
  ls_tasks : list Task;
  ls_binds : nat;
}.

Definition life_new : Life := mkLife None None None 0 ∅ ∅ [] 0.

(** What holds the UDP or the TCP port. *)
Definition holds_udp (t : Task) : bool :=
  match t with UdpLoop _ | UdpQuery _ => true | _ => false end.
Definition holds_tcp (t : Task) : bool :=
  match t with TcpLoop _ => true | _ => false end.

Definition loop_of (token : nat) (t : Task) : bool :=
  match t with UdpLoop t' | TcpLoop t' => bool_decide (t' = token) | _ => false end.

(** The system: why a [bind] fails that no socket of this process stands in
    the way of, the address it got, and whether the port is a fixed one. *)
Record BindOs := mkBindOs {
  bo_udp : nat → result string string;
  bo_tcp : nat → result string string;
  bo_fixed_udp : bool;
  bo_fixed_tcp : bool;
}.

Definition address_in_use : string := "Address already in use (os error 98)".

Section Lifecycle.
  Context (config : FwConfig) (os : BindOs).

(** [UdpSocket::bind] and [TcpListener::bind] *)
Definition udp_bind (s : Life) : result string string * Life :=
  ((if bo_fixed_udp os && existsb holds_udp (ls_tasks s) then Err address_in_use
    else bo_udp os (ls_binds s)),
   mkLife (ls_cancel s) (ls_udp_local s) (ls_tcp_local s) (ls_tokens s) (ls_cancelled s)
     (ls_starting s) (ls_tasks s) (S (ls_binds s))).

Definition tcp_bind (s : Life) : result string string * Life :=
  ((if bo_fixed_tcp os && existsb holds_tcp (ls_tasks s) then Err address_in_use
    else bo_tcp os (ls_binds s)),
   mkLife (ls_cancel s) (ls_udp_local s) (ls_tcp_local s) (ls_tokens s) (ls_cancelled s)
     (ls_starting s) (ls_tasks s) (S (ls_binds s))).

Definition is_running (s : Life) : bool := bool_decide (is_Some (ls_cancel s)).

Definition set_starting (m : gmap nat Phase) (s : Life) : Life :=
  mkLife (ls_cancel s) (ls_udp_local s) (ls_tcp_local s) (ls_tokens s) (ls_cancelled s) m
    (ls_tasks s) (ls_binds s).

Definition set_tasks (l : list Task) (s : Life) : Life :=
  mkLife (ls_cancel s) (ls_udp_local s) (ls_tcp_local s) (ls_tokens s) (ls_cancelled s)
    (ls_starting s) l (ls_binds s).

(** *** [start], in its phases *)

Definition start_check : eff Life ForwarderError nat := λ s,
  if is_running s then (Err AlreadyRunning, s)
  else
    let token := ls_tokens s in
    (Ok token, mkLife (ls_cancel s) (ls_udp_local s) (ls_tcp_local s) (S token) (ls_cancelled s)
                 (<[token := Checked]> (ls_starting s)) (ls_tasks s) (ls_binds s)).

(** On an error the call returns and what it holds is dropped; the task it
    spawned goes on. *)
Definition start_udp (token : nat) : eff Life ForwarderError (option string) := λ s,
  if fc_listen_udp config then
    let '(r, s) := udp_bind s in
    match r with
    | Err source => (Err (UdpBind (fc_udp_address config) source),
                     set_starting (delete token (ls_starting s)) s)
    | Ok addr => (Ok (Some addr),
                  set_tasks (ls_tasks s ++ [UdpLoop token]) (set_starting (<[token := UdpDone]> (ls_starting s)) s))
    end
  else (Ok None, set_starting (<[token := UdpDone]> (ls_starting s)) s).

Definition start_tcp (token : nat) : eff Life ForwarderError (option string) := λ s,
  if fc_listen_tcp config then
    let '(r, s) := tcp_bind s in
    match r with
    | Err source => (Err (TcpBind (fc_tcp_address config) source),
                     set_starting (delete token (ls_starting s)) s)
    | Ok addr => (Ok (Some addr),
                  set_tasks (ls_tasks s ++ [TcpLoop token]) (set_starting (<[token := TcpDone]> (ls_starting s)) s))
    end
  else (Ok None, set_starting (<[token := TcpDone]> (ls_starting s)) s).

Definition start_publish (token : nat) (udp tcp : option string) : eff Life ForwarderError unit := λ s,
  let starting := delete token (ls_starting s) in
  match ls_cancel s with
  | Some _ =>
      (Err AlreadyRunning,
       mkLife (ls_cancel s) (ls_udp_local s) (ls_tcp_local s) (ls_tokens s)
         ({[token]} ∪ ls_cancelled s) starting (ls_tasks s) (ls_binds s))
  | None =>
      (Ok (), mkLife (Some token) udp tcp (ls_tokens s) (ls_cancelled s) starting (ls_tasks s) (ls_binds s))
  end.

Definition start : eff Life ForwarderError unit :=
  let! token := start_check in
  let! udp := start_udp token in
  let! tcp := start_tcp token in
  start_publish token udp tcp.

(** *** [stop] *)

(** Taking the run state and cancelling the token. *)
Definition stop_signal : eff Life ForwarderError nat := λ s,
  match ls_cancel s with
  | None => (Err NotRunning, s)
  | Some token =>
      (Ok token, mkLife None None None (ls_tokens s) ({[token]} ∪ ls_cancelled s) (ls_starting s)
                   (ls_tasks s) (ls_binds s))
  end.

(** Awaiting both loops, which the cancelled token ends. *)
Definition stop_await (token : nat) : eff Life ForwarderError unit := λ s,
  (Ok (), set_tasks (List.filter (λ t, negb (loop_of token t)) (ls_tasks s)) s).

Definition stop : eff Life ForwarderError unit :=
  let! token := stop_signal in stop_await token.

Definition local_udp_addr (s : Life) : option string := ls_udp_local s.
Definition local_tcp_addr (s : Life) : option string := ls_tcp_local s.

(** ** What may happen *)

(** One step of the calls and tasks; [clean] excludes that a call of [start]
    fails at its second socket. *)
Inductive step (clean : Prop) : Life → Life → Prop :=
| step_check s : step clean s (start_check s).2
| step_udp s token : ls_starting s !! token = Some Checked → step clean s (start_udp token s).2
| step_tcp s token : ls_starting s !! token = Some UdpDone →
    (clean → is_ok (start_tcp token s).1 = true) → step clean s (start_tcp token s).2
| step_publish s token udp tcp :
    ls_starting s !! token = Some TcpDone → step clean s (start_publish token udp tcp s).2
| step_stop s : step clean s (stop_signal s).2
| step_exit s token t : token ∈ ls_cancelled s → loop_of token t = true →
    step clean s (set_tasks (List.filter (λ t', negb (bool_decide (t' = t))) (ls_tasks s)) s)
| step_datagram s token : UdpLoop token ∈ ls_tasks s →
    step clean s (set_tasks (ls_tasks s ++ [UdpQuery token]) s)
| step_accept s token : TcpLoop token ∈ ls_tasks s →
    step clean s (set_tasks (ls_tasks s ++ [TcpConnection token]) s)
| step_served s l1 l2 t : (∀ token, loop_of token t = false) → ls_tasks s = l1 ++ t :: l2 →
    step clean s (set_tasks (l1 ++ l2) s).

(** ** Tokens *)

(** The configured loops of [token] that its phase has got to are there. *)
Definition listening (udp tcp : bool) (token : nat) (l : list Task) : Prop :=
  (udp = true → fc_listen_udp config = true → UdpLoop token ∈ l) ∧
  (tcp = true → fc_listen_tcp config = true → TcpLoop token ∈ l).

Definition phase_listening (p : Phase) : nat → list Task → Prop :=
  match p with
  | Checked => listening false false
  | UdpDone => listening true false
  | TcpDone => listening true true
  end.

(** Tokens in use are fresh, uncancelled and used once, and their loops run. *)
Record sound (s : Life) : Prop := {
  so_cancelled : ∀ t, t ∈ ls_cancelled s → t < ls_tokens s;
  so_starting : ∀ t p, ls_starting s !! t = Some p →
    t < ls_tokens s ∧ (t ∉ ls_cancelled s) ∧ ls_cancel s ≠ Some t ∧ phase_listening p t (ls_tasks s);
  so_running : ∀ t, ls_cancel s = Some t →
    t < ls_tokens s ∧ (t ∉ ls_cancelled s) ∧ listening true true t (ls_tasks s);
  so_loops : ∀ token t, t ∈ ls_tasks s → loop_of token t = true → token < ls_tokens s;
}.

Lemma listening_mono u t token l l' :
  listening u t token l → (∀ x, x ∈ l → loop_of token x = true → x ∈ l') → listening u t token l'.
Proof.
  intros [H1 H2] Hl. split; intros; (apply Hl; [auto|]); simpl; by apply bool_decide_eq_true.
Qed.

Lemma phase_listening_mono p token l l' :
  phase_listening p token l → (∀ x, x ∈ l → loop_of token x = true → x ∈ l') → phase_listening p token l'.
Proof. destruct p; apply listening_mono. Qed.

Lemma sound_new : sound life_new.
Proof. split; simpl; set_solver. Qed.

(** Changing the tasks only, without losing an uncancelled loop. *)
Lemma sound_tasks s l :
  sound s → (∀ token x, x ∈ ls_tasks s → loop_of token x = true → token ∉ ls_cancelled s → x ∈ l) →
  (∀ token x, x ∈ l → loop_of token x = true → x ∈ ls_tasks s) → sound (set_tasks l s).
Proof.
  intros [] Hk Hb. split; simpl; [done|..].
  - intros t p Hp. destruct (so_starting0 t p Hp) as (? & ? & ? & ?). split_and!; [done..|].
    eapply phase_listening_mono; [done|]. eauto.
  - intros t Ht. destruct (so_running0 t Ht) as (? & ? & ?). split_and!; [done..|].
    eapply listening_mono; [done|]. eauto.
  - eauto.
Qed.

Lemma elem_of_snoc_loop token x (l : list Task) t :
  x ∈ l ++ [t] → loop_of token x = true → loop_of token t = false → x ∈ l.
Proof. rewrite elem_of_app, list_elem_of_singleton. intros [?| ->]; congruence. Qed.

Lemma loop_of_same token token' x : loop_of token x = true → loop_of token' x = true → token' = token.
Proof. destruct x; simpl; try done; by intros ->%bool_decide_eq_true ->%bool_decide_eq_true. Qed.

(** A call of [start] moves to its next phase with a loop more. *)
Lemma sound_phase s token p p' l n :
  sound s → ls_starting s !! token = Some p →
  (∀ x, x ∈ ls_tasks s → x ∈ l) → (∀ token' x, x ∈ l → loop_of token' x = true → x ∈ ls_tasks s ∨ token' = token) →
  phase_listening p' token l →
  sound (mkLife (ls_cancel s) (ls_udp_local s) (ls_tcp_local s) (ls_tokens s) (ls_cancelled s)
           (<[token := p']> (ls_starting s)) l n).
Proof.
  intros [] Hp Hk Hb Hl. destruct (so_starting0 _ _ Hp) as (? & ? & ? & _). split; simpl; [done|..].
  - intros t q. rewrite lookup_insert. case_decide as E; [intros [= <-]; by subst|].
    intros Hq. destruct (so_starting0 t q Hq) as (? & ? & ? & ?). split_and!; [done..|].
    eapply phase_listening_mono; [done|]. eauto.
  - intros t Ht. destruct (so_running0 t Ht) as (? & ? & ?). split_and!; [done..|].
    eapply listening_mono; [done|]. eauto.
  - intros t x Hx Ht. destruct (Hb t x Hx Ht) as [?| ->]; eauto.
Qed.

(** A call of [start] is over. *)
Lemma sound_over s token n :
  sound s → sound (mkLife (ls_cancel s) (ls_udp_local s) (ls_tcp_local s) (ls_tokens s) (ls_cancelled s)
                     (delete token (ls_starting s)) (ls_tasks s) n).
Proof. intros []. split; simpl; [done| |done|done]. intros t p [? ?]%lookup_delete_Some. eauto. Qed.

(** Splits on the outcome of a bind. *)
Ltac bind_cases :=
  match goal with
  | |- context [if ?b then Err address_in_use else ?r] =>
      destruct (if b then Err address_in_use else r) as [?|?]
  end.

Lemma sound_udp s token :
  sound s → ls_starting s !! token = Some Checked → sound (start_udp token s).2.
Proof.
  intros Hs Hp. unfold start_udp, udp_bind. destruct (fc_listen_udp config) eqn:El.
  - bind_cases; simpl; [|by apply (sound_over s)].
    eapply (sound_phase s token Checked); [done|done|set_solver| |].
    + intros t x. rewrite elem_of_app, list_elem_of_singleton. intros [?| ->]; [by left|].
      simpl. intros ->%bool_decide_eq_true. by right.
    + split; [set_solver|done].
  - eapply (sound_phase s token Checked); [done|done|done|by left|]. split; [congruence|done].
Qed.

Lemma sound_tcp s token :
  sound s → ls_starting s !! token = Some UdpDone → sound (start_tcp token s).2.
Proof.
  intros Hs Hp. destruct (so_starting _ Hs _ _ Hp) as (_ & _ & _ & [Hu _]).
  unfold start_tcp, tcp_bind. destruct (fc_listen_tcp config) eqn:El.
  - bind_cases; simpl; [|by apply (sound_over s)].
    eapply (sound_phase s token UdpDone); [done|done|set_solver| |].
    + intros t x. rewrite elem_of_app, list_elem_of_singleton. intros [?| ->]; [by left|].
      simpl. intros ->%bool_decide_eq_true. by right.
    + split; [set_solver|set_solver].
  - eapply (sound_phase s token UdpDone); [done|done|done|by left|]. split; [done|congruence].
Qed.

Lemma sound_publish s token udp tcp :
  sound s → ls_starting s !! token = Some TcpDone → sound (start_publish token udp tcp s).2.
Proof.
  intros [] Hp. destruct (so_starting0 _ _ Hp) as (? & ? & ? & ?). unfold start_publish.
  destruct (ls_cancel s) as [t0|] eqn:Ec; split; simpl; try done.
  - set_solver.
  - intros t p [Hne Hq]%lookup_delete_Some. destruct (so_starting0 t p Hq) as (? & ? & ? & ?).
    split_and!; [done|set_solver|congruence|done].
  - intros t Ht. destruct (so_running0 t Ht) as (? & ? & ?). split_and!; [done| |done].
    assert (t ≠ token) by congruence. set_solver.
  - intros t p [Hne Hq]%lookup_delete_Some. destruct (so_starting0 t p Hq) as (? & ? & ? & ?).
    split_and!; [done|done|congruence|done].
  - intros t [= <-]. done.
Qed.

Lemma sound_step clean s s' : sound s → step clean s s' → sound s'.
Proof.
  intros Hs Hst. pose proof Hs as []. destruct Hst as [s|s token Hp|s token Hp _|s token udp tcp Hp|s|s token t Hc Ht|s token Hin|s token Hin|s l1 l2 t Ht El].
  - unfold start_check. destruct (is_running s); [done|]. split; simpl.
    + intros t Ht. apply so_cancelled0 in Ht. lia.
    + intros t p. rewrite lookup_insert. case_decide as E.
      * intros [= <-]. subst. split_and!; [lia| | |by split].
        -- intros Hc%so_cancelled0. lia.
        -- intros Hr. destruct (so_running0 _ Hr). lia.
      * intros Hp. destruct (so_starting0 t p Hp) as (? & ? & ? & ?). split_and!; [lia|done..].
    + intros t Ht. destruct (so_running0 t Ht) as (? & ? & ?). split_and!; [lia|done..].
    + intros tk t Ht Hl. specialize (so_loops0 tk t Ht Hl). lia.
  - by apply sound_udp.
  - by apply sound_tcp.
  - by apply sound_publish.
  - unfold stop_signal. destruct (ls_cancel s) as [t0|] eqn:Ec; [|done].
    destruct (so_running0 t0 eq_refl) as (? & ? & ?). split; simpl; [set_solver| |done|done].
    intros t p Hp. destruct (so_starting0 t p Hp) as (? & ? & ? & ?). split_and!; [done| |done|done].
    assert (t ≠ t0) by congruence. set_solver.
  - apply sound_tasks; [done|..].
    + intros tk x Hx Hl Hn. apply list_elem_of_In, filter_In. rewrite <- list_elem_of_In. split; [done|].
      apply negb_true_iff, bool_decide_eq_false. intros ->. rewrite (loop_of_same _ _ _ Hl Ht) in Hc. done.
    + intros tk x Hx _. apply list_elem_of_In, filter_In in Hx as [? _]. by apply list_elem_of_In.
  - apply sound_tasks; [done|set_solver|]. intros tk x Hx Hl. by eapply elem_of_snoc_loop.
  - apply sound_tasks; [done|set_solver|]. intros tk x Hx Hl. by eapply elem_of_snoc_loop.
  - apply sound_tasks; [done|..]; rewrite El.
    + intros tk x. rewrite !elem_of_app, elem_of_cons. intros [?|[->|?]] Hl _; [by left| |by right].
      by rewrite Ht in Hl.
    + intros tk x Hx _. set_solver.
Qed.

Lemma sound_reachable clean s : rtc (step clean) life_new s → sound s.
Proof.
  intros Hr. eapply (rtc_ind_r (λ s, sound s)); [apply sound_new| |exact Hr].
  intros ? ? _ Hst IH. by eapply sound_step.
Qed.

(** ** Running means listening *)

(** Every loop belongs to somebody or has a token of [lost], and a call that
    has only been checked has no loop yet. *)
Record owned (lost : nat → Prop) (s : Life) : Prop := {
  ow_loops : ∀ token t, t ∈ ls_tasks s → loop_of token t = true →
    ls_cancel s = Some token ∨ is_Some (ls_starting s !! token) ∨ token ∈ ls_cancelled s ∨ lost token;
  ow_checked : ∀ token t, ls_starting s !! token = Some Checked → t ∈ ls_tasks s → loop_of token t = false;
}.

Lemma owned_tasks lost s l :
  owned lost s → (∀ token x, x ∈ l → loop_of token x = true → x ∈ ls_tasks s) → owned lost (set_tasks l s).
Proof.
  intros [Hl Hc] Hb. split; simpl; [eauto|]. intros token t Hp Ht.
  destruct (loop_of token t) eqn:E; [|done]. rewrite <- E. eauto.
Qed.

(** A call of [start] moves to a later phase, with or without its loop. *)
Lemma owned_phase lost s token p' l n :
  owned lost s → p' ≠ Checked →
  (∀ token' x, x ∈ l → loop_of token' x = true → x ∈ ls_tasks s ∨ token' = token) →
  owned lost (mkLife (ls_cancel s) (ls_udp_local s) (ls_tcp_local s) (ls_tokens s) (ls_cancelled s)
           (<[token := p']> (ls_starting s)) l n).
Proof.
  intros [Hl Hc] Hp Hb. split; simpl.
  - intros token' t Ht Hlo. rewrite lookup_insert. case_decide as E; [eauto|].
    destruct (Hb _ _ Ht Hlo) as [?| ->]; [eauto|done].
  - intros token' t. rewrite lookup_insert. case_decide as E; [congruence|]. intros Hq Ht.
    destruct (loop_of token' t) eqn:Elo; [|done]. destruct (Hb _ _ Ht Elo) as [?| ->]; [|done].
    rewrite <- Elo. eauto.
Qed.

Lemma owned_over lost s token n :
  owned lost s → (∀ t, t ∈ ls_tasks s → loop_of token t = false) →
  owned lost (mkLife (ls_cancel s) (ls_udp_local s) (ls_tcp_local s) (ls_tokens s) (ls_cancelled s)
           (delete token (ls_starting s)) (ls_tasks s) n).
Proof.
  intros [Hl Hc] Hno. split; simpl.
  - intros token' t Ht Hlo. rewrite lookup_delete. case_decide as E; [|eauto]. subst.
    by rewrite Hno in Hlo.
  - intros token' t [? ?]%lookup_delete_Some. eauto.
Qed.

Lemma snoc_loop_of (l : list Task) t token token' x :
  (∀ token', loop_of token' t = true → token' = token) → x ∈ l ++ [t] → loop_of token' x = true →
  x ∈ l ∨ token' = token.
Proof. intros Ht. rewrite elem_of_app, list_elem_of_singleton. intros [?| ->]; eauto. Qed.

Lemma owned_udp lost s token :
  owned lost s → ls_starting s !! token = Some Checked → owned lost (start_udp token s).2.
Proof.
  intros Ho Hp. unfold start_udp, udp_bind. destruct (fc_listen_udp config); [bind_cases; simpl|].
  - apply (owned_phase lost s token UdpDone); [done|done|]. intros token' x. apply snoc_loop_of.
    intros ? ->%bool_decide_eq_true. done.
  - apply (owned_over lost s); [done|]. intros t Ht. by eapply ow_checked.
  - apply (owned_phase lost s token UdpDone); [done|done|by left].
Qed.

(** The call of [start] of [token] fails at its second socket. *)
Definition fails_second (token : nat) (s : Life) : Prop :=
  ls_starting s !! token = Some UdpDone ∧ is_ok (start_tcp token s).1 = false.

Lemma owned_more (lost lost' : nat → Prop) s : (∀ t, lost t → lost' t) → owned lost s → owned lost' s.
Proof. intros Hm [Hl Hc]. split; [|done]. intros token t Ht Hlo. destruct (Hl token t Ht Hlo) as [?|[?|[?|?]]]; auto. Qed.

Lemma owned_tcp lost s token :
  owned lost s → ls_starting s !! token = Some UdpDone →
  owned (λ t, lost t ∨ t = token ∧ fails_second t s) (start_tcp token s).2.
Proof.
  intros Ho Hp. destruct (is_ok (start_tcp token s).1) eqn:Eok.
  - apply (owned_more lost); [by left|]. revert Eok. unfold start_tcp, tcp_bind.
    destruct (fc_listen_tcp config); [bind_cases; simpl; [|done]|]; intros _.
    + apply (owned_phase lost s token TcpDone); [done|done|]. intros token' x. apply snoc_loop_of.
      intros ? ->%bool_decide_eq_true. done.
    + apply (owned_phase lost s token TcpDone); [done|done|by left].
  - pose proof Eok as Ef. revert Ef. unfold start_tcp, tcp_bind. destruct (fc_listen_tcp config); [|done].
    bind_cases; simpl; [done|]. intros _. destruct Ho as [Hl Hc]. split; simpl.
    + intros token' t Ht Hlo. rewrite lookup_delete. case_decide as E; [subst; by right; right; right; right|].
      destruct (Hl _ _ Ht Hlo) as [?|[?|[?|?]]]; auto.
    + intros token' t [? ?]%lookup_delete_Some. eauto.
Qed.

Lemma owned_step clean lost s s' :
  sound s → owned lost s → step clean s s' → owned (λ t, lost t ∨ ¬ clean ∧ fails_second t s ∧ s' = (start_tcp t s).2) s'.
Proof.
  intros Hs Ho Hst. assert (∀ lost', owned lost s' → owned (λ t, lost t ∨ lost' t) s') as Hk.
  { intros lost'. apply owned_more. by left. }
  pose proof Ho as [Hl Hc].
  destruct Hst as [s|s token Hp|s token Hp Hok|s token udp tcp Hp|s|s token t Hca Ht|s token Hin|s token Hin|s l1 l2 t Ht El].
  3: { destruct (is_ok (start_tcp token s).1) eqn:Eok.
    - eapply owned_more; [|by apply owned_tcp]. intros t [?|[-> [_ Hf]]]; [by left|congruence].
    - eapply owned_more; [|by apply owned_tcp]. intros t [?|[-> Hf]]; [by left|right].
      split_and!; [|done|done]. intros Hcl. specialize (Hok Hcl). congruence. }
  all: apply Hk; clear Hk.
  - unfold start_check. destruct (is_running s); [done|]. split; simpl.
    + intros token t Ht Hlo. rewrite lookup_insert. case_decide; [eauto|]. eauto.
    + intros token t. rewrite lookup_insert. case_decide as E; [|eauto]. intros _ Ht. subst.
      destruct (loop_of (ls_tokens s) t) eqn:El; [|done]. pose proof (so_loops _ Hs _ _ Ht El). lia.
  - by apply owned_udp.
  - unfold start_publish. destruct (ls_cancel s) as [t0|] eqn:Ec; split; simpl.
    + intros token' t Ht Hlo. rewrite lookup_delete. case_decide; [right; right; left; set_solver|].
      destruct (Hl _ _ Ht Hlo) as [?|[?|[?|?]]]; [by left|by right; left|right; right; left; set_solver|auto].
    + intros token' t [? ?]%lookup_delete_Some. eauto.
    + intros token' t Ht Hlo. rewrite lookup_delete. case_decide as E; [left; congruence|].
      destruct (Hl _ _ Ht Hlo) as [?|[?|[?|?]]]; [congruence|auto..].
    + intros token' t [? ?]%lookup_delete_Some. eauto.
  - unfold stop_signal. destruct (ls_cancel s) as [t0|] eqn:Ec; [|done]. split; simpl; [|done].
    intros token t Ht Hlo. destruct (Hl _ _ Ht Hlo) as [[= ->]|[?|[?|?]]]; [right; right; left; set_solver|auto| |auto].
    right. right. left. set_solver.
  - apply owned_tasks; [done|]. intros tk x Hx _. apply list_elem_of_In, filter_In in Hx as [? _].
    by apply list_elem_of_In.
  - apply owned_tasks; [done|]. intros tk x Hx Hlo. by eapply elem_of_snoc_loop.
  - apply owned_tasks; [done|]. intros tk x Hx Hlo. by eapply elem_of_snoc_loop.
  - apply owned_tasks; [done|]. rewrite El. set_solver.
Qed.

(** [token]'s call of [start] failed at its second socket some time before
    [s]. *)
Definition start_failed (clean : Prop) (token : nat) (s : Life) : Prop :=
  ¬ clean ∧ ∃ s0, rtc (step clean) life_new s0 ∧ fails_second token s0 ∧ rtc (step clean) (start_tcp token s0).2 s.

Lemma owned_reachable clean s :
  rtc (step clean) life_new s → sound s ∧ owned (λ token, start_failed clean token s) s.
Proof.
  intros Hr. assert (∀ x, rtc (step clean) life_new x → rtc (step clean) life_new x ∧ sound x ∧
    owned (λ token, start_failed clean token x) x) as H; [|by apply H].
  clear s Hr. intros x Hr. eapply (rtc_ind_r (λ x, rtc (step clean) life_new x ∧ sound x ∧
    owned (λ token, start_failed clean token x) x)); [..|exact Hr].
  - split_and!; [apply rtc_refl|apply sound_new|]. split; simpl; set_solver.
  - intros s1 s2 _ Hst (Hr1 & Hs & Ho). split_and!; [by eapply rtc_r|by eapply sound_step|].
    eapply owned_more; [|by eapply owned_step]. intros t [[Hn (s0 & ? & ? & ?)]|(Hn & Hf & ->)]; (split; [done|]).
    + exists s0. split_and!; [done|done|]. by eapply rtc_r.
    + exists s1. split_and!; [done|done|apply rtc_refl].
Qed.

(** C28: However calls of start and stop, arriving queries and ending tasks
    interleave, starts that fail at either socket included: while the
    forwarder counts as running, the loops of all configured sockets run and
    have not been told to end; and a loop that belongs neither to the running
    forwarder nor to a start in progress has been told to end, or was left
    behind by a call of start that failed at its second socket.  So after a
    stop only such a leftover loop has not been told to end. *)
Theorem forwarder_listens_iff_running (s : Life) :
  rtc (step False) life_new s →
  (∀ token, ls_cancel s = Some token → (token ∉ ls_cancelled s) ∧ listening true true token (ls_tasks s)) ∧
  (∀ token t, t ∈ ls_tasks s → loop_of token t = true →
     ls_cancel s = Some token ∨ is_Some (ls_starting s !! token) ∨ token ∈ ls_cancelled s ∨
     ∃ s0, rtc (step False) life_new s0 ∧ ls_starting s0 !! token = Some UdpDone ∧
       is_ok (start_tcp token s0).1 = false ∧ rtc (step False) (start_tcp token s0).2 s).
Proof.
  intros Hr. apply owned_reachable in Hr as [Hs [Ho _]]. split.
  - intros token Ht. destruct (so_running _ Hs _ Ht) as (_ & ? & ?). done.
  - intros token t Ht Hlo. destruct (Ho token t Ht Hlo) as [?|[?|[?|(_ & s0 & ? & [? ?] & ?)]]]; [auto..|].
    right. right. right. by exists s0.
Qed.

(** ** A start that fails at its second socket *)

(** A loop nobody can end any more. *)
Definition leaked (token : nat) (s : Life) : Prop :=
  token < ls_tokens s ∧ (token ∉ ls_cancelled s) ∧ ls_starting s !! token = None ∧
  ls_cancel s ≠ Some token ∧ UdpLoop token ∈ ls_tasks s.

Lemma leaked_tasks token s l :
  leaked token s → (UdpLoop token ∈ ls_tasks s → UdpLoop token ∈ l) → leaked token (set_tasks l s).
Proof. intros (? & ? & ? & ? & ?) Hl. split_and!; auto. Qed.

Lemma leaked_step token s s' : sound s → leaked token s → step False s s' → leaked token s'.
Proof.
  intros Hs Hlk Hst. pose proof Hlk as (Hn & Hc & Hst0 & Hr & Hin).
  destruct Hst as [s|s t Hp|s t Hp _|s t udp tcp Hp|s|s t x Hca Hx|s t Ht|s t Ht|s l1 l2 t Ht El].
  - unfold start_check. destruct (is_running s); [done|]. split_and!; simpl; [lia|done| |done|done].
    rewrite lookup_insert_ne by lia. done.
  - assert (t ≠ token) by congruence. unfold start_udp, udp_bind. destruct (fc_listen_udp config); [bind_cases|];
      split_and!; simpl; rewrite ?lookup_insert_ne, ?lookup_delete_ne by done; try done. set_solver.
  - assert (t ≠ token) by congruence. unfold start_tcp, tcp_bind. destruct (fc_listen_tcp config); [bind_cases|];
      split_and!; simpl; rewrite ?lookup_insert_ne, ?lookup_delete_ne by done; try done. set_solver.
  - assert (t ≠ token) by congruence. unfold start_publish. destruct (ls_cancel s);
      split_and!; simpl; rewrite ?lookup_delete_ne by done; try done; [set_solver|congruence].
  - unfold stop_signal. destruct (ls_cancel s) as [t0|] eqn:Ec; [|done]. split_and!; simpl; try done.
    assert (t0 ≠ token) by congruence. set_solver.
  - apply leaked_tasks; [done|]. intros _. apply list_elem_of_In, filter_In. rewrite <- list_elem_of_In.
    split; [done|]. apply negb_true_iff, bool_decide_eq_false. intros <-. simpl in Hx.
    apply bool_decide_eq_true in Hx. by subst.
  - apply leaked_tasks; [done|set_solver].
  - apply leaked_tasks; [done|set_solver].
  - apply leaked_tasks; [done|]. rewrite El, !elem_of_app, elem_of_cons. intros [?|[<-|?]]; [by left| |by right].
    specialize (Ht token). simpl in Ht. by rewrite bool_decide_eq_false in Ht.
Qed.

Lemma start_fails s token :
  fc_listen_udp config = true → bo_fixed_udp os = true → UdpLoop token ∈ ls_tasks s →
  (start s).1 = Err AlreadyRunning ∨ (start s).1 = Err (UdpBind (fc_udp_address config) address_in_use).
Proof.
  intros Hl Hf Hin. unfold start, eff_bind, start_check. destruct (is_running s); [by left|right].
  unfold start_udp, udp_bind. rewrite Hl, Hf. simpl.
  assert (existsb holds_udp (ls_tasks s) = true) as ->; [|done].
  apply existsb_exists. exists (UdpLoop token). split; [by apply list_elem_of_In|done].
Qed.

(** A start that reports the second socket got as far as that. *)
Lemma start_tcp_fails s0 s1 addr source :
  start s0 = (Err (TcpBind addr source), s1) → fc_listen_udp config = true →
  ∃ token sa sb udp, start_check s0 = (Ok token, sa) ∧ start_udp token sa = (Ok udp, sb) ∧
    start_tcp token sb = (Err (TcpBind addr source), s1).
Proof.
  unfold start, eff_bind. intros E Hl.
  destruct (start_check s0) as [[token|e1] sa] eqn:E1.
  2: { unfold start_check in E1. destruct (is_running s0); congruence. }
  destruct (start_udp token sa) as [[udp|e2] sb] eqn:E2.
  2: { unfold start_udp, udp_bind in E2. rewrite Hl in E2. revert E2. bind_cases; congruence. }
  exists token, sa, sb, udp. split_and!; [done|done|].
  destruct (start_tcp token sb) as [[tcp|e3] sc]; [|congruence].
  unfold start_publish in E. destruct (ls_cancel sc); congruence.
Qed.

(** When the TCP address cannot be bound, start reports it, but the UDP
    loop it had already spawned goes on, with a token nobody holds any more.
    Whatever happens afterwards, the loop keeps its port: no later start
    succeeds, although the forwarder counts as stopped and stopping it is
    refused. *)
Theorem failed_start_leaks_udp (s0 s1 s : Life) (addr source : string) :
  rtc (step False) life_new s0 → fc_listen_udp config = true → bo_fixed_udp os = true →
  start s0 = (Err (TcpBind addr source), s1) → rtc (step False) s1 s →
  (stop s1).1 = Err NotRunning ∧ existsb holds_udp (ls_tasks s) = true ∧
  ((start s).1 = Err AlreadyRunning ∨
   (start s).1 = Err (UdpBind (fc_udp_address config) address_in_use)).
Proof.
  intros Hr Hl Hf E Hr1. apply sound_reachable in Hr.
  assert (∃ token, leaked token s1 ∧ sound s1 ∧ ls_cancel s1 = None) as (token & Hlk & Hs & Hcan).
  { apply start_tcp_fails in E as (token & sa & sb & udp & E1 & E2 & E3); [|done].
    pose proof (sound_step False _ _ Hr (step_check False s0)) as H1. rewrite E1 in H1. simpl in H1.
    unfold start_check, is_running in E1. destruct (ls_cancel s0) eqn:Ec; [done|].
    injection E1 as <- <-. set (sa := mkLife _ _ _ _ _ _ _ _) in *.
    assert (ls_starting sa !! ls_tokens s0 = Some Checked) as Hp by (simpl; by rewrite lookup_insert_eq).
    pose proof (sound_udp _ _ H1 Hp) as H2. rewrite E2 in H2. simpl in H2.
    unfold start_udp, udp_bind in E2. rewrite Hl in E2. revert E2. bind_cases; [|done].
    intros [= <- <-]. set (sb := set_tasks _ _) in *.
    assert (ls_starting sb !! ls_tokens s0 = Some UdpDone) as Hp2 by (simpl; by rewrite lookup_insert_eq).
    pose proof (sound_tcp _ _ H2 Hp2) as H3. rewrite E3 in H3. simpl in H3.
    unfold start_tcp, tcp_bind in E3. destruct (fc_listen_tcp config); [|done]. revert E3. bind_cases; [done|].
    intros [= <- <- <-]. exists (ls_tokens s0). split_and!; [|done|done].
    split_and!; simpl; [lia| |by rewrite lookup_delete_eq|congruence|set_solver].
    intros Hc%(so_cancelled _ Hr). lia. }
  split; [unfold stop, stop_signal, eff_bind; by rewrite Hcan|].
  assert (sound s ∧ leaked token s) as [_ (_ & _ & _ & _ & Hin)].
  { eapply (rtc_ind_r (λ s, sound s ∧ leaked token s)); [done| |exact Hr1].
    intros sx sy _ Hst [? ?]. split; [by eapply sound_step|by eapply leaked_step]. }
  split; [|by eapply start_fails].
  apply existsb_exists. exists (UdpLoop token). split; [by apply list_elem_of_In|done].
Qed.

(** Stopping a running forwarder ends its loops and frees the TCP port;
    the UDP port is free afterwards exactly when no query is being answered:
    each holds the socket until its answer is sent, and until then starting
    again fails. *)
Theorem stop_frees_ports_when_idle (s : Life) (token : nat) :
  rtc (step True) life_new s → ls_cancel s = Some token → ls_starting s = ∅ →
  (∀ t t', t ∈ ls_tasks s → loop_of t' t = true → t' ∉ ls_cancelled s) →
  ∃ s1, stop s = (Ok (), s1) ∧ is_running s1 = false ∧ existsb holds_tcp (ls_tasks s1) = false ∧
    (existsb holds_udp (ls_tasks s1) = true ↔ ∃ q, UdpQuery q ∈ ls_tasks s) ∧
    (fc_listen_udp config = true → bo_fixed_udp os = true → (∃ q, UdpQuery q ∈ ls_tasks s) →
     (start s1).1 = Err (UdpBind (fc_udp_address config) address_in_use)).
Proof.
  intros Hr Hc Hst Hidle.
  assert (∀ t t', t ∈ ls_tasks s → loop_of t' t = true → t' = token) as Honly.
  { intros t t' Ht Hlo. apply owned_reachable in Hr as [_ Ho].
    destruct (ow_loops _ _ Ho _ _ Ht Hlo) as [?|[[p Hp]|[?|[[] _]]]]; [congruence| |by apply Hidle in Hlo|done].
    by rewrite Hst, lookup_empty in Hp. }
  set (s1 := (stop s).2). assert (stop s = (Ok (), s1)) as E.
  { subst s1. unfold stop, stop_signal, eff_bind. by rewrite Hc. }
  assert (ls_tasks s1 = List.filter (λ t, negb (loop_of token t)) (ls_tasks s) ∧ ls_cancel s1 = None) as [Ht1 Hc1].
  { subst s1. unfold stop, stop_signal, eff_bind. by rewrite Hc. }
  assert (∀ t, t ∈ ls_tasks s1 ↔ t ∈ ls_tasks s ∧ ∀ t', loop_of t' t = false) as Hin.
  { intros t. rewrite Ht1, !list_elem_of_In, filter_In, <- !list_elem_of_In, negb_true_iff.
    split; intros [Ht Hlo]; (split; [done|]); [|done]. intros t'. destruct (loop_of t' t) eqn:El; [|done].
    rewrite <- El, (Honly _ _ Ht El). congruence. }
  assert (existsb holds_udp (ls_tasks s1) = true ↔ ∃ q, UdpQuery q ∈ ls_tasks s) as Hudp.
  { rewrite existsb_exists. setoid_rewrite <- list_elem_of_In. setoid_rewrite Hin. split.
    - intros (t & [Ht Hlo] & Hh). destruct t as [t|t|t|t]; simpl in *; [|done|eauto|done].
      specialize (Hlo t). by rewrite bool_decide_eq_false in Hlo.
    - intros (q & Hq). exists (UdpQuery q). done. }
  exists s1. split_and!; [done|unfold is_running; by rewrite Hc1| |done|].
  - apply not_true_iff_false. rewrite existsb_exists. setoid_rewrite <- list_elem_of_In. setoid_rewrite Hin.
    intros (t & [Ht Hlo] & Hh). destruct t as [t|t|t|t]; simpl in *; try done.
    specialize (Hlo t). by rewrite bool_decide_eq_false in Hlo.
  - intros Hl Hf Hq%Hudp. unfold start, eff_bind, start_check, is_running. rewrite Hc1. simpl.
    unfold start_udp, udp_bind. rewrite Hl, Hf. simpl. by rewrite Hq.
Qed.
End Lifecycle.
