(* ===== verification/ForwarderProps.v ===== *)
(** * What the DNS forwarder answers

    The answer to a question on every path, answers from the cache, and the
    messages of a TCP connection one after another. *)
From S2P Require Import Prelude.
From S2P Require Import ForwarderLife.
From S2P Require Import Text.
From S2P Require Import DnsCache.
From S2P Require Import NetAddr.
From S2P Require Import Doh.
From S2P Require Import DohProps.
From S2P Require Import Forwarder.

Section Answers.
  Context {HN : DnsNames} {HM : DnsMessages} {HC : DohCodec} (cancelled_at : option Z).

(** [r] is the number of a TTL field, 32 bits wide, closest to [ttl]. *)
Definition nearest_ttl (ttl r : Z) : Prop :=
  (0 ≤ r < 2 ^ 32)%Z ∧ ∀ x, (0 ≤ x < 2 ^ 32)%Z → (Z.abs (r - ttl) ≤ Z.abs (x - ttl))%Z.

Lemma clamp_ttl_nearest ttl : nearest_ttl ttl (clamp_ttl ttl).
Proof.
  unfold clamp_ttl, nearest_ttl. destruct (Z.ltb_spec ttl 0); [|destruct (Z.ltb_spec (2 ^ 32 - 1) ttl)];
    (split; [lia|intros x Hx; lia]).
Qed.

(** *** Numbers and words of an answer's text *)

Lemma digit_char_value d : (0 ≤ d < 10)%Z → to_digit (digit_char d) = Some d.
Proof.
  intros Hd. assert (d = 0 ∨ d = 1 ∨ d = 2 ∨ d = 3 ∨ d = 4 ∨ d = 5 ∨ d = 6 ∨ d = 7 ∨ d = 8 ∨ d = 9)%Z as Hin by lia.
  repeat destruct Hin as [->|Hin]; try subst d; reflexivity.
Qed.

Lemma digit_char_plain d : (0 ≤ d < 10)%Z → plain_char (digit_char d) = true ∧ (Ascii.nat_of_ascii (digit_char d) =? 43) = false.
Proof.
  intros Hd. assert (d = 0 ∨ d = 1 ∨ d = 2 ∨ d = 3 ∨ d = 4 ∨ d = 5 ∨ d = 6 ∨ d = 7 ∨ d = 8 ∨ d = 9)%Z as Hin by lia.
  repeat destruct Hin as [->|Hin]; try subst d; split; reflexivity.
Qed.

Lemma digits_go_10_ind (P : string → Prop) fuel n rest :
  (0 ≤ n < 10 ^ Z.of_nat (S fuel))%Z → (∀ d s, (0 ≤ d < 10)%Z → P (String (digit_char d) s)) →
  P (digits_go 10 fuel n rest).
Proof.
  intros Hn Hp. revert n rest Hn. induction fuel as [|fuel IH]; intros n rest Hn; cbn [digits_go]; [apply Hp; lia|].
  destruct (Z.ltb_spec n 10); [apply Hp; lia|]. apply IH.
  rewrite Nat2Z.inj_succ, Z.pow_succ_r in Hn by lia. split; [apply Z.div_pos; lia|].
  apply Z.div_lt_upper_bound; lia.
Qed.

Lemma parse_digits_go fuel n rest :
  (0 ≤ n < 2 ^ 32)%Z → (n < 10 ^ Z.of_nat (S fuel))%Z →
  parse_digits 0 (digits_go 10 fuel n rest) = parse_digits n rest.
Proof.
  revert n rest. induction fuel as [|fuel IH]; intros n rest Hn Hlt.
  all: assert ((n < 10)%Z → parse_digits 0 (String (digit_char n) rest) = parse_digits n rest) as Hone
    by (intros Hs; cbn [parse_digits]; rewrite digit_char_value by lia; replace (0 * 10 + n)%Z with n by lia;
        replace (2 ^ 32 <=? 0 * 10)%Z with false by done; destruct (Z.leb_spec (2 ^ 32) n); [lia|done]).
  - cbn [digits_go]. apply Hone. lia.
  - cbn [digits_go]. destruct (Z.ltb_spec n 10); [by apply Hone|].
    rewrite Nat2Z.inj_succ, Z.pow_succ_r in Hlt by lia. pose proof (Z.mod_pos_bound n 10 ltac:(lia)).
    pose proof (Z.div_mod n 10 ltac:(lia)).
    rewrite IH; [|split; [apply Z.div_pos|apply Z.div_lt_upper_bound]; lia|apply Z.div_lt_upper_bound; lia].
    cbn [parse_digits]. rewrite digit_char_value by lia. replace (n / 10 * 10 + n mod 10)%Z with n by lia.
    destruct (Z.leb_spec (2 ^ 32) (n / 10 * 10)); [lia|]. by destruct (Z.leb_spec (2 ^ 32) n); [lia|].
Qed.

Lemma parse_u16_text n : (0 ≤ n < 2 ^ 16)%Z → parse_u16 (dec_text n) = Some n.
Proof.
  intros Hn. unfold parse_u16. assert (parse_u32 (dec_text n) = Ok n) as ->.
  - pose proof (parse_digits_go 4 n "" ltac:(lia) ltac:(lia)) as E. unfold parse_u32, dec_text in *. revert E.
    pattern (digits_go 10 4 n ""). apply digits_go_10_ind; [lia|].
    intros d s Hd E. apply digit_char_plain in Hd as [_ Hd].
    cbv beta iota. rewrite Hd. exact E.
  - destruct (Z.ltb_spec n (2 ^ 16)); [done|lia].
Qed.

Lemma dec_text_plain n : (0 ≤ n < 2 ^ 16)%Z → all_chars plain_char (dec_text n) = true ∧ dec_text n ≠ "".
Proof.
  intros Hn. unfold dec_text. split; [|by apply digits_go_10_ind; [lia|]].
  assert (∀ fuel n r, (0 ≤ n < 10 ^ Z.of_nat (S fuel))%Z → all_chars plain_char r = true →
    all_chars plain_char (digits_go 10 fuel n r) = true) as H; [|apply H; [lia|done]].
  clear. induction fuel as [|fuel IH]; intros n r Hn Hr; cbn [digits_go].
  { cbn. rewrite Hr. destruct (digit_char_plain n) as [-> _]; [lia|done]. }
  pose proof (Z.mod_pos_bound n 10 ltac:(lia)).
  destruct (Z.ltb_spec n 10); [cbn; rewrite Hr; destruct (digit_char_plain n) as [-> _]; [lia|done]|].
  apply IH; [|cbn; rewrite Hr; destruct (digit_char_plain (n mod 10)) as [-> _]; [lia|done]].
  rewrite Nat2Z.inj_succ, Z.pow_succ_r in Hn by lia.
  split; [apply Z.div_pos; lia|apply Z.div_lt_upper_bound; lia].
Qed.

Definition space : Ascii.ascii := Ascii.ascii_of_nat 32.

Lemma split_once_plain p t : all_chars plain_char p = true → split_once_whitespace (p +:+ String space t) = Some (p, t).
Proof.
  induction p as [|c p IH]; [done|]. rewrite string_app_cons. simpl. intros [Hc Hp]%andb_prop.
  apply plain_char_spec in Hc as (Hw1 & Hw2 & Hw3 & _). rewrite Hw1.
  destruct (p +:+ String space t) as [|b s'] eqn:E; [by destruct p|]. rewrite Hw2, IH by done.
  destruct s'; [done|]. by rewrite Hw3.
Qed.

Lemma split_once_none t : all_chars plain_char t = true → split_once_whitespace t = None.
Proof.
  induction t as [|c t IH]; [done|]. simpl. intros [Hc Hp]%andb_prop.
  apply plain_char_spec in Hc as (Hw1 & Hw2 & Hw3 & _). rewrite Hw1, IH by done.
  destruct t as [|b [|d t]]; [done|by rewrite Hw2|by rewrite Hw2, Hw3].
Qed.

Lemma trim_words p t :
  all_chars plain_char p = true → p ≠ "" → all_chars plain_char t = true → t ≠ "" →
  trim (p +:+ String space t) = p +:+ String space t.
Proof.
  intros Hp Hp0 Ht Ht0. destruct p as [|c p]; [done|]. unfold trim. rewrite string_app_cons.
  rewrite trim_start_plain by (by apply andb_prop in Hp as [? _]).
  destruct (string_snoc t Ht0) as (u & e & ->).
  rewrite all_chars_app in Ht. apply andb_prop in Ht as [_ [He _]%andb_prop].
  change (String c (p +:+ String space (u +:+ String e ""))) with (String c (p +:+ String space u +:+ String e "")).
  rewrite <- (string_app_assoc p (String space u)), <- string_app_cons. by apply trim_end_plain.
Qed.

(** *** Records and the text a server presents them in *)

(** The type and the text of an answer that presents this data: addresses in
    their usual forms, IPv6 also with a gap; a mail server's preference in
    decimal before its name, none meaning zero; the text of a TXT record as it
    is, of any length. *)
Inductive presents : RData → string → string → Prop :=
| pr_a a b c d : octet a → octet b → octet c → octet d → presents (RDataA (a, b, c, d)) "A" (dotted (a, b, c, d))
| pr_aaaa gs : Forall group gs → length gs = 8 → presents (RDataAAAA gs) "AAAA" (hex_groups gs)
| pr_aaaa_gap head tail : Forall group head → Forall group tail → length head + length tail ≤ 7 →
    presents (RDataAAAA (head ++ replicate (8 - length head - length tail) 0%Z ++ tail)) "AAAA"
      (hex_groups head +:+ String colon (String colon (hex_groups tail)))
| pr_cname n t : name_from_ascii t = Some n → presents (RDataCNAME n) "CNAME" t
| pr_ns n t : name_from_ascii t = Some n → presents (RDataNS n) "NS" t
| pr_mx p n t : (0 ≤ p < 2 ^ 16)%Z → all_chars plain_char t = true → t ≠ "" → name_from_ascii t = Some n →
    presents (RDataMX p n) "MX" (dec_text p +:+ String space t)
| pr_mx_bare n t : all_chars plain_char t = true → t ≠ "" → name_from_ascii t = Some n →
    presents (RDataMX 0 n) "MX" t
| pr_txt t : presents (RDataTXT [t]) "TXT" t.

Lemma parse_mx_text p n t :
  (0 ≤ p < 2 ^ 16)%Z → all_chars plain_char t = true → t ≠ "" → name_from_ascii t = Some n →
  parse_mx_data (dec_text p +:+ String space t) = Some (p, n).
Proof.
  intros Hp Ht Ht0 Hn. destruct (dec_text_plain p Hp) as [Hpp Hp0]. unfold parse_mx_data.
  rewrite trim_words, split_once_plain, parse_u16_text, trim_plain_ends, Hn by done. done.
Qed.

(** What the type of an answer says about the data made of it. *)
Definition data_of (answer : DnsRecord) (data : RData) : Prop :=
  let ty := to_ascii_uppercase (as_type_str (dr_kind answer)) in
  match data with
  | RDataA ip => ty = "A" ∧ ipv4_parse (dr_data answer) = Some ip
  | RDataAAAA gs => ty = "AAAA" ∧ ipv6_parse (dr_data answer) = Some gs
  | RDataCNAME n => ty = "CNAME" ∧ name_from_ascii (dr_data answer) = Some n
  | RDataNS n => ty = "NS" ∧ name_from_ascii (dr_data answer) = Some n
  | RDataMX p n => ty = "MX" ∧ parse_mx_data (dr_data answer) = Some (p, n)
  | RDataTXT strings => ty = "TXT" ∧ strings = [dr_data answer]
  end.

(** C29: Every resource record of the six types the forwarder serves arrives as
    the server published it: an answer that presents it is converted to
    exactly that data under exactly the answer's own name, with the TTL of its
    field closest to the answer's (negative ones become zero, those beyond 32
    bits the largest).  And nothing else is made up: a record comes only of an
    answer of its own type and name.  A TXT record is one string of any
    length, also of more than the 255 bytes a DNS character string holds. *)
Theorem published_record_converted (answer : DnsRecord) (owner : Name) :
  name_from_ascii (dr_name answer) = Some owner →
  (∀ data ty, presents data ty (dr_data answer) → to_ascii_uppercase (as_type_str (dr_kind answer)) = ty →
     ∃ ttl, nearest_ttl (dr_ttl answer) ttl ∧ convert_answer_to_record answer = Some (mkRr owner ttl data)) ∧
  (∀ r, convert_answer_to_record answer = Some r →
     rr_owner r = owner ∧ nearest_ttl (dr_ttl answer) (rr_ttl r) ∧ data_of answer (rr_data r)).
Proof.
  intros Ho. split.
  - intros data ty Hp Hty. exists (clamp_ttl (dr_ttl answer)). split; [apply clamp_ttl_nearest|].
    unfold convert_answer_to_record. rewrite Ho, Hty. cbn [mbind option_bind].
    destruct Hp; cbn [decide]; repeat (rewrite decide_False by done); rewrite ?decide_True by done.
    all: try (rewrite ipv4_parse_text by done; done).
    all: try (rewrite ipv6_parse_full by done; done).
    all: try (rewrite ipv6_parse_gap by done; done).
    all: try (by rewrite H).
    + by rewrite (parse_mx_text _ _ _ H H0 H1 H2).
    + unfold parse_mx_data. by rewrite trim_plain_ends, split_once_none, H1.
    + done.
  - intros r. unfold convert_answer_to_record, data_of. rewrite Ho. cbn [mbind option_bind].
    pose proof (clamp_ttl_nearest (dr_ttl answer)).
    repeat case_decide; [| | | | | |done]; intros E; unfold mbind, option_bind in E; case_match; simplify_eq/=;
      try case_match; simplify_eq/=; done.
Qed.

(** Everything of [m'] but the code and the answers is that of [m]. *)
Definition same_header (m m' : Message) : Prop :=
  msg_id m' = msg_id m ∧ msg_op_code m' = msg_op_code m ∧
  msg_recursion_desired m' = msg_recursion_desired m ∧
  msg_recursion_available m' = msg_recursion_available m ∧ msg_queries m' = msg_queries m.

Lemma add_answers_spec answers m :
  add_answers answers m =
  mkMessage (msg_id m) (msg_op_code m) (msg_recursion_desired m) (msg_recursion_available m)
    (msg_response_code m) (msg_queries m) (msg_answers m ++ omap convert_answer_to_record answers).
Proof.
  revert m. induction answers as [|a answers IH]; intros m; simpl.
  { destruct m; simpl. by rewrite app_nil_r. }
  rewrite IH. destruct (convert_answer_to_record a); simpl; [by rewrite <- app_assoc|done].
Qed.

(** What an upstream answer of this status and these records comes to. *)
Definition verdict (status : Z) (answers : list DnsRecord) : ResponseCode * list Rr :=
  if (status =? 3)%Z then (NXDomain, [])
  else if negb (status =? 0)%Z then (ServFail, [])
  else (NoError, omap convert_answer_to_record answers).

Lemma apply_doh_answer_spec status answers request :
  apply_doh_answer status answers (response_to request) =
  mkMessage (msg_id request) (msg_op_code request) (msg_recursion_desired request) true
    (verdict status answers).1 (msg_queries request) (verdict status answers).2.
Proof.
  unfold apply_doh_answer, verdict. destruct (status =? 3)%Z; [done|].
  destruct (negb _); [done|]. by rewrite add_answers_spec.
Qed.

(** What the forwarder makes of a question it has to ask upstream: the code
    and the records, or nothing when the task panics. *)
Definition upstream (outcome : result (result DnsResponse DohError) Elapsed) : ResponseCode * list Rr :=
  match outcome with
  | Ok (Ok response) => verdict (rs_status response) (rs_answer response)
  | _ => (ServFail, [])
  end.

(** C27: What a message with one question comes to, on every path.  The reply
    has the message's own identifier, opcode, recursion flag and question; it
    is sent unless it cannot be encoded, and then the message gets no answer.
    A type the forwarder cannot convert is answered NOTIMP without asking
    anyone or touching the cache.  A cached question is answered from the
    cache without asking anyone.  Any other question is asked upstream, once,
    within thirty seconds, and answered with what came of it: NXDOMAIN,
    SERVFAIL, or every record of the answer that can be converted, each under
    its own name and type and in its order, so that chains of aliases survive.
    The one way to no reply at all is a panic of the task, when a record of
    the answer has a TTL so large that its expiry is beyond the clock. *)
Theorem one_question_answered (raw : string) (request : Message) (q : Query) (s : Fw) :
  message_from_vec raw = Some request → msg_queries request = [q] →
  (* what is sent back; [None] when it cannot be encoded *)
  let reply v := message_to_vec (mkMessage (msg_id request) (msg_op_code request)
                   (msg_recursion_desired request) true v.1 [q] v.2) in
  let '(answer, s') := handle_query cancelled_at raw s in
  match supported_type_name (q_type q) with
  | None => answer = Ok (reply (NotImp, [])) ∧ s' = s
  | Some ty =>
      let name := name_to_ascii (q_name q) in
      match (Cache.get name ty (w_now (fw_wire s)) (fw_cache s)).1 with
      | Some cached =>
          answer = Ok (reply (verdict (Cache.ca_status cached) (Cache.ca_answers cached))) ∧
          fw_doh s' = fw_doh s ∧ fw_wire s' = fw_wire s
      | None =>
          ∃ outcome, Doh.query cancelled_at (Some (w_now (fw_wire s) + UPSTREAM_TIMEOUT)%Z) name ty
                       (fw_doh s, fw_wire s) = (outcome, (fw_doh s', fw_wire s')) ∧
            (answer = Ok (reply (upstream outcome)) ∨
             answer = Err Panicked ∧ ∃ response, outcome = Ok (Ok response) ∧
               ∃ a, a ∈ rs_answer response ∧ (2 ^ 63 ≤ w_now (fw_wire s') / 1000000000 + Z.max (dr_ttl a) 1)%Z)
      end
  end.
Proof.
  intros Hd Hq. unfold handle_query, resolve_all, eff_bind, pure. rewrite Hd, Hq. unfold resolve_one.
  destruct (supported_type_name (q_type q)) as [ty|]; [|by rewrite <- Hq].
  destruct (Cache.get _ ty _ _) as [[cached|] cache] eqn:Eg; cbn [fst].
  { split_and!; [|done|done]. by rewrite apply_doh_answer_spec, Hq. }
  destruct (Doh.query _ _ _ _ _) as [outcome [doh wire]] eqn:Eq.
  destruct outcome as [[response|e]|[]]; simpl.
  2, 3: eexists; split; [done|]; left; unfold response_to, set_code; simpl; by rewrite Hq.
  destruct (Cache.insert _ _ _ _ _ _) as [cache'|] eqn:Ei; simpl.
  - eexists. split; [done|]. left. by rewrite apply_doh_answer_spec, Hq.
  - eexists. split; [done|]. right. split; [done|]. eexists. split; [done|].
    unfold Cache.insert, Cache.min_positive_ttl, Cache.instant_add in Ei. destruct (_ || _); [done|].
    pose proof (Cache.min_ttl_loop_spec None (rs_answer response) I) as Hm.
    destruct (Cache.min_ttl_loop _ _) as [t|]; [|done].
    destruct (Z.ltb_spec (w_now wire / 1000000000 + t) (2 ^ 63)); [done|].
    destruct Hm as (_ & _ & _ & [?|(a & Ha & ->)]); [done|]. exists a. done.
Qed.

(** ** From the cache *)

Definition at_now (now : Z) (s : Fw) : Fw := mkFw (fw_doh s) (at_instant now (fw_wire s)) (fw_cache s).

Lemma get_keeps_enabled name ty now c : Cache.enabled (Cache.get name ty now c).2 = Cache.enabled c.
Proof. unfold Cache.get. destruct (Cache.enabled c) eqn:E; simpl; repeat case_match; done. Qed.

(** An answer that came from upstream is given again from the cache, with
    the same records and without asking anyone, to every later question for
    the same name and type, however it is spelled, until the shortest TTL of
    its records has passed (a second at least); from then on the question is
    asked upstream again. *)
Theorem repeated_question_cached (q q' : Query) (m m1 m' : Message) (ty : string) (s s1 : Fw)
    (response : DnsResponse) :
  supported_type_name (q_type q) = Some ty → q_type q' = q_type q →
  to_ascii_lowercase (name_to_ascii (q_name q')) = to_ascii_lowercase (name_to_ascii (q_name q)) →
  Cache.enabled (fw_cache s) = true →
  (Cache.get (name_to_ascii (q_name q)) ty (w_now (fw_wire s)) (fw_cache s)).1 = None →
  (Doh.query cancelled_at (Some (w_now (fw_wire s) + UPSTREAM_TIMEOUT)%Z) (name_to_ascii (q_name q)) ty
     (fw_doh s, fw_wire s)).1 = Ok (Ok response) →
  rs_status response = 0%Z → rs_answer response ≠ [] →
  resolve_one cancelled_at q m s = (Ok m1, s1) →
  ∃ ttl, (∃ a, a ∈ rs_answer response ∧ ttl = Z.max (dr_ttl a) 1) ∧
    (∀ a, a ∈ rs_answer response → (ttl ≤ Z.max (dr_ttl a) 1)%Z) ∧
    m1 = add_answers (rs_answer response) m ∧
    (∀ now, (now < w_now (fw_wire s1) + ttl * 1000000000)%Z →
       let '(r, s2) := resolve_one cancelled_at q' m' (at_now now s1) in
       r = Ok (add_answers (rs_answer response) m') ∧ fw_wire s2 = at_instant now (fw_wire s1)) ∧
    (∀ now, (w_now (fw_wire s1) + ttl * 1000000000 ≤ now)%Z →
       (Cache.get (name_to_ascii (q_name q')) ty now (fw_cache s1)).1 = None).
Proof.
  intros Ht Ht' Hn Hen Hmiss Hup Hst Hne. unfold resolve_one at 1. rewrite Ht.
  pose proof (get_keeps_enabled (name_to_ascii (q_name q)) ty (w_now (fw_wire s)) (fw_cache s)) as Hen'.
  destruct (Cache.get _ ty _ (fw_cache s)) as [cached cache]. simpl in Hmiss, Hen'. subst cached. rewrite Hen in Hen'.
  destruct (Doh.query _ _ _ _ _) as [outcome [doh wire]]. simpl in Hup. subst outcome.
  destruct (Cache.insert _ _ _ _ _ _) as [cache'|] eqn:Ei; [|done]. intros [= <- <-]. rewrite Hst in *.
  destruct (Cache.insert_then_get (name_to_ascii (q_name q)) ty (name_to_ascii (q_name q')) ty
    (rs_answer response) (w_now wire) 0 cache cache' Hen' Hne) as (ttl & Hex & Hmin & _ & _); [|done|].
  { unfold Cache.key_new. by rewrite Hn. }
  exists ttl. split_and!; [done|done|done| |]; intros now Hnow; cbn in Hnow;
    destruct (Cache.insert_then_get (name_to_ascii (q_name q)) ty (name_to_ascii (q_name q')) ty
      (rs_answer response) (w_now wire) now cache cache' Hen' Hne) as (ttl' & (a & Ha & ->) & Hmin' & Hhit & Hexp);
    try done; try (unfold Cache.key_new; by rewrite Hn).
  all: assert (Z.max (dr_ttl a) 1 = ttl) as Ett
    by (destruct Hex as (b & Hb & ->); pose proof (Hmin _ Ha); pose proof (Hmin' _ Hb); lia).
  - unfold resolve_one. rewrite Ht', Ht. cbn. specialize (Hhit ltac:(lia)).
    destruct (Cache.get _ ty now cache') as [cached cache2]. simpl in Hhit. subst cached. done.
  - apply Hexp. lia.
Qed.

(** ** TCP connections *)

Definition frame (message : string) : string := prefix_of_len (String.length message) +:+ message.

Fixpoint frames (messages : list string) : string :=
  match messages with [] => "" | m :: ms => frame m +:+ frames ms end.

Lemma len_prefix_round_trip n : n < 2 ^ 16 → len_of_prefix (Ascii.ascii_of_nat (n / 256)) (Ascii.ascii_of_nat (n mod 256)) = n.
Proof.
  intros Hn. unfold len_of_prefix, code.
  assert (n / 256 < 256) by (apply Nat.Div0.div_lt_upper_bound; change (256 * 256) with (2 ^ 16); lia).
  assert (n mod 256 < 256) by (apply Nat.mod_upper_bound; lia).
  rewrite !Ascii.nat_ascii_embedding by done. pose proof (Nat.div_mod_eq n 256). lia.
Qed.

Lemma split_at_app s t : split_at (String.length s) (s +:+ t) = Some (s, t).
Proof. induction s as [|c s IH]; [by destruct t|]. simpl in *. by rewrite IH. Qed.

(** The messages are answered one after another. *)
Inductive handled : list string → Fw → list string → Fw → Prop :=
| handled_none s : handled [] s [] s
| handled_one m ms s s1 r rs s2 :
    handle_query cancelled_at m s = (Ok (Some r), s1) → String.length r < 2 ^ 16 →
    handled ms s1 rs s2 → handled (m :: ms) s (r :: rs) s2.

Lemma frame_shape m rest :
  frame m +:+ rest = String (Ascii.ascii_of_nat (String.length m / 256))
                       (String (Ascii.ascii_of_nat (String.length m mod 256)) (m +:+ rest)).
Proof. unfold frame, prefix_of_len. by rewrite string_app_assoc. Qed.

Lemma frames_length ms : 2 * length ms ≤ String.length (frames ms).
Proof.
  induction ms as [|m ms IH]; [done|]. cbn [frames]. rewrite frame_shape. simpl. rewrite string_length_app. lia.
Qed.

Lemma serve_frames_handled ms s rs s' fuel rest output :
  handled ms s rs s' → Forall (λ m, String.length m < 2 ^ 16) ms →
  serve_frames cancelled_at (length ms + fuel) (frames ms +:+ rest) output s =
  serve_frames cancelled_at fuel rest (output +:+ frames rs) s'.
Proof.
  intros Hh. revert output. induction Hh as [s|m ms s s1 r rs s2 Hq Hr Hh IH]; intros output Hf; cbn [frames].
  { by rewrite string_app_nil_r. }
  apply Forall_cons in Hf as [Hm Hf]. rewrite string_app_assoc, frame_shape. cbn [length Nat.add serve_frames].
  rewrite len_prefix_round_trip, split_at_app, Hq by done.
  destruct (Nat.ltb_spec (String.length r) (2 ^ 16)); [|lia]. rewrite IH by done.
  unfold frame. by rewrite !string_app_assoc.
Qed.

(** The connection ends with [rest]: at its end, inside a frame, or with a
    message that gets no answer or one too long to be sent. *)
Definition connection_ends (rest : string) (s : Fw) (s' : Fw) : Prop :=
  match rest with
  | String a (String b rest) =>
      match split_at (len_of_prefix a b) rest with
      | None => s' = s
      | Some (message, _) => ∃ r, handle_query cancelled_at message s = (r, s') ∧
          match r with Ok (Some response) => 2 ^ 16 ≤ String.length response | _ => True end
      end
  | _ => s' = s
  end.

(** On a TCP connection the messages are read back exactly as they were
    framed and are answered one by one, in order; what is written back is
    their answers, framed the same way.  The connection ends where the input
    does, within an incomplete frame, or at the first message that cannot be
    answered, and all answers before that have been written. *)
Theorem tcp_answers_in_order (ms rs : list string) (rest : string) (s s1 s2 : Fw) :
  handled ms s rs s1 → Forall (λ m, String.length m < 2 ^ 16) ms →
  connection_ends rest s1 s2 →
  serve_tcp_connection cancelled_at (frames ms +:+ rest) s = (frames rs, s2) ∧
  ∀ fuel, String.length (frames ms +:+ rest) < fuel →
    serve_frames cancelled_at fuel (frames ms +:+ rest) "" s = (frames rs, s2).
Proof.
  intros Hh Hf He.
  assert (∀ fuel, String.length (frames ms +:+ rest) < fuel →
    serve_frames cancelled_at fuel (frames ms +:+ rest) "" s = (frames rs, s2)) as Hx; [|split; [|done]; apply Hx; lia].
  intros fuel Hfuel. pose proof (frames_length ms). rewrite string_length_app in Hfuel.
  replace fuel with (length ms + S (fuel - length ms - 1)) by lia.
  rewrite (serve_frames_handled _ _ _ _ _ _ _ Hh Hf). change ("" +:+ ?x) with x. cbn [serve_frames].
  unfold connection_ends in He. destruct rest as [|a [|b rest]]; [by subst..|].
  destruct (split_at _ rest) as [[message rest']|]; [|by subst]. destruct He as (r & -> & Hr).
  destruct r as [[response|]|[]]; [|done..].
  by destruct (Nat.ltb_spec (String.length response) (2 ^ 16)); [lia|].
Qed.
End Answers.

(** ** The forwarder at work

    Concrete names, messages and ports: the hypotheses of the forwarder's
    theorems hold together, and what they say of these runs. *)

Module ForwarderWitness.

(** Names are their text, and the only message is a question for an address. *)
#[local] Instance names : DnsNames := {| Name := string; name_from_ascii := Some; name_to_ascii s := s |}.

Definition question (name : string) : Query := mkQuery name RT_A 1.
Definition request : Message := mkMessage 7 0 true false NoError [question "Example.com."] [].

#[local] Instance messages : DnsMessages := {|
  message_from_vec raw := if decide (raw = "question") then Some request else None;
  message_to_vec m := Some (if decide (msg_answers m = []) then "nothing" else "answer");
|}.

Definition record : DnsRecord := mkDnsRecord "example.com" (KInt 1) 60 "192.0.2.1".
Definition response : DnsResponse := mkDnsResponse 0 false true true false false [] [record] "" 0.

#[local] Instance codec : DohCodec := {|
  decode_response _ := Ok response; status_text _ := ""; from_utf8_lossy s := s;
|}.

Definition start_state : Fw :=
  mkFw DohWitness.client (mkWire 0 [] (λ _ _, (Replied 200 "{}", 5%Z))) (Cache.new Cache.CacheConfig_default).

Lemma published_record_converted_witness :
  ∃ ttl, nearest_ttl 5000000000 ttl ∧
    convert_answer_to_record (mkDnsRecord "example.com" (KInt 15) 5000000000 "20 mail.example.com") =
      Some (@mkRr names "example.com" ttl (@RDataMX names 20 "mail.example.com")).
Proof.
  apply (published_record_converted (mkDnsRecord "example.com" (KInt 15) 5000000000 "20 mail.example.com")
    ("example.com" : @Name names) eq_refl) with (ty := "MX"); [|reflexivity].
  apply (@pr_mx names 20 "mail.example.com" "mail.example.com"); [split; [discriminate|reflexivity]|reflexivity|discriminate|reflexivity].
Defined.

Definition asked : Fw := (handle_query None "question" start_state).2.

Lemma one_question_answered_witness :
  ∃ outcome, Doh.query None (Some UPSTREAM_TIMEOUT) "Example.com." "A" (fw_doh start_state, fw_wire start_state) =
    (outcome, (fw_doh asked, fw_wire asked)).
Proof.
  pose proof (one_question_answered None "question" request (question "Example.com.") start_state eq_refl eq_refl) as H.
  unfold asked. destruct (handle_query None "question" start_state) as [answer s'].
  replace (supported_type_name (q_type (question "Example.com."))) with (Some "A") in H by reflexivity.
  cbv zeta in H. replace (Cache.get _ "A" _ _).1 with (@None Cache.CachedAnswer) in H by reflexivity.
  destruct H as (outcome & H & _). exists outcome. exact H.
Defined.

Definition resolved : Fw := (resolve_one None (question "Example.com.") request start_state).2.

Lemma first_answered :
  resolve_one None (question "Example.com.") request start_state = (Ok (add_answers [record] request), resolved).
Proof. vm_compute. reflexivity. Qed.

Lemma first_upstream :
  (Doh.query None (Some UPSTREAM_TIMEOUT) "Example.com." "A" (fw_doh start_state, fw_wire start_state)).1 =
    Ok (Ok response).
Proof. vm_compute. reflexivity. Qed.

Lemma repeated_question_cached_witness :
  (resolve_one None (question "EXAMPLE.com.") request (at_now 1000 resolved)).1 =
    Ok (add_answers [record] request).
Proof.
  destruct (repeated_question_cached None (question "Example.com.") (question "EXAMPLE.com.") request
    (add_answers [record] request) request "A" start_state resolved response eq_refl eq_refl eq_refl eq_refl
    eq_refl first_upstream eq_refl ltac:(discriminate) first_answered)
    as (ttl & (a & Ha & ->) & _ & _ & Hc & _).
  apply list_elem_of_singleton in Ha as ->. specialize (Hc 1000%Z ltac:(vm_compute; reflexivity)).
  destruct (resolve_one _ _ _ _) as [r s2]. exact (proj1 Hc).
Defined.

Definition again : Fw := (handle_query None "question" asked).2.

Lemma short_enough n : n < 2 ^ 8 → n < 2 ^ 16.
Proof. intros Hn. eapply Nat.lt_le_trans; [exact Hn|]. apply Nat.pow_le_mono_r; lia. Qed.

Lemma both_handled : handled None ["question"; "question"] start_state ["answer"; "answer"] again.
Proof.
  eapply (handled_one None "question" _ _ asked); [vm_compute; reflexivity|apply short_enough; simpl; lia|].
  eapply (handled_one None "question" _ _ again); [vm_compute; reflexivity|apply short_enough; simpl; lia|]. constructor.
Qed.

Lemma tcp_answers_in_order_witness :
  serve_tcp_connection None (frames ["question"; "question"] +:+ "x") start_state = (frames ["answer"; "answer"], again).
Proof.
  refine (proj1 (tcp_answers_in_order None ["question"; "question"] ["answer"; "answer"] "x" start_state again again
    both_handled _ eq_refl)).
  repeat apply Forall_cons_2; [apply short_enough; simpl; lia..|apply Forall_nil_2].
Defined.

(** ** Ports *)

Definition config : FwConfig := FwConfig_default.
Definition free : BindOs := mkBindOs (λ _, Ok "127.0.0.1:53") (λ _, Ok "127.0.0.1:53") true true.
Definition tcp_taken : BindOs := mkBindOs (λ _, Ok "127.0.0.1:53") (λ _, Err address_in_use) true true.

Definition up : Life := (ForwarderLife.start config free life_new).2.
Definition busy : Life := set_tasks (ls_tasks up ++ [UdpQuery 0]) up.

Lemma up_reachable clean : rtc (step config free clean) life_new up.
Proof.
  eapply rtc_l; [apply step_check|]. eapply rtc_l; [apply (step_udp _ _ _ _ 0); reflexivity|].
  eapply rtc_l; [apply (step_tcp _ _ _ _ 0); reflexivity|].
  eapply rtc_l; [apply (step_publish _ _ _ _ 0 (Some "127.0.0.1:53") (Some "127.0.0.1:53")); reflexivity|].
  apply rtc_refl.
Qed.

Lemma forwarder_listens_iff_running_witness : listening config true true 0 (ls_tasks up).
Proof. by apply (forwarder_listens_iff_running config free up (up_reachable _)). Defined.

Lemma stop_frees_ports_when_idle_witness :
  ∃ s1, ForwarderLife.stop busy = (Ok (), s1) ∧
    (ForwarderLife.start config free s1).1 = Err (UdpBind "127.0.0.1:53" address_in_use).
Proof.
  destruct (stop_frees_ports_when_idle config free busy 0) as (s1 & E & _ & _ & _ & Hs);
    [|reflexivity|reflexivity|set_solver|].
  { eapply rtc_r; [exact (up_reachable _)|]. apply (step_datagram _ _ _ up 0). by left. }
  exists s1. split; [exact E|]. apply Hs; [reflexivity|reflexivity|]. exists 0. right. right. by left.
Defined.

Lemma failed_start_leaks_udp_witness :
  (ForwarderLife.start config tcp_taken (ForwarderLife.start config tcp_taken life_new).2).1 =
    Err (UdpBind "127.0.0.1:53" address_in_use).
Proof.
  destruct (failed_start_leaks_udp config tcp_taken life_new (ForwarderLife.start config tcp_taken life_new).2
    (ForwarderLife.start config tcp_taken life_new).2 "127.0.0.1:53" address_in_use) as (_ & _ & [H|H]);
    [apply rtc_refl|reflexivity|reflexivity|reflexivity|apply rtc_refl|discriminate H|exact H].
Defined.
End ForwarderWitness.
