(* ===== verification/SquawkLicense.v ===== *)
(** * The DNS module's product licence (crates/squawk-client/src/license.rs, config.rs)

    [Validator] asks the licence server about a key or a token, remembers the
    answer for the day, and falls back on it when the server cannot be
    reached.  The network is a [LicWire]: what each request meets and how long
    it takes; the clock is the wall clock in nanoseconds since 1970. *)
From S2P Require Import Prelude.
From S2P Require Import Timestamp.

Definition DEFAULT_LICENSE_SERVER_URL : string := "https://license.squawkdns.com".
Definition DEFAULT_CACHE_TIME_MINUTES : Z := 1440.

Record LicenseConfig := mkLicenseConfig {
  lc_server_url : string;
  lc_license_key : string;
  lc_user_token : string;
  lc_validate_online : bool;
  lc_cache_time : Z;                     (* minutes *)
}.

Definition LicenseConfig_default : LicenseConfig :=
  mkLicenseConfig DEFAULT_LICENSE_SERVER_URL "" "" true DEFAULT_CACHE_TIME_MINUTES.

Definition CACHE_KEY : string := "validation".
Definition FALLBACK_FRESHNESS : Z := 24 * 3600 * 1000000000.

Record ValidationResponse := mkValidation {
  vr_valid : bool;
  vr_message : string;
  vr_expires_at : option string;
  vr_tokens_used : option Z;
  vr_max_tokens : option Z;
  vr_user_email : option string;
  vr_license_expires : option string;
}.

Inductive LicenseError :=
| NoCredentials
| Unreachable (err : string)
| Decode (err : string).

Definition LicenseError_display (e : LicenseError) : string :=
  match e with
  | NoCredentials => "license key or user token is required"
  | Unreachable err => "license server unreachable: " +:+ err
  | Decode err => "failed to parse response: " +:+ err
  end.

(** A call returns an error or panics. *)
Inductive LicFailure := Returns (e : LicenseError) | Panics.

Record CacheEntry := mkLicEntry {
  le_valid : bool;
  le_message : string;
  le_validated_at : Z;
  le_expires_at : Z;
}.

Record ValidatorState := mkVState {
  vs_cache : gmap string CacheEntry;
  vs_validated_today : option string;
}.

(** ** Dates *)

Definition lic_civil_from_days (days : Z) : Z * Z * Z :=
  (let z := days + 719468 in
   let era := (if 0 <=? z then z else z - 146096) ÷ 146097 in
   let doe := wrap_u64 (z - era * 146097) in
   let yoe := (doe - doe ÷ 1460 + doe ÷ 36524 - doe ÷ 146096) ÷ 365 in
   let y := yoe + era * 400 in
   let doy := doe - (365 * yoe + yoe ÷ 4 - yoe ÷ 100) in
   let mp := (5 * doy + 2) ÷ 153 in
   let day := wrap_u32 (doy - (153 * mp + 2) ÷ 5 + 1) in
   let month := wrap_u32 (if mp <? 10 then mp + 3 else mp - 9) in
   let year := if month <=? 2 then y + 1 else y in
   (year, month, day))%Z.

Definition today_string (now : Z) : string :=
  let secs := if (0 <=? now)%Z then (now / 1000000000)%Z else 0%Z in
  let days_since_epoch := (secs ÷ 86400)%Z in
  let '(year, month, day) := lic_civil_from_days days_since_epoch in
  pad_zero 4 year +:+ "-" +:+ pad_zero 2 month +:+ "-" +:+ pad_zero 2 day.

(** Nanoseconds; the product of seconds wraps in 64 bits. *)
Definition cache_time_duration (cache_time_minutes : Z) : Z :=
  (wrap_u64 (Z.max cache_time_minutes 0 * 60) * 1000000000)%Z.

(** [SystemTime + Duration]: the seconds are an [i64]. *)
Definition system_add (now d : Z) : option Z :=
  if ((now + d) / 1000000000 <? 2 ^ 63)%Z then Some (now + d)%Z else None.

(** ** The network *)

Inductive LicRequest :=
| ValidateKey (url license_key : string)
| ValidateToken (url user_token : string).

Inductive LicOutcome :=
| LicSendFailed (err : string)
| LicBodyFailed (err : string)
| LicBody (body : string).

Record LicWire := mkLicWire {
  lw_now : Z;
  lw_sent : list LicRequest;
  lw_answer : nat → LicRequest → LicOutcome * Z;
}.

Class LicCodec := { decode_validation : string → result ValidationResponse string }.

Section Validator.
  Context `{LicCodec} (config : LicenseConfig).

Abbreviation St := (ValidatorState * LicWire)%type.
Abbreviation Act := (eff St LicFailure).

Definition validator_new : ValidatorState := mkVState ∅ None.

Definition cached_response (entry : CacheEntry) : ValidationResponse :=
  mkValidation (le_valid entry) (le_message entry) None None None None None.

Definition today_cached_result (today : string) (v : ValidatorState) : option ValidationResponse :=
  if decide (vs_validated_today v = Some today) then cached_response <$> vs_cache v !! CACHE_KEY
  else None.

(** [duration_since(...).unwrap_or(Duration::MAX)]: no age when the clock has
    gone back. *)
Definition fresh_offline_result (now : Z) (v : ValidatorState) : option ValidationResponse :=
  entry ← vs_cache v !! CACHE_KEY;
  if (now <? le_validated_at entry)%Z then None
  else if (cache_time_duration (lc_cache_time config) <=? now - le_validated_at entry)%Z then None
  else Some (cached_response entry).

Definition has_recent_valid_cache (now : Z) (v : ValidatorState) : bool :=
  match vs_cache v !! CACHE_KEY with
  | None => false
  | Some entry =>
      if negb (le_valid entry) then false
      else
        let recent := (now <? le_validated_at entry)%Z ||
                      (now - le_validated_at entry <? FALLBACK_FRESHNESS)%Z in
        let still_fresh := (now <? le_expires_at entry)%Z in
        recent || still_fresh
  end.

Definition cache_validation (valid : bool) (message : string) : Act unit := λ '(v, w),
  let now := lw_now w in
  match system_add now (cache_time_duration (lc_cache_time config)) with
  | None => (Err Panics, (v, w))
  | Some expires_at =>
      (Ok (), (mkVState (<[CACHE_KEY := mkLicEntry valid message now expires_at]> (vs_cache v))
                 (Some (today_string now)), w))
  end.

Definition decode_outcome (outcome : LicOutcome) : result ValidationResponse LicenseError :=
  match outcome with
  | LicSendFailed err | LicBodyFailed err => Err (Unreachable err)
  | LicBody body => map_err Decode (decode_validation body)
  end.

Definition post (rq : LicRequest) : Act ValidationResponse := λ '(v, w),
  let '(outcome, d) := lw_answer w (length (lw_sent w)) rq in
  (map_err Returns (decode_outcome outcome), (v, mkLicWire (lw_now w + d) (lw_sent w ++ [rq]) (lw_answer w))).

Definition validate_license_key : Act ValidationResponse :=
  let! parsed := post (ValidateKey (lc_server_url config +:+ "/api/validate") (lc_license_key config)) in
  let! _ := cache_validation (vr_valid parsed) (vr_message parsed) in
  pure (Ok parsed).

Definition validate_user_token : Act ValidationResponse :=
  let! parsed := post (ValidateToken (lc_server_url config +:+ "/api/validate_token") (lc_user_token config)) in
  let! _ := cache_validation (vr_valid parsed) (vr_message parsed) in
  pure (Ok parsed).

Definition validate_license : Act ValidationResponse := λ '(v, w),
  match today_cached_result (today_string (lw_now w)) v with
  | Some cached => (Ok cached, (v, w))
  | None =>
      match (if negb (lc_validate_online config) then fresh_offline_result (lw_now w) v else None) with
      | Some cached => (Ok cached, (v, w))
      | None =>
          if decide (lc_user_token config ≠ "") then validate_user_token (v, w)
          else if decide (lc_license_key config ≠ "") then validate_license_key (v, w)
          else (Err (Returns NoCredentials), (v, w))
      end
  end.

Definition is_valid : Act bool := λ '(v, w),
  match today_cached_result (today_string (lw_now w)) v with
  | Some (mkValidation true _ _ _ _ _ _) => (Ok true, (v, w))
  | _ =>
      let '(r, (v, w)) := validate_license (v, w) in
      match r with
      | Ok response => (Ok (vr_valid response), (v, w))
      | Err Panics => (Err Panics, (v, w))
      | Err (Returns err) =>
          if has_recent_valid_cache (lw_now w) v then (Ok true, (v, w)) else (Err (Returns err), (v, w))
      end
  end.

Definition get_status : Act ValidationResponse := validate_license.

Definition clear_cache (v : ValidatorState) : ValidatorState := mkVState ∅ None.

(** The marks are UTF-8. *)
Definition check_mark : string :=
  String (Ascii.ascii_of_nat 226) (String (Ascii.ascii_of_nat 156) (String (Ascii.ascii_of_nat 147) "")).
Definition cross_mark : string :=
  String (Ascii.ascii_of_nat 226) (String (Ascii.ascii_of_nat 156) (String (Ascii.ascii_of_nat 151) "")).
Definition eol : string := String (Ascii.ascii_of_nat 10) "".

Definition license_info (status : ValidationResponse) : string :=
  "License Status: " +:+ (if vr_valid status then check_mark +:+ " Valid" else cross_mark +:+ " Invalid") +:+ eol +:+
  (if decide (vr_message status = "") then "" else "Message: " +:+ vr_message status +:+ eol) +:+
  match vr_expires_at status with Some e => "License Expires: " +:+ e +:+ eol | None => "" end +:+
  match vr_user_email status with Some e => "User: " +:+ e +:+ eol | None => "" end +:+
  match vr_tokens_used status, vr_max_tokens status with
  | Some used, Some max => "Tokens: " +:+ pretty used +:+ "/" +:+ pretty max +:+ " used" +:+ eol
  | _, _ => ""
  end.

Definition get_license_info : Act string :=
  let! status := validate_license in
  pure (Ok (license_info status)).

(** ** Facts *)

(** The copy of the day arithmetic agrees with the command line's. *)
Lemma civil_copies_agree days :
  (0 ≤ days < 2 ^ 62)%Z → lic_civil_from_days days = civil_from_days days.
Proof.
  intros Hd. unfold lic_civil_from_days, civil_from_days.
  rewrite (proj2 (Z.leb_le 0 (days + 719468))) by lia.
  rewrite (Z.quot_div_nonneg (days + 719468) 146097) by lia.
  assert (days + 719468 - (days + 719468) / 146097 * 146097 = (days + 719468) mod 146097)%Z as -> by
    (rewrite Z.mod_eq; lia).
  assert (wrap_u64 ((days + 719468) mod 146097) = (days + 719468) mod 146097)%Z as ->; [|done].
  pose proof (Z.mod_pos_bound (days + 719468) 146097 ltac:(lia)). apply wrap_u_small. lia.
Qed.


(** ** The server has the last word *)

(** What was decoded of the [n]-th request's answer. *)
Definition reply_to (w : LicWire) (n : nat) (rq : LicRequest) : option ValidationResponse :=
  match decode_outcome (lw_answer w n rq).1 with Ok response => Some response | Err _ => None end.

(** The last answer of the server that could be decoded. *)
Definition last_reply (w : LicWire) : option ValidationResponse :=
  last (omap id (imap (reply_to w) (lw_sent w))).

Lemma last_reply_snoc w rq now :
  last_reply (mkLicWire now (lw_sent w ++ [rq]) (lw_answer w)) =
  match reply_to w (length (lw_sent w)) rq with Some r => Some r | None => last_reply w end.
Proof.
  unfold last_reply. cbn [lw_sent]. rewrite imap_app, omap_app, last_app. simpl. rewrite Nat.add_0_r.
  change (reply_to (mkLicWire now (lw_sent w ++ [rq]) (lw_answer w))) with (reply_to w).
  destruct (reply_to w (length (lw_sent w)) rq); done.
Qed.

(** A validator that has been asked for its verdict, or had its cache
    cleared; time goes on, or back. *)
Inductive lic_step : St → St → Prop :=
| lic_validate v w r s : validate_license (v, w) = (r, s) → r ≠ Err Panics → lic_step (v, w) s
| lic_is_valid v w r s : is_valid (v, w) = (r, s) → r ≠ Err Panics → lic_step (v, w) s
| lic_clear v w : lic_step (v, w) (clear_cache v, w)
| lic_time v w now : lic_step (v, w) (v, mkLicWire now (lw_sent w) (lw_answer w)).

(** What is remembered is what the server said last. *)
Definition remembers (s : St) : Prop :=
  ∀ entry, vs_cache s.1 !! CACHE_KEY = Some entry →
    ∃ r, last_reply s.2 = Some r ∧ le_valid entry = vr_valid r ∧ le_message entry = vr_message r.

Lemma ask_remembers rq v w r s :
  remembers (v, w) →
  (let! parsed := post rq in
   let! _ := cache_validation (vr_valid parsed) (vr_message parsed) in
   pure (Ok parsed)) (v, w) = (r, s) → r ≠ Err Panics →
  remembers s ∧ match r with Ok response => last_reply s.2 = Some response | Err _ => s.1 = v end.
Proof.
  intros Hr. unfold eff_bind, post. pose proof (last_reply_snoc w rq) as Hl. unfold reply_to in Hl.
  destruct (lw_answer w (length (lw_sent w)) rq) as [outcome d]. cbn [fst] in Hl.
  destruct (decode_outcome outcome) as [parsed|e]; simpl.
  - unfold cache_validation. cbn [lw_now]. destruct (system_add _ _) as [t|]; simpl; [|congruence].
    intros [= <- <-] _. unfold remembers. cbn [fst snd]. rewrite Hl. split; [|done].
    intros entry. cbn [vs_cache]. rewrite lookup_insert_eq. intros [= <-]. by exists parsed.
  - intros [= <- <-] _. unfold remembers. cbn [fst snd]. rewrite Hl. split; [|done]. exact Hr.
Qed.

Lemma validate_remembers v w r s :
  remembers (v, w) → validate_license (v, w) = (r, s) → r ≠ Err Panics →
  remembers s ∧ match r with
                | Ok response => ∃ l, last_reply s.2 = Some l ∧ vr_valid l = vr_valid response
                | Err _ => s.1 = v
                end.
Proof.
  intros Hr. unfold validate_license.
  assert (∀ entry, vs_cache v !! CACHE_KEY = Some entry →
    ∃ l, last_reply w = Some l ∧ vr_valid l = vr_valid (cached_response entry)) as Hc.
  { intros entry He. destruct (Hr entry He) as (l & ? & ? & _). by exists l. }
  destruct (today_cached_result _ v) as [cached|] eqn:Et.
  { intros [= <- <-] _. split; [done|]. unfold today_cached_result in Et. case_decide; [|done].
    destruct (vs_cache v !! CACHE_KEY) as [entry|] eqn:Ee; [|done]. injection Et as <-. by apply Hc. }
  destruct (if negb _ then _ else _) as [cached|] eqn:Eo.
  { intros [= <- <-] _. split; [done|]. destruct (negb _); [|done]. unfold fresh_offline_result in Eo.
    destruct (vs_cache v !! CACHE_KEY) as [entry|] eqn:Ee; [|done]. simpl in Eo.
    destruct (_ <? _)%Z; [done|]. destruct (_ <=? _)%Z; [done|]. injection Eo as <-. by apply Hc. }
  case_decide; [|case_decide]; intros E Hp.
  1, 2: eapply ask_remembers in E as [Hs Hm]; [|done|done]; (split; [done|]);
    destruct r; [by eexists|done].
  injection E as <- <-. done.
Qed.

Lemma is_valid_remembers v w r s :
  remembers (v, w) → is_valid (v, w) = (r, s) → r ≠ Err Panics →
  remembers s ∧ (r = Ok true → ∃ l, last_reply s.2 = Some l ∧ vr_valid l = true).
Proof.
  intros Hr. unfold is_valid. destruct (today_cached_result (today_string (lw_now w)) v) as [cached|] eqn:Et.
  2: destruct (validate_license (v, w)) as [r1 [v1 w1]] eqn:E1.
  - unfold today_cached_result in Et. case_decide as Ht; [|done].
    destruct (vs_cache v !! CACHE_KEY) as [entry|] eqn:Ee; [|done]. injection Et as <-.
    destruct (Hr entry Ee) as (l & Hl & Hv & _). unfold cached_response.
    destruct (le_valid entry) eqn:Ev; [intros [= <- <-] _; split; [done|]; intros _; exists l; by rewrite <- Hv|].
    assert (validate_license (v, w) = (Ok (cached_response entry), (v, w))) as ->.
    { unfold validate_license, today_cached_result. by rewrite decide_True, Ee. }
    intros [= <- <-] _. split; [done|]. simpl. congruence.
  - assert (r1 ≠ Err Panics → remembers (v1, w1) ∧ _) as Hv by (intros; by eapply validate_remembers).
    destruct r1 as [response|[err|]]; [..|intros [= <- <-]; congruence].
    + destruct (Hv ltac:(done)) as [Hm (l & Hl & Hlv)]. intros [= <- <-] _. split; [done|].
      intros [= E]. exists l. split; [done|congruence].
    + destruct (Hv ltac:(done)) as [Hm Hv1]. simpl in Hv1. subst v1.
      destruct (has_recent_valid_cache (lw_now w1) v) eqn:Eh; intros [= <- <-] _; (split; [done|]); [|done].
      intros _. unfold has_recent_valid_cache in Eh. destruct (vs_cache v !! CACHE_KEY) as [entry|] eqn:Ee; [|done].
      destruct (Hm entry Ee) as (l & Hl & Hlv & _). exists l. split; [done|]. rewrite <- Hlv.
      by destruct (le_valid entry).
Qed.

Lemma validate_sends v w r v' w' :
  validate_license (v, w) = (r, (v', w')) →
  lw_sent w' = lw_sent w ∨
  ∃ rq, lw_sent w' = lw_sent w ++ [rq] ∧ (is_ok r = true → is_Some (reply_to w (length (lw_sent w)) rq)).
Proof.
  assert (∀ rq, (let! parsed := post rq in
      let! _ := cache_validation (vr_valid parsed) (vr_message parsed) in
      pure (Ok parsed)) (v, w) = (r, (v', w')) →
    ∃ rq, lw_sent w' = lw_sent w ++ [rq] ∧ (is_ok r = true → is_Some (reply_to w (length (lw_sent w)) rq))) as Hask.
  { intros rq E. exists rq. revert E. unfold eff_bind, post, reply_to.
    destruct (lw_answer w _ rq) as [outcome d]. simpl.
    destruct (decode_outcome outcome) as [parsed|e]; simpl; [|by intros [= <- _ <-]].
    unfold cache_validation. destruct (system_add _ _); simpl; intros [= <- _ <-]; eauto. }
  unfold validate_license. destruct (today_cached_result _ v); [intros [= _ _ <-]; by left|].
  destruct (if negb _ then _ else _); [intros [= _ _ <-]; by left|].
  case_decide; [right; by eapply Hask|]. case_decide; [right; by eapply Hask|]. intros [= _ _ <-]. by left.
Qed.

(** Whatever a validator has been through (validations, failed requests,
    cleared caches, a clock that jumps), a licence counts as valid only if the
    last answer of the server that could be read said so; and a fall-back on
    the remembered answer further needs that answer to be of today, within the
    last day, or within the configured time, or to lie ahead of the clock. *)
Theorem licence_valid_only_on_last_word (w0 : LicWire) (v v' : ValidatorState) (w w' : LicWire) :
  lw_sent w0 = [] → rtc lic_step (validator_new, w0) (v, w) →
  is_valid (v, w) = (Ok true, (v', w')) →
  (∃ l, last_reply w' = Some l ∧ vr_valid l = true) ∧
  (lw_sent w' = lw_sent w ∨ (∃ rq, lw_sent w' = lw_sent w ++ [rq] ∧ is_Some (reply_to w (length (lw_sent w)) rq)) ∨
   ∃ entry, vs_cache v !! CACHE_KEY = Some entry ∧ le_valid entry = true ∧
     (lw_now w' < le_validated_at entry ∨ lw_now w' - le_validated_at entry < FALLBACK_FRESHNESS ∨
      lw_now w' < le_expires_at entry)%Z).
Proof.
  intros H0 Hr E. assert (remembers (v, w)) as Hm.
  { eapply (rtc_ind_r remembers); [| |exact Hr].
    - intros entry. simpl. by rewrite lookup_empty.
    - intros s1 s2 _ Hst IH. destruct Hst as [v1 w1 r s E1 Hp|v1 w1 r s E1 Hp|v1 w1|v1 w1 now].
      + by apply (validate_remembers _ _ _ _ IH E1 Hp).
      + by apply (is_valid_remembers _ _ _ _ IH E1 Hp).
      + intros entry. simpl. by rewrite lookup_empty.
      + exact IH. }
  split; [by apply (is_valid_remembers _ _ _ _ Hm E)|].
  unfold is_valid in E. destruct (today_cached_result (today_string (lw_now w)) v) as [cached|] eqn:Et.
  - unfold today_cached_result in Et. case_decide as Ht; [|done].
    destruct (vs_cache v !! CACHE_KEY) as [entry|] eqn:Ee; [|done]. injection Et as <-.
    assert (validate_license (v, w) = (Ok (cached_response entry), (v, w))) as Ev.
    { unfold validate_license, today_cached_result. by rewrite decide_True, Ee. }
    rewrite Ev in E. unfold cached_response in E. destruct (le_valid entry); [injection E as <- <-; by left|done].
  - destruct (validate_license (v, w)) as [r1 [v1 w1]] eqn:E1. apply validate_sends in E1 as Hs.
    destruct r1 as [response|[err|]]; [..|done].
    + injection E as _ _ <-. destruct Hs as [?|(rq & ? & ?)]; [by left|]. right. left. eauto.
    + destruct (validate_remembers _ _ _ _ Hm E1 ltac:(done)) as [_ Hv1]. simpl in Hv1. subst v1.
      destruct (has_recent_valid_cache (lw_now w1) v) eqn:Eh; [|done]. injection E as <- <-. right. right.
      unfold has_recent_valid_cache in Eh. destruct (vs_cache v !! CACHE_KEY) as [entry|]; [|done].
      exists entry. split; [done|]. destruct (le_valid entry); [|done]. split; [done|]. simpl in Eh.
      rewrite !orb_true_iff, !Z.ltb_lt in Eh. tauto.
Qed.
End Validator.
