(* ===== verification/Squawk.v ===== *)
(** * The DNS module (crates/penguin-module-squawk/src: config.rs, module.rs, commands.rs, metrics.rs)

    The module around the DNS client, the forwarder and the system resolver:
    what [init], [start], [stop], [status] and [health] do, and every command.
    The state of a call is the module and the world: the host whose resolver
    is managed, the ports and tasks of the process, the networks, the clock
    and the log.  The wall clock may differ from the clock of the network by
    [sw_skew]. *)
From S2P Require Import Prelude.
From S2P Require Import Text.
From S2P Require Import Ntp.
From S2P Require Import SysResolver.
From S2P Require Import Pem.
From S2P Require Import Doh.
From S2P Require Import ForwarderLife.
From S2P Require Import SquawkLicense.
From S2P Require Import Json.
From S2P Require Import Mask.
From S2P Require Import DnsCache.
From S2P Require Import Sdk.

(** ** Configuration (config.rs) *)

Definition DEFAULT_DOH_SERVER_URL : string := "https://127.0.0.1:443/dns-query".
Definition DEFAULT_CACHE_MAX_ENTRIES : Z := 10000.

Record DohSection := mkDohSection {
  ds_server_url : string;
  ds_verify_tls : bool;
  ds_auth_token : string;
  ds_client_cert : string;
  ds_client_key : string;
  ds_ca_cert : string;
}.

Record ForwarderSection := mkForwarderSection {
  fs_enabled : bool;
  fs_udp_addr : string;
  fs_tcp_addr : string;
}.

Record ModuleConfig := mkModuleConfig {
  mc_doh : DohSection;
  mc_forwarder : ForwarderSection;
  mc_manage : bool;                      (* [system_dns.manage] *)
  mc_cache_enabled : bool;               (* [cache.enabled] *)
  mc_ntp_server_urls : list string;      (* [ntp.server_urls] *)
  mc_license : SquawkLicense.LicenseConfig;
}.

Definition DohSection_default : DohSection := mkDohSection DEFAULT_DOH_SERVER_URL true "" "" "" "".
Definition ForwarderSection_default : ForwarderSection :=
  mkForwarderSection false "127.0.0.1:53" "127.0.0.1:53".
Definition ModuleConfig_default : ModuleConfig :=
  mkModuleConfig DohSection_default ForwarderSection_default false true []
    SquawkLicense.LicenseConfig_default.

(** ** Metrics (metrics.rs) *)

Record SquawkMetrics := mkMetrics {
  queries_total : Z;
  forwarder_up : Z;
  cache_entries : Z;
  dns_applied : Z;
  health_status : Z;
}.

Definition metrics_new : SquawkMetrics := mkMetrics 0 0 0 0 0.

Definition inc_queries (m : SquawkMetrics) : SquawkMetrics :=
  mkMetrics (queries_total m + 1) (forwarder_up m) (cache_entries m) (dns_applied m) (health_status m).
Definition set_forwarder_up (x : Z) (m : SquawkMetrics) : SquawkMetrics :=
  mkMetrics (queries_total m) x (cache_entries m) (dns_applied m) (health_status m).
Definition set_cache_entries (x : Z) (m : SquawkMetrics) : SquawkMetrics :=
  mkMetrics (queries_total m) (forwarder_up m) x (dns_applied m) (health_status m).
Definition set_dns_applied (x : Z) (m : SquawkMetrics) : SquawkMetrics :=
  mkMetrics (queries_total m) (forwarder_up m) (cache_entries m) x (health_status m).
Definition set_health (level : HealthLevel) (m : SquawkMetrics) : SquawkMetrics :=
  mkMetrics (queries_total m) (forwarder_up m) (cache_entries m) (dns_applied m)
    (HealthLevelM.as_i32 level).

(** ** The module and its world *)

Definition HEALTH_CACHE_TTL : Z := 5 * 1000000000.
Definition HEALTH_PROBE_TIMEOUT : Z := 2 * 1000000000.
Definition HEALTH_PROBE_DOMAIN : string := "google.com".
Definition QUERY_TIMEOUT : Z := 5 * 1000000000.
Definition LICENSE_TIMEOUT : Z := 5 * 1000000000.

(** [sysresolver/error.rs] *)
Definition sr_display (e : SysResolver.SysResolverError) : string :=
  match e with
  | SysResolver.NoServers => "no DNS servers provided"
  | SysResolver.NoBackendAvailable => "no DNS backend is available on this platform"
  | SysResolver.NoBackupAvailable => "no DNS backup available to restore"
  | SysResolver.CorruptMarker original quarantined source =>
      "crash marker at " +:+ original +:+ " is corrupt and has been quarantined to " +:+ quarantined +:+
        ": " +:+ source
  | SysResolver.SrIo context source => context +:+ ": " +:+ source
  | SysResolver.SrBackend message => message
  end.

(** [serde_norway] on the configuration, [serde_json] on the outputs, and the
    two floating-point numbers the [time] command prints. *)
Class SquawkCodec := {
  config_from_slice : string → result ModuleConfig string;
  to_vec : Value → result string string;
  to_vec_pretty : Value → result string string;
  utf8_lossy : string → string;
  millis_text : Z → string;
}.

Record Sq := mkSq {
  sq_config : ModuleConfig;
  sq_doh : Doh.DohClient;
  sq_forwarder : option ForwarderLife.FwConfig;
  sq_cache : Cache.t;                    (* of the forwarder, if any *)
  sq_metrics : SquawkMetrics;
  sq_running : bool;
  sq_dns_applied : bool;
  sq_last_health : HealthReport;
}.

Section Module_.
  Context `{IP : SysResolver.IpAddr} `{MC : SysResolver.MarkerCodec} `{U8 : SysResolver.Utf8}.
  Context `{UC : Doh.UrlCrate} `{TC : Doh.TlsCrates} `{B64 : Pem.Base64} `{DC : Doh.DohCodec}.
  Context `{LC : SquawkLicense.LicCodec} `{SC : SquawkCodec}.
  Context (data_dir resolv_conf_path : string) (read_to_string : string → result string string).
  Context (os : ForwarderLife.BindOs) (managed_server : SysResolver.Ip).

Record World := mkWorld {
  sw_host : SysResolver.Host _;
  sw_life : ForwarderLife.Life;
  sw_wire : Doh.Wire;
  sw_license : SquawkLicense.LicWire;
  sw_ntp : Ntp.World;
  sw_secrets : string → option string;
  sw_skew : Z;
  sw_log : list string;
}.

Abbreviation St := (Sq * World)%type.

Definition wall (w : World) : Z := (Doh.w_now (sw_wire w) + sw_skew w)%Z.

Definition set_host h (w : World) : World :=
  mkWorld h (sw_life w) (sw_wire w) (sw_license w) (sw_ntp w) (sw_secrets w) (sw_skew w) (sw_log w).
Definition set_life l (w : World) : World :=
  mkWorld (sw_host w) l (sw_wire w) (sw_license w) (sw_ntp w) (sw_secrets w) (sw_skew w) (sw_log w).
Definition set_wire x (w : World) : World :=
  mkWorld (sw_host w) (sw_life w) x (sw_license w) (sw_ntp w) (sw_secrets w) (sw_skew w) (sw_log w).
Definition set_lic x (w : World) : World :=
  mkWorld (sw_host w) (sw_life w) (sw_wire w) x (sw_ntp w) (sw_secrets w) (sw_skew w) (sw_log w).
Definition log line (w : World) : World :=
  mkWorld (sw_host w) (sw_life w) (sw_wire w) (sw_license w) (sw_ntp w) (sw_secrets w) (sw_skew w)
    (sw_log w ++ [line]).

Definition set_doh d (m : Sq) : Sq :=
  mkSq (sq_config m) d (sq_forwarder m) (sq_cache m) (sq_metrics m) (sq_running m) (sq_dns_applied m)
    (sq_last_health m).
Definition set_cache c (m : Sq) : Sq :=
  mkSq (sq_config m) (sq_doh m) (sq_forwarder m) c (sq_metrics m) (sq_running m) (sq_dns_applied m)
    (sq_last_health m).
Definition gauge (f : SquawkMetrics → SquawkMetrics) (m : Sq) : Sq :=
  mkSq (sq_config m) (sq_doh m) (sq_forwarder m) (sq_cache m) (f (sq_metrics m)) (sq_running m)
    (sq_dns_applied m) (sq_last_health m).
Definition set_running b (m : Sq) : Sq :=
  mkSq (sq_config m) (sq_doh m) (sq_forwarder m) (sq_cache m) (sq_metrics m) b (sq_dns_applied m)
    (sq_last_health m).
Definition set_applied b (m : Sq) : Sq :=
  mkSq (sq_config m) (sq_doh m) (sq_forwarder m) (sq_cache m) (sq_metrics m) (sq_running m) b
    (sq_last_health m).
Definition set_last_health r (m : Sq) : Sq :=
  mkSq (sq_config m) (sq_doh m) (sq_forwarder m) (sq_cache m) (sq_metrics m) (sq_running m)
    (sq_dns_applied m) r.

Definition backends : list SysResolver.PlatformBackend :=
  SysResolver.build_backends data_dir resolv_conf_path.

(** A call of the resolver, or of the forwarder's life cycle. *)
Definition on_host {A} (m : SysResolver.IO A) (w : World) : result A SysResolver.SysResolverError * World :=
  let '(r, h) := m (sw_host w) in (r, set_host h w).
Definition on_life {A} (m : eff ForwarderLife.Life ForwarderLife.ForwarderError A) (w : World) :
    result A ForwarderLife.ForwarderError * World :=
  let '(r, l) := m (sw_life w) in (r, set_life l w).

(** ** Life cycle (module.rs) *)

Definition doh_config (cfg : ModuleConfig) (auth_token : string) : Doh.Config :=
  Doh.mkConfig (ds_server_url (mc_doh cfg)) [] auth_token (ds_client_cert (mc_doh cfg))
    (ds_client_key (mc_doh cfg)) (ds_ca_cert (mc_doh cfg)) (ds_verify_tls (mc_doh cfg)) 0 0.

Definition with_token (token : string) (cfg : ModuleConfig) : ModuleConfig :=
  mkModuleConfig (mkDohSection (ds_server_url (mc_doh cfg)) (ds_verify_tls (mc_doh cfg)) token
                    (ds_client_cert (mc_doh cfg)) (ds_client_key (mc_doh cfg)) (ds_ca_cert (mc_doh cfg)))
    (mc_forwarder cfg) (mc_manage cfg) (mc_cache_enabled cfg) (mc_ntp_server_urls cfg) (mc_license cfg).

(** A new [Forwarder] starts out stopped; the tasks of the process stay. *)
Definition fresh_run (l : ForwarderLife.Life) : ForwarderLife.Life :=
  ForwarderLife.mkLife None None None (ForwarderLife.ls_tokens l) (ForwarderLife.ls_cancelled l) ∅
    (ForwarderLife.ls_tasks l) (ForwarderLife.ls_binds l).

Definition init (raw_config : string) (register : result unit string) (w : World) :
    result Sq ModuleError * World :=
  let '(recovered, w) := on_host (SysResolver.recover_from_crash data_dir backends) w in
  let w := match recovered with
           | Ok _ => w
           | Err _ => log "squawk DNS crash recovery failed; continuing with fresh resolver state" w
           end in
  match (if decide (raw_config = "") then Ok ModuleConfig_default
         else map_err (λ err, mkModuleError ("parse squawk config: " +:+ err))
                (config_from_slice raw_config)) with
  | Err e => (Err e, w)
  | Ok cfg =>
      let cfg := if decide (ds_auth_token (mc_doh cfg) = "") then
                   match sw_secrets w "auth_token" with
                   | Some token => with_token (utf8_lossy token) cfg
                   | None => cfg
                   end
                 else cfg in
      match Doh.doh_new read_to_string (doh_config cfg (ds_auth_token (mc_doh cfg))) with
      | Err err =>
          (Err (mkModuleError ("create DoH client: " +:+ Doh.DohError_display err)),
           log "failed to create DoH client" w)
      | Ok doh =>
          let forwarder :=
            if fs_enabled (mc_forwarder cfg)
            then Some (ForwarderLife.mkFwConfig (fs_udp_addr (mc_forwarder cfg))
                         (fs_tcp_addr (mc_forwarder cfg)) true true)
            else None in
          let cache := Cache.new (Cache.mkCacheConfig (mc_cache_enabled cfg) DEFAULT_CACHE_MAX_ENTRIES) in
          match register with
          | Err err => (Err (mkModuleError ("register metrics: " +:+ err)), w)
          | Ok _ =>
              (Ok (mkSq cfg doh forwarder cache metrics_new false false HealthReport_default),
               log "squawk module initialized" (set_life (fresh_run (sw_life w)) w))
          end
      end
  end.

(** Taking over the system's DNS, when configured. *)
Definition start_dns (s : St) : St :=
  let '(m, w) := s in
  if mc_manage (sq_config m) then
    let '(r, w) := on_host (SysResolver.apply data_dir backends [managed_server]) w in
    match r with
    | Ok _ => (gauge (set_dns_applied 1) (set_applied true m), w)
    | Err _ => (m, log "failed to apply system DNS" w)
    end
  else (m, w).

Definition start (s : St) : result unit ModuleError * St :=
  let '(m, w) := s in
  if sq_running m then (Ok (), s)
  else
    let m := set_running true m in
    let '(r, (m, w)) :=
      match sq_forwarder m with
      | Some fwd =>
          let '(r, w) := on_life (ForwarderLife.start fwd os) w in
          match r with
          | Err err =>
              (Err (mkModuleError ("start forwarder: " +:+ ForwarderLife.ForwarderError_display err)),
               (set_running false m, log "failed to start forwarder" w))
          | Ok _ => (Ok (), (gauge (set_forwarder_up 1) m, w))
          end
      | None => (Ok (), (m, w))
      end in
    match r with
    | Err e => (Err e, (m, w))
    | Ok _ => let '(m, w) := start_dns (m, w) in (Ok (), (m, log "squawk module started" w))
    end.

Definition stop (s : St) : result unit ModuleError * St :=
  let '(m, w) := s in
  if negb (sq_running m) then (Ok (), s)
  else
    let m := set_running false m in
    let '(errors1, (m, w)) :=
      match sq_forwarder m with
      | Some _ =>
          let '(r, w) := on_life ForwarderLife.stop w in
          let m := gauge (set_forwarder_up 0) m in
          match r with
          | Err err => (["forwarder: " +:+ ForwarderLife.ForwarderError_display err],
                        (m, log "failed to stop forwarder" w))
          | Ok _ => ([], (m, w))
          end
      | None => ([], (m, w))
      end in
    let '(errors2, (m, w)) :=
      if mc_manage (sq_config m) then
        let '(r, w) := on_host (SysResolver.restore data_dir backends) w in
        let m := gauge (set_dns_applied 0) (set_applied false m) in
        match r with
        | Err err => (["resolver: " +:+ sr_display err], (m, log "failed to restore system DNS" w))
        | Ok _ => ([], (m, w))
        end
      else ([], (m, w)) in
    let w := log "squawk module stopped" w in
    match errors1 ++ errors2 with
    | [] => (Ok (), (m, w))
    | errors => (Err (mkModuleError ("stop errors: " +:+ String.concat "; " errors)), (m, w))
    end.

Definition forwarder_detail (l : ForwarderLife.Life) : string :=
  if negb (ForwarderLife.is_running l) then "configured, not running"
  else
    match ForwarderLife.local_udp_addr l, ForwarderLife.local_tcp_addr l with
    | Some udp, Some tcp => "listening udp " +:+ udp +:+ ", tcp " +:+ tcp
    | Some udp, None => "listening udp " +:+ udp
    | None, Some tcp => "listening tcp " +:+ tcp
    | None, None => "listening"
    end.

Definition status (s : St) : Status * St :=
  let '(m, w) := s in
  let state := if sq_running m then Running else Stopped in
  let detail : gmap string string := {["server" := ds_server_url (mc_doh (sq_config m))]} in
  let '(detail, m) :=
    match sq_forwarder m with
    | Some _ => (<["forwarder" := forwarder_detail (sw_life w)]> detail,
                 gauge (set_cache_entries (Cache.cs_entries (Cache.stats (sq_cache m)))) m)
    | None => (detail, m)
    end in
  let '(current, w) := on_host (SysResolver.current backends) w in
  let detail := match current with
                | Ok (first :: _) => <["dns_servers" := SysResolver.ip_to_string first]> detail
                | _ => detail
                end in
  (mkStatus state detail, (m, w)).

(** A query of the module's own client within [limit]. *)
Definition timed_query (limit : Z) (domain record_type : string) (s : St) :
    result (result Doh.DnsResponse Doh.DohError) Doh.Elapsed * St :=
  let '(m, w) := s in
  let m := gauge inc_queries m in
  let '(r, (doh, wire)) :=
    Doh.query None (Some (Doh.w_now (sw_wire w) + limit)%Z) domain record_type (sq_doh m, sw_wire w) in
  (r, (set_doh doh m, set_wire wire w)).

Definition health (s : St) : HealthReport * St :=
  let '(m, w) := s in
  let age := (wall w - hr_checked_at (sq_last_health m))%Z in
  if (0 <=? age)%Z && (age <? HEALTH_CACHE_TTL)%Z then (sq_last_health m, s)
  else
    let '(outcome, (m, w)) := timed_query HEALTH_PROBE_TIMEOUT HEALTH_PROBE_DOMAIN "A" (m, w) in
    let '(level, message) :=
      match outcome with
      | Ok (Ok _) => (LHealthy, "OK")
      | Ok (Err err) => (LDegraded, "query error: " +:+ Doh.DohError_display err)
      | Err Doh.TimedOut => (LDegraded, "query error: timed out")
      end in
    let report := mkHealthReport level message (wall w) in
    (report, (set_last_health report (gauge (set_health level) m), w)).

(** ** Commands (commands.rs) *)

(** A command returns an error or panics. *)
Inductive Failure := Fails (e : ModuleError) | Panicking.

Definition usage_result (message : string) : CommandResult := mkCommandResult message [] 1.
Definition unknown_command (name : string) : CommandResult :=
  usage_result ("squawk: unknown command '" +:+ name +:+ "'").
Definition unknown_subcommand (name : string) : CommandResult := usage_result ("Unknown subcommand: " +:+ name).

Definition bytes_of (s : string) : list Byte.byte := String.list_byte_of_string s.

(** [serde_json::to_vec(...).unwrap_or_default()] *)
Definition json_or_empty (v : Value) : list Byte.byte :=
  match to_vec v with Ok s => bytes_of s | Err _ => [] end.

Definition unix_nano (time : Z) : Z :=
  if (0 <=? time)%Z then wrap_i64 time else (- wrap_i64 (- time))%Z.

Definition kind_value (k : RecordKind) : Value :=
  match k with KInt z => JInt z | KText t => JString t end.
Definition record_value (r : DnsRecord) : Value :=
  JObject [("name", JString (dr_name r)); ("type", kind_value (dr_kind r)); ("TTL", JInt (dr_ttl r));
           ("data", JString (dr_data r))].

Definition handle_query (flags : gmap string string) (args : list string) (s : St) : CommandResult * St :=
  match head args with
  | None => (usage_result "Usage: squawk query <domain> [--type TYPE]", s)
  | Some domain =>
      let record_type := default "A" (flags !! "type") in
      let '(r, (m, w)) := timed_query QUERY_TIMEOUT domain record_type s in
      match r with
      | Ok (Err err) => (usage_result ("Query failed: " +:+ Doh.DohError_display err), (m, w))
      | Err Doh.TimedOut => (usage_result "Query failed: timed out", (m, w))
      | Ok (Ok response) =>
          (mkCommandResult
             (domain +:+ " " +:+ record_type +:+ ": " +:+ pretty (length (Doh.rs_answer response)) +:+ " answer(s)")
             (json_or_empty (JObject [
                ("domain", JString domain); ("record_type", JString record_type);
                ("status", JInt (Doh.rs_status response));
                ("answers", JArray (map record_value (Doh.rs_answer response)));
                ("queried_at_unix_nano", JInt (unix_nano (wall w)))])) 0,
           (m, w))
      end
  end.

Definition forward_status (s : St) : CommandResult * St :=
  match sq_forwarder s.1 with
  | None => (usage_result "Forwarder not configured", s)
  | Some _ =>
      let st := if ForwarderLife.is_running (sw_life s.2) then "running" else "stopped" in
      (mkCommandResult ("Forwarder: " +:+ st) (json_or_empty (JObject [("status", JString st)])) 0, s)
  end.

Definition forward_start (s : St) : CommandResult * St :=
  match sq_forwarder s.1 with
  | None => (usage_result "Forwarder not configured", s)
  | Some fwd =>
      let '(r, w) := on_life (ForwarderLife.start fwd os) s.2 in
      match r with
      | Ok _ => (mkCommandResult "Forwarder started" [] 0, (gauge (set_forwarder_up 1) s.1, w))
      | Err err => (usage_result ("Failed to start forwarder: " +:+ ForwarderLife.ForwarderError_display err),
                    (s.1, w))
      end
  end.

Definition forward_stop (s : St) : CommandResult * St :=
  match sq_forwarder s.1 with
  | None => (usage_result "Forwarder not configured", s)
  | Some _ =>
      let '(r, w) := on_life ForwarderLife.stop s.2 in
      match r with
      | Ok _ => (mkCommandResult "Forwarder stopped" [] 0, (gauge (set_forwarder_up 0) s.1, w))
      | Err err => (usage_result ("Failed to stop forwarder: " +:+ ForwarderLife.ForwarderError_display err),
                    (s.1, w))
      end
  end.

Definition handle_forward (path : list string) (s : St) : CommandResult * St :=
  match path !! 1 with
  | None => (usage_result "Usage: squawk forward {status|start|stop}", s)
  | Some sub =>
      if decide (sub = "status") then forward_status s
      else if decide (sub = "start") then forward_start s
      else if decide (sub = "stop") then forward_stop s
      else (unknown_subcommand sub, s)
  end.

(** The configuration with its credentials masked. *)
Definition redact (cfg : ModuleConfig) : ModuleConfig :=
  let lic := mc_license cfg in
  let cfg := with_token (mask_secret (ds_auth_token (mc_doh cfg))) cfg in
  mkModuleConfig (mc_doh cfg) (mc_forwarder cfg) (mc_manage cfg) (mc_cache_enabled cfg)
    (mc_ntp_server_urls cfg)
    (SquawkLicense.mkLicenseConfig (SquawkLicense.lc_server_url lic)
       (mask_secret (SquawkLicense.lc_license_key lic)) (mask_secret (SquawkLicense.lc_user_token lic))
       (SquawkLicense.lc_validate_online lic) (SquawkLicense.lc_cache_time lic)).

(** [Serialize] on the configuration. *)
Definition config_value (cfg : ModuleConfig) : Value :=
  let d := mc_doh cfg in
  let f := mc_forwarder cfg in
  let l := mc_license cfg in
  JObject [
    ("doh", JObject [("server_url", JString (ds_server_url d)); ("verify_tls", JBool (ds_verify_tls d));
                     ("auth_token", JString (ds_auth_token d)); ("client_cert", JString (ds_client_cert d));
                     ("client_key", JString (ds_client_key d)); ("ca_cert", JString (ds_ca_cert d))]);
    ("forwarder", JObject [("enabled", JBool (fs_enabled f)); ("udp_addr", JString (fs_udp_addr f));
                           ("tcp_addr", JString (fs_tcp_addr f))]);
    ("system_dns", JObject [("manage", JBool (mc_manage cfg))]);
    ("cache", JObject [("enabled", JBool (mc_cache_enabled cfg))]);
    ("ntp", JObject [("server_urls", JArray (map JString (mc_ntp_server_urls cfg)))]);
    ("license", JObject [("server_url", JString (SquawkLicense.lc_server_url l));
                         ("license_key", JString (SquawkLicense.lc_license_key l));
                         ("user_token", JString (SquawkLicense.lc_user_token l));
                         ("validate_online", JBool (SquawkLicense.lc_validate_online l));
                         ("cache_time", JInt (SquawkLicense.lc_cache_time l))])].

Definition handle_config (s : St) : result CommandResult Failure * St :=
  (match to_vec_pretty (config_value (redact (sq_config s.1))) with
   | Err err => Err (Fails (mkModuleError ("render config: " +:+ err)))
   | Ok json => Ok (mkCommandResult (utf8_lossy json) (bytes_of json) 0)
   end, s).

Definition cache_stats (s : St) : CommandResult * St :=
  let stats := Cache.stats (sq_cache s.1) in
  (mkCommandResult
     ("Cache: " +:+ pretty (Cache.cs_entries stats) +:+ " entries, " +:+ pretty (Cache.cs_hits stats) +:+
      " hits, " +:+ pretty (Cache.cs_misses stats) +:+ " misses")
     (json_or_empty (JObject [("entries", JInt (Cache.cs_entries stats)); ("hits", JInt (Cache.cs_hits stats));
                              ("misses", JInt (Cache.cs_misses stats))])) 0,
   (gauge (set_cache_entries (Cache.cs_entries stats)) s.1, s.2)).

Definition flushed_json : string :=
  "{" +:+ Doh.quote +:+ "status" +:+ Doh.quote +:+ ":" +:+ Doh.quote +:+ "flushed" +:+ Doh.quote +:+ "}".

Definition cache_flush (s : St) : CommandResult * St :=
  (mkCommandResult "Cache flushed" (bytes_of flushed_json) 0,
   (gauge (set_cache_entries 0) (set_cache (Cache.flush (sq_cache s.1)) s.1), s.2)).

Definition handle_cache (path : list string) (s : St) : CommandResult * St :=
  match path !! 1 with
  | None => (usage_result "Usage: squawk cache {stats|flush}", s)
  | Some sub =>
      match sq_forwarder s.1 with
      | None => (usage_result "Forwarder not configured; cache unavailable", s)
      | Some _ =>
          if decide (sub = "stats") then cache_stats s
          else if decide (sub = "flush") then cache_flush s
          else (unknown_subcommand sub, s)
      end
  end.

(** A validator of its own for every call; a request that takes too long is
    dropped with it. *)
Definition handle_license (s : St) : result CommandResult Failure * St :=
  let '(m, w) := s in
  let cfg := mc_license (sq_config m) in
  let cfg := if decide (SquawkLicense.lc_user_token cfg = "") then
               match sw_secrets w "user_token" with
               | Some token =>
                   SquawkLicense.mkLicenseConfig (SquawkLicense.lc_server_url cfg)
                     (SquawkLicense.lc_license_key cfg) (utf8_lossy token)
                     (SquawkLicense.lc_validate_online cfg) (SquawkLicense.lc_cache_time cfg)
               | None => cfg
               end
             else cfg in
  let lw := SquawkLicense.mkLicWire (wall w) (SquawkLicense.lw_sent (sw_license w))
              (SquawkLicense.lw_answer (sw_license w)) in
  let '(r, (_, lw')) := SquawkLicense.is_valid cfg (SquawkLicense.validator_new, lw) in
  let report status_text valid exit_code : CommandResult :=
    mkCommandResult ("License status: " +:+ status_text)
      (json_or_empty (JObject [("status", JString status_text); ("valid", JBool valid);
                               ("checked_at_unix_nano", JInt (unix_nano (SquawkLicense.lw_now lw')));
                               ("feature_key", JString "penguin.squawk")])) exit_code in
  (if (SquawkLicense.lw_now lw + LICENSE_TIMEOUT <? SquawkLicense.lw_now lw')%Z then
     Ok (report "error: validation timed out" false 1%Z)
   else
     match r with
     | Ok true => Ok (report "valid" true 0%Z)
     | Ok false => Ok (report "invalid or expired" false 1%Z)
     | Err (SquawkLicense.Returns err) =>
         Ok (report ("error: " +:+ SquawkLicense.LicenseError_display err) false 1%Z)
     | Err SquawkLicense.Panics => Err Panicking
     end, (m, set_lic lw' w)).

(** A client of its own for every call, with its defaults. *)
Definition handle_time (s : St) : CommandResult * St :=
  let client := Ntp.client_new (Ntp.mkClientConfig (mc_ntp_server_urls (sq_config s.1)) 0 0 0) in
  match (Ntp.query (sw_ntp s.2) client).1 with
  | Ok response =>
      (mkCommandResult
         ("NTP: synchronized (offset " +:+ millis_text (Ntp.tr_offset_nanos response) +:+ "ms, round-trip " +:+
          millis_text (Ntp.tr_round_trip_nanos response) +:+ "ms, stratum " +:+
          pretty (Ntp.tr_stratum response) +:+ ")")
         (json_or_empty (JObject [("synchronized", JBool true);
                                  ("offset_nanos", JInt (Ntp.tr_offset_nanos response));
                                  ("round_trip_nanos", JInt (Ntp.tr_round_trip_nanos response));
                                  ("stratum", JInt (Ntp.tr_stratum response));
                                  ("checked_at_unix_nano", JInt (unix_nano (wall s.2)))])) 0, s)
  | Err err =>
      (mkCommandResult ("NTP query failed: " +:+ Ntp.NtpError_display err)
         (json_or_empty (JObject [("synchronized", JBool false);
                                  ("error", JString (Ntp.NtpError_display err))])) 1, s)
  end.

Definition dispatch (path : list string) (flags : gmap string string) (args : list string) (s : St) :
    result CommandResult Failure * St :=
  let ok (x : CommandResult * St) : result CommandResult Failure * St := (Ok x.1, x.2) in
  match head path with
  | None => (Ok (usage_result "squawk: no command specified"), s)
  | Some command =>
      if decide (command = "query") then ok (handle_query flags args s)
      else if decide (command = "forward") then ok (handle_forward path s)
      else if decide (command = "config") then handle_config s
      else if decide (command = "cache") then ok (handle_cache path s)
      else if decide (command = "license") then handle_license s
      else if decide (command = "time") then ok (handle_time s)
      else (Ok (unknown_command command), s)
  end.
End Module_.

(** ** The command tree *)

Definition plain_command (name short : string) (subcommands : list CommandSpec) (tray : bool) : CommandSpec :=
  mkCommandSpec name name short [] subcommands tray 0 0.

Definition command_tree : list CommandSpec :=
  [ mkCommandSpec "query" "query <domain> [--type TYPE]" "Query a DNS record"
      [mkFlagSpec "type" "t" "DNS record type (A, AAAA, MX, TXT, etc.)" "A" FTString] [] false 1 1;
    plain_command "forward" "Manage DNS forwarding"
      [ plain_command "status" "Show forwarder status" [] false;
        plain_command "start" "Start DNS forwarding" [] true;
        plain_command "stop" "Stop DNS forwarding" [] true ] false;
    plain_command "config" "Show current configuration" [] false;
    plain_command "cache" "Manage DNS cache"
      [ plain_command "stats" "Show cache statistics" [] false;
        plain_command "flush" "Flush the DNS cache" [] true ] false;
    plain_command "license" "Check license status" [] false;
    plain_command "time" "Check NTP/NTS status" [] false ].

Definition info : ModuleInfo :=
  mkModuleInfo "squawk" "1.0.0" "DNS-over-HTTPS endpoint client with system DNS management" "".
