(* ===== verification/SquawkProps.v ===== *)
(** * The DNS module: what its calls do together

    The host's DNS is given back by [stop], or by [init] after a crash; a
    [forward stop] makes the later [stop] fail; a health probe has no time to
    retry; the [license] command always asks the server. *)
From S2P Require Import Prelude.
From S2P Require Import Ntp.
From S2P Require Import DohProps.
From S2P Require Import Json.
From S2P Require Import DnsCache.
From S2P Require Import Text.
From S2P Require Import SysResolver.
From S2P Require Import SysResolverFacts.
From S2P Require Import SysResolverProps.
From S2P Require Import Pem.
From S2P Require Import Doh.
From S2P Require Import ForwarderLife.
From S2P Require Import SquawkLicense.
From S2P Require Import Sdk.
From S2P Require Import Squawk.

Section Calls.
  Context `{IP : IpAddr} `{MC : MarkerCodec} `{U8 : Utf8}.
  Context `{UC : UrlCrate} `{TC : TlsCrates} `{B64 : Base64} `{DC : DohCodec}.
  Context `{LC : LicCodec} `{SC : SquawkCodec}.
  Context (data_dir resolv_conf_path : string) (read_to_string : string → result string string).
  Context (os : BindOs) (managed_server : Ip).
  Context (Hlive : in_data_dir data_dir resolv_conf_path = false).

Local Abbreviation marker := (marker_path data_dir).
Local Abbreviation view := (view resolv_conf_path).
Local Abbreviation linux := (build_backends data_dir resolv_conf_path).
Local Abbreviation St := (Sq * World)%type.

(** A call of the running module. *)
Inductive called : St → St → Prop :=
| called_dispatch path flags args s : called s (dispatch os path flags args s).2
| called_health s : called s (health s).2
| called_status s : called s (status data_dir resolv_conf_path s).2.

(** The host's settings are only looked at, and the module stays up. *)
Record undisturbed (s s' : St) : Prop := mkUndisturbed {
  un_host : moved (λ d, d = h_disk (sw_host s.2)) (sw_host s.2) (sw_host s'.2);
  un_config : sq_config s'.1 = sq_config s.1;
  un_running : sq_running s'.1 = sq_running s.1;
  un_applied : sq_dns_applied s'.1 = sq_dns_applied s.1;
}.

Lemma undisturbed_refl s : undisturbed s s.
Proof. split; [apply moved_refl|done..]. Qed.

Lemma undisturbed_trans s1 s2 s3 : undisturbed s1 s2 → undisturbed s2 s3 → undisturbed s1 s3.
Proof.
  intros [H1 ???] [H2 ???]. split; [|congruence..]. eapply moved_trans; [exact H1|].
  eapply moved_weaken; [|exact H2]. intros d ->.
  by destruct (mv_disk _ _ _ H1) as [->|].
Qed.

(** A call that leaves the host alone. *)
Lemma undisturbed_same s s' :
  sw_host s'.2 = sw_host s.2 → sq_config s'.1 = sq_config s.1 → sq_running s'.1 = sq_running s.1 →
  sq_dns_applied s'.1 = sq_dns_applied s.1 → undisturbed s s'.
Proof. intros Hh ???. split; [|done..]. rewrite Hh. apply moved_refl. Qed.

Local Ltac alone := apply undisturbed_same; reflexivity.

Lemma on_life_alone {A} (m : eff Life ForwarderError A) w : sw_host (on_life m w).2 = sw_host w.
Proof. unfold on_life. by destruct (m (sw_life w)). Qed.

Lemma timed_query_undisturbed limit domain ty s : undisturbed s (timed_query limit domain ty s).2.
Proof. destruct s as [m w]. unfold timed_query. destruct (query _ _ _ _ _) as [r [doh wire]]. alone. Qed.

Lemma forward_start_undisturbed s : undisturbed s (forward_start os s).2.
Proof.
  unfold forward_start. destruct (sq_forwarder s.1) as [fwd|]; [|alone].
  destruct (on_life (ForwarderLife.start fwd os) s.2) as [r w] eqn:E.
  apply (f_equal snd) in E. pose proof (on_life_alone (ForwarderLife.start fwd os) s.2) as Hh.
  rewrite E in Hh. by destruct r; apply undisturbed_same.
Qed.

Lemma forward_stop_undisturbed s : undisturbed s (forward_stop s).2.
Proof.
  unfold forward_stop. destruct (sq_forwarder s.1) as [fwd|]; [|alone].
  destruct (on_life ForwarderLife.stop s.2) as [r w] eqn:E.
  apply (f_equal snd) in E. pose proof (on_life_alone ForwarderLife.stop s.2) as Hh.
  rewrite E in Hh. by destruct r; apply undisturbed_same.
Qed.

Lemma handle_query_undisturbed flags args s : undisturbed s (handle_query flags args s).2.
Proof.
  unfold handle_query. destruct (head args) as [domain|]; [|alone]. cbv zeta.
  pose proof (timed_query_undisturbed QUERY_TIMEOUT domain (default "A" (flags !! "type")) s) as H.
  destruct (timed_query _ _ _ s) as [[[]|[]] [m w]]; exact H.
Qed.

Lemma handle_license_undisturbed s : undisturbed s (handle_license s).2.
Proof. destruct s as [m w]. unfold handle_license. destruct (is_valid _ _) as [r [v lw]]. alone. Qed.

Lemma handle_forward_undisturbed path s : undisturbed s (handle_forward os path s).2.
Proof.
  unfold handle_forward. destruct (path !! 1) as [sub|]; [|alone]. case_decide.
  { unfold forward_status. destruct (sq_forwarder s.1); alone. }
  case_decide; [apply forward_start_undisturbed|]. case_decide; [apply forward_stop_undisturbed|alone].
Qed.

Lemma handle_cache_undisturbed path s : undisturbed s (handle_cache path s).2.
Proof.
  unfold handle_cache. destruct (path !! 1) as [sub|]; [|alone]. destruct (sq_forwarder s.1); [|alone].
  case_decide; [alone|]. case_decide; alone.
Qed.

Lemma handle_time_undisturbed s : undisturbed s (handle_time s).2.
Proof. unfold handle_time. cbv zeta. destruct (Ntp.query _ _).1; alone. Qed.

Lemma dispatch_undisturbed path flags args s : undisturbed s (dispatch os path flags args s).2.
Proof.
  unfold dispatch. destruct (head path) as [command|]; [|alone]. cbv zeta.
  case_decide; [apply handle_query_undisturbed|].
  case_decide; [apply handle_forward_undisturbed|].
  case_decide; [alone|].
  case_decide; [apply handle_cache_undisturbed|].
  case_decide; [apply handle_license_undisturbed|].
  case_decide; [apply handle_time_undisturbed|alone].
Qed.

Lemma health_undisturbed s : undisturbed s (health s).2.
Proof.
  destruct s as [m w]. unfold health. destruct (_ && _); [alone|].
  pose proof (timed_query_undisturbed HEALTH_PROBE_TIMEOUT HEALTH_PROBE_DOMAIN "A" (m, w)) as H.
  destruct (timed_query _ _ _ _) as [r [m' w']]. destruct H as [????].
  by destruct r as [[]|[]]; split.
Qed.

Lemma status_undisturbed s : undisturbed s (status data_dir resolv_conf_path s).2.
Proof.
  destruct s as [m w]. unfold status, on_host.
  pose proof (current_moved data_dir resolv_conf_path (sw_host w)) as H.
  destruct (sq_forwarder m);
    (unfold backends; destruct (current _ (sw_host w)) as [r h]; split; [exact H|done..]).
Qed.

Lemma called_undisturbed s s' : rtc called s s' → undisturbed s s'.
Proof.
  induction 1 as [|s1 s2 s3 Hc _ IH]; [apply undisturbed_refl|]. eapply undisturbed_trans; [|exact IH].
  destruct Hc; [apply dispatch_undisturbed|apply health_undisturbed|apply status_undisturbed].
Qed.
(** [start] took the host's DNS over. *)
Lemma start_took_over s0 s1 :
  sq_running s0.1 = false → sq_dns_applied s0.1 = false → mc_manage (sq_config s0.1) = true →
  Squawk.start data_dir resolv_conf_path os managed_server s0 = (Ok (), s1) → sq_dns_applied s1.1 = true →
  apply data_dir linux [managed_server] (sw_host s0.2) = (Ok (), sw_host s1.2) ∧
  sq_config s1.1 = sq_config s0.1 ∧ sq_running s1.1 = true.
Proof.
  destruct s0 as [m w]. simpl. intros Hr Ha Hm. unfold Squawk.start. rewrite Hr.
  assert (∀ m1 w1 (x : St), sw_host w1 = sw_host w → sq_config m1 = sq_config m → sq_running m1 = true →
    sq_dns_applied m1 = false →
    (let '(m, w) := start_dns data_dir resolv_conf_path managed_server (m1, w1) in
     (Ok () : result unit ModuleError, (m, log "squawk module started" w))) = (Ok (), x) →
    sq_dns_applied x.1 = true →
    apply data_dir linux [managed_server] (sw_host w) = (Ok (), sw_host x.2) ∧
    sq_config x.1 = sq_config m ∧ sq_running x.1 = true) as Hdns.
  { intros m1 w1 x Hh Hc Hr1 Ha1. unfold start_dns, on_host. rewrite Hc, Hm. unfold backends.
    rewrite Hh. destruct (apply _ _ _ _) as [[[]|e] h]; intros [= <-]; simpl; [done|congruence]. }
  cbn [sq_forwarder set_running]. destruct (sq_forwarder m) as [fwd|].
  - destruct (on_life (ForwarderLife.start fwd os) w) as [r w1] eqn:E.
    pose proof (on_life_alone (ForwarderLife.start fwd os) w) as Hh. rewrite E in Hh. simpl in Hh.
    destruct r; [|done]. intros E1 Ha1. by apply (Hdns (gauge (set_forwarder_up 1) (set_running true m)) w1 s1 Hh).
  - intros E1 Ha1. by apply (Hdns (set_running true m) w s1).
Qed.

(** [init] recovers the host first and does nothing else to it. *)
Lemma init_host raw register w :
  sw_host (Squawk.init data_dir resolv_conf_path read_to_string raw register w).2 =
  (recover_from_crash data_dir linux (sw_host w)).2.
Proof.
  unfold Squawk.init, on_host, backends. destruct (recover_from_crash _ _ _) as [r h].
  destruct r; cbv zeta; repeat case_match; reflexivity.
Qed.

(** [stop] restores, whatever became of the forwarder. *)
Lemma stop_restores m w h :
  sq_running m = true → mc_manage (sq_config m) = true →
  restore data_dir linux (sw_host w) = (Ok (), h) →
  let '(r, (m', w')) := Squawk.stop data_dir resolv_conf_path (m, w) in
  sw_host w' = h ∧ sq_running m' = false ∧ sq_dns_applied m' = false ∧
  (r = Ok () ∨ r = Err (mkModuleError "stop errors: forwarder: forwarder is not running")).
Proof.
  intros Hr Hm E. unfold Squawk.stop. rewrite Hr. cbn [negb sq_forwarder set_running].
  destruct (sq_forwarder m) as [fwd|]; cbv beta iota zeta.
  - unfold on_life, ForwarderLife.stop, eff_bind, stop_signal, stop_await.
    destruct (ls_cancel (sw_life w)); simpl; rewrite Hm; unfold on_host, backends; simpl; rewrite E; simpl;
      auto.
  - simpl. rewrite Hm. unfold on_host, backends. rewrite E. simpl. auto.
Qed.

(** C25: A module that manages the DNS of a host whose settings it can bring
    back ([manageable]) gives it back.  Once [start] took it over, and after
    any commands, health probes and status calls, [stop], with no call of the
    host failing, puts the original contents of [resolv.conf] and the links'
    settings back and removes the marker, even when stopping the forwarder
    fails, which is then the only error it reports.  And when the process dies
    at any moment from the beginning of [start] until [stop] begins, the next
    [init] does so, whatever its configuration and outcome, if no call of the
    host fails.  A crash within [stop] is not covered: it can lose the file's
    options ([ResolverRuns.restore_crash_loses_options]); nor is the file's
    mode, which stays owner-only. *)
Theorem module_gives_dns_back s0 s1 s2 :
  sq_running s0.1 = false → sq_dns_applied s0.1 = false → mc_manage (sq_config s0.1) = true →
  manageable data_dir resolv_conf_path (sw_host s0.2) → h_seen (sw_host s0.2) = [] →
  Squawk.start data_dir resolv_conf_path os managed_server s0 = (Ok (), s1) → sq_dns_applied s1.1 = true →
  rtc called s1 s2 →
  (∀ d raw register w, d ∈ h_seen (sw_host s2.2) → sw_host w = reboot d (sw_host s0.2) →
    let h := sw_host (Squawk.init data_dir resolv_conf_path read_to_string raw register w).2 in
    view (h_disk h) = view (h_disk (sw_host s0.2)) ∧ d_files (h_disk h) !! marker = None) ∧
  (faultless (sw_host s2.2) →
    let '(r, (m, w)) := Squawk.stop data_dir resolv_conf_path s2 in
    view (h_disk (sw_host w)) = view (h_disk (sw_host s0.2)) ∧ d_files (h_disk (sw_host w)) !! marker = None ∧
    sq_running m = false ∧ sq_dns_applied m = false ∧
    (r = Ok () ∨ r = Err (mkModuleError "stop errors: forwarder: forwarder is not running"))).
Proof.
  intros Hr Ha Hm Hman Hseen E Ha1 Hc.
  destruct (start_took_over s0 s1 Hr Ha Hm E Ha1) as (Eap & Hcfg & Hrun).
  apply called_undisturbed in Hc as [Hmv Hcfg2 Hrun2 _].
  pose proof (mv_disk _ _ _ Hmv) as Hd. assert (h_disk (sw_host s2.2) = h_disk (sw_host s1.2)) as Hd2 by tauto.
  split.
  - intros d raw register w Hin Hw. rewrite init_host, Hw. simpl.
    destruct (applied_recovers _ _ Hlive _ _ _ Hman Eap) as [Hlast Hnet].
    assert (recoverable data_dir resolv_conf_path linux (linux_ready data_dir resolv_conf_path)
      (h_net (sw_host s0.2)) (view (h_disk (sw_host s0.2))) d) as Hrec.
    { destruct (mv_seen _ _ _ Hmv) as (ds & Hs & Hall). rewrite Hs in Hin.
      apply elem_of_app in Hin as [Hin|Hin].
      - eapply apply_recovers; eauto.
      - rewrite Forall_forall in Hall. by rewrite (Hall d Hin). }
    pose proof (recover_outcome _ _ Hlive linux _ _
      (linux_recoverable data_dir resolv_conf_path Hlive) (linux_names _ _) _ _ _ Hrec) as Hout.
    destruct (recover_from_crash _ _ _) as [r h]. tauto.
  - intros Hf. destruct (apply_restores _ _ Hlive _ _ _ (sw_host s2.2) Hman Eap) as (h & Eh & Hv & Hk & _);
      [done|by rewrite (mv_net _ _ _ Hmv)|done|left; by rewrite (mv_applied _ _ _ Hmv)|].
    destruct s2 as [m2 w2]. cbn [fst snd] in *.
    pose proof (stop_restores m2 w2 h ltac:(congruence) ltac:(congruence) Eh) as Hstop.
    destruct (Squawk.stop _ _ _) as [r [m' w']]. destruct Hstop as (-> & ?). done.
Qed.

(** ** Stopping twice *)

(** After a successful [forward stop] the module's own [stop] fails. *)
Lemma stop_after_forward_stop flags args m w fwd token :
  sq_running m = true → sq_forwarder m = Some fwd → mc_manage (sq_config m) = false →
  ls_cancel (sw_life w) = Some token →
  let '(r, s) := dispatch os ["forward"; "stop"] flags args (m, w) in
  r = Ok (mkCommandResult "Forwarder stopped" [] 0) ∧
  (Squawk.stop data_dir resolv_conf_path s).1 =
    Err (mkModuleError "stop errors: forwarder: forwarder is not running").
Proof.
  destruct m as [cfg doh fw cache metrics running applied last]. simpl. intros -> -> Hm Hc.
  unfold dispatch, handle_forward, forward_stop, on_life, ForwarderLife.stop, eff_bind, stop_signal, stop_await.
  simpl. rewrite Hc. simpl. split; [done|]. by rewrite Hm.
Qed.

(** ** The probe of [health] *)

Lemma doh_new_defaults cfg token c :
  doh_new read_to_string (doh_config cfg token) = Ok c →
  dc_max_retries c = 2%Z ∧ dc_retry_delay c = HEALTH_PROBE_TIMEOUT.
Proof.
  unfold doh_new, doh_config. cbn [server_urls server_url]. destruct (decide _); [done|].
  cbn [result_bind prepare_urls]. destruct (validate_server_url _); [|done]. cbn [result_bind].
  destruct (build_http_client _ _); [|done]. simpl. by intros [= <-].
Qed.

(** The health probe never gets to its second attempt: its two seconds
    are the pause before a retry.  For the client that [init] builds, a fresh
    probe whose first request fails reports a time-out, not the failure, two
    seconds after it began, and has sent that one request only. *)
Theorem health_never_retries cfg auth_token c0 used m w outcome d message :
  doh_new read_to_string (doh_config cfg auth_token) = Ok c0 → sq_doh m = Nat.iter used advance_server c0 →
  (HEALTH_CACHE_TTL ≤ wall w - hr_checked_at (sq_last_health m))%Z →
  let rq := request (sq_doh m) GET (current_server (sq_doh m)) HEALTH_PROBE_DOMAIN "A" in
  w_answer (sw_wire w) (length (w_sent (sw_wire w))) rq = (outcome, d) →
  read_reply outcome = Err message → (0 < d)%Z →
  let '(report, (m', w')) := health (m, w) in
  report = mkHealthReport LDegraded "query error: timed out" (wall w + HEALTH_PROBE_TIMEOUT)%Z ∧
  w_sent (sw_wire w') = w_sent (sw_wire w) ++ [rq].
Proof.
  intros Hnew Hc Hage rq Hans Hfail Hd. apply doh_new_defaults in Hnew as [Hmax Hdelay].
  assert (dc_max_retries (sq_doh m) = 2%Z ∧ dc_retry_delay (sq_doh m) = HEALTH_PROBE_TIMEOUT) as [Hmax' Hdelay'].
  { rewrite Hc. clear -Hmax Hdelay. by induction used. }
  unfold health. replace (_ && _) with false.
  2: { symmetry. apply andb_false_intro2. by apply Z.ltb_ge. }
  unfold timed_query, query. cbn [gauge sq_doh].
  replace (normalize_record_type "A") with (Ok (E:=DohError) "A") by reflexivity.
  replace (validate_dns_name HEALTH_PROBE_DOMAIN) with (Ok (E:=string) ()) by reflexivity.
  rewrite Hmax'. change (Z.to_nat 2) with 2. cbn [query_loop]. unfold eff_bind, try_get, eff_bind, send.
  fold rq. rewrite Hans. unfold eff_bind, wait, pure. cbn [sending w_now].
  destruct (Z.ltb_spec (w_now (sw_wire w) + HEALTH_PROBE_TIMEOUT) (w_now (sw_wire w) + d)).
  { cbn. split; [|done]. unfold wall. simpl. f_equal. lia. }
  rewrite Hfail. cbn [advance_server dc_max_retries]. rewrite Hmax'.
  change (Z.of_nat 0 + 1 <? 2)%Z with true. cbv iota.
  unfold wait_for_retry, eff_bind, wait. cbn [pass w_now sending advance_server dc_retry_delay]. rewrite Hdelay'.
  rewrite (proj2 (Z.ltb_lt _ _)) by (unfold HEALTH_PROBE_TIMEOUT; lia). cbn.
  split; [|done]. unfold wall. simpl. f_equal. lia.
Qed.

End Calls.

(** ** The [license] command *)

Section License.
  Context `{IP : IpAddr} `{LC : LicCodec} `{SC : SquawkCodec}.

Definition with_online (online : bool) (c : LicenseConfig) : LicenseConfig :=
  mkLicenseConfig (lc_server_url c) (lc_license_key c) (lc_user_token c) online (lc_cache_time c).

Definition set_online (online : bool) (m : Sq) : Sq :=
  let cfg := sq_config m in
  mkSq (mkModuleConfig (mc_doh cfg) (mc_forwarder cfg) (mc_manage cfg) (mc_cache_enabled cfg)
          (mc_ntp_server_urls cfg) (with_online online (mc_license cfg)))
    (sq_doh m) (sq_forwarder m) (sq_cache m) (sq_metrics m) (sq_running m) (sq_dns_applied m) (sq_last_health m).

Lemma fresh_online online c w :
  is_valid (with_online online c) (validator_new, w) = is_valid c (validator_new, w).
Proof. destruct c as [url key token [] time], online; reflexivity. Qed.

(** A validator that has not been asked yet asks. *)
Lemma fresh_asks config w :
  lc_license_key config ≠ "" ∨ lc_user_token config ≠ "" →
  ∃ rq, lw_sent (is_valid config (validator_new, w)).2.2 = lw_sent w ++ [rq].
Proof.
  intros Hc. rewrite <- (fresh_online true). unfold is_valid, validate_license. simpl.
  unfold validate_user_token, validate_license_key, eff_bind, post, cache_validation.
  simpl. destruct (decide (lc_user_token config ≠ "")); [|rewrite decide_True by tauto];
    (match goal with |- context [lw_answer w ?n ?rq] => exists rq; destruct (lw_answer w n rq) as [o dt] end;
     destruct (decode_outcome o); simpl;
       [destruct (system_add _ _); done|destruct (has_recent_valid_cache _ _); done]).
Qed.

(** The [license] command always asks the server, exactly once: each call
    has a validator of its own, so nothing is ever remembered, and neither its
    answer nor what it sends depends on [validate_online], with which a
    remembered answer was to be used instead. *)
Theorem license_offline_ignored (online : bool) (m : Sq) (w : World) :
  let lic := mc_license (sq_config m) in
  lc_license_key lic ≠ "" ∨ lc_user_token lic ≠ "" →
  let '(r, (m', w')) := handle_license (m, w) in
  (∃ rq, lw_sent (sw_license w') = lw_sent (sw_license w) ++ [rq]) ∧
  handle_license (set_online online m, w) = (r, (set_online online m', w')).
Proof.
  intros lic Hc. unfold handle_license. cbn [set_online sq_config mc_license]. fold lic.
  set (cfg := if decide (lc_user_token lic = "") then _ else lic).
  match goal with |- context [is_valid ?c _] =>
    match c with cfg => fail 1 | _ => replace c with (with_online online cfg) end end.
  2: { unfold cfg. destruct lic. simpl. case_decide; [|done]. by destruct (sw_secrets w _). }
  rewrite fresh_online. destruct (fresh_asks cfg (mkLicWire (wall w) (lw_sent (sw_license w))
    (lw_answer (sw_license w)))) as [rq Hrq].
  { unfold cfg. destruct Hc as [Hk|Ht]; [|by rewrite decide_False; auto].
    case_decide; [|by left]. destruct (sw_secrets w _); by left. }
  destruct (is_valid cfg _) as [r [v lw]]. split; [by exists rq|]. reflexivity.
Qed.
End License.

(** ** The DNS module at work

    A module that manages the host of [ResolverRuns] and forwards on both
    ports: the hypotheses of the module's theorems hold together. *)

Module SquawkWitness.

#[local] Existing Instance ResolverRuns.two.
#[local] Existing Instance ResolverRuns.one_document.
#[local] Existing Instance ResolverRuns.all_utf8.
#[local] Existing Instance DohWitness.hosts.
#[local] Existing Instance DohWitness.tls.
#[local] Existing Instance DohWitness.codec.
#[local] Existing Instance PemWitness.plain.

#[local] Instance verdicts : LicCodec := {|
  decode_validation body := Ok (mkValidation (bool_decide (body = "yes")) "" None None None None None) |}.

#[local] Instance texts : SquawkCodec := {|
  config_from_slice _ := Err "unexpected document"; to_vec _ := Ok "{}"; to_vec_pretty _ := Ok "{}";
  utf8_lossy s := s; millis_text _ := "0.00" |}.

Definition ports : BindOs := mkBindOs (λ _, Ok "127.0.0.1:53") (λ _, Ok "127.0.0.1:53") true true.

Definition lic_config : LicenseConfig := mkLicenseConfig "https://license.example" "KEY" "" false 60.

Definition config : ModuleConfig :=
  mkModuleConfig (mkDohSection "127.0.0.1" true "" "" "" "") (mkForwarderSection true "127.0.0.1:53" "127.0.0.1:53")
    true true [] lic_config.

Definition client : DohClient :=
  mkDoh ["https://127.0.0.1/dns-query"] "" (mkTls VerifyWebpki None) 30000 2 2000000000 0.

Definition module : Sq :=
  mkSq config client (Some (mkFwConfig "127.0.0.1:53" "127.0.0.1:53" true true))
    (Cache.new Cache.CacheConfig_default) metrics_new false false HealthReport_default.

Definition lic_wire : LicWire := mkLicWire 0 [] (λ _ _, (LicBody "yes", 5%Z)).

(** The DNS server refuses connections after a while. *)
Definition wire : Wire := mkWire HEALTH_CACHE_TTL [] (λ _ _, (SendFailed "refused", 300%Z)).

Definition world : World :=
  mkWorld ResolverRuns.host life_new wire lic_wire (Ntp.mkWorld (λ _, 0%Z) (λ _ _, NetSendTimeout) (λ _, false) (λ _, 0%Z)) (λ _, None) 0 [].

Local Abbreviation dir := ResolverRuns.dir.
Local Abbreviation conf := ResolverRuns.conf.

Local Abbreviation started := (Squawk.start dir conf ports (true : @Ip ResolverRuns.two) (module, world)).
Local Abbreviation up := (snd started).
Local Abbreviation used := (dispatch ports ["forward"; "stop"] ∅ [] (status dir conf up).2).2.

Lemma up_started : started = (Ok (), up).
Proof.
  assert (started.1 = Ok ()) as E by (vm_compute; reflexivity). revert E. generalize started. by intros [r s] [= ->].
Qed.

Lemma up_used : rtc (called dir conf ports) up used.
Proof. eapply rtc_l; [apply called_status|]. eapply rtc_l; [apply called_dispatch|]. apply rtc_refl. Qed.

(** The forwarder was stopped by hand before; the host's settings come back. *)
Lemma module_gives_dns_back_witness :
  let '(r, (_, w)) := Squawk.stop dir conf used in
  view conf (h_disk (sw_host w)) = view conf (h_disk ResolverRuns.host) ∧
  r = Err (mkModuleError "stop errors: forwarder: forwarder is not running").
Proof.
  pose proof (proj2 (module_gives_dns_back dir conf (λ _, Err "no such file") ports true eq_refl (module, world) up used
    eq_refl eq_refl eq_refl ResolverRuns.host_manageable eq_refl up_started ltac:(vm_compute; reflexivity) up_used)
    ltac:(intros n; vm_compute; reflexivity)) as H.
  assert ((Squawk.stop dir conf used).1 = Err (mkModuleError "stop errors: forwarder: forwarder is not running"))
    as Hr by (vm_compute; reflexivity).
  destruct (Squawk.stop dir conf used) as [r [m w]]. destruct H as (Hv & _). exact (conj Hv Hr).
Defined.

Lemma client_built : doh_new (λ _, Err "no such file") (doh_config config "") = Ok client.
Proof. vm_compute. reflexivity. Qed.

Lemma health_never_retries_witness :
  let '(report, (_, w)) := health (module, world) in
  hr_message report = "query error: timed out" ∧ length (w_sent (sw_wire w)) = 1.
Proof.
  pose proof (health_never_retries (λ _, Err "no such file") config "" client 0 module world (SendFailed "refused") 300
    "HTTP request failed: refused" client_built ltac:(reflexivity) ltac:(vm_compute; discriminate) ltac:(reflexivity)
    ltac:(reflexivity) ltac:(reflexivity)) as H.
  destruct (health (module, world)) as [report [m w]]. destruct H as [-> ->]. done.
Defined.

Lemma license_offline_ignored_witness :
  ∃ rq, lw_sent (sw_license (handle_license (module, world)).2.2) = [rq].
Proof.
  assert ("KEY" ≠ "") as Hkey by discriminate.
  pose proof (license_offline_ignored true module world (or_introl Hkey)) as H.
  destruct (handle_license (module, world)) as [r [m w]]. destruct H as [[rq H] _]. exists rq. exact H.
Defined.

Definition validated : ValidatorState := (is_valid lic_config (validator_new, lic_wire)).2.1.
Definition later : LicWire := (is_valid lic_config (validator_new, lic_wire)).2.2.

Lemma first_valid : is_valid lic_config (validator_new, lic_wire) = (Ok true, (validated, later)).
Proof. vm_compute. reflexivity. Qed.

Lemma licence_valid_only_on_last_word_witness :
  ∃ l, last_reply (is_valid lic_config (validated, later)).2.2 = Some l ∧ vr_valid l = true.
Proof.
  assert (is_valid lic_config (validated, later) = (Ok true, (validated, later))) as E by (vm_compute; reflexivity).
  pose proof (licence_valid_only_on_last_word lic_config lic_wire validated validated later later eq_refl
    (rtc_once _ _ (lic_is_valid _ _ _ _ _ first_valid ltac:(discriminate))) E) as [H _].
  rewrite E. exact H.
Defined.
End SquawkWitness.
