(* ===== verification/VpnAuth.v ===== *)
(** * The VPN module's tokens (crates/penguin-module-tobogganing/src/auth.rs)

    Obtaining, refreshing, caching and revoking the manager's tokens.  The
    state of a call is the cached [TokenState] and the environment: the clock,
    the requests sent with the answers they get, and the secret store, of
    which any call may fail.  Times are nanoseconds since 1970. *)
From S2P Require Import Prelude.
From S2P Require Import Sdk.

(** ** The environment *)

(** The requests of the module; the bearer token goes in a header. *)
Inductive Call :=
| PostApiKey (url api_key : string)
| PostRefresh (url refresh_token : string)
| PostRevoke (url bearer : string)
| GetConfig (url bearer public_key : string).

Inductive HttpReply :=
| SendFailed (err : string)
| BodyFailed (status : Z) (err : string)
| Replied (status : Z) (body : string).

(** What the [n]-th request is answered with, and how long that takes. *)
Record Net := mkNet {
  n_now : Z;
  n_sent : list Call;
  n_answer : nat → Call → HttpReply * Z;
}.

(** The secret store; [st_fault n] is the error of its [n]-th call. *)
Record Store := mkStore {
  st_values : gmap string string;
  st_calls : nat;
  st_fault : nat → option SecretError;
}.

Record Env := mkEnv { e_net : Net; e_store : Store }.

Definition send (c : Call) (e : Env) : HttpReply * Env :=
  let n := e_net e in
  let '(reply, d) := n_answer n (length (n_sent n)) c in
  (reply, mkEnv (mkNet (n_now n + d) (n_sent n ++ [c]) (n_answer n)) (e_store e)).

Definition on_store {A} (f : gmap string string → result A SecretError * gmap string string) (e : Env) :
    result A SecretError * Env :=
  let st := e_store e in
  match st_fault st (st_calls st) with
  | Some err => (Err err, mkEnv (e_net e) (mkStore (st_values st) (S (st_calls st)) (st_fault st)))
  | None =>
      let '(r, m) := f (st_values st) in
      (r, mkEnv (e_net e) (mkStore m (S (st_calls st)) (st_fault st)))
  end.

(** [SecretStore::get], [set] and [delete] *)
Definition secret_get (key : string) : Env → result string SecretError * Env :=
  on_store (λ m, (ok_or (m !! key) SecretNotFound, m)).
Definition secret_set (key value : string) : Env → result unit SecretError * Env :=
  on_store (λ m, (Ok (), <[key := value]> m)).
Definition secret_delete (key : string) : Env → result unit SecretError * Env :=
  on_store (λ m, (match m !! key with Some _ => Ok () | None => Err SecretNotFound end, delete key m)).

Definition SecretError_display (e : SecretError) : string :=
  match e with SecretNotFound => "secret not found" | SecretOther msg => msg end.

(** ** Data *)

Definition TOKEN_PATH : string := "/api/v1/auth/token".
Definition REFRESH_PATH : string := "/api/v1/auth/refresh".
Definition REVOKE_PATH : string := "/api/v1/auth/revoke".
Definition ACCESS_TOKEN_KEY : string := "access_token".
Definition REFRESH_TOKEN_KEY : string := "refresh_token".
Definition API_KEY_KEY : string := "api_key".

Inductive AuthError :=
| NoApiKey (err : string)
| AuthRequest (err : string)
| AuthStatus (status : Z) (body : string)
| AuthDecode (err : string)
| NoRefreshToken.

Definition AuthError_display (e : AuthError) : string :=
  match e with
  | NoApiKey err => "no API key found: " +:+ err
  | AuthRequest err => "request failed: " +:+ err
  | AuthStatus status body => "request failed with status " +:+ pretty status +:+ ": " +:+ body
  | AuthDecode err => "failed to parse response: " +:+ err
  | NoRefreshToken => "no refresh token available"
  end.

Record TokenResponse := mkTokenResponse {
  tr_access_token : string;
  tr_refresh_token : string;
  tr_expires_at : option Z;              (* seconds *)
}.

Record TokenState := mkTokenState {
  ts_access_token : string;
  ts_refresh_token : string;
  ts_expires_at : Z;
}.

Definition TokenState_default : TokenState := mkTokenState "" "" 0.

(** JSON, the [exp] claim of an unverified JWT, and bytes as text. *)
Class AuthCodec := {
  decode_token : string → result TokenResponse string;
  jwt_exp : string → option Z;
  lossy : string → string;
}.

(** ** Times *)

(** The seconds are an [i64], and so are a [SystemTime]'s: nothing overflows. *)
Definition unix_seconds_to_system_time (seconds : Z) : Z := (seconds * 1000000000)%Z.

Definition is_expired_at (expires_at now threshold : Z) : bool :=
  if (now <=? expires_at)%Z then (expires_at - now <? threshold)%Z else true.

Definition is_success (status : Z) : bool := (200 <=? status)%Z && (status <? 300)%Z.

Section Auth.
  Context `{AuthCodec} (manager_url : string).

Abbreviation St := (TokenState * Env)%type.
Abbreviation Act := (eff St AuthError).

Definition extract_expiry (token : string) : option Z :=
  unix_seconds_to_system_time <$> jwt_exp token.

(** ** Loading and storing *)

Definition load_cached_token (e : Env) : TokenState * Env :=
  let '(access, e) := secret_get ACCESS_TOKEN_KEY e in
  match access with
  | Err _ => (TokenState_default, e)
  | Ok access =>
      let access := lossy access in
      let expires_at := default (ts_expires_at TokenState_default) (extract_expiry access) in
      let '(refresh, e) := secret_get REFRESH_TOKEN_KEY e in
      (mkTokenState access (match refresh with Ok r => lossy r | Err _ => "" end) expires_at, e)
  end.

Definition auth_new (e : Env) : TokenState * Env := load_cached_token e.

Definition apply_response (response : TokenResponse) (overwrite_refresh_unconditionally : bool) (s : St) : St :=
  let '(state, e) := s in
  let refresh := if overwrite_refresh_unconditionally || negb (bool_decide (tr_refresh_token response = ""))
                 then tr_refresh_token response else ts_refresh_token state in
  let expires_at := match tr_expires_at response with
                    | Some seconds => unix_seconds_to_system_time seconds
                    | None => default 0%Z (extract_expiry (tr_access_token response))
                    end in
  let '(_, e) := secret_set ACCESS_TOKEN_KEY (tr_access_token response) e in
  let e := if negb (bool_decide (tr_refresh_token response = ""))
           then (secret_set REFRESH_TOKEN_KEY (tr_refresh_token response) e).2 else e in
  (mkTokenState (tr_access_token response) refresh expires_at, e).

(** ** Requests *)

Definition post_token (c : Call) : Act TokenResponse := λ '(state, e),
  let '(reply, e) := send c e in
  (match reply with
   | SendFailed err | BodyFailed _ err => Err (AuthRequest err)
   | Replied status body =>
       if negb (is_success status) then Err (AuthStatus status (lossy body))
       else map_err AuthDecode (decode_token body)
   end, (state, e)).

Definition get_api_key : Act string := λ '(state, e),
  let '(value, e) := secret_get API_KEY_KEY e in
  (match value with
   | Err err => Err (NoApiKey (SecretError_display err))
   | Ok value => Ok (lossy value)
   end, (state, e)).

Definition refresh_locked : Act unit := λ '(state, e),
  (let! response := post_token (PostRefresh (manager_url +:+ REFRESH_PATH) (ts_refresh_token state)) in
   λ s, (Ok (), apply_response response false s)) (state, e).

Definition obtain_locked (api_key : string) : Act unit :=
  let! response := post_token (PostApiKey (manager_url +:+ TOKEN_PATH) api_key) in
  λ s, (Ok (), apply_response response true s).

Definition ensure_valid_token : Act unit := λ '(state, e),
  if negb (bool_decide (ts_access_token state = "")) &&
     negb (is_expired_at (ts_expires_at state) (n_now (e_net e)) 0) then (Ok (), (state, e))
  else
    let fall_back := let! api_key := get_api_key in obtain_locked api_key in
    if bool_decide (ts_refresh_token state = "") then fall_back (state, e)
    else
      let '(refreshed, s) := refresh_locked (state, e) in
      match refreshed with
      | Ok _ => (Ok (), s)
      | Err _ => fall_back s
      end.

Definition refresh_token : Act unit := λ '(state, e),
  if decide (ts_refresh_token state = "") then (Err NoRefreshToken, (state, e))
  else refresh_locked (state, e).

Definition is_token_expired (threshold : Z) (s : St) : bool :=
  if decide (ts_access_token s.1 = "") then true
  else is_expired_at (ts_expires_at s.1) (n_now (e_net s.2)) threshold.

Definition token (state : TokenState) : string := ts_access_token state.

(** [revoke_token], first part: the request, made with a copy of the token
    while the lock is free.  Whether there was a token to revoke. *)
Definition revoke_send : Act bool := λ '(state, e),
  let token := ts_access_token state in
  if decide (token = "") then (Ok false, (state, e))
  else
    let '(reply, e) := send (PostRevoke (manager_url +:+ REVOKE_PATH) token) e in
    (match reply with
     | SendFailed err => Err (AuthRequest err)
     | BodyFailed status _ | Replied status _ =>
         if negb (is_success status) then Err (AuthStatus status "") else Ok true
     end, (state, e)).

(** Second part: forgetting the tokens. *)
Definition revoke_clear (sent : bool) : Act unit := λ '(state, e),
  if sent then
    let '(_, e) := secret_delete ACCESS_TOKEN_KEY e in
    let '(_, e) := secret_delete REFRESH_TOKEN_KEY e in
    (Ok (), (TokenState_default, e))
  else (Ok (), (state, e)).

Definition revoke_token : Act unit := let! sent := revoke_send in revoke_clear sent.

(** ** What [ensure_valid_token] does *)

(** The token is good now. *)
Definition valid_now (s : St) : Prop :=
  ts_access_token s.1 ≠ "" ∧ (n_now (e_net s.2) ≤ ts_expires_at s.1)%Z.

#[global] Instance valid_now_dec s : Decision (valid_now s).
Proof. unfold valid_now. apply _. Defined.

Lemma is_expired_zero expires now : is_expired_at expires now 0 = negb (bool_decide (now ≤ expires)%Z).
Proof.
  unfold is_expired_at. destruct (Z.leb_spec now expires).
  - rewrite bool_decide_true by done. apply Z.ltb_ge. lia.
  - by rewrite bool_decide_false by lia.
Qed.

Lemma valid_now_check s :
  negb (bool_decide (ts_access_token s.1 = "")) && negb (is_expired_at (ts_expires_at s.1) (n_now (e_net s.2)) 0)
  = bool_decide (valid_now s).
Proof.
  rewrite is_expired_zero, negb_involutive. unfold valid_now.
  rewrite <- bool_decide_not, <- bool_decide_and. done.
Qed.

(** What an answer to a token request comes to. *)
Definition token_reply (reply : HttpReply) : result TokenResponse AuthError :=
  match reply with
  | SendFailed err | BodyFailed _ err => Err (AuthRequest err)
  | Replied status body =>
      if negb (is_success status) then Err (AuthStatus status (lossy body))
      else map_err AuthDecode (decode_token body)
  end.

(** The reply to the request [c] when it is the next one. *)
Definition next_reply (c : Call) (n : Net) : result TokenResponse AuthError :=
  token_reply (n_answer n (length (n_sent n)) c).1.

(** The tokens an answer leaves: the refresh token sent with it, or [kept]. *)
Definition tokens_of (response : TokenResponse) (kept : string) : TokenState :=
  mkTokenState (tr_access_token response)
    (if decide (tr_refresh_token response = "") then kept else tr_refresh_token response)
    (match tr_expires_at response with
     | Some seconds => unix_seconds_to_system_time seconds
     | None => default 0%Z (extract_expiry (tr_access_token response))
     end).

(** The network goes on only by requests. *)
Definition sent_more (calls : list Call) (e e' : Env) : Prop :=
  n_sent (e_net e') = n_sent (e_net e) ++ calls ∧ n_answer (e_net e') = n_answer (e_net e).

Lemma on_store_net {A} (f : gmap string string → result A SecretError * gmap string string) e :
  e_net (on_store f e).2 = e_net e.
Proof. unfold on_store. destruct (st_fault _ _); [done|]. by destruct (f _). Qed.

Lemma apply_response_spec response always (s : St) :
  let '(t, e) := apply_response response always s in
  t = tokens_of response (if always then "" else ts_refresh_token s.1) ∧ e_net e = e_net s.2.
Proof.
  destruct s as [t e]. unfold apply_response, tokens_of. cbn [fst snd].
  destruct (secret_set ACCESS_TOKEN_KEY _ e) as [r1 e1] eqn:E1.
  assert (e_net e1 = e_net e) as Hn.
  { change e1 with ((r1, e1).2). rewrite <- E1. apply on_store_net. }
  destruct (decide (tr_refresh_token response = "")) as [Ht|Ht].
  - rewrite bool_decide_true by done. simpl. rewrite orb_false_r. by destruct always; rewrite ?Ht.
  - rewrite bool_decide_false by done. cbn [negb]. rewrite orb_true_r. split; [done|].
    unfold secret_set. by rewrite on_store_net.
Qed.

Lemma post_token_spec c t e :
  let '(r, (t', e')) := post_token c (t, e) in
  t' = t ∧ r = next_reply c (e_net e) ∧ sent_more [c] e e'.
Proof.
  unfold post_token, next_reply, send, sent_more. destruct (n_answer (e_net e) _ c) as [reply d]. simpl.
  split_and!; [done| |done|done]. by destruct reply.
Qed.

(** Asking with the API key. *)
Lemma fall_back_spec t e :
  let '(r, (t', e')) := (let! api_key := get_api_key in obtain_locked api_key) (t, e) in
  (∃ err, r = Err (NoApiKey err) ∧ t' = t ∧ sent_more [] e e') ∨
  ∃ key, let c := PostApiKey (manager_url +:+ TOKEN_PATH) key in
    sent_more [c] e e' ∧
    match next_reply c (e_net e) with
    | Ok response => r = Ok () ∧ t' = tokens_of response ""
    | Err err => r = Err err ∧ t' = t
    end.
Proof.
  unfold eff_bind at 1, get_api_key, secret_get.
  match goal with |- context [on_store ?f e] => pose proof (on_store_net f e) as Hn; destruct (on_store f e) as [r1 e1] end.
  cbn [snd] in Hn. destruct r1 as [key|err]; cbv beta iota zeta.
  2: { left. eexists. split_and!; [done|done|]. unfold sent_more. by rewrite Hn, app_nil_r. }
  unfold obtain_locked, eff_bind.
  pose proof (post_token_spec (PostApiKey (manager_url +:+ TOKEN_PATH) (lossy key)) t e1) as Hp.
  destruct (post_token _ _) as [r2 [t2 e2]]. destruct Hp as (-> & -> & Hs). unfold sent_more in Hs.
  rewrite Hn in Hs |- *. destruct (next_reply _ (e_net e)) as [response|err] eqn:Er.
  - pose proof (apply_response_spec response true (t, e2)) as Ha. destruct (apply_response _ _ _) as [t3 e3].
    destruct Ha as [-> Hn3]. right. exists (lossy key). cbv zeta. rewrite Er. unfold sent_more. cbn [snd] in Hn3.
    by rewrite Hn3.
  - right. exists (lossy key). cbv zeta. by rewrite Er.
Qed.

(** A valid token is kept without asking.  Otherwise the manager is asked
    with the refresh token if there is one, and, only if there is none or that
    failed, with the API key; the first answer that can be read becomes the
    token, with the old refresh token where a refresh brought no new one.  When
    neither works, the error of the last attempt is returned and the tokens
    are as before. *)
Theorem token_kept_or_renewed (t t' : TokenState) (e e' : Env) (r : result unit AuthError) :
  ensure_valid_token (t, e) = (r, (t', e')) →
  if decide (valid_now (t, e)) then r = Ok () ∧ t' = t ∧ e' = e
  else
    let refresh := PostRefresh (manager_url +:+ REFRESH_PATH) (ts_refresh_token t) in
    (∃ response, ts_refresh_token t ≠ "" ∧ next_reply refresh (e_net e) = Ok response ∧
       r = Ok () ∧ t' = tokens_of response (ts_refresh_token t) ∧ sent_more [refresh] e e') ∨
    ∃ e1, (if decide (ts_refresh_token t = "") then e1 = e
           else is_ok (next_reply refresh (e_net e)) = false ∧ sent_more [refresh] e e1) ∧
      ((∃ err, r = Err (NoApiKey err) ∧ t' = t ∧ sent_more [] e1 e') ∨
       ∃ key, let c := PostApiKey (manager_url +:+ TOKEN_PATH) key in
         sent_more [c] e1 e' ∧
         match next_reply c (e_net e1) with
         | Ok response => r = Ok () ∧ t' = tokens_of response ""
         | Err err => r = Err err ∧ t' = t
         end).
Proof.
  intros E. revert E. unfold ensure_valid_token.
  pose proof (valid_now_check (t, e)) as Hv. cbn [fst snd] in Hv. rewrite Hv.
  destruct (decide (valid_now (t, e))) as [Hval|Hval].
  { rewrite bool_decide_true by done. by intros [= <- <- <-]. }
  rewrite bool_decide_false by done. cbv zeta. destruct (decide (ts_refresh_token t = "")) as [Ht|Ht].
  { rewrite bool_decide_true by done. intros E. right. exists e. split; [done|].
    pose proof (fall_back_spec t e) as Hf. rewrite E in Hf. exact Hf. }
  rewrite bool_decide_false by done. unfold refresh_locked, eff_bind at 1.
  pose proof (post_token_spec (PostRefresh (manager_url +:+ REFRESH_PATH) (ts_refresh_token t)) t e) as Hp.
  destruct (post_token _ (t, e)) as [r2 [t2 e2]]. destruct Hp as (-> & -> & Hs).
  destruct (next_reply _ (e_net e)) as [response|err].
  - pose proof (apply_response_spec response false (t, e2)) as Ha. destruct (apply_response _ _ _) as [t3 e3].
    destruct Ha as [-> Hn3]. intros [= <- <- <-]. left. exists response. split_and!; [done..|].
    unfold sent_more in *. cbn [snd] in Hn3. by rewrite Hn3.
  - intros E. right. exists e2. split; [done|]. pose proof (fall_back_spec t e2) as Hf. rewrite E in Hf. exact Hf.
Qed.
End Auth.
