(* ===== verification/Vpn.v ===== *)
(** * The VPN tunnel (crates/penguin-module-tobogganing/src: config.rs, wireguard/mod.rs, vpn.rs)

    The tunnel's life cycle over a WireGuard backend, which is a record of
    operations over a state of its own. *)
From S2P Require Import Prelude.
From S2P Require Import Text.
From S2P Require Import NetAddr.
From S2P Require Import Sdk.
From S2P Require Import VpnAuth.

(** ** Configuration (config.rs) *)

Definition DEFAULT_INTERFACE_NAME : string := "wg0".
Definition DEFAULT_MTU : Z := 1420.
Definition DEFAULT_KEEPALIVE_SECS : Z := 25.

Record ModuleConfig := mkModuleConfig {
  mc_manager_url : string;
  mc_node_id : string;
  mc_interface_name : string;
  mc_mtu : Z;
  mc_dns : list string;
  mc_keepalive : Z;
  mc_allowed_ips : list string;
  mc_embedded : bool;
}.

Definition ModuleConfig_default : ModuleConfig :=
  mkModuleConfig "" "" DEFAULT_INTERFACE_NAME DEFAULT_MTU [] DEFAULT_KEEPALIVE_SECS [] false.

(** ** Addresses of the standard library *)

Inductive IpAddr := V4 (a : Ipv4Addr) | V6 (groups : list Z).
Inductive SocketAddr :=
| SocketV4 (ip : Ipv4Addr) (port : Z)
| SocketV6 (ip : list Z) (scope_id port : Z).

Definition read_ip_addr : Parser IpAddr := λ s,
  match read_ipv4_addr s with
  | Some (a, rest) => Some (V4 a, rest)
  | None => '(g, rest) ← read_ipv6_addr s; Some (V6 g, rest)
  end.
Definition ip_addr_parse (s : string) : option IpAddr := parse_all read_ip_addr s.

Definition read_port : Parser Z := λ s,
  '(_, s) ← read_char colon s; read_number 10 65535 (String.length s) true s.

Definition read_socket_addr_v4 : Parser SocketAddr := λ s,
  '(ip, s) ← read_ipv4_addr s; '(port, s) ← read_port s; Some (SocketV4 ip port, s).

Definition read_scope_id : Parser Z := λ s,
  '(_, s) ← read_char (Ascii.ascii_of_nat 37) s; read_number 10 (2 ^ 32 - 1) (String.length s) true s.

Definition read_socket_addr_v6 : Parser SocketAddr := λ s,
  '(_, s) ← read_char (Ascii.ascii_of_nat 91) s;
  '(ip, s) ← read_ipv6_addr s;
  let '(scope_id, s) := match read_scope_id s with Some x => x | None => (0%Z, s) end in
  '(_, s) ← read_char (Ascii.ascii_of_nat 93) s;
  '(port, s) ← read_port s;
  Some (SocketV6 ip scope_id port, s).

(** [SocketAddr::from_str] *)
Definition socket_addr_parse (s : string) : option SocketAddr :=
  parse_all (λ s, match read_socket_addr_v4 s with Some x => Some x | None => read_socket_addr_v6 s end) s.

Example socket_ok : socket_addr_parse "203.0.113.7:51820" = Some (SocketV4 (203, 0, 113, 7)%Z 51820) ∧
  socket_addr_parse "[::1]:80" = Some (SocketV6 [0; 0; 0; 0; 0; 0; 0; 1]%Z 0 80).
Proof. split; reflexivity. Qed.
Example socket_bad : socket_addr_parse "vpn.example:51820" = None ∧ socket_addr_parse "203.0.113.7" = None ∧
  socket_addr_parse "203.0.113.7:65536" = None.
Proof. split_and!; reflexivity. Qed.

(** ** The crates: keys, address masks, JSON and the [Debug] form of a text *)

Record TunnelConfigResponse := mkTunnelConfig {
  tc_tunnel_address : string;
  tc_server_public_key : string;
  tc_server_endpoint : string;
  tc_allowed_ips : list string;
  tc_dns : list string;
}.

Class WgTypes := {
  Key : Type;
  key_generate : nat → Key;              (* the [n]-th key generated *)
  key_public : Key → Key;
  key_to_string : Key → string;
  key_try_from : string → option Key;
  IpAddrMask : Type;
  mask_parse : string → option IpAddrMask;
  decode_tunnel : string → result TunnelConfigResponse string;
  debug_text : string → string;
}.

(** ** The backend's contract (wireguard/mod.rs) *)

Record PeerStats := mkPeerStats {
  ps_last_handshake : option Z;
  ps_rx_bytes : Z;
  ps_tx_bytes : Z;
}.
Definition PeerStats_default : PeerStats := mkPeerStats None 0 0.

Inductive BackendKind := Kernel | Userspace.
Definition kind_as_str (k : BackendKind) : string :=
  match k with Kernel => "kernel" | Userspace => "userspace" end.

Inductive WgBackendError :=
| Interface (message : string)
| Unsupported (operation reason : string).

Definition WgBackendError_display (e : WgBackendError) : string :=
  match e with
  | Interface message => "wireguard interface error: " +:+ message
  | Unsupported operation reason => operation +:+ " is not supported by this backend: " +:+ reason
  end.

Section Vpn.
  Context `{WT : WgTypes}.

Record TunnelSpec := mkTunnelSpec {
  sp_private_key : Key;
  sp_client_address : IpAddrMask;
  sp_peer_public_key : Key;
  sp_endpoint : SocketAddr;
  sp_allowed_ips : list IpAddrMask;
  sp_dns : list IpAddr;
  sp_mtu : Z;
  sp_keepalive : option Z;               (* seconds *)
}.

Record WireGuardBackend (B : Type) := mkBackend {
  wb_kind : BackendKind;
  wb_apply : string → TunnelSpec → eff B WgBackendError unit;
  wb_peer_stats : string → eff B WgBackendError PeerStats;
  wb_teardown : string → eff B WgBackendError unit;
}.
Arguments wb_kind {B} _.
Arguments wb_apply {B} _ _ _ _.
Arguments wb_peer_stats {B} _ _ _.
Arguments wb_teardown {B} _ _ _.

(** ** The manager (vpn.rs) *)

Definition CONFIG_PATH : string := "/api/v1/config".

Inductive VpnError :=
| NoToken
| AlreadyConnected
| NotConnected
| VpnRequest (err : string)
| VpnStatus (status : Z) (body : string)
| VpnDecode (err : string)
| InvalidConfig (message : string)
| Backend (e : WgBackendError).

Definition VpnError_display (e : VpnError) : string :=
  match e with
  | NoToken => "no valid token"
  | AlreadyConnected => "already connected"
  | NotConnected => "not connected"
  | VpnRequest err => "request failed: " +:+ err
  | VpnStatus status body => "request failed with status " +:+ pretty status +:+ ": " +:+ body
  | VpnDecode err => "failed to parse response: " +:+ err
  | InvalidConfig message => "invalid tunnel config: " +:+ message
  | Backend e => WgBackendError_display e
  end.

Record VpnState := mkVpnState { vs_connected : bool; vs_private_key : option Key }.
Definition VpnState_default : VpnState := mkVpnState false None.

Definition parse_field {T} (parse : string → option T) (field raw : string) : result T VpnError :=
  ok_or (parse raw) (InvalidConfig ("invalid " +:+ field +:+ " entry " +:+ debug_text raw)).

Fixpoint parse_fields {T} (parse : string → option T) (field : string) (raws : list string) :
    result (list T) VpnError :=
  match raws with
  | [] => Ok []
  | raw :: raws =>
      let? x := parse_field parse field raw in
      let? xs := parse_fields parse field raws in
      Ok (x :: xs)
  end.

Context `{AC : AuthCodec} {B : Type} (config : ModuleConfig) (backend : WireGuardBackend B).

Definition build_tunnel_spec (private_key : Key) (t : TunnelConfigResponse) : result TunnelSpec VpnError :=
  let? client_address := parse_field mask_parse "tunnel_address" (tc_tunnel_address t) in
  let? peer_public_key := ok_or (key_try_from (tc_server_public_key t)) (InvalidConfig "invalid server_public_key") in
  let? endpoint := ok_or (socket_addr_parse (tc_server_endpoint t))
                     (InvalidConfig ("server_endpoint " +:+ debug_text (tc_server_endpoint t) +:+
                                     " is not a literal ip:port")) in
  let? allowed_ips := parse_fields mask_parse "allowed_ips"
                        (match tc_allowed_ips t with [] => mc_allowed_ips config | l => l end) in
  let? dns := parse_fields ip_addr_parse "dns" (match tc_dns t with [] => mc_dns config | l => l end) in
  Ok (mkTunnelSpec private_key client_address peer_public_key endpoint allowed_ips dns (mc_mtu config)
        (if (mc_keepalive config =? 0)%Z then None else Some (mc_keepalive config))).

(** The world of the module: the tokens, the environment, the tunnel's state,
    the backend's and the number of keys generated. *)
Record Vw := mkVw {
  vw_tokens : TokenState;
  vw_env : Env;
  vw_vpn : VpnState;
  vw_backend : B;
  vw_keys : nat;
}.

Definition set_auth (s : TokenState * Env) (w : Vw) : Vw := mkVw s.1 s.2 (vw_vpn w) (vw_backend w) (vw_keys w).
Definition set_vpn (v : VpnState) (w : Vw) : Vw := mkVw (vw_tokens w) (vw_env w) v (vw_backend w) (vw_keys w).
Definition set_backend (b : B) (w : Vw) : Vw := mkVw (vw_tokens w) (vw_env w) (vw_vpn w) b (vw_keys w).

Definition on_auth {A} (m : eff (TokenState * Env) AuthError A) (w : Vw) : result A AuthError * Vw :=
  let '(r, s) := m (vw_tokens w, vw_env w) in (r, set_auth s w).
Definition on_backend {A} (m : eff B WgBackendError A) : eff Vw VpnError A := λ w,
  let '(r, b) := m (vw_backend w) in (map_err Backend r, set_backend b w).

Definition is_connected (w : Vw) : bool := vs_connected (vw_vpn w).

Definition fetch_tunnel_config (public_key : Key) : eff Vw VpnError TunnelConfigResponse := λ w,
  let token := token (vw_tokens w) in
  if decide (token = "") then (Err NoToken, w)
  else
    let '(reply, e) := send (GetConfig (mc_manager_url config +:+ CONFIG_PATH) token (key_to_string public_key))
                         (vw_env w) in
    (match reply with
     | SendFailed err | BodyFailed _ err => Err (VpnRequest err)
     | Replied status body =>
         if negb (is_success status) then Err (VpnStatus status (lossy body))
         else map_err VpnDecode (decode_tunnel body)
     end, set_auth (vw_tokens w, e) w).

(** Fetching the configuration and applying it, with the given key. *)
Definition fetch_and_apply (private_key : Key) : eff Vw VpnError unit :=
  let! tunnel_config := fetch_tunnel_config (key_public private_key) in
  let! spec := pure (build_tunnel_spec private_key tunnel_config) in
  on_backend (wb_apply backend (mc_interface_name config) spec).

Definition generate_key : eff Vw VpnError Key := λ w,
  (Ok (key_generate (vw_keys w)),
   mkVw (vw_tokens w) (vw_env w) (vw_vpn w) (vw_backend w) (S (vw_keys w))).

Definition connect : eff Vw VpnError unit := λ w,
  if vs_connected (vw_vpn w) then (Err AlreadyConnected, w)
  else
    (let! private_key := generate_key in
     let! _ := fetch_and_apply private_key in
     λ w, (Ok (), set_vpn (mkVpnState true (Some private_key)) w)) w.

Definition disconnect : eff Vw VpnError unit := λ w,
  if negb (vs_connected (vw_vpn w)) then (Ok (), w)
  else
    (let! _ := on_backend (wb_teardown backend (mc_interface_name config)) in
     λ w, (Ok (), set_vpn (mkVpnState false None) w)) w.

(** [force] has no effect. *)
Definition rotate (force : bool) : eff Vw VpnError unit := λ w,
  match vs_private_key (vw_vpn w) with
  | None => (Err NotConnected, w)
  | Some private_key => fetch_and_apply private_key w
  end.

Definition peer_stats : eff Vw VpnError PeerStats :=
  on_backend (wb_peer_stats backend (mc_interface_name config)).
End Vpn.

Arguments WireGuardBackend {WT} B.
Arguments wb_kind {WT B} _.
Arguments wb_apply {WT B} _ _ _ _.
Arguments wb_peer_stats {WT B} _ _ _.
Arguments wb_teardown {WT B} _ _ _.
Arguments Vw {WT} B.
