(* ===== verification/VpnModule.v ===== *)
(** * The VPN module (crates/penguin-module-tobogganing/src: metrics.rs, module.rs, commands.rs)

    The module around the tokens and the tunnel.  [start] spawns two loops and
    a first attempt to connect, none of which it waits for; connecting and
    stopping give way to other tasks between their parts, so both are cut into
    the parts the locks make atomic, and [vm_tasks] has what is under way. *)
From S2P Require Import Prelude.
From S2P Require Import Text.
From S2P Require Import Json.
From S2P Require Import Sdk.
From S2P Require Import VpnAuth.
From S2P Require Import Vpn.

(** ** Metrics (metrics.rs) *)

Record VpnMetrics := mkVpnMetrics {
  tunnel_up : Z;
  handshake_age : Z;                     (* nanoseconds *)
  rx_bytes : Z;
  tx_bytes : Z;
  token_refreshes : Z;
  connection_errors : Z;
  last_rx_bytes : Z;
  last_tx_bytes : Z;
}.

Definition vpn_metrics_new : VpnMetrics := mkVpnMetrics 0 0 0 0 0 0 0 0.

(** [new_value.saturating_sub(previous)] *)
Definition record_delta (counter last new_value : Z) : Z := (counter + Z.max 0 (new_value - last))%Z.

Definition record_bytes (rx tx : Z) (m : VpnMetrics) : VpnMetrics :=
  mkVpnMetrics (tunnel_up m) (handshake_age m) (record_delta (rx_bytes m) (last_rx_bytes m) rx)
    (record_delta (tx_bytes m) (last_tx_bytes m) tx) (token_refreshes m) (connection_errors m) rx tx.
Definition set_tunnel_up (x : Z) (m : VpnMetrics) : VpnMetrics :=
  mkVpnMetrics x (handshake_age m) (rx_bytes m) (tx_bytes m) (token_refreshes m) (connection_errors m)
    (last_rx_bytes m) (last_tx_bytes m).
Definition set_handshake_age (x : Z) (m : VpnMetrics) : VpnMetrics :=
  mkVpnMetrics (tunnel_up m) x (rx_bytes m) (tx_bytes m) (token_refreshes m) (connection_errors m)
    (last_rx_bytes m) (last_tx_bytes m).
Definition inc_refreshes (m : VpnMetrics) : VpnMetrics :=
  mkVpnMetrics (tunnel_up m) (handshake_age m) (rx_bytes m) (tx_bytes m) (token_refreshes m + 1)
    (connection_errors m) (last_rx_bytes m) (last_tx_bytes m).
Definition inc_errors (m : VpnMetrics) : VpnMetrics :=
  mkVpnMetrics (tunnel_up m) (handshake_age m) (rx_bytes m) (tx_bytes m) (token_refreshes m)
    (connection_errors m + 1) (last_rx_bytes m) (last_tx_bytes m).

(** ** The module (module.rs) *)

Definition AUTH_REFRESH_INTERVAL : Z := 60 * 1000000000.
Definition AUTH_REFRESH_THRESHOLD : Z := 5 * 60 * 1000000000.
Definition MONITOR_INTERVAL : Z := 10 * 1000000000.
Definition HANDSHAKE_DEGRADED_AGE : Z := 2 * 60 * 1000000000.

Class VpnCodec := {
  config_from_slice : string → result ModuleConfig string;
  to_vec : Value → result string string;
}.

(** Who asked for the connection, and what comes next for it. *)
Inductive Who := Initial | Reconnect | Command.
Inductive ConnectPhase := ToCheck | ToToken | ToConnect.
Inductive StopPhase := ToDisconnect | ToRevoke | ToForget (sent : bool).

Inductive Task :=
| MonitorLoop (token : nat)
| RefreshLoop (token : nat)
| Connecting (who : Who) (next : ConnectPhase)
| Stopping (next : StopPhase).

#[global] Instance Who_eq_dec : EqDecision Who.
Proof. solve_decision. Defined.
#[global] Instance ConnectPhase_eq_dec : EqDecision ConnectPhase.
Proof. solve_decision. Defined.
#[global] Instance StopPhase_eq_dec : EqDecision StopPhase.
Proof. solve_decision. Defined.
#[global] Instance Task_eq_dec : EqDecision Task.
Proof. solve_decision. Defined.

Section Module_.
  Context `{WT : WgTypes} `{AC : AuthCodec} `{VC : VpnCodec} {B : Type}.
  Context (config : ModuleConfig) (backend : WireGuardBackend B).

Record Vm := mkVm {
  vm_running : bool;
  vm_cancel : option nat;
  vm_next_token : nat;
  vm_cancelled : gset nat;
  vm_last_health : option HealthReport;
  vm_metrics : VpnMetrics;
  vm_world : Vw B;
  vm_tasks : list Task;
  vm_log : list string;
}.

Definition set_running b m :=
  mkVm b (vm_cancel m) (vm_next_token m) (vm_cancelled m) (vm_last_health m) (vm_metrics m) (vm_world m)
    (vm_tasks m) (vm_log m).
Definition set_metrics f m :=
  mkVm (vm_running m) (vm_cancel m) (vm_next_token m) (vm_cancelled m) (vm_last_health m) (f (vm_metrics m))
    (vm_world m) (vm_tasks m) (vm_log m).
Definition set_world w m :=
  mkVm (vm_running m) (vm_cancel m) (vm_next_token m) (vm_cancelled m) (vm_last_health m) (vm_metrics m) w
    (vm_tasks m) (vm_log m).
Definition set_tasks l m :=
  mkVm (vm_running m) (vm_cancel m) (vm_next_token m) (vm_cancelled m) (vm_last_health m) (vm_metrics m)
    (vm_world m) l (vm_log m).
Definition log line m :=
  mkVm (vm_running m) (vm_cancel m) (vm_next_token m) (vm_cancelled m) (vm_last_health m) (vm_metrics m)
    (vm_world m) (vm_tasks m) (vm_log m ++ [line]).

Definition now (m : Vm) : Z := n_now (e_net (vw_env (vm_world m))).

Definition lift_auth {A} (x : eff (TokenState * Env) AuthError A) (m : Vm) : result A AuthError * Vm :=
  let '(r, w) := on_auth x (vm_world m) in (r, set_world w m).
Definition lift_vpn {A} (x : eff (Vw B) VpnError A) (m : Vm) : result A VpnError * Vm :=
  let '(r, w) := x (vm_world m) in (r, set_world w m).

Definition set_health (level : HealthLevel) (message : string) (m : Vm) : Vm :=
  mkVm (vm_running m) (vm_cancel m) (vm_next_token m) (vm_cancelled m)
    (Some (mkHealthReport level message (now m))) (vm_metrics m) (vm_world m) (vm_tasks m) (vm_log m).

Definition update_health_probe (m : Vm) : Vm :=
  if negb (is_connected (vm_world m)) then set_health LUnhealthy "tunnel is not connected" m
  else
    let '(stats, m) := lift_vpn (peer_stats config backend) m in
    match stats with
    | Err err => set_health LUnhealthy ("failed to read tunnel stats: " +:+ VpnError_display err) m
    | Ok stats =>
        let m := set_metrics (record_bytes (ps_rx_bytes stats) (ps_tx_bytes stats)) m in
        match ps_last_handshake stats with
        | None => set_health LDegraded "no handshake yet" m
        | Some last_handshake =>
            let age := Z.max 0 (now m - last_handshake) in
            let m := set_metrics (set_handshake_age age) m in
            if (HANDSHAKE_DEGRADED_AGE <? age)%Z then
              set_health LDegraded ("last handshake was " +:+ pretty (age / 1000000000)%Z +:+ "s ago") m
            else set_health LHealthy "tunnel is connected and healthy" m
        end
    end.

(** *** [establish_tunnel], in the parts between which others may run *)

Definition establish_check : eff Vm ModuleError unit := λ m,
  (if negb (vm_running m) then Err (mkModuleError "module not running") else Ok (), m).

Definition establish_token : eff Vm ModuleError unit := λ m,
  let '(r, m) := lift_auth (ensure_valid_token (mc_manager_url config)) m in
  (map_err (λ err, mkModuleError ("failed to obtain token: " +:+ AuthError_display err)) r, m).

Definition establish_connect : eff Vm ModuleError unit := λ m,
  let '(r, m) := lift_vpn (connect config backend) m in
  match r with
  | Err err => (Err (mkModuleError ("failed to establish tunnel: " +:+ VpnError_display err)),
                set_metrics inc_errors m)
  | Ok _ => (Ok (), log "tunnel established" (set_metrics (set_tunnel_up 1) m))
  end.

Definition establish_tunnel : eff Vm ModuleError unit :=
  let! _ := establish_check in
  let! _ := establish_token in
  establish_connect.

Definition initial_connect (m : Vm) : Vm :=
  let '(r, m) := establish_tunnel m in
  match r with Err _ => log "failed to establish initial tunnel" m | Ok _ => m end.

(** One tick of [auth_refresh_loop] and of [monitor_loop]. *)
Definition refresh_tick (m : Vm) : Vm :=
  if negb (is_token_expired AUTH_REFRESH_THRESHOLD (vw_tokens (vm_world m), vw_env (vm_world m))) then m
  else
    let m := log "token expiring soon, refreshing..." m in
    let '(r, m) := lift_auth (ensure_valid_token (mc_manager_url config)) m in
    match r with
    | Err _ => set_metrics inc_errors (log "token refresh failed" m)
    | Ok _ => log "token refreshed" (set_metrics inc_refreshes m)
    end.

Definition monitor_tick (m : Vm) : Vm :=
  let m := update_health_probe m in
  if is_connected (vm_world m) then m
  else
    let '(r, m) := establish_tunnel m in
    match r with Err _ => log "reconnect attempt failed" m | Ok _ => m end.

(** *** Life cycle *)

(** The module after [init] on the environment [e], with the backend's state [b]. *)
Definition initialised (e : Env) (b : B) : Vm :=
  let '(tokens, e) := auth_new e in
  mkVm false None 0 ∅ None vpn_metrics_new (mkVw tokens e VpnState_default b 0) []
    ["tobogganing config loaded"; "wireguard backend selected"; "tobogganing module initialized"].

Definition init (raw : string) (register : result unit string) (e : Env) (b : B) :
    result (ModuleConfig * Vm) ModuleError :=
  let? cfg := (if decide (raw = "") then Ok ModuleConfig_default
               else map_err (λ err, mkModuleError ("failed to parse config: " +:+ err)) (config_from_slice raw)) in
  if decide (mc_manager_url cfg = "") then Err (mkModuleError "manager_url is required")
  else if decide (mc_node_id cfg = "") then Err (mkModuleError "node_id is required")
  else
    let? _ := map_err (λ err, mkModuleError ("register metrics: " +:+ err)) register in
    Ok (cfg, initialised e b).

Definition start : eff Vm ModuleError unit := λ m,
  if vm_running m then (Err (mkModuleError "module already running"), m)
  else
    let m := log "starting tobogganing module" (set_metrics (set_tunnel_up 0) (set_running true m)) in
    let t := vm_next_token m in
    let m := mkVm (vm_running m) (Some t) (S t) (vm_cancelled m) (vm_last_health m) (vm_metrics m) (vm_world m)
               (vm_tasks m ++ [MonitorLoop t; RefreshLoop t]) (vm_log m) in
    let m := update_health_probe m in
    (Ok (), set_tasks (vm_tasks m ++ [Connecting Initial ToCheck]) m).

(** [stop] in its parts; [stop_begin] says whether there is anything to stop. *)
Definition stop_begin (m : Vm) : bool * Vm :=
  if negb (vm_running m) then (false, m)
  else
    let m := log "stopping tobogganing module" (set_running false m) in
    (true, mkVm (vm_running m) None (vm_next_token m)
             (match vm_cancel m with Some t => {[t]} ∪ vm_cancelled m | None => vm_cancelled m end)
             (vm_last_health m) (vm_metrics m) (vm_world m) (vm_tasks m) (vm_log m)).

Definition stop_disconnect (m : Vm) : list string * Vm :=
  let '(r, m) := lift_vpn (disconnect config backend) m in
  match r with
  | Err err => (["disconnect: " +:+ VpnError_display err], log "failed to disconnect tunnel" m)
  | Ok _ => ([], m)
  end.

Definition stop_revoke (m : Vm) : list string * bool * Vm :=
  let '(r, m) := lift_auth (revoke_send (mc_manager_url config)) m in
  match r with
  | Err err => (["revoke: " +:+ AuthError_display err], false, log "failed to revoke token" m)
  | Ok sent => ([], sent, m)
  end.

Definition stop_forget (sent : bool) (m : Vm) : Vm :=
  let '(_, m) := lift_auth (revoke_clear sent) m in
  log "tobogganing module stopped" (set_metrics (set_tunnel_up 0) m).

Definition stop : eff Vm ModuleError unit := λ m,
  let '(running, m) := stop_begin m in
  if negb running then (Ok (), m)
  else
    let '(errors1, m) := stop_disconnect m in
    let '(errors2, sent, m) := stop_revoke m in
    let m := stop_forget sent m in
    match errors1 ++ errors2 with
    | [] => (Ok (), m)
    | errors => (Err (mkModuleError ("stop errors: " +:+ String.concat "; " errors)), m)
    end.

Definition status (m : Vm) : Status :=
  mkStatus (if vm_running m then Running else Disabled)
    (<["node_id" := mc_node_id config]> (<["endpoint" := mc_manager_url config]>
       {["tunnel" := if is_connected (vm_world m) then "up" else "down"]})).

Definition health (m : Vm) : HealthReport :=
  default (mkHealthReport LUnhealthy "no health probe has run yet" (now m)) (vm_last_health m).

(** ** Commands (commands.rs) *)

Definition usage_result (message : string) : CommandResult := mkCommandResult message [] 1.

Definition eol : string := String (Ascii.ascii_of_nat 10) "".

Definition sorted_detail (s : Status) : list (string * string) :=
  sort_by (λ a b, match String.compare a.1 b.1 with Gt => false | _ => true end) (map_to_list (st_detail s)).

Definition format_status_text (s : Status) : string :=
  "State: " +:+ ModuleStateM.as_str (st_state s) +:+ eol +:+
  foldr (λ kv acc, "  " +:+ kv.1 +:+ ": " +:+ kv.2 +:+ eol +:+ acc) "" (sorted_detail s).

Definition cmd_connect (m : Vm) : CommandResult * Vm :=
  let '(r, m) := establish_tunnel m in
  match r with
  | Ok _ => (mkCommandResult "connected" [] 0, m)
  | Err err => (usage_result ("connection failed: " +:+ me_message err), m)
  end.

Definition cmd_disconnect (m : Vm) : CommandResult * Vm :=
  let '(r, m) := lift_vpn (disconnect config backend) m in
  match r with
  | Ok _ => (mkCommandResult "disconnected" [] 0, set_metrics (set_tunnel_up 0) m)
  | Err err => (usage_result ("disconnection failed: " +:+ VpnError_display err), m)
  end.

Definition cmd_status (as_json : bool) (m : Vm) : CommandResult :=
  let s := status m in
  if as_json then
    let json := match to_vec (JObject [("state", JString (ModuleStateM.as_str (st_state s)));
                                       ("detail", JObject (map (λ kv, (kv.1, JString kv.2)) (sorted_detail s)))]) with
                | Ok j => j | Err _ => "" end in
    mkCommandResult (lossy json) (String.list_byte_of_string json) 0
  else mkCommandResult (format_status_text s) [] 0.

Definition cmd_rotate (force : bool) (m : Vm) : CommandResult * Vm :=
  let '(r, m) := lift_vpn (rotate config backend force) m in
  match r with
  | Ok _ => (mkCommandResult "config rotated" [] 0, m)
  | Err err => (usage_result ("rotation failed: " +:+ VpnError_display err), m)
  end.

Definition flag_set (name : string) (flags : gmap string string) : bool := bool_decide (flags !! name = Some "true").

Definition dispatch (path : list string) (flags : gmap string string) (m : Vm) : CommandResult * Vm :=
  match head path with
  | None => (usage_result "no command specified", m)
  | Some command =>
      if decide (command = "connect") then cmd_connect m
      else if decide (command = "disconnect") then cmd_disconnect m
      else if decide (command = "status") then (cmd_status (flag_set "json" flags) m, m)
      else if decide (command = "rotate") then cmd_rotate (flag_set "force" flags) m
      else (usage_result ("unknown command: " +:+ command), m)
  end.

(** ** What may happen *)

(** One part of a connection attempt; [None] when it is over. *)
Definition run_connect (who : Who) (next : ConnectPhase) (m : Vm) : option ConnectPhase * Vm :=
  let failed m := match who with
                  | Initial => log "failed to establish initial tunnel" m
                  | Reconnect => log "reconnect attempt failed" m
                  | Command => m
                  end in
  match next with
  | ToCheck => let '(r, m) := establish_check m in
               match r with Ok _ => (Some ToToken, m) | Err _ => (None, failed m) end
  | ToToken => let '(r, m) := establish_token m in
               match r with Ok _ => (Some ToConnect, m) | Err _ => (None, failed m) end
  | ToConnect => let '(r, m) := establish_connect m in
                 match r with Ok _ => (None, m) | Err _ => (None, failed m) end
  end.

Definition run_stop (next : StopPhase) (m : Vm) : option StopPhase * Vm :=
  match next with
  | ToDisconnect => (Some ToRevoke, (stop_disconnect m).2)
  | ToRevoke => let '(_, sent, m) := stop_revoke m in (Some (ToForget sent), m)
  | ToForget sent => (None, stop_forget sent m)
  end.

Definition replace_task (l1 l2 : list Task) (t : option Task) (m : Vm) : Vm :=
  set_tasks (l1 ++ option_list t ++ l2) m.

(** The clock moves on, and the manager's answers are what they are. *)
Definition at_time (t : Z) (m : Vm) : Vm :=
  let w := vm_world m in
  let e := vw_env w in
  let n := e_net e in
  set_world (mkVw (vw_tokens w) (mkEnv (mkNet t (n_sent n) (n_answer n)) (e_store e)) (vw_vpn w) (vw_backend w)
               (vw_keys w)) m.

Inductive step : Vm → Vm → Prop :=
| step_start m : step m (start m).2
| step_stop m : (stop_begin m).1 = true →
    step m (set_tasks (Stopping ToDisconnect :: vm_tasks m) (stop_begin m).2)
| step_stopping m l1 l2 next : vm_tasks m = l1 ++ Stopping next :: l2 →
    step m (replace_task l1 l2 (Stopping <$> (run_stop next m).1) (run_stop next m).2)
| step_connecting m l1 l2 who next : vm_tasks m = l1 ++ Connecting who next :: l2 →
    step m (replace_task l1 l2 (Connecting who <$> (run_connect who next m).1) (run_connect who next m).2)
| step_monitor m t : MonitorLoop t ∈ vm_tasks m → t ∉ vm_cancelled m →
    let m' := update_health_probe m in
    step m (if is_connected (vm_world m') then m'
            else set_tasks (Connecting Reconnect ToCheck :: vm_tasks m') m')
| step_refresh m t : RefreshLoop t ∈ vm_tasks m → t ∉ vm_cancelled m → step m (refresh_tick m)
| step_exit m l1 l2 t x : vm_tasks m = l1 ++ x :: l2 → t ∈ vm_cancelled m →
    x = MonitorLoop t ∨ x = RefreshLoop t → step m (set_tasks (l1 ++ l2) m)
| step_cmd_connect m : step m (set_tasks (Connecting Command ToCheck :: vm_tasks m) m)
| step_dispatch m path flags : head path ≠ Some "connect" → step m (dispatch path flags m).2
| step_time m t : step m (at_time t m).
End Module_.

Arguments Vm {WT} B.

(** ** The command tree *)

Definition vpn_command (name short : string) (flags : list FlagSpec) (tray : bool) : CommandSpec :=
  mkCommandSpec name name short flags [] tray 0 0.

Definition command_tree : list CommandSpec :=
  [ vpn_command "connect" "Establish VPN connection" [] true;
    vpn_command "disconnect" "Terminate VPN connection" [] true;
    vpn_command "status" "Show VPN connection status"
      [mkFlagSpec "json" "" "Output as JSON" "false" FTBool] false;
    vpn_command "rotate" "Force config/cert rotation"
      [mkFlagSpec "force" "" "Force refresh without checking expiry" "false" FTBool] false ].

Definition info : ModuleInfo :=
  mkModuleInfo "tobogganing" "1.0.0" "WireGuard-compatible SASE/ZTNA endpoint client" "".
