(* ===== verification/VpnBackends.v ===== *)
(** * The WireGuard backends (crates/penguin-module-tobogganing/src/wireguard: kernel.rs, userspace.rs, tun_linux.rs)

    The kernel backend over [defguard_wireguard_rs], whose calls and documented
    effect on an interface are the class [WgApi]; the userspace backend with
    its TUN devices, sockets and event loops, over [boringtun] ([Noise]). *)
From S2P Require Import Prelude.
From S2P Require Import VpnAuth.
From S2P Require Import Vpn.

(** ** The kernel (kernel.rs) *)

Section Configuration.
  Context `{WgTypes}.

Record WgPeer := mkWgPeer {
  wp_public_key : Key;
  wp_endpoint : option SocketAddr;
  wp_allowed_ips : list IpAddrMask;
  wp_keepalive : option Z;
}.

Record InterfaceConfiguration := mkInterfaceConfiguration {
  ic_name : string;
  ic_prvkey : string;
  ic_addresses : list IpAddrMask;
  ic_port : Z;
  ic_peers : list WgPeer;
  ic_mtu : option Z;
}.
End Configuration.

(** Netlink: whether an interface exists, and what the calls do to that. *)
Class WgApi `{WgTypes} := {
  KState : Type;
  has_interface : KState → string → bool;
  read_interface_data : string → eff KState string (list PeerStats);   (* its peers *)
  create_interface : string → eff KState string unit;
  configure_interface : InterfaceConfiguration → eff KState string unit;
  configure_dns : string → list IpAddr → eff KState string unit;
  remove_interface : string → eff KState string unit;
  read_keeps : ∀ name k, (read_interface_data name k).2 = k;
  create_makes : ∀ name k k', create_interface name k = (Ok (), k') → has_interface k' name = true;
  configure_keeps : ∀ c k name, has_interface (configure_interface c k).2 name = has_interface k name;
  dns_keeps : ∀ name dns k name', has_interface (configure_dns name dns k).2 name' = has_interface k name';
  remove_removes : ∀ name k k', remove_interface name k = (Ok (), k') → has_interface k' name = false;
}.

Section Kernel.
  Context `{WT : WgTypes} {API : WgApi}.

(** [Some(UNIX_EPOCH)] stands for no handshake. *)
Definition normalize_never_handshaked (last_handshake : option Z) : option Z :=
  if decide (last_handshake = Some 0%Z) then None else last_handshake.

Definition map_dns_error (err : string) : WgBackendError := Interface ("configure DNS: " +:+ err).

Definition on_api {A} (f : string → WgBackendError) (m : eff KState string A) : eff KState WgBackendError A := λ k,
  let '(r, k) := m k in (map_err f r, k).

(** Creating the interface unless it is there. *)
Definition kernel_prepare (interface : string) : eff KState WgBackendError unit := λ k,
  let '(r, k) := read_interface_data interface k in
  match r with
  | Ok _ => (Ok (), k)
  | Err _ => on_api Interface (create_interface interface) k
  end.

Definition kernel_configuration (interface : string) (spec : TunnelSpec) : InterfaceConfiguration :=
  mkInterfaceConfiguration interface (key_to_string (sp_private_key spec)) [sp_client_address spec] 0
    [mkWgPeer (sp_peer_public_key spec) (Some (sp_endpoint spec)) (sp_allowed_ips spec)
       ((λ k, Z.min k 65535) <$> sp_keepalive spec)] (Some (sp_mtu spec)).

Definition kernel_apply (interface : string) (spec : TunnelSpec) : eff KState WgBackendError unit :=
  let! _ := kernel_prepare interface in
  let! _ := on_api Interface (configure_interface (kernel_configuration interface spec)) in
  if decide (sp_dns spec = []) then pure (Ok ())
  else on_api map_dns_error (configure_dns interface (sp_dns spec)).

Definition kernel_peer_stats (interface : string) : eff KState WgBackendError PeerStats := λ k,
  let '(r, k) := read_interface_data interface k in
  (match r with
   | Err _ | Ok [] => Ok PeerStats_default
   | Ok (peer :: _) =>
       Ok (mkPeerStats (normalize_never_handshaked (ps_last_handshake peer)) (ps_rx_bytes peer) (ps_tx_bytes peer))
   end, k).

Definition kernel_teardown (interface : string) : eff KState WgBackendError unit := λ k,
  let '(r, k) := read_interface_data interface k in
  match r with
  | Err _ => (Ok (), k)
  | Ok _ => on_api Interface (remove_interface interface) k
  end.

Definition KernelBackend : WireGuardBackend KState :=
  mkBackend _ Kernel kernel_apply kernel_peer_stats kernel_teardown.
End Kernel.

(** ** The userspace engine (userspace.rs, tun_linux.rs) *)

Inductive TunnResult :=
| Done
| TunnErr
| WriteToNetwork (packet : string)
| WriteToTunnelV4 (packet : string)
| WriteToTunnelV6 (packet : string).

(** [boringtun]: [None] is a panic.  With a session, a buffer without room for
    the packet and its overhead of 32 bytes panics. *)
Class Noise `{WgTypes} := {
  Tunn : Type;
  tunn_new : Key → Key → option Z → Tunn;
  encapsulate : string → nat → Tunn → option (TunnResult * Tunn);
  decapsulate : string → nat → Tunn → option (TunnResult * Tunn);
  update_timers : nat → Tunn → option (TunnResult * Tunn);
  has_session : Tunn → bool;
  encapsulate_small : ∀ packet room t,
    has_session t = true → room < String.length packet + 32 → encapsulate packet room t = None;
}.

Section Userspace.
  Context `{WT : WgTypes} {NO : Noise}.

Record EventLoopState := mkEventLoopState {
  el_tunn : Tunn;
  el_peer_addr : SocketAddr;
  el_last_handshake : option Z;
  el_rx_bytes : Z;
  el_tx_bytes : Z;
}.

(** The event loops run as tasks; each holds the TUN device it was given. *)
Record Uw := mkUw {
  uw_instance : option nat;              (* the loop of [BackendInstance] *)
  uw_states : gmap nat EventLoopState;
  uw_loops : gmap nat string;
  uw_cancelled : gset nat;
  uw_next : nat;
  uw_calls : nat;
}.

(** What the system says to the [n]-th [open], [ioctl], [AsyncFd::new], [bind]. *)
Record TunOs := mkTunOs { to_open : nat → bool; to_ioctl : nat → bool; to_async : nat → option string;
                          to_bind : nat → option string }.

  Context (os : TunOs).

Definition tick (u : Uw) : Uw :=
  mkUw (uw_instance u) (uw_states u) (uw_loops u) (uw_cancelled u) (uw_next u) (S (uw_calls u)).

(** A device that another descriptor is attached to is busy. *)
Definition device_busy (name : string) (u : Uw) : bool :=
  bool_decide (map_Exists (λ _ held, held = name) (uw_loops u)).

(** [TunFd::open] *)
Definition tun_open (name : string) : eff Uw WgBackendError unit := λ u,
  if negb (to_open os (uw_calls u)) then (Err (Interface "failed to open /dev/net/tun"), tick u)
  else if 16 <=? String.length name then (Err (Interface "TUN interface name too long"), tick u)
  else if device_busy name u || negb (to_ioctl os (uw_calls u))
  then (Err (Interface "TUNSETIFF ioctl failed"), tick u)
  else (Ok (), tick u).

Definition async_fd : eff Uw WgBackendError unit := λ u,
  (match to_async os (uw_calls u) with
   | Some e => Err (Interface ("AsyncFd wrapping failed: " +:+ e)) | None => Ok () end, tick u).

Definition udp_bind : eff Uw WgBackendError unit := λ u,
  (match to_bind os (uw_calls u) with
   | Some e => Err (Interface ("UDP bind failed: " +:+ e)) | None => Ok () end, tick u).

Definition build_tunn (spec : TunnelSpec) : Tunn :=
  tunn_new (sp_private_key spec) (sp_peer_public_key spec) ((λ k, Z.min k 65535) <$> sp_keepalive spec).

(** Dropping an instance cancels its loop. *)
Definition drop_instance (u : Uw) : gset nat :=
  match uw_instance u with Some i => {[i]} ∪ uw_cancelled u | None => uw_cancelled u end.

Definition userspace_apply (interface : string) (spec : TunnelSpec) : eff Uw WgBackendError unit :=
  let! _ := tun_open interface in
  let! _ := async_fd in
  let! _ := udp_bind in
  λ u,
  let i := uw_next u in
  (Ok (), mkUw (Some i) (<[i := mkEventLoopState (build_tunn spec) (sp_endpoint spec) None 0 0]> (uw_states u))
            (<[i := interface]> (uw_loops u)) (drop_instance u) (S i) (uw_calls u)).

Definition userspace_peer_stats (interface : string) : eff Uw WgBackendError PeerStats := λ u,
  (Ok (match uw_instance u ≫= (λ i, uw_states u !! i) with
       | None => PeerStats_default
       | Some st => mkPeerStats (el_last_handshake st) (el_rx_bytes st) (el_tx_bytes st)
       end), u).

Definition userspace_teardown (interface : string) : eff Uw WgBackendError unit := λ u,
  (Ok (), mkUw None (uw_states u) (uw_loops u) (drop_instance u) (uw_next u) (uw_calls u)).

Definition UserspaceBackend : WireGuardBackend Uw :=
  mkBackend _ Userspace userspace_apply userspace_peer_stats userspace_teardown.

(** *** The event loop *)

Definition BUFFER : nat := 1500.

Inductive LoopEvent :=
| TunRead (packet : string)
| UdpRecv (packet : string)
| TimerTick.

Inductive Output := ToNetwork (packet : string) (addr : SocketAddr) | ToTun (packet : string).

Definition size (s : string) : Z := Z.of_nat (String.length s).

(** One round of [event_loop] at the time [now]: what goes out, and the next
    state, or [None] when the task panics. *)
Definition event_round (now : Z) (ev : LoopEvent) (st : EventLoopState) : option (list Output * EventLoopState) :=
  match ev with
  | TunRead packet =>
      '(r, t) ← encapsulate packet BUFFER (el_tunn st);
      match r with
      | WriteToNetwork out =>
          Some ([ToNetwork out (el_peer_addr st)],
                mkEventLoopState t (el_peer_addr st) (el_last_handshake st) (el_rx_bytes st)
                  (wrap_u64 (el_tx_bytes st + size packet)))
      | _ => Some ([], mkEventLoopState t (el_peer_addr st) (el_last_handshake st) (el_rx_bytes st) (el_tx_bytes st))
      end
  | UdpRecv packet =>
      '(r, t) ← decapsulate packet BUFFER (el_tunn st);
      match r with
      | WriteToTunnelV4 out | WriteToTunnelV6 out =>
          Some ([ToTun out],
                mkEventLoopState t (el_peer_addr st) (Some now) (wrap_u64 (el_rx_bytes st + size out)) (el_tx_bytes st))
      | WriteToNetwork out =>
          Some ([ToNetwork out (el_peer_addr st)],
                mkEventLoopState t (el_peer_addr st) (el_last_handshake st) (el_rx_bytes st)
                  (wrap_u64 (el_tx_bytes st + size packet)))
      | Done | TunnErr =>
          Some ([], mkEventLoopState t (el_peer_addr st) (el_last_handshake st) (el_rx_bytes st) (el_tx_bytes st))
      end
  | TimerTick =>
      '(r, t) ← update_timers BUFFER (el_tunn st);
      match r with
      | WriteToNetwork out =>
          Some ([ToNetwork out (el_peer_addr st)],
                mkEventLoopState t (el_peer_addr st) (el_last_handshake st) (el_rx_bytes st)
                  (wrap_u64 (el_tx_bytes st + size out)))
      | _ => Some ([], mkEventLoopState t (el_peer_addr st) (el_last_handshake st) (el_rx_bytes st) (el_tx_bytes st))
      end
  end.

(** What becomes of the loop [i]: a round, the end after a panic, or the end
    after cancellation; the device is closed with the loop. *)
Definition end_loop (i : nat) (u : Uw) : Uw :=
  mkUw (uw_instance u) (uw_states u) (delete i (uw_loops u)) (uw_cancelled u) (uw_next u) (uw_calls u).

Definition run_loop (now : Z) (i : nat) (ev : LoopEvent) (u : Uw) : list Output * Uw :=
  match uw_loops u !! i, uw_states u !! i with
  | Some _, Some st =>
      if decide (i ∈ uw_cancelled u) then ([], end_loop i u)
      else
        match event_round now ev st with
        | None => ([], end_loop i u)
        | Some (out, st) =>
            (out, mkUw (uw_instance u) (<[i := st]> (uw_states u)) (uw_loops u) (uw_cancelled u) (uw_next u) (uw_calls u))
        end
  | _, _ => ([], u)
  end.
End Userspace.

(** ** The choice (wireguard/mod.rs) *)

Definition select_backend (embedded : bool) : BackendKind := if embedded then Userspace else Kernel.
