(* ===== verification/VpnProps.v ===== *)
(** * What the VPN module promises

    The module says it is connected exactly while the last call of its backend
    that succeeded brought the tunnel up, whatever tasks interleave, over any
    backend, and that is so of the interface too where the backend keeps the
    promise [TunnelPromise]; when the module is down it stays down; and the
    limits of both. *)
From S2P Require Import Prelude.
From S2P Require Import Sdk.
From S2P Require Import VpnAuth.
From S2P Require Import Vpn.
From S2P Require Import VpnModule.
From S2P Require Import VpnBackends.

(** ** What a backend promises *)

(** Of calls that succeed: a successful [apply] leaves the interface up, a
    successful [teardown] down, and reading changes nothing.  Nothing is
    promised of a call that fails. *)
Class TunnelPromise `{WT : WgTypes} {B} (backend : WireGuardBackend B) (iface : string) := {
  interface_up : B → bool;
  promise_apply : ∀ spec b b', wb_apply backend iface spec b = (Ok (), b') → interface_up b' = true;
  promise_stats : ∀ b, interface_up (wb_peer_stats backend iface b).2 = interface_up b;
  promise_teardown : ∀ b b', wb_teardown backend iface b = (Ok (), b') → interface_up b' = false;
}.

(** The userspace backend: an event loop runs for its instance. *)
#[global] Program Instance userspace_promise `{WT : WgTypes} {NO : Noise} (os : TunOs) (iface : string) :
    TunnelPromise (UserspaceBackend os) iface := {|
  interface_up u := bool_decide (is_Some (uw_instance u ≫= λ i, uw_loops u !! i));
|}.
Next Obligation.
  intros WT NO os iface spec u u'. simpl. unfold userspace_apply, eff_bind, tun_open, async_fd, udp_bind.
  intros E. repeat (case_match; simplify_eq/=; try done).
  all: apply bool_decide_eq_true; rewrite lookup_insert_eq; by eexists.
Qed.
Next Obligation. done. Qed.
Next Obligation. by intros WT NO os iface u u' [= <-]. Qed.

(** The kernel backend, as long as its interface can be read exactly when it is
    there. *)
#[global] Program Instance kernel_promise `{WT : WgTypes} {API : WgApi} (iface : string)
    (Hread : ∀ k, is_ok (read_interface_data iface k).1 = has_interface k iface) :
    TunnelPromise KernelBackend iface := {|
  interface_up k := has_interface k iface;
|}.
Next Obligation.
  intros WT API iface Hread spec k k'. simpl. unfold kernel_apply, kernel_prepare, eff_bind, on_api.
  specialize (Hread k). pose proof (read_keeps iface k) as Hk.
  destruct (read_interface_data iface k) as [[peers|e] k0]; simpl in Hread, Hk; subst k0.
  - pose proof (configure_keeps (kernel_configuration iface spec) k iface) as Hc.
    destruct (configure_interface _ k) as [[[]|] k1]; simpl in *; [|done].
    case_decide; [intros [= <-]; by rewrite Hc|].
    pose proof (dns_keeps iface (sp_dns spec) k1 iface) as Hd.
    destruct (configure_dns _ _ k1) as [[[]|] k2]; simpl in *; intros [= <-]. by rewrite Hd, Hc.
  - destruct (create_interface iface k) as [[[]|] k0] eqn:Ec; simpl; [|done]. apply create_makes in Ec.
    pose proof (configure_keeps (kernel_configuration iface spec) k0 iface) as Hc.
    destruct (configure_interface _ k0) as [[[]|] k1]; simpl in *; [|done].
    case_decide; [intros [= <-]; by rewrite Hc|].
    pose proof (dns_keeps iface (sp_dns spec) k1 iface) as Hd.
    destruct (configure_dns _ _ k1) as [[[]|] k2]; simpl in *; intros [= <-]. by rewrite Hd, Hc.
Qed.
Next Obligation.
  intros WT API iface Hread k. simpl. unfold kernel_peer_stats. pose proof (read_keeps iface k) as Hk.
  destruct (read_interface_data iface k) as [[[|peer l]|e] k0]; simpl in *; by subst k0.
Qed.
Next Obligation.
  intros WT API iface Hread k k'. simpl. unfold kernel_teardown, on_api. specialize (Hread k).
  pose proof (read_keeps iface k) as Hk. destruct (read_interface_data iface k) as [[peers|e] k0]; simpl in *; subst k0.
  - destruct (remove_interface iface k) as [[[]|] k0] eqn:Er; intros [= <-]. by eapply remove_removes.
  - by intros [= <-].
Qed.

(** ** The calls a backend has had *)

Inductive DeviceCall := Applied (ok : bool) | TornDown (ok : bool).

(** Up as the last call that succeeded has it. *)
Definition told (up : bool) (c : DeviceCall) : bool :=
  match c with Applied true => true | TornDown true => false | _ => up end.
Definition last_told (calls : list DeviceCall) : bool := foldl told false calls.

(** Whether the last call failed. *)
Definition in_doubt (calls : list DeviceCall) : bool :=
  match last calls with Some (Applied false) | Some (TornDown false) => true | _ => false end.

(** A backend with a record of its calls. *)
Definition traced `{WT : WgTypes} {B} (backend : WireGuardBackend B) : WireGuardBackend (B * list DeviceCall) :=
  mkBackend _ (wb_kind backend)
    (λ i spec x, let '(r, b) := wb_apply backend i spec x.1 in (r, (b, x.2 ++ [Applied (is_ok r)])))
    (λ i x, let '(r, b) := wb_peer_stats backend i x.1 in (r, (b, x.2)))
    (λ i x, let '(r, b) := wb_teardown backend i x.1 in (r, (b, x.2 ++ [TornDown (is_ok r)]))).

Section TracedCalls.
  Context `{WT : WgTypes} {B : Type} (backend : WireGuardBackend B).

Lemma apply_traced i spec x :
  wb_apply (traced backend) i spec x =
    let '(r, b) := wb_apply backend i spec x.1 in (r, (b, x.2 ++ [Applied (is_ok r)])).
Proof. done. Qed.

Lemma stats_traced i x :
  wb_peer_stats (traced backend) i x = let '(r, b) := wb_peer_stats backend i x.1 in (r, (b, x.2)).
Proof. done. Qed.

Lemma teardown_traced i x :
  wb_teardown (traced backend) i x =
    let '(r, b) := wb_teardown backend i x.1 in (r, (b, x.2 ++ [TornDown (is_ok r)])).
Proof. done. Qed.
End TracedCalls.

#[local] Opaque traced.

Lemma last_told_snoc calls c : last_told (calls ++ [c]) = told (last_told calls) c.
Proof. unfold last_told. by rewrite foldl_app. Qed.

Lemma in_doubt_snoc calls c : in_doubt (calls ++ [c]) = match c with Applied ok | TornDown ok => negb ok end.
Proof. unfold in_doubt. rewrite last_snoc. by destruct c as [[]|[]]. Qed.

(** ** The tunnel and its state *)

Section Device.
  Context `{WT : WgTypes} `{AC : AuthCodec} `{VC : VpnCodec} {B : Type}.
  Context (config : ModuleConfig) (base : WireGuardBackend B) `{TP : !TunnelPromise base (mc_interface_name config)}.

Local Abbreviation iface := (mc_interface_name config).
Local Abbreviation backend := (traced base).
Local Abbreviation T := (B * list DeviceCall)%type.

Definition calls (w : Vw T) : list DeviceCall := (vw_backend w).2.

(** The interface is as the calls have it, unless the last one failed. *)
Definition settled (x : T) : Prop := in_doubt x.2 = false → interface_up x.1 = last_told x.2.

(** The last call that succeeded brought the tunnel up exactly when it counts
    as connected, and then there is a key. *)
Definition in_step (w : Vw T) : Prop :=
  last_told (calls w) = vs_connected (vw_vpn w) ∧
  (vs_connected (vw_vpn w) = true ↔ is_Some (vs_private_key (vw_vpn w))) ∧ settled (vw_backend w).

(** A call that leaves the tunnel alone. *)
Definition same_tunnel (w w' : Vw T) : Prop :=
  vw_vpn w' = vw_vpn w ∧ calls w' = calls w ∧ interface_up (vw_backend w').1 = interface_up (vw_backend w).1.

Lemma same_tunnel_in_step w w' : same_tunnel w w' → in_step w → in_step w'.
Proof. intros (Hv & Hc & Hu). unfold in_step, settled, calls in *. by rewrite Hv, Hc, Hu. Qed.

(** What a call leaves. *)
Lemma traced_apply spec x r x' :
  wb_apply backend iface spec x = (r, x') → settled x' ∧ last_told x'.2 = (if is_ok r then true else last_told x.2).
Proof.
  rewrite apply_traced. destruct (wb_apply base iface spec x.1) as [r0 b] eqn:E. intros [= <- <-]. unfold settled. simpl.
  rewrite in_doubt_snoc, last_told_snoc. destruct r0 as [[]|]; simpl; [|done].
  split; [|done]. intros _. by eapply promise_apply.
Qed.

Lemma traced_teardown x r x' :
  wb_teardown backend iface x = (r, x') → settled x' ∧ last_told x'.2 = (if is_ok r then false else last_told x.2).
Proof.
  rewrite teardown_traced. destruct (wb_teardown base iface x.1) as [r0 b] eqn:E. intros [= <- <-]. unfold settled. simpl.
  rewrite in_doubt_snoc, last_told_snoc. destruct r0 as [[]|]; simpl; [|done].
  split; [|done]. intros _. by eapply promise_teardown.
Qed.

Lemma traced_stats x r x' :
  wb_peer_stats backend iface x = (r, x') → x'.2 = x.2 ∧ interface_up x'.1 = interface_up x.1.
Proof.
  rewrite stats_traced. pose proof (promise_stats x.1) as H. destruct (wb_peer_stats base iface x.1) as [r0 b].
  by intros [= <- <-].
Qed.

Lemma on_auth_same {A} (x : eff (TokenState * Env) AuthError A) w : same_tunnel w (on_auth x w).2.
Proof. unfold on_auth. by destruct (x _). Qed.

Lemma fetch_same key w : same_tunnel w (fetch_tunnel_config config key w).2.
Proof. unfold fetch_tunnel_config. case_decide; [done|]. by destruct (send _ _). Qed.

(** Fetching and applying is told to bring the tunnel up only when it
    succeeds. *)
Lemma fetch_and_apply_device key w r w' :
  settled (vw_backend w) → fetch_and_apply config backend key w = (r, w') →
  vw_vpn w' = vw_vpn w ∧ settled (vw_backend w') ∧
  last_told (calls w') = match r with Ok _ => true | Err _ => last_told (calls w) end.
Proof.
  intros Hs. unfold fetch_and_apply, eff_bind. pose proof (fetch_same (key_public key) w) as (Hv & Hc & Hu).
  destruct (fetch_tunnel_config _ _ w) as [[t|e] w1]; simpl in *.
  2: { intros [= <- <-]. split; [done|]. unfold settled, calls in *. by rewrite Hc, Hu. }
  unfold pure. destruct (build_tunnel_spec _ _ t) as [spec|e].
  2: { intros [= <- <-]. split; [done|]. unfold settled, calls in *. by rewrite Hc, Hu. }
  unfold on_backend. destruct (wb_apply backend iface spec (vw_backend w1)) as [r1 b] eqn:E.
  apply traced_apply in E as [Hs1 Hl]. intros [= <- <-]. unfold calls in *. simpl. split; [done|]. split; [done|].
  rewrite Hl, Hc. by destruct r1.
Qed.

Lemma connect_in_step w r w' :
  in_step w → connect config backend w = (r, w') →
  in_step w' ∧ vs_connected (vw_vpn w') = match r with Ok _ => true | Err _ => vs_connected (vw_vpn w) end.
Proof.
  intros Hi. unfold connect. destruct (vs_connected (vw_vpn w)) eqn:Ec; [by intros [= <- <-]|].
  unfold eff_bind, generate_key.
  destruct (fetch_and_apply _ _ _ _) as [r1 w1] eqn:E.
  apply fetch_and_apply_device in E as (Hv & Hs & Hd); [|apply Hi].
  unfold calls in Hd. simpl in Hv, Hd. destruct r1 as [[]|e]; intros [= <- <-]; unfold in_step, calls in *; simpl.
  - rewrite Hd. done.
  - rewrite Hv, Hd. tauto.
Qed.

Lemma disconnect_in_step w r w' :
  in_step w → disconnect config backend w = (r, w') →
  in_step w' ∧ vs_connected (vw_vpn w') = match r with Ok _ => false | Err _ => vs_connected (vw_vpn w) end.
Proof.
  intros Hi. unfold disconnect. destruct (vs_connected (vw_vpn w)) eqn:Ec; [|by intros [= <- <-]].
  unfold eff_bind, on_backend. simpl.
  destruct (wb_teardown backend iface (vw_backend w)) as [r1 x] eqn:E.
  apply traced_teardown in E as [Hs E].
  destruct r1 as [[]|e]; intros [= <- <-]; unfold in_step, calls in *; simpl in *.
  - split; [|done]. rewrite E. split; [done|]. split; [|done]. split; [done|by intros [? ?]].
  - rewrite E. tauto.
Qed.

Lemma rotate_in_step force w r w' :
  in_step w → rotate config backend force w = (r, w') →
  in_step w' ∧ vs_connected (vw_vpn w') = vs_connected (vw_vpn w).
Proof.
  intros Hi. unfold rotate. destruct (vs_private_key (vw_vpn w)) as [key|] eqn:Ek; [|by intros [= <- <-]].
  intros E. apply fetch_and_apply_device in E as (Hv & Hs & Hd); [|apply Hi].
  destruct Hi as (Hu & Hk & _). unfold in_step. rewrite Hv, Hd. split; [|done]. split; [|done].
  destruct r; [|done]. symmetry. apply Hk. by rewrite Ek.
Qed.

Lemma probe_same m : same_tunnel (vm_world m) (vm_world (update_health_probe config backend m)).
Proof.
  unfold update_health_probe. destruct (is_connected _); simpl; [|done].
  unfold lift_vpn, peer_stats, on_backend.
  destruct (wb_peer_stats backend iface (vw_backend (vm_world m))) as [r b] eqn:E. apply traced_stats in E as [Ec Eu].
  destruct r as [stats|]; simpl; [|done]. by repeat case_match.
Qed.

(** ** Every step *)

Lemma lift_vpn_world {A} (x : eff (Vw T) VpnError A) m : vm_world (lift_vpn x m).2 = (x (vm_world m)).2.
Proof. unfold lift_vpn. by destruct (x _). Qed.
Lemma lift_auth_world {A} (x : eff (TokenState * Env) AuthError A) (m : Vm T) :
  vm_world (lift_auth x m).2 = (on_auth x (vm_world m)).2.
Proof. unfold lift_auth. by destruct (on_auth x (vm_world m)). Qed.

Lemma lift_auth_same {A} (x : eff (TokenState * Env) AuthError A) (m : Vm T) :
  same_tunnel (vm_world m) (vm_world (lift_auth x m).2).
Proof. rewrite lift_auth_world. apply on_auth_same. Qed.

Lemma lift_vpn_in_step {A} (x : eff (Vw T) VpnError A) m :
  (∀ w r w', in_step w → x w = (r, w') → in_step w') →
  in_step (vm_world m) → in_step (vm_world (lift_vpn x m).2).
Proof. intros Hx Hi. rewrite lift_vpn_world. eapply Hx; [exact Hi|apply surjective_pairing]. Qed.

Lemma establish_token_same m : same_tunnel (vm_world m) (vm_world (establish_token config m).2).
Proof.
  unfold establish_token. pose proof (lift_auth_same (ensure_valid_token (mc_manager_url config)) m).
  by destruct (lift_auth _ m).
Qed.

Lemma establish_connect_in_step m :
  in_step (vm_world m) → in_step (vm_world (establish_connect config backend m).2).
Proof.
  intros Hi. unfold establish_connect.
  assert (in_step (vm_world (lift_vpn (connect config backend) m).2)) as H
    by (apply lift_vpn_in_step; [|done]; intros; by eapply connect_in_step).
  by destruct (lift_vpn _ m) as [[] m1].
Qed.

Lemma run_connect_in_step who next m :
  in_step (vm_world m) → in_step (vm_world (run_connect config backend who next m).2).
Proof.
  intros Hi. destruct next; simpl.
  - by destruct (vm_running m), who.
  - pose proof (same_tunnel_in_step _ _ (establish_token_same m) Hi) as H.
    by destruct (establish_token config m) as [[] m1], who.
  - pose proof (establish_connect_in_step m Hi) as H.
    by destruct (establish_connect config backend m) as [[] m1], who.
Qed.

Lemma run_stop_in_step next m :
  in_step (vm_world m) → in_step (vm_world (run_stop config backend next m).2).
Proof.
  intros Hi. destruct next; simpl.
  - unfold stop_disconnect.
    assert (in_step (vm_world (lift_vpn (disconnect config backend) m).2)) as H
      by (apply lift_vpn_in_step; [|done]; intros; by eapply disconnect_in_step).
    by destruct (lift_vpn _ m) as [[] m1].
  - unfold stop_revoke.
    pose proof (same_tunnel_in_step _ _ (lift_auth_same (revoke_send (mc_manager_url config)) m) Hi) as H.
    by destruct (lift_auth _ m) as [[] m1].
  - unfold stop_forget. pose proof (same_tunnel_in_step _ _ (lift_auth_same (revoke_clear sent) m) Hi) as H.
    by destruct (lift_auth _ m) as [[] m1].
Qed.

Lemma establish_in_step m :
  in_step (vm_world m) → in_step (vm_world (establish_tunnel config backend m).2).
Proof.
  intros Hi. unfold establish_tunnel, eff_bind, establish_check. destruct (vm_running m); simpl; [|done].
  pose proof (same_tunnel_in_step _ _ (establish_token_same m) Hi) as H.
  destruct (establish_token config m) as [[] m1]; [|done]. by apply establish_connect_in_step.
Qed.

Lemma dispatch_in_step path flags m :
  in_step (vm_world m) → in_step (vm_world (dispatch config backend path flags m).2).
Proof.
  intros Hi. unfold dispatch. destruct (head path) as [command|]; [|done].
  case_decide.
  { unfold cmd_connect. pose proof (establish_in_step m Hi). by destruct (establish_tunnel _ _ m) as [[] m1]. }
  case_decide.
  { unfold cmd_disconnect.
    assert (in_step (vm_world (lift_vpn (disconnect config backend) m).2)) as Hd
      by (apply lift_vpn_in_step; [|done]; intros; by eapply disconnect_in_step).
    by destruct (lift_vpn _ m) as [[] m1]. }
  case_decide; [done|]. case_decide; [|done].
  unfold cmd_rotate.
  assert (in_step (vm_world (lift_vpn (rotate config backend (flag_set "force" flags)) m).2)) as Hr
    by (apply lift_vpn_in_step; [|done]; intros; by eapply rotate_in_step).
  by destruct (lift_vpn _ m) as [[] m1].
Qed.

Lemma refresh_tick_same m : same_tunnel (vm_world m) (vm_world (refresh_tick config m)).
Proof.
  unfold refresh_tick. destruct (negb _); [done|].
  pose proof (lift_auth_same (ensure_valid_token (mc_manager_url config))
    (log "token expiring soon, refreshing..." m)).
  by destruct (lift_auth _ _) as [[] m1].
Qed.

Lemma step_in_step m m' : step config backend m m' → in_step (vm_world m) → in_step (vm_world m').
Proof.
  intros Hs Hi.
  destruct Hs as [m|m Hb|m l1 l2 next Ht|m l1 l2 who next Ht|m t Ht Hc m'|m t Ht Hc|m l1 l2 t x Ht Hc Hx|m|m path flags Hp|m t].
  - unfold start. destruct (vm_running m); [done|]. simpl.
    match goal with |- context [update_health_probe _ _ ?x] => set (m1 := x) end.
    by apply (same_tunnel_in_step _ _ (probe_same m1)).
  - unfold stop_begin. by destruct (vm_running m).
  - by apply run_stop_in_step.
  - by apply run_connect_in_step.
  - pose proof (same_tunnel_in_step _ _ (probe_same m) Hi) as H. by destruct (is_connected _).
  - by apply (same_tunnel_in_step _ _ (refresh_tick_same m)).
  - done.
  - done.
  - by apply dispatch_in_step.
  - done.
Qed.

Lemma initialised_in_step e b : interface_up b = false → in_step (vm_world (initialised e (b, []))).
Proof.
  intros Hb. unfold initialised. destruct (auth_new e). split; [done|]. split; [split; [done|by intros [? ?]]|]. by intros _.
Qed.

Lemma reachable_in_step e b m :
  interface_up b = false → rtc (step config backend) (initialised e (b, [])) m → in_step (vm_world m).
Proof.
  intros Hb Hr. eapply (rtc_ind_r (λ m, in_step (vm_world m))); [by apply initialised_in_step| |exact Hr].
  intros m1 m2 _ Hs Hi. by eapply step_in_step.
Qed.


(** ** A module that is down *)

(** Stopped, disconnected, and no connection past its first check. *)
Record quiet (m : Vm T) : Prop := mkQuiet {
  qu_running : vm_running m = false;
  qu_connected : vs_connected (vw_vpn (vm_world m)) = false;
  qu_connecting : ∀ who next, Connecting who next ∈ vm_tasks m → next = ToCheck;
}.

Definition idle (m : Vm T) : Prop := ∀ who next, Connecting who next ∈ vm_tasks m → next = ToCheck.

Lemma probe_keeps m :
  vm_running (update_health_probe config backend m) = vm_running m ∧
  vm_tasks (update_health_probe config backend m) = vm_tasks m.
Proof.
  unfold update_health_probe, lift_vpn. destruct (is_connected _); [|done]. simpl.
  destruct (peer_stats _ _ _) as [[stats|] w]; [|done]. by repeat case_match.
Qed.

Lemma lift_keeps {A} (x : eff (TokenState * Env) AuthError A) (m : Vm T) :
  vm_running (lift_auth x m).2 = vm_running m ∧ vm_tasks (lift_auth x m).2 = vm_tasks m.
Proof. unfold lift_auth. by destruct (on_auth x (vm_world m)). Qed.

Lemma refresh_tick_keeps (m : Vm T) :
  vm_running (refresh_tick config m) = vm_running m ∧ vm_tasks (refresh_tick config m) = vm_tasks m.
Proof.
  unfold refresh_tick. destruct (negb _); [done|].
  pose proof (lift_keeps (ensure_valid_token (mc_manager_url config)) (log "token expiring soon, refreshing..." m)).
  by destruct (lift_auth _ _) as [[] m1].
Qed.

Lemma run_stop_keeps next m :
  vs_connected (vw_vpn (vm_world m)) = false →
  let m' := (run_stop config backend next m).2 in
  vm_running m' = vm_running m ∧ vs_connected (vw_vpn (vm_world m')) = false.
Proof.
  intros Hc. destruct next; simpl.
  - unfold stop_disconnect, lift_vpn, disconnect. rewrite Hc. done.
  - unfold stop_revoke. pose proof (lift_keeps (revoke_send (mc_manager_url config)) m) as [? _].
    pose proof (lift_auth_same (revoke_send (mc_manager_url config)) m) as [Hv _].
    destruct (lift_auth _ m) as [[] m1]; simpl in *; by rewrite Hv.
  - unfold stop_forget. pose proof (lift_keeps (revoke_clear sent) m) as [? _].
    pose proof (lift_auth_same (revoke_clear sent) m) as [Hv _].
    destruct (lift_auth _ m) as [[] m1]; simpl in *; by rewrite Hv.
Qed.

Lemma dispatch_quiet path flags m :
  head path ≠ Some "connect" → in_step (vm_world m) → vs_connected (vw_vpn (vm_world m)) = false →
  let m' := (dispatch config backend path flags m).2 in
  vm_running m' = vm_running m ∧ vm_tasks m' = vm_tasks m ∧ vs_connected (vw_vpn (vm_world m')) = false.
Proof.
  intros Hp (_ & Hk & _) Hc. unfold dispatch. destruct (head path) as [command|]; [|done].
  case_decide; [congruence|]. case_decide.
  { unfold cmd_disconnect, lift_vpn, disconnect. rewrite Hc. done. }
  case_decide; [done|]. case_decide; [|done].
  unfold cmd_rotate, lift_vpn, rotate.
  destruct (vs_private_key (vw_vpn (vm_world m))) as [key|]; [|done].
  rewrite Hc in Hk. destruct Hk as [_ Hk]. discriminate (Hk (mk_is_Some _ _ eq_refl)).
Qed.

Lemma quiet_step m m' :
  quiet m → in_step (vm_world m) → step config backend m m' → vm_running m' = false → quiet m'.
Proof.
  intros [Hr Hc Ht] Hi Hs Hr'.
  destruct Hs as [m|m Hb|m l1 l2 next Hl|m l1 l2 who next Hl|m t Hin Hnc m'|m t Hin Hnc|m l1 l2 t x Hl Hx Ho|m|m path flags Hp|m t].
  - exfalso. revert Hr'. unfold start. rewrite Hr. simpl.
    match goal with |- context [update_health_probe _ _ ?x] => pose proof (probe_keeps x) as [-> _] end. done.
  - unfold stop_begin in Hb. by rewrite Hr in Hb.
  - pose proof (run_stop_keeps next m Hc) as [_ Hc']. split; [done|done|]. simpl. intros who n Hin. apply (Ht who).
    rewrite Hl. destruct (run_stop config backend next m).1; simpl in Hin; set_solver.
  - assert (next = ToCheck) as ->; [apply (Ht who); rewrite Hl; set_solver|].
    simpl. rewrite Hr. simpl. split; [by destruct who|by destruct who|]. simpl. intros who' n Hin. apply (Ht who').
    rewrite Hl. set_solver.
  - pose proof (probe_keeps m) as [_ Hpt]. pose proof (probe_same m) as [Hv _]. subst m'.
    destruct (is_connected _); (split; [done|by simpl; rewrite Hv|]); simpl; rewrite Hpt; [done|].
    intros who n Hn. apply elem_of_cons in Hn as [[= -> ->]|Hn]; [done|by apply (Ht who)].
  - destruct (refresh_tick_keeps m) as [_ Hpt]. destruct (refresh_tick_same m) as [Hv _].
    split; [done|by rewrite Hv|]. rewrite Hpt. done.
  - split; [done|done|]. simpl. intros who n Hn. apply (Ht who). rewrite Hl. set_solver.
  - split; [done|done|]. simpl. intros who n Hn.
    apply elem_of_cons in Hn as [[= -> ->]|Hn]; [done|by apply (Ht who)].
  - destruct (dispatch_quiet path flags m Hp Hi Hc) as (_ & Hpt & Hc'). split; [done|done|]. by rewrite Hpt.
  - split; done.
Qed.

Lemma stop_quiet m m' :
  in_step (vm_world m) → vm_running m = true → idle m → stop config backend m = (Ok (), m') →
  quiet m' ∧ in_step (vm_world m') ∧ ts_access_token (vw_tokens (vm_world m')) = "".
Proof.
  intros Hi Hr Hid. unfold stop, stop_begin. rewrite Hr. cbn [negb].
  match goal with |- context [stop_disconnect _ _ ?x] => set (m0 := x) end.
  assert (in_step (vm_world m0)) as Hi0 by done. assert (vm_running m0 = false) as Hr0 by done.
  assert (vm_tasks m0 = vm_tasks m) as Ht0 by done. clearbody m0.
  unfold stop_disconnect, lift_vpn. destruct (disconnect config backend (vm_world m0)) as [r1 w1] eqn:E1.
  apply disconnect_in_step in E1 as [Hi1 Hc1]; [|done].
  destruct r1 as [[]|e]; cbv beta iota zeta.
  2: { destruct (stop_revoke _ _) as [[errors2 sent] m2]. destruct errors2; intros [= ?]. }
  set (m1 := set_world w1 m0). unfold stop_revoke, lift_auth, on_auth, revoke_send.
  case_decide as Hempty; cbv beta iota zeta.
  - unfold stop_forget, lift_auth, on_auth, revoke_clear. simpl. intros [= <-]. simpl.
    split; [|done]. split; [done|done|]. simpl. by rewrite Ht0.
  - destruct (send _ _) as [reply e1]. destruct reply as [err|status err|status body]; simpl; [done|..];
      destruct (is_success status); simpl; try done; unfold stop_forget, lift_auth, on_auth, revoke_clear; simpl;
      destruct (secret_delete ACCESS_TOKEN_KEY e1) as [? e2]; destruct (secret_delete REFRESH_TOKEN_KEY e2) as [? e3];
      intros [= <-]; simpl; (split; [|done]); (split; [done|done|]); simpl; by rewrite Ht0.
Qed.

(** When the module is stopped with success while no connection attempt
    has got past its first check, it is disconnected, the token gone, and
    it stays disconnected through whatever happens until the module is started
    again: ticks of the loops, connect and rotate commands, the ends of the
    tasks.  The interface is down then, unless the last [apply] or [teardown]
    failed. *)
Theorem stop_is_final_when_idle (e : Env) (b : B) (m m1 m2 : Vm T) :
  interface_up b = false → rtc (step config backend) (initialised e (b, [])) m →
  vm_running m = true → idle m → stop config backend m = (Ok (), m1) →
  ts_access_token (vw_tokens (vm_world m1)) = "" ∧
  (rtc (λ x y, step config backend x y ∧ vm_running y = false) m1 m2 →
   is_connected (vm_world m2) = false ∧
   (in_doubt (calls (vm_world m2)) = false → interface_up (vw_backend (vm_world m2)).1 = false)).
Proof.
  intros Hb Hreach Hr Hid E. apply stop_quiet in E as (Hq & Hi & Htok);
    [|by eapply reachable_in_step|done|done]. split; [done|]. intros Hs.
  assert (quiet m2 ∧ in_step (vm_world m2)) as [[_ Hc _] (Hu & _ & Hset)].
  { eapply (rtc_ind_r (λ m, quiet m ∧ in_step (vm_world m))); [done| |exact Hs].
    intros x y _ [Hxy Hy] [Hqx Hix]. split; [by eapply quiet_step|by eapply step_in_step]. }
  unfold is_connected. split; [done|]. intros Hd. unfold calls in *. by rewrite (Hset Hd), Hu.
Qed.
End Device.

(** ** Limits *)

Section Limits.
  Context `{WT : WgTypes} `{AC : AuthCodec} `{VC : VpnCodec} {B : Type}.
  Context (config : ModuleConfig) (backend : WireGuardBackend B).

Lemma ensure_valid_noop s : valid_now s → ensure_valid_token (mc_manager_url config) s = (Ok (), s).
Proof.
  intros Hv. destruct s as [state e]. unfold ensure_valid_token.
  pose proof (valid_now_check (state, e)) as E. cbn [fst snd] in E. rewrite E, bool_decide_true by done. done.
Qed.

Lemma lift_ensure_noop (m : Vm B) :
  valid_now (vw_tokens (vm_world m), vw_env (vm_world m)) →
  lift_auth (ensure_valid_token (mc_manager_url config)) m = (Ok (), m).
Proof.
  intros Hv. unfold lift_auth, on_auth. rewrite ensure_valid_noop by done.
  by destruct m as [?????? [] ??].
Qed.

(** The refresh loop never refreshes a token ahead of time: in the five
    minutes before the expiry each tick finds the token still valid, sends
    nothing and changes neither the token nor the store, and counts and logs a
    refresh all the same. *)
Theorem refresh_counted_not_done (m : Vm B) :
  let w := vm_world m in
  valid_now (vw_tokens w, vw_env w) →
  (ts_expires_at (vw_tokens w) - now m < AUTH_REFRESH_THRESHOLD)%Z →
  let m' := refresh_tick config m in
  vm_world m' = w ∧ token_refreshes (vm_metrics m') = (token_refreshes (vm_metrics m) + 1)%Z ∧
  vm_log m' = vm_log m ++ ["token expiring soon, refreshing..."; "token refreshed"].
Proof.
  intros w Hv Hexp. unfold refresh_tick, is_token_expired. cbn [fst snd]. pose proof Hv as [Hne Hle].
  cbn [fst snd] in *. fold w. rewrite decide_False by done. unfold is_expired_at.
  unfold now in Hexp. fold w in Hexp.
  rewrite (proj2 (Z.leb_le _ _)), (proj2 (Z.ltb_lt _ _)) by done. cbn [negb].
  rewrite lift_ensure_noop by done. cbn. by rewrite <- app_assoc.
Qed.

(** A disconnection by command does not last: as long as the token is
    valid and the manager and the backend do their part, the next tick of the
    monitor, ten seconds later at most, connects again. *)
Theorem disconnect_does_not_last (flags : gmap string string) (m m1 : Vm B) (result : CommandResult) (w2 : Vw B) :
  vm_running m = true → is_connected (vm_world m) = true →
  dispatch config backend ["disconnect"] flags m = (result, m1) → cr_exit_code result = 0%Z →
  valid_now (vw_tokens (vm_world m1), vw_env (vm_world m1)) → connect config backend (vm_world m1) = (Ok (), w2) →
  cr_output result = "disconnected" ∧ is_connected (vm_world m1) = false ∧
  is_connected (vm_world (monitor_tick config backend m1)) = true.
Proof.
  intros Hr Hc E Hx Hv Hcon. revert E. unfold dispatch. simpl. unfold cmd_disconnect, lift_vpn.
  destruct (disconnect config backend (vm_world m)) as [r w] eqn:Ed.
  assert (∀ r0, r = Ok r0 → vs_connected (vw_vpn w) = false) as Hdown.
  { intros r0 ->. revert Ed. unfold disconnect. unfold is_connected in Hc. rewrite Hc. simpl.
    unfold eff_bind, on_backend. destruct (wb_teardown _ _ _) as [[] b]; simpl; [by intros [= _ <-]|done]. }
  destruct r as [[]|err]; intros [= <- <-]; [|done]. simpl in *. specialize (Hdown _ eq_refl).
  split; [done|]. unfold is_connected. split; [done|].
  assert (vs_connected (vw_vpn w2) = true) as Hup.
  { revert Hcon. unfold connect. rewrite Hdown. unfold eff_bind.
    destruct (generate_key w) as [[key|] w3]; [|done].
    destruct (fetch_and_apply _ _ _ _) as [[] w4]; [by intros [= <-]|done]. }
  unfold monitor_tick, update_health_probe, is_connected. simpl. rewrite Hdown. cbn [negb]. simpl. rewrite Hdown.
  unfold establish_tunnel, eff_bind, establish_check. cbn [vm_running set_health set_metrics set_world]. rewrite Hr.
  cbn [negb]. unfold establish_token. rewrite lift_ensure_noop by done. cbn [map_err].
  unfold establish_connect, lift_vpn. cbn [vm_world set_health set_metrics set_world]. rewrite Hcon. exact Hup.
Qed.
End Limits.

(** *** What leaves the tunnel alone, whatever the backend *)

Section Alone.
  Context `{WT : WgTypes} `{AC : AuthCodec} `{VC : VpnCodec} {B : Type}.
  Context (config : ModuleConfig) (backend : WireGuardBackend B).

Lemma lift_auth_tunnel {A} (x : eff (TokenState * Env) AuthError A) (m : Vm B) :
  vw_vpn (vm_world (lift_auth x m).2) = vw_vpn (vm_world m) ∧
  vw_backend (vm_world (lift_auth x m).2) = vw_backend (vm_world m).
Proof. unfold lift_auth, on_auth. by destruct (x _). Qed.

Lemma stop_forget_tunnel sent (m : Vm B) :
  vw_vpn (vm_world (stop_forget sent m)) = vw_vpn (vm_world m) ∧
  vw_backend (vm_world (stop_forget sent m)) = vw_backend (vm_world m).
Proof.
  unfold stop_forget. pose proof (lift_auth_tunnel (revoke_clear sent) m). by destruct (lift_auth _ m).
Qed.

Lemma stop_revoke_tunnel (m : Vm B) :
  vw_vpn (vm_world (stop_revoke config m).2) = vw_vpn (vm_world m) ∧
  vw_backend (vm_world (stop_revoke config m).2) = vw_backend (vm_world m).
Proof.
  unfold stop_revoke. pose proof (lift_auth_tunnel (revoke_send (mc_manager_url config)) m).
  by destruct (lift_auth _ m) as [[] ?].
Qed.

(** Stopping a disconnected module does not touch the backend. *)
Lemma stop_disconnected (m : Vm B) :
  vs_connected (vw_vpn (vm_world m)) = false →
  vw_vpn (vm_world (stop config backend m).2) = vw_vpn (vm_world m) ∧
  vw_backend (vm_world (stop config backend m).2) = vw_backend (vm_world m).
Proof.
  intros Hc. unfold stop, stop_begin. destruct (vm_running m); cbn [negb]; [|done].
  match goal with |- context [stop_disconnect _ _ ?x] => set (m0 := x) end.
  assert (vw_vpn (vm_world m0) = vw_vpn (vm_world m) ∧ vw_backend (vm_world m0) = vw_backend (vm_world m)) as [Hv0 Hb0]
    by done. clearbody m0.
  unfold stop_disconnect, lift_vpn, disconnect. rewrite Hv0, Hc. cbn [negb].
  pose proof (stop_revoke_tunnel (set_world (vm_world m0) m0)) as [Hv1 Hb1].
  destruct (stop_revoke _ _) as [[errors sent] m1]. cbn [snd vm_world set_world] in Hv1, Hb1.
  pose proof (stop_forget_tunnel sent m1) as [Hv2 Hb2].
  destruct ([] ++ errors); cbn [snd]; rewrite Hv2, Hb2, Hv1, Hb1; done.
Qed.

Lemma fetch_keeps key (w : Vw B) :
  vw_backend (fetch_tunnel_config config key w).2 = vw_backend w ∧
  vw_vpn (fetch_tunnel_config config key w).2 = vw_vpn w ∧
  ∀ err, (fetch_tunnel_config config key w).1 ≠ Err (Backend err).
Proof.
  unfold fetch_tunnel_config. case_decide; [done|]. destruct (send _ _) as [reply env].
  split_and!; [done|done|]. intros err. destruct reply; simpl; [done|done|].
  destruct (negb _); [done|]. by destruct (decode_tunnel _).
Qed.

Lemma parse_fields_not_backend {T} (p : string → option T) f l x : parse_fields p f l ≠ Err (Backend x).
Proof.
  induction l as [|raw l IH]; [done|]. cbn [parse_fields]. unfold parse_field.
  destruct (p raw); [|done]. simpl. by destruct (parse_fields p f l).
Qed.

Lemma build_not_backend key t e : build_tunnel_spec config key t = Err (Backend e) → False.
Proof.
  unfold build_tunnel_spec, parse_field. destruct (mask_parse _); [|done]. simpl.
  destruct (key_try_from _); [|done]. simpl. destruct (socket_addr_parse _); [|done]. simpl.
  destruct (parse_fields mask_parse _ _) eqn:E1; simpl; [|intros [= ->]; by eapply parse_fields_not_backend].
  destruct (parse_fields ip_addr_parse _ _) eqn:E2; simpl; [done|intros [= ->]; by eapply parse_fields_not_backend].
Qed.
End Alone.

(** ** The kernel backend *)

Section KernelLimits.
  Context `{WT : WgTypes} `{AC : AuthCodec} `{VC : VpnCodec} {API : WgApi} (config : ModuleConfig).

Local Abbreviation iface := (mc_interface_name config).

(** Once the interface is there, nothing [apply] does takes it away. *)
Lemma kernel_apply_leaves i spec k k1 :
  (∀ k2 peers, (read_interface_data i k2).1 = Ok peers → has_interface k2 i = true) →
  kernel_prepare i k = (Ok (), k1) → has_interface (kernel_apply i spec k).2 i = true.
Proof.
  intros Hread Ep. assert (has_interface k1 i = true) as Hk1.
  { revert Ep. unfold kernel_prepare, on_api. pose proof (read_keeps i k) as Hk. specialize (Hread k).
    destruct (read_interface_data i k) as [[peers|e] k0]; simpl in *; subst k0.
    - intros [= <-]. by eapply Hread.
    - destruct (create_interface i k) as [[[]|] k0] eqn:Ec; simpl; [|done]. intros [= <-]. by eapply create_makes. }
  unfold kernel_apply, eff_bind. rewrite Ep. unfold on_api at 1.
  pose proof (configure_keeps (kernel_configuration i spec) k1 i) as Hcfg. rewrite Hk1 in Hcfg.
  destruct (configure_interface _ k1) as [[[]|] k2]; simpl in *; [|done]. case_decide; [done|].
  unfold on_api. pose proof (dns_keeps i (sp_dns spec) k2 i) as Hd. rewrite Hcfg in Hd.
  by destruct (configure_dns _ _ k2).
Qed.

(** A connection that fails in the kernel backend after the interface was
    created, because configuring it or its name servers fails, leaves the
    interface behind: the module counts as disconnected and says the tunnel is
    down, and stopping it does not remove the interface. *)
Theorem failed_connect_leaks_interface (m : Vm KState) (w1 : Vw KState) (e : WgBackendError) :
  (∀ k peers, (read_interface_data iface k).1 = Ok peers → has_interface k iface = true) →
  is_connected (vm_world m) = false → connect config KernelBackend (vm_world m) = (Err (Backend e), w1) →
  is_ok (kernel_prepare iface (vw_backend (vm_world m))).1 = true →
  let '(_, m2) := stop config KernelBackend (set_world w1 m) in
  has_interface (vw_backend (vm_world m2)) iface = true ∧ st_detail (status config m2) !! "tunnel" = Some "down".
Proof.
  intros Hread Hc Ec Hp.
  assert (vs_connected (vw_vpn w1) = false ∧ has_interface (vw_backend w1) iface = true) as [Hc1 Hh].
  { destruct (kernel_prepare iface (vw_backend (vm_world m))) as [[[]|] k1] eqn:Ep; [|done].
    revert Ec. unfold connect, is_connected in *. rewrite Hc. unfold eff_bind, generate_key, fetch_and_apply, eff_bind.
    match goal with |- context [fetch_tunnel_config config ?k ?x] =>
      pose proof (fetch_keeps config k x) as (Hb & Hv & Hne) end.
    destruct (fetch_tunnel_config _ _ _) as [[t|e0] w2]; cbn [fst snd] in *; [|intros [= -> <-]; by destruct (Hne e)].
    unfold pure. destruct (build_tunnel_spec _ _ _) as [spec|e1] eqn:Eb; [|intros [= -> <-]; by apply build_not_backend in Eb].
    unfold on_backend. pose proof (kernel_apply_leaves iface spec _ _ Hread Ep) as Hleft.
    cbn [vw_backend vw_vpn] in Hb, Hv. rewrite <- Hb in Hleft. cbn [wb_apply KernelBackend].
    destruct (kernel_apply iface spec (vw_backend w2)) as [[[]|e1] k2]; intros [= <- <-]. cbn in *. by rewrite Hv. }
  pose proof (stop_disconnected config KernelBackend (set_world w1 m) Hc1) as [Hv Hb].
  destruct (stop _ _ _) as [r m2]. cbn [snd vm_world set_world] in Hv, Hb. split; [by rewrite Hb|].
  unfold status, is_connected. rewrite Hv, Hc1. done.
Qed.
End KernelLimits.

(** ** The userspace backend *)

Section UserspaceLimits.
  Context `{WT : WgTypes} `{AC : AuthCodec} {NO : Noise} (config : ModuleConfig) (os : TunOs).

Local Abbreviation iface := (mc_interface_name config).

(** With the userspace backend the rotation of a live tunnel always fails:
    applying opens the TUN device of that name a second time while the running
    loop still holds it. *)
Theorem userspace_rotate_fails (force : bool) (w : Vw Uw) (i : nat) :
  uw_instance (vw_backend w) = Some i → uw_loops (vw_backend w) !! i = Some iface →
  let '(r, w') := rotate config (UserspaceBackend os) force w in
  is_ok r = false ∧ uw_instance (vw_backend w') = Some i ∧ uw_loops (vw_backend w') = uw_loops (vw_backend w).
Proof.
  intros Hi Hl. unfold rotate. destruct (vs_private_key (vw_vpn w)) as [key|]; [|done].
  unfold fetch_and_apply, eff_bind.
  pose proof (fetch_keeps config (key_public key) w) as (Hb & _).
  destruct (fetch_tunnel_config _ _ w) as [[t|e] w1]; simpl in Hb; [|by rewrite Hb].
  unfold pure. destruct (build_tunnel_spec _ _ t) as [spec|e]; [|by rewrite Hb].
  unfold on_backend. simpl. unfold userspace_apply, eff_bind, tun_open.
  assert (device_busy iface (vw_backend w1) = true) as Hbusy.
  { rewrite Hb. unfold device_busy. apply bool_decide_eq_true. by exists i, iface. }
  destruct (negb (to_open os _)); [by simpl; rewrite Hb|]. destruct (16 <=? _); [by simpl; rewrite Hb|].
  rewrite Hbusy. simpl. by rewrite Hb.
Qed.

(** A packet longer than 1468 bytes read from the TUN device of an
    established tunnel ends its event loop: it does not fit the buffer of 1500
    bytes with the 32 bytes of overhead, and the encapsulation panics.  The
    backend goes on reporting the last statistics as if the loop ran. *)
Theorem full_packet_ends_tunnel (now : Z) (i : nat) (packet : string) (u : Uw) (st : EventLoopState) (name : string) :
  uw_loops u !! i = Some name → uw_states u !! i = Some st → i ∉ uw_cancelled u →
  has_session (el_tunn st) = true → 1468 < String.length packet →
  let '(out, u') := run_loop now i (TunRead packet) u in
  out = [] ∧ uw_loops u' !! i = None ∧ (∀ later ev, run_loop later i ev u' = ([], u')) ∧
  (userspace_peer_stats iface u').1 = (userspace_peer_stats iface u).1 ∧ uw_instance u' = uw_instance u.
Proof.
  intros Hl Hs Hc Hses Hlen. unfold run_loop. rewrite Hl, Hs, decide_False by done. cbn [event_round].
  rewrite encapsulate_small by (done || (unfold BUFFER; lia)). cbn. split_and!; [done|apply lookup_delete_eq| |done|done].
  intros later ev. by rewrite lookup_delete_eq.
Qed.
End UserspaceLimits.

(** ** The VPN module at work

    A manager that gives out a token and a tunnel, a machine on which every
    call succeeds, and the runs that show the module's limits. *)

Module VpnWitness.

#[local] Instance tokens : AuthCodec := {|
  decode_token body := if decide (body = "token") then Ok (mkTokenResponse "jwt" "" (Some 1000%Z)) else Err "expected value";
  jwt_exp _ := None;
  lossy s := s;
|}.

Definition tunnel : TunnelConfigResponse :=
  mkTunnelConfig "10.0.0.2/32" "server" "203.0.113.7:51820" [] ["10.0.0.1"].

#[local] Instance types : WgTypes := {|
  Key := nat; key_generate n := n; key_public k := k; key_to_string _ := "key"; key_try_from _ := Some 7;
  IpAddrMask := string; mask_parse := Some; decode_tunnel _ := Ok tunnel; debug_text s := s;
|}.

#[local] Instance documents : VpnCodec := {| config_from_slice _ := Err "unexpected document"; to_vec _ := Ok "{}" |}.

(** A session from the beginning. *)
#[local] Program Instance noise : Noise := {|
  Tunn := unit; tunn_new _ _ _ := ();
  encapsulate p room t := if room <? String.length p + 32 then None else Some (WriteToNetwork p, t);
  decapsulate p room t := Some (WriteToTunnelV4 p, t);
  update_timers room t := Some (Done, t);
  has_session _ := true;
|}.
Next Obligation. intros p room [] _ Hr. by rewrite (proj2 (Nat.ltb_lt _ _)). Qed.

Definition config : ModuleConfig := mkModuleConfig "https://manager" "node-1" "wg0" 1420 [] 25 [] true.

(** Every request is answered within a second. *)
Definition answer (n : nat) (c : Call) : HttpReply * Z :=
  (Replied 200 (match c with PostApiKey _ _ | PostRefresh _ _ => "token" | _ => "{}" end), 1000000000%Z).

Definition env : Env := mkEnv (mkNet 0 [] answer) (mkStore {["api_key" := "secret"]} 0 (λ _, None)).
Definition system : TunOs := mkTunOs (λ _, true) (λ _, true) (λ _, None) (λ _, None).
Definition machine : Uw := mkUw None ∅ ∅ ∅ 0 0.

Local Abbreviation userspace := (UserspaceBackend system).
Local Abbreviation steps := (rtc (step config userspace)).

Definition ready : Vm Uw := initialised env machine.
Definition started : Vm Uw := (start config userspace ready).2.

(** The next part of the first connection, and of a stop. *)
Definition connecting_on {B} (backend : WireGuardBackend B) (l1 l2 : list Task) (next : ConnectPhase)
    (m : Vm B) : Vm B :=
  replace_task l1 l2 (Connecting Initial <$> (run_connect config backend Initial next m).1)
    (run_connect config backend Initial next m).2.
Local Abbreviation connecting := (connecting_on userspace).
Definition stopping (l1 l2 : list Task) (next : StopPhase) (m : Vm Uw) : Vm Uw :=
  replace_task l1 l2 (Stopping <$> (run_stop config userspace next m).1) (run_stop config userspace next m).2.

Local Abbreviation loops := [MonitorLoop 0; RefreshLoop 0].

Definition checked : Vm Uw := connecting loops [] ToCheck started.
Definition authenticated : Vm Uw := connecting loops [] ToToken checked.
Definition connected : Vm Uw := connecting loops [] ToConnect authenticated.

Lemma ready_connected : steps ready connected.
Proof.
  eapply rtc_l; [apply step_start|]. fold started.
  eapply rtc_l; [apply (step_connecting _ _ started loops [] Initial ToCheck); vm_compute; reflexivity|]. fold (connecting loops [] ToCheck started). fold checked.
  eapply rtc_l; [apply (step_connecting _ _ checked loops [] Initial ToToken); vm_compute; reflexivity|].
  eapply rtc_l; [apply (step_connecting _ _ authenticated loops [] Initial ToConnect); vm_compute; reflexivity|].
  apply rtc_refl.
Qed.

(** No token yet: the API key is used. *)
Lemma token_kept_or_renewed_witness :
  ∃ key, sent_more [PostApiKey "https://manager/api/v1/auth/token" key] env
    (ensure_valid_token "https://manager" (TokenState_default, env)).2.2.
Proof.
  assert (ensure_valid_token "https://manager" (TokenState_default, env) =
    (Ok (), (mkTokenState "jwt" "" 1000000000000,
             (ensure_valid_token "https://manager" (TokenState_default, env)).2.2))) as E by (vm_compute; reflexivity).
  pose proof (token_kept_or_renewed "https://manager" _ _ _ _ _ E) as H.
  rewrite decide_False in H by (intros [Hne _]; by apply Hne).
  destruct H as [(response & Hne & _)|(e1 & He1 & [(err & Hr & _)|(key & Hs & _)])]; [by destruct Hne|discriminate Hr|].
  exists key. rewrite decide_True in He1 by done. subst e1. exact Hs.
Defined.

(** ** A stop in the middle of a connection *)

Local Abbreviation waiting := (Connecting Initial ToConnect).

Definition stop_called : Vm Uw := set_tasks (Stopping ToDisconnect :: vm_tasks authenticated) (stop_begin authenticated).2.
Definition torn_down : Vm Uw := stopping [] (loops ++ [waiting]) ToDisconnect stop_called.
Definition revoking : Vm Uw := stopping [] (loops ++ [waiting]) ToRevoke torn_down.
Definition late : Vm Uw := connecting (Stopping (ToForget true) :: loops) [] ToConnect revoking.
Definition left_up : Vm Uw := stopping [] loops (ToForget true) late.

Lemma ready_left_up : steps ready left_up.
Proof.
  eapply rtc_l; [apply step_start|].
  eapply rtc_l; [apply (step_connecting _ _ started loops [] Initial ToCheck); vm_compute; reflexivity|].
  eapply rtc_l; [apply (step_connecting _ _ checked loops [] Initial ToToken); vm_compute; reflexivity|].
  eapply rtc_l; [apply (step_stop _ _ authenticated); vm_compute; reflexivity|].
  eapply rtc_l; [apply (step_stopping _ _ stop_called [] (loops ++ [waiting]) ToDisconnect); vm_compute; reflexivity|].
  eapply rtc_l; [apply (step_stopping _ _ torn_down [] (loops ++ [waiting]) ToRevoke); vm_compute; reflexivity|].
  eapply rtc_l; [apply (step_connecting _ _ revoking (Stopping (ToForget true) :: loops) [] Initial ToConnect);
    vm_compute; reflexivity|].
  eapply rtc_l; [apply (step_stopping _ _ late [] loops (ToForget true)); vm_compute; reflexivity|].
  apply rtc_refl.
Qed.

(** Stopping does not wait for a connection that is being made, so the
    tunnel can come up after the module has been stopped: when the first
    connection has its token and the stop gets to the tunnel first, the
    connection still finds the token until the revocation is answered.  In the
    end the module is stopped and its token revoked and forgotten, nothing is
    under way any more, and the tunnel is up; stopping again does nothing. *)
Theorem stop_races_connect :
  steps ready left_up ∧ vm_running left_up = false ∧ is_connected (vm_world left_up) = true ∧
  is_Some (uw_instance (vw_backend (vm_world left_up))) ∧ vw_tokens (vm_world left_up) = TokenState_default ∧
  vm_tasks left_up = loops ∧ 0 ∈ vm_cancelled left_up ∧ stop config userspace left_up = (Ok (), left_up).
Proof.
  split; [exact ready_left_up|]. split; [reflexivity|]. split; [vm_compute; reflexivity|].
  split; [vm_compute; by eexists|]. split; [vm_compute; reflexivity|]. split; [vm_compute; reflexivity|].
  split; [|reflexivity]. apply (bool_decide_unpack _). vm_compute. exact I.
Qed.

(** ** The other limits *)

(** A kernel with one interface, there or not, and with or without a program
    that sets name servers. *)
#[local] Program Instance netlink : WgApi := {|
  KState := bool * bool;
  has_interface k _ := k.1;
  read_interface_data _ k := (if k.1 then Ok [] else Err "No such device (os error 19)", k);
  create_interface _ k := (Ok (), (true, k.2));
  configure_interface _ k := (Ok (), k);
  configure_dns _ _ k := (if k.2 then Ok () else Err "resolvconf: command not found", k);
  remove_interface _ k := (Ok (), (false, k.2));
|}.
Next Obligation. done. Qed.
Next Obligation. by intros _ k k' [= <-]. Qed.
Next Obligation. done. Qed.
Next Obligation. done. Qed.
Next Obligation. by intros _ k k' [= <-]. Qed.

Local Abbreviation kernel := (KernelBackend (API := netlink)).

(** The first connection over the kernel backend with a record of its calls. *)
Lemma read_when_there (k : KState) : is_ok (read_interface_data (WgApi := netlink) "wg0" k).1 = has_interface k "wg0".
Proof. by destruct k as [[] ?]. Qed.

Local Abbreviation watched := (traced kernel).

Definition plugged (dns : bool) : Vm (KState * list DeviceCall) :=
  (start config watched (initialised env ((false, dns), []))).2.
Definition dialling (dns : bool) : Vm (KState * list DeviceCall) :=
  connecting_on watched loops [] ToToken (connecting_on watched loops [] ToCheck (plugged dns)).
Definition dialled (dns : bool) : Vm (KState * list DeviceCall) :=
  connecting_on watched loops [] ToConnect (dialling dns).

Lemma dialled_reached (dns : bool) :
  rtc (step config watched) (initialised env ((false, dns), [])) (dialled dns).
Proof.
  eapply rtc_l; [apply step_start|]. fold (plugged dns).
  eapply rtc_l; [apply (step_connecting _ _ (plugged dns) loops [] Initial ToCheck); by destruct dns; vm_compute|].
  fold (connecting_on watched loops [] ToCheck (plugged dns)).
  eapply rtc_l; [apply (step_connecting _ _ (connecting_on watched loops [] ToCheck (plugged dns)) loops [] Initial ToToken);
    by destruct dns; vm_compute|].
  eapply rtc_l; [apply (step_connecting _ _ (dialling dns) loops [] Initial ToConnect); by destruct dns; vm_compute|].
  apply rtc_refl.
Qed.

Definition reported {B} (m : Vm B) : option string := st_detail (status config m) !! "tunnel".


(** Without resolvconf the call fails: the interface stays and the module says
    that the tunnel is down. *)
Example failed_apply_in_doubt :
  vw_backend (vm_world (dialled false)) = ((true, false), [Applied false]) ∧ reported (dialled false) = Some "down".
Proof. split; vm_compute; reflexivity. Qed.

Definition off : Vm (KState * list DeviceCall) := (stop config watched (dialled true)).2.

Lemma dialled_idle : idle (dialled true).
Proof. intros who next H. vm_compute in H. repeat (apply elem_of_cons in H as [H|H]; [discriminate H|]). by apply elem_of_nil in H. Qed.

Lemma stopped_off : stop config watched (dialled true) = (Ok (), off).
Proof. vm_compute. reflexivity. Qed.

Lemma stop_is_final_when_idle_witness : is_connected (vm_world off) = false.
Proof.
  exact (proj1 (proj2 (stop_is_final_when_idle config kernel (TP := kernel_promise "wg0" read_when_there) env
    (false, true) (dialled true) off off eq_refl (dialled_reached true) eq_refl dialled_idle stopped_off) (rtc_refl _ _))).
Defined.

(** The module over the kernel, after a part of its first connection. *)
Definition begun (dns : bool) : Vm KState := (start config kernel (initialised env (false, dns))).2.
Definition online : Vm KState := initial_connect config kernel (begun true).

Definition cut : CommandResult * Vm KState := dispatch config kernel ["disconnect"] ∅ online.
Definition again : Vw KState := (connect config kernel (vm_world cut.2)).2.

Lemma disconnect_does_not_last_witness :
  is_connected (vm_world (monitor_tick config kernel cut.2)) = true.
Proof.
  apply (disconnect_does_not_last config kernel ∅ online cut.2 cut.1 again).
  - vm_compute. reflexivity.
  - vm_compute. reflexivity.
  - apply surjective_pairing.
  - vm_compute. reflexivity.
  - split; vm_compute; discriminate.
  - vm_compute. reflexivity.
Defined.

Lemma refresh_counted_not_done_witness :
  token_refreshes (vm_metrics (refresh_tick config (at_time 900000000000 online))) = 1%Z.
Proof.
  apply (refresh_counted_not_done config (at_time 900000000000 online)).
  - split; vm_compute; discriminate.
  - vm_compute. reflexivity.
Defined.

Definition authorized : Vm KState := (establish_token config (begun false)).2.

Lemma failed_connect_leaks_interface_witness :
  let '(_, m) := stop config kernel (set_world (connect config kernel (vm_world authorized)).2 authorized) in
  has_interface (vw_backend (vm_world m)) "wg0" = true.
Proof.
  pose proof (failed_connect_leaks_interface config authorized (connect config kernel (vm_world authorized)).2
    (Interface "configure DNS: resolvconf: command not found")) as H.
  destruct (stop config kernel _) as [r m]. apply H.
  - intros [[] ?] peers; [done|discriminate].
  - vm_compute. reflexivity.
  - vm_compute. reflexivity.
  - vm_compute. reflexivity.
Defined.

Lemma userspace_rotate_fails_witness :
  is_ok (rotate config userspace true (vm_world connected)).1 = false.
Proof.
  pose proof (userspace_rotate_fails config system true (vm_world connected) 0 eq_refl eq_refl) as H.
  destruct (rotate config userspace true (vm_world connected)) as [r w]. exact (proj1 H).
Defined.

Definition live : EventLoopState := mkEventLoopState () (SocketV4 (203, 0, 113, 7)%Z 51820) None 0 0.
Definition at_work : Uw := mkUw (Some 0) {[0 := live]} {[0 := "wg0"]} ∅ 1 0.
Definition packet : string := String.concat "" (replicate 1500 "x").

Lemma full_packet_ends_tunnel_witness : uw_loops (run_loop 0 0 (TunRead packet) at_work).2 !! 0 = None.
Proof.
  pose proof (full_packet_ends_tunnel config 0 0 packet at_work live "wg0" eq_refl eq_refl (not_elem_of_empty 0) eq_refl
    ltac:(apply Nat.ltb_lt; vm_compute; reflexivity)) as H.
  destruct (run_loop _ _ _ _) as [out u]. exact (proj1 (proj2 H)).
Defined.
End VpnWitness.
