(* ===== verification/Secrets.v ===== *)
(** * Secret storage (crates/penguin-secrets, bins/penguind/src/host_wiring.rs)

    The store modules keep their credentials in: the master key
    (master_key.rs), one encrypted file per secret (file_backend.rs), the
    operating system's keyring (platform_backend.rs), and the namespaced
    [Store] over either (store.rs), of which [store_for] hands one view to each
    module.

    Files are those of [Hooks.Files], on which any call may fail; the
    directory they are in has a mode of its own.  The cipher and the keyring
    are parameters.  [SecretsProps] has the theorems. *)
From Stdlib Require Import Strings.String.
From S2P Require Import Prelude.
From S2P Require Import Text.
From S2P Require Import Sdk.
From S2P Require Import ExtPlugin.
From S2P Require Import Hooks.
From S2P Require Import Pem.

(** XChaCha20-Poly1305: sealing and opening a message under a key, a nonce and
    associated data.  What was sealed opens, and only what was sealed. *)
Class Aead := {
  aead_encrypt : string → string → string → string → option string;
  aead_decrypt : string → string → string → string → option string;
  aead_opens : ∀ key nonce aad msg sealed,
    aead_encrypt key nonce aad msg = Some sealed → aead_decrypt key nonce aad sealed = Some msg;
  aead_authentic : ∀ key nonce aad msg sealed,
    aead_decrypt key nonce aad sealed = Some msg → aead_encrypt key nonce aad msg = Some sealed;
}.

(** The first [n] bytes of [v], lowest first: what [fill_bytes] makes of the
    randomness it draws. *)
Fixpoint bytes_of (n : nat) (v : Z) : string :=
  match n with
  | 0 => EmptyString
  | S n => String (Ascii.ascii_of_N (Z.to_N (v mod 256))) (bytes_of n (v / 256))
  end.

Definition fill_bytes (n : nat) (fs : Files.t) : string * Files.t :=
  let '(v, fs) := Files.random fs in (bytes_of n v, fs).

Definition mode_owner_file : Z := 6 * 64.
Definition mode_owner_dir : Z := 7 * 64.

(** [m] with its error turned into a [SecretError::Other]. *)
Definition or_other {S A} (msg : string → string) (m : eff S Files.IoError A) : eff S SecretError A :=
  λ s, let '(r, s) := m s in
       (map_err (λ err, SecretOther (msg (Files.io_text err))) r, s).

(** ** The directory *)

(** The secrets directory, with its mode when it exists, and its files. *)
Record Disk := mkDisk { dk_dir : option Z; dk_files : Files.t }.

Definition on_files {E A} (m : eff Files.t E A) : eff Disk E A := λ d,
  let '(r, fs) := m (dk_files d) in (r, mkDisk (dk_dir d) fs).

(** [Path::exists]: no when the directory cannot be looked at. *)
Definition dir_exists (d : Disk) : bool * Disk :=
  let fs := dk_files d in
  (negb (Files.stat_fault fs (Files.stats fs)) && bool_decide (is_Some (dk_dir d)),
   mkDisk (dk_dir d)
     (Files.mk (Files.files fs) (Files.fault fs) (Files.calls fs) (Files.stat_fault fs)
        (S (Files.stats fs)) (Files.rng fs) (Files.draws fs) (Files.seen fs))).

(** A call on the directory, which may fail as any other. *)
Definition dir_call {A} (k : eff Disk Files.IoError A) : eff Disk Files.IoError A := λ d,
  let '(ft, fs) := Files.next (dk_files d) in
  let d := mkDisk (dk_dir d) fs in
  match ft with
  | Some ft => (Err (Files.mkIoError Files.OtherIo (Files.ft_text ft)), d)
  | None => k d
  end.

(** [DirBuilder::create] with [recursive]: an existing directory keeps its
    mode. *)
Definition create_dir (mode : Z) : eff Disk Files.IoError unit :=
  dir_call (λ d, (Ok (), mkDisk (Some (default mode (dk_dir d))) (dk_files d))).

Definition dir_metadata : eff Disk Files.IoError Z :=
  dir_call (λ d, (ok_or (dk_dir d) Files.not_found, d)).

(** ** The master key (master_key.rs) *)

Section MasterKey.
  Context (dir : Path).

Definition MASTER_KEY_FILENAME : string := "master.key".
Definition master_key_path : Path := dir ++ [MASTER_KEY_FILENAME].

Definition reject_world_writable : eff Disk SecretError unit :=
  let! mode := or_other (λ err, "failed to stat directory " +:+ display dir +:+ ": " +:+ err) dir_metadata in
  if negb (Z.land mode 2 =? 0)%Z then
    pure (Err (SecretOther ("directory " +:+ display dir +:+ " is world-writable (security risk)")))
  else pure (Ok ()).

Definition key_from_existing_bytes (path : Path) (bytes : string) : result string SecretError :=
  if negb (String.length bytes =? 32)%nat then
    Err (SecretOther ("master key at " +:+ display path +:+ " has wrong size (expected 32, got "
                      +:+ pretty (String.length bytes) +:+ ")"))
  else Ok bytes.

(** [OpenOptions] with [create], [truncate] and mode 0600: an existing file is
    emptied and keeps its mode. *)
Definition create_key_file (path : Path) : eff Files.t Files.IoError unit :=
  Files.call (λ fs,
    (Ok (), Files.set_files
              (<[path := Files.mkFile (default mode_owner_file (Files.f_mode <$> Files.files fs !! path)) ""]>
                 (Files.files fs)) fs)).

Definition generate_and_write_key (path : Path) : eff Files.t SecretError string := λ fs,
  let '(key, fs) := fill_bytes 32 fs in
  (let! _ := or_other (λ err, "failed to create master key file " +:+ display path +:+ ": " +:+ err)
               (create_key_file path) in
   let! _ := or_other (λ err, "failed to write master key to " +:+ display path +:+ ": " +:+ err)
               (Files.write_all path key) in
   pure (Ok key)) fs.

(** The key at [path], in the directory [dir]. *)
Definition ensure_master_key (path : Path) : eff Disk SecretError string :=
  let! _ := reject_world_writable in
  on_files (λ fs,
    let '(r, fs) := Files.read path fs in
    match r with
    | Ok bytes => (key_from_existing_bytes path bytes, fs)
    | Err err =>
        match Files.io_kind err with
        | Files.NotFound => generate_and_write_key path fs
        | _ => (Err (SecretOther ("failed to read master key at " +:+ display path +:+ ": "
                                  +:+ Files.io_text err)), fs)
        end
    end).
End MasterKey.

(** ** The encrypted files (file_backend.rs) *)

Section FileBackend.
  Context {Cipher : Aead} (hex : Z → string).
  Abbreviation io := (eff Files.t Files.IoError).

Definition NONCE_LEN : nat := 24.
Definition RECORD_EXTENSION : string := "secret".

Record FileBackend := mkFileBackend { fb_dir : Path; fb_master_key : string }.

Definition create_owner_only_dir (dir : Path) : eff Disk SecretError unit := λ d,
  let '(there, d) := dir_exists d in
  if there then (Ok (), d)
  else or_other (λ err, "failed to create directory " +:+ display dir +:+ ": " +:+ err)
         (create_dir mode_owner_dir) d.

Definition fb_open (dir : Path) : eff Disk SecretError FileBackend :=
  let! _ := create_owner_only_dir dir in
  let! master_key := ensure_master_key dir (master_key_path dir) in
  pure (Ok (mkFileBackend dir master_key)).

(** The bytes of a key in hexadecimal: a flat file name. *)
Definition hex_encode (bytes : string) : string := ExtPlugin.hex_encode (list_byte_of_string bytes).

Definition record_path (fb : FileBackend) (namespaced_key : string) : Path :=
  fb_dir fb ++ [hex_encode namespaced_key +:+ "." +:+ RECORD_EXTENSION].

Definition encrypt_record (master_key aad_key plaintext : string) : eff Files.t SecretError string := λ fs,
  let '(nonce_bytes, fs) := fill_bytes NONCE_LEN fs in
  (match aead_encrypt master_key nonce_bytes aad_key plaintext with
   | Some ciphertext => Ok (nonce_bytes +:+ ciphertext)
   | None => Err (SecretOther "failed to encrypt secret")
   end, fs).

Definition decrypt_record (master_key aad_key record : string) : result string SecretError :=
  if (String.length record <? NONCE_LEN)%nat then Err (SecretOther "secret record is truncated")
  else
    let nonce_bytes := str_upto NONCE_LEN record in
    let ciphertext := str_from NONCE_LEN record in
    ok_or (aead_decrypt master_key nonce_bytes aad_key ciphertext)
      (SecretOther "failed to decrypt secret (tampered ciphertext, wrong key, or record moved to a different key)").

(** [create_new] with mode 0600. *)
Definition create_owner_only_file (path : Path) : io unit :=
  Files.call (λ fs,
    match Files.files fs !! path with
    | Some _ => (Err (Files.mkIoError Files.AlreadyExists "File exists (os error 17)"), fs)
    | None => (Ok (), Files.set_files (<[path := Files.mkFile mode_owner_file ""]> (Files.files fs)) fs)
    end).

Definition random_suffix (fs : Files.t) : string * Files.t :=
  let '(v, fs) := Files.random fs in (hex v, fs).

Definition tmp_prefix : string := ".secret-tmp-".

(** The loop of [create_temp_file] with [n] attempts left. *)
Fixpoint create_temp_loop (n : nat) (dir : Path) : io Path := λ fs,
  match n with
  | 0 => (Err (Files.mkIoError Files.AlreadyExists
                 "could not create a unique temp file after 100 attempts"), fs)
  | S n =>
      let '(suffix, fs) := random_suffix fs in
      let path := dir ++ [tmp_prefix +:+ suffix] in
      let '(opened, fs) := create_owner_only_file path fs in
      match opened with
      | Ok _ => (Ok path, fs)
      | Err err =>
          match Files.io_kind err with
          | Files.AlreadyExists => create_temp_loop n dir fs
          | _ => (Err err, fs)
          end
      end
  end.

Definition create_temp_file (dir : Path) : io Path := create_temp_loop 100 dir.

Definition write_atomic (path : Path) (data : string) : eff Files.t SecretError unit :=
  let! dir := pure (ok_or (parent path)
    (SecretOther ("secret path " +:+ display path +:+ " has no parent directory"))) in
  let! tmp_path := or_other (λ err, "failed to create temp file in " +:+ display dir +:+ ": " +:+ err)
                     (create_temp_file dir) in
  let! _ := or_other (λ err, "failed to write temp file " +:+ display tmp_path +:+ ": " +:+ err)
              (or_remove tmp_path (let! _ := Files.write_all tmp_path data in Files.sync_all)) in
  or_other (λ err, "failed to rename " +:+ display tmp_path +:+ " to " +:+ display path +:+ ": " +:+ err)
    (or_remove tmp_path (Files.rename tmp_path path)).

Definition fb_get (fb : FileBackend) (namespaced_key : string) : eff Files.t SecretError string := λ fs,
  let path := record_path fb namespaced_key in
  let '(r, fs) := Files.read path fs in
  match r with
  | Ok record => (decrypt_record (fb_master_key fb) namespaced_key record, fs)
  | Err err =>
      match Files.io_kind err with
      | Files.NotFound => (Err SecretNotFound, fs)
      | _ => (Err (SecretOther ("failed to read secret file " +:+ display path +:+ ": "
                                +:+ Files.io_text err)), fs)
      end
  end.

Definition fb_set (fb : FileBackend) (namespaced_key value : string) : eff Files.t SecretError unit :=
  let! record := encrypt_record (fb_master_key fb) namespaced_key value in
  write_atomic (record_path fb namespaced_key) record.

Definition fb_delete (fb : FileBackend) (namespaced_key : string) : eff Files.t SecretError unit := λ fs,
  let path := record_path fb namespaced_key in
  let '(r, fs) := Files.remove_file path fs in
  match r with
  | Ok _ => (Ok (), fs)
  | Err err =>
      match Files.io_kind err with
      | Files.NotFound => (Err SecretNotFound, fs)
      | _ => (Err (SecretOther ("failed to delete secret file " +:+ display path +:+ ": "
                                +:+ Files.io_text err)), fs)
      end
  end.
End FileBackend.

(** ** The operating system's keyring (platform_backend.rs) *)

Inductive KeyringError := NoEntry | KeyringOther (msg : string).

(** The [keyring] crate on a state [K]: an entry is a service and a key;
    [None] is a call that panics. *)
Class Keyring (K : Type) := {
  entry_new : string → string → result unit KeyringError;
  get_secret : string → string → K → option (result string KeyringError) * K;
  set_secret : string → string → string → K → option (result unit KeyringError) * K;
  delete_credential : string → string → K → option (result unit KeyringError) * K;
}.

Section PlatformBackend.
  Context {K : Type} {Ring : Keyring K}.
  (** [Display] of a keyring error and [Debug] of a key. *)
  Context (show : KeyringError → string) (debug : string → string).

Record PlatformBackend := mkPlatformBackend { pb_service_name : string }.

Definition PROBE_KEY : string := "__penguin_secrets_backend_probe__".

(** A panic of the lookup, which is not caught here, is [None]. *)
Definition probe (service_name : string) (k : K) : option bool * K :=
  match entry_new service_name PROBE_KEY with
  | Err _ => (Some false, k)
  | Ok _ =>
      let '(r, k) := get_secret service_name PROBE_KEY k in
      (match r with
       | Some (Err NoEntry) => Some true
       | Some _ => Some false
       | None => None
       end, k)
  end.

Definition entry (pb : PlatformBackend) (key : string) : result unit SecretError :=
  map_err (λ err, SecretOther ("failed to open platform keyring entry: " +:+ show err))
    (entry_new (pb_service_name pb) key).

Definition join_blocking {T} (outcome : option (result T SecretError)) : result T SecretError :=
  match outcome with
  | Some r => r
  | None => Err (SecretOther "platform keyring task panicked")
  end.

Definition missing_or_other (verb key : string) (err : KeyringError) : SecretError :=
  match err with
  | NoEntry => SecretNotFound
  | KeyringOther _ => SecretOther ("failed to " +:+ verb +:+ " secret " +:+ debug key +:+ ": " +:+ show err)
  end.

Definition pb_get (pb : PlatformBackend) (key : string) : eff K SecretError string :=
  let! _ := pure (entry pb key) in
  λ k, let '(outcome, k) := get_secret (pb_service_name pb) key k in
       (join_blocking (map_err (missing_or_other "get" key) <$> outcome), k).

Definition pb_set (pb : PlatformBackend) (key value : string) : eff K SecretError unit :=
  let! _ := pure (entry pb key) in
  λ k, let '(outcome, k) := set_secret (pb_service_name pb) key value k in
       (join_blocking
          (map_err (λ err, SecretOther ("failed to set secret " +:+ debug key +:+ ": " +:+ show err))
             <$> outcome), k).

Definition pb_delete (pb : PlatformBackend) (key : string) : eff K SecretError unit :=
  let! _ := pure (entry pb key) in
  λ k, let '(outcome, k) := delete_credential (pb_service_name pb) key k in
       (join_blocking (map_err (missing_or_other "delete" key) <$> outcome), k).
End PlatformBackend.

(** ** The store (store.rs) *)

Section Store.
  Context {Cipher : Aead} (hex : Z → string) {K : Type} {Ring : Keyring K}.
  Context (show : KeyringError → string) (debug : string → string).

Definition DEFAULT_SERVICE_NAME : string := "penguind".

Inductive Backend := Auto (file_dir : Path) | FileOnly (file_dir : Path).

Record Config := mkConfig { cf_service_name : string; cf_backend : Backend }.

Inductive ActiveBackend := ActiveFile (file : FileBackend) | ActivePlatform (platform : PlatformBackend).

Record Store := mkStore { st_backend : ActiveBackend; st_namespace : string }.

(** The machine a store runs on: its secrets directory and its keyring. *)
Record Machine := mkMachine { mc_disk : Disk; mc_ring : K }.

Definition on_disk {E A} (m : eff Disk E A) : eff Machine E A := λ w,
  let '(r, d) := m (mc_disk w) in (r, mkMachine d (mc_ring w)).
Definition on_ring {E A} (m : eff K E A) : eff Machine E A := λ w,
  let '(r, k) := m (mc_ring w) in (r, mkMachine (mc_disk w) k).

(** [None] is a panic of the keyring's probe. *)
Definition select_auto_backend (service_name : string) (file_dir : Path) (w : Machine) :
    option (result ActiveBackend SecretError) * Machine :=
  let '(reachable, k) := probe service_name (mc_ring w) in
  let w := mkMachine (mc_disk w) k in
  match reachable with
  | None => (None, w)
  | Some true => (Some (Ok (ActivePlatform (mkPlatformBackend service_name))), w)
  | Some false =>
      let '(r, w) := on_disk (let! file := fb_open file_dir in pure (Ok (ActiveFile file))) w in
      (Some r, w)
  end.

Definition store_open (cfg : Config) (w : Machine) : option (result Store SecretError) * Machine :=
  let service_name :=
    if String.eqb (cf_service_name cfg) "" then DEFAULT_SERVICE_NAME else cf_service_name cfg in
  let '(backend, w) :=
    match cf_backend cfg with
    | FileOnly file_dir =>
        let '(r, w) := on_disk (let! file := fb_open file_dir in pure (Ok (ActiveFile file))) w in
        (Some r, w)
    | Auto file_dir => select_auto_backend service_name file_dir w
    end in
  ((λ r, let? b := r in Ok (mkStore b "")) <$> backend, w).

Definition namespaced (s : Store) (module : string) : Store := mkStore (st_backend s) module.

Definition make_key (s : Store) (key : string) : string :=
  if String.eqb (st_namespace s) "" then key else st_namespace s +:+ "/" +:+ key.

Definition store_get (s : Store) (key : string) : eff Machine SecretError string :=
  let full_key := make_key s key in
  match st_backend s with
  | ActiveFile file => on_disk (on_files (fb_get file full_key))
  | ActivePlatform platform => on_ring (pb_get show debug platform full_key)
  end.

Definition store_set (s : Store) (key value : string) : eff Machine SecretError unit :=
  let full_key := make_key s key in
  match st_backend s with
  | ActiveFile file => on_disk (on_files (fb_set hex file full_key value))
  | ActivePlatform platform => on_ring (pb_set show debug platform full_key value)
  end.

Definition store_delete (s : Store) (key : string) : eff Machine SecretError unit :=
  let full_key := make_key s key in
  match st_backend s with
  | ActiveFile file => on_disk (on_files (fb_delete file full_key))
  | ActivePlatform platform => on_ring (pb_delete show debug platform full_key)
  end.

(** [SecretsStoreProvider::store_for] (host_wiring.rs) *)
Definition store_for (root : Store) (module : string) : Store := namespaced root module.
End Store.
