(* ===== verification/SecretsProps.v ===== *)
(** * Secret storage: theorems

    The files of a [FileBackend] are related to a map from a module's name and
    key to the secret ([vault]); each operation is specified against it with
    the triples of [HooksFacts], so that a call that fails and a machine that
    stops half way are covered.  Then: a module reads its own last write
    ([module_reads_its_last_write]), writes are atomic
    ([secret_write_all_or_nothing]), and what goes wrong when the first start
    is interrupted and when a module's name holds a slash. *)
From Stdlib Require Import Strings.String.
From S2P Require Import Prelude.
From S2P Require Import Text.
From S2P Require Import Sdk.
From S2P Require Import ExtPlugin.
From S2P Require Import Hooks.
From S2P Require Import HooksFacts.
From S2P Require Import Pem.
From S2P Require Import Secrets.
Import Files.

(** ** Names *)

Definition slash : Ascii.ascii := Ascii.ascii_of_nat 47.

(** What [make_key] makes of a module's key. *)
Definition full_key (module key : string) : string := module +:+ "/" +:+ key.

(** A name that is one component of a path. *)
Definition plain_name (module : string) : bool := negb (String.eqb module "") && no_char slash module.

Lemma full_key_inj m1 m2 k1 k2 : no_char slash m1 = true → no_char slash m2 = true →
  full_key m1 k1 = full_key m2 k2 → m1 = m2 ∧ k1 = k2.
Proof.
  unfold full_key. revert m2. induction m1 as [|c m1 IH]; intros [|c' m2]; cbn [no_char].
  - intros _ _ E. by injection E as E.
  - intros _ [Hc _]%andb_true_iff E. injection E as <- E. done.
  - intros [Hc _]%andb_true_iff _ E. injection E as -> E. done.
  - intros [_ H1]%andb_true_iff [_ H2]%andb_true_iff E. rewrite !string_app_cons in E.
    injection E as <- E. destruct (IH m2 H1 H2 E) as [-> ->]. done.
Qed.

Lemma bytes_of_length n v : String.length (bytes_of n v) = n.
Proof. revert v. induction n as [|n IH]; intros v; simpl; [done|]. by rewrite IH. Qed.

Lemma hex_length b : String.length (ExtPlugin.hex_encode b) = 2 * length b.
Proof. induction b as [|x b IH]; simpl; [done|]. rewrite IH. lia. Qed.

Lemma string_app_inj_tail (s1 s2 t : string) : s1 +:+ t = s2 +:+ t → s1 = s2.
Proof.
  revert s2. induction s1 as [|c s1 IH]; intros [|c' s2] E; [done| | |].
  1, 2: apply (f_equal String.length) in E; rewrite !string_length_app in E; simpl in E; lia.
  rewrite !string_app_cons in E. injection E as <- E. by rewrite (IH s2 E).
Qed.

Lemma list_byte_inj (s1 s2 : string) : list_byte_of_string s1 = list_byte_of_string s2 → s1 = s2.
Proof.
  intros E. rewrite <- (string_of_list_byte_of_string s1), E. apply string_of_list_byte_of_string.
Qed.

(** No hexadecimal digit is a dot. *)
Lemma hex_digit_not_dot n : (0 ≤ n < 16)%Z → hex_digit n ≠ Ascii.ascii_of_nat 46.
Proof.
  unfold hex_digit. intros Hn E%(f_equal Ascii.nat_of_ascii).
  destruct (Z.ltb_spec n 10); rewrite !Ascii.nat_ascii_embedding in E by lia; lia.
Qed.

Section Paths.
  Context (fb : FileBackend).

Definition is_tmp (p : Path) : Prop := ∃ s, p = fb_dir fb ++ [tmp_prefix +:+ s].

Lemma record_path_inj k1 k2 : record_path fb k1 = record_path fb k2 → k1 = k2.
Proof.
  intros [_ E]%app_inj_tail. apply string_app_inj_tail in E.
  by apply hex_encode_inj, list_byte_inj in E.
Qed.

Lemma record_not_key k : record_path fb k ≠ master_key_path (fb_dir fb).
Proof.
  intros [_ E]%app_inj_tail. apply (f_equal String.length) in E. revert E.
  rewrite string_length_app. unfold Secrets.hex_encode. rewrite hex_length. change (String.length ("." +:+ RECORD_EXTENSION)) with 7. change (String.length MASTER_KEY_FILENAME) with 10. lia.
Qed.

Lemma record_not_tmp k : ¬ is_tmp (record_path fb k).
Proof.
  intros [s [_ E]%app_inj_tail]. unfold Secrets.hex_encode in E.
  destruct (list_byte_of_string k) as [|x b].
  - apply (f_equal String.length) in E. rewrite !string_length_app in E. cbn in E. lia.
  - cbn [ExtPlugin.hex_encode] in E. rewrite !string_app_cons in E. injection E as E _.
    pose proof (Byte.to_N_bounded x). revert E. apply hex_digit_not_dot.
    split; [apply Z.div_pos; lia|apply Z.div_lt_upper_bound; lia].
Qed.

Lemma key_not_tmp : ¬ is_tmp (master_key_path (fb_dir fb)).
Proof. intros [s [_ E]%app_inj_tail]. discriminate E. Qed.
End Paths.

(** ** The vault *)

Section Vault.
  Context {Cipher : Aead} (hex : Z → string).
  Implicit Types (fb : FileBackend) (d : disk) (M : gmap (string * string) string).

(** The master key is in its file. *)
Definition keyed fb d : Prop :=
  f_data <$> d !! master_key_path (fb_dir fb) = Some (fb_master_key fb) ∧
  String.length (fb_master_key fb) = 32.

(** Nobody but the owner reads any of the files. *)
Definition private d : Prop := map_Forall (λ _ f, f_mode f = mode_owner_file) d.

(** The secret of [M] is what the record of each key decrypts to. *)
Definition reads fb M d : Prop :=
  ∀ m k, no_char slash m = true →
    (λ f, decrypt_record (fb_master_key fb) (full_key m k) (f_data f))
      <$> d !! record_path fb (full_key m k) = Ok <$> M !! (m, k).

Definition vault fb M d : Prop := keyed fb d ∧ private d ∧ reads fb M d.

Lemma decrypt_encrypted key aad nonce msg sealed : String.length nonce = NONCE_LEN →
  aead_encrypt key nonce aad msg = Some sealed →
  decrypt_record key aad (nonce +:+ sealed) = Ok msg.
Proof.
  intros Hl He. unfold decrypt_record. rewrite string_length_app.
  replace (String.length nonce + String.length sealed <? NONCE_LEN) with false
    by (symmetry; apply Nat.ltb_ge; lia).
  rewrite <- Hl, str_upto_app, str_from_app. by rewrite (aead_opens _ _ _ _ _ He).
Qed.

(** Changing a temporary file changes no secret. *)
Lemma vault_tmp fb M d d' p : is_tmp fb p → (∀ q, q ≠ p → d' !! q = d !! q) → private d' →
  vault fb M d → vault fb M d'.
Proof.
  intros Hp Hd Hpriv ([Hk Hl] & _ & Hr). split_and!; [split; [|done]|done|].
  - rewrite Hd; [done|]. intros <-. by apply (key_not_tmp fb).
  - intros m k Hm. rewrite Hd; [by apply Hr|]. intros <-. by apply (record_not_tmp fb (full_key m k)).
Qed.

Lemma vault_tmp_insert fb M d p f : is_tmp fb p → f_mode f = mode_owner_file →
  vault fb M d → vault fb M (<[p := f]> d).
Proof.
  intros Hp Hf Hv. refine (vault_tmp fb M d _ p Hp _ _ Hv).
  - intros q Hq. by rewrite lookup_insert_ne.
  - destruct Hv as (_ & Hpriv & _). by apply map_Forall_insert_2.
Qed.

Lemma vault_tmp_delete fb M d p : is_tmp fb p → vault fb M d → vault fb M (delete p d).
Proof.
  intros Hp Hv. refine (vault_tmp fb M d _ p Hp _ _ Hv).
  - intros q Hq. by rewrite lookup_delete_ne.
  - destruct Hv as (_ & Hpriv & _). by apply map_Forall_delete.
Qed.

Lemma vault_insert fb M d m k v f : no_char slash m = true → f_mode f = mode_owner_file →
  decrypt_record (fb_master_key fb) (full_key m k) (f_data f) = Ok v →
  vault fb M d → vault fb (<[(m, k) := v]> M) (<[record_path fb (full_key m k) := f]> d).
Proof.
  intros Hm Hf Hv ([Hk Hl] & Hpriv & Hr). split_and!; [split; [|done]| |].
  - rewrite lookup_insert_ne; [done|]. apply record_not_key.
  - by apply map_Forall_insert_2.
  - intros m' k' Hm'. destruct (decide ((m, k) = (m', k'))) as [[= <- <-]|Hne].
    { rewrite !lookup_insert_eq. simpl. by rewrite Hv. }
    rewrite !lookup_insert_ne; [by apply Hr|done|].
    intros E%record_path_inj%full_key_inj; [|done..]. naive_solver.
Qed.

Lemma vault_delete fb M d m k : no_char slash m = true →
  vault fb M d → vault fb (delete (m, k) M) (delete (record_path fb (full_key m k)) d).
Proof.
  intros Hm ([Hk Hl] & Hpriv & Hr). split_and!; [split; [|done]| |].
  - rewrite lookup_delete_ne; [done|]. apply record_not_key.
  - by apply map_Forall_delete.
  - intros m' k' Hm'. destruct (decide ((m, k) = (m', k'))) as [[= <- <-]|Hne].
    { by rewrite !lookup_delete_eq. }
    rewrite !lookup_delete_ne; [by apply Hr|done|].
    intros E%record_path_inj%full_key_inj; [|done..]. naive_solver.
Qed.

(** ** The operations *)

Lemma or_other_spec {A : Type} (P : disk → Prop) (msg : string → string) (m : eff t IoError A)
    (Q : A → disk → Prop) (R C : disk → Prop) :
  triple P m (λ r d, match r with Ok a => Q a d | Err _ => R d end) C →
  triple P (or_other msg m)
    (λ r d, match r with Ok a => Q a d | Err e => R d ∧ e ≠ SecretNotFound end) C.
Proof.
  intros Hm. eapply (triple_handle P m _ (λ r, map_err (λ err, SecretOther (msg (io_text err))) r));
    [exact Hm|].
  intros [a|e] d; simpl; done.
Qed.

Section Write.
  Context (fb : FileBackend) (M : gmap (string * string) string) (C : disk → Prop).
  Context (HC : ∀ d, vault fb M d → C d).

(** The secrets are those of [M] and the temporary file [tmp] holds [data]. *)
Definition staged (tmp : Path) (data : string) (d : disk) : Prop :=
  is_tmp fb tmp ∧ vault fb M d ∧ d !! tmp = Some (mkFile mode_owner_file data).

Lemma create_temp_staged n :
  triple (vault fb M) (Secrets.create_temp_loop hex n (fb_dir fb))
    (λ r d, match r with Ok tmp => staged tmp "" d | Err _ => vault fb M d end) C.
Proof.
  induction n as [|n IH]; intros fs Hq HP; simpl.
  { split_and!; [done..|]. exists []. by rewrite app_nil_r. }
  unfold Secrets.random_suffix, random, create_owner_only_file, call, next; simpl.
  destruct (fault fs (calls fs)) as [ft|]; simpl.
  { split_and!; [done..|]. exists []. by rewrite app_nil_r. }
  set (tmp := fb_dir fb ++ [tmp_prefix +:+ hex (rng fs (draws fs))]).
  assert (is_tmp fb tmp) as Ht by (eexists; reflexivity).
  destruct (files fs !! tmp) eqn:Hf; simpl.
  { match goal with |- context [Secrets.create_temp_loop hex n (fb_dir fb) ?x] => apply (IH x) end; done. }
  assert (vault fb M (<[tmp := mkFile mode_owner_file ""]> (files fs))) as Hv
    by by apply vault_tmp_insert.
  split; [done|]. split; [|eexists [_]; split; [done|]; constructor; [by apply HC|done]].
  split_and!; [done..|]. apply lookup_insert_eq.
Qed.

Lemma vault_alter tmp g d : is_tmp fb tmp → (∀ f, f_mode (g f) = f_mode f) →
  vault fb M d → vault fb M (alter g tmp d).
Proof.
  intros Ht Hg Hv. refine (vault_tmp fb M d _ tmp Ht _ _ Hv).
  - intros q Hq. by rewrite lookup_alter_ne.
  - destruct Hv as (_ & Hpriv & _). intros p f.
    destruct (decide (tmp = p)) as [->|]; [rewrite lookup_alter_eq|rewrite lookup_alter_ne by done; apply Hpriv].
    intros (f' & Hf' & ->)%fmap_Some. rewrite Hg. exact (Hpriv _ _ Hf').
Qed.

Lemma write_all_staged tmp data :
  triple (staged tmp "") (write_all tmp data)
    (λ r d, match r with Ok _ => staged tmp data d | Err _ => vault fb M d end) C.
Proof.
  intros fs Hq (Ht & Hs & Hd).
  pose proof (write_all_inv (vault fb M) C HC tmp mode_owner_file data
    (λ d g Hg, vault_alter tmp g d Ht Hg) fs Hq (conj Hs Hd)) as H.
  destruct (write_all tmp data fs) as [[u|e] fs']; destruct H as (? & H & ?); split_and!; try done.
Qed.

Lemma or_remove_vault {A : Type} (tmp : Path) (m : eff t IoError A) (P : disk → Prop) (Q : A → disk → Prop) :
  is_tmp fb tmp →
  triple P m (λ r d, match r with Ok a => Q a d | Err _ => vault fb M d end) C →
  triple P (or_remove tmp m) (λ r d, match r with Ok a => Q a d | Err _ => vault fb M d end) C.
Proof. intros Ht. apply (or_remove_inv (vault fb M) C HC). intros d. by apply vault_tmp_delete. Qed.

Lemma rename_record tmp m k v record : no_char slash m = true →
  decrypt_record (fb_master_key fb) (full_key m k) record = Ok v →
  (∀ d, vault fb (<[(m, k) := v]> M) d → C d) →
  triple (staged tmp record) (rename tmp (record_path fb (full_key m k)))
    (λ r d, match r with Ok _ => vault fb (<[(m, k) := v]> M) d | Err _ => vault fb M d end) C.
Proof.
  intros Hm Hv HC' fs Hq (Ht & Hs & Hd). unfold rename, call, next.
  destruct (fault fs (calls fs)) as [ft|]; simpl.
  { split_and!; [done..|]. exists []. by rewrite app_nil_r. }
  rewrite Hd. simpl.
  assert (vault fb (<[(m, k) := v]> M)
            (<[record_path fb (full_key m k) := mkFile mode_owner_file record]> (delete tmp (files fs)))).
  { apply vault_insert; [done..|]. by apply vault_tmp_delete. }
  split_and!; [done..|]. eexists [_]. split; [done|]. auto.
Qed.

Lemma write_atomic_record m k v record : no_char slash m = true →
  decrypt_record (fb_master_key fb) (full_key m k) record = Ok v →
  (∀ d, vault fb (<[(m, k) := v]> M) d → C d) →
  triple (vault fb M) (Secrets.write_atomic hex (record_path fb (full_key m k)) record)
    (λ r d, match r with
            | Ok _ => vault fb (<[(m, k) := v]> M) d
            | Err e => vault fb M d ∧ e ≠ SecretNotFound
            end) C.
Proof.
  intros Hm Hv HC'. unfold Secrets.write_atomic, record_path at 1.
  assert (parent (record_path fb (full_key m k)) = Some (fb_dir fb)) as Hpar.
  { unfold record_path. destruct (fb_dir fb) as [|c l]; [done|].
    change (Some (removelast ((c :: l) ++ [hex_encode (full_key m k) +:+ "." +:+ RECORD_EXTENSION])) = Some (c :: l)).
    by rewrite removelast_last. }
  fold (record_path fb (full_key m k)). rewrite Hpar. cbn [ok_or].
  eapply (triple_bind _ _ (λ r d, r = Ok (fb_dir fb) ∧ vault fb M d)); [by apply triple_pure| |by intros e d []].
  intros dir. eapply (triple_conseq (λ d, vault fb M d ∧ dir = fb_dir fb));
    [|by intros d [[= ->] ?]|intros r d H; exact H|intros d H; exact H].
  apply triple_fact. intros ->.
  eapply triple_bind; [apply or_other_spec, create_temp_staged| |done]. intros tmp.
  eapply (triple_conseq (λ d, staged tmp "" d ∧ is_tmp fb tmp));
    [|intros d H; split; [exact H|apply H]|intros r d H; exact H|intros d H; exact H].
  apply triple_fact. intros Ht.
  eapply (triple_bind _ _ (λ r d, match r with Ok _ => staged tmp record d
                                           | Err e => vault fb M d ∧ e ≠ SecretNotFound end)).
  - apply (or_other_spec _ _ _ (λ _, _)), (or_remove_vault tmp _ _ (λ _, _)); [done|].
    eapply triple_bind; [apply write_all_staged| |done]. intros u.
    apply triple_call; [by apply triple_pure|]. by intros e d _ (_ & ? & _).
  - intros _. by apply (or_other_spec _ _ _ (λ _, _)), (or_remove_vault tmp _ _ (λ _, _)),
      rename_record.
  - done.
Qed.

Lemma fb_set_spec m k v : no_char slash m = true →
  (∀ d, vault fb (<[(m, k) := v]> M) d → C d) →
  triple (vault fb M) (fb_set hex fb (full_key m k) v)
    (λ r d, match r with
            | Ok _ => vault fb (<[(m, k) := v]> M) d
            | Err e => vault fb M d ∧ e ≠ SecretNotFound
            end) C.
Proof.
  intros Hm HC'. unfold fb_set.
  eapply (triple_bind _ _ (λ r d, vault fb M d ∧
    match r with Ok record => decrypt_record (fb_master_key fb) (full_key m k) record = Ok v
               | Err e => e ≠ SecretNotFound end)); [|intros record|done].
  - intros fs Hq HP. unfold encrypt_record, fill_bytes, random.
    destruct (aead_encrypt _ _ _ _) as [sealed|] eqn:He;
      (split_and!; [done..| |exists []; by rewrite app_nil_r]); [|done].
    apply decrypt_encrypted; [apply bytes_of_length|done].
  - apply triple_fact. intros Hr. by apply write_atomic_record.
Qed.

Lemma fb_delete_spec m k : no_char slash m = true →
  (∀ d, vault fb (delete (m, k) M) d → C d) →
  triple (vault fb M) (fb_delete fb (full_key m k))
    (λ r d, match r with
            | Ok _ => vault fb (delete (m, k) M) d ∧ is_Some (M !! (m, k))
            | Err e => vault fb M d ∧ (e = SecretNotFound → M !! (m, k) = None)
            end) C.
Proof.
  intros Hm HC' fs Hq HP. unfold fb_delete, remove_file, call, next.
  destruct (fault fs (calls fs)) as [ft|]; simpl.
  { split_and!; [done..|]. exists []. by rewrite app_nil_r. }
  pose proof HP as (_ & _ & Hr). specialize (Hr m k Hm).
  destruct (files fs !! record_path fb (full_key m k)) as [f|]; simpl in *.
  - assert (vault fb (delete (m, k) M) (delete (record_path fb (full_key m k)) (files fs)))
      by by apply vault_delete.
    split_and!; [done..| |eexists [_]; split; [done|]; auto]. by destruct (M !! (m, k)).
  - split_and!; [done..| |exists []; by rewrite app_nil_r]. intros _. by destruct (M !! (m, k)).
Qed.
End Write.

(** A read gives exactly what is stored, unless the call itself fails. *)
Lemma fb_get_exact fb M m k fs : no_char slash m = true → vault fb M (files fs) →
  (fb_get fb (full_key m k) fs).1 =
    match fault fs (calls fs) with
    | Some ft => Err (SecretOther ("failed to read secret file " +:+
                        display (record_path fb (full_key m k)) +:+ ": " +:+ ft_text ft))
    | None => ok_or (M !! (m, k)) SecretNotFound
    end.
Proof.
  intros Hm (_ & _ & Hr). unfold fb_get, read, call, next.
  destruct (fault fs (calls fs)) as [ft|]; [done|]. simpl. specialize (Hr m k Hm).
  destruct (files fs !! record_path fb (full_key m k)) as [f|], (M !! (m, k)) as [v|]; simpl in *; try done.
  by injection Hr.
Qed.

Lemma fb_get_spec fb M C m k :
  triple (vault fb M) (fb_get fb (full_key m k)) (λ _ d, vault fb M d) C.
Proof.
  intros fs Hq HP. unfold fb_get, read, call, next.
  destruct (fault fs (calls fs)) as [ft|]; simpl;
    [|destruct (files fs !! record_path fb (full_key m k)); simpl];
    (split_and!; [done..|exists []; by rewrite app_nil_r]).
Qed.
End Vault.

(** ** Opening *)

Section Opening.
  Context {Cipher : Aead}.

Abbreviation files_of := (λ d, files (dk_files d)).
Abbreviation quiet_at := (λ d, quiet (dk_files d)).

Lemma create_owner_only_dir_keeps dir d r d' : create_owner_only_dir dir d = (r, d') →
  files_of d' = files_of d ∧ (quiet_at d → quiet_at d').
Proof.
  unfold create_owner_only_dir, dir_exists, or_other, create_dir, dir_call, next. cbn [dk_dir dk_files].
  destruct (negb _ && _); [by intros [= _ <-]|].
  cbn. destruct (fault _ _); by intros [= _ <-].
Qed.

Lemma reject_world_writable_keeps dir d r d' : reject_world_writable dir d = (r, d') →
  files_of d' = files_of d ∧ (quiet_at d → quiet_at d').
Proof.
  unfold reject_world_writable, eff_bind, or_other, dir_metadata, dir_call, next.
  destruct (fault _ _); cbn; [by intros [= _ <-]|].
  destruct (dk_dir d) as [mode|]; cbn; [|by intros [= _ <-]].
  destruct (negb _); by intros [= _ <-].
Qed.

(** On a directory that holds the key, opening gives the same key or fails. *)
Lemma fb_open_again fb M d r d' : vault fb M (files_of d) → fb_open (fb_dir fb) d = (r, d') →
  files_of d' = files_of d ∧ (quiet_at d → quiet_at d') ∧ ∀ fb', r = Ok fb' → fb' = fb.
Proof.
  intros ([Hk Hl] & _ & _) Ho. unfold fb_open, eff_bind, pure in Ho.
  destruct (create_owner_only_dir _ d) as [[[]|e] d1] eqn:E1;
    destruct (create_owner_only_dir_keeps _ _ _ _ E1) as [F1 Q1]; [|by injection Ho as <- <-].
  unfold ensure_master_key, eff_bind in Ho.
  destruct (reject_world_writable _ d1) as [[[]|e] d2] eqn:E2;
    destruct (reject_world_writable_keeps _ _ _ _ E2) as [F2 Q2];
    [|injection Ho as <- <-; split_and!; [congruence|auto|done]].
  unfold on_files, read, call, next in Ho. destruct (fault _ _) in Ho.
  { injection Ho as <- <-. cbn. split_and!; [congruence|auto|done]. }
  cbn [dk_dir dk_files files] in Ho. rewrite F2, F1, Hk in Ho.
  cbn [ok_or] in Ho. unfold key_from_existing_bytes in Ho. rewrite Hl in Ho. cbn in Ho.
  injection Ho as <- <-. cbn. split_and!; [congruence|auto|].
  intros fb' [= <-]. by destruct fb.
Qed.

Lemma write_all_ok p data fs u fs' : write_all p data fs = (Ok u, fs') →
  files fs' = alter (λ f, mkFile (f_mode f) (f_data f +:+ data)) p (files fs) ∧
  (quiet fs → quiet fs') ∧ seen fs `prefix_of` seen fs'.
Proof.
  unfold write_all, next. destruct (fault _ _); [by intros [=]|]. intros [= _ <-]. cbn.
  rewrite substring_all. split_and!; [done..|]. rewrite <- app_assoc. by eexists.
Qed.

Lemma generate_ok path fs key fs' : files fs = ∅ → generate_and_write_key path fs = (Ok key, fs') →
  files fs' = {[path := mkFile mode_owner_file key]} ∧ String.length key = 32 ∧ (quiet fs → quiet fs') ∧
  {[path := mkFile mode_owner_file ""]} ∈ seen fs'.
Proof.
  intros Hf. unfold generate_and_write_key, fill_bytes, random, eff_bind, or_other, create_key_file, call, next.
  pose proof (bytes_of_length 32 (rng fs (draws fs))) as Hlen. revert Hlen.
  generalize (bytes_of 32 (rng fs (draws fs))) as key0. intros key0 Hlen.
  cbn [fault calls files]. destruct (fault _ _); [by intros [=]|].
  rewrite Hf, lookup_empty. cbn [default fmap option_fmap option_map from_option id].
  destruct (write_all path _ _) as [[[]|e] fs2] eqn:E; [|by intros [=]].
  apply write_all_ok in E as (E & Q & [ext S]). cbn [map_err pure]. intros [= <- <-]. split_and!.
  - rewrite E. cbn [files set_files]. by rewrite alter_insert_eq.
  - done.
  - intros Hq. by apply Q.
  - rewrite S. cbn [seen set_files]. rewrite !elem_of_app. left. right. by apply list_elem_of_singleton.
Qed.

(** A fresh directory opens with a new key and no secret. *)
Lemma fb_open_fresh dir d fb d' : files_of d = ∅ → fb_open dir d = (Ok fb, d') →
  fb_dir fb = dir ∧ vault fb ∅ (files_of d') ∧ (quiet_at d → quiet_at d') ∧
  {[master_key_path dir := mkFile mode_owner_file ""]} ∈ seen (dk_files d').
Proof.
  intros Hf Ho. unfold fb_open, eff_bind, pure in Ho.
  destruct (create_owner_only_dir _ d) as [[[]|e] d1] eqn:E1;
    destruct (create_owner_only_dir_keeps _ _ _ _ E1) as [F1 Q1]; [|done].
  unfold ensure_master_key, eff_bind in Ho.
  destruct (reject_world_writable _ d1) as [[[]|e] d2] eqn:E2;
    destruct (reject_world_writable_keeps _ _ _ _ E2) as [F2 Q2]; [|done].
  unfold on_files, read, call, next in Ho. destruct (fault _ _) in Ho; [done|].
  cbn [dk_dir dk_files files] in Ho. rewrite F2, F1, Hf, lookup_empty in Ho.
  cbn [ok_or fmap option_fmap option_map not_found io_kind] in Ho.
  destruct (generate_and_write_key _ _) as [[key|e] fs3] eqn:Eg; [|done].
  apply generate_ok in Eg as (F3 & Hl & Q3 & S3); [|cbn; congruence]. injection Ho as <- <-. cbn [fb_dir dk_files].
  split_and!; [done| |intros Hq; apply Q3, Q2, Q1, Hq|done].
  rewrite F3. split_and!; [split; [by rewrite lookup_singleton_eq|done]| |].
  - by apply map_Forall_singleton.
  - intros m k _. rewrite lookup_empty, lookup_singleton_ne; [done|]. symmetry. apply record_not_key.
Qed.

(** ** An interrupted first start *)

Definition other_error {A} (r : result A SecretError) : Prop :=
  match r with Ok _ => True | Err e => ∃ msg, e = SecretOther msg end.

Lemma create_owner_only_dir_error dir d : other_error (create_owner_only_dir dir d).1.
Proof.
  unfold create_owner_only_dir, dir_exists, or_other, create_dir, dir_call, next. cbn [dk_dir dk_files].
  destruct (negb _ && _); [done|]. cbn. destruct (fault _ _); cbn; eauto.
Qed.

Lemma reject_world_writable_error dir d : other_error (reject_world_writable dir d).1.
Proof.
  unfold reject_world_writable, eff_bind, or_other, dir_metadata, dir_call, next.
  destruct (fault _ _); cbn; [eauto|]. destruct (dk_dir d) as [mode|]; cbn; [|eauto].
  destruct (negb _); cbn; eauto.
Qed.

(** A key file of the wrong size is never replaced. *)
Lemma short_key_refused dir d f : files_of d !! master_key_path dir = Some f →
  String.length (f_data f) ≠ 32 →
  (∃ msg, (fb_open dir d).1 = Err (SecretOther msg)) ∧ files_of (fb_open dir d).2 = files_of d.
Proof.
  intros Hf Hl. unfold fb_open, eff_bind, pure.
  pose proof (create_owner_only_dir_error dir d) as O1.
  destruct (create_owner_only_dir _ d) as [[[]|e] d1] eqn:E1;
    destruct (create_owner_only_dir_keeps _ _ _ _ E1) as [F1 _];
    [|destruct O1 as [msg ->]; cbn; eauto].
  unfold ensure_master_key, eff_bind. pose proof (reject_world_writable_error dir d1) as O2.
  destruct (reject_world_writable _ d1) as [[[]|e] d2] eqn:E2;
    destruct (reject_world_writable_keeps _ _ _ _ E2) as [F2 _];
    [|destruct O2 as [msg ->]; cbn in *; split; [eauto|congruence]].
  unfold on_files, read, call, next. destruct (fault _ _); cbn [dk_files files].
  { cbn in *. split; [eauto|congruence]. }
  rewrite F2, F1, Hf. cbn [ok_or fmap option_fmap option_map]. unfold key_from_existing_bytes.
  destruct (Nat.eqb_spec (String.length (f_data f)) 32); [done|].
  cbn in *. split; [eauto|congruence].
Qed.

(** The disk after [n] attempts to open the store. *)
Definition after_opens (dir : Path) (n : nat) (d : Disk) : Disk := Nat.iter n (λ d, (fb_open dir d).2) d.

Lemma short_key_stays dir d f n : files_of d !! master_key_path dir = Some f →
  String.length (f_data f) ≠ 32 → files_of (after_opens dir n d) = files_of d.
Proof.
  intros Hf Hl. induction n as [|n IH]; [done|]. cbn [after_opens Nat.iter nat_rect].
  fold (after_opens dir n d). transitivity (files (dk_files (after_opens dir n d))); [|exact IH].
  apply (short_key_refused dir _ f); [|done].
  transitivity (files (dk_files d) !! master_key_path dir); [|exact Hf].
  exact (f_equal (lookup (master_key_path dir)) IH).
Qed.

(** Every first start passes through a moment, between creating the key
    file and writing the key, after which a crash leaves a store that no later
    start opens: the empty key file is refused for its size and never
    replaced, though no secret was ever stored under it. *)
Theorem first_start_crash_locks_out dir d fb d' :
  files_of d = ∅ → fb_open dir d = (Ok fb, d') →
  ∃ moment, moment ∈ seen (dk_files d') ∧
    ∀ crashed n, files_of crashed = moment →
      ∃ msg, (fb_open dir (after_opens dir n crashed)).1 = Err (SecretOther msg).
Proof.
  intros Hf Ho. set (key_file := mkFile mode_owner_file "").
  exists {[master_key_path dir := key_file]}. split.
  - by destruct (fb_open_fresh dir d fb d' Hf Ho) as (_ & _ & _ & ?).
  - intros crashed n Hc.
    assert (files_of crashed !! master_key_path dir = Some key_file) as Hk
      by (rewrite Hc; apply lookup_singleton_eq).
    apply (short_key_refused dir (after_opens dir n crashed) key_file); [|done].
    transitivity (files (dk_files crashed) !! master_key_path dir); [|exact Hk].
    exact (f_equal (lookup (master_key_path dir)) (short_key_stays dir crashed key_file n Hk (Nat.neq_0_succ 31))).
Qed.
End Opening.

(** ** Modules at the store *)

Section Modules.
  Context {Cipher : Aead} (hex : Z → string) {K : Type} {Ring : Keyring K}.
  Context (show : KeyringError → string) (debug : string → string) (dir : Path).

Inductive Request := Get (key : string) | Set_ (key value : string) | Delete (key : string).

(** A module's request, or the daemon opening the store again. *)
Inductive Event := Ask (module : string) (req : Request) | Reopen.

(** What [module] gets for a request: a value only for a [Get]. *)
Definition ask (root : Store) (module : string) (req : Request) :
    eff (Machine (K := K)) SecretError (option string) :=
  let view := store_for root module in
  match req with
  | Get key => let! v := store_get show debug view key in pure (Ok (Some v))
  | Set_ key value => let! _ := store_set hex show debug view key value in pure (Ok None)
  | Delete key => let! _ := store_delete show debug view key in pure (Ok None)
  end.

(** A store that does not open again leaves the one there was. *)
Definition handle (ev : Event) (s : Store * Machine (K := K)) :
    option (string * Request * result (option string) SecretError) * (Store * Machine (K := K)) :=
  let '(root, w) := s in
  match ev with
  | Ask module req => let '(r, w) := ask root module req w in (Some (module, req, r), (root, w))
  | Reopen =>
      let '(r, w) := store_open (mkConfig "" (FileOnly dir)) w in
      (None, (match r with Some (Ok root') => root' | _ => root end, w))
  end.

(** Handles the events in turn, recording what was asked and answered. *)
Fixpoint run (evs : list Event) (s : Store * Machine (K := K)) :
    list (string * Request * result (option string) SecretError) * (Store * Machine (K := K)) :=
  match evs with
  | [] => ([], s)
  | ev :: evs =>
      let '(entry, s) := handle ev s in
      let '(rest, s) := run evs s in
      (option_list entry ++ rest, s)
  end.

(** The secrets after the requests answered with success. *)
Definition remember (M : gmap (string * string) string)
    (entry : string * Request * result (option string) SecretError) : gmap (string * string) string :=
  match entry with
  | (module, Set_ key value, Ok _) => <[(module, key) := value]> M
  | (module, Delete key, Ok _) => delete (module, key) M
  | _ => M
  end.

Definition remembered (log : list (string * Request * result (option string) SecretError)) :
    gmap (string * string) string := foldl remember ∅ log.

Definition asks_plainly (ev : Event) : bool :=
  match ev with Ask module _ => plain_name module | Reopen => true end.

Abbreviation files_at := (λ w, files (dk_files (mc_disk w))).

(** The store's backend is [fb], whose files hold the secrets of [M]. *)
Definition tracks fb M (s : Store * Machine (K := K)) : Prop :=
  st_backend s.1 = ActiveFile fb ∧ fb_dir fb = dir ∧
  vault fb M (files_at s.2) ∧ quiet (dk_files (mc_disk s.2)).

Lemma view_key root module key : plain_name module = true →
  make_key (store_for root module) key = full_key module key ∧ no_char slash module = true.
Proof.
  intros [Hne Hns]%andb_true_iff. split; [|done]. unfold make_key. cbn [st_namespace store_for namespaced].
  by destruct (String.eqb module "").
Qed.

Lemma on_disk_files {A} (m : eff Files.t SecretError A) (w : Machine (K := K)) :
  on_disk (on_files m) w =
    ((m (dk_files (mc_disk w))).1,
     mkMachine (mkDisk (dk_dir (mc_disk w)) (m (dk_files (mc_disk w))).2) (mc_ring w)).
Proof. unfold on_disk, on_files. by destruct (m _). Qed.

Lemma ask_tracks fb M root w module req r w' : plain_name module = true →
  tracks fb M (root, w) → ask root module req w = (r, w') →
  tracks fb (remember M (module, req, r)) (root, w').
Proof.
  intros Hn (Hb & Hd & Hv & Hq). cbn [fst snd] in *. unfold ask.
  destruct req as [key|key value|key]; unfold eff_bind, store_get, store_set, store_delete;
    destruct (view_key root module key Hn) as [-> Hm];
    cbn [st_backend store_for namespaced]; rewrite Hb, on_disk_files.
  - pose proof (fb_get_spec fb M (λ _, True) module key _ Hq Hv) as H.
    destruct (fb_get _ _ _) as [[v|e] fs]; destruct H as (? & ? & _); intros [= <- <-]; done.
  - pose proof (fb_set_spec hex fb M (λ _, True) (λ _ _, I) module key value Hm (λ _ _, I) _ Hq Hv) as H.
    destruct (fb_set _ _ _ _ _) as [[v|e] fs]; destruct H as (? & HQ & _); intros [= <- <-]; [done|].
    by destruct HQ.
  - pose proof (fb_delete_spec fb M (λ _, True) module key Hm (λ _ _, I) _ Hq Hv) as H.
    destruct (fb_delete _ _ _) as [[v|e] fs]; destruct H as (? & [? ?] & _); intros [= <- <-]; done.
Qed.

Lemma reopen_tracks fb M root w r w' : tracks fb M (root, w) →
  store_open (mkConfig "" (FileOnly dir)) w = (r, w') →
  tracks fb M (match r with Some (Ok root') => root' | _ => root end, w').
Proof.
  intros (Hb & Hd & Hv & Hq). cbn [fst snd] in *.
  unfold store_open, on_disk, eff_bind, pure. cbn [cf_backend].
  destruct (fb_open dir (mc_disk w)) as [ro d'] eqn:E.
  rewrite <- Hd in E. destruct (fb_open_again fb M _ _ _ Hv E) as (F & Q & Hfb).
  assert (vault fb M (files (dk_files d'))) by by rewrite F.
  destruct ro as [fb'|e]; intros [= <- <-]; [|split_and!; auto].
  rewrite (Hfb fb' eq_refl). split_and!; cbn; auto.
Qed.

Lemma run_tracks evs fb M s log s' : forallb asks_plainly evs = true → tracks fb M s →
  run evs s = (log, s') → tracks fb (foldl remember M log) s'.
Proof.
  revert M s log. induction evs as [|ev evs IH]; intros M [root w] log; cbn [forallb run].
  { by intros _ ? [= <- <-]. }
  intros [Hev Hevs]%andb_true_iff Ht.
  destruct (handle ev (root, w)) as [entry s1] eqn:Eh. destruct (run evs s1) as [rest s2] eqn:Er.
  intros [= <- <-]. rewrite foldl_app. apply (IH _ _ _ Hevs) with (2 := Er).
  destruct ev as [module req|]; cbn [handle] in Eh.
  - destruct (ask root module req w) as [r w1] eqn:Ea. injection Eh as <- <-.
    exact (ask_tracks fb M root w module req r w1 Hev Ht Ea).
  - destruct (store_open _ w) as [r w1] eqn:Eo. injection Eh as <- <-.
    exact (reopen_tracks fb M root w r w1 Ht Eo).
Qed.

Lemma open_tracks w root w' : files_at w = ∅ → quiet (dk_files (mc_disk w)) →
  store_open (mkConfig "" (FileOnly dir)) w = (Some (Ok root), w') → ∃ fb, tracks fb ∅ (root, w').
Proof.
  intros Hf Hq. unfold store_open, on_disk, eff_bind, pure. cbn [cf_backend].
  destruct (fb_open dir (mc_disk w)) as [[fb|e] d'] eqn:E; intros [= <- <-].
  destruct (fb_open_fresh dir _ fb d' Hf E) as (? & ? & Q & _). exists fb. split_and!; cbn; auto.
Qed.

(** C23: From a fresh directory on, and whatever modules with plain names ask,
    whichever calls fail and however often the store is opened again, a module
    that reads a key gets the value of its own last successful write, "not
    found" if there is none or it was deleted since, and an error of another
    kind only when that very read fails. *)
Theorem module_reads_its_last_write w root w1 evs log root' w' module key :
  files_at w = ∅ → quiet (dk_files (mc_disk w)) →
  store_open (mkConfig "" (FileOnly dir)) w = (Some (Ok root), w1) →
  forallb asks_plainly evs = true → plain_name module = true →
  run evs (root, w1) = (log, (root', w')) →
  let fs := dk_files (mc_disk w') in
  match fault fs (calls fs) with
  | None => (store_get show debug (store_for root' module) key w').1 =
              ok_or (remembered log !! (module, key)) SecretNotFound
  | Some _ => ∃ msg, (store_get show debug (store_for root' module) key w').1 = Err (SecretOther msg)
  end.
Proof.
  intros Hf Hq Ho Hevs Hm Hr. destruct (open_tracks w root w1 Hf Hq Ho) as [fb Ht].
  destruct (run_tracks evs fb ∅ _ _ _ Hevs Ht Hr) as (Hb & _ & Hv & _). cbn [fst snd] in *.
  destruct (view_key root' module key Hm) as [Hk Hs].
  cbv zeta. unfold store_get. rewrite Hk. cbn [st_backend store_for namespaced].
  rewrite Hb, on_disk_files. cbn [fst]. rewrite (fb_get_exact fb _ module key _ Hs Hv).
  destruct (fault _ _); eauto.
Qed.

(** C24: At every moment of a write, so after a crash at any of them, the store
    holds either all the secrets it held before or those with the new value,
    and all its files are its owner's alone; the new value is there exactly
    when the write reports success. *)
Theorem secret_write_all_or_nothing fb M root w module key value r w' :
  tracks fb M (root, w) → plain_name module = true →
  store_set hex show debug (store_for root module) key value w = (r, w') →
  (∃ moments, seen (dk_files (mc_disk w')) = seen (dk_files (mc_disk w)) ++ moments ∧
     Forall (λ d, vault fb M d ∨ vault fb (<[(module, key) := value]> M) d) moments) ∧
  match r with
  | Ok _ => vault fb (<[(module, key) := value]> M) (files_at w')
  | Err e => vault fb M (files_at w') ∧ e ≠ SecretNotFound
  end.
Proof.
  intros (Hb & _ & Hv & Hq) Hn Hset. cbn [fst snd] in *. unfold store_set in Hset.
  destruct (view_key root module key Hn) as [Hk Hm]. rewrite Hk in Hset.
  cbn [st_backend store_for namespaced] in Hset. rewrite Hb, on_disk_files in Hset.
  pose proof (fb_set_spec hex fb M (λ d, vault fb M d ∨ vault fb (<[(module, key) := value]> M) d)
    (λ _ H, or_introl H) module key value Hm (λ _ H, or_intror H) _ Hq Hv) as H.
  destruct (fb_set _ _ _ _ _) as [r0 fs]. destruct H as (_ & HQ & ext & Hext & HF).
  injection Hset as <- <-. split; [by exists ext|exact HQ].
Qed.

(** What a module named [a/b] writes, the module [a] reads. *)
Theorem slash_names_share_secrets root a b key : plain_name a = true →
  make_key (store_for root (a +:+ "/" +:+ b)) key = make_key (store_for root a) (b +:+ "/" +:+ key).
Proof.
  intros Hn. destruct (view_key root a (b +:+ "/" +:+ key) Hn) as [-> _]. unfold make_key.
  cbn [st_namespace store_for namespaced]. destruct a as [|c a]; [done|].
  cbn [String.eqb]. unfold full_key. by rewrite !string_app_assoc.
Qed.
End Modules.

(** ** Secret storage: concrete runs

    The theorems of [SecretsProps] at a store that is opened, used by two
    modules, hit by a failing call and opened again. *)

Module SecretsWitness.

Lemma with_first {A B : Type} (p : A * B) a : p.1 = a → p = (a, p.2).
Proof. destruct p. by intros <-. Qed.

(** A cipher that only binds the associated data. *)
Definition bound_encrypt (key nonce aad msg : string) : option string := Some (aad +:+ msg).
Definition bound_decrypt (key nonce aad sealed : string) : option string := strip_prefix aad sealed.

Lemma bound_opens (key nonce aad msg sealed : string) :
  bound_encrypt key nonce aad msg = Some sealed → bound_decrypt key nonce aad sealed = Some msg.
Proof. intros [= <-]. apply strip_prefix_app. Qed.

Lemma bound_authentic (key nonce aad msg sealed : string) :
  bound_decrypt key nonce aad sealed = Some msg → bound_encrypt key nonce aad msg = Some sealed.
Proof.
  unfold bound_encrypt, bound_decrypt. intros H. f_equal. revert sealed H.
  induction aad as [|c aad IH]; intros [|c' sealed]; cbn [strip_prefix]; [by intros [= <-]..|done|].
  destruct (decide (c = c')) as [->|]; [|done]. intros H. rewrite string_app_cons. by rewrite (IH _ H).
Qed.

#[local] Instance BoundCipher : Aead := {|
  aead_encrypt := bound_encrypt; aead_decrypt := bound_decrypt;
  aead_opens := bound_opens; aead_authentic := bound_authentic;
|}.

(** No keyring answers. *)
#[local] Instance NoRing : Keyring unit := {|
  entry_new _ _ := Ok ();
  get_secret _ _ k := (Some (Err (KeyringOther "no session")), k);
  set_secret _ _ _ k := (Some (Err (KeyringOther "no session")), k);
  delete_credential _ _ k := (Some (Err (KeyringOther "no session")), k);
|}.

Local Abbreviation hex := (λ v : Z, pretty v).
Local Abbreviation show := (λ _ : KeyringError, "keyring").
Local Abbreviation debug := (λ s : string, s).
Local Abbreviation dir := ["var"; "secrets"].

(** A directory that is not there yet; the 13th call fails. *)
Definition fresh : Machine (K := unit) :=
  mkMachine
    (mkDisk None
       (Files.mk ∅ (λ n, if (n =? 13)%nat then Some (Files.mkFault "disk full" 3) else None) 0
          (λ _, false) 0 (λ n, Z.of_nat n) 0 []))
    ().

Definition opening := store_open (mkConfig "" (FileOnly dir)) fresh.

Definition some_store : Store := mkStore (ActivePlatform (mkPlatformBackend "none")) "".

Definition root : Store := match opening.1 with Some (Ok s) => s | _ => some_store end.

Definition events : list Event :=
  [Ask "vpn" (Set_ "token" "v1"); Ask "bot" (Set_ "token" "b1");
   Ask "vpn" (Set_ "token" "v2"); Reopen; Ask "bot" (Delete "token")].

Definition ran := run hex show debug dir events (root, opening.2).

Lemma fresh_opens : store_open (mkConfig "" (FileOnly dir)) fresh = (Some (Ok root), opening.2).
Proof. apply with_first. vm_compute. reflexivity. Qed.

Lemma ran_splits : run hex show debug dir events (root, opening.2) = (ran.1, (ran.2.1, ran.2.2)).
Proof. unfold ran. by destruct (run _ _ _ _ _ _) as [log [r w]]. Qed.

Lemma ran_no_fault :
  Files.fault (dk_files (mc_disk ran.2.2)) (Files.calls (dk_files (mc_disk ran.2.2))) = None.
Proof. vm_compute. reflexivity. Qed.

Lemma ran_remembered : remembered ran.1 !! ("vpn", "token") = Some "v1".
Proof. vm_compute. reflexivity. Qed.

(** The second write of [vpn] fails, so its first value is read. *)
Lemma module_reads_its_last_write_witness :
  (store_get show debug (store_for ran.2.1 "vpn") "token" ran.2.2).1 = Ok "v1".
Proof.
  pose proof (module_reads_its_last_write hex show debug dir fresh root opening.2 events ran.1
    ran.2.1 ran.2.2 "vpn" "token" eq_refl (λ _, eq_refl) fresh_opens eq_refl eq_refl ran_splits) as H.
  cbv zeta in H. rewrite ran_no_fault, ran_remembered in H. exact H.
Defined.

Definition backend : FileBackend :=
  match st_backend root with ActiveFile fb => fb | ActivePlatform _ => mkFileBackend [] "" end.

Lemma opening_tracks : tracks dir backend ∅ (root, opening.2).
Proof.
  destruct (open_tracks dir fresh root opening.2 eq_refl (λ _, eq_refl) fresh_opens) as [fb H].
  assert (st_backend root = ActiveFile fb) as E by exact (proj1 H). unfold backend. by rewrite E.
Qed.

Definition writing := store_set hex show debug (store_for root "vpn") "token" "v1" opening.2.

Lemma writing_ok : store_set hex show debug (store_for root "vpn") "token" "v1" opening.2 = (Ok (), writing.2).
Proof. apply with_first. vm_compute. reflexivity. Qed.

Lemma secret_write_all_or_nothing_witness :
  vault backend {[("vpn", "token") := "v1"]} (Files.files (dk_files (mc_disk writing.2))).
Proof.
  exact (proj2 (secret_write_all_or_nothing hex show debug dir backend ∅ root opening.2 "vpn" "token" "v1"
                  (Ok ()) writing.2 opening_tracks eq_refl writing_ok)).
Defined.

Definition first_open := fb_open dir (mc_disk fresh).

Lemma first_open_ok : fb_open dir (mc_disk fresh) = (Ok backend, first_open.2).
Proof. apply with_first. vm_compute. reflexivity. Qed.

Lemma first_start_crash_locks_out_witness :
  ∃ moment, moment ∈ Files.seen (dk_files first_open.2) ∧
    ∀ crashed n, Files.files (dk_files crashed) = moment →
      ∃ msg, (fb_open dir (after_opens dir n crashed)).1 = Err (SecretOther msg).
Proof.
  exact (first_start_crash_locks_out dir (mc_disk fresh) backend first_open.2 eq_refl first_open_ok).
Defined.

End SecretsWitness.
