(* ===== verification/License.v ===== *)
(** * Licensing (crates/penguin-licensing)

    The daemon's licence client: the entitlements it answers from memory, the
    refresh that fetches them (client.rs), and the cache file that carries them
    over a restart (cache.rs).  Files are those of [Hooks.Files]; the server is
    a sequence of answers, JSON a parameter with its round trip.

    [LicenseProps] shows that a refresh that fails changes nothing and
    that the cache is replaced as a whole; a restart then answers as before. *)
From S2P Require Import Prelude.
From S2P Require Import Text.
From S2P Require Import Hooks.
From S2P Require Import HooksFacts.

(** ** Data *)

Record CacheFile := mkCacheFile {
  cf_tier : string;
  cf_features : gmap string bool;
  cf_fetched_at : Z;
}.

Record ValidateFeature := mkValidateFeature { vf_name : string; vf_entitled : bool }.
Record ValidateResponse := mkValidateResponse { vr_tier : string; vr_features : list ValidateFeature }.

(** [serde_json] on the cache file and the server's answer. *)
Class LicenseCodec := {
  cache_to_vec_pretty : CacheFile → result string string;
  cache_from_slice : string → result CacheFile string;
  cache_round_trip : ∀ f raw, cache_to_vec_pretty f = Ok raw → cache_from_slice raw = Ok f;
  response_from_slice : string → result ValidateResponse string;
}.

(** A time is its nanoseconds since the epoch. *)
Definition nanos : Z := 1000000000.

Definition unix_seconds (at_ : Z) : Z :=
  if (at_ <? 0)%Z then 0 else wrap_i64 (at_ / nanos).

Definition system_time (unix_secs : Z) : Z :=
  if (unix_secs <? 0)%Z then 0 else (unix_secs * nanos)%Z.

(** ** The world of a client *)

Record Post := mkPost { po_url : string; po_authorization : string; po_product : string }.

(** An answer: the request fails, the body cannot be read, or a status and a
    body. *)
Inductive Reply := NoConnection (err : string) | BrokenBody (err : string) | Replied (status : Z) (body : string).

Record World := mkWorld {
  w_files : Files.t;
  w_pid : Z;                      (* the process *)
  w_sequence : Z;                 (* its temporary-name counter *)
  w_sent : list Post;
  w_reply : nat → Reply;          (* what the n-th request gets *)
  w_now : nat → Z;                (* the clock at the n-th reading *)
  w_readings : nat;
  w_log : list string;
}.

Definition on_files {E A} (m : eff Files.t E A) : eff World E A := λ w,
  let '(r, fs) := m (w_files w) in
  (r, mkWorld fs (w_pid w) (w_sequence w) (w_sent w) (w_reply w) (w_now w) (w_readings w) (w_log w)).

Definition debug_log (msg : string) (w : World) : World :=
  mkWorld (w_files w) (w_pid w) (w_sequence w) (w_sent w) (w_reply w) (w_now w) (w_readings w)
    (w_log w ++ [msg]).

Definition now (w : World) : Z * World :=
  (w_now w (w_readings w),
   mkWorld (w_files w) (w_pid w) (w_sequence w) (w_sent w) (w_reply w) (w_now w) (S (w_readings w)) (w_log w)).

Definition post (p : Post) (w : World) : Reply * World :=
  (w_reply w (length (w_sent w)),
   mkWorld (w_files w) (w_pid w) (w_sequence w) (w_sent w ++ [p]) (w_reply w) (w_now w) (w_readings w) (w_log w)).

(** ** The cache file (cache.rs) *)

Section Cache.
  Context {Codec : LicenseCodec}.

Definition cache_path (cache_dir : Path) : Path := cache_dir ++ ["license-cache.json"].

(** The counter wraps at 64 bits. *)
Definition unique_tmp_path (cache_dir : Path) (w : World) : Path * World :=
  (cache_dir ++ [".license-cache-" +:+ pretty (w_pid w) +:+ "-" +:+ pretty (w_sequence w) +:+ ".tmp"],
   mkWorld (w_files w) (w_pid w) (wrap_u64 (w_sequence w + 1)) (w_sent w) (w_reply w) (w_now w)
     (w_readings w) (w_log w)).

(** [File::create]: a new file with the default mode, an existing one emptied. *)
Definition file_create (p : Path) : eff Files.t Files.IoError unit :=
  Files.call (λ fs,
    (Ok (), Files.set_files
              (<[p := Files.mkFile (default (6 * 64 + 4 * 8 + 4)%Z (Files.f_mode <$> Files.files fs !! p)) ""]>
                 (Files.files fs)) fs)).

Definition lock_down_permissions (p : Path) : eff Files.t Files.IoError unit :=
  Files.set_permissions p (6 * 64).

(** The temporary file, from its creation to the rename over the cache. *)
Definition write_cache (cache_dir tmp_path : Path) (raw : string) : eff Files.t Files.IoError unit :=
  let! _ := file_create tmp_path in
  let! _ := or_remove tmp_path (lock_down_permissions tmp_path) in
  let! _ := or_remove tmp_path (Files.write_all tmp_path raw) in
  let! _ := or_remove tmp_path Files.sync_all in
  Files.rename tmp_path (cache_path cache_dir).

Definition persist (cache_dir : Path) (data : CacheFile) : eff World Files.IoError unit :=
  let! _ := on_files (Files.create_dir_all cache_dir) in
  let! raw := pure (map_err (Files.mkIoError Files.InvalidData) (cache_to_vec_pretty data)) in
  λ w, let '(tmp_path, w) := unique_tmp_path cache_dir w in
       on_files (write_cache cache_dir tmp_path raw) w.

Definition load (cache_dir : Path) (w : World) : option CacheFile * World :=
  let '(r, w) := on_files (Files.read (cache_path cache_dir)) w in
  (match r with
   | Ok raw => match cache_from_slice raw with Ok f => Some f | Err _ => None end
   | Err _ => None
   end, w).
End Cache.

(** ** The client (client.rs) *)

Section Client.
  Context {Codec : LicenseCodec}.
  (** [String::from_utf8_lossy]. *)
  Context (lossy : string → string).

Definition DEFAULT_BASE_URL : string := "https://license.penguintech.io".
Definition DEFAULT_PRODUCT : string := "penguin".
Definition VALIDATE_PATH : string := "/api/v2/validate".

Record Options := mkOptions {
  op_license_key : string;
  op_product : string;
  op_base_url : string;
  op_cache_dir : option Path;
}.

Record State := mkState { s_tier : string; s_features : gmap string bool; s_fetched_at : Z }.

Definition state_empty : State := mkState "" ∅ 0.

Record LicenseClient := mkClient {
  c_license_key : string;
  c_product : string;
  c_base_url : string;
  c_cache_dir : option Path;
  c_state : State;
}.

Definition set_state (s : State) (c : LicenseClient) : LicenseClient :=
  mkClient (c_license_key c) (c_product c) (c_base_url c) (c_cache_dir c) s.

Definition load_into (cache_dir : Path) (state : State) (w : World) : State * World :=
  let '(file, w) := load cache_dir w in
  (match file with
   | None => state
   | Some file => mkState (cf_tier file) (cf_features file) (system_time (cf_fetched_at file))
   end, w).

Definition client_new (options : Options) (w : World) : LicenseClient * World :=
  let product := if String.eqb (op_product options) "" then DEFAULT_PRODUCT else op_product options in
  let base_url := if String.eqb (op_base_url options) "" then DEFAULT_BASE_URL else op_base_url options in
  let '(state, w) :=
    match op_cache_dir options with
    | Some dir => load_into dir state_empty w
    | None => (state_empty, w)
    end in
  (mkClient (op_license_key options) product base_url (op_cache_dir options) state, w).

Inductive FetchError :=
| FetchRequest (err : string)
| FetchBody (err : string)
| FetchStatus (status : Z) (snippet : string)
| FetchDecode (err : string).

Definition FetchError_display (e : FetchError) : string :=
  match e with
  | FetchRequest err => "license server unreachable: " +:+ err
  | FetchBody err => "failed to read response body: " +:+ err
  | FetchStatus status snippet => "license server returned " +:+ pretty status +:+ ": " +:+ snippet
  | FetchDecode err => "failed to parse response: " +:+ err
  end.

Definition fetch (c : LicenseClient) : eff World FetchError ValidateResponse := λ w,
  let '(reply, w) :=
    post (mkPost (c_base_url c +:+ VALIDATE_PATH) ("Bearer " +:+ c_license_key c) (c_product c)) w in
  (match reply with
   | NoConnection err => Err (FetchRequest err)
   | BrokenBody err => Err (FetchBody err)
   | Replied status body =>
       if negb (status =? 200)%Z then Err (FetchStatus status (lossy body))
       else map_err FetchDecode (response_from_slice body)
   end, w).

(** A later entry for a name replaces an earlier one. *)
Definition feature_map (features : list ValidateFeature) : gmap string bool :=
  foldl (λ m f, <[vf_name f := vf_entitled f]> m) ∅ features.

Definition update_cache (info : ValidateResponse) (c : LicenseClient) (w : World) : LicenseClient * World :=
  let features := feature_map (vr_features info) in
  let '(fetched_at, w) := now w in
  let c := set_state (mkState (vr_tier info) features fetched_at) c in
  match c_cache_dir c with
  | None => (c, w)
  | Some dir =>
      let '(r, w) := persist dir (mkCacheFile (vr_tier info) features (unix_seconds fetched_at)) w in
      (c, match r with
          | Ok _ => w
          | Err err => debug_log ("failed to persist license cache: " +:+ Files.io_text err) w
          end)
  end.

Definition refresh (c : LicenseClient) (w : World) : LicenseClient * World :=
  if String.eqb (c_license_key c) "" then
    (set_state (mkState "" ∅ (s_fetched_at (c_state c))) c, w)
  else
    let '(info, w) := fetch c w in
    match info with
    | Ok info => update_cache info c w
    | Err err => (c, debug_log ("failed to fetch license: " +:+ FetchError_display err) w)
    end.

(** The task of [spawn_background_refresh]: a refresh at once and one at each
    of the [ticks] before it is stopped. *)
Definition background_refresh (ticks : nat) (s : LicenseClient * World) : LicenseClient * World :=
  Nat.iter ticks (λ s, refresh s.1 s.2) (refresh s.1 s.2).

Definition feature_enabled (c : LicenseClient) (key : string) : bool :=
  if String.eqb (c_license_key c) "" then false
  else default false (s_features (c_state c) !! key).

Definition tier (c : LicenseClient) : string := s_tier (c_state c).
End Client.
