(* ===== verification/LicenseProps.v ===== *)
(** * Licensing: theorems

    A refresh and the cache file, whatever the server answers and whichever
    calls fail ([license_degrades_gracefully]), the cache over a restart
    ([entitlements_survive_restart]), and what a client without a key shows. *)
From Stdlib Require Import Strings.String.
From S2P Require Import Prelude.
From S2P Require Import StateFile.
From S2P Require Import Text.
From S2P Require Import Hooks.
From S2P Require Import HooksFacts.
From S2P Require Import HooksProps.
From S2P Require Import License.
Import Files.

Section Facts.
  Context {Codec : LicenseCodec} (lossy : string → string).

(** What a load finds. *)
Definition cached (dir : Path) (d : disk) : option CacheFile :=
  f ← d !! cache_path dir;
  match cache_from_slice (f_data f) with Ok c => Some c | Err _ => None end.

Section Persist.
  Context (dir : Path) (o : option File) (C : disk → Prop).
  Context (HC : ∀ d, d !! cache_path dir = o → C d).

Definition tmp_of (tmp : Path) : Prop := ∃ s, tmp = dir ++ ["." +:+ s].

Lemma cache_not_tmp tmp : tmp_of tmp → tmp ≠ cache_path dir.
Proof. intros [s ->] [_ E]%app_inj_tail. discriminate E. Qed.

(** The cache is still [o] and the temporary file is [f]. *)
Definition staged (tmp : Path) (f : File) (d : disk) : Prop := d !! cache_path dir = o ∧ d !! tmp = Some f.

Lemma cache_alter (tmp : Path) (g : File → File) (d : disk) : tmp_of tmp → d !! cache_path dir = o → alter g tmp d !! cache_path dir = o.
Proof. intros Ht Hd. rewrite lookup_alter_ne; [done|]. by apply cache_not_tmp. Qed.

Lemma cache_delete (tmp : Path) (d : disk) : tmp_of tmp → d !! cache_path dir = o → delete tmp d !! cache_path dir = o.
Proof. intros Ht Hd. rewrite lookup_delete_ne; [done|]. by apply cache_not_tmp. Qed.

Lemma file_create_spec tmp : tmp_of tmp →
  triple (λ d, d !! cache_path dir = o) (file_create tmp)
    (λ r d, match r with Ok _ => ∃ mode, staged tmp (mkFile mode "") d | Err _ => d !! cache_path dir = o end) C.
Proof.
  intros Ht. apply triple_call; [|done].
  apply (triple_set _ (λ _, Ok ())
    (λ d, <[tmp := mkFile (default (6 * 64 + 4 * 8 + 4)%Z (f_mode <$> d !! tmp)) ""]> d)).
  intros d Hd. assert (∀ f : File, <[tmp := f]> d !! cache_path dir = o) as Hi.
  { intros f. rewrite lookup_insert_ne; [done|]. by apply cache_not_tmp. }
  split; [|by apply HC]. eexists. split; [apply Hi|apply lookup_insert_eq].
Qed.

Lemma lock_down_spec tmp f : tmp_of tmp →
  triple (staged tmp f) (lock_down_permissions tmp)
    (λ r d, match r with Ok _ => staged tmp (mkFile (6 * 64) (f_data f)) d | Err _ => d !! cache_path dir = o end) C.
Proof.
  intros Ht. apply triple_call; [|by intros e d _ [? _]].
  apply (triple_set (staged tmp f) (λ _, Ok ()) (alter (λ f, mkFile (6 * 64) (f_data f)) tmp)).
  intros d [Hs Hd]. pose proof (cache_alter tmp (λ f, mkFile (6 * 64) (f_data f)) d Ht Hs).
  split; [|by apply HC]. split; [done|]. by rewrite lookup_alter_eq, Hd.
Qed.

(** The new cache file, its owner's alone. *)
Definition replaced (raw : string) (d : disk) : Prop := d !! cache_path dir = Some (mkFile (6 * 64) raw).

Lemma rename_cache tmp raw : tmp_of tmp → (∀ d, replaced raw d → C d) →
  triple (staged tmp (mkFile (6 * 64) raw)) (rename tmp (cache_path dir))
    (λ r d, match r with Ok _ => replaced raw d | Err _ => d !! cache_path dir = o end) C.
Proof.
  intros Ht HC'. apply triple_call; [|by intros e d _ [? _]]. intros fs Hq [Hs Hd]. rewrite Hd. simpl.
  assert (replaced raw (<[cache_path dir := mkFile (6 * 64) raw]> (delete tmp (files fs))))
    by apply lookup_insert_eq.
  split_and!; [done..|]. eexists [_]. split; [done|]. auto.
Qed.

Lemma write_cache_spec tmp raw : tmp_of tmp → (∀ d, replaced raw d → C d) →
  triple (λ d, d !! cache_path dir = o)
    (write_cache dir tmp raw)
    (λ r d, match r with Ok _ => replaced raw d | Err _ => d !! cache_path dir = o end) C.
Proof.
  intros Ht HC'. pose proof (λ d, cache_delete tmp d Ht) as Hdel.
  pose proof (λ d g (_ : ∀ f, f_mode (g f) = f_mode f), cache_alter tmp g d Ht) as Halt.
  eapply triple_bind; [by apply file_create_spec| |done]. intros u.
  apply (triple_exists (λ mode, staged tmp (mkFile mode ""))). intros mode.
  eapply (triple_bind _ _ (λ r d, match r with Ok _ => staged tmp (mkFile (6 * 64) "") d
                                           | Err _ => d !! cache_path dir = o end)); [|intros _|done].
  { apply (or_remove_inv _ C HC tmp _ _ (λ _, _) Hdel). by apply (lock_down_spec tmp (mkFile mode "")). }
  eapply (triple_bind _ _ (λ r d, match r with Ok _ => staged tmp (mkFile (6 * 64) raw) d
                                           | Err _ => d !! cache_path dir = o end)); [|intros _|done].
  { by apply (or_remove_inv _ C HC tmp _ _ (λ _, _) Hdel), (write_all_inv _ C HC). }
  eapply (triple_bind _ _ (λ r d, match r with Ok _ => staged tmp (mkFile (6 * 64) raw) d
                                           | Err _ => d !! cache_path dir = o end));
    [|intros _; by apply rename_cache|done].
  apply (or_remove_inv _ C HC tmp _ _ (λ _, _) Hdel).
  apply triple_call; [by apply triple_pure|]. by intros e d _ [? _].
Qed.
End Persist.

Abbreviation disk_of := (λ w, files (w_files w)).

(** The moments of [w'] that [w] had not seen. *)
Definition moments (w w' : World) (ds : list disk) : Prop :=
  seen (w_files w') = seen (w_files w) ++ ds.

Lemma persist_spec dir data w r w' : quiet (w_files w) → persist dir data w = (r, w') →
  quiet (w_files w') ∧
  (∃ ds, moments w w' ds ∧
     Forall (λ d, d !! cache_path dir = disk_of w !! cache_path dir ∨ cached dir d = Some data) ds) ∧
  match r with
  | Ok _ => cached dir (disk_of w') = Some data
  | Err _ => disk_of w' !! cache_path dir = disk_of w !! cache_path dir
  end.
Proof.
  intros Hq Hp. unfold persist, eff_bind, create_dir_all, on_files, call, next in Hp.
  destruct (fault _ _) in Hp.
  { injection Hp as <- <-. split_and!; [done| |done]. exists []. split; [|done]. unfold moments.
    by rewrite app_nil_r. }
  cbn [pure] in Hp. destruct (cache_to_vec_pretty data) as [raw|e] eqn:Er; cbn [map_err] in Hp.
  2: { injection Hp as <- <-. split_and!; [done| |done]. exists []. split; [|done]. unfold moments.
       by rewrite app_nil_r. }
  cbn [unique_tmp_path w_files] in Hp.
  set (tmp := dir ++ [_]) in Hp.
  assert (tmp_of dir tmp) as Ht by (eexists; reflexivity).
  assert (∀ d, replaced dir raw d → cached dir d = Some data) as Hnew.
  { intros d Hd. unfold cached. rewrite Hd. simpl. by rewrite (cache_round_trip _ _ Er). }
  set (fs := mk _ _ _ _ _ _ _ _) in Hp.
  epose proof (write_cache_spec dir (files fs !! cache_path dir)
    (λ d, d !! cache_path dir = files fs !! cache_path dir ∨ cached dir d = Some data)
    (λ d H, or_introl H) tmp raw Ht (λ d H, or_intror (Hnew d H)) fs Hq eq_refl) as H.
  destruct (write_cache dir tmp raw fs) as [r0 fs']. injection Hp as <- <-.
  destruct H as (Hq' & HQ & ds & Hds & HF). split_and!; [done|exists ds; split; [exact Hds|exact HF]|].
  destruct r0; [by apply Hnew|done].
Qed.

(** ** A refresh *)

(** The entitlements an answer grants: only a 200 with a readable body. *)
Definition granted (reply : Reply) : option ValidateResponse :=
  match reply with
  | Replied status body =>
      if (status =? 200)%Z then match response_from_slice body with Ok info => Some info | Err _ => None end
      else None
  | _ => None
  end.

Definition next_reply (w : World) : Reply := w_reply w (length (w_sent w)).

Lemma fetch_spec c w r w' : fetch lossy c w = (r, w') →
  w_files w' = w_files w ∧ w_log w' = w_log w ∧
  w_sent w' = w_sent w ++ [mkPost (c_base_url c +:+ VALIDATE_PATH) ("Bearer " +:+ c_license_key c) (c_product c)] ∧
  match granted (next_reply w) with Some info => r = Ok info | None => ∃ e, r = Err e end.
Proof.
  unfold fetch, post, next_reply. intros [= <- <-]. split_and!; [done..|]. unfold granted.
  destruct (w_reply w _) as [err|err|status body]; [by eexists..|].
  destruct (status =? 200)%Z; cbn [negb]; [|by eexists].
  destruct (response_from_slice body); cbn; eauto.
Qed.

(** The client after entitlements were granted. *)
Definition entitled (info : ValidateResponse) (at_ : Z) (c : LicenseClient) : LicenseClient :=
  set_state (mkState (vr_tier info) (feature_map (vr_features info)) at_) c.

Lemma now_spec w t w' : now w = (t, w') → t = w_now w (w_readings w) ∧ w_files w' = w_files w ∧ w_sent w' = w_sent w.
Proof. by intros [= <- <-]. Qed.

Lemma persist_sent dir data w : w_sent (persist dir data w).2 = w_sent w.
Proof.
  unfold persist, eff_bind, on_files, create_dir_all, call, next.
  destruct (fault _ _); [done|]. cbn. destruct (map_err _ _); [|done]. cbn.
  by destruct (write_cache _ _ _ _).
Qed.

(** A refresh sends one request, and unless its answer is a 200 with
    entitlements in it, it changes neither what the client answers nor any
    file.  If it is, the client answers from exactly those entitlements, and
    at every moment, so after a crash at any of them, the cache file is the old
    one or holds the new entitlements. *)
Theorem license_degrades_gracefully c w c' w' dir :
  String.eqb (c_license_key c) "" = false → c_cache_dir c = Some dir → quiet (w_files w) →
  refresh lossy c w = (c', w') →
  w_sent w' = w_sent w ++ [mkPost (c_base_url c +:+ VALIDATE_PATH) ("Bearer " +:+ c_license_key c) (c_product c)] ∧
  match granted (next_reply w) with
  | None => c' = c ∧ w_files w' = w_files w
  | Some info =>
      let fetched_at := w_now w (w_readings w) in
      let data := mkCacheFile (vr_tier info) (feature_map (vr_features info)) (unix_seconds fetched_at) in
      c' = entitled info fetched_at c ∧
      (∃ ds, moments w w' ds ∧
         Forall (λ d, cached dir d = cached dir (files (w_files w)) ∨ cached dir d = Some data) ds) ∧
      (cached dir (files (w_files w')) = cached dir (files (w_files w)) ∨
       cached dir (files (w_files w')) = Some data)
  end.
Proof.
  intros Hk Hc Hq Hr. unfold refresh in Hr. rewrite Hk in Hr.
  assert (w_now w (w_readings w) = w_now (fetch lossy c w).2 (w_readings (fetch lossy c w).2)) as Hnow
    by (unfold fetch, post; done).
  destruct (fetch lossy c w) as [r w1] eqn:Ef. apply fetch_spec in Ef as (Hf & _ & Hs & Hg).
  destruct (granted (next_reply w)) as [info|]; [|destruct Hg as [e ->]; by injection Hr as <- <-].
  subst r. unfold update_cache in Hr. destruct (now w1) as [t w2] eqn:En.
  apply now_spec in En as (-> & Hf2 & Hs2). cbn [c_cache_dir set_state snd] in *. rewrite Hc in Hr.
  pose proof (persist_sent dir (mkCacheFile (vr_tier info) (feature_map (vr_features info))
    (unix_seconds (w_now w1 (w_readings w1)))) w2) as Hs3.
  destruct (persist dir _ w2) as [rp w3] eqn:Ep. apply persist_spec in Ep as (_ & (ds & Hds & HF) & Hlast);
    [|congruence]. rewrite <- Hnow in *. injection Hr as <- <-.
  assert (∀ d, d !! cache_path dir = files (w_files w2) !! cache_path dir →
            cached dir d = cached dir (files (w_files w))) as Hsame.
  { intros d Hd. unfold cached. by rewrite Hd, Hf2, Hf. }
  split; [destruct rp; cbn in *; congruence|]. split_and!; [done| |].
  - exists ds. split; [unfold moments in *; destruct rp; cbn in *; congruence|].
    eapply Forall_impl; [exact HF|]. intros d [H|H]; [left; by apply Hsame|by right].
  - destruct rp; cbn [debug_log w_files]; [by right|left; by apply Hsame].
Qed.

(** ** A restart *)

(** The client answers from what the cache holds, or knows nothing. *)
Definition in_step (dir : Path) (c : LicenseClient) (d : disk) : Prop :=
  match cached dir d with
  | Some f => s_tier (c_state c) = cf_tier f ∧ s_features (c_state c) = cf_features f
  | None => s_tier (c_state c) = "" ∧ s_features (c_state c) = ∅
  end.

(** A new process with the files of the old one. *)
Definition restart (pid : Z) (w : World) : World :=
  mkWorld (w_files w) pid 0 (w_sent w) (w_reply w) (w_now w) (w_readings w) [].

Lemma cache_load_spec dir w : fault (w_files w) (calls (w_files w)) = None →
  (load dir w).1 = cached dir (files (w_files w)) ∧ files (w_files (load dir w).2) = files (w_files w) ∧
  (reliable (w_files w) → reliable (w_files (load dir w).2)).
Proof.
  intros Hn. unfold load, on_files, read, call, next, cached. rewrite Hn. cbn.
  by destruct (files (w_files w) !! cache_path dir).
Qed.

Lemma client_new_in_step options dir w c w' : op_cache_dir options = Some dir → reliable (w_files w) →
  client_new options w = (c, w') →
  in_step dir c (files (w_files w')) ∧ c_cache_dir c = Some dir ∧ c_license_key c = op_license_key options ∧
  files (w_files w') = files (w_files w) ∧ reliable (w_files w').
Proof.
  intros Hd Hrel. unfold client_new, load_into. rewrite Hd.
  destruct (cache_load_spec dir w (proj1 Hrel _)) as (Hl & Hf & Hr).
  destruct (load dir w) as [file w1]. cbn [fst snd] in *. intros [= <- <-].
  split_and!; [|done|done|done|auto]. unfold in_step. rewrite Hf, <- Hl. by destruct file.
Qed.

Lemma persist_reliable dir data w : (∃ raw, cache_to_vec_pretty data = Ok raw) → reliable (w_files w) →
  ∃ w', persist dir data w = (Ok (), w') ∧ reliable (w_files w').
Proof.
  intros [raw Er] Hrel. unfold persist, eff_bind, create_dir_all, on_files, call, next.
  rewrite (proj1 Hrel). cbn [pure]. rewrite Er. cbn [map_err unique_tmp_path w_files].
  set (tmp := dir ++ [_]). set (fs := mk _ _ _ _ _ _ _ _).
  assert (gives (files fs) (write_cache dir tmp raw) (λ _ _, True)) as Hg.
  { unfold write_cache.
    eapply (gives_bind _ _ _ (λ _ d, is_Some (d !! tmp))).
    { apply gives_call. eapply gives_set; [intros fs' ->; reflexivity|]. rewrite lookup_insert_eq. eauto. }
    intros _ d1 H1. eapply (gives_bind _ _ _ (λ _ d, is_Some (d !! tmp))).
    { apply or_remove_gives, gives_call. eapply gives_set; [intros fs' ->; reflexivity|].
      rewrite lookup_alter_eq. by apply fmap_is_Some. }
    intros _ d2 H2. eapply (gives_bind _ _ _ (λ _ d, is_Some (d !! tmp))).
    { apply or_remove_gives. intros fs' Hr' Hd'. destruct (write_all_gives d2 tmp raw fs' Hr' Hd') as (a & fs2 & E & R & Ed).
      exists a, fs2. split_and!; [done..|]. rewrite Ed, lookup_alter_eq. by apply fmap_is_Some. }
    intros _ d3 H3. eapply (gives_bind _ _ _ (λ _ d, is_Some (d !! tmp))).
    { by apply or_remove_gives, gives_call, gives_pure. }
    intros _ d4 [f H4]. apply gives_call. eapply gives_set; [|done].
    intros fs' ->. rewrite H4. reflexivity. }
  destruct (Hg fs) as ([] & fs' & E & R & _); [done|done|]. rewrite E. eauto.
Qed.

Lemma refresh_in_step c w dir c' w' : (∀ data, ∃ raw, cache_to_vec_pretty data = Ok raw) →
  String.eqb (c_license_key c) "" = false → c_cache_dir c = Some dir → reliable (w_files w) →
  in_step dir c (files (w_files w)) → refresh lossy c w = (c', w') →
  in_step dir c' (files (w_files w')) ∧ reliable (w_files w') ∧
  c_license_key c' = c_license_key c ∧ c_cache_dir c' = Some dir.
Proof.
  intros Henc Hk Hc Hrel Hin Hr. unfold refresh in Hr. rewrite Hk in Hr.
  destruct (fetch lossy c w) as [r w1] eqn:Ef. apply fetch_spec in Ef as (Hf & _ & _ & _).
  destruct r as [info|e]; [|injection Hr as <- <-; cbn [debug_log w_files]; by rewrite Hf].
  unfold update_cache in Hr. destruct (now w1) as [t w2] eqn:En. apply now_spec in En as (-> & Hf2 & _).
  cbn [c_cache_dir set_state] in Hr. rewrite Hc in Hr.
  assert (reliable (w_files w2)) as Hrel2 by (by rewrite Hf2, Hf).
  set (data := mkCacheFile _ _ _) in Hr.
  destruct (persist_reliable dir data w2 (Henc data) Hrel2) as (w3 & Ep & Hrel3). rewrite Ep in Hr.
  injection Hr as <- <-. apply persist_spec in Ep as (_ & _ & Hlast); [|apply Hrel2].
  split_and!; [|done..]. unfold in_step. by rewrite Hlast.
Qed.

Lemma background_in_step ticks dir s : (∀ data, ∃ raw, cache_to_vec_pretty data = Ok raw) →
  String.eqb (c_license_key s.1) "" = false → c_cache_dir s.1 = Some dir → reliable (w_files s.2) →
  in_step dir s.1 (files (w_files s.2)) →
  let s' := background_refresh lossy ticks s in
  in_step dir s'.1 (files (w_files s'.2)) ∧ reliable (w_files s'.2) ∧
  c_license_key s'.1 = c_license_key s.1 ∧ c_cache_dir s'.1 = Some dir.
Proof.
  intros Henc Hk Hc Hrel Hin. unfold background_refresh. cbv zeta.
  induction ticks as [|n IH]; cbn [Nat.iter nat_rect].
  - destruct (refresh lossy s.1 s.2) as [c' w'] eqn:E. exact (refresh_in_step _ _ _ _ _ Henc Hk Hc Hrel Hin E).
  - change (nat_rect _ _ _ n) with
      (Nat.iter n (λ s, refresh lossy s.1 s.2) (refresh lossy s.1 s.2)).
    destruct (Nat.iter n _ _) as [c1 w1]. cbn [fst snd] in *.
    destruct IH as (Hin1 & Hrel1 & Hk1 & Hc1). rewrite <- Hk1 in Hk |- *.
    destruct (refresh lossy c1 w1) as [c' w'] eqn:E. exact (refresh_in_step _ _ _ _ _ Henc Hk Hc1 Hrel1 Hin1 E).
Qed.

(** On a disk that works, a daemon that starts again with a key answers
    every question about the licence as it did before it stopped: the tier, and
    each feature, however often and with whatever answers it had refreshed. *)
Theorem entitlements_survive_restart options options' dir w c w1 ticks pid c' w' :
  (∀ data, ∃ raw, cache_to_vec_pretty data = Ok raw) → reliable (w_files w) →
  op_cache_dir options = Some dir → op_cache_dir options' = Some dir →
  String.eqb (op_license_key options) "" = false → String.eqb (op_license_key options') "" = false →
  client_new options w = (c, w1) →
  client_new options' (restart pid (background_refresh lossy ticks (c, w1)).2) = (c', w') →
  tier c' = tier (background_refresh lossy ticks (c, w1)).1 ∧
  ∀ key, feature_enabled c' key = feature_enabled (background_refresh lossy ticks (c, w1)).1 key.
Proof.
  intros Henc Hrel Hd Hd' Hk Hk' Hn Hn'.
  destruct (client_new_in_step _ _ _ _ _ Hd Hrel Hn) as (Hin & Hc & Hck & Hf & Hrel1).
  destruct (background_in_step ticks dir (c, w1) Henc) as (Hin2 & Hrel2 & Hk2 & _); [by rewrite <- Hck in Hk|done..|].
  destruct (background_refresh lossy ticks (c, w1)) as [c2 w2]. cbn [fst snd] in *.
  destruct (client_new_in_step _ _ (restart pid w2) _ _ Hd' Hrel2 Hn') as (Hin3 & _ & Hck3 & Hf3 & _).
  cbn [restart w_files] in Hf3. rewrite Hf3 in Hin3. unfold in_step in *.
  unfold tier, feature_enabled. rewrite Hck3, Hk', Hk2, Hck, Hk.
  destruct (cached dir (files (w_files w2))) as [f|]; destruct Hin2 as [-> ->], Hin3 as [-> ->]; done.
Qed.

(** Without a key no feature is on, but until the first refresh the tier is the
    one the cache holds, at every start. *)
Theorem keyless_tier_from_cache options dir w f :
  op_license_key options = "" → op_cache_dir options = Some dir →
  fault (w_files w) (calls (w_files w)) = None → cached dir (files (w_files w)) = Some f →
  let '(c, w1) := client_new options w in
  tier c = cf_tier f ∧ (∀ key, feature_enabled c key = false) ∧
  tier (refresh lossy c w1).1 = "" ∧
  cached dir (files (w_files (refresh lossy c w1).2)) = Some f.
Proof.
  intros Hk Hd Hn Hc. unfold client_new, load_into. rewrite Hd.
  destruct (cache_load_spec dir w Hn) as (Hl & Hf & _). destruct (load dir w) as [file w1]. cbn [fst snd] in *.
  rewrite Hl, Hc. unfold tier, feature_enabled, refresh. cbn. rewrite Hk. cbn. rewrite Hf. done.
Qed.
End Facts.

(** ** Licensing: concrete runs

    The theorems of [LicenseProps] at a client that refreshes once, loses its
    server, and starts again. *)

Module LicenseWitness.

(** A cache file as the bits of its code. *)
Definition fields (f : CacheFile) : string * gmap string bool * Z := (cf_tier f, cf_features f, cf_fetched_at f).
Definition cache_text (f : CacheFile) : string := string_of_list_byte (StateWitness.pos_bytes (encode (fields f))).
Definition cache_parse (raw : string) : result CacheFile string :=
  match decode (StateWitness.bytes_pos (list_byte_of_string raw)) with
  | Some (tier, features, at_) => Ok (mkCacheFile tier features at_)
  | None => Err "expected a cache"
  end.

Lemma cache_text_parses f raw : (Ok (cache_text f) : result string string) = Ok raw → cache_parse raw = Ok f.
Proof.
  intros [= <-]. unfold cache_parse, cache_text.
  rewrite list_byte_of_string_of_list_byte, StateWitness.bytes_pos_bytes, decode_encode.
  by destruct f.
Qed.

#[local] Instance bits_codec : LicenseCodec := {|
  cache_to_vec_pretty f := Ok (cache_text f);
  cache_from_slice := cache_parse;
  cache_round_trip := cache_text_parses;
  response_from_slice body :=
    if String.eqb body "pro" then Ok (mkValidateResponse "pro" [mkValidateFeature "vpn" true])
    else Err "expected a response";
|}.

Lemma every_cache_encodes data : ∃ raw, cache_to_vec_pretty data = Ok raw.
Proof. by eexists. Qed.

Local Abbreviation dir := ["var"; "license"].

Definition options : Options := mkOptions "PENG-1" "" "" (Some dir).

(** The first request is granted, the later ones are refused. *)
Definition fresh : World :=
  mkWorld (Files.mk ∅ (λ _, None) 0 (λ _, false) 0 (λ n, Z.of_nat n) 0 []) 77 0 []
    (λ n, if (n =? 0)%nat then Replied 200 "pro" else Replied 403 "revoked") (λ _, 1700000000123456789%Z) 0 [].

Lemma fresh_reliable : reliable (w_files fresh).
Proof. done. Qed.

Definition started := client_new options fresh.

Lemma license_degrades_gracefully_witness :
  tier (refresh id started.1 started.2).1 = "pro".
Proof.
  destruct (license_degrades_gracefully id started.1 started.2 _ _ dir eq_refl eq_refl (λ _, eq_refl)
              (surjective_pairing (refresh id started.1 started.2))) as [_ [H _]].
  by rewrite H.
Defined.

Definition refreshed := background_refresh id 2 (started.1, started.2).
Definition again := client_new options (restart 78 refreshed.2).

Lemma started_splits : client_new options fresh = (started.1, started.2).
Proof. unfold started. apply surjective_pairing. Qed.
Lemma again_splits : client_new options (restart 78 refreshed.2) = (again.1, again.2).
Proof. unfold again. apply surjective_pairing. Qed.

Lemma entitlements_survive_restart_witness :
  tier again.1 = tier refreshed.1 ∧ ∀ key, feature_enabled again.1 key = feature_enabled refreshed.1 key.
Proof.
  apply (entitlements_survive_restart id options options dir fresh started.1 started.2 2 78 again.1 again.2
           every_cache_encodes fresh_reliable eq_refl eq_refl eq_refl eq_refl started_splits).
  unfold again, refreshed. apply surjective_pairing.
Defined.

(** The entitlement lasts though the server has withdrawn it. *)
Example refused_later_still_entitled :
  (tier again.1, feature_enabled again.1 "vpn", length (w_sent again.2)) = ("pro", true, 3).
Proof. vm_compute. reflexivity. Qed.

Lemma refreshed_reliable : reliable (w_files (restart 78 refreshed.2)).
Proof. by split; intros n; vm_compute. Qed.

Definition pro_cache : CacheFile := mkCacheFile "pro" {["vpn" := true]} 1700000000.

Lemma pro_cached : cached dir (Files.files (w_files (restart 78 refreshed.2))) = Some pro_cache.
Proof. vm_compute. reflexivity. Qed.

Lemma keyless_tier_from_cache_witness :
  tier (client_new (mkOptions "" "" "" (Some dir)) (restart 78 refreshed.2)).1 = "pro".
Proof.
  pose proof (keyless_tier_from_cache id (mkOptions "" "" "" (Some dir)) dir (restart 78 refreshed.2)
    pro_cache eq_refl eq_refl (proj1 refreshed_reliable _) pro_cached) as H.
  destruct (client_new _ _) as [c w1]. exact (proj1 H).
Defined.

End LicenseWitness.
