(* ===== verification/Telemetry.v ===== *)
(** * Logging (crates/penguin-telemetry, bins/penguind/src/logging.rs)

    What happens to a line a module logs: the fields whose keys name a secret
    are masked (sanitize.rs), the rest is folded into one trace event
    (logger.rs), and the daemon's subscriber keeps its level and message in the
    log ring (logging.rs), from which [Service.tail_logs] answers.

    The prometheus registry is not modelled. *)
From S2P Require Import Prelude.
From S2P Require Import Text.
From S2P Require Import Mask.
From S2P Require Import Sdk.
From S2P Require Import LogRing.
From S2P Require Import Service.
From S2P Require Import ServiceProps.

(** ** Masking (sanitize.rs) *)

Definition SENSITIVE_MARKERS : list string := ["password"; "token"; "api_key"; "secret"].

Definition is_sensitive_key (key : string) : bool :=
  let lowered := to_ascii_lowercase key in
  existsb (λ marker, contains marker lowered) SENSITIVE_MARKERS.

Definition sanitize_value (key value : string) : string :=
  if is_sensitive_key key then mask_secret value else value.

(** ** The logger of a module (logger.rs) *)

Inductive LogLevel := LevelDebug | LevelInfo | LevelWarn | LevelError.

#[global] Instance LogLevel_eq_dec : EqDecision LogLevel.
Proof. solve_decision. Defined.

(** One [k=v] per field, in order, a space between them. *)
Fixpoint render_from (index : nat) (fields : list (string * string)) : string :=
  match fields with
  | [] => ""
  | (key, value) :: fields =>
      (if (0 <? index)%nat then " " else "") +:+ key +:+ "=" +:+ sanitize_value key value
        +:+ render_from (S index) fields
  end.

Definition render_fields (fields : list (string * string)) : string := render_from 0 fields.

(** A trace event: its level and its fields with their renderings. *)
Record TraceEvent := mkTraceEvent { te_level : LogLevel; te_fields : list (string * string) }.

Definition module_log (module : string) (level : LogLevel) (message : string)
    (fields : list (string * string)) : TraceEvent :=
  mkTraceEvent level [("module", module); ("fields", render_fields fields); ("message", message)].

(** ** Levels (telemetry.rs, logging.rs) *)

Definition parse_level (level : string) : result LogLevel string :=
  if String.eqb level "debug" then Ok LevelDebug
  else if String.eqb level "info" then Ok LevelInfo
  else if String.eqb level "warn" then Ok LevelWarn
  else if existsb (String.eqb level) ["error"; "dpanic"; "panic"; "fatal"] then Ok LevelError
  else Err level.

Definition parse_level_filter (level : string) : LogLevel :=
  if String.eqb level "debug" then LevelDebug
  else if String.eqb level "warn" then LevelWarn
  else if existsb (String.eqb level) ["error"; "dpanic"; "panic"; "fatal"] then LevelError
  else LevelInfo.

Definition severity (level : LogLevel) : nat :=
  match level with LevelDebug => 0 | LevelInfo => 1 | LevelWarn => 2 | LevelError => 3 end.

(** [Level::as_str] in lower case. *)
Definition level_text (level : LogLevel) : string :=
  match level with LevelDebug => "debug" | LevelInfo => "info" | LevelWarn => "warn" | LevelError => "error" end.

(** ** The daemon's subscriber (logging.rs) *)

(** [MessageVisitor]: the last field named [message]. *)
Definition visit_message (fields : list (string * string)) : string :=
  foldl (λ message '(name, value), if String.eqb name "message" then value else message) "" fields.

(** What [on_event] appends: always to the daemon's own source. *)
Definition ring_entry (at_ : SystemTime) (event : TraceEvent) : string * LogLine :=
  ("", mkLogLine at_ (level_text (te_level event)) (visit_message (te_fields event))).

Section Layer.
  Context `{Broadcast LogLine} (debug : string → string).

(** An event that passes the filter of [install] reaches the ring. *)
Definition on_event (filter : LogLevel) (at_ : SystemTime) (event : TraceEvent) (ring : Ring.LogRing) :
    Ring.LogRing :=
  if (severity filter <=? severity (te_level event))%nat then
    let '(source, line) := ring_entry at_ event in Ring.append source line ring
  else ring.

(** The appends a sequence of events makes. *)
Definition entries (filter : LogLevel) (events : list (SystemTime * TraceEvent)) : list (string * LogLine) :=
  map (λ '(at_, event), ring_entry at_ event)
    (List.filter (λ '(_, event), (severity filter <=? severity (te_level event))%nat) events).

Definition traced (filter : LogLevel) (events : list (SystemTime * TraceEvent)) (ring : Ring.LogRing) :
    Ring.LogRing :=
  foldl (λ ring '(at_, event), on_event filter at_ event ring) ring events.

Lemma traced_appends filter events ring :
  traced filter events ring = Ring.append_all (entries filter events) ring.
Proof.
  unfold traced, Ring.append_all, entries. revert ring.
  induction events as [|[at_ event] events IH]; intros ring; [done|]. cbn [foldl List.filter map]. rewrite IH.
  unfold on_event. by destruct (_ <=? _)%nat.
Qed.

Lemma entries_source filter events : Forall (λ p, p.1 = "") (entries filter events).
Proof. apply Forall_map, Forall_forall. by intros [at_ event] _. Qed.

Lemma other_source_empty (appends : list (string * LogLine)) source : source ≠ "" →
  Forall (λ p, p.1 = "") appends → Ring.history source appends = [].
Proof.
  intros Hs Ha. unfold Ring.history. induction Ha as [|[s l] appends E Ha IH]; [done|].
  simpl in E. subst s. rewrite filter_cons_False; [done|]. simpl. congruence.
Qed.

(** Whatever the modules and the daemon log, and at whatever level, asking
    for the log of a module gives no line at all: every line is kept under the
    daemon's own source. *)
Theorem module_logs_never_found filter events racing later capacity module lines room :
  module ≠ "" →
  tail_logs debug "" module false lines (entries filter racing) (entries filter later) room
    (traced filter events (Ring.new capacity)) = Ok [].
Proof.
  intros Hm. unfold tail_logs. cbn. rewrite traced_appends.
  assert (Ring.append_all (entries filter racing) (Ring.append_all (entries filter events) (Ring.new capacity)) =
    Ring.append_all (entries filter events ++ entries filter racing) (Ring.new capacity)) as ->.
  { unfold Ring.append_all. by rewrite foldl_app. }
  rewrite Ring.backlog_is_recent_history, other_source_empty; [|done|].
  - unfold keep_last. cbn. by destruct room.
  - apply Forall_app; split; apply entries_source.
Qed.
End Layer.

(** ** Masked fields *)

(** Two values a line with this key does not tell apart. *)
Definition alike (p q : string * string) : Prop :=
  p.1 = q.1 ∧ if is_sensitive_key p.1 then mask_secret p.2 = mask_secret q.2 else p.2 = q.2.

(** A line depends on the value of a sensitive field only through its mask. *)
Theorem line_shows_only_masks module level message fields fields' :
  Forall2 alike fields fields' →
  module_log module level message fields = module_log module level message fields'.
Proof.
  intros Hf. unfold module_log, render_fields. do 4 f_equal.
  generalize 0 as index. induction Hf as [|[k v] [k' v'] fields fields' [E Hv] Hf IH]; intros index; [done|].
  simpl in E, Hv. subst k'. cbn [render_from]. rewrite (IH (S index)). unfold sanitize_value.
  by destruct (is_sensitive_key k); rewrite Hv.
Qed.

(** The marker [api_key] misses the same name in camel case. *)
Example camel_case_key_shown : render_fields [("apiKey", "sk-12345678"); ("api_key", "sk-12345678")] =
  "apiKey=sk-12345678 api_key=****5678".
Proof. reflexivity. Qed.

Module TelemetryWitness.

Definition said : list (SystemTime * TraceEvent) :=
  [(1%Z, module_log "squawk" LevelWarn "upstream slow" [("server", "9.9.9.9")])].

Lemma module_logs_never_found_witness :
  tail_logs (λ s, s) "" "squawk" false 10 [] [] 5 (traced LevelInfo said (Ring.new 2000)) = Ok [].
Proof. exact (module_logs_never_found (λ s, s) LevelInfo said [] [] 2000 "squawk" 10 5 ltac:(done)). Defined.

(** The line is there, under the daemon's source. *)
Example line_is_the_daemons :
  map pl_message (match tail_logs (λ s, s) "" "" false 10 [] [] 5 (traced LevelInfo said (Ring.new 2000)) with
    | Ok l => l | Err _ => [] end) = ["upstream slow"].
Proof. vm_compute. reflexivity. Qed.

End TelemetryWitness.
