(* ===== verification/DaemonHost.v ===== *)
(** * Configuration and host services (crates/penguin-daemon/src/config.rs, host.rs)

    The daemon's own configuration, a module's configuration file and its
    check against the module's schema, and the services handed to a module when
    it is loaded: its configuration, its data directory and its view of the
    secrets.

    Reading a file is asking an environment that answers each read in turn, so
    that a file may change between two reads.  YAML, JSON Schema and the
    parsing of a schema are parameters. *)
From S2P Require Import Prelude.
From S2P Require Import Text.
From S2P Require Import Json.
From S2P Require Import Mask.
From S2P Require Import Hooks.
From S2P Require Import Secrets.
From S2P Require Import SecretsProps.
From S2P Require Import License.

(** ** Reading *)

Record Reads := mkReads {
  rd_answer : nat → Path → result string Files.IoError;   (* the n-th read *)
  rd_count : nat;
}.

Definition fs_read (p : Path) (rd : Reads) : result string Files.IoError * Reads :=
  (rd_answer rd (rd_count rd) p, mkReads (rd_answer rd) (S (rd_count rd))).

(** ** The daemon's configuration (config.rs) *)

Record DaemonConfig := mkDaemonConfig {
  dc_socket_path : string;
  dc_plugins_dir : string;
  dc_log_level : string;
  dc_group : string;
}.

Definition config_defaults : DaemonConfig :=
  mkDaemonConfig "/run/penguin/penguind.sock" "/opt/penguin/plugins" "info" "penguin".

Inductive ConfigError :=
| InvalidName (name : string)
| ConfigIo (msg : string)
| ConfigParse (msg : string)
| ConfigSchema (msg : string)
| Validation (module details : string).

(** A compiled schema gives the failing paths of an instance. *)
Class ConfigCodec := {
  daemon_from_yaml : string → result DaemonConfig string;
  value_from_yaml : string → result Value string;
  schema_from_json : string → result Value string;
  validator_for : Value → result (Value → list string) string;
}.

Section ConfigStore.
  Context {Codec : ConfigCodec} (debug : string → string) (dir : Path).

Definition or_default (value fallback : string) : string :=
  if String.eqb value "" then fallback else value.

Definition daemon (rd : Reads) : result DaemonConfig ConfigError * Reads :=
  let '(r, rd) := fs_read (dir ++ ["config.yaml"]) rd in
  (match r with
   | Err err =>
       match Files.io_kind err with
       | Files.NotFound => Ok config_defaults
       | _ => Err (ConfigIo ("read config.yaml: " +:+ Files.io_text err))
       end
   | Ok data =>
       match daemon_from_yaml data with
       | Err err => Err (ConfigParse ("parse config.yaml: " +:+ err))
       | Ok config =>
           Ok (mkDaemonConfig
                 (or_default (dc_socket_path config) (dc_socket_path config_defaults))
                 (or_default (dc_plugins_dir config) (dc_plugins_dir config_defaults))
                 (or_default (dc_log_level config) (dc_log_level config_defaults))
                 (or_default (dc_group config) (dc_group config_defaults)))
       end
   end, rd).

(** ** A module's configuration *)

Definition backslash : Ascii.ascii := Ascii.ascii_of_nat 92.

Definition check_name (name : string) : result unit ConfigError :=
  if negb (no_char slash name) || negb (no_char backslash name) || contains ".." name
  then Err (InvalidName name) else Ok ().

Definition module_path (name : string) : Path := dir ++ ["modules.d"; name +:+ ".yaml"].

Definition is_object (v : Value) : bool := match v with JObject _ => true | _ => false end.

Definition normalize_document (value : Value) (name : string) : result Value ConfigError :=
  match value with
  | JNull => Ok (JObject [])
  | _ =>
      if is_object value then Ok value
      else Err (ConfigParse ("parse module config " +:+ debug name +:+
                             ": top-level document must be a mapping"))
  end.

Definition join_paths (paths : list string) : string :=
  match paths with
  | [] => ""
  | p :: rest => foldl (λ acc q, acc +:+ "; " +:+ q) p rest
  end.

Definition validate_schema (instance : Value) (schema_bytes module : string) : result unit ConfigError :=
  match schema_from_json schema_bytes with
  | Err err => Err (ConfigSchema ("parse schema for module " +:+ debug module +:+ ": " +:+ err))
  | Ok schema =>
      match validator_for schema with
      | Err err => Err (ConfigSchema ("compile schema for module " +:+ debug module +:+ ": " +:+ err))
      | Ok validator =>
          match validator instance with
          | [] => Ok ()
          | paths => Err (Validation module (join_paths paths))
          end
      end
  end.

Definition read_error (name : string) (err : Files.IoError) : ConfigError :=
  ConfigIo ("read module config " +:+ debug name +:+ ": " +:+ Files.io_text err).

(** What a document with the bytes [data] comes to. *)
Definition parse_module (name : string) (schema : option string) (data : string) : result Value ConfigError :=
  match value_from_yaml data with
  | Err err => Err (ConfigParse ("parse module config " +:+ debug name +:+ ": " +:+ err))
  | Ok parsed =>
      let? value := normalize_document parsed name in
      match schema with
      | Some schema_bytes =>
          if String.eqb schema_bytes "" then Ok value
          else let? _ := validate_schema value schema_bytes name in Ok value
      | None => Ok value
      end
  end.

Definition module (name : string) (schema : option string) (rd : Reads) : result Value ConfigError * Reads :=
  match check_name name with
  | Err e => (Err e, rd)
  | Ok _ =>
      let '(r, rd) := fs_read (module_path name) rd in
      (match r with
       | Err err =>
           match Files.io_kind err with
           | Files.NotFound => Ok (JObject [])
           | _ => Err (read_error name err)
           end
       | Ok data => parse_module name schema data
       end, rd)
  end.

Definition module_raw (name : string) (schema : option string) (rd : Reads) :
    result (option string) ConfigError * Reads :=
  match check_name name with
  | Err e => (Err e, rd)
  | Ok _ =>
      let '(checked, rd) := module name schema rd in
      match checked with
      | Err e => (Err e, rd)
      | Ok _ =>
          let '(r, rd) := fs_read (module_path name) rd in
          (match r with
           | Ok bytes => Ok (Some bytes)
           | Err err =>
               match Files.io_kind err with
               | Files.NotFound => Ok None
               | _ => Err (read_error name err)
               end
           end, rd)
      end
  end.
End ConfigStore.

(** ** Host services (host.rs) *)

(** [Path::join]: an absolute path replaces the base; empty and [.] components
    count for nothing. *)
Definition components (s : string) : Path :=
  List.filter (λ c, negb (String.eqb c "") && negb (String.eqb c ".")) (split_on slash s).

Definition is_absolute (s : string) : bool :=
  match s with String c _ => Ascii.eqb c slash | EmptyString => false end.

Definition path_join (base : Path) (s : string) : Path :=
  if is_absolute s then components s else base ++ components s.

Record HostWorld := mkHostWorld {
  hw_reads : Reads;
  hw_mkdir : nat → option string;       (* what the n-th directory creation fails with *)
  hw_made : list (Path * Z);            (* directories asked for, with their mode *)
  hw_warned : list string;
}.

Definition warn (msg : string) (w : HostWorld) : HostWorld :=
  mkHostWorld (hw_reads w) (hw_mkdir w) (hw_made w) (hw_warned w ++ [msg]).

Section Host.
  Context {Codec : ConfigCodec} (debug : string → string).

Record DaemonHost := mkDaemonHost {
  dh_logger : string;                   (* the module the logger is tagged with *)
  dh_secrets : Store;
  dh_license : LicenseClient;
  dh_metrics : string;
  dh_data_dir : Path;
  dh_config : string;
}.

Record DaemonHostFactory := mkFactory {
  hf_config_dir : Path;
  hf_secrets : Store;
  hf_license : LicenseClient;
  hf_state_dir : Path;
}.

Definition resolve_config (config_dir : Path) (name : string) (schema : option string) (w : HostWorld) :
    string * HostWorld :=
  let '(r, rd) := module_raw debug config_dir name schema (hw_reads w) in
  let w := mkHostWorld rd (hw_mkdir w) (hw_made w) (hw_warned w) in
  match r with
  | Ok (Some bytes) => (bytes, w)
  | Ok None => ("", w)
  | Err _ => ("", warn "invalid module config; module will start with defaults" w)
  end.

Definition ensure_data_dir (state_dir : Path) (name : string) (w : HostWorld) : Path * HostWorld :=
  let dir := path_join state_dir name in
  let n := length (hw_made w) in
  let w := mkHostWorld (hw_reads w) (hw_mkdir w) (hw_made w ++ [(dir, mode_owner_dir)]) (hw_warned w) in
  (dir, match hw_mkdir w n with
        | Some _ => warn "could not create module data dir" w
        | None => w
        end).

Definition host_for (hf : DaemonHostFactory) (name : string) (schema : option string) (w : HostWorld) :
    DaemonHost * HostWorld :=
  let '(config, w) := resolve_config (hf_config_dir hf) name schema w in
  let '(data_dir, w) := ensure_data_dir (hf_state_dir hf) name w in
  (mkDaemonHost name (store_for (hf_secrets hf) name) (hf_license hf) name data_dir config, w).
End Host.

(** ** Theorems *)

Section Facts.
  Context {Codec : ConfigCodec} (debug : string → string).

(** The bytes are a mapping (or nothing) that the schema accepts. *)
Definition acceptable (name : string) (schema : option string) (data : string) : Prop :=
  is_ok (parse_module debug name schema data) = true.

(** The file of a module reads the same twice in a row. *)
Definition steady (dir : Path) (name : string) (rd : Reads) : Prop :=
  rd_answer rd (S (rd_count rd)) (module_path dir name) = rd_answer rd (rd_count rd) (module_path dir name).

Lemma module_raw_bytes dir name schema rd bytes rd' :
  module_raw debug dir name schema rd = (Ok (Some bytes), rd') → steady dir name rd →
  rd_answer rd (rd_count rd) (module_path dir name) = Ok bytes ∧ acceptable name schema bytes.
Proof.
  unfold module_raw, module, fs_read, steady, acceptable. destruct (check_name name); [|done].
  cbn [rd_answer rd_count]. intros H E. rewrite E in H.
  destruct (rd_answer rd (rd_count rd) (module_path dir name)) as [data|err].
  - destruct (parse_module _ _ _ data) eqn:Ep; [|done]. injection H as <- <-. by rewrite Ep.
  - by destruct (Files.io_kind err).
Qed.

(** A module is handed either no configuration or exactly the bytes of its
    file, and then those bytes are a mapping that its schema accepts, provided
    the file does not change while the host is being built. *)
Theorem module_config_checked hf name schema w :
  steady (hf_config_dir hf) name (hw_reads w) →
  let config := dh_config (host_for debug hf name schema w).1 in
  config = "" ∨
  (rd_answer (hw_reads w) (rd_count (hw_reads w)) (module_path (hf_config_dir hf) name) = Ok config ∧
   acceptable name schema config).
Proof.
  intros Hs. unfold host_for, resolve_config.
  destruct (module_raw _ _ _ _ _) as [[[bytes|]|e] rd'] eqn:E; cbn; [right|by left..].
  exact (module_raw_bytes _ _ _ _ _ _ E Hs).
Qed.

(** Two modules whose names are single path components are handed disjoint
    services: neither one's data directory is the other's or inside it, and
    none of their keys names the same secret. *)
Theorem hosts_are_disjoint hf name1 name2 schema1 schema2 w1 w2 :
  plain_name name1 = true → plain_name name2 = true → name1 ≠ "." → name2 ≠ "." → name1 ≠ name2 →
  let h1 := (host_for debug hf name1 schema1 w1).1 in
  let h2 := (host_for debug hf name2 schema2 w2).1 in
  ¬ (dh_data_dir h1 `prefix_of` dh_data_dir h2) ∧
  ∀ key1 key2, make_key (dh_secrets h1) key1 ≠ make_key (dh_secrets h2) key2.
Proof.
  intros H1 H2 Hd1 Hd2 Hne.
  assert (∀ name schema w, plain_name name = true → name ≠ "." →
    dh_data_dir (host_for debug hf name schema w).1 = hf_state_dir hf ++ [name] ∧
    dh_secrets (host_for debug hf name schema w).1 = store_for (hf_secrets hf) name) as Hh.
  { intros name schema w Hp Hd. unfold host_for, resolve_config, ensure_data_dir.
    destruct (module_raw _ _ _ _ _) as [[[bytes|]|e] rd']; cbn; (split; [|done]);
      unfold path_join, components;
      apply andb_true_iff in Hp as [Hne' Hns]; rewrite (split_no_char slash name Hns);
      (assert (is_absolute name = false) as ->
        by (destruct name as [|c name]; [done|]; cbn in *;
            apply andb_true_iff in Hns as [Hc _]; by destruct (Ascii.eqb c slash)));
      cbn; rewrite Hne'; by destruct (String.eqb_spec name "."). }
  cbv zeta. destruct (Hh name1 schema1 w1 H1 Hd1) as [-> ->], (Hh name2 schema2 w2 H2 Hd2) as [-> ->]. split.
  - intros [k E]. rewrite <- app_assoc in E. apply app_inv_head in E. by injection E.
  - intros key1 key2 E. destruct (view_key (hf_secrets hf) name1 key1 H1) as [E1 Hs1].
    destruct (view_key (hf_secrets hf) name2 key2 H2) as [E2 Hs2]. rewrite E1, E2 in E.
    by apply full_key_inj in E as [? _].
Qed.

(** A file swapped after the check is handed over as it is. *)
Theorem swapped_config_unchecked hf name schema w checked swapped :
  check_name name = Ok () → acceptable name schema checked →
  rd_answer (hw_reads w) (rd_count (hw_reads w)) (module_path (hf_config_dir hf) name) = Ok checked →
  rd_answer (hw_reads w) (S (rd_count (hw_reads w))) (module_path (hf_config_dir hf) name) = Ok swapped →
  dh_config (host_for debug hf name schema w).1 = swapped.
Proof.
  unfold acceptable. intros Hn Ha H1 H2. unfold host_for, resolve_config, module_raw, module, fs_read.
  rewrite Hn. cbn [rd_answer rd_count]. rewrite H1, H2. by destruct (parse_module _ _ _ checked).
Qed.

(** A name the configuration refuses still gets its directory made, which an
    absolute name puts anywhere. *)
Theorem refused_name_gets_directory hf name schema w :
  is_absolute name = true →
  let '(h, w') := host_for debug hf name schema w in
  dh_config h = "" ∧ dh_data_dir h = components name ∧
  hw_made w' = hw_made w ++ [(components name, mode_owner_dir)].
Proof.
  intros Ha. unfold host_for, resolve_config, ensure_data_dir, path_join. rewrite Ha.
  assert (check_name name = Err (InvalidName name)) as Hn.
  { unfold check_name. destruct name as [|c name]; [done|]. cbn in Ha |- *. by rewrite Ha. }
  unfold module_raw. rewrite Hn. cbn. by destruct (hw_mkdir w _).
Qed.
End Facts.
