(* ===== verification/Listen.v ===== *)
(** * The control socket (crates/penguin-ipc/src/listen_unix.rs)

    Binding the socket the daemon is driven through, and the check of every
    request's peer.  Directories are entries of the same file map as the socket,
    so that the modes of both are seen at every moment. *)
From S2P Require Import Prelude.
From S2P Require Import Text.
From S2P Require Import Ipc.
From S2P Require Import Hooks.
From S2P Require Import HooksFacts.

Definition MAX_UNIX_PATH : nat := 103.

Inductive IpcError :=
| PathTooLong (path : string) (len max : nat)
| RemoveStale (source : Files.IoError)
| MkdirParent (source : Files.IoError)
| ListenUnix (source : Files.IoError)
| ChmodSocket (source : Files.IoError).

(** The socket's path, as given and as components. *)
Record ListenerConfig := mkListenerConfig {
  lc_text : string;
  lc_path : Path;
  lc_allowed_group : string;
}.

Abbreviation io := (eff Files.t Files.IoError).

Definition map_io {A} (f : Files.IoError → IpcError) (m : io A) : eff Files.t IpcError A := λ fs,
  let '(r, fs) := m fs in (map_err f r, fs).

Definition remove_stale_socket (path : Path) : eff Files.t IpcError unit := λ fs,
  let '(r, fs) := Files.remove_file path fs in
  (match r with
   | Ok _ => Ok ()
   | Err source =>
       match Files.io_kind source with
       | Files.NotFound => Ok ()
       | _ => Err (RemoveStale source)
       end
   end, fs).

(** [create_dir_all]: a directory that is there is left alone, a new one has
    the default mode 0755. *)
Definition mkdir_all (p : Path) : io unit :=
  Files.call (λ fs,
    (Ok (), match Files.files fs !! p with
            | Some _ => fs
            | None => Files.set_files (<[p := Files.mkFile (7 * 64 + 5 * 8 + 5) ""]> (Files.files fs)) fs
            end)).

Definition parent_dir (path : Path) : Path := default [] (parent path).

Definition prepare_parent_dir (path : Path) : eff Files.t IpcError unit :=
  let dir := parent_dir path in
  let! _ := map_io MkdirParent (mkdir_all dir) in
  map_io MkdirParent (Files.set_permissions dir (7 * 64 + 5 * 8)).

(** [bind(2)]: the socket appears with the kernel's default mode, 0777 less the
    usual umask 022; a path in use is refused. *)
Definition unix_bind (path : Path) : io unit :=
  Files.call (λ fs,
    match Files.files fs !! path with
    | Some _ => (Err (Files.mkIoError Files.OtherIo "Address already in use (os error 98)"), fs)
    | None =>
        (Ok (), Files.set_files (<[path := Files.mkFile (7 * 64 + 5 * 8 + 5) ""]> (Files.files fs)) fs)
    end).

Definition listen (cfg : ListenerConfig) : eff Files.t IpcError unit :=
  let path_len := String.length (lc_text cfg) in
  if (MAX_UNIX_PATH <? path_len)%nat then
    pure (Err (PathTooLong (lc_text cfg) path_len MAX_UNIX_PATH))
  else
    let! _ := remove_stale_socket (lc_path cfg) in
    let! _ := prepare_parent_dir (lc_path cfg) in
    let! _ := map_io ListenUnix (unix_bind (lc_path cfg)) in
    map_io ChmodSocket (Files.set_permissions (lc_path cfg) (6 * 64 + 6 * 8)).

(** ** Every request *)

Inductive CallStatus := Unauthenticated (err : AuthError) | PermissionDenied (err : AuthError).

(** The connection's information, and the credentials in it, may be missing. *)
Definition interceptor_call {R : GroupResolver} (self_uid : Z) (allowed_group : string)
    (connect_info : option (option PeerCredentials)) : result unit CallStatus :=
  match connect_info with
  | None => Err (Unauthenticated NoPeerInfo)
  | Some None => Err (Unauthenticated NoPeerCredentials)
  | Some (Some creds) => map_err PermissionDenied (check_peer (Some creds) self_uid allowed_group)
  end.

(** ** Theorems *)

(** Wherever the socket is, its directory is closed to others. *)
Definition shielded (path : Path) (d : Files.disk) : Prop :=
  is_Some (d !! path) → Files.f_mode <$> d !! parent_dir path = Some (7 * 64 + 5 * 8)%Z.

Section Facts.
  Context (path : Path) (Hpath : path ≠ []).
  Import Files.

Lemma parent_differs : parent_dir path ≠ path.
Proof.
  destruct path as [|c l]; [done|]. unfold parent_dir. cbn [parent default].
  intros E%(f_equal length). change (length (removelast (c :: l)) = length (c :: l)) in E.
  rewrite removelast_firstn_len, length_firstn in E. cbn in E. lia.
Qed.

Definition no_socket (d : disk) : Prop := d !! path = None.

Lemma no_socket_shielded d : no_socket d → shielded path d.
Proof. intros H [f Hf]. by rewrite H in Hf. Qed.

Lemma remove_stale_spec :
  triple (λ _, True) (remove_stale_socket path)
    (λ r d, match r with Ok _ => no_socket d | Err _ => True end) no_socket.
Proof.
  intros fs Hq _. unfold remove_stale_socket, remove_file, call, next.
  destruct (fault fs (calls fs)); cbn; [split_and!; [done..|exists []; by rewrite app_nil_r]|].
  destruct (files fs !! path) eqn:E; cbn.
  - split_and!; [done|apply lookup_delete_eq|]. eexists [_]. split; [done|].
    constructor; [apply lookup_delete_eq|done].
  - split_and!; [done..|]. exists []. by rewrite app_nil_r.
Qed.

Lemma map_io_spec {A : Type} (f : IoError → IpcError) (P : disk → Prop) (m : io A) (Q : A → disk → Prop)
    (R C : disk → Prop) :
  triple P m (λ r d, match r with Ok a => Q a d | Err _ => R d end) C →
  triple P (map_io f m) (λ r d, match r with Ok a => Q a d | Err _ => R d end) C.
Proof. intros Hm. eapply triple_handle; [exact Hm|]. by intros [a|e]. Qed.

Definition closed (d : disk) : Prop := no_socket d ∧ f_mode <$> d !! parent_dir path = Some (7 * 64 + 5 * 8)%Z.

Lemma prepare_parent_spec :
  triple no_socket (prepare_parent_dir path)
    (λ r d, match r with Ok _ => closed d | Err _ => no_socket d end) no_socket.
Proof.
  pose proof parent_differs as Hne. unfold prepare_parent_dir.
  eapply (triple_bind _ _ (λ r d, match r with Ok _ => no_socket d ∧ is_Some (d !! parent_dir path)
                                           | Err _ => no_socket d end)); [|intros _|done].
  - apply (map_io_spec _ _ _ (λ _, _)), triple_call; [|done]. intros fs Hq Hn.
    destruct (files fs !! parent_dir path) as [f|] eqn:E; cbn.
    + split_and!; [done|done|by exists f|]. exists []. by rewrite app_nil_r.
    + assert (no_socket (<[parent_dir path := mkFile (7 * 64 + 5 * 8 + 5) ""]> (files fs)))
        by (unfold no_socket; by rewrite lookup_insert_ne).
      split_and!; [done|done| |eexists [_]; split; [done|by constructor]].
      rewrite lookup_insert_eq. by eexists.
  - apply (map_io_spec _ _ _ (λ _, _)), triple_call; [|by intros e d _ [? _]].
    apply (triple_set _ (λ _, Ok ()) (alter (λ f, mkFile (7 * 64 + 5 * 8) (f_data f)) (parent_dir path))).
    intros d [Hn [f Hf]].
    assert (no_socket (alter (λ f, mkFile (7 * 64 + 5 * 8) (f_data f)) (parent_dir path) d))
      by (unfold no_socket; by rewrite lookup_alter_ne).
    split; [|done]. split; [done|]. by rewrite lookup_alter_eq, Hf.
Qed.

Lemma bind_and_chmod_spec mode : f_mode <$> mode = Some (7 * 64 + 5 * 8)%Z →
  triple (λ d, no_socket d ∧ d !! parent_dir path = mode)
    (let! _ := map_io ListenUnix (unix_bind path) in
     map_io ChmodSocket (set_permissions path (6 * 64 + 6 * 8)))
    (λ r d, d !! parent_dir path = mode ∧
            match r with Ok _ => f_mode <$> d !! path = Some (6 * 64 + 6 * 8)%Z | Err _ => True end)
    (shielded path).
Proof.
  intros Hm. pose proof parent_differs as Hne.
  assert (∀ d, d !! parent_dir path = mode → shielded path d) as Hs.
  { intros d Hd _. by rewrite Hd. }
  eapply (triple_bind _ _ (λ r d, d !! parent_dir path = mode ∧
            match r with Ok _ => is_Some (d !! path) | Err _ => True end)); [|intros _|by intros e d [? _]].
  - apply (triple_handle _ _ (λ r d, d !! parent_dir path = mode ∧
      match r with Ok _ => is_Some (d !! path) | Err _ => True end)); [|by intros [a|e]].
    apply triple_call; [|by intros e d _ [? ?]].
    intros fs Hq [Hn Hd]. rewrite Hn. cbn.
    assert (<[path := mkFile (7 * 64 + 5 * 8 + 5) ""]> (files fs) !! parent_dir path = mode)
      by by rewrite lookup_insert_ne.
    split_and!; [done..| |eexists [_]; split; [done|constructor; [by apply Hs|done]]].
    rewrite lookup_insert_eq. by eexists.
  - apply (triple_handle _ _ (λ r d, d !! parent_dir path = mode ∧
      match r with Ok _ => f_mode <$> d !! path = Some (6 * 64 + 6 * 8)%Z | Err _ => True end));
      [|by intros [a|e]].
    apply triple_call; [|by intros e d _ [? _]].
    apply (triple_set _ (λ _, Ok ()) (alter (λ f, mkFile (6 * 64 + 6 * 8) (f_data f)) path)).
    intros d [Hd [f Hf]].
    assert (alter (λ f, mkFile (6 * 64 + 6 * 8) (f_data f)) path d !! parent_dir path = mode)
      by by rewrite lookup_alter_ne.
    split; [|by apply Hs]. split; [done|]. by rewrite lookup_alter_eq, Hf.
Qed.

Lemma listen_spec text group fs :
  quiet fs →
  let '(r, fs') := listen (mkListenerConfig text path group) fs in
  (∃ moments, seen fs' = seen fs ++ moments ∧ Forall (shielded path) moments) ∧
  match r with
  | Ok _ => shielded path (files fs') ∧ f_mode <$> files fs' !! path = Some (6 * 64 + 6 * 8)%Z
  | Err _ => True
  end.
Proof.
  intros Hq. unfold listen. cbn [lc_text lc_path].
  destruct (MAX_UNIX_PATH <? String.length text)%nat; [cbn; split; [exists []; by rewrite app_nil_r|done]|].
  assert (triple (λ _, True)
    (let! _ := remove_stale_socket path in
     let! _ := prepare_parent_dir path in
     let! _ := map_io ListenUnix (unix_bind path) in
     map_io ChmodSocket (set_permissions path (6 * 64 + 6 * 8)))
    (λ r d, match r with
            | Ok _ => shielded path d ∧ f_mode <$> d !! path = Some (6 * 64 + 6 * 8)%Z
            | Err _ => True
            end) (shielded path)) as H.
  { eapply (triple_bind _ _ (λ r d, match r with Ok _ => no_socket d | Err _ => True end)); [|intros _|done].
    { eapply triple_conseq; [apply remove_stale_spec|done|done|apply no_socket_shielded]. }
    eapply (triple_bind _ _ (λ r d, match r with Ok _ => closed d | Err _ => no_socket d end)); [|intros _|done].
    { eapply triple_conseq; [apply prepare_parent_spec|done|done|apply no_socket_shielded]. }
    intros fs1 Hq1 [Hn Hm].
    pose proof (bind_and_chmod_spec _ Hm fs1 Hq1 (conj Hn eq_refl)) as H.
    destruct (eff_bind _ _ fs1) as [[u|e] fs2]; destruct H as (? & [Hd Hr] & ?); split_and!; try done.
    intros _. by rewrite Hd. }
  specialize (H fs Hq I). destruct (eff_bind _ _ fs) as [r fs']. destruct H as (_ & ? & ?). done.
Qed.
End Facts.

(** The directory the socket is put in is closed to others, whichever it is. *)
Theorem listen_closes_parent cfg fs fs' :
  quiet fs → lc_path cfg ≠ [] → listen cfg fs = (Ok (), fs') →
  Files.f_mode <$> Files.files fs' !! parent_dir (lc_path cfg) = Some (7 * 64 + 5 * 8)%Z.
Proof.
  intros Hq Hp Hl. destruct cfg as [text path group]. cbn in *.
  pose proof (listen_spec path Hp text group fs Hq) as H. rewrite Hl in H.
  destruct H as [_ [Hs Hm]]. apply Hs. destruct (Files.files fs' !! path); [by eexists|done].
Qed.

(** From the moment the socket is bound, and so also before its own mode is
    narrowed, nobody outside the owning group can reach it, since its directory
    is closed to others; once the daemon listens, the socket itself has mode
    0660; and every request on it is let through exactly for root, the
    daemon's own user and the members of the group. *)
Theorem socket_only_for_the_group {R : GroupResolver} path text group self_uid fs :
  path ≠ [] → quiet fs →
  let '(r, fs') := listen (mkListenerConfig text path group) fs in
  (∃ moments, Files.seen fs' = Files.seen fs ++ moments ∧ Forall (shielded path) moments) ∧
  match r with
  | Ok _ => shielded path (Files.files fs') ∧
            Files.f_mode <$> Files.files fs' !! path = Some (6 * 64 + 6 * 8)%Z
  | Err _ => True
  end ∧
  ∀ info, interceptor_call self_uid group info = Ok () ↔
    ∃ creds, info = Some (Some creds) ∧ may_drive self_uid group creds.
Proof.
  intros Hp Hq. pose proof (listen_spec path Hp text group fs Hq) as H.
  destruct (listen _ fs) as [r fs']. destruct H as [Hm Hr]. split_and!; [done..|].
  intros [[creds|]|]; cbn; [|split; [done|by intros (? & ? & ?)]..].
  pose proof (is_authorized_spec creds self_uid group) as Ha.
  destruct (is_authorized creds self_uid group); cbn; split; [|done|done|].
  - intros _. exists creds. split; [done|]. by apply Ha.
  - intros (c & [= <-] & Hc). by apply Ha in Hc.
Qed.
