(* ===== verification/DaemonMain.v ===== *)
(** * The daemon process (bins/penguind, crates/penguin-daemon/src/lock.rs)

    [run_daemon]: the configuration, the single-instance lock, telemetry, the
    secrets, the licence, the supervisor with the modules that were enabled, the
    control socket, serving, and the end; and what precedes it, [penguind
    version] and [penguind service ...].

    The parts are those of the other files: [DaemonHost.daemon],
    [Secrets.store_open], [License.client_new], [Supervisor.start_enabled] and
    [shutdown], [Listen.listen].  What the requests and background tasks do
    while the daemon serves is a parameter, as is the host's service manager. *)
From S2P Require Import Prelude.
From S2P Require Import Json.
From S2P Require Import FakeEnv.
From S2P Require Import Ipc.
From S2P Require Import LicenseProps.
From S2P Require Import Text.
From S2P Require Import Sdk.
From S2P Require Import Supervisor.
From S2P Require Import SupervisorProps.
From S2P Require Import Hooks.
From S2P Require Import HooksFacts.
From S2P Require Import Secrets.
From S2P Require Import SecretsProps.
From S2P Require Import License.
From S2P Require Import Telemetry.
From S2P Require Import DaemonHost.
From S2P Require Import Listen.

(** ** The single-instance lock (lock.rs) *)

Inductive LockError :=
| AlreadyRunning (path : Path)
| Acquire (path : Path) (source : string).

(** The lock file: what opening and locking it fail with, and the process that
    holds it. *)
Record LockFile := mkLockFile {
  lf_open : option string;
  lf_lock : option string;
  lf_holder : option Z;
}.

Definition acquire (state_dir : Path) (pid : Z) (lf : LockFile) : result unit LockError * LockFile :=
  let path := state_dir ++ ["penguind.lock"] in
  match lf_open lf with
  | Some err => (Err (Acquire path err), lf)
  | None =>
      match lf_lock lf with
      | Some err => (Err (Acquire path err), lf)
      | None =>
          match lf_holder lf with
          | Some _ => (Err (AlreadyRunning path), lf)
          | None => (Ok (), mkLockFile (lf_open lf) (lf_lock lf) (Some pid))
          end
      end
  end.

(** [Drop for LockGuard] *)
Definition release (lf : LockFile) : LockFile := mkLockFile (lf_open lf) (lf_lock lf) None.

(** ** Before the daemon (main.rs, service/mod.rs) *)

Definition is_version_request (args : list string) : bool :=
  match args with
  | [a] => String.eqb a "version" || String.eqb a "--version"
  | _ => false
  end.

(** The host's service manager on a state [H]. *)
Class ServiceHost (H : Type) := {
  sh_install : string → eff H string unit;
  sh_enable : eff H string unit;
  sh_start : eff H string unit;
  sh_stop : eff H string unit;
  sh_status : eff H string string;
  sh_uninstall : eff H string unit;
}.

Section ServiceCommand.
  Context {H : Type} {SH : ServiceHost H} (debug : string → string) (unit_content : string).

Definition map_line {A} (ok : A → string) (failed : string) (m : eff H string A) : eff H string string := λ h,
  let '(r, h) := m h in
  (match r with Ok a => Ok (ok a) | Err err => Err (failed +:+ ": " +:+ err) end, h).

Definition run_action (action : string) : eff H string string :=
  if String.eqb action "install" then
    map_line (λ _, "penguind service installed successfully") "install failed"
      (let! _ := sh_install unit_content in sh_enable)
  else if String.eqb action "uninstall" then
    map_line (λ _, "penguind service uninstalled successfully") "uninstall failed" sh_uninstall
  else if String.eqb action "start" then
    map_line (λ _, "penguind service started") "start failed" sh_start
  else if String.eqb action "stop" then
    map_line (λ _, "penguind service stopped") "stop failed" sh_stop
  else if String.eqb action "status" then
    map_line (λ state, "penguind service status: " +:+ state) "status check failed" sh_status
  else pure (Err ("service: unknown action " +:+ debug action +:+ " (install|uninstall|start|stop|status)")).

Definition handle_service_command (args : list string) (h : H) : option (result string string) * H :=
  match args with
  | "service" :: [] =>
      (Some (Err "service: missing action (install|uninstall|start|stop|status)"), h)
  | "service" :: action :: _ => let '(r, h) := run_action action h in (Some r, h)
  | _ => (None, h)
  end.
End ServiceCommand.

(** ** The daemon (daemon_main.rs) *)

Section Daemon.
  Context {W : Type} `{!ModuleEnv W} `{!StateStore W} (sup_cfg : SupervisorConfig W).
  Context {CC : ConfigCodec} {LC : LicenseCodec} {K : Type} {Ring : Keyring K}.

Record Args := mkArgs { ar_config_dir : Path; ar_state_dir : Path; ar_socket : string }.

Inductive DaemonBinError :=
| BadStateDir (err : string)
| BadLock (err : LockError)
| BadTelemetry (err : string)
| BadSecrets (err : SecretError)
| BadListen (err : IpcError)
| BadServe (err : string).

(** The process's surroundings and what it has running. *)
Record Proc := mkProc {
  pr_reads : Reads;
  pr_lock : LockFile;
  pr_secrets : Machine (K := K);
  pr_license : License.World;
  pr_files : Files.t;                   (* the control socket and its directory *)
  pr_sup : Sup W;
  pr_refreshing : bool;                 (* the licence is being refreshed *)
  pr_stderr : list string;
  pr_warned : list string;
}.

Definition set_sup (s : Sup W) (p : Proc) : Proc :=
  mkProc (pr_reads p) (pr_lock p) (pr_secrets p) (pr_license p) (pr_files p) s (pr_refreshing p)
    (pr_stderr p) (pr_warned p).
Definition set_lock (lf : LockFile) (p : Proc) : Proc :=
  mkProc (pr_reads p) lf (pr_secrets p) (pr_license p) (pr_files p) (pr_sup p) (pr_refreshing p)
    (pr_stderr p) (pr_warned p).
Definition set_files (fs : Files.t) (p : Proc) : Proc :=
  mkProc (pr_reads p) (pr_lock p) (pr_secrets p) (pr_license p) fs (pr_sup p) (pr_refreshing p)
    (pr_stderr p) (pr_warned p).
Definition set_refreshing (b : bool) (p : Proc) : Proc :=
  mkProc (pr_reads p) (pr_lock p) (pr_secrets p) (pr_license p) (pr_files p) (pr_sup p) b
    (pr_stderr p) (pr_warned p).

(** What becomes of serving: no signal comes; one comes while clients hold
    this many streams open, which [serve_with_incoming_shutdown] lets run to
    their end; or the server fails. *)
Inductive ServeEnd := NoSignal | Signalled (open_streams : nat) | ServeFailed (err : string).

(** The result of serving, or [None] as long as it has not returned. *)
Definition serve_result (e : ServeEnd) : option (result unit string) :=
  match e with
  | NoSignal | Signalled (S _) => None
  | Signalled 0 => Some (Ok ())
  | ServeFailed err => Some (Err err)
  end.

(** Whether the run is over. *)
Inductive Ending := Finished | StillServing.

(** What this run meets: the failure of making the state directory, of the
    process collector, of making the plugin socket directory; the process, the
    licence key; what serving does to the supervisor and what becomes of it. *)
Record Fate := mkFate {
  ft_state_dir : option string;
  ft_collector : option string;
  ft_plugin_dir : option string;
  ft_pid : Z;
  ft_license_key : string;
  ft_served : Sup W → Sup W;
  ft_serve_end : ServeEnd;
}.

Abbreviation Run := (eff Proc DaemonBinError).

(** The configuration, with the defaults when it is invalid and the socket of
    the command line. *)
Definition load_daemon_config (args : Args) : Run DaemonConfig := λ p,
  let '(r, rd) := daemon (ar_config_dir args) (pr_reads p) in
  let '(cfg, said) :=
    match r with
    | Ok cfg => (cfg, [])
    | Err _ => (config_defaults, ["penguind: invalid daemon config, using defaults"])
    end in
  let cfg :=
    if String.eqb (ar_socket args) "" then cfg
    else mkDaemonConfig (ar_socket args) (dc_plugins_dir cfg) (dc_log_level cfg) (dc_group cfg) in
  (Ok cfg, mkProc rd (pr_lock p) (pr_secrets p) (pr_license p) (pr_files p) (pr_sup p) (pr_refreshing p)
             (pr_stderr p ++ said) (pr_warned p)).

Definition fail_if (o : option string) (e : string → DaemonBinError) : Run unit :=
  pure (match o with Some err => Err (e err) | None => Ok () end).

Definition take_lock (args : Args) (fate : Fate) : Run unit := λ p,
  let '(r, lf) := acquire (ar_state_dir args) (ft_pid fate) (pr_lock p) in
  (map_err BadLock r, set_lock lf p).

(** Releases the lock when [m] is over, however it ends. *)
Definition holding_lock (m : Run Ending) : Run Ending := λ p,
  let '(r, p) := m p in
  match r with
  | Ok StillServing => (r, p)
  | _ => (r, set_lock (release (pr_lock p)) p)
  end.

Definition telemetry_new (level : string) (fate : Fate) : Run unit :=
  let! _ := pure (match parse_level level with
                  | Ok _ => Ok ()
                  | Err _ => Err (BadTelemetry ("invalid log level: " +:+ level))
                  end) in
  fail_if (ft_collector fate) BadTelemetry.

Definition secrets_dir (state_dir : Path) : Path := state_dir ++ ["secrets"].

(** With [FileOnly] no keyring is asked, and none can panic. *)
Definition open_secrets (args : Args) : Run Store := λ p,
  let '(r, m) := store_open (mkConfig "" (FileOnly (secrets_dir (ar_state_dir args)))) (pr_secrets p) in
  let p := mkProc (pr_reads p) (pr_lock p) m (pr_license p) (pr_files p) (pr_sup p) (pr_refreshing p)
             (pr_stderr p) (pr_warned p) in
  (match r with
   | Some r => map_err BadSecrets r
   | None => Err (BadSecrets (SecretOther "panicked"))
   end, p).

(** The client, whose refreshing starts at once. *)
Definition start_license (args : Args) (fate : Fate) : Run LicenseClient := λ p,
  let '(c, lw) :=
    client_new (mkOptions (ft_license_key fate) "" "" (Some (ar_state_dir args ++ ["license"])))
      (pr_license p) in
  (Ok c, mkProc (pr_reads p) (pr_lock p) (pr_secrets p) lw (pr_files p) (pr_sup p) true
           (pr_stderr p) (pr_warned p)).

(** The modules that fail are only warned about. *)
Definition start_modules (fate : Fate) : Run unit := λ p,
  let plugin_warning :=
    match ft_plugin_dir fate with
    | Some _ => ["failed to create plugin socket dir; external plugin loading may be degraded"]
    | None => []
    end in
  let '(failures, s) := start_enabled sup_cfg (pr_sup p) in
  (Ok (), mkProc (pr_reads p) (pr_lock p) (pr_secrets p) (pr_license p) (pr_files p) s (pr_refreshing p)
            (pr_stderr p)
            (pr_warned p ++ plugin_warning ++ map (λ f, "failed to restore persisted module " +:+ f.1) failures)).

Definition listen_on (cfg : DaemonConfig) : Run unit := λ p,
  let '(r, fs) :=
    listen (mkListenerConfig (dc_socket_path cfg) (components (dc_socket_path cfg)) (dc_group cfg))
      (pr_files p) in
  (map_err BadListen r, set_files fs p).

(** Serving, and once that has returned the end. *)
Definition serve_and_stop (cfg : DaemonConfig) (fate : Fate) : Run Ending := λ p,
  let p := set_sup (ft_served fate (pr_sup p)) p in
  match serve_result (ft_serve_end fate) with
  | None => (Ok StillServing, p)
  | Some serve_result =>
      let '(_, s) := shutdown (pr_sup p) in
      let p := set_refreshing false (set_sup s p) in
      let '(_, fs) := Files.remove_file (components (dc_socket_path cfg)) (pr_files p) in
      (match serve_result with Err err => Err (BadServe err) | Ok _ => Ok Finished end, set_files fs p)
  end.

Definition run_daemon (args : Args) (fate : Fate) : Run Ending :=
  let! cfg := load_daemon_config args in
  let! _ := fail_if (ft_state_dir fate) BadStateDir in
  let! _ := take_lock args fate in
  holding_lock
    (let! _ := telemetry_new (dc_log_level cfg) fate in
     let! _ := open_secrets args in
     let! _ := start_license args fate in
     let! _ := start_modules fate in
     let! _ := listen_on cfg in
     serve_and_stop cfg fate).

(** ** Theorems *)

(** [m] changes neither the supervisor nor the lock, and does not fail as if
    it had served. *)
Definition prior {A} (m : Run A) : Prop :=
  ∀ p r p', m p = (r, p') →
    pr_sup p' = pr_sup p ∧ pr_lock p' = pr_lock p ∧
    match r with Err (BadServe _) => False | _ => True end.

Lemma prior_ok {A B} (m : Run A) (k : A → Run B) p r p' :
  prior m → eff_bind m k p = (r, p') →
  match r with Ok _ | Err (BadServe _) => True | _ => False end →
  ∃ a p1, k a p1 = (r, p') ∧ pr_sup p1 = pr_sup p ∧ pr_lock p1 = pr_lock p.
Proof.
  intros Hm. unfold eff_bind. destruct (m p) as [[a|e] p1] eqn:E; apply Hm in E as (Hs & Hl & He); [eauto|].
  intros [= <- <-] Hr. by destruct e.
Qed.

Lemma prior_config args : prior (load_daemon_config args).
Proof.
  intros p r p'. unfold load_daemon_config. destruct (daemon _ _) as [x rd].
  destruct (match x with Ok cfg => _ | Err _ => _ end) as [cfg said]. by intros [= <- <-].
Qed.

Lemma prior_fail o e : (∀ err, match e err with BadServe _ => False | _ => True end) → prior (fail_if o e).
Proof.
  intros He p r p'. unfold fail_if, pure. intros [= <- <-]. split_and!; [done..|]. destruct o; [apply He|done].
Qed.

Lemma prior_telemetry level fate : prior (telemetry_new level fate).
Proof.
  intros p r p'. unfold telemetry_new, eff_bind, pure. destruct (parse_level level); [|by intros [= <- <-]].
  by apply prior_fail.
Qed.

Lemma prior_secrets args : prior (open_secrets args).
Proof.
  intros p r p'. unfold open_secrets. destruct (store_open _ _) as [[[st|err]|] m]; by intros [= <- <-].
Qed.

Lemma prior_license args fate : prior (start_license args fate).
Proof. intros p r p'. unfold start_license. destruct (client_new _ _). by intros [= <- <-]. Qed.

Lemma prior_listen cfg : prior (listen_on cfg).
Proof. intros p r p'. unfold listen_on. destruct (listen _ _) as [[u|err] fs]; by intros [= <- <-]. Qed.

(** A run that comes to serve. *)
Definition served (r : result Ending DaemonBinError) : Prop :=
  match r with Ok _ | Err (BadServe _) => True | _ => False end.

Lemma run_daemon_serves args fate p r p' :
  run_daemon args fate p = (r, p') → served r →
  ∃ cfg p1, pr_sup p1 = (start_enabled sup_cfg (pr_sup p)).2 ∧ lf_holder (pr_lock p1) = Some (ft_pid fate) ∧
    holding_lock (serve_and_stop cfg fate) p1 = (r, p').
Proof.
  intros Hrun Hr. unfold run_daemon in Hrun.
  apply prior_ok in Hrun as (cfg & p1 & Hrun & Hs1 & _); [|apply prior_config|done].
  apply prior_ok in Hrun as ([] & p2 & Hrun & Hs2 & _); [|by apply prior_fail|done].
  unfold eff_bind at 1, take_lock, acquire in Hrun.
  destruct (lf_open (pr_lock p2)); [by injection Hrun as <- <-|].
  destruct (lf_lock (pr_lock p2)); [by injection Hrun as <- <-|].
  destruct (lf_holder (pr_lock p2)); [by injection Hrun as <- <-|]. cbn [map_err] in Hrun.
  match type of Hrun with holding_lock _ ?x = _ => set (p3 := x) in Hrun end.
  assert (pr_sup p3 = pr_sup p2 ∧ lf_holder (pr_lock p3) = Some (ft_pid fate)) as [Hs3 Hl3] by done. clearbody p3.
  unfold holding_lock in Hrun. destruct (eff_bind _ _ p3) as [r' p4] eqn:E.
  assert (r' = r) as -> by (by destruct r' as [[]|]; injection Hrun as <- <-).
  apply prior_ok in E as ([] & p5 & E & Hs5 & Hl5); [|apply prior_telemetry|done].
  apply prior_ok in E as (st & p6 & E & Hs6 & Hl6); [|apply prior_secrets|done].
  apply prior_ok in E as (c & p7 & E & Hs7 & Hl7); [|apply prior_license|done].
  unfold eff_bind at 1, start_modules in E. destruct (start_enabled _ (pr_sup p7)) as [failures s] eqn:Es.
  apply prior_ok in E as ([] & p9 & E & Hs9 & Hl9); [|apply prior_listen|done]. cbn [pr_sup pr_lock] in Hs9, Hl9.
  exists cfg, p9. unfold holding_lock. rewrite E. split_and!; [|congruence|done].
  rewrite Hs9. replace (pr_sup p) with (pr_sup p7) by congruence. by rewrite Es.
Qed.

Lemma stops_obs_all (m : gmap string LoadedModule) order n e :
  m !! n = Some e → n ∈ order → OStop (lm_instance e) ∈ SupervisorFacts.stops_obs m order.
Proof.
  intros Hn. induction order as [|x order IH]; [by intros ?%elem_of_nil|].
  intros [<-|Hin]%elem_of_cons; simpl; apply elem_of_app; [left|right; auto].
  rewrite Hn. simpl. unfold SupervisorFacts.stop_obs. set_solver.
Qed.

(** Shutting down calls the stop of every loaded module. *)
Lemma shutdown_stops (s : Sup W) :
  loaded (shutdown s).2 = ∅ ∧
  ∃ more, SupervisorFacts.shapes (shutdown s).2 = SupervisorFacts.shapes s ++ more ∧
    ∀ n e, loaded s !! n = Some e → OStop (lm_instance e) ∈ more.
Proof.
  destruct (SupervisorSteps.shutdown_locked_spec sup_cfg (cancel_life s).2) as (E1&_&_&_&_&_&_&E8&_).
  split; [exact E1|]. eexists. split; [exact E8|]. intros n e Hn.
  apply stops_obs_all with n; [exact Hn|].
  assert ((n, lm_load_seq e) ∈ shutdown_order (loaded s)) as Hin.
  { rewrite SupervisorSteps.shutdown_order_perm. apply list_elem_of_fmap. exists (n, e). split; [done|]. by apply elem_of_map_to_list. }
  apply list_elem_of_fmap. by exists (n, lm_load_seq e).
Qed.

(** C33: A run of the daemon that comes to serve has started the enabled modules
    and holds the lock.  Once serving returns, after a signal when no client
    holds a stream open or with a failure, the stop of every module then loaded
    is called, whatever it answers, none is loaded any more, the licence is no
    longer refreshed and the lock is free.  Until it returns none of this
    happens; after a signal it waits for the streams that are open. *)
Theorem served_daemon_ends_clean args fate p r p' :
  run_daemon args fate p = (r, p') → served r →
  let s := ft_served fate (start_enabled sup_cfg (pr_sup p)).2 in
  match serve_result (ft_serve_end fate) with
  | None => r = Ok StillServing ∧ pr_sup p' = s ∧ lf_holder (pr_lock p') = Some (ft_pid fate)
  | Some answer =>
      r = match answer with Ok _ => Ok Finished | Err err => Err (BadServe err) end ∧
      (∃ more, SupervisorFacts.shapes (pr_sup p') = SupervisorFacts.shapes s ++ more ∧
         ∀ n e, loaded s !! n = Some e → OStop (lm_instance e) ∈ more) ∧
      loaded (pr_sup p') = ∅ ∧ pr_refreshing p' = false ∧ lf_holder (pr_lock p') = None
  end.
Proof.
  intros Hrun Hr. apply run_daemon_serves in Hrun as (cfg & p1 & Hs & Hl & Hrun); [|done]. cbv zeta.
  rewrite <- Hs. revert Hrun. unfold holding_lock, serve_and_stop.
  destruct (serve_result (ft_serve_end fate)) as [answer|]; [|by intros [= <- <-]].
  cbn [pr_sup set_sup]. pose proof (shutdown_stops (ft_served fate (pr_sup p1))) as [He Hst].
  destruct (shutdown _) as [u s]. cbn [snd] in He, Hst. destruct (Files.remove_file _ _) as [v fs].
  by destruct answer as [[]|err]; intros [= <- <-].
Qed.

(** A client that follows the events or a log keeps a signalled daemon from
    ending: its modules are not stopped, and it holds the lock. *)
Theorem open_stream_blocks_shutdown args fate p r p' n :
  run_daemon args fate p = (r, p') → ft_serve_end fate = Signalled (S n) → served r →
  r = Ok StillServing ∧ pr_sup p' = ft_served fate (start_enabled sup_cfg (pr_sup p)).2 ∧
  lf_holder (pr_lock p') = Some (ft_pid fate).
Proof.
  intros Hrun He Hr. apply run_daemon_serves in Hrun as (cfg & p1 & Hs & Hl & Hrun); [|done].
  revert Hrun. unfold holding_lock, serve_and_stop. rewrite He, <- Hs. cbn. by intros [= <- <-].
Qed.

(** A daemon whose socket cannot be bound, here because its path is too
    long, has by then started every enabled module, and ends with an error
    that stops none of them: the modules stay as they were started, the
    licence refreshing goes on, and the lock is free for the next start. *)
Theorem listen_failure_skips_shutdown args fate p cfg p1 st :
  load_daemon_config args p = (Ok cfg, p1) →
  ft_state_dir fate = None → ft_collector fate = None →
  (acquire (ar_state_dir args) (ft_pid fate) (pr_lock p1)).1 = Ok () →
  is_ok (parse_level (dc_log_level cfg)) = true →
  (store_open (mkConfig "" (FileOnly (secrets_dir (ar_state_dir args)))) (pr_secrets p1)).1 = Some (Ok st) →
  (MAX_UNIX_PATH < String.length (dc_socket_path cfg))%nat →
  let '(r, p') := run_daemon args fate p in
  r = Err (BadListen (PathTooLong (dc_socket_path cfg) (String.length (dc_socket_path cfg)) MAX_UNIX_PATH)) ∧
  pr_sup p' = (start_enabled sup_cfg (pr_sup p)).2 ∧ pr_refreshing p' = true ∧
  lf_holder (pr_lock p') = None.
Proof.
  intros Hc Hd Ht Hl Hp Hs Hlen. unfold run_daemon, eff_bind at 1. rewrite Hc.
  assert (pr_sup p1 = pr_sup p) as Hsup.
  { unfold load_daemon_config in Hc. destruct (daemon _ _) as [[c|e] rd]; by injection Hc as <- <-. }
  unfold fail_if, eff_bind at 1, pure. rewrite Hd. unfold eff_bind at 1, take_lock.
  destruct (acquire _ _ _) as [rl lf]. cbn [fst] in Hl. subst rl. cbn [map_err].
  unfold holding_lock, eff_bind, telemetry_new, fail_if, pure, eff_bind. rewrite Ht.
  destruct (parse_level (dc_log_level cfg)); [|done].
  unfold open_secrets. cbn [set_lock pr_secrets].
  destruct (store_open _ _) as [rs m]. cbn [fst] in Hs. subst rs. cbn [map_err].
  unfold start_license. destruct (client_new _ _) as [c lw].
  unfold start_modules. cbn [pr_sup set_lock]. rewrite Hsup. destruct (start_enabled _ _) as [failures s].
  unfold listen_on, listen. cbn [lc_text].
  apply Nat.ltb_lt in Hlen. by rewrite Hlen.
Qed.
End Daemon.

(** ** The daemon process: concrete runs

    The theorems on host services, the control socket and the daemon's run at a
    daemon with one enabled module. *)

Module DaemonWitness.
Import Fake.

Local Existing Instance SecretsWitness.NoRing.
Local Existing Instance LicenseWitness.bits_codec.

(** A long enough name for a socket. *)
Fixpoint repeated (n : nat) : string :=
  match n with O => "" | S n => "/penguind-0" +:+ repeated n end.
Definition long_path : string := repeated 10.

(** Documents this environment understands; a schema refuses the key [evil]. *)
#[local] Instance tiny_codec : ConfigCodec := {|
  daemon_from_yaml data :=
    if String.eqb data "long" then Ok (mkDaemonConfig long_path "" "warn" "")
    else if String.eqb data "short" then Ok (mkDaemonConfig "" "" "warn" "")
    else Err "bad yaml";
  value_from_yaml data :=
    if String.eqb data "port: 53" then Ok (JObject [("port", JInt 53)])
    else if String.eqb data "evil: 1" then Ok (JObject [("evil", JInt 1)])
    else Err "bad yaml";
  schema_from_json data := Ok (JObject []);
  validator_for _ := Ok (λ v, match get v "evil" with Some _ => ["/evil"] | None => [] end);
|}.

Local Abbreviation debug := (λ s : string, s).
Local Abbreviation config_dir := ["etc"; "penguin"].
Local Abbreviation state_dir := ["var"; "lib"; "penguind"].

(** ** Host services *)

Definition squawk_file : Path := module_path config_dir "squawk".

(** The file is checked in one state and read again in another. *)
Definition reads (first second : string) : Reads :=
  mkReads (λ n p, if decide (p = squawk_file) then Ok (if (n =? 0)%nat then first else second)
                  else Err Files.not_found) 0.

Definition surroundings (first second : string) : HostWorld :=
  mkHostWorld (reads first second) (λ _, None) [] [].

Definition factory : DaemonHostFactory :=
  mkFactory config_dir SecretsWitness.root LicenseWitness.started.1 state_dir.

Lemma module_config_checked_witness :
  acceptable debug "squawk" (Some "{}")
    (dh_config (host_for debug factory "squawk" (Some "{}") (surroundings "port: 53" "port: 53")).1).
Proof.
  destruct (module_config_checked debug factory "squawk" (Some "{}") (surroundings "port: 53" "port: 53")
    eq_refl) as [H|[_ H]]; [discriminate H|exact H].
Defined.

Lemma hosts_are_disjoint_witness :
  make_key (dh_secrets (host_for debug factory "squawk" None (surroundings "" "")).1) "key" ≠
  make_key (dh_secrets (host_for debug factory "tobogganing" None (surroundings "" "")).1) "key".
Proof.
  exact (proj2 (hosts_are_disjoint debug factory "squawk" "tobogganing" None None (surroundings "" "")
    (surroundings "" "") eq_refl eq_refl ltac:(done) ltac:(done) ltac:(done)) "key" "key").
Defined.

(** The schema refuses what the module is then handed. *)
Lemma swapped_config_unchecked_witness :
  dh_config (host_for debug factory "squawk" (Some "{}") (surroundings "port: 53" "evil: 1")).1 = "evil: 1" ∧
  ¬ acceptable debug "squawk" (Some "{}") "evil: 1".
Proof.
  split; [|done].
  exact (swapped_config_unchecked debug factory "squawk" (Some "{}") (surroundings "port: 53" "evil: 1")
    "port: 53" "evil: 1" eq_refl eq_refl eq_refl eq_refl).
Defined.

(** A module called [secrets] is given the secrets' own directory. *)
Example secrets_is_a_module_name :
  dh_data_dir (host_for debug factory "secrets" None (surroundings "" "")).1 = secrets_dir state_dir.
Proof. reflexivity. Qed.

(** ** The control socket *)

#[local] Instance no_groups : GroupResolver := {| group_gid _ := None; user_groups _ := None |}.

Local Abbreviation socket := ["run"; "penguin"; "penguind.sock"].

Definition calm : Files.t := Files.mk ∅ (λ _, None) 0 (λ _, false) 0 (λ n, Z.of_nat n) 0 [].

Lemma socket_only_for_the_group_witness :
  Files.f_mode <$> Files.files (listen (mkListenerConfig "/run/penguin/penguind.sock" socket "penguin") calm).2
    !! socket = Some 432%Z.
Proof.
  pose proof (socket_only_for_the_group socket "/run/penguin/penguind.sock" "penguin" 0 calm
    ltac:(done) (λ _, eq_refl)) as H.
  assert ((listen (mkListenerConfig "/run/penguin/penguind.sock" socket "penguin") calm).1 = Ok ()) as E
    by (vm_compute; reflexivity).
  destruct (listen _ calm) as [r fs']. cbn in E. subst r. by destruct H as (_ & (_ & H) & _).
Defined.

(** ** The daemon *)

(** A daemon whose configuration file holds [text] and that has [a] enabled. *)
Definition before (text : string) : Proc (W := FakeWorld) (K := unit) :=
  mkProc (mkReads (λ _ p, if decide (p = config_dir ++ ["config.yaml"]) then Ok text else Err Files.not_found) 0)
    (mkLockFile None None None) SecretsWitness.fresh LicenseWitness.fresh calm
    (new (mkFake {["a"]} true 0 ∅ ∅ LHealthy)) false [] [].

Definition args : Args := mkArgs config_dir state_dir "".
Definition fate : Fate (W := FakeWorld) := mkFate None None None 4711 "" (λ s, s) (Signalled 0).

Definition short_run := run_daemon fake_cfg args fate (before "short").

Lemma short_run_ok : short_run.1 = Ok Finished.
Proof. vm_compute. reflexivity. Qed.

Lemma served_daemon_ends_clean_witness :
  loaded (pr_sup short_run.2) = ∅ ∧ lf_holder (pr_lock short_run.2) = None.
Proof.
  destruct (served_daemon_ends_clean fake_cfg args fate (before "short") short_run.1 short_run.2)
    as (_ & _ & H1 & _ & H2).
  - apply surjective_pairing.
  - rewrite short_run_ok. exact I.
  - split; [exact H1|exact H2].
Defined.

(** A signal while a client follows the events: the module goes on running. *)
Example followed_daemon_goes_on :
  let '(r, p) := run_daemon fake_cfg args (mkFate None None None 4711 "" (λ s, s) (Signalled 1)) (before "short") in
  r = Ok StillServing ∧ elements (dom (loaded (pr_sup p))) = ["a"] ∧ lf_holder (pr_lock p) = Some 4711%Z.
Proof. vm_compute. split_and!; reflexivity. Qed.

Definition configured := load_daemon_config args (before "long").
Definition long_config : DaemonConfig := mkDaemonConfig long_path "/opt/penguin/plugins" "warn" "penguin".

Lemma configured_long : load_daemon_config args (before "long") = (Ok long_config, configured.2).
Proof. apply SecretsWitness.with_first. vm_compute. reflexivity. Qed.

Definition opened : Store :=
  match (store_open (mkConfig "" (FileOnly (secrets_dir state_dir))) SecretsWitness.fresh).1 with
  | Some (Ok s) => s
  | _ => SecretsWitness.some_store
  end.

Lemma opened_ok :
  (store_open (mkConfig "" (FileOnly (secrets_dir (ar_state_dir args)))) (pr_secrets configured.2)).1
    = Some (Ok opened).
Proof. vm_compute. reflexivity. Qed.

Lemma listen_failure_skips_shutdown_witness :
  pr_sup (run_daemon fake_cfg args fate (before "long")).2 =
    (start_enabled fake_cfg (pr_sup (before "long"))).2.
Proof.
  pose proof (listen_failure_skips_shutdown fake_cfg args fate (before "long") long_config configured.2 opened
    configured_long eq_refl eq_refl eq_refl eq_refl opened_ok
    ltac:(vm_compute; repeat constructor)) as H.
  destruct (run_daemon _ _ _ _) as [r p']. by destruct H as (_ & H & _).
Defined.

(** The enabled module is left running. *)
Example module_left_running :
  elements (dom (loaded (pr_sup (run_daemon fake_cfg args fate (before "long")).2))) = ["a"].
Proof. vm_compute. reflexivity. Qed.

End DaemonWitness.
