(* ===== verification/SessionProxy.v ===== *)
(** * The user-session proxy (penguin-module-waddlebot/src/session_proxy.rs)

    The desktop client's requests go to the hub through the daemon, which holds
    the user's tokens, adds the access token, and on a 401 renews it once and
    asks again.  Requests run concurrently: [forward_request] is cut where it
    awaits an answer and between the two locks it takes for a retry, and
    [perform] is one such piece of one request, a change of session, or an
    answer, so a run is any interleaving.  The hub answers as it likes.  URLs,
    JSON and the text of a status are parameters; the logger is left out.

    Both requests go through [reqwest::Client::new()], whose documented policy
    is to follow redirects, ten at most for one request.  Following one is an
    action of its own: it goes where the answer said, and the code sees only
    the last answer. *)
From S2P Require Import Prelude.
From S2P Require Import Text.
From S2P Require Import Json.
From S2P Require Import Mask.
From S2P Require Import Doh.

(** ** What the proxy uses of its libraries *)

Class ProxyCrates := {
  pc_url :: UrlCrate;
  url_join : Url → string → result Url string;
  status_text : Z → string;                        (* [Display] of a status code *)
  json_from_slice : string → result Value string;
}.

(** ** Case *)

(** [str::to_uppercase], exact on what it maps into ASCII: besides the ASCII
    letters these are the characters outside it whose upper case is in it. *)
Definition special_upper (a b : nat) : option string :=
  if (a =? 0xC3) && (b =? 0x9F) then Some "SS"
  else if (a =? 0xC4) && (b =? 0xB1) then Some "I"
  else if (a =? 0xC5) && (b =? 0xBF) then Some "S"
  else None.

Definition ligature_upper (a b c : nat) : option string :=
  if (a =? 0xEF) && (b =? 0xAC) then
    ["FF"; "FI"; "FL"; "FFI"; "FFL"; "ST"; "ST"] !! (c - 0x80)
  else None.

Fixpoint to_uppercase (s : string) : string :=
  match s with
  | EmptyString => ""
  | String a s1 =>
      match s1 with
      | EmptyString => String (ascii_upper a) ""
      | String b s2 =>
          match special_upper (code a) (code b) with
          | Some u => u +:+ to_uppercase s2
          | None =>
              match s2 with
              | EmptyString => String (ascii_upper a) (to_uppercase s1)
              | String c s3 =>
                  match ligature_upper (code a) (code b) (code c) with
                  | Some u => u +:+ to_uppercase s3
                  | None => String (ascii_upper a) (to_uppercase s1)
                  end
              end
          end
      end
  end.

(** ** Requests, responses and checks *)

Record HttpRequest := mkHttpRequest {
  hq_method : string;
  hq_path : string;
  hq_headers : list (string * string);
  hq_body : string;
}.

Record HttpResponse := mkHttpResponse {
  hp_status : Z;
  hp_headers : list (string * string);
  hp_body : string;
}.

Inductive SessionProxyError :=
| NoSession
| InvalidUrl
| HubRequest (message : string)
| TokenRefresh (message : string)
| InvalidCredentials.

Definition SessionProxyError_display (e : SessionProxyError) : string :=
  match e with
  | NoSession => "no active session"
  | InvalidUrl => "invalid hub base url"
  | HubRequest m => "hub request failed: " +:+ m
  | TokenRefresh m => "token refresh failed: " +:+ m
  | InvalidCredentials => "invalid credentials"
  end.

Definition validate_request_path (path : string) : result unit SessionProxyError :=
  if negb (String.prefix "/" path) then Err (HubRequest "path must be absolute")
  else if negb (String.prefix "/api/v1/" path) then Err (HubRequest "path must start with /api/v1/")
  else if contains "@" path then Err (HubRequest "path contains invalid character")
  else if String.prefix "//" path then Err (HubRequest "path cannot start with //")
  else if contains ".." path then Err (HubRequest "path traversal detected")
  else if contains "://" path then Err (HubRequest "path cannot contain scheme")
  else Ok ().

(** The names are ASCII, and no character outside it has its lower case in
    them, so [to_lowercase] is that of ASCII. *)
Definition FORWARDABLE : list string :=
  ["content-type"; "accept"; "accept-language"; "accept-encoding"; "x-request-id";
   "x-correlation-id"; "user-agent"].

Definition is_forwardable_header (name : string) : bool :=
  bool_decide (to_ascii_lowercase name ∈ FORWARDABLE).

Definition HOP_BY_HOP : list string :=
  ["connection"; "keep-alive"; "proxy-authenticate"; "proxy-authorization"; "te"; "trailers";
   "transfer-encoding"; "upgrade"; "via"; "host"].

(** Of a name as the [http] crate gives it, which is ASCII. *)
Definition is_hop_by_hop_header (name : string) : bool :=
  bool_decide (to_ascii_lowercase name ∈ HOP_BY_HOP).

Definition METHODS : list string := ["GET"; "POST"; "PUT"; "DELETE"; "PATCH"].

Section Proxy.
  Context {Crates : ProxyCrates}.

Record SessionCredentials := mkCredentials {
  sc_access_token : string;
  sc_refresh_token : option string;
  sc_hub_base_url : Url;
}.

(** ** The session *)

Record Proxy := mkProxy { px_credentials : option SessionCredentials; px_has_rotated : bool }.

Definition proxy_new : Proxy := mkProxy None false.

Definition transport_allowed (u : Url) : bool :=
  bool_decide (url_scheme u = "https") ||
  bool_decide (url_host_str u ∈ [Some "127.0.0.1"; Some "::1"; Some "localhost"]).

Definition set_session (access_token : string) (refresh_token : option string) (hub_base_url : string)
    (p : Proxy) : result unit SessionProxyError * Proxy :=
  match url_parse hub_base_url with
  | Err _ => (Err InvalidUrl, p)
  | Ok parsed_url =>
      if negb (transport_allowed parsed_url) then
        (Err (HubRequest "plaintext Bearer transport forbidden to non-loopback hosts"), p)
      else (Ok (), mkProxy (Some (mkCredentials access_token refresh_token parsed_url)) false)
  end.

Definition clear_session (p : Proxy) : Proxy := mkProxy None false.
Definition token_rotated (p : Proxy) : bool := px_has_rotated p.
Definition clear_rotated_flag (p : Proxy) : Proxy := mkProxy (px_credentials p) false.

(** ** What is sent and what comes back *)

Inductive Outgoing :=
| ToHub (method : string) (url : Url) (authorization : string) (headers : list (string * string))
    (body : option string)
| ToRefresh (url : string) (body : Value).

(** A header value that is not text has none.  The time limits cover sending
    and the head of the response, not its body. *)
Inductive Answer :=
| TimedOut
| NotSent (error : string)
| Answered (status : Z) (headers : list (string * option string)) (body : result string string).

(** [send_request] up to the await. *)
Definition prepare_request (creds : SessionCredentials) (req : HttpRequest) :
    result Outgoing SessionProxyError :=
  let? _ := validate_request_path (hq_path req) in
  let? url := map_err (λ _, HubRequest "invalid path") (url_join (sc_hub_base_url creds) (hq_path req)) in
  if negb (bool_decide (url_host_str url = url_host_str (sc_hub_base_url creds))) ||
     negb (bool_decide (url_scheme url = url_scheme (sc_hub_base_url creds))) then
    Err (HubRequest "path redirect to different host/scheme detected")
  else
    let method := to_uppercase (hq_method req) in
    if bool_decide (method ∈ METHODS) then
      Ok (ToHub method url ("Bearer " +:+ sc_access_token creds)
            (filter (λ h, is_forwardable_header h.1 = true) (hq_headers req))
            (if decide (hq_body req = "") then None else Some (hq_body req)))
    else Err (HubRequest ("unsupported method: " +:+ hq_method req)).

(** [send_request] from the answer on. *)
Definition receive_response (a : Answer) : result HttpResponse SessionProxyError :=
  match a with
  | TimedOut => Err (HubRequest "timeout")
  | NotSent e => Err (HubRequest e)
  | Answered status headers body =>
      let response_headers :=
        omap (λ '(name, value),
          if is_hop_by_hop_header name then None else (λ v, (name, v)) <$> value) headers in
      let? body := map_err HubRequest body in
      Ok (mkHttpResponse status response_headers body)
  end.

(** [refresh_token] up to the await, and from the answer on. *)
Definition prepare_refresh (creds : SessionCredentials) (refresh_token : string) : Outgoing :=
  ToRefresh (url_to_string (sc_hub_base_url creds) +:+ "/api/v1/auth/refresh")
    (JObject [("refresh_token", JString refresh_token)]).

Definition receive_refresh (a : Answer) : result string SessionProxyError :=
  match a with
  | TimedOut => Err (TokenRefresh "timeout")
  | NotSent e => Err (TokenRefresh e)
  | Answered status _ body =>
      if negb (is_success status) then Err (TokenRefresh ("hub returned " +:+ status_text status))
      else
        let? bytes := map_err TokenRefresh body in
        let? value := map_err TokenRefresh (json_from_slice bytes) in
        ok_or (get value "access_token" ≫= as_str)
          (TokenRefresh "no access_token in refresh response")
  end.

(** ** The pieces of [forward_request] *)

Inductive Phase :=
| Sending (retried : bool) (creds : SessionCredentials)
| Refreshing (creds : SessionCredentials) (response : HttpResponse)
| Retrying                                        (* the new token is stored *)
| Finished (r : result HttpResponse SessionProxyError).

(** A phase, and what is sent on entering it with the credentials in use. *)
Definition Entered : Type := Phase * option (SessionCredentials * Outgoing).

Definition send_request (retried : bool) (creds : SessionCredentials) (req : HttpRequest) : Entered :=
  match prepare_request creds req with
  | Err e => (Finished (Err e), None)
  | Ok o => (Sending retried creds, Some (creds, o))
  end.

(** The session as it is now, then the request: the start of the loop and,
    once the token was renewed, its second round. *)
Definition with_session (retried : bool) (req : HttpRequest) (p : Proxy) : Entered :=
  match px_credentials p with
  | None => (Finished (Err NoSession), None)
  | Some creds => send_request retried creds req
  end.

Definition after_response (retried : bool) (creds : SessionCredentials) (a : Answer) : Entered :=
  match receive_response a with
  | Err e => (Finished (Err e), None)
  | Ok response =>
      if (hp_status response =? 401)%Z && negb retried then
        match sc_refresh_token creds with
        | Some refresh_token =>
            (Refreshing creds response, Some (creds, prepare_refresh creds refresh_token))
        | None => (Finished (Ok response), None)
        end
      else (Finished (Ok response), None)
  end.

Definition set_access_token (token : string) (c : SessionCredentials) : SessionCredentials :=
  mkCredentials token (sc_refresh_token c) (sc_hub_base_url c).

Definition after_refresh (response : HttpResponse) (a : Answer) (p : Proxy) : Phase * Proxy :=
  match receive_refresh a with
  | Ok new_access_token =>
      (Retrying, mkProxy (set_access_token new_access_token <$> px_credentials p) true)
  | Err _ => (Finished (Ok response), p)
  end.

(** ** Runs *)

(** What happened: sessions set, requests sent, redirects of them followed, and
    tokens that came in answer to a refresh sent to a base URL. *)
Inductive Event :=
| SessionSet (creds : SessionCredentials)
| Sent (task : nat) (creds : SessionCredentials) (o : Outgoing)
| Followed (task : nat) (location : string)
| TokenGiven (base : Url) (token : string).

(** The default of [reqwest::redirect::Policy]. *)
Definition REDIRECT_LIMIT : nat := 10.

(** The redirects followed for a task's last request. *)
Definition hop (i : nat) (n : nat) (e : Event) : nat :=
  match e with
  | Sent j _ _ => if Nat.eqb i j then 0 else n
  | Followed j _ => if Nat.eqb i j then S n else n
  | _ => n
  end.
Definition hops (i : nat) (tr : list Event) : nat := foldl (hop i) 0 tr.

Record System := mkSystem {
  sy_proxy : Proxy;
  sy_tasks : list (HttpRequest * Phase);
  sy_trace : list Event;
}.

Definition system_new : System := mkSystem proxy_new [] [].

Inductive Action :=
| SetSession (access_token : string) (refresh_token : option string) (hub_base_url : string)
| ClearSession
| ClearRotated
| Forward (req : HttpRequest)
| Redirect (task : nat) (location : string)
| Answer_ (task : nat) (a : Answer)
| Resume (task : nat).

Definition sent_events (i : nat) (o : option (SessionCredentials * Outgoing)) : list Event :=
  match o with Some (creds, o) => [Sent i creds o] | None => [] end.

Definition enter (i : nat) (req : HttpRequest) (e : Entered) (s : System) : System :=
  mkSystem (sy_proxy s) (<[i := (req, e.1)]> (sy_tasks s)) (sy_trace s ++ sent_events i e.2).

Definition waiting (ph : Phase) : bool :=
  match ph with Sending _ _ | Refreshing _ _ => true | _ => false end.

(** An action whose time has not come does nothing. *)
Definition perform (s : System) (a : Action) : System :=
  match a with
  | SetSession t r u =>
      match set_session t r u (sy_proxy s) with
      | (Ok _, p) =>
          mkSystem p (sy_tasks s)
            (sy_trace s ++ match px_credentials p with Some c => [SessionSet c] | None => [] end)
      | (Err _, p) => mkSystem p (sy_tasks s) (sy_trace s)
      end
  | ClearSession => mkSystem (clear_session (sy_proxy s)) (sy_tasks s) (sy_trace s)
  | ClearRotated => mkSystem (clear_rotated_flag (sy_proxy s)) (sy_tasks s) (sy_trace s)
  | Forward req =>
      let i := length (sy_tasks s) in
      let e := with_session false req (sy_proxy s) in
      mkSystem (sy_proxy s) (sy_tasks s ++ [(req, e.1)]) (sy_trace s ++ sent_events i e.2)
  | Redirect i location =>
      match sy_tasks s !! i with
      | Some (_, ph) =>
          if waiting ph && (hops i (sy_trace s) <? REDIRECT_LIMIT)
          then mkSystem (sy_proxy s) (sy_tasks s) (sy_trace s ++ [Followed i location])
          else s
      | None => s
      end
  | Answer_ i a =>
      match sy_tasks s !! i with
      | Some (req, Sending retried creds) => enter i req (after_response retried creds a) s
      | Some (req, Refreshing creds response) =>
          let '(phase, p) := after_refresh response a (sy_proxy s) in
          mkSystem p (<[i := (req, phase)]> (sy_tasks s))
            (sy_trace s ++ match receive_refresh a with
                           | Ok token => [TokenGiven (sc_hub_base_url creds) token]
                           | Err _ => []
                           end)
      | _ => s
      end
  | Resume i =>
      match sy_tasks s !! i with
      | Some (req, Retrying) => enter i req (with_session true req (sy_proxy s)) s
      | _ => s
      end
  end.

Definition run (actions : list Action) (s : System) : System := foldl perform s actions.

Definition is_finished (t : HttpRequest * Phase) : bool :=
  match t.2 with Finished _ => true | _ => false end.

Definition idle (s : System) : bool := forallb is_finished (sy_tasks s).

(** A session is only set when no request is under way. *)
Fixpoint sessions_set_idle (actions : list Action) (s : System) : bool :=
  match actions with
  | [] => true
  | a :: rest =>
      match a with SetSession _ _ _ => idle s | _ => true end && sessions_set_idle rest (perform s a)
  end.
End Proxy.
