(* ===== verification/SessionProps.v ===== *)
(** * The user-session proxy: theorems

    One invariant of all interleavings, with two readings: whatever happens a
    request carries a token of some session or refresh, and when sessions are
    only changed with nothing under way it carries one of its own hub. *)
From S2P Require Import Prelude.
From S2P Require Import Text.
From S2P Require Import Json.
From S2P Require Import Mask.
From S2P Require Import Doh.
From S2P Require Import SessionProxy.

Section Facts.
  Context {Crates : ProxyCrates}.

(** ** Single pieces *)

Lemma set_session_inv t r u p x p' :
  set_session t r u p = (x, p') →
  p' = p ∨ ∃ base, p' = mkProxy (Some (mkCredentials t r base)) false ∧ x = Ok () ∧
    url_parse u = Ok base ∧ transport_allowed base = true.
Proof.
  unfold set_session. destruct (url_parse u) as [base|]; [|by intros [= <- <-]; left].
  destruct (transport_allowed base) eqn:Et; intros [= <- <-]; [right; by exists base|by left].
Qed.

(** What holds of a request built with some credentials. *)
Definition well_sent (creds : SessionCredentials) (req : HttpRequest) (o : Outgoing) : Prop :=
  match o with
  | ToHub method url authorization headers body =>
      method ∈ METHODS ∧ method = to_uppercase (hq_method req) ∧
      validate_request_path (hq_path req) = Ok () ∧
      url_join (sc_hub_base_url creds) (hq_path req) = Ok url ∧
      url_host_str url = url_host_str (sc_hub_base_url creds) ∧
      url_scheme url = url_scheme (sc_hub_base_url creds) ∧
      authorization = "Bearer " +:+ sc_access_token creds ∧
      headers = filter (λ h, is_forwardable_header h.1 = true) (hq_headers req)
  | ToRefresh url body =>
      url = url_to_string (sc_hub_base_url creds) +:+ "/api/v1/auth/refresh" ∧
      ∃ token, sc_refresh_token creds = Some token ∧
        body = JObject [("refresh_token", JString token)]
  end.

Lemma prepare_request_inv creds req o :
  prepare_request creds req = Ok o → well_sent creds req o ∧ ∃ m u a h b, o = ToHub m u a h b.
Proof.
  unfold prepare_request.
  destruct (validate_request_path (hq_path req)) as [[]|] eqn:Ev; simpl; [|done].
  destruct (url_join _ _) as [url|] eqn:Ej; simpl; [|done].
  destruct (bool_decide (url_host_str url = _)) eqn:Eh; simpl; [|done].
  destruct (bool_decide (url_scheme url = _)) eqn:Es; simpl; [|done].
  destruct (bool_decide (to_uppercase (hq_method req) ∈ METHODS)) eqn:Em; [|done].
  intros [= <-]. apply bool_decide_eq_true in Eh, Es, Em. split; [|by eauto 10]. by split_and!.
Qed.

Lemma validated_path path : validate_request_path path = Ok () → String.prefix "/api/v1/" path = true ∧
  contains ".." path = false ∧ contains "@" path = false.
Proof.
  unfold validate_request_path. destruct (String.prefix "/" path); [|done].
  destruct (String.prefix "/api/v1/" path); [|done]. cbn [negb].
  destruct (contains "@" path); [done|]. destruct (String.prefix "//" path); [done|].
  destruct (contains ".." path); [done|]. done.
Qed.

(** ** The invariant *)

(** The token was set with a session or given by a refresh; [home]: of the
    same hub. *)
Definition issued (home : bool) (tr : list Event) (c : SessionCredentials) : Prop :=
  (∃ o, SessionSet o ∈ tr ∧ sc_hub_base_url c = sc_hub_base_url o ∧
     sc_refresh_token c = sc_refresh_token o) ∧
  ((∃ o, SessionSet o ∈ tr ∧ sc_access_token c = sc_access_token o ∧
      (home = true → sc_hub_base_url c = sc_hub_base_url o)) ∨
   ∃ b, TokenGiven b (sc_access_token c) ∈ tr ∧ (home = true → b = sc_hub_base_url c)) ∧
  transport_allowed (sc_hub_base_url c) = true.

Definition phase_creds (ph : Phase) : option SessionCredentials :=
  match ph with Sending _ c | Refreshing c _ => Some c | _ => None end.

Definition to_hub (i : nat) (e : Event) : bool :=
  match e with Sent j _ (ToHub _ _ _ _ _) => Nat.eqb i j | _ => false end.
Definition to_refresh (i : nat) (e : Event) : bool :=
  match e with Sent j _ (ToRefresh _ _) => Nat.eqb i j | _ => false end.

Definition count (p : Event → bool) (tr : list Event) : nat := length (filter (λ e, p e = true) tr).

(** How often a request may have been sent in each phase. *)
Definition budget (ph : Phase) (hub refreshes : nat) : Prop :=
  match ph with
  | Sending false _ => hub = 1 ∧ refreshes = 0
  | Refreshing _ _ | Retrying => hub = 1 ∧ refreshes = 1
  | Sending true _ => hub = 2 ∧ refreshes = 1
  | Finished _ => hub ≤ 2 ∧ refreshes ≤ 1
  end.

Record Inv (home : bool) (s : System) : Prop := mkInv {
  inv_session : ∀ c, px_credentials (sy_proxy s) = Some c → issued home (sy_trace s) c;
  inv_tasks : ∀ i req ph c,
    sy_tasks s !! i = Some (req, ph) → phase_creds ph = Some c → issued home (sy_trace s) c;
  inv_home : ∀ i req ph c cur, home = true →
    sy_tasks s !! i = Some (req, ph) → phase_creds ph = Some c →
    px_credentials (sy_proxy s) = Some cur → sc_hub_base_url cur = sc_hub_base_url c;
  inv_sent : ∀ i c o, Sent i c o ∈ sy_trace s →
    issued home (sy_trace s) c ∧ ∃ req ph, sy_tasks s !! i = Some (req, ph) ∧ well_sent c req o;
  inv_budget : ∀ i req ph, sy_tasks s !! i = Some (req, ph) →
    budget ph (count (to_hub i) (sy_trace s)) (count (to_refresh i) (sy_trace s));
  inv_fresh : ∀ i c o, Sent i c o ∈ sy_trace s → i < length (sy_tasks s);
}.

Lemma issued_more home tr tr' c : issued home tr c → issued home (tr ++ tr') c.
Proof.
  intros ((o & H1 & H2) & H3 & H4). split; [exists o; split; [set_solver|done]|].
  split; [|done]. destruct H3 as [(o' & H & H')|(b & H & H')]; [left; exists o'|right; exists b];
    (split; [set_solver|done]).
Qed.

Lemma count_app p tr tr' : count p (tr ++ tr') = count p tr + count p tr'.
Proof. unfold count. by rewrite filter_app, length_app. Qed.

Lemma count_none p tr : (∀ e, e ∈ tr → p e = false) → count p tr = 0.
Proof.
  unfold count. induction tr as [|e tr IH]; intros H; [done|]. rewrite filter_cons.
  rewrite decide_False by (rewrite (H e ltac:(set_solver)); done). apply IH. set_solver.
Qed.

Lemma count_entered_other i j o :
  i ≠ j → count (to_hub i) (sent_events j o) = 0 ∧ count (to_refresh i) (sent_events j o) = 0.
Proof.
  intros Hij. apply Nat.eqb_neq in Hij.
  destruct o as [[c [m u a h b|u b]]|]; simpl; unfold count; rewrite ?filter_cons; simpl; rewrite ?Hij; done.
Qed.

(** ** Entering a phase *)

(** What [send_request], [with_session] and [after_response] may give. *)
Definition entered_ok (home : bool) (s : System) (req : HttpRequest) (hub refreshes : nat) (e : Entered) : Prop :=
  (∀ c, phase_creds e.1 = Some c → issued home (sy_trace s) c) ∧
  (∀ c cur, home = true → phase_creds e.1 = Some c → px_credentials (sy_proxy s) = Some cur →
     sc_hub_base_url cur = sc_hub_base_url c) ∧
  (∀ c o, e.2 = Some (c, o) → issued home (sy_trace s) c ∧ well_sent c req o) ∧
  budget e.1 (hub + count (to_hub 0) (sent_events 0 e.2))
    (refreshes + count (to_refresh 0) (sent_events 0 e.2)).

Lemma with_session_ok home s req (retried : bool) :
  Inv home s →
  entered_ok home s req (if retried then 1 else 0) (if retried then 1 else 0)
    (with_session retried req (sy_proxy s)).
Proof.
  intros HI. unfold with_session, send_request, entered_ok.
  destruct (px_credentials (sy_proxy s)) as [c|] eqn:Ec;
    [|by destruct retried; (split_and!; [done..|cbv; lia])].
  destruct (prepare_request c req) as [o|] eqn:Eo;
    [|by destruct retried; (split_and!; [done..|cbv; lia])].
  apply prepare_request_inv in Eo as [Hw (m & u & a & h & b & ->)].
  pose proof (inv_session _ _ HI _ Ec) as Hi. split_and!.
  - intros ? [= <-]. done.
  - intros ? ? _ [= <-] [= <-]. done.
  - intros ? ? [= <- <-]. done.
  - by destruct retried.
Qed.

Lemma after_response_ok home s i req (retried : bool) c a :
  Inv home s → sy_tasks s !! i = Some (req, Sending retried c) →
  entered_ok home s req (if retried then 2 else 1) (if retried then 1 else 0) (after_response retried c a).
Proof.
  intros HI Hi. unfold after_response, entered_ok.
  destruct (receive_response a) as [rsp|]; [|destruct retried; (split_and!; [done..|cbv; lia])].
  destruct ((hp_status rsp =? 401)%Z && negb retried) eqn:E;
    [|destruct retried; (split_and!; [done..|cbv; lia])].
  destruct retried; [by rewrite andb_false_r in E|].
  destruct (sc_refresh_token c) as [t|] eqn:Et; [|split_and!; [done..|cbv; lia]].
  pose proof (inv_tasks _ _ HI _ _ _ c Hi eq_refl) as Hiss. split_and!.
  - intros ? [= <-]. done.
  - intros ? cur Hh [= <-] Hc. by eapply (inv_home _ _ HI).
  - intros ? ? [= <- <-]. split; [done|]. split; [done|]. by exists t.
  - done.
Qed.

Lemma count_sent_events i o :
  count (to_hub i) (sent_events i o) = count (to_hub 0) (sent_events 0 o) ∧
  count (to_refresh i) (sent_events i o) = count (to_refresh 0) (sent_events 0 o).
Proof. destruct o as [[c [m u a h b|u b]]|]; unfold count; simpl; rewrite ?filter_cons; simpl; by rewrite ?Nat.eqb_refl. Qed.

(** A task enters a phase; the session stays. *)
Lemma enter_inv home s tasks i req ph0 e :
  Inv home s → entered_ok home s req (count (to_hub i) (sy_trace s)) (count (to_refresh i) (sy_trace s)) e →
  (tasks = <[i := (req, e.1)]> (sy_tasks s) ∧ sy_tasks s !! i = Some (req, ph0) ∨
   tasks = sy_tasks s ++ [(req, e.1)] ∧ i = length (sy_tasks s)) →
  Inv home (mkSystem (sy_proxy s) tasks (sy_trace s ++ sent_events i e.2)).
Proof.
  intros HI (H1 & H2 & H3 & H4) Ht.
  assert (tasks !! i = Some (req, e.1)) as Hi.
  { destruct Ht as [[-> Hi]|[-> ->]]; [|by rewrite lookup_app_r, Nat.sub_diag by lia].
    apply list_lookup_insert_eq. by eapply lookup_lt_Some. }
  assert (∀ j x, j ≠ i → tasks !! j = Some x → sy_tasks s !! j = Some x) as Hother.
  { intros j x Hj. destruct Ht as [[-> _]|[-> ->]]; [by rewrite list_lookup_insert_ne by done|].
    intros Hx. apply lookup_app_Some in Hx as [?|[? Hx]]; [done|].
    apply lookup_lt_Some in Hx. simpl in Hx. lia. }
  assert (∀ j r ph, sy_tasks s !! j = Some (r, ph) → ∃ ph', tasks !! j = Some (r, ph')) as Hkeep.
  { intros j r ph Hj. destruct Ht as [[-> Hi0]|[-> ->]]; [|exists ph; by apply lookup_app_l_Some].
    destruct (decide (j = i)) as [->|]; [exists e.1; congruence|exists ph; by rewrite list_lookup_insert_ne]. }
  assert (length (sy_tasks s) ≤ length tasks) as Hlen.
  { destruct Ht as [[-> _]|[-> _]]; rewrite ?length_insert, ?length_app; lia. }
  split; simpl.
  - intros c Hc. apply issued_more. by apply (inv_session _ _ HI).
  - intros j r ph c Hj Hc. apply issued_more. destruct (decide (j = i)) as [->|Hne].
    + rewrite Hi in Hj. injection Hj as <- <-. by apply H1.
    + by eapply (inv_tasks _ _ HI); [apply Hother|].
  - intros j r ph c cur Hh Hj Hc Hcur. destruct (decide (j = i)) as [->|Hne].
    + rewrite Hi in Hj. injection Hj as <- <-. by apply H2.
    + by eapply (inv_home _ _ HI); [|apply Hother|..].
  - intros j c o [Hin|Hin]%elem_of_app.
    + destruct (inv_sent _ _ HI _ _ _ Hin) as (Hiss & r & ph & Hj & Hw).
      split; [by apply issued_more|]. apply Hkeep in Hj as [ph' Hj]. by exists r, ph'.
    + destruct e.2 as [[c' o']|] eqn:Ee; simpl in Hin; [|by apply elem_of_nil in Hin].
      apply list_elem_of_singleton in Hin as [= -> -> ->]. destruct (H3 _ _ eq_refl) as [Hiss Hw].
      split; [by apply issued_more|]. by exists req, e.1.
  - intros j r ph Hj. rewrite !count_app. destruct (decide (j = i)) as [->|Hne].
    + rewrite Hi in Hj. injection Hj as <- <-. destruct (count_sent_events i e.2) as [-> ->]. done.
    + destruct (count_entered_other j i e.2 Hne) as [-> ->]. rewrite !Nat.add_0_r.
      by apply (inv_budget _ _ HI j r), Hother.
  - intros j c o [Hin|Hin]%elem_of_app; [pose proof (inv_fresh _ _ HI _ _ _ Hin); lia|].
    destruct e.2 as [[c' o']|]; simpl in Hin; [|by apply elem_of_nil in Hin].
    apply list_elem_of_singleton in Hin as [= -> -> ->]. by eapply lookup_lt_Some.
Qed.

(** ** Every action *)

Lemma inv_session_change home s p tr :
  Inv home s →
  (∀ c, px_credentials p = Some c → issued home (sy_trace s ++ tr) c) →
  (∀ i req ph c cur, home = true → sy_tasks s !! i = Some (req, ph) → phase_creds ph = Some c →
     px_credentials p = Some cur → sc_hub_base_url cur = sc_hub_base_url c) →
  (∀ e, e ∈ tr → ∀ i c o, e ≠ Sent i c o) →
  Inv home (mkSystem p (sy_tasks s) (sy_trace s ++ tr)).
Proof.
  intros HI Hc Hh Htr.
  assert (∀ i c o, Sent i c o ∈ sy_trace s ++ tr → Sent i c o ∈ sy_trace s) as Hs.
  { intros i c o [?|H]%elem_of_app; [done|]. by destruct (Htr _ H i c o). }
  assert (∀ i, count (to_hub i) tr = 0 ∧ count (to_refresh i) tr = 0) as Hn.
  { intros i. split; apply count_none; intros e He; destruct e as [|j c o| |]; try done;
      by destruct (Htr _ He j c o). }
  split; simpl; [done| |done| | |].
  - intros i req ph c Hi Hp. apply issued_more. by eapply (inv_tasks _ _ HI).
  - intros i c o Hin%Hs. apply (inv_sent _ _ HI) in Hin as [? ?]. split; [by apply issued_more|done].
  - intros i req ph Hi. rewrite !count_app. destruct (Hn i) as [-> ->]. rewrite !Nat.add_0_r.
    by eapply (inv_budget _ _ HI).
  - intros i c o Hin%Hs. by eapply (inv_fresh _ _ HI).
Qed.

(** A task moves on without sending. *)
Lemma quiet_phase_inv home s i req ph ph' :
  Inv home s → sy_tasks s !! i = Some (req, ph) → phase_creds ph' = None →
  (∀ h r, budget ph h r → budget ph' h r) →
  Inv home (mkSystem (sy_proxy s) (<[i := (req, ph')]> (sy_tasks s)) (sy_trace s)).
Proof.
  intros HI Hi Hp Hb. rewrite <- (app_nil_r (sy_trace s)).
  apply (enter_inv home s _ i req ph (ph', None) HI); [|by left].
  split_and!; simpl; [by intros ? ?%eq_sym; congruence|congruence|done|].
  rewrite !Nat.add_0_r. apply Hb. by eapply (inv_budget _ _ HI).
Qed.

Lemma fresh_counts home s : Inv home s →
  count (to_hub (length (sy_tasks s))) (sy_trace s) = 0 ∧
  count (to_refresh (length (sy_tasks s))) (sy_trace s) = 0.
Proof.
  intros HI.
  assert (∀ j c o, Sent j c o ∈ sy_trace s → (length (sy_tasks s) =? j) = false) as H.
  { intros j c o ?%(inv_fresh _ _ HI). apply Nat.eqb_neq. lia. }
  split; apply count_none; intros [|j c [m u a h b|u b]| |] He; simpl; try done; by eapply H.
Qed.

Lemma refreshed_inv home s i req c rsp a :
  Inv home s → sy_tasks s !! i = Some (req, Refreshing c rsp) → Inv home (perform s (Answer_ i a)).
Proof.
  intros HI Hi. unfold perform. rewrite Hi. unfold after_refresh.
  destruct (receive_refresh a) as [token|e].
  2: { rewrite app_nil_r. eapply quiet_phase_inv; [done|exact Hi|done|]. intros h r [-> ->]. simpl. lia. }
  pose proof (quiet_phase_inv home s i req _ Retrying HI Hi eq_refl (λ h r H, H)) as HI'.
  apply (inv_session_change home _ (mkProxy (set_access_token token <$> px_credentials (sy_proxy s)) true)
    [TokenGiven (sc_hub_base_url c) token]) in HI'; [exact HI'| | |].
  - simpl. intros cur. destruct (px_credentials (sy_proxy s)) as [cur0|] eqn:Ec; [|done].
    intros [= <-]. destruct (inv_session _ _ HI _ Ec) as ((o & Ho & Hb & Hr) & _ & Hs).
    split; [exists o; split; [set_solver|done]|]. split; [|done]. right. exists (sc_hub_base_url c).
    split; [simpl; set_solver|]. intros Hh. symmetry. exact (inv_home _ _ HI _ _ _ c cur0 Hh Hi eq_refl Ec).
  - simpl. intros j r ph c' cur Hh Hj Hp Hcur.
    destruct (px_credentials (sy_proxy s)) as [cur0|] eqn:Ec; [|done]. injection Hcur as <-. simpl.
    destruct (decide (j = i)) as [->|Hne].
    + rewrite list_lookup_insert_eq in Hj by (by eapply lookup_lt_Some). by injection Hj as <- <-.
    + rewrite list_lookup_insert_ne in Hj by done. by eapply (inv_home _ _ HI).
  - by intros e ->%list_elem_of_singleton.
Qed.

Lemma idle_lookup s i req ph c :
  idle s = true → sy_tasks s !! i = Some (req, ph) → phase_creds ph = Some c → False.
Proof.
  intros H Hi Hp. unfold idle in H. rewrite forallb_forall in H.
  specialize (H (req, ph)). rewrite <- list_elem_of_In in H.
  specialize (H (list_elem_of_lookup_2 _ _ _ Hi)). by destruct ph.
Qed.

Lemma perform_inv home s a :
  Inv home s → (home = true → match a with SetSession _ _ _ => idle s = true | _ => True end) →
  Inv home (perform s a).
Proof.
  intros HI Ha. destruct a as [t r u| | |req|i loc|i a|i].
  - unfold perform. destruct (set_session t r u (sy_proxy s)) as [x p] eqn:E.
    apply set_session_inv in E as [->|(base & -> & -> & Hp & Ht)].
    + assert (Inv home (mkSystem (sy_proxy s) (sy_tasks s) (sy_trace s))) as HI' by (by destruct s).
      destruct x; [|done]. apply (inv_session_change home s (sy_proxy s)); [done| | |].
      * intros c Hc. apply issued_more. by apply (inv_session _ _ HI).
      * intros. by eapply (inv_home _ _ HI).
      * destruct (px_credentials (sy_proxy s)); [by intros e ->%list_elem_of_singleton|by intros ? ?%elem_of_nil].
    + simpl. apply inv_session_change; [done| | |by intros e ->%list_elem_of_singleton].
      * simpl. intros c [= <-]. split; [|split; [left|done]];
          (eexists; split; [apply elem_of_app; right; by apply list_elem_of_singleton|done]).
      * intros i req ph c cur Hh Hi Hc. destruct (idle_lookup s i req ph c (Ha Hh) Hi Hc).
  - simpl. rewrite <- (app_nil_r (sy_trace s)). apply inv_session_change; [done..|by intros ? ?%elem_of_nil].
  - simpl. rewrite <- (app_nil_r (sy_trace s)). apply inv_session_change; [done| | |by intros ? ?%elem_of_nil].
    + simpl. rewrite app_nil_r. apply (inv_session _ _ HI).
    + simpl. intros. by eapply (inv_home _ _ HI).
  - simpl. apply (enter_inv home s _ _ req Retrying); [done| |by right].
    destruct (fresh_counts _ _ HI) as [-> ->]. by apply (with_session_ok home s req false).
  - simpl. destruct (sy_tasks s !! i) as [[req ph]|] eqn:Ei; [|done].
    destruct (waiting ph && _); [|done].
    apply inv_session_change; [done| | |by intros e ->%list_elem_of_singleton].
    + intros c Hc. apply issued_more. by apply (inv_session _ _ HI).
    + intros. by eapply (inv_home _ _ HI).
  - destruct (sy_tasks s !! i) as [[req ph]|] eqn:Ei; [|by simpl; rewrite Ei].
    destruct ph as [retried c|c rsp| |]; [|by eapply refreshed_inv|by simpl; rewrite Ei..].
    simpl. rewrite Ei. eapply enter_inv; [done| |by left].
    pose proof (inv_budget _ _ HI _ _ _ Ei) as Hb. pose proof (after_response_ok home s i req retried c a HI Ei) as Ho.
    destruct retried; destruct Hb as [-> ->]; done.
  - simpl. destruct (sy_tasks s !! i) as [[req ph]|] eqn:Ei; [|done].
    destruct ph as [| | |]; try done. eapply enter_inv; [done| |by left].
    destruct (inv_budget _ _ HI _ _ _ Ei) as [-> ->]. by apply (with_session_ok home s req true).
Qed.

Lemma inv_new home : Inv home system_new.
Proof. split; simpl; try done; by intros ? ? ? ?%elem_of_nil. Qed.

Lemma run_inv home actions s :
  Inv home s → (home = true → sessions_set_idle actions s = true) → Inv home (run actions s).
Proof.
  revert s. induction actions as [|a actions IH]; intros s HI Ha; [done|]. simpl. apply IH.
  - apply perform_inv; [done|]. intros Hh. specialize (Ha Hh). simpl in Ha.
    apply andb_prop in Ha as [Ha _]. by destruct a.
  - intros Hh. specialize (Ha Hh). simpl in Ha. by apply andb_prop in Ha as [_ Ha].
Qed.

(** ** Redirects *)

Definition followed (i : nat) (e : Event) : bool :=
  match e with Followed j _ => Nat.eqb i j | _ => false end.

Definition sends (i : nat) (tr : list Event) : nat := count (to_hub i) tr + count (to_refresh i) tr.

(** Ten for each request sent, of which the last may still have some to go. *)
Definition limited (i : nat) (tr : list Event) : Prop :=
  hops i tr ≤ REDIRECT_LIMIT ∧
  (count (followed i) tr = 0 ∨
   count (followed i) tr + REDIRECT_LIMIT ≤ REDIRECT_LIMIT * sends i tr + hops i tr).

Lemma count_one p e : count p [e] = if p e then 1 else 0.
Proof. unfold count. rewrite filter_cons. by destruct (p e). Qed.

Lemma hops_snoc i tr e : hops i (tr ++ [e]) = hop i (hops i tr) e.
Proof. unfold hops. by rewrite foldl_app. Qed.

Lemma limited_snoc i tr e :
  limited i tr →
  match e with Followed j _ => i = j → hops i tr < REDIRECT_LIMIT ∧ 1 ≤ sends i tr | _ => True end →
  limited i (tr ++ [e]).
Proof.
  unfold limited, sends. rewrite hops_snoc, !count_app, !count_one. unfold REDIRECT_LIMIT. intros [Hh Hf] He.
  destruct e as [c|j c [m u a h b|u b]|j loc|b t]; simpl; try lia.
  - destruct (Nat.eqb_spec i j); simpl; lia.
  - destruct (Nat.eqb_spec i j); simpl; lia.
  - destruct (Nat.eqb_spec i j) as [->|]; [|lia]. specialize (He eq_refl). lia.
Qed.

Lemma limited_sent i j tr o : limited i tr → limited i (tr ++ sent_events j o).
Proof. intros H. destruct o as [[c o]|]; simpl; [by apply limited_snoc|by rewrite app_nil_r]. Qed.

Lemma perform_limited home s a i : Inv home s → limited i (sy_trace s) → limited i (sy_trace (perform s a)).
Proof.
  intros HI HL. destruct a as [t r u| | |req|j loc|j a|j]; simpl; [|done|done| | | |].
  - destruct (set_session t r u (sy_proxy s)) as [[[]|] p]; [|done]. simpl.
    destruct (px_credentials p); [by apply limited_snoc|by rewrite app_nil_r].
  - by apply limited_sent.
  - destruct (sy_tasks s !! j) as [[req ph]|] eqn:Ej; [|done].
    destruct (waiting ph) eqn:Ew; simpl; [|done]. destruct (Nat.ltb_spec (hops j (sy_trace s)) REDIRECT_LIMIT); [|done].
    apply limited_snoc; [done|]. intros ->. split; [done|].
    pose proof (inv_budget _ _ HI _ _ _ Ej) as Hb. unfold sends. destruct ph as [[]| | |]; simpl in Hb; try done; lia.
  - destruct (sy_tasks s !! j) as [[req ph]|] eqn:Ej; [|done].
    destruct ph as [retried c|c rsp| |]; [by apply limited_sent| |done..].
    destruct (after_refresh rsp a (sy_proxy s)) as [ph p]. simpl.
    destruct (receive_refresh a); [by apply limited_snoc|by rewrite app_nil_r].
  - destruct (sy_tasks s !! j) as [[req ph]|]; [|done]. destruct ph; try done. by apply limited_sent.
Qed.

Lemma run_limited actions s i : Inv false s → limited i (sy_trace s) → limited i (sy_trace (run actions s)).
Proof.
  revert s. induction actions as [|a actions IH]; intros s HI HL; [done|]. simpl. apply IH.
  - by apply perform_inv.
  - by apply perform_limited with false.
Qed.

(** ** Theorems *)

(** C20: Whatever requests, answers and changes of session are interleaved,
    every request the proxy makes was built for one of the requests it was
    given: a known method, a path below [/api/v1/] without [..] or [@], joined
    to a hub that was set as a session, on that hub's host and scheme, which is
    HTTPS or a loopback host; it carries one bearer token, which was set with a
    session or came in answer to a refresh, and of the caller's headers only
    those on the list; a refresh carries the session's own refresh token.  Per
    request the hub is asked at most twice and a token renewed at most once.
    This holds of what the proxy makes: the client follows up to ten redirects
    of each, and these go where the answers say, unchecked. *)
Theorem proxy_requests_checked (actions : list Action) (i : nat) (creds : SessionCredentials) (o : Outgoing) :
  let s := run actions system_new in
  Sent i creds o ∈ sy_trace s →
  transport_allowed (sc_hub_base_url creds) = true ∧
  (∃ c, SessionSet c ∈ sy_trace s ∧ sc_hub_base_url creds = sc_hub_base_url c ∧
     sc_refresh_token creds = sc_refresh_token c) ∧
  (∃ req phase, sy_tasks s !! i = Some (req, phase) ∧
     match o with
     | ToHub method url authorization headers _ =>
         method ∈ METHODS ∧ String.prefix "/api/v1/" (hq_path req) = true ∧
         contains ".." (hq_path req) = false ∧ contains "@" (hq_path req) = false ∧
         url_join (sc_hub_base_url creds) (hq_path req) = Ok url ∧
         url_host_str url = url_host_str (sc_hub_base_url creds) ∧
         url_scheme url = url_scheme (sc_hub_base_url creds) ∧
         authorization = "Bearer " +:+ sc_access_token creds ∧
         ((∃ c, SessionSet c ∈ sy_trace s ∧ sc_access_token creds = sc_access_token c) ∨
          ∃ base, TokenGiven base (sc_access_token creds) ∈ sy_trace s) ∧
         ∀ h, h ∈ headers → h ∈ hq_headers req ∧ to_ascii_lowercase h.1 ∈ FORWARDABLE
     | ToRefresh url body =>
         url = url_to_string (sc_hub_base_url creds) +:+ "/api/v1/auth/refresh" ∧
         ∃ token, sc_refresh_token creds = Some token ∧ body = JObject [("refresh_token", JString token)]
     end) ∧
  count (to_hub i) (sy_trace s) ≤ 2 ∧ count (to_refresh i) (sy_trace s) ≤ 1 ∧
  count (followed i) (sy_trace s) ≤ REDIRECT_LIMIT * (count (to_hub i) (sy_trace s) + count (to_refresh i) (sy_trace s)).
Proof.
  intros s Hin.
  assert (Inv false s) as HI by (apply run_inv; [apply inv_new|done]).
  destruct (inv_sent _ _ HI _ _ _ Hin) as ((Hset & Htok & Hsec) & req & ph & Hi & Hw).
  split_and!; [done|done| |..].
  - exists req, ph. split; [done|]. destruct o as [m u a h b|u b]; [|done].
    destruct Hw as (Hm & _ & Hv & Hj & Hh & Hs & Ha & ->). apply validated_path in Hv as (? & ? & ?).
    split_and!; try done.
    + destruct Htok as [(c & ? & ? & _)|(b' & ? & _)]; eauto.
    + intros x [Hx ?]%list_elem_of_filter. by apply bool_decide_eq_true in Hx.
  - pose proof (inv_budget _ _ HI _ _ _ Hi) as Hb. destruct ph as [[]| | |]; simpl in Hb; lia.
  - pose proof (inv_budget _ _ HI _ _ _ Hi) as Hb. destruct ph as [[]| | |]; simpl in Hb; lia.
  - assert (limited i (sy_trace s)) as [Hh Hf]
      by (apply run_limited; [apply inv_new|split; [cbv; lia|by left]]).
    unfold sends in Hf. unfold REDIRECT_LIMIT in *. lia.
Qed.

(** The answer to a request may redirect it anywhere, up to ten times; the
    check of host and scheme is not made again. *)
Theorem redirects_leave_the_hub (s : System) (i : nat) req ph (location : string) :
  sy_tasks s !! i = Some (req, ph) → waiting ph = true → hops i (sy_trace s) < REDIRECT_LIMIT →
  sy_trace (perform s (Redirect i location)) = sy_trace s ++ [Followed i location] ∧
  sy_tasks (perform s (Redirect i location)) = sy_tasks s.
Proof. intros Hi Hw Hh. simpl. rewrite Hi, Hw. by rewrite (proj2 (Nat.ltb_lt _ _) Hh). Qed.

(** While sessions are only set with no request under way, a token is sent to
    no hub but its own, redirects apart: every bearer token sent was set for
    that hub or came in answer to a refresh sent to it. *)
Theorem tokens_stay_with_their_hub (actions : list Action) (i : nat) (creds : SessionCredentials)
    method url authorization headers body :
  sessions_set_idle actions system_new = true →
  let s := run actions system_new in
  Sent i creds (ToHub method url authorization headers body) ∈ sy_trace s →
  url_host_str url = url_host_str (sc_hub_base_url creds) ∧
  ∃ token, authorization = "Bearer " +:+ token ∧
    ((∃ refresh, SessionSet (mkCredentials token refresh (sc_hub_base_url creds)) ∈ sy_trace s) ∨
     TokenGiven (sc_hub_base_url creds) token ∈ sy_trace s).
Proof.
  intros Hq s Hin.
  assert (Inv true s) as HI by (apply run_inv; [apply inv_new|done]).
  destruct (inv_sent _ _ HI _ _ _ Hin) as ((_ & Htok & _) & req & ph & _ & Hw).
  destruct Hw as (_ & _ & _ & _ & Hh & _ & -> & _). split; [done|].
  exists (sc_access_token creds). split; [done|].
  destruct Htok as [([t r b] & Ho & Ht & Hb)|(b & Hb & Hx)].
  - left. exists r. specialize (Hb eq_refl). simpl in *. by rewrite Ht, Hb.
  - right. by rewrite <- (Hx eq_refl).
Qed.

(** ** Single actions *)

Lemma perform_set s t r u base :
  url_parse u = Ok base → transport_allowed base = true →
  perform s (SetSession t r u) =
    mkSystem (mkProxy (Some (mkCredentials t r base)) false) (sy_tasks s)
      (sy_trace s ++ [SessionSet (mkCredentials t r base)]).
Proof. intros Hu Ht. unfold perform, set_session. by rewrite Hu, Ht. Qed.

Lemma perform_forward s req c o :
  px_credentials (sy_proxy s) = Some c → prepare_request c req = Ok o →
  perform s (Forward req) =
    mkSystem (sy_proxy s) (sy_tasks s ++ [(req, Sending false c)])
      (sy_trace s ++ [Sent (length (sy_tasks s)) c o]).
Proof. intros Hc Ho. unfold perform, with_session, send_request. by rewrite Hc, Ho. Qed.

Lemma perform_unauthorized s i req c a rsp token :
  sy_tasks s !! i = Some (req, Sending false c) → receive_response a = Ok rsp →
  hp_status rsp = 401%Z → sc_refresh_token c = Some token →
  perform s (Answer_ i a) =
    mkSystem (sy_proxy s) (<[i := (req, Refreshing c rsp)]> (sy_tasks s))
      (sy_trace s ++ [Sent i c (prepare_refresh c token)]).
Proof. intros Hi Ha Hs Hr. unfold perform, after_response. by rewrite Hi, Ha, Hs, Hr. Qed.

Lemma perform_renewed s i req c rsp a token cur :
  sy_tasks s !! i = Some (req, Refreshing c rsp) → receive_refresh a = Ok token →
  px_credentials (sy_proxy s) = Some cur →
  perform s (Answer_ i a) =
    mkSystem (mkProxy (Some (set_access_token token cur)) true) (<[i := (req, Retrying)]> (sy_tasks s))
      (sy_trace s ++ [TokenGiven (sc_hub_base_url c) token]).
Proof. intros Hi Ha Hc. unfold perform, after_refresh. by rewrite Hi, Ha, Hc. Qed.

Lemma perform_resume s i req c o :
  sy_tasks s !! i = Some (req, Retrying) → px_credentials (sy_proxy s) = Some c →
  prepare_request c req = Ok o →
  perform s (Resume i) =
    mkSystem (sy_proxy s) (<[i := (req, Sending true c)]> (sy_tasks s)) (sy_trace s ++ [Sent i c o]).
Proof. intros Hi Hc Ho. unfold perform, with_session, send_request. by rewrite Hi, Hc, Ho. Qed.

Lemma prepare_other_token creds req o token :
  prepare_request creds req = Ok o → ∃ o', prepare_request (set_access_token token creds) req = Ok o'.
Proof.
  unfold prepare_request, set_access_token. simpl.
  destruct (validate_request_path (hq_path req)); simpl; [|done].
  destruct (url_join _ _); simpl; [|done]. destruct (_ || _); [done|].
  destruct (bool_decide _); [eauto|done].
Qed.

(** A refresh that is under way while another user signs in carries the
    first user's renewed token over: it becomes the access token of the new
    session, and the pending request is sent with it to the new user's hub. *)
Theorem refresh_crosses_sessions (tA rA uA tB rB uB : string) (baseA baseB : Url) (req : HttpRequest)
    (refused renewed : Answer) (token : string) (oA oB : Outgoing) :
  url_parse uA = Ok baseA → transport_allowed baseA = true →
  url_parse uB = Ok baseB → transport_allowed baseB = true →
  prepare_request (mkCredentials tA (Some rA) baseA) req = Ok oA →
  prepare_request (mkCredentials token (Some rB) baseB) req = Ok oB →
  (∃ rsp, receive_response refused = Ok rsp ∧ hp_status rsp = 401%Z) →
  receive_refresh renewed = Ok token →
  let s := run [SetSession tA (Some rA) uA; Forward req; Answer_ 0 refused;
                SetSession tB (Some rB) uB; Answer_ 0 renewed; Resume 0] system_new in
  TokenGiven baseA token ∈ sy_trace s ∧
  Sent 0 (mkCredentials token (Some rB) baseB) oB ∈ sy_trace s ∧
  px_credentials (sy_proxy s) = Some (mkCredentials token (Some rB) baseB) ∧
  px_has_rotated (sy_proxy s) = true.
Proof.
  intros HuA HsA HuB HsB HoA HoB (rsp & Hrsp & Hst) Hren. unfold run. cbn [foldl].
  rewrite (perform_set _ _ _ _ _ HuA HsA). erewrite (perform_forward _ req); [|reflexivity|exact HoA].
  erewrite (perform_unauthorized _ 0 req _ refused); [|reflexivity|exact Hrsp|exact Hst|reflexivity].
  rewrite (perform_set _ _ _ _ _ HuB HsB).
  erewrite (perform_renewed _ 0 req _ _ renewed); [|reflexivity|exact Hren|reflexivity].
  erewrite (perform_resume _ 0); [|reflexivity|reflexivity|exact HoB].
  cbn [sy_trace sy_proxy px_credentials px_has_rotated].
  split_and!; [set_solver..|done|done].
Qed.

(** ** A request with nothing else going on *)

(** The answers it gets, in this order, as far as it asks; the result, the
    session after it, and whether the token was renewed. *)
Definition forward_spec (session : option SessionCredentials) (req : HttpRequest) (first refresh second : Answer) :
    result HttpResponse SessionProxyError * option SessionCredentials * bool :=
  match session with
  | None => (Err NoSession, None, false)
  | Some c =>
      let same r := (r, Some c, false) in
      match prepare_request c req with
      | Err e => same (Err e)
      | Ok _ =>
          match receive_response first with
          | Err e => same (Err e)
          | Ok response =>
              if decide (hp_status response = 401%Z ∧ is_Some (sc_refresh_token c)) then
                match receive_refresh refresh with
                | Err _ => same (Ok response)
                | Ok token => (receive_response second, Some (set_access_token token c), true)
                end
              else same (Ok response)
          end
      end
  end.

Definition outcome_is (s0 s : System) (req : HttpRequest)
    (x : result HttpResponse SessionProxyError * option SessionCredentials * bool) : Prop :=
  sy_tasks s = sy_tasks s0 ++ [(req, Finished x.1.1)] ∧
  px_credentials (sy_proxy s) = x.1.2 ∧
  px_has_rotated (sy_proxy s) = px_has_rotated (sy_proxy s0) || x.2.

Lemma perform_done s req r p tr a :
  a = Resume (length (sy_tasks s)) ∨ (∃ b, a = Answer_ (length (sy_tasks s)) b) →
  perform (mkSystem p (sy_tasks s ++ [(req, Finished r)]) tr) a =
    mkSystem p (sy_tasks s ++ [(req, Finished r)]) tr.
Proof.
  intros Ha. assert ((sy_tasks s ++ [(req, Finished r)]) !! length (sy_tasks s) = Some (req, Finished r)) as Hl
    by (by rewrite lookup_app_r, Nat.sub_diag by lia).
  destruct Ha as [->|[b ->]]; unfold perform; cbn [sy_tasks]; by rewrite Hl.
Qed.

Lemma insert_last {A} (l : list A) x y : <[length l := y]> (l ++ [x]) = l ++ [y].
Proof. by rewrite insert_app_r_alt, Nat.sub_diag by lia. Qed.

Lemma lookup_last {A} (l : list A) x : (l ++ [x]) !! length l = Some x.
Proof. by rewrite lookup_app_r, Nat.sub_diag by lia. Qed.

(** The last answer of a retry ends it, whatever it is. *)
Lemma perform_last_answer s p tr req c a :
  perform (mkSystem p (sy_tasks s ++ [(req, Sending true c)]) tr) (Answer_ (length (sy_tasks s)) a) =
    mkSystem p (sy_tasks s ++ [(req, Finished (receive_response a))]) tr.
Proof.
  unfold perform, after_response. cbn [sy_tasks]. rewrite lookup_last. unfold enter. cbn [sy_tasks sy_proxy sy_trace].
  destruct (receive_response a) as [rsp|]; [rewrite andb_false_r|]; cbn [fst snd sent_events];
    by rewrite insert_last, app_nil_r.
Qed.

Lemma run_cons a l s : run (a :: l) s = run l (perform s a).
Proof. done. Qed.

(** Once finished, with the session as it was, nothing changes any more. *)
Lemma run_finished s req r tr b l :
  b = false → Forall (λ a, a = Resume (length (sy_tasks s)) ∨ ∃ x, a = Answer_ (length (sy_tasks s)) x) l →
  outcome_is s (run l (mkSystem (sy_proxy s) (sy_tasks s ++ [(req, Finished r)]) tr)) req
    (r, px_credentials (sy_proxy s), b).
Proof.
  intros -> Hl. induction Hl as [|a l Ha Hl IH].
  - split_and!; [done|done|]. by rewrite orb_false_r.
  - by rewrite run_cons, perform_done.
Qed.

#[local] Ltac stays := apply run_finished; [done|repeat apply Forall_cons_2; eauto using Forall_nil_2].

(** A request with no other activity ends, after at most three answers, as
    the straight-line description says: without a session or with a path or
    method that is refused nothing is sent; an answer other than 401, or a 401
    that cannot be renewed, is passed on and the session kept; a 401 that is
    renewed is answered by the second attempt, and the session has the new
    access token, with its refresh token and hub unchanged. *)
Theorem forward_request_as_described (s : System) (req : HttpRequest) (first refresh second : Answer) :
  let i := length (sy_tasks s) in
  let s' := run [Forward req; Answer_ i first; Answer_ i refresh; Resume i; Answer_ i second] s in
  outcome_is s s' req (forward_spec (px_credentials (sy_proxy s)) req first refresh second).
Proof.
  cbv zeta. unfold forward_spec. destruct (px_credentials (sy_proxy s)) as [c|] eqn:Ec.
  2: { rewrite run_cons. unfold perform, with_session. rewrite Ec. cbn [fst snd sent_events].
       rewrite <- Ec.
       stays. }
  destruct (prepare_request c req) as [o|e] eqn:Eo.
  2: { rewrite run_cons. unfold perform, with_session, send_request. rewrite Ec, Eo. cbn [fst snd sent_events].
       rewrite <- Ec. stays. }
  rewrite run_cons, (perform_forward s req c o Ec Eo), run_cons. unfold perform. cbn [sy_tasks].
  rewrite lookup_last. unfold after_response, enter. cbn [sy_tasks sy_proxy sy_trace].
  destruct (receive_response first) as [rsp|e].
  2: { cbn [fst snd]. rewrite insert_last, <- Ec. stays. }
  destruct (decide _) as [[Hst [t Ht]]|Hno].
  2: { replace (if (hp_status rsp =? 401)%Z && negb false then _ else _)
         with ((Finished (Ok rsp), None) : Entered).
       2: { rewrite andb_true_r. destruct (Z.eqb_spec (hp_status rsp) 401); [|done].
            destruct (sc_refresh_token c); [|done]. destruct Hno. eauto. }
       cbn [fst snd]. rewrite insert_last, <- Ec. stays. }
  rewrite Hst, Ht. cbn [Z.eqb Pos.eqb andb negb fst snd]. rewrite insert_last, run_cons. unfold perform.
  cbn [sy_tasks sy_proxy]. rewrite lookup_last. unfold after_refresh.
  destruct (receive_refresh refresh) as [token|e].
  2: { rewrite insert_last, <- Ec. stays. }
  rewrite insert_last, Ec, run_cons. destruct (prepare_other_token c req o token Eo) as [o' Eo'].
  erewrite perform_resume; [|apply lookup_last|reflexivity|exact Eo'].
  cbn [sy_tasks sy_proxy]. rewrite insert_last, run_cons, perform_last_answer. unfold outcome_is.
  split_and!; [done|done|]. cbn. by destruct (px_has_rotated (sy_proxy s)).
Qed.

(** The loopback check has the IPv6 address without the brackets that a URL's
    host has, so a hub on it is refused over plain HTTP. *)
Theorem ipv6_loopback_refused t r u base p :
  url_parse u = Ok base → url_scheme base = "http" → url_host_str base = Some "[::1]" →
  (set_session t r u p).1 = Err (HubRequest "plaintext Bearer transport forbidden to non-loopback hosts").
Proof. intros Hu Hs Hh. unfold set_session, transport_allowed. by rewrite Hu, Hs, Hh. Qed.
End Facts.

(** Encoded dots pass the check of the path; joining a URL resolves them. *)
Example encoded_dots_pass : validate_request_path "/api/v1/%2e%2e/%2e%2e/internal" = Ok ().
Proof. reflexivity. Qed.

(** ** A hub and its users *)

Module SessionWitness.

(** URLs of scheme, host and path. *)
Definition parse (s : string) : result (string * string * string) string :=
  match strip_prefix "https://" s with
  | None => Err "relative URL without a base"
  | Some rest =>
      match split_on (Ascii.ascii_of_nat 47) rest with
      | host :: path => Ok ("https", host, "/" +:+ join (Ascii.ascii_of_nat 47) path)
      | [] => Err "empty host"
      end
  end.

#[local] Instance plain_urls : UrlCrate := {|
  Url := string * string * string;
  url_parse := parse;
  url_scheme u := u.1.1;
  url_host_str u := Some u.1.2;
  url_path u := u.2;
  url_set_path p u := (u.1, p);
  url_to_string u := u.1.1 +:+ "://" +:+ u.1.2 +:+ u.2;
|}.

#[local] Instance crates : ProxyCrates := {|
  url_join u path := Ok (u.1, path);
  status_text := pretty;
  json_from_slice s := Ok (JObject [("access_token", JString s)]);
|}.

Definition req : HttpRequest :=
  mkHttpRequest "get" "/api/v1/me" [("Authorization", "Bearer stolen"); ("Accept", "text/html")] "".

Definition refused : Answer := Answered 401 [("connection", Some "close")] (Ok "expired").
Definition renewed (token : string) : Answer := Answered 200 [] (Ok token).

Definition home : list Action :=
  [SetSession "t0" (Some "r0") "https://hub-a"; Forward req; Answer_ 0 refused; Answer_ 0 (renewed "t1");
   Resume 0].

Definition base : @Url (@pc_url crates) := ("https", "hub-a", "/").
Definition base_b : @Url (@pc_url crates) := ("https", "hub-b", "/").
Definition me (u : string * string * string) : @Url (@pc_url crates) := (u.1, "/api/v1/me").
Definition sent : Outgoing := ToHub "GET" (me base) "Bearer t1" [("Accept", "text/html")] None.

Lemma sent_at_home : Sent 0 (mkCredentials "t1" (Some "r0") base) sent ∈ sy_trace (run home system_new).
Proof. apply (list_elem_of_lookup_2 _ 4). vm_compute. reflexivity. Qed.

Lemma proxy_requests_checked_witness :
  transport_allowed base = true ∧ count (to_hub 0) (sy_trace (run home system_new)) ≤ 2.
Proof.
  destruct (proxy_requests_checked home 0 _ _ sent_at_home) as (H & _ & _ & Hc & _). done.
Defined.

Lemma tokens_stay_with_their_hub_witness :
  ∃ token, "Bearer t1" = "Bearer " +:+ token ∧
    ((∃ refresh, SessionSet (mkCredentials token refresh base) ∈ sy_trace (run home system_new)) ∨
     TokenGiven base token ∈ sy_trace (run home system_new)).
Proof.
  assert (sessions_set_idle home system_new = true) as Hq by (vm_compute; reflexivity).
  exact (proj2 (tokens_stay_with_their_hub home 0 _ _ _ _ _ _ Hq sent_at_home)).
Defined.

Lemma refresh_crosses_sessions_witness :
  let s := run [SetSession "alice" (Some "rA") "https://hub-a"; Forward req; Answer_ 0 refused;
                SetSession "bob" (Some "rB") "https://hub-b"; Answer_ 0 (renewed "alice2"); Resume 0] system_new in
  px_credentials (sy_proxy s) = Some (mkCredentials "alice2" (Some "rB") base_b).
Proof.
  apply (refresh_crosses_sessions (Crates := crates) "alice" "rA" "https://hub-a" "bob" "rB" "https://hub-b"
    base base_b req refused (renewed "alice2") "alice2"
    (ToHub "GET" (me base) "Bearer alice" [("Accept", "text/html")] None)
    (ToHub "GET" (me base_b) "Bearer alice2" [("Accept", "text/html")] None)
    eq_refl eq_refl eq_refl eq_refl eq_refl eq_refl); [|reflexivity].
  eexists. split; reflexivity.
Defined.

End SessionWitness.
