(* ===== verification/Obs.v ===== *)
(** * The OBS adapter (penguin-module-waddlebot/src/bridge/obs.rs)

    One task holds the connection to OBS; callers put commands into its queue
    and wait ten seconds for the answer.  The state is the task's and the
    callers' together; [perform] is one thing that happens: a call, the end of
    a caller's patience, the outcome of dialling, a message from OBS, or the
    task taking the next command.  Web sockets, JSON and hashing are
    parameters; what is sent to OBS is kept as JSON. *)
From S2P Require Import Prelude.
From S2P Require Import Text.
From S2P Require Import Json.
From S2P Require Import NetAddr.
From S2P Require Import Doh.

Inductive Host :=
| Domain (d : string)
| Ipv4 (ip : Ipv4Addr)
| Ipv6 (groups : list Z).

Record HelloData := mkHello { he_session_id : string; he_authentication : option string }.

Class ObsCrates := {
  oc_url :: UrlCrate;
  url_host : Url → option Host;
  ipv4_text : Ipv4Addr → string;
  ipv6_text : list Z → string;
  sha256_base64 : string → string;                 (* base64 of the SHA-256 digest *)
  ws_from_str : string → result (Z * option Value) string;     (* [WsMessage]: op and d *)
  hello_from_value : Value → result HelloData string;
  uuid : nat → string;                             (* the [n]-th id drawn *)
}.

(** ** Configuration and handshake *)

Record ObsConfig := mkObsConfig { oc_address : string; oc_password : string }.

Definition ipv4_is_loopback (ip : Ipv4Addr) : bool := let '(a, _, _, _) := ip in (a =? 127)%Z.
Definition ipv6_is_loopback (groups : list Z) : bool := bool_decide (groups = [0; 0; 0; 0; 0; 0; 0; 1]%Z).

Definition eq_ignore_ascii_case (a b : string) : bool :=
  bool_decide (to_ascii_lowercase a = to_ascii_lowercase b).

Inductive ObsCommandError :=
| NotConnected
| ObsTimeout
| Rejected (code : Z) (comment : string)
| Other (e : string).

Definition ObsCommandError_display (e : ObsCommandError) : string :=
  match e with
  | NotConnected => "obs adapter is not connected"
  | ObsTimeout => "obs did not respond within the timeout"
  | Rejected code comment =>
      "obs rejected the request (code " +:+ pretty code +:+ "): " +:+ comment
  | Other e => e
  end.

(** Events for the scripts of the bridge. *)
Record BridgeEvent := mkBridgeEvent { be_kind : string; be_data : Value }.

Section Adapter.
  Context {Crates : ObsCrates}.

Definition validate_loopback_url (url : string) : result unit string :=
  let? parsed := map_err (λ e, "invalid URL: " +:+ e) (url_parse url) in
  if negb (bool_decide (url_scheme parsed = "ws")) then
    Err ("OBS WebSocket URL must use ws:// scheme, got: " +:+ url_scheme parsed)
  else
    match url_host parsed with
    | None => Err "OBS WebSocket URL has no host"
    | Some (Domain d) =>
        if eq_ignore_ascii_case d "localhost" then Ok ()
        else Err ("OBS WebSocket URL host must be localhost, got: " +:+ d)
    | Some (Ipv4 ip) =>
        if ipv4_is_loopback ip then Ok ()
        else Err ("OBS WebSocket URL must be a loopback address, got: " +:+ ipv4_text ip)
    | Some (Ipv6 ip) =>
        if ipv6_is_loopback ip then Ok ()
        else Err ("OBS WebSocket URL must be a loopback address, got: " +:+ ipv6_text ip)
    end.

Definition compute_auth_hash (password challenge : string) : result string string :=
  match split_on dot challenge with
  | [salt; challenge_str] => Ok (sha256_base64 (sha256_base64 (password +:+ salt) +:+ challenge_str))
  | _ => Err "challenge format invalid (expected salt.challenge)"
  end.

(** ** Messages *)

(** A message, with what [into_text] makes of it. *)
Inductive Message :=
| MText (text : string)
| MClose (into_text : option string)
| MOther (into_text : option string).

Inductive Incoming := Got (m : Message) | ReadError (e : string) | Ended.

Definition into_text (m : Message) : option string :=
  match m with MText s => Some s | MClose t | MOther t => t end.

(** Reading one message of the handshake; [what] is its name. *)
Definition read_handshake (what : string) (inc : Incoming) : result (Z * option Value) string :=
  match inc with
  | Ended => Err ("server closed connection before sending " +:+ what)
  | ReadError e => Err ("failed to read " +:+ what +:+ " message: " +:+ e)
  | Got m =>
      let? text := ok_or (into_text m) (what +:+ " message was not text") in
      map_err (λ e, "malformed " +:+ what +:+ " message: " +:+ e) (ws_from_str text)
  end.

Definition read_hello (inc : Incoming) : result HelloData string :=
  let? hello := read_handshake "Hello" inc in
  let? d := ok_or (snd hello) "Hello message missing data field" in
  map_err (λ e, "invalid Hello data: " +:+ e) (hello_from_value d).

Definition identify_msg (config : ObsConfig) (hello : HelloData) : result Value string :=
  let? auth_hash :=
    match he_authentication hello with
    | Some challenge => let? h := compute_auth_hash (oc_password config) challenge in Ok (Some h)
    | None => Ok None
    end in
  Ok (JObject [("op", JInt 1);
               ("d", JObject [("sessionId", JString (he_session_id hello));
                              ("authentication", of_option JString auth_hash)])]).

Definition read_identified (inc : Incoming) : result unit string :=
  let? identified := read_handshake "Identified" inc in
  if (fst identified =? 2)%Z then Ok ()
  else Err "server rejected authentication (did not send Identified)".

(** What a response says of its request. *)
Definition response_result (response_data : Value) : result Value ObsCommandError :=
  match get response_data "requestStatus" with
  | None => Err (Other "malformed response")
  | Some status =>
      if default false (get status "result" ≫= as_bool) then
        Ok (default JNull (get response_data "responseData"))
      else
        Err (Rejected (wrap_i 32 (default 0%Z (get status "code" ≫= as_i64)))
               (default "unknown error" (get status "comment" ≫= as_str)))
  end.

Definition request_frame (request_type request_id : string) (request_data : Value) : Value :=
  JObject [("op", JInt 6);
           ("d", JObject [("requestType", JString request_type); ("requestId", JString request_id);
                          ("requestData", request_data)])].

(** ** State *)

Inductive Link :=
| Unattached                                       (* the queue is still the adapter's *)
| Dialling
| AwaitHello
| AwaitIdentified (session_id : string)
| Streaming
| Gone (why : option string).                      (* the task has ended *)

Record Call := mkCall {
  ca_type : string;
  ca_data : Value;
  ca_outcome : option (result Value ObsCommandError);
}.

Record Obs := mkObs {
  ob_config : ObsConfig;
  ob_link : Link;
  ob_queue : list nat;                             (* calls not yet taken *)
  ob_pending : gmap string nat;                    (* request id to call *)
  ob_drawn : nat;
  ob_calls : list Call;
  ob_wire : list Value;
  ob_events : list BridgeEvent;
}.

Definition obs_new (config : ObsConfig) : Obs := mkObs config Unattached [] ∅ 0 [] [] [].

(** The first outcome a caller sees is the one it returns. *)
Definition settle (r : result Value ObsCommandError) (c : Call) : Call :=
  match ca_outcome c with
  | Some _ => c
  | None => mkCall (ca_type c) (ca_data c) (Some r)
  end.

Definition answer (k : nat) (r : result Value ObsCommandError) (o : Obs) : Obs :=
  mkObs (ob_config o) (ob_link o) (ob_queue o) (ob_pending o) (ob_drawn o)
    (alter (settle r) k (ob_calls o)) (ob_wire o) (ob_events o).

Definition set_link (l : Link) (o : Obs) : Obs :=
  mkObs (ob_config o) l (ob_queue o) (ob_pending o) (ob_drawn o) (ob_calls o) (ob_wire o) (ob_events o).
Definition set_pending (p : gmap string nat) (o : Obs) : Obs :=
  mkObs (ob_config o) (ob_link o) (ob_queue o) p (ob_drawn o) (ob_calls o) (ob_wire o) (ob_events o).
Definition write_ws (v : Value) (o : Obs) : Obs :=
  mkObs (ob_config o) (ob_link o) (ob_queue o) (ob_pending o) (ob_drawn o) (ob_calls o)
    (ob_wire o ++ [v]) (ob_events o).
Definition publish_event (kind : string) (data : Value) (o : Obs) : Obs :=
  mkObs (ob_config o) (ob_link o) (ob_queue o) (ob_pending o) (ob_drawn o) (ob_calls o) (ob_wire o)
    (ob_events o ++ [mkBridgeEvent kind data]).

(** The task returns: queue and pending senders are dropped, which every caller
    still waiting sees. *)
Definition finish (why : option string) (o : Obs) : Obs :=
  mkObs (ob_config o) (Gone why) [] ∅ (ob_drawn o) (map (settle (Err NotConnected)) (ob_calls o))
    (ob_wire o) (ob_events o).

(** ** Callers *)

Definition send_request (request_type : string) (request_data : Value) (o : Obs) : Obs :=
  match ob_link o with
  | Gone _ =>
      mkObs (ob_config o) (ob_link o) (ob_queue o) (ob_pending o) (ob_drawn o)
        (ob_calls o ++ [mkCall request_type request_data (Some (Err NotConnected))])
        (ob_wire o) (ob_events o)
  | _ =>
      mkObs (ob_config o) (ob_link o) (ob_queue o ++ [length (ob_calls o)]) (ob_pending o) (ob_drawn o)
        (ob_calls o ++ [mkCall request_type request_data None]) (ob_wire o) (ob_events o)
  end.

(** ** The task *)

(** [None]: the panic of a second [attach]. *)
Definition attach (o : Obs) : option Obs :=
  match ob_link o with
  | Unattached =>
      Some (match validate_loopback_url (oc_address (ob_config o)) with
            | Err e => finish (Some e) o
            | Ok _ => set_link Dialling o
            end)
  | _ => None
  end.

Definition dialled (r : result unit string) (o : Obs) : Obs :=
  match r with
  | Err e =>
      finish (Some ("failed to connect to OBS at " +:+ oc_address (ob_config o) +:+ ": " +:+ e)) o
  | Ok _ =>
      set_link AwaitHello
        (publish_event "obs.connected" (JObject [("url", JString (oc_address (ob_config o)))]) o)
  end.

(** [sent]: whether Identify could be sent. *)
Definition on_hello (inc : Incoming) (sent : option string) (o : Obs) : Obs :=
  match (let? hello := read_hello inc in
         let? msg := identify_msg (ob_config o) hello in Ok (hello, msg)) with
  | Err e => finish (Some e) o
  | Ok (hello, msg) =>
      match sent with
      | Some e => finish (Some ("failed to send Identify: " +:+ e)) o
      | None => set_link (AwaitIdentified (he_session_id hello)) (write_ws msg o)
      end
  end.

Definition on_identified (session_id : string) (inc : Incoming) (o : Obs) : Obs :=
  match read_identified inc with
  | Err e => finish (Some e) o
  | Ok _ =>
      set_link Streaming
        (publish_event "obs.authenticated" (JObject [("sessionId", JString session_id)]) o)
  end.

Definition on_event (event_data : Value) (o : Obs) : Obs :=
  match get event_data "eventName" ≫= as_str with
  | Some event_name =>
      publish_event ("obs.event." +:+ event_name) (default JNull (get event_data "eventData")) o
  | None => o
  end.

Definition on_response (response_data : Value) (o : Obs) : Obs :=
  match get response_data "requestId" ≫= as_str with
  | None => o
  | Some request_id =>
      match ob_pending o !! request_id with
      | None => o
      | Some k =>
          answer k (response_result response_data) (set_pending (delete request_id (ob_pending o)) o)
      end
  end.

Definition on_message (inc : Incoming) (o : Obs) : Obs :=
  match inc with
  | Got (MText text) =>
      match ws_from_str text with
      | Ok (5%Z, Some event_data) => on_event event_data o
      | Ok (7%Z, Some response_data) => on_response response_data o
      | _ => o
      end
  | Got (MClose _) | Ended => finish None (publish_event "obs.disconnected" (JObject []) o)
  | ReadError e => finish (Some ("WebSocket error: " +:+ e)) o
  | Got (MOther _) => o
  end.

(** The next command; [sent]: whether its frame could be sent. *)
Definition on_command (sent : bool) (o : Obs) : Obs :=
  match ob_queue o with
  | [] => o
  | k :: queue =>
      match ob_calls o !! k with
      | None => o
      | Some call =>
          let request_id := uuid (ob_drawn o) in
          let o' := mkObs (ob_config o) (ob_link o) queue (<[request_id := k]> (ob_pending o))
                      (S (ob_drawn o)) (ob_calls o) (ob_wire o) (ob_events o) in
          if sent then write_ws (request_frame (ca_type call) request_id (ca_data call)) o'
          else finish (Some "failed to send command to OBS") o'
      end
  end.

(** ** Runs *)

Inductive Action :=
| Attach
| CallObs (request_type : string) (request_data : Value)
| Elapse (k : nat)                                 (* ten seconds of call [k] are over *)
| Dialled (r : result unit string)
| Receive (inc : Incoming) (sent : option string)
| Take (sent : bool).

Definition perform (o : Obs) (a : Action) : Obs :=
  match a, ob_link o with
  | Attach, _ => default o (attach o)
  | CallObs t d, _ => send_request t d o
  | Elapse k, _ => answer k (Err ObsTimeout) o
  | Dialled r, Dialling => dialled r o
  | Receive inc sent, AwaitHello => on_hello inc sent o
  | Receive inc _, AwaitIdentified session_id => on_identified session_id inc o
  | Receive inc _, Streaming => on_message inc o
  | Take sent, Streaming => on_command sent o
  | _, _ => o
  end.

Definition run (actions : list Action) (o : Obs) : Obs := foldl perform o actions.
End Adapter.
