(* ===== verification/ObsProps.v ===== *)
(** * The OBS adapter: theorems

    Every caller gets the answer to its own request, whatever OBS sends and in
    whatever order, and none waits once the connection has ended. *)
From S2P Require Import Prelude.
From S2P Require Import Text.
From S2P Require Import Json.
From S2P Require Import NetAddr.
From S2P Require Import Doh.
From S2P Require Import Obs.

Section Facts.
  Context {Crates : ObsCrates}.

(** ** Addresses *)

Definition is_loopback_host (h : Host) : Prop :=
  match h with
  | Domain d => to_ascii_lowercase d = "localhost"
  | Ipv4 (a, _, _, _) => a = 127%Z
  | Ipv6 groups => groups = [0; 0; 0; 0; 0; 0; 0; 1]%Z
  end.

Lemma validate_loopback_spec url :
  validate_loopback_url url = Ok () ↔
  ∃ parsed h, url_parse url = Ok parsed ∧ url_scheme parsed = "ws" ∧ url_host parsed = Some h ∧
    is_loopback_host h.
Proof.
  unfold validate_loopback_url. split.
  - destruct (url_parse url) as [u|]; simpl; [|done].
    destruct (bool_decide _) eqn:Es; simpl; [|done]. apply bool_decide_eq_true in Es.
    destruct (url_host u) as [h|] eqn:Eh; [|done]. intros H. exists u, h. split_and!; try done.
    destruct h as [d|[[[a b] c] d]|g]; simpl in H |- *.
    + unfold eq_ignore_ascii_case in H. by destruct (bool_decide_reflect (to_ascii_lowercase d = to_ascii_lowercase "localhost")).
    + by destruct (Z.eqb_spec a 127).
    + unfold ipv6_is_loopback in H. by destruct (bool_decide_reflect (g = [0; 0; 0; 0; 0; 0; 0; 1]%Z)).
  - intros (u & h & -> & Hs & Hh & Hl). simpl. rewrite Hs, Hh. simpl.
    destruct h as [d|[[[a b] c] d]|g]; simpl in Hl |- *.
    + unfold eq_ignore_ascii_case. by rewrite bool_decide_true.
    + by subst a.
    + by subst g.
Qed.

(** ** Requests and answers *)

Context (uuid_fresh : ∀ m n, uuid m = uuid n → m = n).

(** A message that answers request [id]. *)
Definition answers (actions : list Action) (id : string) (r : result Value ObsCommandError) : Prop :=
  ∃ text d sent, Receive (Got (MText text)) sent ∈ actions ∧ ws_from_str text = Ok (7%Z, Some d) ∧
    (get d "requestId" ≫= as_str) = Some id ∧ r = response_result d.

Record Inv (actions : list Action) (ids : gmap string nat) (o : Obs) : Prop := mkInv {
  inv_drawn : ∀ id k, ids !! id = Some k → ∃ n, n < ob_drawn o ∧ id = uuid n;
  inv_frame : ∀ id k, ids !! id = Some k → ∃ c, ob_calls o !! k = Some c ∧
    request_frame (ca_type c) id (ca_data c) ∈ ob_wire o;
  inv_once : ∀ i j k, ids !! i = Some k → ids !! j = Some k → i = j;
  inv_pending : ob_pending o ⊆ ids;
  inv_queue : ∀ k, k ∈ ob_queue o → k < length (ob_calls o) ∧ ∀ id, ids !! id ≠ Some k;
  inv_queue_once : NoDup (ob_queue o);
  inv_outcome : ∀ k c r, ob_calls o !! k = Some c → ca_outcome c = Some r →
    r = Err NotConnected ∨ r = Err ObsTimeout ∨ ∃ id, ids !! id = Some k ∧ answers actions id r;
  inv_waiting : ∀ k c, ob_calls o !! k = Some c → ca_outcome c = None →
    k ∈ ob_queue o ∨ ∃ id, ob_pending o !! id = Some k;
  inv_gone : ∀ why, ob_link o = Gone why → ob_queue o = [] ∧ ob_pending o = ∅;
}.

Lemma answers_more actions a id r : answers actions id r → answers (actions ++ [a]) id r.
Proof. intros (t & d & s & H & ?). exists t, d, s. split; [set_solver|done]. Qed.

Lemma settle_same r c : ca_type (settle r c) = ca_type c ∧ ca_data (settle r c) = ca_data c ∧
  ca_outcome (settle r c) = Some (default r (ca_outcome c)).
Proof. unfold settle. by destruct (ca_outcome c) as [x|] eqn:E; simpl; rewrite ?E. Qed.

(** Fields that play no part. *)
Lemma inv_other actions ids o o' :
  ob_queue o' = ob_queue o → ob_pending o' = ob_pending o → ob_drawn o' = ob_drawn o →
  ob_calls o' = ob_calls o → ob_wire o ⊆ ob_wire o' →
  (∀ why, ob_link o' = Gone why → ob_queue o = [] ∧ ob_pending o = ∅) →
  Inv actions ids o → Inv actions ids o'.
Proof.
  intros Hq Hp Hd Hc Hw Hl [H1 H2 H3 H4 H5 H6 H7 H8 H9].
  split; rewrite ?Hq, ?Hp, ?Hd, ?Hc; try done.
  intros id k Hi. destruct (H2 _ _ Hi) as (c & ? & ?). exists c. split; [done|]. by apply Hw.
Qed.

Lemma inv_more actions ids o a : Inv actions ids o → Inv (actions ++ [a]) ids o.
Proof.
  intros [H1 H2 H3 H4 H5 H6 H7 H8 H9]. split; try done.
  intros k c r Hk Hr. destruct (H7 k c r Hk Hr) as [?|[?|(id & ? & ?)]]; [by left|by right; left|].
  right. right. exists id. split; [done|]. by apply answers_more.
Qed.

(** A call is settled, by an answer to its request or for want of one. *)
Lemma answer_inv actions ids o k r :
  Inv actions ids o →
  (r = Err NotConnected ∨ r = Err ObsTimeout ∨ ∃ id, ids !! id = Some k ∧ answers actions id r) →
  Inv actions ids (answer k r o).
Proof.
  intros [H1 H2 H3 H4 H5 H6 H7 H8 H9] Hr.
  assert (∀ j c', alter (settle r) k (ob_calls o) !! j = Some c' → ∃ c, ob_calls o !! j = Some c ∧
    (c' = c ∨ j = k ∧ c' = settle r c)) as Hl.
  { intros j c'. destruct (decide (k = j)) as [->|Hne].
    - rewrite list_lookup_alter_eq. destruct (ob_calls o !! j) as [c|]; [|done].
      intros [= <-]. exists c. auto.
    - rewrite list_lookup_alter_ne by done. eauto. }
  split; simpl; try done.
  - intros id j Hi. destruct (H2 _ _ Hi) as (c & Hc & Hw). destruct (decide (k = j)) as [->|Hne].
    + exists (settle r c). rewrite list_lookup_alter_eq, Hc. destruct (settle_same r c) as (-> & -> & _). done.
    + exists c. by rewrite list_lookup_alter_ne.
  - intros j Hj. rewrite length_alter. by apply H5.
  - intros j c' x Hj Hx. apply Hl in Hj as (c & Hc & [->|[-> ->]]); [by eapply H7|].
    destruct (settle_same r c) as (_ & _ & Hs). rewrite Hs in Hx. injection Hx as <-.
    destruct (ca_outcome c) as [y|] eqn:Ey; simpl; [by eapply H7|done].
  - intros j c' Hj Hx. apply Hl in Hj as (c & Hc & [->|[-> ->]]); [by eapply H8|].
    destruct (settle_same r c) as (_ & _ & Hs). by rewrite Hs in Hx.
Qed.

Lemma finish_inv actions ids o why : Inv actions ids o → Inv actions ids (finish why o).
Proof.
  intros [H1 H2 H3 H4 H5 H6 H7 H8 H9]. split; simpl; try done.
  - intros id k Hi. destruct (H2 _ _ Hi) as (c & Hc & Hw). exists (settle (Err NotConnected) c).
    rewrite list_lookup_fmap, Hc. destruct (settle_same (Err NotConnected) c) as (-> & -> & _). done.
  - apply map_empty_subseteq.
  - by intros k ?%elem_of_nil.
  - constructor.
  - intros k c' r. rewrite list_lookup_fmap. destruct (ob_calls o !! k) as [c|] eqn:Ec; [|done].
    intros [= <-]. destruct (settle_same (Err NotConnected) c) as (_ & _ & ->). intros [= <-].
    destruct (ca_outcome c) as [y|] eqn:Ey; simpl; [by eapply H7|by left].
  - intros k c'. rewrite list_lookup_fmap. destruct (ob_calls o !! k) as [c|]; [|done].
    intros [= <-]. by destruct (settle_same (Err NotConnected) c) as (_ & _ & ->).
Qed.

(** A new call, queued or refused at once. *)
Lemma add_call_inv actions ids o t d (queued : bool) :
  Inv actions ids o → (queued = true → ∀ why, ob_link o ≠ Gone why) →
  Inv actions ids
    (mkObs (ob_config o) (ob_link o) (ob_queue o ++ if queued then [length (ob_calls o)] else [])
       (ob_pending o) (ob_drawn o)
       (ob_calls o ++ [mkCall t d (if queued then None else Some (Err NotConnected))])
       (ob_wire o) (ob_events o)).
Proof.
  intros [H1 H2 H3 H4 H5 H6 H7 H8 H9] Hlink. set (new := mkCall t d _).
  assert (∀ k c, (ob_calls o ++ [new]) !! k = Some c →
    ob_calls o !! k = Some c ∨ k = length (ob_calls o) ∧ c = new) as Hl.
  { intros k c Hk. apply lookup_app_Some in Hk as [?|[Hlen Hk]]; [by left|right].
    destruct (k - length (ob_calls o)) as [|n] eqn:En; [|by destruct n]. injection Hk as <-. split; [lia|done]. }
  assert (∀ k, k ∈ (if queued then [length (ob_calls o)] else []) → k = length (ob_calls o)) as Hq.
  { destruct queued; [by intros k ->%list_elem_of_singleton|by intros k ?%elem_of_nil]. }
  split; simpl; try done.
  - intros id k Hi. destruct (H2 _ _ Hi) as (c & Hc & Hw). exists c. split; [by apply lookup_app_l_Some|done].
  - intros k [Hk|Hk]%elem_of_app; rewrite length_app; simpl.
    + destruct (H5 k Hk). split; [lia|done].
    + apply Hq in Hk as ->. split; [lia|]. intros id Hi.
      destruct (H2 _ _ Hi) as (c & Hc%lookup_lt_Some & _). lia.
  - apply NoDup_app. split_and!; [done| |by destruct queued; repeat constructor; try apply not_elem_of_nil].
    intros k Hk ->%Hq. destruct (H5 _ Hk). lia.
  - intros k c r Hk Hr. apply Hl in Hk as [Hk|[-> ->]]; [by eapply H7|]. left. simpl in Hr.
    destruct queued; congruence.
  - intros k c Hk Hr. apply Hl in Hk as [Hk|[-> ->]].
    + destruct (H8 _ _ Hk Hr) as [?|?]; [left; apply elem_of_app; by left|by right].
    + simpl in Hr. destruct queued; [|done]. left. apply elem_of_app. right. by apply list_elem_of_singleton.
  - intros why Hw. destruct queued; [by destruct (Hlink eq_refl why)|]. rewrite app_nil_r. by eapply H9.
Qed.

Lemma send_request_inv actions ids o t d : Inv actions ids o → Inv actions ids (send_request t d o).
Proof.
  intros HI. unfold send_request. destruct (ob_link o) as [| | | | |why] eqn:El;
    [..|rewrite <- (app_nil_r (ob_queue o)), <- El; by apply (add_call_inv _ _ _ _ _ false)];
    rewrite <- El; apply (add_call_inv _ _ _ _ _ true); try done; by rewrite El.
Qed.

Lemma on_response_inv actions ids o text d sent :
  Inv actions ids o → Receive (Got (MText text)) sent ∈ actions → ws_from_str text = Ok (7%Z, Some d) →
  Inv actions ids (on_response d o).
Proof.
  intros HI Hin Htext. unfold on_response. destruct (get d "requestId" ≫= as_str) as [id|] eqn:Eid; [|done].
  destruct (ob_pending o !! id) as [k|] eqn:Ek; [|done].
  pose proof (lookup_weaken _ _ _ _ Ek (inv_pending _ _ _ HI)) as Hk.
  assert (answers actions id (response_result d)) as Hans by (by exists text, d, sent).
  pose proof (answer_inv actions ids o k _ HI (or_intror (or_intror (ex_intro _ id (conj Hk Hans))))) as HA.
  destruct HA as [H1 H2 H3 H4 H5 H6 H7 H8 H9]. split; simpl in *; try done.
  - by etrans; [apply delete_subseteq|].
  - intros j c Hj Hc. destruct (H8 j c Hj Hc) as [?|[id' Hid]]; [by left|right]. exists id'.
    rewrite lookup_delete_ne; [done|]. intros <-. rewrite Ek in Hid. injection Hid as <-.
    rewrite list_lookup_alter_eq in Hj. destruct (ob_calls o !! k) as [c0|]; [|done]. injection Hj as <-.
    destruct (settle_same (response_result d) c0) as (_ & _ & Hs). by rewrite Hs in Hc.
  - intros why Hw. destruct (inv_gone _ _ _ HI _ Hw) as [-> ->]. by rewrite delete_empty.
Qed.

(** The task takes the next call. *)
Lemma on_command_inv actions ids o sent :
  Inv actions ids o → ob_link o = Streaming → ∃ ids', Inv actions ids' (on_command sent o).
Proof.
  intros HI El. unfold on_command. destruct (ob_queue o) as [|k queue] eqn:Eq; [by exists ids|].
  destruct (ob_calls o !! k) as [call|] eqn:Ec; [|by exists ids].
  pose proof HI as [H1 H2 H3 H4 H5 H6 H7 H8 H9]. rewrite Eq in *.
  apply NoDup_cons in H6 as [Hnk Hnd]. destruct (H5 k ltac:(set_solver)) as [_ Hfresh].
  assert (ids !! uuid (ob_drawn o) = None) as Hnew.
  { destruct (ids !! uuid (ob_drawn o)) as [j|] eqn:E; [|done]. destruct (H1 _ _ E) as (n & Hn & He).
    apply uuid_fresh in He. lia. }
  destruct sent.
  - exists (<[uuid (ob_drawn o) := k]> ids). split; simpl.
    + intros id j [[<- <-]|[_ Hi]]%lookup_insert_Some; [exists (ob_drawn o); split; [lia|done]|].
      destruct (H1 _ _ Hi) as (n & ? & ?). exists n. split; [lia|done].
    + intros id j [[<- <-]|[_ Hi]]%lookup_insert_Some; [exists call; split; [done|set_solver]|].
      destruct (H2 _ _ Hi) as (c & ? & ?). exists c. split; [done|set_solver].
    + intros i j l [[<- <-]|[_ Hi]]%lookup_insert_Some [[<- ?]|[_ Hj]]%lookup_insert_Some; try done.
      * by destruct (Hfresh j).
      * subst l. by destruct (Hfresh i).
      * by eapply H3.
    + by apply insert_mono.
    + intros j Hj. destruct (H5 j ltac:(set_solver)) as [? Hj']. split; [done|].
      intros id [[_ <-]|[_ Hi]]%lookup_insert_Some; [done|by eapply Hj'].
    + done.
    + intros j c r Hj Hr. destruct (H7 j c r Hj Hr) as [?|[?|(id & Hi & ?)]]; [by left|by right; left|].
      right. right. exists id. split; [|done]. rewrite lookup_insert_ne; [done|]. intros <-. congruence.
    + intros j c Hj Hr. destruct (decide (j = k)) as [->|Hne].
      { right. exists (uuid (ob_drawn o)). apply lookup_insert_eq. }
      destruct (H8 j c Hj Hr) as [Hq|[id Hi]]; [left; set_solver|right]. exists id.
      rewrite lookup_insert_ne; [done|]. intros <-. by rewrite (lookup_weaken _ _ _ _ Hi H4) in Hnew.
    + by rewrite El.
  - exists ids.
    destruct (finish_inv _ _ _ (Some "failed to send command to OBS") HI) as [G1 G2 G3 G4 G5 G6 G7 G8 G9].
    split; simpl in *; try done. intros id j Hi. destruct (G1 id j Hi) as (n & ? & ?). exists n. split; [lia|done].
Qed.

Lemma obs_perform_inv actions ids o a :
  Inv actions ids o → ∃ ids', Inv (actions ++ [a]) ids' (perform o a).
Proof.
  intros HI%(inv_more _ _ _ a).
  assert (∀ l, (∀ why, l ≠ Gone why) → ∀ o', Inv (actions ++ [a]) ids o' → Inv (actions ++ [a]) ids (set_link l o')) as Hset.
  { intros l Hl o'. apply inv_other; try done. intros why Hw. by destruct (Hl why). }
  assert (∀ kind data o', Inv (actions ++ [a]) ids o' → Inv (actions ++ [a]) ids (publish_event kind data o')) as Hpub.
  { intros kind data o' HI'. eapply inv_other; [..|exact HI']; try done. intros why Hw. by eapply (inv_gone _ _ _ HI'). }
  assert (∀ v o', Inv (actions ++ [a]) ids o' → Inv (actions ++ [a]) ids (write_ws v o')) as Hwrite.
  { intros v o' HI'. eapply inv_other; [..|exact HI']; try done; [simpl; set_solver|].
    intros why Hw. by eapply (inv_gone _ _ _ HI'). }
  destruct a as [|t d|k|r|inc sent|sent].
  - exists ids. simpl. unfold attach. destruct (ob_link o); simpl; try done.
    destruct (validate_loopback_url _); [by apply Hset|by apply finish_inv].
  - exists ids. by apply send_request_inv.
  - exists ids. apply answer_inv; [done|]. auto.
  - exists ids. simpl. destruct (ob_link o); try done. destruct r; [by apply Hset, Hpub|by apply finish_inv].
  - exists ids. simpl. destruct (ob_link o) eqn:El; try done.
    + unfold on_hello. destruct (result_bind _ _) as [[h m]|e]; [|by apply finish_inv].
      destruct sent; [by apply finish_inv|by apply Hset, Hwrite].
    + unfold on_identified. destruct (read_identified inc); [by apply Hset, Hpub|by apply finish_inv].
    + unfold on_message. destruct inc as [[text|t|t]|e|]; try done; try (by apply finish_inv); try (by apply finish_inv, Hpub).
      destruct (ws_from_str text) as [[op [d|]]|] eqn:Et; [|by repeat case_match|done].
      destruct (decide (op = 5%Z)) as [->|H5]; [unfold on_event; destruct (_ ≫= _); [by apply Hpub|done]|].
      destruct (decide (op = 7%Z)) as [->|H7];
        [apply (on_response_inv _ _ _ text d sent); [done|set_solver|exact Et]|by repeat case_match].
  - simpl. destruct (ob_link o) eqn:El; try (by exists ids). by eapply on_command_inv.
Qed.

Lemma obs_run_inv config actions : ∃ ids, Inv actions ids (run actions (obs_new config)).
Proof.
  induction actions as [|a actions [ids IH]] using rev_ind.
  - exists ∅. split; simpl; try done; try (by intros ? ? ?%lookup_empty_Some); try (by intros ? ? ? ?%lookup_empty_Some).
    + by intros k ?%elem_of_nil.
    + constructor.
  - unfold run. rewrite foldl_app. by eapply obs_perform_inv.
Qed.

(** C22: Whatever OBS sends, in whatever order, and whenever callers come and
    give up, answers go to the callers whose requests they answer: there are
    request ids, no two of one call, under which requests were sent with the
    type and data of their calls, and a call that ended with something other
    than a lost connection or a timeout ended with what a received response to
    the id of its own request says.  A call that has not ended is queued or
    has a request out; once the connection has ended every call has. *)
Theorem obs_replies_correlated (config : ObsConfig) (actions : list Action) :
  let o := run actions (obs_new config) in
  ∃ ids : gmap string nat,
    (∀ i j k, ids !! i = Some k → ids !! j = Some k → i = j) ∧
    (∀ id k, ids !! id = Some k → ∃ c, ob_calls o !! k = Some c ∧
       request_frame (ca_type c) id (ca_data c) ∈ ob_wire o) ∧
    (∀ k c r, ob_calls o !! k = Some c → ca_outcome c = Some r →
       r = Err NotConnected ∨ r = Err ObsTimeout ∨
       ∃ id text d sent, ids !! id = Some k ∧ Receive (Got (MText text)) sent ∈ actions ∧
         ws_from_str text = Ok (7%Z, Some d) ∧ (get d "requestId" ≫= as_str) = Some id ∧
         r = response_result d) ∧
    (∀ k c, ob_calls o !! k = Some c → ca_outcome c = None →
       k ∈ ob_queue o ∨ ∃ id, ob_pending o !! id = Some k ∧ ids !! id = Some k) ∧
    (∀ why k c, ob_link o = Gone why → ob_calls o !! k = Some c → is_Some (ca_outcome c)).
Proof.
  intros o. destruct (obs_run_inv config actions) as [ids HI]. fold o in HI. exists ids.
  split_and!; [by apply (inv_once _ _ _ HI)|by apply (inv_frame _ _ _ HI)|..].
  - intros k c r Hk Hr. destruct (inv_outcome _ _ _ HI k c r Hk Hr) as [?|[?|(id & ? & t & d & s & ?)]];
      [by left|by right; left|]. right. right. by exists id, t, d, s.
  - intros k c Hk Hc. destruct (inv_waiting _ _ _ HI k c Hk Hc) as [?|[id Hid]]; [by left|right].
    exists id. split; [done|]. by eapply lookup_weaken, (inv_pending _ _ _ HI).
  - intros why k c Hw Hk. destruct (ca_outcome c) eqn:Ec; [done|].
    destruct (inv_gone _ _ _ HI _ Hw) as [Hq Hp].
    destruct (inv_waiting _ _ _ HI k c Hk Ec) as [H|[id H]]; [by rewrite Hq in H; apply elem_of_nil in H|].
    by rewrite Hp in H.
Qed.

(** A call that was told it timed out before OBS was ready is still sent when
    the handshake ends. *)
Theorem timed_out_command_still_sent (config : ObsConfig) (t : string) (d : Value) hello identified :
  validate_loopback_url (oc_address config) = Ok () →
  (∃ h msg, read_hello hello = Ok h ∧ identify_msg config h = Ok msg) →
  read_identified identified = Ok () →
  let o := run [Attach; Dialled (Ok ()); CallObs t d; Elapse 0; Receive hello None; Receive identified None;
                Take true] (obs_new config) in
  ob_calls o = [mkCall t d (Some (Err ObsTimeout))] ∧
  request_frame t (uuid 0) d ∈ ob_wire o.
Proof.
  intros Hv (h & msg & Hh & Hm) Hi. unfold run. cbn [foldl].
  assert (perform (obs_new config) Attach = set_link Dialling (obs_new config)) as ->
    by (unfold perform, attach; cbn [ob_link ob_config obs_new]; by rewrite Hv).
  set (o1 := perform (perform (perform (set_link _ _) _) _) _).
  assert (perform o1 (Receive hello None) = set_link (AwaitIdentified (he_session_id h)) (write_ws msg o1)) as ->.
  { change (on_hello hello None o1 = set_link (AwaitIdentified (he_session_id h)) (write_ws msg o1)).
    unfold on_hello. rewrite Hh. cbn [result_bind]. change (ob_config o1) with config. by rewrite Hm. }
  set (o2 := set_link _ _). assert (perform o2 (Receive identified None) =
    set_link Streaming (publish_event "obs.authenticated" (JObject [("sessionId", JString (he_session_id h))]) o2)) as ->.
  { change (on_identified (he_session_id h) identified o2 = set_link Streaming
      (publish_event "obs.authenticated" (JObject [("sessionId", JString (he_session_id h))]) o2)).
    unfold on_identified. by rewrite Hi. }
  split; [reflexivity|]. apply elem_of_app. right. by apply list_elem_of_singleton.
Qed.
End Facts.
