(* ===== verification/BridgeAction.v ===== *)
(** * Bridge actions (penguin-module-waddlebot/src/bridge_action.rs, config.rs)

    What the desktop client may make the daemon do on the hub's behalf: OBS
    commands on the operator's list, and POSTs to targets the operator named.
    OBS, the web servers and the secret store answer the [n]-th question put to
    them as they like; what was asked of OBS and of the web servers is kept.
    JSON coding and the replacement of invalid UTF-8 are parameters. *)
From S2P Require Import Prelude.
From S2P Require Import Text.
From S2P Require Import Json.
From S2P Require Import Mask.
From S2P Require Import Obs.

(** ** Configuration *)

Record ObsSection := mkObsSection {
  os_enabled : bool;
  os_url : string;
  os_secret_key : string;
  os_allowed_commands : list string;
  os_allowed_scenes : list string;
}.

Definition ObsSection_default : ObsSection := mkObsSection false "" "obs_password" [] [].

Record WebhookTarget := mkWebhook {
  wt_url : string;
  wt_timeout_secs : Z;                             (* u32 *)
  wt_auth_secret_key : string;
}.

Definition WebhookTarget_default : WebhookTarget := mkWebhook "" 10 "".

(** ** Requests and errors *)

Record BridgeActionRequest := mkActionRequest {
  ar_action_type : string;
  ar_obs_request_type : string;
  ar_obs_request_data : string;
  ar_webhook_name : string;
  ar_webhook_payload : string;
}.

Record BridgeActionResponse := mkActionResponse {
  an_success : bool;
  an_http_status : Z;
  an_obs_response_data : string;
  an_error : string;
}.

Inductive BridgeActionError :=
| UnknownActionType (t : string)
| ObsNotEnabled
| MalformedRequestData (e : string)
| ObsCommandNotAllowed (t : string)
| SceneNotAllowed (scene : string)
| ObsCommandFailed (e : string)
| WebhookNotFound (name : string)
| MalformedPayload (e : string)
| WebhookAuthSecretMissing (key : string)
| WebhookTimeout
| WebhookRequestFailed (e : string).

Definition BridgeActionError_display (e : BridgeActionError) : string :=
  match e with
  | UnknownActionType t => "unknown action type: " +:+ t
  | ObsNotEnabled => "obs adapter not enabled or not connected"
  | MalformedRequestData e => "malformed obs request data: " +:+ e
  | ObsCommandNotAllowed t => "obs command not allowed: " +:+ t
  | SceneNotAllowed s => "scene not allowed: " +:+ s
  | ObsCommandFailed e => "obs command failed: " +:+ e
  | WebhookNotFound n => "webhook not found: " +:+ n
  | MalformedPayload e => "malformed webhook payload: " +:+ e
  | WebhookAuthSecretMissing k => "webhook auth secret missing: " +:+ k
  | WebhookTimeout => "webhook request timeout"
  | WebhookRequestFailed e => "webhook request failed: " +:+ e
  end.

Class ActionCodec := {
  value_from_slice : string → result Value string;
  value_to_vec : Value → result string string;
  from_utf8_lossy : string → string;
}.

(** ** The outside *)

(** Redirects are not followed, so one request is all a webhook causes. *)
Inductive Asked :=
| AskedObs (request_type : string) (request_data : Value)
| Posted (url : string) (payload : Value) (bearer : option string) (timeout_secs : Z).

Inductive PostOutcome := PostTimedOut | PostFailed (e : string) | PostStatus (status : Z).

Record World := mkWorld {
  wd_asked : list Asked;
  wd_obs : nat → string → Value → result Value ObsCommandError;
  wd_post : nat → string → PostOutcome;
  wd_secret : nat → string → option string;
}.

Definition ask (q : Asked) (w : World) : World :=
  mkWorld (wd_asked w ++ [q]) (wd_obs w) (wd_post w) (wd_secret w).

(** [obs_adapter] is present or not; the adapter itself is [Obs]. *)
Record BridgeActionExecutor := mkExecutor {
  ex_obs_adapter : bool;
  ex_obs_allowed_commands : list string;
  ex_obs_allowed_scenes : list string;
  ex_webhooks : gmap string WebhookTarget;
}.

Definition executor_new (obs_adapter : bool) (obs_config : ObsSection) (webhooks : gmap string WebhookTarget) :
    BridgeActionExecutor :=
  mkExecutor obs_adapter (os_allowed_commands obs_config) (os_allowed_scenes obs_config) webhooks.

Section Executor.
  Context {Codec : ActionCodec} (x : BridgeActionExecutor).

Abbreviation Act := (eff World BridgeActionError).

Definition send_obs (request_type : string) (request_data : Value) : Act Value := λ w,
  (map_err (λ e, ObsCommandFailed (ObsCommandError_display e))
     (wd_obs w (length (wd_asked w)) request_type request_data),
   ask (AskedObs request_type request_data) w).

(** The list of scenes is looked at only when the request names one. *)
Definition check_scene (request_type : string) (request_data : Value) : result unit BridgeActionError :=
  if decide (request_type = "SetCurrentProgramScene") then
    match get request_data "sceneName" ≫= as_str with
    | Some scene_name =>
        if negb (bool_decide (ex_obs_allowed_scenes x = [])) &&
           negb (bool_decide (scene_name ∈ ex_obs_allowed_scenes x))
        then Err (SceneNotAllowed scene_name) else Ok ()
    | None => Ok ()
    end
  else Ok ().

Definition execute_obs_command (req : BridgeActionRequest) : Act BridgeActionResponse :=
  let! _ := pure (if ex_obs_adapter x then Ok () else Err ObsNotEnabled) in
  let request_type := ar_obs_request_type req in
  let! request_data := pure (map_err MalformedRequestData (value_from_slice (ar_obs_request_data req))) in
  let! _ := pure (if bool_decide (ex_obs_allowed_commands x = []) then Err (ObsCommandNotAllowed request_type)
                  else Ok ()) in
  let! _ := pure (if bool_decide (request_type ∈ ex_obs_allowed_commands x) then Ok ()
                  else Err (ObsCommandNotAllowed request_type)) in
  let! _ := pure (check_scene request_type request_data) in
  let! response_data := send_obs request_type request_data in
  pure (Ok (mkActionResponse true 0
              (match value_to_vec response_data with Ok v => v | Err _ => "" end) "")).

Definition read_secret (key : string) : Act string := λ w,
  (ok_or (wd_secret w (length (wd_asked w)) key) (WebhookAuthSecretMissing key), w).

Definition post (url : string) (payload : Value) (bearer : option string) (timeout_secs : Z) : Act Z := λ w,
  (match wd_post w (length (wd_asked w)) url with
   | PostTimedOut => Err WebhookTimeout
   | PostFailed e => Err (WebhookRequestFailed (mask_secret e))
   | PostStatus status => Ok status
   end, ask (Posted url payload bearer timeout_secs) w).

Definition execute_webhook (req : BridgeActionRequest) : Act BridgeActionResponse :=
  let webhook_name := ar_webhook_name req in
  let! target := pure (ok_or (ex_webhooks x !! webhook_name) (WebhookNotFound webhook_name)) in
  let! payload := pure (map_err MalformedPayload (value_from_slice (ar_webhook_payload req))) in
  let! bearer :=
    (if decide (wt_auth_secret_key target = "") then pure (Ok None)
     else let! secret := read_secret (wt_auth_secret_key target) in
          pure (Ok (Some (from_utf8_lossy secret)))) in
  let! status := post (wt_url target) payload bearer (Z.min (wt_timeout_secs target) 30) in
  pure (Ok (mkActionResponse ((200 <=? status)%Z && (status <? 300)%Z) status "" "")).

Definition execute (req : BridgeActionRequest) : Act BridgeActionResponse :=
  if decide (ar_action_type req = "obs_command") then execute_obs_command req
  else if decide (ar_action_type req = "webhook") then execute_webhook req
  else pure (Err (UnknownActionType (ar_action_type req))).
End Executor.

(** ** Theorems *)

Section Facts.
  Context {Codec : ActionCodec} (x : BridgeActionExecutor).

(** The scene a request names, if it is one that sets the scene. *)
Definition scene_ok (t : string) (d : Value) : Prop :=
  t = "SetCurrentProgramScene" → ex_obs_allowed_scenes x ≠ [] →
  ∀ scene, (get d "sceneName" ≫= as_str) = Some scene → scene ∈ ex_obs_allowed_scenes x.

Definition permitted (req : BridgeActionRequest) (w : World) (q : Asked) : Prop :=
  match q with
  | AskedObs t d =>
      ar_action_type req = "obs_command" ∧ t = ar_obs_request_type req ∧
      value_from_slice (ar_obs_request_data req) = Ok d ∧
      ex_obs_adapter x = true ∧ t ∈ ex_obs_allowed_commands x ∧ scene_ok t d
  | Posted url payload bearer timeout =>
      ar_action_type req = "webhook" ∧ value_from_slice (ar_webhook_payload req) = Ok payload ∧
      ∃ target, ex_webhooks x !! ar_webhook_name req = Some target ∧ url = wt_url target ∧
        timeout = Z.min (wt_timeout_secs target) 30 ∧
        (wt_auth_secret_key target = "" ∧ bearer = None ∨
         ∃ secret, wt_auth_secret_key target ≠ "" ∧
           wd_secret w (length (wd_asked w)) (wt_auth_secret_key target) = Some secret ∧
           bearer = Some (from_utf8_lossy secret))
  end.

Lemma check_scene_ok t d : check_scene x t d = Ok () → scene_ok t d.
Proof.
  unfold check_scene, scene_ok. destruct (decide _); [|done]. intros H _ Hne scene Hs. rewrite Hs in H.
  rewrite (bool_decide_eq_false_2 (_ = [])) in H by done. simpl in H.
  by destruct (bool_decide_reflect (scene ∈ ex_obs_allowed_scenes x)).
Qed.

(** C21: Every bridge action asks at most one thing of the outside: an OBS
    command on the list, sent with the data given; or a POST of the payload
    given to the URL configured for the named webhook, with the secret
    configured for it and within 30 seconds.  The list of scenes, when it is
    not empty, binds a [SetCurrentProgramScene] that gives a [sceneName]: that
    scene is listed.  It binds nothing else; a request that gives a [sceneUuid]
    instead may reach any scene ([scene_list_bypassed]).  A refused action asks
    nothing, and one that asked is answered by what came back. *)
Theorem bridge_actions_allowlisted (req : BridgeActionRequest) (w : World) :
  let '(r, w') := execute x req w in
  wd_asked w' = wd_asked w ∧ (∃ e, r = Err e) ∨
  ∃ q, wd_asked w' = wd_asked w ++ [q] ∧ permitted req w q ∧
    match q, r with
    | AskedObs t d, Ok rsp =>
        an_success rsp = true ∧ ∃ v, wd_obs w (length (wd_asked w)) t d = Ok v
    | AskedObs t d, Err e =>
        ∃ err, wd_obs w (length (wd_asked w)) t d = Err err ∧ e = ObsCommandFailed (ObsCommandError_display err)
    | Posted url _ _ _, Ok rsp =>
        ∃ status, wd_post w (length (wd_asked w)) url = PostStatus status ∧
          an_http_status rsp = status ∧ (an_success rsp = true ↔ (200 ≤ status < 300)%Z)
    | Posted url _ _ _, Err e =>
        wd_post w (length (wd_asked w)) url = PostTimedOut ∧ e = WebhookTimeout ∨
        ∃ m, wd_post w (length (wd_asked w)) url = PostFailed m ∧ e = WebhookRequestFailed (mask_secret m)
    end.
Proof.
  unfold execute. destruct (decide (ar_action_type req = "obs_command")) as [Ht|Ht].
  - unfold execute_obs_command, eff_bind, pure.
    destruct (ex_obs_adapter x) eqn:Ea; [|by left; eauto].
    destruct (value_from_slice (ar_obs_request_data req)) as [d|e] eqn:Ed; simpl; [|by left; eauto].
    destruct (bool_decide (_ = [])); [by left; eauto|].
    destruct (bool_decide (_ ∈ _)) eqn:Ec; [|by left; eauto]. apply bool_decide_eq_true in Ec.
    destruct (check_scene x (ar_obs_request_type req) d) as [[]|e] eqn:Es; [|by left; eauto].
    apply check_scene_ok in Es. unfold send_obs.
    destruct (wd_obs w _ _ _) as [v|e] eqn:Eo; simpl; right; (eexists; split; [done|]); (split; [done|]); simpl; eauto.
  - destruct (decide (ar_action_type req = "webhook")) as [Hw|Hw]; [|by left; eauto].
    unfold execute_webhook, eff_bind, pure.
    destruct (ex_webhooks x !! ar_webhook_name req) as [target|] eqn:Et; simpl; [|by left; eauto].
    destruct (value_from_slice (ar_webhook_payload req)) as [d|e] eqn:Ed; simpl; [|by left; eauto].
    assert (∀ bearer, (wt_auth_secret_key target = "" ∧ bearer = None ∨
         ∃ secret, wt_auth_secret_key target ≠ "" ∧
           wd_secret w (length (wd_asked w)) (wt_auth_secret_key target) = Some secret ∧
           bearer = Some (from_utf8_lossy secret)) →
       permitted req w (Posted (wt_url target) d bearer (Z.min (wt_timeout_secs target) 30))) as Hp.
    { intros bearer Hb. split; [done|]. split; [done|]. by exists target. }
    destruct (decide (wt_auth_secret_key target = "")) as [Hk|Hk];
      [|unfold read_secret; destruct (wd_secret w _ _) as [secret|] eqn:Es; simpl; [|by left; eauto]];
      unfold post; destruct (wd_post w _ _) as [|e|status] eqn:Ep; simpl; right; (eexists; split; [done|]);
      (split; [apply Hp; by eauto|]); simpl; eauto;
      exists status; (split_and!; [done..|]); rewrite andb_true_iff, Z.leb_le, Z.ltb_lt; lia.
Qed.

(** The list of scenes is not enforced on a request that names its scene
    otherwise: with scenes listed, a request for any scene that gives its
    [sceneUuid], which OBS accepts in place of the name, is sent. *)
Theorem scene_list_bypassed (req : BridgeActionRequest) (w : World) (id : string) :
  ex_obs_adapter x = true → ex_obs_allowed_scenes x ≠ [] →
  "SetCurrentProgramScene" ∈ ex_obs_allowed_commands x →
  ar_action_type req = "obs_command" → ar_obs_request_type req = "SetCurrentProgramScene" →
  value_from_slice (ar_obs_request_data req) = Ok (JObject [("sceneUuid", JString id)]) →
  wd_asked (execute x req w).2 =
    wd_asked w ++ [AskedObs "SetCurrentProgramScene" (JObject [("sceneUuid", JString id)])].
Proof.
  intros Ha _ Hc Ht Hr Hd. unfold execute. rewrite decide_True by done.
  unfold execute_obs_command, eff_bind, pure. rewrite Ha, Hd, Hr. simpl.
  rewrite (bool_decide_eq_false_2 (_ = [])) by (intros E; rewrite E in Hc; by apply elem_of_nil in Hc).
  rewrite bool_decide_eq_true_2 by done. unfold check_scene, send_obs. simpl.
  by destruct (wd_obs w _ _ _).
Qed.
End Facts.
