(* ===== verification/BotClient.v ===== *)
(** * The hub client (waddlebot-client: config.rs, error.rs, models.rs, client.rs)

    One definition per endpoint, over a hub that answers the [n]-th request as
    it likes.  Every request sent is kept.  HTTP, TLS and the decoding of
    replies are parameters; request bodies are the JSON that is sent.  The last
    section shows that the client is a hub in the sense of [Bridge]. *)
From S2P Require Import Prelude.
From S2P Require Import Text.
From S2P Require Import Json.
From S2P Require Import Bridge.

Module Client.

(** ** Errors (error.rs) *)

Inductive ErrorBody :=
| Structured (code message : string)
| Plain (message : string)
| Unparsed (raw : string).

Definition ErrorBody_display (b : ErrorBody) : string :=
  match b with
  | Structured code message => code +:+ ": " +:+ message
  | Plain message => message
  | Unparsed raw => raw
  end.

Inductive WaddlebotError :=
| Setup (e : string)
| Transport (e : string)
| Auth (status : Z) (body : ErrorBody)
| Status (status : Z) (body : ErrorBody)
| Decode (e : string).

Definition WaddlebotError_display (e : WaddlebotError) : string :=
  match e with
  | Setup e => "failed to set up HTTP client: " +:+ e
  | Transport e => "transport error: " +:+ e
  | Auth status body =>
      "authentication rejected (HTTP " +:+ pretty status +:+ "): " +:+ ErrorBody_display body
  | Status status body => "HTTP " +:+ pretty status +:+ ": " +:+ ErrorBody_display body
  | Decode e => "failed to decode response: " +:+ e
  end.

(** ** Models (models.rs) *)

Record Community := mkCommunity {
  cm_id : Z; cm_name : string; cm_display_name : string; cm_description : option string;
  cm_logo_url : option string; cm_platform : option string; cm_member_count : Z; cm_role : string;
  cm_joined_at : option string }.

Record BrowserSource := mkBrowserSource {
  bs_source_type : string; bs_url : string; bs_token : string; bs_is_active : bool;
  bs_created_at : option string }.

Record PermissionScope := mkPermissionScope {
  ps_scope_key : string; ps_display_name : string; ps_description : option string;
  ps_category : option string }.

Record Cat := mkCat {
  ct_id : Z; ct_name : string; ct_scopes : list string; ct_created_at : option string;
  ct_last_used_at : option string; ct_expires_at : option string; ct_is_revoked : bool;
  ct_created_by_name : option string }.

Record CatList := mkCatList { cl_tokens : list Cat; cl_quota : Z; cl_used : Z }.

Record NewToken := mkNewToken { nt_token : string; nt_message : string }.

Record MusicSettings := mkMusicSettings {
  ms_id : Z; ms_community_id : Z; ms_default_provider : option string; ms_autoplay_enabled : bool;
  ms_volume_limit : Z; ms_allowed_genres : list string; ms_blocked_artists : list string;
  ms_require_dj_approval : bool; ms_is_active : bool; ms_created_at : option string;
  ms_updated_at : option string }.

Record MusicProvider := mkMusicProvider {
  mp_id : Z; mp_community_id : Z; mp_provider_name : string; mp_is_connected : bool;
  mp_is_active : bool; mp_oauth_expires_at : option string; mp_last_sync : option string;
  mp_config : Value; mp_created_at : option string; mp_updated_at : option string }.

Record RadioStation := mkRadioStation {
  rs_id : Z; rs_community_id : Z; rs_name : string; rs_url : string; rs_description : option string;
  rs_genre : option string; rs_is_active : bool; rs_created_by : option Z; rs_created_at : option string;
  rs_updated_at : option string }.

Record RadioStationPagination := mkStationPagination { sp_page : Z; sp_limit : Z; sp_total : Z; sp_pages : Z }.

Record RadioStationList := mkStationList {
  sl_pagination : RadioStationPagination; sl_stations : list RadioStation }.

Record NewRadioStation := mkNewRadioStation {
  nr_name : string; nr_url : string; nr_description : option string; nr_genre : option string;
  nr_is_active : option bool }.

Record Announcement := mkAnnouncement {
  an_id : Z; an_community_id : Z; an_title : string; an_content : string; an_announcement_type : string;
  an_status : string; an_is_pinned : bool; an_created_by : option Z; an_created_by_name : option string;
  an_created_at : option string; an_updated_by : option Z; an_updated_at : option string;
  an_published_at : option string; an_archived_at : option string }.

Record AnnouncementPagination := mkAnnouncementPagination {
  ag_page : Z; ag_limit : Z; ag_total : Z; ag_total_pages : Z }.

Record AnnouncementList := mkAnnouncementList {
  al_announcements : list Announcement; al_pagination : AnnouncementPagination }.

Record NewAnnouncement := mkNewAnnouncement {
  na_title : string; na_content : string; na_announcement_type : option string;
  na_is_pinned : option bool; na_status : option string }.

(** Serialized members; [None] is left out. *)
Definition member {A} (key : string) (f : A → Value) (o : option A) : list (string * Value) :=
  match o with Some a => [(key, f a)] | None => [] end.

Definition strings_json (l : list string) : Value := JArray (map JString l).

Definition new_cat_json (name : string) (scopes : list string) (expires_at : option string) : Value :=
  JObject ([("name", JString name); ("scopes", strings_json scopes)] ++ member "expires_at" JString expires_at).

Definition regenerate_json (source_type : option string) : Value :=
  JObject (member "sourceType" JString source_type).

(** The partial update is [Bridge.MusicSettingsUpdate]. *)
Definition music_update_json (u : MusicSettingsUpdate) : Value :=
  JObject (member "defaultProvider" JString (up_default_provider u) ++
           member "autoplayEnabled" JBool (up_autoplay_enabled u) ++
           member "volumeLimit" JInt (up_volume_limit u) ++
           member "allowedGenres" strings_json (up_allowed_genres u) ++
           member "blockedArtists" strings_json (up_blocked_artists u) ++
           member "requireDjApproval" JBool (up_require_dj_approval u) ++
           member "isActive" JBool (up_is_active u)).

Definition new_station_json (s : NewRadioStation) : Value :=
  JObject ([("name", JString (nr_name s)); ("url", JString (nr_url s))] ++
           member "description" JString (nr_description s) ++ member "genre" JString (nr_genre s) ++
           member "isActive" JBool (nr_is_active s)).

Definition new_announcement_json (a : NewAnnouncement) : Value :=
  JObject ([("title", JString (na_title a)); ("content", JString (na_content a))] ++
           member "announcement_type" JString (na_announcement_type a) ++
           member "is_pinned" JBool (na_is_pinned a) ++ member "status" JString (na_status a)).

(** [serde_json::from_slice] at each response type; the envelopes are opened. *)
Class HubCodec := {
  json_from_slice : string → result Value string;
  from_utf8_lossy : string → string;
  decode_communities : string → result (list Community) string;
  decode_sources : string → result (list BrowserSource) string;
  decode_message : string → result string string;
  decode_scopes : string → result (list PermissionScope) string;
  decode_cats : string → result CatList string;
  decode_new_token : string → result NewToken string;
  decode_music : string → result MusicSettings string;
  decode_providers : string → result (list MusicProvider) string;
  decode_stations : string → result RadioStationList string;
  decode_station : string → result RadioStation string;
  decode_announcements : string → result AnnouncementList string;
  decode_announcement : string → result Announcement string;
}.

Definition parse_error_body `{HubCodec} (bytes : string) : ErrorBody :=
  match json_from_slice bytes with
  | Err _ => Unparsed (from_utf8_lossy bytes)
  | Ok value =>
      match get value "error" with
      | None => Unparsed (from_utf8_lossy bytes)
      | Some error_value =>
          match as_str error_value with
          | Some message => Plain message
          | None =>
              match as_object error_value with
              | Some _ =>
                  let field k := default "" (get error_value k ≫= as_str) in
                  Structured (field "code") (field "message")
              | None => Unparsed (from_utf8_lossy bytes)
              end
          end
      end
  end.

(** ** The client (config.rs, client.rs) *)

Record Config := mkConfig { cf_base_url : string; cf_community_id : Z; cf_cat : string; cf_timeout_secs : Z }.

Definition DEFAULT_BASE_URL : string := "https://waddles.app/api/v1".
Definition Config_default : Config := mkConfig DEFAULT_BASE_URL 0 "" 30.

Record WaddlebotClient := mkClient { wc_base_url : string; wc_community_id : Z; wc_cat : string }.

(** [built]: the error of the HTTP stack, if it cannot be built. *)
Definition client_new (config : Config) (built : option string) : result WaddlebotClient WaddlebotError :=
  match built with
  | Some e => Err (Setup e)
  | None => Ok (mkClient (trim_end_slashes (cf_base_url config)) (cf_community_id config) (cf_cat config))
  end.

Inductive Method := GET | POST | PUT | DELETE.

Record Request := mkRequest {
  rq_method : Method; rq_url : string; rq_query : list (string * string); rq_bearer : string;
  rq_body : option Value }.

Inductive Answer := Replied (status : Z) (body : string) | NoResponse (error : string).

Record HubWorld := mkHubWorld { hw_sent : list Request; hw_hub : nat → Request → Answer }.

Section Endpoints.
  Context {Codec : HubCodec} (c : WaddlebotClient).

Abbreviation Call := (eff HubWorld WaddlebotError).

Definition url (path : string) : string := wc_base_url c +:+ path.
Definition admin_url (suffix : string) : string :=
  url ("/admin/" +:+ pretty (wc_community_id c) +:+ suffix).

Definition read_answer {A} (decode : string → result A string) (a : Answer) : result A WaddlebotError :=
  match a with
  | NoResponse e => Err (Transport e)
  | Replied status bytes =>
      if (200 <=? status)%Z && (status <? 300)%Z then map_err Decode (decode bytes)
      else
        let body := parse_error_body bytes in
        if (status =? 401)%Z || (status =? 403)%Z then Err (Auth status body) else Err (Status status body)
  end.

Definition execute {A} (decode : string → result A string) (method : Method) (url : string)
    (query : list (string * string)) (body : option Value) : Call A := λ w,
  let rq := mkRequest method url query (wc_cat c) body in
  (read_answer decode (hw_hub w (length (hw_sent w)) rq), mkHubWorld (hw_sent w ++ [rq]) (hw_hub w)).

Definition get_ {A} (decode : string → result A string) (url : string) : Call A := execute decode GET url [] None.
Definition post_json {A} (decode : string → result A string) (url : string) (body : Value) : Call A :=
  execute decode POST url [] (Some body).
Definition put_json {A} (decode : string → result A string) (url : string) (body : Value) : Call A :=
  execute decode PUT url [] (Some body).
Definition delete_ {A} (decode : string → result A string) (url : string) : Call A :=
  execute decode DELETE url [] None.

Definition list_my_communities : Call (list Community) := get_ decode_communities (url "/communities/my").

Definition list_browser_sources : Call (list BrowserSource) := get_ decode_sources (admin_url "/browser-sources").
Definition regenerate_browser_sources (source_type : option string) : Call string :=
  post_json decode_message (admin_url "/browser-sources/regenerate") (regenerate_json source_type).

Definition list_scopes : Call (list PermissionScope) := get_ decode_scopes (admin_url "/tokens/scopes").
Definition list_cats : Call CatList := get_ decode_cats (admin_url "/tokens/cats").
Definition create_cat (name : string) (scopes : list string) (expires_at : option string) : Call NewToken :=
  post_json decode_new_token (admin_url "/tokens/cats") (new_cat_json name scopes expires_at).
Definition revoke_cat (token_id : Z) : Call string :=
  delete_ decode_message (admin_url ("/tokens/cats/" +:+ pretty token_id)).
Definition rotate_cat (revoke_token_id : Z) (new_name : string) (scopes : list string)
    (expires_at : option string) : Call NewToken :=
  let! _ := revoke_cat revoke_token_id in create_cat new_name scopes expires_at.

Definition get_music_settings : Call MusicSettings := get_ decode_music (admin_url "/music/settings").
Definition update_music_settings (update : MusicSettingsUpdate) : Call MusicSettings :=
  put_json decode_music (admin_url "/music/settings") (music_update_json update).
Definition list_music_providers : Call (list MusicProvider) :=
  get_ decode_providers (admin_url "/music/providers").
Definition disconnect_music_provider (provider : string) : Call string :=
  delete_ decode_message (admin_url ("/music/providers/" +:+ provider)).

Definition query_pair {A} (key : string) (show : A → string) (o : option A) : list (string * string) :=
  match o with Some a => [(key, show a)] | None => [] end.

Definition list_radio_stations (page limit : option Z) : Call RadioStationList :=
  execute decode_stations GET (admin_url "/music/radio-stations")
    (query_pair "page" pretty page ++ query_pair "limit" pretty limit) None.
Definition add_radio_station (station : NewRadioStation) : Call RadioStation :=
  post_json decode_station (admin_url "/music/radio-stations") (new_station_json station).
Definition remove_radio_station (station_id : Z) : Call string :=
  delete_ decode_message (admin_url ("/music/radio-stations/" +:+ pretty station_id)).

Definition list_announcements (status : option string) : Call AnnouncementList :=
  execute decode_announcements GET (admin_url "/announcements") (query_pair "status" id status) None.
Definition get_announcement (announcement_id : Z) : Call Announcement :=
  get_ decode_announcement (admin_url ("/announcements/" +:+ pretty announcement_id)).
Definition create_announcement (new_announcement : NewAnnouncement) : Call Announcement :=
  post_json decode_announcement (admin_url "/announcements") (new_announcement_json new_announcement).
Definition publish_announcement (announcement_id : Z) : Call Announcement :=
  execute decode_announcement POST
    (admin_url ("/announcements/" +:+ pretty announcement_id +:+ "/publish")) [] None.

Definition list_workflows : Call Value := get_ json_from_slice (admin_url "/workflows").
Definition get_workflow (workflow_id : string) : Call Value :=
  get_ json_from_slice (admin_url ("/workflows/" +:+ workflow_id)).
Definition create_workflow (payload : Value) : Call Value :=
  post_json json_from_slice (admin_url "/workflows") payload.
Definition update_workflow (workflow_id : string) (payload : Value) : Call Value :=
  put_json json_from_slice (admin_url ("/workflows/" +:+ workflow_id)) payload.
Definition delete_workflow (workflow_id : string) : Call Value :=
  delete_ json_from_slice (admin_url ("/workflows/" +:+ workflow_id)).

Definition get_loyalty_config : Call Value := get_ json_from_slice (admin_url "/loyalty/config").
Definition update_loyalty_config (payload : Value) : Call Value :=
  put_json json_from_slice (admin_url "/loyalty/config") payload.
Definition adjust_loyalty_balance (user_id : Z) (payload : Value) : Call Value :=
  put_json json_from_slice (admin_url ("/loyalty/user/" +:+ pretty user_id +:+ "/balance")) payload.
End Endpoints.
End Client.
