(* ===== verification/BotModule.v ===== *)
(** * The bot module (penguin-module-waddlebot: config.rs, metrics.rs, module.rs)

    The module over the hub client ([BotClient]), the bridge ([Bridge]), the OBS
    adapter ([Obs]), bridge actions ([BridgeAction]) and the session proxy
    ([SessionProxy]).  The outside is a [World]: the hub, the clock, the secret
    store, the sockets, the tasks the module started, and the two process-wide
    registries through which the daemon reaches the module.  YAML is a
    parameter; metrics are the counters and the gauge. *)
From S2P Require Import Prelude.
From S2P Require Import Text.
From S2P Require Import Json.
From S2P Require Import Sdk.
From S2P Require Import Bridge.
From S2P Require Import SessionProxy.
From S2P Require Import Obs.
From S2P Require Import BridgeAction.
From S2P Require Import BotClient.

(** ** Configuration (config.rs) *)

(** [listen_tcp], [listen_unix] and [allowed_integrations] are [bg_listen]. *)
Record BridgeConfig := mkBridgeConfig {
  bg_enabled : bool;
  bg_listen : Bridge.BridgeSection;
  bg_obs : ObsSection;
  bg_webhooks : gmap string WebhookTarget;
}.

Definition bridge_default : BridgeConfig :=
  mkBridgeConfig false (mkBridgeSection "" "" []) ObsSection_default ∅.

Record ModuleConfig := mkModuleConfig {
  mc_base_url : string;
  mc_community_id : Z;
  mc_bridge : BridgeConfig;
}.

Definition config_default : ModuleConfig := mkModuleConfig Client.DEFAULT_BASE_URL 0 bridge_default.

(** ** State (module.rs, metrics.rs) *)

Inductive AuthState := AuthOk | AuthUnauthorized | AuthUnreachable.

Definition auth_as_str (a : AuthState) : string :=
  match a with
  | AuthOk => "ok" | AuthUnauthorized => "unauthorized" | AuthUnreachable => "unreachable"
  end.

Record AuthProbe := mkAuthProbe { pb_state : AuthState; pb_checked_at : Z }.

Record Metrics := mkMetrics { mt_requests : nat; mt_errors : nat; mt_up : bool }.

Class BotCodec := {
  bc_hub :: Client.HubCodec;
  bc_net :: BridgeNet;
  bc_obs :: ObsCrates;
  bc_proxy :: ProxyCrates;
  addr_text : Addr → string;
  addr_eq :: EqDecision Addr;
  bridge_error_text : BridgeError → string;
  config_from_slice : string → result ModuleConfig string;
}.

Section Module_.
  Context {Codec : BotCodec}.

(** [Inner] after [init]; the session proxy is one of the world's. *)
Record Bot := mkBot {
  bt_config : ModuleConfig;
  bt_client : Client.WaddlebotClient;
  bt_cat : string;
  bt_community_id : Z;
  bt_metrics : Metrics;
  bt_running : bool;
  bt_last_probe : option AuthProbe;
  bt_bridge : option BridgeHandle;
  bt_session_proxy : nat;
}.

Record World := mkWorld {
  wo_hub : Client.HubWorld;
  wo_net : Listening;
  wo_obs : list Obs;                               (* OBS tasks of the process *)
  wo_proxies : list System;
  wo_session_registry : option nat;
  wo_action_registry : option (BridgeActionExecutor * option nat);
  wo_log : list string;
  wo_asked : nat;
  wo_clock : nat → Z;
  wo_slow : nat → bool;                            (* the probe's time runs out *)
  wo_setup : nat → option string;
  wo_secret : nat → string → option string;
  wo_randoms : nat → list string;
}.

Abbreviation St := (Bot * World)%type.

Definition set_hub (h : Client.HubWorld) (w : World) : World :=
  mkWorld h (wo_net w) (wo_obs w) (wo_proxies w) (wo_session_registry w) (wo_action_registry w) (wo_log w)
    (wo_asked w) (wo_clock w) (wo_slow w) (wo_setup w) (wo_secret w) (wo_randoms w).
Definition set_net (n : Listening) (w : World) : World :=
  mkWorld (wo_hub w) n (wo_obs w) (wo_proxies w) (wo_session_registry w) (wo_action_registry w) (wo_log w)
    (wo_asked w) (wo_clock w) (wo_slow w) (wo_setup w) (wo_secret w) (wo_randoms w).
Definition set_obs (l : list Obs) (w : World) : World :=
  mkWorld (wo_hub w) (wo_net w) l (wo_proxies w) (wo_session_registry w) (wo_action_registry w) (wo_log w)
    (wo_asked w) (wo_clock w) (wo_slow w) (wo_setup w) (wo_secret w) (wo_randoms w).
Definition set_session_registry (l : list System) (r : option nat) (w : World) : World :=
  mkWorld (wo_hub w) (wo_net w) (wo_obs w) l r (wo_action_registry w) (wo_log w)
    (wo_asked w) (wo_clock w) (wo_slow w) (wo_setup w) (wo_secret w) (wo_randoms w).
Definition set_action_registry (r : option (BridgeActionExecutor * option nat)) (w : World) : World :=
  mkWorld (wo_hub w) (wo_net w) (wo_obs w) (wo_proxies w) (wo_session_registry w) r (wo_log w)
    (wo_asked w) (wo_clock w) (wo_slow w) (wo_setup w) (wo_secret w) (wo_randoms w).
Definition log (line : string) (w : World) : World :=
  mkWorld (wo_hub w) (wo_net w) (wo_obs w) (wo_proxies w) (wo_session_registry w) (wo_action_registry w)
    (wo_log w ++ [line]) (wo_asked w) (wo_clock w) (wo_slow w) (wo_setup w) (wo_secret w) (wo_randoms w).
Definition tick (w : World) : World :=
  mkWorld (wo_hub w) (wo_net w) (wo_obs w) (wo_proxies w) (wo_session_registry w) (wo_action_registry w)
    (wo_log w) (S (wo_asked w)) (wo_clock w) (wo_slow w) (wo_setup w) (wo_secret w) (wo_randoms w).

Definition now (w : World) : Z * World := (wo_clock w (wo_asked w), tick w).
Definition secret_get (key : string) (w : World) : option string * World :=
  (wo_secret w (wo_asked w) key, tick w).

Definition set_client (c : Client.WaddlebotClient) (community_id : Z) (b : Bot) : Bot :=
  mkBot (bt_config b) c (bt_cat b) community_id (bt_metrics b) (bt_running b) (bt_last_probe b)
    (bt_bridge b) (bt_session_proxy b).
Definition set_metrics (m : Metrics) (b : Bot) : Bot :=
  mkBot (bt_config b) (bt_client b) (bt_cat b) (bt_community_id b) m (bt_running b) (bt_last_probe b)
    (bt_bridge b) (bt_session_proxy b).
Definition set_running (r : bool) (b : Bot) : Bot :=
  mkBot (bt_config b) (bt_client b) (bt_cat b) (bt_community_id b) (bt_metrics b) r (bt_last_probe b)
    (bt_bridge b) (bt_session_proxy b).
Definition set_probe (p : AuthProbe) (b : Bot) : Bot :=
  mkBot (bt_config b) (bt_client b) (bt_cat b) (bt_community_id b) (bt_metrics b) (bt_running b) (Some p)
    (bt_bridge b) (bt_session_proxy b).
Definition set_bridge (h : option BridgeHandle) (b : Bot) : Bot :=
  mkBot (bt_config b) (bt_client b) (bt_cat b) (bt_community_id b) (bt_metrics b) (bt_running b)
    (bt_last_probe b) h (bt_session_proxy b).

Definition count_request (m : Metrics) : Metrics := mkMetrics (S (mt_requests m)) (mt_errors m) (mt_up m).
Definition count_error (m : Metrics) : Metrics := mkMetrics (mt_requests m) (S (mt_errors m)) (mt_up m).
Definition set_up (u : bool) (m : Metrics) : Metrics := mkMetrics (mt_requests m) (mt_errors m) u.

Definition bump (f : Metrics → Metrics) (b : Bot) : Bot := set_metrics (f (bt_metrics b)) b.

(** ** The hub *)

Definition hub_config (b : Bot) (community_id : Z) : Client.Config :=
  Client.mkConfig (mc_base_url (bt_config b)) community_id (bt_cat b) 30.

Definition set_community (community_id : Z) (s : St) : result unit ModuleError * St :=
  let '(b, w) := s in
  match Client.client_new (hub_config b community_id) (wo_setup w (wo_asked w)) with
  | Err err =>
      (Err (mkModuleError ("rebuild hub client: " +:+ Client.WaddlebotError_display err)), (b, tick w))
  | Ok client => (Ok (), (set_client client community_id b, tick w))
  end.

(** [call]: one use of the client, counted, and counted again if it fails. *)
Definition call {A} (m : eff Client.HubWorld Client.WaddlebotError A) (s : St) :
    result A Client.WaddlebotError * St :=
  let '(b, w) := s in
  let b := bump count_request b in
  let '(r, h) := m (wo_hub w) in
  (r, (if is_ok r then b else bump count_error b, set_hub h w)).

Definition nanos (secs : Z) : Z := (secs * 1000000000)%Z.
Definition AUTH_CACHE_TTL : Z := nanos 5.

(** A probe whose time runs out is dropped with its request sent, before it
    could be counted as failed. *)
Definition fresh_probe (s : St) : AuthProbe * St :=
  let '(b, w) := s in
  let attempt := Client.list_my_communities (bt_client b) in
  let '(state, s) :=
    if wo_slow w (wo_asked w) then
      (AuthUnreachable, (bump count_request b, set_hub (attempt (wo_hub w)).2 (tick w)))
    else
      let '(r, s) := call attempt (b, tick w) in
      (match r with
       | Ok _ => AuthOk
       | Err (Client.Auth _ _) => AuthUnauthorized
       | Err _ => AuthUnreachable
       end, s) in
  let '(b, w) := s in
  let '(t, w) := now w in
  let probe := mkAuthProbe state t in
  (probe, (set_probe probe b, w)).

Definition probe_auth (s : St) : AuthProbe * St :=
  let '(b, w) := s in
  match bt_last_probe b with
  | Some probe =>
      let '(t, w) := now w in
      if (pb_checked_at probe <=? t)%Z && (t - pb_checked_at probe <? AUTH_CACHE_TTL)%Z
      then (probe, (b, w))
      else fresh_probe (b, w)
  | None => fresh_probe s
  end.

(** ** The bridge *)

(** The adapter for OBS, if it is enabled and its password is there. *)
Definition obs_adapter (b : Bot) (w : World) : option Obs * World :=
  let obs := bg_obs (mc_bridge (bt_config b)) in
  if os_enabled obs && negb (bool_decide (os_url obs = "")) then
    let '(password, w) := secret_get (os_secret_key obs) w in
    match password with
    | Some bytes => (Some (obs_new (mkObsConfig (os_url obs) (Client.from_utf8_lossy bytes))), w)
    | None => (None, log "OBS adapter disabled: secret not found" w)
    end
  else (None, w).

(** [attach] of the adapter, when every transport is bound: its task. *)
Definition spawn_obs (adapter : option Obs) (w : World) : option nat * World :=
  match adapter with
  | Some o => (Some (length (wo_obs w)), set_obs (wo_obs w ++ [default o (attach o)]) w)
  | None => (None, w)
  end.

Definition start_bridge (s : St) : result unit ModuleError * St :=
  let '(b, w) := s in
  let cfg := mc_bridge (bt_config b) in
  if negb (bg_enabled cfg) then (Ok (), s)
  else
    let '(adapter, w) := obs_adapter b w in
    let adapters := match adapter with Some _ => [("obs", Ok ())] | None => [] end in
    let '(r, net) := Bridge.start (bg_listen cfg) (wo_randoms w (wo_asked w)) adapters (wo_net w) in
    let w := set_net net (tick w) in
    match r with
    | Err err => (Err (mkModuleError ("start bridge: " +:+ bridge_error_text err)), (b, w))
    | Ok (handle, _) =>
        let '(task, w) := spawn_obs adapter w in
        let executor := executor_new (bool_decide (is_Some adapter)) (bg_obs cfg) (bg_webhooks cfg) in
        let w := set_action_registry (Some (executor, task)) w in
        (Ok (), (set_bridge (Some handle) b, log "waddlebot bridge started" w))
    end.

Definition stop_bridge (s : St) : St :=
  let '(b, w) := s in
  let w := match bt_bridge b with
           | Some handle => log "waddlebot bridge stopped" (set_net (Bridge.stop handle (wo_net w)) w)
           | None => w
           end in
  (set_bridge None b, set_action_registry None w).

(** ** Life cycle *)

Definition info : ModuleInfo :=
  mkModuleInfo "waddlebot" "1.0.0" "waddlebot local integration and CLI over the waddles hub" "".

(** [register]: the outcome of registering the metrics. *)
Definition init (raw : string) (register : result unit string) (w : World) : result Bot ModuleError * World :=
  match (if decide (raw = "") then Ok config_default
         else map_err (λ err, mkModuleError ("parse waddlebot config: " +:+ err)) (config_from_slice raw)) with
  | Err e => (Err e, w)
  | Ok cfg =>
      let '(secret, w) := secret_get "cat" w in
      let cat := match secret with Some bytes => Client.from_utf8_lossy bytes | None => "" end in
      let hub := Client.mkConfig (mc_base_url cfg) (mc_community_id cfg) cat 30 in
      match Client.client_new hub (wo_setup w (wo_asked w)) with
      | Err err =>
          (Err (mkModuleError ("create hub client: " +:+ Client.WaddlebotError_display err)), tick w)
      | Ok client =>
          match register with
          | Err err => (Err (mkModuleError ("register metrics: " +:+ err)), tick w)
          | Ok _ =>
              let w := log "waddlebot module initialized" (tick w) in
              let proxy := length (wo_proxies w) in
              (Ok (mkBot cfg client cat (mc_community_id cfg) (mkMetrics 0 0 false) false None None proxy),
               set_session_registry (wo_proxies w ++ [system_new]) (Some proxy) w)
          end
      end
  end.

Definition start (s : St) : result unit ModuleError * St :=
  if bt_running s.1 then (Ok (), s)
  else
    let s := (bump (set_up true) (set_running true s.1), s.2) in
    let '(r, s) := start_bridge s in
    match r with
    | Err e => (Err e, s)
    | Ok _ => (Ok (), (s.1, log "waddlebot module started" s.2))
    end.

Definition stop (s : St) : result unit ModuleError * St :=
  if negb (bt_running s.1) then (Ok (), s)
  else
    let s := stop_bridge (set_running false s.1, s.2) in
    (Ok (), (bump (set_up false) s.1, log "waddlebot module stopped" s.2)).

Definition status (s : St) : Status * St :=
  let state := if bt_running s.1 then Running else Stopped in
  let '(probe, s) := probe_auth s in
  let detail := <["hub" := mc_base_url (bt_config s.1)]>
    (<["community" := pretty (bt_community_id s.1)]>
      (<["auth" := auth_as_str (pb_state probe)]> (∅ : gmap string string))) in
  (mkStatus state detail, s).

Definition health (s : St) : HealthReport * St :=
  let '(probe, s) := probe_auth s in
  let '(level, message) :=
    match pb_state probe with
    | AuthOk => (LHealthy, "OK")
    | AuthUnauthorized => (LDegraded, "hub rejected credentials")
    | AuthUnreachable => (LDegraded, "hub unreachable")
    end in
  (mkHealthReport level message (pb_checked_at probe), s).
End Module_.
