(* ===== verification/BotCommands.v ===== *)
(** * The bot module's commands (penguin-module-waddlebot/src/commands.rs)

    The command tree and its handlers.  Nearly every handler makes one use of
    the client and renders its answer; [hub_command] is that shape.  A handler
    gives back a result and the new state; [dispatch] routes a path to it. *)
From S2P Require Import Prelude.
From S2P Require Import Text.
From S2P Require Import Json.
From S2P Require Import Mask.
From S2P Require Import Sdk.
From S2P Require Import Bridge.
From S2P Require Import BotClient.
From S2P Require Import BotModule.

(** ** The command tree *)

Definition json_flag : FlagSpec := mkFlagSpec "json" "" "Output as JSON" "false" FTBool.
Definition string_flag (name usage : string) : FlagSpec := mkFlagSpec name "" usage "" FTString.
Definition bool_flag (name usage : string) : FlagSpec := mkFlagSpec name "" usage "false" FTBool.
Definition int_flag (name usage : string) : FlagSpec := mkFlagSpec name "" usage "0" FTInt.

(** A command with subcommands, and one with arguments. *)
Definition group (name short : string) (subcommands : list CommandSpec) : CommandSpec :=
  mkCommandSpec name name short [] subcommands false 0 0.
Definition leaf (name use_line short : string) (flags : list FlagSpec) (min_args max_args : Z) : CommandSpec :=
  mkCommandSpec name use_line short (json_flag :: flags) [] false min_args max_args.
Definition in_tray (c : CommandSpec) : CommandSpec :=
  mkCommandSpec (cs_name c) (cs_use_line c) (cs_short c) (cs_flags c) (cs_subcommands c) true
    (cs_min_args c) (cs_max_args c).

Definition tree_status : CommandSpec :=
  leaf "status" "status" "Show hub connectivity, auth, and active community" [] 0 0.

Definition tree_community : CommandSpec :=
  group "community" "Manage the active community"
    [leaf "list" "list" "List communities this token can act on" [] 0 0;
     leaf "use" "use <id>" "Switch the active community" [] 1 1].

Definition tree_music : CommandSpec :=
  group "music" "Manage community music settings, providers, and radio stations"
    [leaf "settings" "settings" "Show music settings, or update the fields given as flags"
       [string_flag "default-provider" "Default music provider"; bool_flag "autoplay" "Enable autoplay";
        int_flag "volume-limit" "Maximum volume level";
        bool_flag "require-dj-approval" "Require DJ approval for requests";
        bool_flag "active" "Enable the music module";
        string_flag "allowed-genres" "Comma-separated allowed genres";
        string_flag "blocked-artists" "Comma-separated blocked artists"] 0 0;
     group "provider" "Manage connected music providers"
       [leaf "list" "list" "List connected music providers" [] 0 0;
        leaf "disconnect" "disconnect <name>" "Disconnect a music provider" [] 1 1];
     group "station" "Manage the community's radio stations"
       [leaf "list" "list" "List radio stations"
          [int_flag "page" "Page number"; int_flag "limit" "Results per page"] 0 0;
        leaf "add" "add" "Add a radio station"
          [string_flag "name" "Station name (required)"; string_flag "url" "Stream URL (required)";
           string_flag "description" "Station description"; string_flag "genre" "Station genre";
           bool_flag "active" "Mark the station active"] 0 0;
        leaf "remove" "remove <id>" "Remove a radio station" [] 1 1]].

Definition tree_browser_sources : CommandSpec :=
  group "browser-sources" "Manage OBS browser-source overlay URLs"
    [leaf "list" "list" "List browser-source URLs" [] 0 0;
     in_tray (leaf "regenerate" "regenerate" "Regenerate browser-source URL tokens"
       [string_flag "source-type" "Regenerate only this source type; omit for all"] 0 0)].

Definition tree_token : CommandSpec :=
  group "token" "Manage Community Access Tokens (CATs)"
    [leaf "list" "list" "List issued CATs (never their secret values)" [] 0 0;
     leaf "scopes" "scopes" "List permission scopes a CAT can be minted with" [] 0 0;
     leaf "create" "create <name>" "Mint a new CAT (shown once, masked)"
       [string_flag "scopes" "Comma-separated permission scopes"; string_flag "expires-at" "ISO-8601 expiry"] 1 1;
     leaf "revoke" "revoke <id>" "Revoke a CAT" [] 1 1;
     leaf "rotate" "rotate <id>" "Revoke a CAT and mint its replacement (shown once, masked)"
       [string_flag "name" "Name for the replacement CAT (required)";
        string_flag "scopes" "Comma-separated permission scopes"; string_flag "expires-at" "ISO-8601 expiry"] 1 1].

Definition tree_announce : CommandSpec :=
  group "announce" "Manage community announcements"
    [leaf "list" "list" "List announcements" [string_flag "status" "Filter by draft/published/archived"] 0 0;
     leaf "show" "show <id>" "Show one announcement" [] 1 1;
     leaf "create" "create" "Create an announcement"
       [string_flag "title" "Title (required)"; string_flag "content" "Content (required)";
        string_flag "type" "Announcement type"; bool_flag "pinned" "Pin the announcement";
        string_flag "status" "Initial status"] 0 0;
     in_tray (leaf "publish" "publish <id>" "Publish a draft announcement" [] 1 1)].

Definition tree_workflow : CommandSpec :=
  group "workflow" "Manage community workflows (opaque JSON passthrough)"
    [leaf "list" "list" "List workflows" [] 0 0;
     leaf "show" "show <id>" "Show one workflow" [] 1 1;
     leaf "create" "create <payload-json>" "Create a workflow from a raw JSON payload" [] 1 1;
     leaf "update" "update <id> <payload-json>" "Update a workflow with a raw JSON payload" [] 2 2;
     leaf "delete" "delete <id>" "Delete a workflow" [] 1 1].

Definition tree_loyalty : CommandSpec :=
  group "loyalty" "Manage the community's loyalty program (opaque JSON passthrough)"
    [leaf "config" "config [payload-json]" "Show, or update with a raw JSON payload, the loyalty config" [] 0 1;
     leaf "adjust" "adjust <user_id> <payload-json>"
       "Adjust a user's loyalty balance with a raw JSON payload" [] 2 2].

Definition command_tree : list CommandSpec :=
  [tree_status; tree_community; tree_music; tree_browser_sources; tree_token; tree_announce;
   tree_workflow; tree_loyalty].

(** ** Results *)

Class Render := {
  json_to_string : Value → string;
  json_to_string_pretty : Value → string;
}.

Definition usage_result (message : string) : CommandResult := mkCommandResult message [] 1.
Definition unknown_command (name : string) : CommandResult :=
  usage_result ("waddlebot: unknown command '" +:+ name +:+ "'").
Definition unknown_subcommand (name : string) : CommandResult := usage_result ("Unknown subcommand: " +:+ name).
Definition hub_error (context : string) (err : Client.WaddlebotError) : CommandResult :=
  usage_result (context +:+ ": " +:+ Client.WaddlebotError_display err).

Definition json_requested (flags : gmap string string) : bool := bool_decide (flags !! "json" = Some "true").

Definition comma : Ascii.ascii := Ascii.ascii_of_nat 44.

Definition csv (raw : string) : list string :=
  filter (λ s, s ≠ "") (map trim (split_on comma raw)).

Definition parse_id (raw : string) : option Z := parse_i64 raw.

Definition bool_text (b : bool) : string := if b then "true" else "false".
Definition lines_or (empty : string) (l : list string) : string :=
  match l with [] => empty | _ => join newline l end.

Section Commands.
  Context {Codec : BotCodec} {R : Render}.

Abbreviation St := (Bot * World)%type.
Abbreviation Handler := (St → CommandResult * St).

Definition success (as_json : bool) (text : string) (value : Value) : CommandResult :=
  mkCommandResult (if as_json then json_to_string_pretty value else text)
    (String.list_byte_of_string (json_to_string value)) 0.

Definition say (r : CommandResult) : Handler := λ s, (r, s).

(** One use of the client in force, and its rendering as text and JSON. *)
Definition hub_command {A} (as_json : bool) (context : string)
    (m : Client.WaddlebotClient → eff Client.HubWorld Client.WaddlebotError A) (render : A → string * Value) :
    Handler := λ s,
  let '(r, s) := call (m (bt_client s.1)) s in
  (match r with
   | Ok a => let '(text, value) := render a in success as_json text value
   | Err err => hub_error context err
   end, s).

Definition message_json (message : string) : string * Value := (message, JObject [("message", JString message)]).

(** An opaque answer is shown as JSON either way. *)
Definition opaque (value : Value) : string * Value := (json_to_string_pretty value, value).

(** ** status *)

Definition sorted_details (detail : gmap string string) : list (string * string) :=
  sort_by (λ x y, String.leb x.1 y.1) (map_to_list detail).

Definition format_status_text (st : Status) : string :=
  "State: " +:+ ModuleStateM.as_str (st_state st) +:+ String newline
    (foldr (λ kv t, "  " +:+ kv.1 +:+ ": " +:+ kv.2 +:+ String newline t) "" (sorted_details (st_detail st))).

Definition cmd_status (as_json : bool) : Handler := λ s,
  let '(st, s) := status s in
  if as_json then
    let json := json_to_string
      (JObject [("state", JString (ModuleStateM.as_str (st_state st)));
                ("detail", JObject (map (λ kv, (kv.1, JString kv.2)) (sorted_details (st_detail st))))]) in
    (mkCommandResult json (String.list_byte_of_string json) 0, s)
  else (mkCommandResult (format_status_text st) [] 0, s).

(** ** community *)

Definition community_list (as_json : bool) : Handler :=
  hub_command as_json "list communities failed" Client.list_my_communities (λ communities,
    (lines_or "no communities"
       (map (λ c, pretty (Client.cm_id c) +:+ " " +:+ Client.cm_display_name c +:+ " role=" +:+ Client.cm_role c)
          communities),
     JArray (map (λ c, JObject [("id", JInt (Client.cm_id c)); ("name", JString (Client.cm_name c));
                                ("display_name", JString (Client.cm_display_name c));
                                ("role", JString (Client.cm_role c));
                                ("member_count", JInt (Client.cm_member_count c))]) communities))).

Definition community_use (args : list string) (as_json : bool) : Handler := λ s,
  match head args with
  | None => (usage_result "Usage: waddlebot community use <id>", s)
  | Some raw_id =>
      match parse_id raw_id with
      | None => (usage_result ("invalid community id: " +:+ raw_id), s)
      | Some id =>
          let '(r, s) := set_community id s in
          (match r with
           | Ok _ => success as_json ("active community set to " +:+ pretty id) (JObject [("community_id", JInt id)])
           | Err err => usage_result ("failed to switch community: " +:+ me_message err)
           end, s)
      end
  end.

Definition dispatch_community (path args : list string) (as_json : bool) : Handler :=
  match path !! 1 with
  | Some sub =>
      if decide (sub = "list") then community_list as_json
      else if decide (sub = "use") then community_use args as_json
      else say (unknown_subcommand sub)
  | None => say (usage_result "Usage: waddlebot community {list|use <id>}")
  end.

(** A handler of one numeric argument. *)
Definition with_id (usage what : string) (args : list string) (k : Z → Handler) : Handler :=
  match head args with
  | None => say (usage_result usage)
  | Some raw_id =>
      match parse_id raw_id with
      | None => say (usage_result ("invalid " +:+ what +:+ " id: " +:+ raw_id))
      | Some id => k id
      end
  end.

(** ** music *)

Definition music_settings_json (s : Client.MusicSettings) : Value :=
  JObject [("default_provider", of_option JString (Client.ms_default_provider s));
           ("autoplay_enabled", JBool (Client.ms_autoplay_enabled s));
           ("volume_limit", JInt (Client.ms_volume_limit s));
           ("allowed_genres", Client.strings_json (Client.ms_allowed_genres s));
           ("blocked_artists", Client.strings_json (Client.ms_blocked_artists s));
           ("require_dj_approval", JBool (Client.ms_require_dj_approval s));
           ("is_active", JBool (Client.ms_is_active s))].

Definition format_music_settings (s : Client.MusicSettings) : string :=
  "default_provider=" +:+ default "none" (Client.ms_default_provider s) +:+
  " autoplay=" +:+ bool_text (Client.ms_autoplay_enabled s) +:+
  " volume_limit=" +:+ pretty (Client.ms_volume_limit s) +:+
  " dj_approval=" +:+ bool_text (Client.ms_require_dj_approval s) +:+
  " active=" +:+ bool_text (Client.ms_is_active s).

Definition music_update (flags : gmap string string) : MusicSettingsUpdate :=
  mkMusicUpdate (flags !! "default-provider") (flags !! "autoplay" ≫= parse_bool)
    (flags !! "volume-limit" ≫= parse_i64) (csv <$> flags !! "allowed-genres")
    (csv <$> flags !! "blocked-artists") (flags !! "require-dj-approval" ≫= parse_bool)
    (flags !! "active" ≫= parse_bool).

Definition music_settings (flags : gmap string string) (as_json : bool) : Handler :=
  let update_requested := negb (bool_decide (delete "json" flags = ∅)) in
  hub_command as_json "music settings failed"
    (λ client, if update_requested then Client.update_music_settings client (music_update flags)
               else Client.get_music_settings client)
    (λ settings, (format_music_settings settings, music_settings_json settings)).

Definition music_provider_list (as_json : bool) : Handler :=
  hub_command as_json "list music providers failed" Client.list_music_providers (λ providers,
    (lines_or "no music providers"
       (map (λ p, Client.mp_provider_name p +:+ " connected=" +:+ bool_text (Client.mp_is_connected p) +:+
                  " active=" +:+ bool_text (Client.mp_is_active p)) providers),
     JArray (map (λ p, JObject [("provider_name", JString (Client.mp_provider_name p));
                                ("is_connected", JBool (Client.mp_is_connected p));
                                ("is_active", JBool (Client.mp_is_active p))]) providers))).

Definition music_provider_disconnect (args : list string) (as_json : bool) : Handler :=
  match head args with
  | None => say (usage_result "Usage: waddlebot music provider disconnect <name>")
  | Some name =>
      hub_command as_json "disconnect music provider failed"
        (λ client, Client.disconnect_music_provider client name) message_json
  end.

Definition dispatch_music_provider (path args : list string) (as_json : bool) : Handler :=
  match path !! 2 with
  | Some sub =>
      if decide (sub = "list") then music_provider_list as_json
      else if decide (sub = "disconnect") then music_provider_disconnect args as_json
      else say (unknown_subcommand sub)
  | None => say (usage_result "Usage: waddlebot music provider {list|disconnect <name>}")
  end.

Definition station_json (s : Client.RadioStation) : Value :=
  JObject [("id", JInt (Client.rs_id s)); ("name", JString (Client.rs_name s));
           ("url", JString (Client.rs_url s)); ("genre", of_option JString (Client.rs_genre s));
           ("is_active", JBool (Client.rs_is_active s))].

(** [str::parse::<u32>().ok()] *)
Definition parse_u32_opt (v : string) : option Z := match parse_u32 v with Ok n => Some n | Err _ => None end.

Definition music_station_list (flags : gmap string string) (as_json : bool) : Handler :=
  hub_command as_json "list radio stations failed"
    (λ client, Client.list_radio_stations client (flags !! "page" ≫= parse_u32_opt) (flags !! "limit" ≫= parse_u32_opt))
    (λ list,
      let p := Client.sl_pagination list in
      (lines_or "no radio stations"
         (map (λ s, pretty (Client.rs_id s) +:+ " " +:+ Client.rs_name s +:+ " (" +:+ Client.rs_url s +:+ ")")
            (Client.sl_stations list)),
       JObject [("pagination", JObject [("page", JInt (Client.sp_page p)); ("limit", JInt (Client.sp_limit p));
                                        ("total", JInt (Client.sp_total p)); ("pages", JInt (Client.sp_pages p))]);
                ("stations", JArray (map station_json (Client.sl_stations list)))])).

Definition station_add_usage : string :=
  "Usage: waddlebot music station add --name N --url U [--description D] [--genre G] [--active]".

Definition music_station_add (flags : gmap string string) (as_json : bool) : Handler :=
  match flags !! "name", flags !! "url" with
  | Some name, Some url =>
      let station := Client.mkNewRadioStation name url (flags !! "description") (flags !! "genre")
                       ((λ v, bool_decide (v = "true")) <$> flags !! "active") in
      hub_command as_json "add radio station failed" (λ client, Client.add_radio_station client station)
        (λ s, ("radio station created: " +:+ pretty (Client.rs_id s) +:+ " (" +:+ Client.rs_name s +:+ ")",
               station_json s))
  | _, _ => say (usage_result station_add_usage)
  end.

Definition music_station_remove (args : list string) (as_json : bool) : Handler :=
  with_id "Usage: waddlebot music station remove <id>" "station" args (λ id,
    hub_command as_json "remove radio station failed" (λ client, Client.remove_radio_station client id) message_json).

Definition dispatch_music_station (path : list string) (flags : gmap string string) (args : list string)
    (as_json : bool) : Handler :=
  match path !! 2 with
  | Some sub =>
      if decide (sub = "list") then music_station_list flags as_json
      else if decide (sub = "add") then music_station_add flags as_json
      else if decide (sub = "remove") then music_station_remove args as_json
      else say (unknown_subcommand sub)
  | None => say (usage_result "Usage: waddlebot music station {list|add|remove <id>}")
  end.

Definition dispatch_music (path : list string) (flags : gmap string string) (args : list string)
    (as_json : bool) : Handler :=
  match path !! 1 with
  | Some sub =>
      if decide (sub = "settings") then music_settings flags as_json
      else if decide (sub = "provider") then dispatch_music_provider path args as_json
      else if decide (sub = "station") then dispatch_music_station path flags args as_json
      else say (unknown_subcommand sub)
  | None => say (usage_result "Usage: waddlebot music {settings|provider|station}")
  end.

(** ** browser-sources *)

Definition browser_sources_list (as_json : bool) : Handler :=
  hub_command as_json "list browser sources failed" Client.list_browser_sources (λ sources,
    (lines_or "no browser sources"
       (map (λ s, Client.bs_source_type s +:+ ": " +:+ Client.bs_url s +:+ " (active=" +:+
                  bool_text (Client.bs_is_active s) +:+ ")") sources),
     JArray (map (λ s, JObject [("source_type", JString (Client.bs_source_type s)); ("url", JString (Client.bs_url s));
                                ("token", JString (Client.bs_token s)); ("is_active", JBool (Client.bs_is_active s))])
               sources))).

Definition browser_sources_regenerate (flags : gmap string string) (as_json : bool) : Handler :=
  hub_command as_json "regenerate browser sources failed"
    (λ client, Client.regenerate_browser_sources client (flags !! "source-type")) message_json.

Definition dispatch_browser_sources (path : list string) (flags : gmap string string) (as_json : bool) : Handler :=
  match path !! 1 with
  | Some sub =>
      if decide (sub = "list") then browser_sources_list as_json
      else if decide (sub = "regenerate") then browser_sources_regenerate flags as_json
      else say (unknown_subcommand sub)
  | None => say (usage_result "Usage: waddlebot browser-sources {list|regenerate}")
  end.

(** ** token *)

Definition token_list (as_json : bool) : Handler :=
  hub_command as_json "list tokens failed" Client.list_cats (λ list,
    let quota := pretty (Client.cl_quota list) in
    let used := pretty (Client.cl_used list) in
    (match Client.cl_tokens list with
     | [] => "no tokens (quota " +:+ quota +:+ ", used " +:+ used +:+ ")"
     | tokens =>
         join newline
           (map (λ t, pretty (Client.ct_id t) +:+ " " +:+ Client.ct_name t +:+ " scopes=[" +:+
                      join comma (Client.ct_scopes t) +:+ "] revoked=" +:+ bool_text (Client.ct_is_revoked t)) tokens
            ++ ["quota " +:+ quota +:+ " used " +:+ used])
     end,
     JObject [("quota", JInt (Client.cl_quota list)); ("used", JInt (Client.cl_used list));
              ("tokens", JArray (map (λ t, JObject [("id", JInt (Client.ct_id t)); ("name", JString (Client.ct_name t));
                                                    ("scopes", Client.strings_json (Client.ct_scopes t));
                                                    ("is_revoked", JBool (Client.ct_is_revoked t));
                                                    ("expires_at", of_option JString (Client.ct_expires_at t))])
                                   (Client.cl_tokens list)))])).

Definition token_scopes (as_json : bool) : Handler :=
  hub_command as_json "list scopes failed" Client.list_scopes (λ scopes,
    (lines_or "no scopes" (map (λ s, Client.ps_scope_key s +:+ " - " +:+ Client.ps_display_name s) scopes),
     JArray (map (λ s, JObject [("scope_key", JString (Client.ps_scope_key s));
                                ("display_name", JString (Client.ps_display_name s));
                                ("category", of_option JString (Client.ps_category s))]) scopes))).

Definition scopes_flag (flags : gmap string string) : list string := default [] (csv <$> flags !! "scopes").

(** The token is masked in both renderings. *)
Definition new_token_shown (what : string) (new_token : Client.NewToken) : string * Value :=
  let masked := mask_secret (Client.nt_token new_token) in
  ("token " +:+ what +:+ ": " +:+ masked +:+ " (" +:+ Client.nt_message new_token +:+ ")",
   JObject [("token", JString masked); ("message", JString (Client.nt_message new_token))]).

Definition token_create (flags : gmap string string) (args : list string) (as_json : bool) : Handler :=
  match head args with
  | None => say (usage_result "Usage: waddlebot token create <name> [--scopes a,b] [--expires-at TIME]")
  | Some name =>
      hub_command as_json "create token failed"
        (λ client, Client.create_cat client name (scopes_flag flags) (flags !! "expires-at"))
        (new_token_shown "created")
  end.

Definition token_revoke (args : list string) (as_json : bool) : Handler :=
  with_id "Usage: waddlebot token revoke <id>" "token" args (λ id,
    hub_command as_json "revoke token failed" (λ client, Client.revoke_cat client id) message_json).

Definition token_rotate (flags : gmap string string) (args : list string) (as_json : bool) : Handler :=
  with_id "Usage: waddlebot token rotate <id> --name NEW_NAME" "token" args (λ id,
    match flags !! "name" with
    | None =>
        say (usage_result
          "Usage: waddlebot token rotate <id> --name NEW_NAME [--scopes a,b] [--expires-at TIME]")
    | Some name =>
        hub_command as_json "rotate token failed"
          (λ client, Client.rotate_cat client id name (scopes_flag flags) (flags !! "expires-at"))
          (new_token_shown "rotated")
    end).

Definition dispatch_token (path : list string) (flags : gmap string string) (args : list string)
    (as_json : bool) : Handler :=
  match path !! 1 with
  | Some sub =>
      if decide (sub = "list") then token_list as_json
      else if decide (sub = "scopes") then token_scopes as_json
      else if decide (sub = "create") then token_create flags args as_json
      else if decide (sub = "revoke") then token_revoke args as_json
      else if decide (sub = "rotate") then token_rotate flags args as_json
      else say (unknown_subcommand sub)
  | None =>
      say (usage_result "Usage: waddlebot token {list|scopes|create <name>|revoke <id>|rotate <id>}")
  end.

(** ** announce *)

Definition announcement_json (a : Client.Announcement) : Value :=
  JObject [("id", JInt (Client.an_id a)); ("title", JString (Client.an_title a));
           ("content", JString (Client.an_content a)); ("status", JString (Client.an_status a));
           ("announcement_type", JString (Client.an_announcement_type a));
           ("is_pinned", JBool (Client.an_is_pinned a));
           ("published_at", of_option JString (Client.an_published_at a));
           ("archived_at", of_option JString (Client.an_archived_at a))].

Definition announce_list (flags : gmap string string) (as_json : bool) : Handler :=
  hub_command as_json "list announcements failed"
    (λ client, Client.list_announcements client (flags !! "status"))
    (λ list,
      let p := Client.al_pagination list in
      (lines_or "no announcements"
         (map (λ a, pretty (Client.an_id a) +:+ " [" +:+ Client.an_status a +:+ "] " +:+ Client.an_title a +:+
                    " (pinned=" +:+ bool_text (Client.an_is_pinned a) +:+ ")") (Client.al_announcements list)),
       JObject [("pagination", JObject [("page", JInt (Client.ag_page p)); ("limit", JInt (Client.ag_limit p));
                                        ("total", JInt (Client.ag_total p));
                                        ("total_pages", JInt (Client.ag_total_pages p))]);
                ("announcements", JArray (map announcement_json (Client.al_announcements list)))])).

Definition announce_show (args : list string) (as_json : bool) : Handler :=
  with_id "Usage: waddlebot announce show <id>" "announcement" args (λ id,
    hub_command as_json "show announcement failed" (λ client, Client.get_announcement client id)
      (λ a, (pretty (Client.an_id a) +:+ ": " +:+ Client.an_title a +:+ String newline (Client.an_content a),
             announcement_json a))).

Definition announce_create (flags : gmap string string) (as_json : bool) : Handler :=
  match flags !! "title", flags !! "content" with
  | Some title, Some content =>
      let new_announcement := Client.mkNewAnnouncement title content (flags !! "type")
                                ((λ v, bool_decide (v = "true")) <$> flags !! "pinned") (flags !! "status") in
      hub_command as_json "create announcement failed"
        (λ client, Client.create_announcement client new_announcement)
        (λ a, ("announcement created: " +:+ pretty (Client.an_id a) +:+ " (" +:+ Client.an_title a +:+ ")",
               announcement_json a))
  | _, _ =>
      say (usage_result
        "Usage: waddlebot announce create --title T --content C [--type TYPE] [--pinned] [--status STATUS]")
  end.

Definition announce_publish (args : list string) (as_json : bool) : Handler :=
  with_id "Usage: waddlebot announce publish <id>" "announcement" args (λ id,
    hub_command as_json "publish announcement failed" (λ client, Client.publish_announcement client id)
      (λ a, ("announcement " +:+ pretty (Client.an_id a) +:+ " published", announcement_json a))).

Definition dispatch_announce (path : list string) (flags : gmap string string) (args : list string)
    (as_json : bool) : Handler :=
  match path !! 1 with
  | Some sub =>
      if decide (sub = "list") then announce_list flags as_json
      else if decide (sub = "show") then announce_show args as_json
      else if decide (sub = "create") then announce_create flags as_json
      else if decide (sub = "publish") then announce_publish args as_json
      else say (unknown_subcommand sub)
  | None => say (usage_result "Usage: waddlebot announce {list|show <id>|create|publish <id>}")
  end.

(** ** workflow and loyalty *)

Definition parse_json_payload (raw : string) : result Value CommandResult :=
  map_err (λ err, usage_result ("invalid JSON payload: " +:+ err)) (Client.json_from_slice raw).

Definition with_payload (raw : string) (k : Value → Handler) : Handler :=
  match parse_json_payload raw with Ok payload => k payload | Err result => say result end.

Definition workflow_list (as_json : bool) : Handler :=
  hub_command as_json "list workflows failed" Client.list_workflows opaque.

Definition workflow_show (args : list string) (as_json : bool) : Handler :=
  match head args with
  | None => say (usage_result "Usage: waddlebot workflow show <id>")
  | Some id => hub_command as_json "show workflow failed" (λ client, Client.get_workflow client id) opaque
  end.

Definition workflow_create (args : list string) (as_json : bool) : Handler :=
  match head args with
  | None => say (usage_result "Usage: waddlebot workflow create <payload-json>")
  | Some raw_payload =>
      with_payload raw_payload (λ payload,
        hub_command as_json "create workflow failed" (λ client, Client.create_workflow client payload) opaque)
  end.

Definition workflow_update (args : list string) (as_json : bool) : Handler :=
  match args with
  | id :: raw_payload :: _ =>
      with_payload raw_payload (λ payload,
        hub_command as_json "update workflow failed" (λ client, Client.update_workflow client id payload) opaque)
  | _ => say (usage_result "Usage: waddlebot workflow update <id> <payload-json>")
  end.

Definition workflow_delete (args : list string) (as_json : bool) : Handler :=
  match head args with
  | None => say (usage_result "Usage: waddlebot workflow delete <id>")
  | Some id => hub_command as_json "delete workflow failed" (λ client, Client.delete_workflow client id) opaque
  end.

Definition dispatch_workflow (path args : list string) (as_json : bool) : Handler :=
  match path !! 1 with
  | Some sub =>
      if decide (sub = "list") then workflow_list as_json
      else if decide (sub = "show") then workflow_show args as_json
      else if decide (sub = "create") then workflow_create args as_json
      else if decide (sub = "update") then workflow_update args as_json
      else if decide (sub = "delete") then workflow_delete args as_json
      else say (unknown_subcommand sub)
  | None =>
      say (usage_result
        "Usage: waddlebot workflow {list|show <id>|create <json>|update <id> <json>|delete <id>}")
  end.

Definition loyalty_config (args : list string) (as_json : bool) : Handler :=
  match head args with
  | Some raw_payload =>
      with_payload raw_payload (λ payload,
        hub_command as_json "update loyalty config failed"
          (λ client, Client.update_loyalty_config client payload) opaque)
  | None => hub_command as_json "get loyalty config failed" Client.get_loyalty_config opaque
  end.

Definition loyalty_adjust (args : list string) (as_json : bool) : Handler :=
  match args with
  | raw_user_id :: raw_payload :: _ =>
      match parse_id raw_user_id with
      | None => say (usage_result ("invalid user id: " +:+ raw_user_id))
      | Some user_id =>
          with_payload raw_payload (λ payload,
            hub_command as_json "adjust loyalty balance failed"
              (λ client, Client.adjust_loyalty_balance client user_id payload) opaque)
      end
  | _ => say (usage_result "Usage: waddlebot loyalty adjust <user_id> <payload-json>")
  end.

Definition dispatch_loyalty (path args : list string) (as_json : bool) : Handler :=
  match path !! 1 with
  | Some sub =>
      if decide (sub = "config") then loyalty_config args as_json
      else if decide (sub = "adjust") then loyalty_adjust args as_json
      else say (unknown_subcommand sub)
  | None =>
      say (usage_result "Usage: waddlebot loyalty {config [payload-json]|adjust <user_id> <payload-json>}")
  end.

(** ** Dispatch *)

Definition dispatch (path : list string) (flags : gmap string string) (args : list string) : Handler :=
  match head path with
  | None => say (usage_result "waddlebot: no command specified")
  | Some command =>
      let as_json := json_requested flags in
      if decide (command = "status") then cmd_status as_json
      else if decide (command = "community") then dispatch_community path args as_json
      else if decide (command = "music") then dispatch_music path flags args as_json
      else if decide (command = "browser-sources") then dispatch_browser_sources path flags as_json
      else if decide (command = "token") then dispatch_token path flags args as_json
      else if decide (command = "announce") then dispatch_announce path flags args as_json
      else if decide (command = "workflow") then dispatch_workflow path args as_json
      else if decide (command = "loyalty") then dispatch_loyalty path args as_json
      else say (unknown_command command)
  end.
End Commands.
