(* ===== verification/DesktopService.v ===== *)
(** * The desktop client's calls (penguin-daemon service.rs and supervisor.rs)

    The session-proxy and bridge-action services, which share the daemon's
    control socket: version check, the supervisor's check that the bot module
    is loaded, the registry through which the module is reached, the call, and
    the mapping of errors.  A proxied request is started here and runs on in
    [SessionProxy]; [proxy_reply] is what is made of its end. *)
From S2P Require Import Prelude.
From S2P Require Import Text.
From S2P Require Import Json.
From S2P Require Import Mask.
From S2P Require Import Sdk.
From S2P Require Import Supervisor.
From S2P Require Import Service.
From S2P Require Import Doh.
From S2P Require Import SessionProxy.
From S2P Require Import BridgeAction.

Section Desktop.
  Context {W : Type} {Crates : ProxyCrates} {Codec : ActionCodec} (debug : string → string).

(** The supervisor, the proxies there are, the two registries, and the outside
    of bridge actions. *)
Record Desk := mkDesk {
  de_sup : Sup W;
  de_proxies : list System;
  de_session_registry : option nat;
  de_action_registry : option BridgeActionExecutor;
  de_world : BridgeAction.World;
}.

Definition set_proxies (l : list System) (d : Desk) : Desk :=
  mkDesk (de_sup d) l (de_session_registry d) (de_action_registry d) (de_world d).
Definition set_world (w : BridgeAction.World) (d : Desk) : Desk :=
  mkDesk (de_sup d) (de_proxies d) (de_session_registry d) (de_action_registry d) w.

(** ** The supervisor's part *)

Definition waddlebot : string := "waddlebot".

Definition module_loaded (module_name : string) (d : Desk) : result unit SupervisorError :=
  if negb (bool_decide (module_name = waddlebot)) then Err (UnknownModule module_name)
  else
    match loaded (de_sup d) !! waddlebot with
    | Some _ => Ok ()
    | None => Err (NotLoaded waddlebot)
    end.

(** The registered proxy of a loaded module. *)
Definition registered_proxy (module_name : string) (d : Desk) : result (nat * System) SupervisorError :=
  let? _ := module_loaded module_name d in
  ok_or (i ← de_session_registry d; s ← de_proxies d !! i; Some (i, s)) (NotLoaded waddlebot).

Definition proxy_failed (e : SessionProxyError) : SupervisorError :=
  ModuleFailed (mkModuleError (SessionProxyError_display e)).

Definition set_user_session (module_name access_token : string) (refresh_token : option string)
    (hub_base_url : string) : Prelude.eff Desk SupervisorError unit := λ d,
  match registered_proxy module_name d with
  | Err e => (Err e, d)
  | Ok (i, s) =>
      (map_err proxy_failed (set_session access_token refresh_token hub_base_url (sy_proxy s)).1,
       set_proxies (<[i := perform s (SetSession access_token refresh_token hub_base_url)]> (de_proxies d)) d)
  end.

(** The request is given to the proxy: which proxy and which of its requests. *)
Definition proxy_request (module_name : string) (req : HttpRequest) :
    Prelude.eff Desk SupervisorError (nat * nat) := λ d,
  match registered_proxy module_name d with
  | Err e => (Err e, d)
  | Ok (i, s) =>
      (Ok (i, length (sy_tasks s)), set_proxies (<[i := perform s (Forward req)]> (de_proxies d)) d)
  end.

Definition execute_bridge_action (module_name : string) (req : BridgeActionRequest) :
    Prelude.eff Desk SupervisorError BridgeActionResponse := λ d,
  match (let? _ := module_loaded module_name d in ok_or (de_action_registry d) (NotLoaded waddlebot)) with
  | Err e => (Err e, d)
  | Ok executor =>
      let '(r, w) := execute executor req (de_world d) in
      (map_err (λ e, ModuleFailed (mkModuleError (BridgeActionError_display e))) r, set_world w d)
  end.

(** ** The services' part *)

Definition proxy_error_to_status (err : SupervisorError) : GrpcStatus :=
  match err with
  | NotLoaded _ => mkGrpcStatus Unavailable "waddlebot module not loaded"
  | UnknownModule _ => mkGrpcStatus NotFound "waddlebot module not found"
  | ModuleFailed e =>
      if contains "no active session" (me_message e)
      then mkGrpcStatus FailedPrecondition "user session not set"
      else mkGrpcStatus InternalError ("proxy error: " +:+ me_message e)
  | _ => mkGrpcStatus InternalError ("proxy error: " +:+ SupervisorError_display err)
  end.

Definition bridge_action_error_to_status (err : SupervisorError) : GrpcStatus :=
  match err with
  | NotLoaded _ => mkGrpcStatus Unavailable "waddlebot module not loaded"
  | UnknownModule _ => mkGrpcStatus NotFound "waddlebot module not found"
  | ModuleFailed e => mkGrpcStatus InternalError ("bridge action error: " +:+ me_message e)
  | _ => mkGrpcStatus InternalError ("bridge action error: " +:+ SupervisorError_display err)
  end.

Definition answered {A} (f : SupervisorError → GrpcStatus) (m : Prelude.eff Desk SupervisorError A) :
    Prelude.eff Desk GrpcStatus A := λ d, let '(r, d) := m d in (map_err f r, d).

Definition set_user_session_rpc (api_version access_token refresh_token hub_base_url : string) :
    Prelude.eff Desk GrpcStatus unit :=
  let! _ := pure (check_api_version debug api_version) in
  answered proxy_error_to_status
    (set_user_session waddlebot access_token (if decide (refresh_token = "") then None else Some refresh_token)
       hub_base_url).

Definition proxy_request_rpc (api_version : string) (req : HttpRequest) : Prelude.eff Desk GrpcStatus (nat * nat) :=
  let! _ := pure (check_api_version debug api_version) in
  answered proxy_error_to_status (proxy_request waddlebot req).

(** The wire's status is a u32. *)
Definition proxy_reply (r : result HttpResponse SessionProxyError) : result HttpResponse GrpcStatus :=
  match r with
  | Ok resp => Ok (mkHttpResponse (wrap_u32 (hp_status resp)) (hp_headers resp) (hp_body resp))
  | Err e => Err (proxy_error_to_status (proxy_failed e))
  end.

Definition execute_bridge_action_rpc (api_version module_name : string) (req : BridgeActionRequest) :
    Prelude.eff Desk GrpcStatus BridgeActionResponse :=
  let! _ := pure (check_api_version debug api_version) in
  answered bridge_action_error_to_status (execute_bridge_action module_name req).

(** ** Everything the services and the proxies do *)

Inductive DeskAction :=
| RpcSetSession (api_version access_token refresh_token hub_base_url : string)
| RpcProxy (api_version : string) (req : HttpRequest)
| RpcAction (api_version module_name : string) (req : BridgeActionRequest)
| HubAnswers (proxy task : nat) (a : Answer)
| HubRedirects (proxy task : nat) (location : string)
| TaskResumes (proxy task : nat)
| SupervisorSteps (s : Sup W).

Definition on_proxy (i : nat) (a : Action) (d : Desk) : Desk :=
  set_proxies (alter (λ s, perform s a) i (de_proxies d)) d.

Definition desk_step (d : Desk) (a : DeskAction) : Desk :=
  match a with
  | RpcSetSession v t r u => (set_user_session_rpc v t r u d).2
  | RpcProxy v req => (proxy_request_rpc v req d).2
  | RpcAction v n req => (execute_bridge_action_rpc v n req d).2
  | HubAnswers i k a => on_proxy i (Answer_ k a) d
  | HubRedirects i k location => on_proxy i (Redirect k location) d
  | TaskResumes i k => on_proxy i (Resume k) d
  | SupervisorSteps s => mkDesk s (de_proxies d) (de_session_registry d) (de_action_registry d) (de_world d)
  end.

Definition desk_run (actions : list DeskAction) (d : Desk) : Desk := foldl desk_step d actions.

(** ** Theorems *)

Lemma check_api_version_ok v : check_api_version debug v = Ok () ↔ v = "" ∨ v = "v1".
Proof.
  unfold check_api_version, API_VERSION. destruct (decide (v = "")) as [->|]; [by split; auto|].
  destruct (decide (v = "v1")) as [->|]; [by split; auto|]. split; [done|by intros [?|?]].
Qed.

Definition reachable_module (v module_name : string) (d : Desk) : Prop :=
  (v = "" ∨ v = "v1") ∧ module_name = waddlebot ∧ is_Some (loaded (de_sup d) !! waddlebot).

Lemma module_loaded_ok n d : module_loaded n d = Ok () ↔ n = waddlebot ∧ is_Some (loaded (de_sup d) !! waddlebot).
Proof.
  unfold module_loaded. destruct (bool_decide_reflect (n = waddlebot)) as [->|Hn]; simpl.
  - destruct (loaded (de_sup d) !! waddlebot); split; [done|done|done|intros [_ [? ?]]; done].
  - split; [done|by intros [? _]].
Qed.

(** A bridge action reaches the outside only in a request of a known
    version, naming the bot module, while that module is loaded and its bridge
    is up; then it does what the executor does, and errors keep their kind:
    unloaded is unavailable, another module not found, a refusal or failure of
    the action internal with its message.  In every other case nothing at all
    changes. *)
Theorem bridge_action_call_gated (v module_name : string) (req : BridgeActionRequest) (d : Desk) :
  let '(r, d') := execute_bridge_action_rpc v module_name req d in
  match de_action_registry d with
  | Some executor =>
      reachable_module v module_name d ∧
      (let '(x, w) := execute executor req (de_world d) in
       d' = set_world w d ∧
       r = map_err (λ e, mkGrpcStatus InternalError ("bridge action error: " +:+ BridgeActionError_display e)) x)
  | None => False
  end ∨
  d' = d ∧ ∃ status, r = Err status ∧
    (¬ (v = "" ∨ v = "v1") ∧ gs_code status = Unimplemented ∨
     (v = "" ∨ v = "v1") ∧ module_name ≠ waddlebot ∧ gs_code status = NotFound ∨
     (v = "" ∨ v = "v1") ∧ module_name = waddlebot ∧ gs_code status = Unavailable ∧
       (loaded (de_sup d) !! waddlebot = None ∨ de_action_registry d = None)).
Proof.
  unfold execute_bridge_action_rpc, eff_bind, pure.
  destruct (check_api_version debug v) as [[]|status] eqn:Ev.
  2: { right. split; [done|]. exists status. split; [done|]. left. split.
       - rewrite <- check_api_version_ok, Ev. done.
       - revert Ev. unfold check_api_version. repeat case_decide; [done|done|]. by intros [= <-]. }
  apply check_api_version_ok in Ev. unfold answered, execute_bridge_action.
  destruct (module_loaded module_name d) as [[]|e] eqn:Em; cbn [result_bind].
  - apply module_loaded_ok in Em as [-> Hl]. destruct (de_action_registry d) as [executor|] eqn:Ex; cbn [ok_or].
    + destruct (execute executor req (de_world d)) as [[x|e] w]; by left.
    + right. split; [done|]. eexists. split; [done|]. right. right. auto.
  - right. split; [done|]. eexists. split; [done|]. revert Em. unfold module_loaded.
    destruct (bool_decide_reflect (module_name = waddlebot)) as [->|Hn]; simpl.
    + destruct (loaded (de_sup d) !! waddlebot) eqn:El; [done|]. intros [= <-]. right. right. auto.
    + intros [= <-]. right. left. done.
Qed.

(** A session once set is never given up by an action of its proxy but a
    [ClearSession]. *)
Lemma perform_keeps_session s a :
  a ≠ ClearSession → is_Some (px_credentials (sy_proxy s)) → is_Some (px_credentials (sy_proxy (perform s a))).
Proof.
  intros Ha Hs. destruct a as [t r u| | |req|i loc|i a|i]; try done.
  - unfold perform, set_session. destruct (url_parse u); [|done]. by destruct (transport_allowed a).
  - unfold perform. destruct (sy_tasks s !! i) as [[req ph]|]; [|done]. by destruct (waiting ph && _).
  - unfold perform. destruct (sy_tasks s !! i) as [[req [| | |]]|]; try done.
    unfold after_refresh. destruct (receive_refresh a); [|done]. simpl. by destruct (px_credentials (sy_proxy s)).
  - unfold perform. by destruct (sy_tasks s !! i) as [[req [| | |]]|].
Qed.

(** Every action of the services touches one proxy, and never clears it. *)
Lemma desk_step_proxy d a i s :
  de_proxies d !! i = Some s →
  ∃ s', de_proxies (desk_step d a) !! i = Some s' ∧ (s' = s ∨ ∃ x, x ≠ ClearSession ∧ s' = perform s x).
Proof.
  intros Hi.
  assert (∀ j x, x ≠ ClearSession → ∀ sj, de_proxies d !! j = Some sj → ∃ s',
    (<[j := perform sj x]> (de_proxies d)) !! i = Some s' ∧ (s' = s ∨ ∃ x, x ≠ ClearSession ∧ s' = perform s x)) as Hins.
  { intros j x Hx sj Hj. destruct (decide (i = j)) as [<-|Hne].
    - exists (perform sj x). rewrite list_lookup_insert_eq by (by eapply lookup_lt_Some). rewrite Hi in Hj.
      injection Hj as <-. eauto.
    - exists s. rewrite list_lookup_insert_ne by done. auto. }
  assert (∀ j sj, registered_proxy waddlebot d = Ok (j, sj) → de_proxies d !! j = Some sj) as Hreg.
  { intros j sj. unfold registered_proxy. destruct (module_loaded waddlebot d); simpl; [|done].
    destruct (de_session_registry d) as [k|]; simpl; [|done].
    destruct (de_proxies d !! k) as [sk|] eqn:Ek; simpl; [|done]. by intros [= <- <-]. }
  assert (∀ j x, x ≠ ClearSession → ∃ s', alter (λ s, perform s x) j (de_proxies d) !! i = Some s' ∧
    (s' = s ∨ ∃ x, x ≠ ClearSession ∧ s' = perform s x)) as Halter.
  { intros j x Hx. destruct (decide (j = i)) as [->|Hne].
    - exists (perform s x). rewrite list_lookup_alter_eq, Hi. eauto.
    - exists s. rewrite list_lookup_alter_ne by done. auto. }
  destruct a as [v t r u|v req|v n req|j k a|j k loc|j k|sup]; cbn [desk_step on_proxy set_proxies de_proxies].
  - unfold set_user_session_rpc, eff_bind, pure. destruct (check_api_version debug v); [|by eauto].
    unfold answered, set_user_session. destruct (registered_proxy waddlebot d) as [[j sj]|] eqn:E; [|by eauto].
    apply Hins; [done|by apply Hreg].
  - unfold proxy_request_rpc, eff_bind, pure. destruct (check_api_version debug v); [|by eauto].
    unfold answered, proxy_request. destruct (registered_proxy waddlebot d) as [[j sj]|] eqn:E; [|by eauto].
    apply Hins; [done|by apply Hreg].
  - unfold execute_bridge_action_rpc, eff_bind, pure. destruct (check_api_version debug v); [|by eauto].
    unfold answered, execute_bridge_action. destruct (result_bind _ _) as [x|]; [|by eauto].
    destruct (execute x req (de_world d)). cbn. eauto.
  - by apply Halter.
  - by apply Halter.
  - by apply Halter.
  - eauto.
Qed.

(** A user who has signed in cannot sign out: whatever calls are made,
    answered and interleaved afterwards, and whatever the supervisor does short
    of initialising the module anew, unloading it included, the daemon holds a
    session, since nothing leads to [clear_session]. *)
Theorem desktop_session_never_ends (actions : list DeskAction) (d : Desk) (i : nat) (s : System) :
  de_proxies d !! i = Some s → is_Some (px_credentials (sy_proxy s)) →
  ∃ s', de_proxies (desk_run actions d) !! i = Some s' ∧ is_Some (px_credentials (sy_proxy s')).
Proof.
  revert d s. induction actions as [|a actions IH]; intros d s Hi Hs; [by exists s|].
  destruct (desk_step_proxy d a i s Hi) as (s' & Hi' & Hs'). apply (IH (desk_step d a) s' Hi').
  destruct Hs' as [->|(x & Hx & ->)]; [done|by apply perform_keeps_session].
Qed.
End Desktop.
