(* ===== verification/BotProps.v ===== *)
(** * The bot module: theorems

    What its client sends, what a command does, how the bridge uses the
    client, and the module's life cycle. *)
From S2P Require Import Prelude.
From S2P Require Import Supervisor.
From S2P Require Import SupervisorSteps.
From S2P Require Import FakeEnv.
From S2P Require Import Doh.
From S2P Require Import ObsProps.
From S2P Require Import DesktopService.
From S2P Require Import Text.
From S2P Require Import Json.
From S2P Require Import Mask.
From S2P Require Import Sdk.
From S2P Require Import Bridge.
From S2P Require Import SessionProxy.
From S2P Require Import Obs.
From S2P Require Import BridgeAction.
From S2P Require Import BotClient.
From S2P Require Import BotModule.
From S2P Require Import BotCommands.

Create HintDb bot.

(** ** What the client sends *)

Section ClientFacts.
  Context {Codec : Client.HubCodec}.

(** The module's token, and an address of the client's community or the list
    of the user's own. *)
Definition in_scope (c : Client.WaddlebotClient) (rq : Client.Request) : Prop :=
  Client.rq_bearer rq = Client.wc_cat c ∧
  (Client.rq_url rq = Client.url c "/communities/my" ∨ ∃ suffix, Client.rq_url rq = Client.admin_url c suffix).

(** [n] requests at most, and at least one. *)
Definition sends {A} (c : Client.WaddlebotClient) (n : nat)
    (m : eff Client.HubWorld Client.WaddlebotError A) : Prop :=
  ∀ w, ∃ l, (m w).2 = Client.mkHubWorld (Client.hw_sent w ++ l) (Client.hw_hub w) ∧
    1 ≤ length l ≤ n ∧ Forall (in_scope c) l.

Lemma execute_sends {A} c (decode : string → result A string) m u q b :
  (u = Client.url c "/communities/my" ∨ ∃ suffix, u = Client.admin_url c suffix) →
  sends c 1 (Client.execute c decode m u q b).
Proof.
  intros Hu w. eexists [_]. split; [reflexivity|]. split; [simpl; lia|].
  constructor; [|constructor]. by split.
Qed.

Lemma my_url c : Client.url c "/communities/my" = Client.url c "/communities/my" ∨
  ∃ suffix, Client.url c "/communities/my" = Client.admin_url c suffix.
Proof. by left. Qed.

Lemma community_url c suffix : Client.admin_url c suffix = Client.url c "/communities/my" ∨
  ∃ x, Client.admin_url c suffix = Client.admin_url c x.
Proof. right. by exists suffix. Qed.

Lemma sends_two {A} c (m : eff Client.HubWorld Client.WaddlebotError A) : sends c 1 m → sends c 2 m.
Proof. intros H w. destruct (H w) as (l & ? & ? & ?). exists l. split_and!; try done; lia. Qed.

Lemma rotate_sends c id name scopes expires : sends c 2 (Client.rotate_cat c id name scopes expires).
Proof.
  intros w. unfold Client.rotate_cat, eff_bind.
  destruct (execute_sends c Client.decode_message Client.DELETE
    (Client.admin_url c ("/tokens/cats/" +:+ pretty id)) [] None (community_url c _) w) as (l & E & Hl & Hf).
  change (Client.execute c Client.decode_message Client.DELETE _ _ _ w) with (Client.revoke_cat c id w) in E.
  destruct (Client.revoke_cat c id w) as [r w1]. simpl in E. subst w1.
  destruct r as [t|e]; [|exists l; split_and!; try done; lia].
  destruct (execute_sends c Client.decode_new_token Client.POST (Client.admin_url c "/tokens/cats") []
    (Some (Client.new_cat_json name scopes expires)) (community_url c _)
    (Client.mkHubWorld (Client.hw_sent w ++ l) (Client.hw_hub w))) as (l' & E & Hl' & Hf').
  exists (l ++ l'). split; [|split; [rewrite length_app; lia|by apply Forall_app]].
  unfold Client.create_cat, Client.post_json. rewrite E. simpl. by rewrite app_assoc.
Qed.
End ClientFacts.

#[export] Hint Resolve my_url community_url sends_two rotate_sends : bot.
#[export] Hint Extern 1 (sends _ 1 _) => (apply execute_sends) : bot.

(** ** What a command does *)

Section CommandFacts.
  Context {Codec : BotCodec} {R : Render}.

Abbreviation St := (Bot * World)%type.
Abbreviation Handler := (St → CommandResult * St).

(** Refused without a trace; or one use of the client, counted. *)
Definition outcome (s : St) (x : CommandResult * St) : Prop :=
  let '(r, s') := x in
  (s' = s ∧ cr_exit_code r = 1%Z) ∨
  ∃ l, s' = (bump (if decide (cr_exit_code r = 0%Z) then count_request else λ m, count_error (count_request m)) s.1,
             set_hub (Client.mkHubWorld (Client.hw_sent (wo_hub s.2) ++ l) (Client.hw_hub (wo_hub s.2))) s.2) ∧
    1 ≤ length l ≤ 2 ∧ Forall (in_scope (bt_client s.1)) l ∧
    (cr_exit_code r = 0%Z ∨ cr_exit_code r = 1%Z).

Definition well_behaved (h : Handler) : Prop := ∀ s, outcome s (h s).

Lemma say_ok r : cr_exit_code r = 1%Z → well_behaved (say r).
Proof. intros Hr s. by left. Qed.

Lemma hub_command_ok {A} as_json context (m : Client.WaddlebotClient → _) (render : A → string * Value) :
  (∀ c, sends c 2 (m c)) → well_behaved (hub_command as_json context m render).
Proof.
  intros Hm [b w]. unfold hub_command, call. simpl. destruct (Hm (bt_client b) (wo_hub w)) as (l & E & Hl & Hf).
  destruct (m (bt_client b) (wo_hub w)) as [r h] eqn:Em. simpl in E. subst h. simpl. right. exists l.
  destruct r as [a|e]; simpl; [destruct (render a) as [t v]|]; (split_and!; [done|lia..|done|simpl; auto]).
Qed.

Lemma with_id_ok usage what args (k : Z → Handler) :
  (∀ id, well_behaved (k id)) → well_behaved (with_id usage what args k).
Proof.
  intros Hk. unfold with_id. destruct (head args) as [raw|]; [|by apply say_ok].
  destruct (parse_id raw); [done|by apply say_ok].
Qed.

Lemma with_payload_ok raw (k : Value → Handler) :
  (∀ v, well_behaved (k v)) → well_behaved (with_payload raw k).
Proof.
  intros Hk. unfold with_payload, parse_json_payload.
  destruct (Client.json_from_slice raw); simpl; [apply Hk|by apply say_ok].
Qed.
End CommandFacts.

#[export] Hint Resolve say_ok hub_command_ok with_id_ok with_payload_ok : bot.

Section CommandTheorems.
  Context {Codec : BotCodec} {R : Render}.

#[local] Ltac command := repeat case_match; subst; eauto 8 with bot.

Lemma dispatch_music_ok path flags args as_json : well_behaved (dispatch_music path flags args as_json).
Proof.
  unfold dispatch_music, dispatch_music_provider, dispatch_music_station, music_settings, music_provider_list,
    music_provider_disconnect, music_station_list, music_station_add, music_station_remove.
  command.
Qed.

Lemma dispatch_token_ok path flags args as_json : well_behaved (dispatch_token path flags args as_json).
Proof. unfold dispatch_token, token_list, token_scopes, token_create, token_revoke, token_rotate. command. Qed.

Lemma dispatch_announce_ok path flags args as_json : well_behaved (dispatch_announce path flags args as_json).
Proof. unfold dispatch_announce, announce_list, announce_show, announce_create, announce_publish. command. Qed.

Lemma dispatch_workflow_ok path args as_json : well_behaved (dispatch_workflow path args as_json).
Proof.
  unfold dispatch_workflow, workflow_list, workflow_show, workflow_create, workflow_update, workflow_delete.
  command.
Qed.

Lemma dispatch_loyalty_ok path args as_json : well_behaved (dispatch_loyalty path args as_json).
Proof. unfold dispatch_loyalty, loyalty_config, loyalty_adjust. command. Qed.

Lemma dispatch_browser_sources_ok path flags as_json : well_behaved (dispatch_browser_sources path flags as_json).
Proof. unfold dispatch_browser_sources, browser_sources_list, browser_sources_regenerate. command. Qed.

Lemma community_list_ok as_json : well_behaved (community_list as_json).
Proof. unfold community_list. command. Qed.

(** Switching the community rebuilds the client or changes nothing. *)
Lemma community_use_inv args as_json b w :
  let '(r, (b', w')) := community_use args as_json (b, w) in
  wo_hub w' = wo_hub w ∧ bt_metrics b' = bt_metrics b ∧
  (b' = b ∧ cr_exit_code r = 1%Z ∨
   ∃ raw id, head args = Some raw ∧ parse_id raw = Some id ∧ cr_exit_code r = 0%Z ∧
     b' = set_client (Client.mkClient (trim_end_slashes (mc_base_url (bt_config b))) id (bt_cat b)) id b).
Proof.
  unfold community_use. destruct (head args) as [raw|]; [|by split_and!; auto].
  destruct (parse_id raw) as [id|] eqn:Ep; [|by split_and!; auto].
  unfold set_community, Client.client_new. destruct (wo_setup w (wo_asked w)); simpl; [by split_and!; auto|].
  split_and!; [done|done|]. right. by exists raw, id.
Qed.

(** A probe asks at most once, with the client in force, and changes nothing
    but the counters and itself. *)
Lemma probe_auth_inv b w :
  let '(p, (b', w')) := probe_auth (b, w) in
  bt_client b' = bt_client b ∧ bt_running b' = bt_running b ∧ bt_config b' = bt_config b ∧
  bt_community_id b' = bt_community_id b ∧
  bt_last_probe b' = Some p ∧ Client.hw_hub (wo_hub w') = Client.hw_hub (wo_hub w) ∧
  (∃ l, Client.hw_sent (wo_hub w') = Client.hw_sent (wo_hub w) ++ l ∧ length l ≤ 1 ∧
     Forall (in_scope (bt_client b)) l ∧
     mt_requests (bt_metrics b') = length l + mt_requests (bt_metrics b)).
Proof.
  assert (∀ b w, let '(p, (b', w')) := fresh_probe (b, w) in
    bt_client b' = bt_client b ∧ bt_running b' = bt_running b ∧ bt_config b' = bt_config b ∧
    bt_community_id b' = bt_community_id b ∧
    bt_last_probe b' = Some p ∧ Client.hw_hub (wo_hub w') = Client.hw_hub (wo_hub w) ∧
    (∃ l, Client.hw_sent (wo_hub w') = Client.hw_sent (wo_hub w) ++ l ∧ length l ≤ 1 ∧
       Forall (in_scope (bt_client b)) l ∧
       mt_requests (bt_metrics b') = length l + mt_requests (bt_metrics b))) as Hf.
  { clear b w. intros b w. unfold fresh_probe, call.
    destruct (execute_sends (bt_client b) Client.decode_communities Client.GET
      (Client.url (bt_client b) "/communities/my") [] None (my_url _) (wo_hub w)) as (l & E & Hl & Hin).
    change (Client.execute (bt_client b) Client.decode_communities Client.GET _ _ _ (wo_hub w))
      with (Client.list_my_communities (bt_client b) (wo_hub w)) in E.
    change (wo_hub (tick w)) with (wo_hub w).
    destruct (Client.list_my_communities (bt_client b) (wo_hub w)) as [r h]. simpl in E. subst h.
    assert (∃ l', Client.hw_sent (wo_hub w) ++ l = Client.hw_sent (wo_hub w) ++ l' ∧ length l' ≤ 1 ∧
      Forall (in_scope (bt_client b)) l' ∧ S (mt_requests (bt_metrics b)) = length l' + mt_requests (bt_metrics b)) as Hx.
    { exists l. split_and!; try done; lia. }
    destruct (wo_slow w (wo_asked w)); [by split_and!|].
    by destruct r as [cs|[]]; split_and!. }
  unfold probe_auth. destruct (bt_last_probe b) as [p|] eqn:Ep; [|apply Hf].
  simpl. destruct (_ && _); [|by apply (Hf b (tick w))].
  split_and!; try done. exists []. rewrite app_nil_r. split_and!; simpl; done || lia.
Qed.

(** Refused, with nothing changed and nothing asked. *)
Definition refused (b : Bot) (w : World) (r : CommandResult) (b' : Bot) (w' : World) : Prop :=
  cr_exit_code r = 1%Z ∧ wo_hub w' = wo_hub w ∧ b' = b.

(** The client rebuilt for another community, with nothing asked. *)
Definition switched (args : list string) (b : Bot) (w : World) (r : CommandResult) (b' : Bot) (w' : World) : Prop :=
  ∃ raw id, head args = Some raw ∧ parse_id raw = Some id ∧ cr_exit_code r = 0%Z ∧ wo_hub w' = wo_hub w ∧
    bt_community_id b' = id ∧
    bt_client b' = Client.mkClient (trim_end_slashes (mc_base_url (bt_config b))) id (bt_cat b).

(** Between [least] and [most] requests, all in scope of the client. *)
Definition asked (least most : nat) (b : Bot) (w : World) (b' : Bot) (w' : World) : Prop :=
  ∃ l, Client.hw_sent (wo_hub w') = Client.hw_sent (wo_hub w) ++ l ∧ least ≤ length l ≤ most ∧
    Forall (in_scope (bt_client b)) l ∧ bt_client b' = bt_client b.

(** One use of the client, counted once, and as failed when it failed. *)
Definition one_use (b : Bot) (w : World) (r : CommandResult) (b' : Bot) (w' : World) : Prop :=
  asked 1 2 b w b' w' ∧ (cr_exit_code r = 0%Z ∨ cr_exit_code r = 1%Z) ∧
  mt_requests (bt_metrics b') = S (mt_requests (bt_metrics b)) ∧
  mt_errors (bt_metrics b') = mt_errors (bt_metrics b) + Z.to_nat (cr_exit_code r).

Lemma well_behaved_inv h b w :
  well_behaved h → let '(r, (b', w')) := h (b, w) in refused b w r b' w' ∨ one_use b w r b' w'.
Proof.
  intros Hw. specialize (Hw (b, w)). destruct (h (b, w)) as [r [b' w']].
  destruct Hw as [[[= -> ->] Hr]|(l & [= -> ->] & Hl & Hf & Hr)]; [by left|right].
  split; [exists l; split_and!; done || lia|]. split; [done|].
  destruct Hr as [Hr|Hr]; rewrite Hr; [rewrite decide_True by done|rewrite decide_False by done];
    simpl; split; lia.
Qed.

(** Every command ends with a result, and is one of four things.  A
    command that is unknown, lacks an argument or has a bad one is refused
    with exit code 1 and changes nothing, the hub included.  [community use]
    rebuilds the client for the new community without asking the hub.
    [status] asks at most once.  Every other command makes one use of the
    client: one request, or two for a rotation, with the module's token, to
    the addresses of the active community or the list of one's own; it is
    counted once, and as failed exactly when the exit code is 1. *)
Theorem bot_command_outcomes (path : list string) (flags : gmap string string) (args : list string)
    (b : Bot) (w : World) :
  let '(r, (b', w')) := dispatch path flags args (b, w) in
  refused b w r b' w' ∨ one_use b w r b' w' ∨
  (head path = Some "community" ∧ path !! 1 = Some "use" ∧ switched args b w r b' w') ∨
  (head path = Some "status" ∧ cr_exit_code r = 0%Z ∧ asked 0 1 b w b' w').
Proof.
  assert (∀ h, well_behaved h → let '(r, (b', w')) := h (b, w) in
    refused b w r b' w' ∨ one_use b w r b' w' ∨
    (head path = Some "community" ∧ path !! 1 = Some "use" ∧ switched args b w r b' w') ∨
    (head path = Some "status" ∧ cr_exit_code r = 0%Z ∧ asked 0 1 b w b' w')) as Hh.
  { intros h Hw. pose proof (well_behaved_inv h b w Hw) as H. destruct (h (b, w)) as [r [b' w']]. tauto. }
  unfold dispatch. destruct (head path) as [command|] eqn:Eh; [|by apply Hh, say_ok].
  destruct (decide (command = "status")) as [->|_].
  { unfold cmd_status, status. pose proof (probe_auth_inv b w) as Hp. destruct (probe_auth (b, w)) as [p [b' w']].
    destruct Hp as (Hc & _ & _ & _ & _ & _ & l & Hs & Hl & Hf & _).
    destruct (json_requested flags); simpl; (do 3 right); (split; [done|]); (split; [done|]);
      exists l; split_and!; done || lia. }
  destruct (decide (command = "community")) as [->|_].
  { unfold dispatch_community. destruct (path !! 1) as [sub|] eqn:E1; [|by apply Hh, say_ok].
    destruct (decide (sub = "list")) as [->|_]; [apply Hh, community_list_ok|].
    destruct (decide (sub = "use")) as [->|_]; [|by apply Hh, say_ok].
    pose proof (community_use_inv args (json_requested flags) b w) as Hu.
    destruct (community_use args (json_requested flags) (b, w)) as [r [b' w']].
    destruct Hu as (Hw & _ & [[-> Hr]|(raw & id & ? & ? & ? & ->)]); [by left|].
    do 2 right. left. split; [done|]. split; [done|]. by exists raw, id. }
  repeat (destruct (decide _); [apply Hh; eauto using dispatch_music_ok, dispatch_browser_sources_ok,
    dispatch_token_ok, dispatch_announce_ok, dispatch_workflow_ok, dispatch_loyalty_ok|]).
  by apply Hh, say_ok.
Qed.

(** ** Tokens *)

Lemma dispatch_create flags args :
  dispatch ["token"; "create"] flags args = token_create flags args (json_requested flags).
Proof. done. Qed.

Lemma dispatch_rotate flags args :
  dispatch ["token"; "rotate"] flags args = token_rotate flags args (json_requested flags).
Proof. done. Qed.

(** A minted token is lost: the result of [token create] and everything the
    module keeps are the same for any two tokens with the same mask, so the
    one time the hub shows the token nobody can read it. *)
Theorem minted_token_lost (flags : gmap string string) (name : string) (rest : list string)
    (b : Bot) (w1 w2 : World) (t1 t2 message : string) :
  (∀ rq, Client.read_answer Client.decode_new_token
     (Client.hw_hub (wo_hub w1) (length (Client.hw_sent (wo_hub w1))) rq) = Ok (Client.mkNewToken t1 message)) →
  (∀ rq, Client.read_answer Client.decode_new_token
     (Client.hw_hub (wo_hub w2) (length (Client.hw_sent (wo_hub w2))) rq) = Ok (Client.mkNewToken t2 message)) →
  mask_secret t1 = mask_secret t2 →
  let '(r1, (b1, _)) := dispatch ["token"; "create"] flags (name :: rest) (b, w1) in
  let '(r2, (b2, _)) := dispatch ["token"; "create"] flags (name :: rest) (b, w2) in
  r1 = r2 ∧ b1 = b2 ∧ cr_exit_code r1 = 0%Z.
Proof.
  intros H1 H2 Hmask. rewrite !dispatch_create. unfold token_create, hub_command, call. cbn [fst snd head].
  unfold Client.create_cat, Client.post_json, Client.execute. cbn [fst snd]. rewrite H1, H2.
  simpl. by rewrite Hmask.
Qed.

(** A rotation that cannot mint leaves no token: when the hub revokes the
    old one and then refuses the new one, as it does when the token rotated is
    the one the module signs in with, the command fails with the old token
    gone; and the two requests are counted as one. *)
Theorem failed_rotation_leaves_no_token (flags : gmap string string) (raw name : string) (rest : list string) (id : Z)
    (b : Bot) (w : World) (message : string) (e : Client.WaddlebotError) :
  let n := length (Client.hw_sent (wo_hub w)) in
  let c := bt_client b in
  let revoke := Client.mkRequest Client.DELETE (Client.admin_url c ("/tokens/cats/" +:+ pretty id)) []
                  (Client.wc_cat c) None in
  let mint := Client.mkRequest Client.POST (Client.admin_url c "/tokens/cats") [] (Client.wc_cat c)
                (Some (Client.new_cat_json name (scopes_flag flags) (flags !! "expires-at"))) in
  parse_id raw = Some id → flags !! "name" = Some name →
  Client.read_answer Client.decode_message (Client.hw_hub (wo_hub w) n revoke) = Ok message →
  Client.read_answer Client.decode_new_token (Client.hw_hub (wo_hub w) (S n) mint) = Err e →
  let '(r, (b', w')) := dispatch ["token"; "rotate"] flags (raw :: rest) (b, w) in
  r = hub_error "rotate token failed" e ∧
  Client.hw_sent (wo_hub w') = Client.hw_sent (wo_hub w) ++ [revoke; mint] ∧
  bt_cat b' = bt_cat b ∧ bt_client b' = bt_client b ∧
  mt_requests (bt_metrics b') = S (mt_requests (bt_metrics b)).
Proof.
  intros n c revoke mint Hid Hname Hrevoke Hmint. rewrite dispatch_rotate.
  unfold token_rotate, with_id. cbn [head]. rewrite Hid, Hname. unfold hub_command, call. cbn [fst snd].
  unfold Client.rotate_cat, Client.revoke_cat, Client.create_cat, Client.delete_, Client.post_json, eff_bind, Client.execute.
  fold c. fold revoke. fold n. rewrite Hrevoke. cbn [Client.hw_sent Client.hw_hub].
  rewrite length_app, Nat.add_1_r. fold n mint. rewrite Hmint. simpl. by rewrite <- app_assoc.
Qed.
End CommandTheorems.

(** ** Health and life cycle *)

Section LifeFacts.
  Context {Codec : BotCodec}.

(** Whether the last probe may still be used at [t]. *)
Definition recent (b : Bot) (t : Z) : option AuthProbe :=
  p ← bt_last_probe b;
  if (pb_checked_at p <=? t)%Z && (t - pb_checked_at p <? AUTH_CACHE_TTL)%Z then Some p else None.

Lemma fresh_probe_spec b w v :
  wo_hub v = wo_hub w → wo_slow v = wo_slow w →
  let '(p, (b', w')) := fresh_probe (b, v) in
  bt_last_probe b' = Some p ∧ ∃ k rq,
    Client.hw_sent (wo_hub w') = Client.hw_sent (wo_hub w) ++ [rq] ∧ in_scope (bt_client b) rq ∧
    (pb_state p = AuthOk ↔ wo_slow w k = false ∧
       is_ok (Client.read_answer Client.decode_communities
                (Client.hw_hub (wo_hub w) (length (Client.hw_sent (wo_hub w))) rq)) = true).
Proof.
  intros Hhub Hslow. unfold fresh_probe, call, Client.list_my_communities, Client.get_, Client.execute.
  rewrite Hslow. change (wo_hub (tick v)) with (wo_hub v). rewrite Hhub.
  set (rq := Client.mkRequest _ _ _ _ _).
  assert (in_scope (bt_client b) rq) as Hin by (split; [done|by left]).
  destruct (wo_slow w (wo_asked v)) eqn:Es.
  - split; [done|]. exists (wo_asked v), rq. split_and!; [done|done|]. rewrite Es. by split; [|intros []].
  - set (a := Client.read_answer _ _).
    split; [by destruct a as [?|[]]|]. exists (wo_asked v), rq.
    split_and!; [by destruct a as [?|[]]|done|]. rewrite Es. fold a.
    by destruct a as [?|[]]; (split; [done|intros []]).
Qed.

Lemma probe_auth_eq b w :
  ∃ v, (v = w ∨ v = tick w) ∧
    probe_auth (b, w) = match recent b (wo_clock w (wo_asked w)) with
                        | Some p => (p, (b, tick w))
                        | None => fresh_probe (b, v)
                        end.
Proof.
  unfold probe_auth, recent, now. destruct (bt_last_probe b) as [q|]; cbn [mbind option_bind].
  - exists (tick w). split; [by right|]. by destruct (_ && _).
  - exists w. by split; [left|].
Qed.

Lemma health_eq s :
  let '(p, s') := probe_auth s in
  let '(report, s'') := health s in
  s'' = s' ∧ hr_level report ≠ LUnhealthy ∧ hr_checked_at report = pb_checked_at p ∧
  (hr_level report = LHealthy ↔ pb_state p = AuthOk).
Proof. unfold health. destruct (probe_auth s) as [p s']. by destruct (pb_state p). Qed.

Lemma recent_last b t p : recent b t = Some p → bt_last_probe b = Some p.
Proof.
  unfold recent. destruct (bt_last_probe b) as [q|]; cbn [mbind option_bind]; [|done].
  destruct (_ && _); [|done]. by intros [= <-].
Qed.

(** The module's health says how the hub answers and never ends the
    module: it is healthy when the last probe was accepted and degraded
    otherwise, never unhealthy.  A probe of the last five seconds is reused,
    with its own time and without asking; otherwise the hub is asked once, with
    the client in force, and accepts if its answer comes in time, has a
    success status and can be read. *)
Theorem bot_health_tracks_hub (b : Bot) (w : World) :
  let '(report, (b', w')) := health (b, w) in
  hr_level report ≠ LUnhealthy ∧
  (∃ p, bt_last_probe b' = Some p ∧ hr_checked_at report = pb_checked_at p ∧
     (hr_level report = LHealthy ↔ pb_state p = AuthOk)) ∧
  match recent b (wo_clock w (wo_asked w)) with
  | Some p => bt_last_probe b' = Some p ∧ wo_hub w' = wo_hub w ∧ bt_metrics b' = bt_metrics b
  | None =>
      ∃ k rq, Client.hw_sent (wo_hub w') = Client.hw_sent (wo_hub w) ++ [rq] ∧ in_scope (bt_client b) rq ∧
        (hr_level report = LHealthy ↔
         wo_slow w k = false ∧
         is_ok (Client.read_answer Client.decode_communities
                  (Client.hw_hub (wo_hub w) (length (Client.hw_sent (wo_hub w))) rq)) = true)
  end.
Proof.
  pose proof (health_eq (b, w)) as Hh. destruct (probe_auth_eq b w) as (v & Hv & E).
  destruct (health (b, w)) as [report [b' w']]. rewrite E in Hh.
  destruct (recent b (wo_clock w (wo_asked w))) as [p|] eqn:Er.
  - destruct Hh as ([= -> ->] & Hl & Ht & Hs). apply recent_last in Er.
    split; [done|]. split; [by exists p|done].
  - assert (wo_hub v = wo_hub w ∧ wo_slow v = wo_slow w) as [H1 H2] by (by destruct Hv as [->| ->]).
    pose proof (fresh_probe_spec b w v H1 H2) as Hf. destruct (fresh_probe (b, v)) as [p [b1 w1]].
    destruct Hh as ([= -> ->] & Hl & Ht & Hs), Hf as (Hp & k & rq & Hsent & Hin & Hok).
    split; [done|]. split; [by exists p|]. exists k, rq. split_and!; [done|done|]. by rewrite Hs.
Qed.

(** ** Starting and stopping *)

Lemma bridge_start_adds cfg randoms adapters l handle tokens l' :
  Bridge.start cfg randoms adapters l = (Ok (handle, tokens), l') →
  l' = mkListening (ls_tcp l ++ option_list (bh_tcp handle)) (ls_unix l ++ option_list (bh_unix handle)).
Proof.
  unfold Bridge.start. destruct (start_tcp cfg l) as [r1 l1] eqn:E1. apply start_tcp_effect in E1 as [Hu1 E1].
  destruct r1 as [tcp|]; [|done]. destruct E1 as (Ht1 & _ & _).
  destruct (start_unix cfg l1) as [r2 l2] eqn:E2. apply start_unix_effect in E2 as [Ht2 E2].
  destruct r2 as [unix|]; [|done]. destruct E2 as [Hu2 _]. destruct (attach_all adapters); [|done].
  intros [= <- _ <-]. destruct l2. simpl in *. by rewrite Ht2, Ht1, Hu2, Hu1.
Qed.

Lemma filter_added {A} `{EqDecision A} (o : option A) (l : list A) :
  (∀ a, o = Some a → a ∉ l) → filter (λ a, o ≠ Some a) (l ++ option_list o) = l.
Proof.
  intros Ho. rewrite filter_app. destruct o as [a|]; simpl.
  - rewrite filter_cons, decide_False by auto. rewrite filter_nil, app_nil_r.
    assert (a ∉ l) as Ha by (by apply Ho). clear Ho. induction l as [|x l IH]; [done|].
    rewrite filter_cons. rewrite decide_True by (intros [= ->]; apply Ha; left).
    f_equal. apply IH. intros Hx. apply Ha. by right.
  - rewrite app_nil_r. induction l as [|x l IH]; [done|]. rewrite filter_cons, decide_True by done.
    f_equal. apply IH. intros a Ha. done.
Qed.

Lemma start_bridge_inv b w :
  let '(r, (b', w')) := start_bridge (b, w) in
  bt_running b' = bt_running b ∧ bt_metrics b' = bt_metrics b ∧
  (∃ l, wo_obs w' = wo_obs w ++ l) ∧ wo_session_registry w' = wo_session_registry w ∧
  match r with
  | Err _ => bt_bridge b' = bt_bridge b
  | Ok _ =>
      bt_bridge b' = bt_bridge b ∧ wo_net w' = wo_net w ∨
      ∃ handle, bt_bridge b' = Some handle ∧
        wo_net w' = mkListening (ls_tcp (wo_net w) ++ option_list (bh_tcp handle))
                      (ls_unix (wo_net w) ++ option_list (bh_unix handle))
  end.
Proof.
  unfold start_bridge. destruct (bg_enabled _); cbn [negb].
  2: { split_and!; [done|done|by exists []; rewrite app_nil_r|done|by left]. }
  destruct (obs_adapter b w) as [adapter w1] eqn:Ea.
  assert (wo_obs w1 = wo_obs w ∧ wo_net w1 = wo_net w ∧ wo_session_registry w1 = wo_session_registry w)
    as (Ho & Hn & Hs).
  { revert Ea. unfold obs_adapter, secret_get. repeat case_match; by intros [= _ <-]. }
  destruct (Bridge.start _ _ _ (wo_net w1)) as [r net] eqn:Es.
  destruct r as [[handle tokens]|e].
  - apply bridge_start_adds in Es as ->. rewrite Hn. unfold spawn_obs.
    destruct adapter as [o|]; cbn [fst snd]; (split_and!; [done|done| |done|right; by exists handle]); simpl; rewrite Ho;
      [by eexists|by exists []; rewrite app_nil_r].
  - split_and!; try done. simpl. exists []. by rewrite app_nil_r.
Qed.

(** A stop undoes a start: what the bridge listens on, the executor the
    daemon reaches and the gauge are as before the start, when the addresses
    were not in use.  What a stop does not undo is the connection to OBS: its
    task stays as it was, attached and with its password, and nothing is left
    that could end it. *)
Theorem bot_stop_undoes_start (b : Bot) (w : World) s1 :
  bt_running b = false → bt_bridge b = None → start (b, w) = (Ok (), s1) →
  (∀ handle, bt_bridge s1.1 = Some handle →
     (∀ a, bh_tcp handle = Some a → a ∉ ls_tcp (wo_net w)) ∧
     (∀ p, bh_unix handle = Some p → p ∉ ls_unix (wo_net w))) →
  bt_running s1.1 = true ∧
  let '(r, (b2, w2)) := stop s1 in
  r = Ok () ∧ bt_running b2 = false ∧ bt_bridge b2 = None ∧ mt_up (bt_metrics b2) = false ∧
  wo_net w2 = wo_net w ∧ wo_action_registry w2 = None ∧
  wo_obs w2 = wo_obs s1.2 ∧ (∃ l, wo_obs w2 = wo_obs w ++ l).
Proof.
  intros Hr Hb Hs Hfree. unfold start in Hs. cbn [fst snd] in Hs. rewrite Hr in Hs.
  pose proof (start_bridge_inv (bump (set_up true) (set_running true b)) w) as Hi.
  destruct (start_bridge _) as [r [b1 w1]]. destruct r as [u|e]; [|done]. injection Hs as <-.
  destruct Hi as (Hrun & _ & Hobs & _ & Hbr). cbn [fst snd] in *. split; [by rewrite Hrun|].
  unfold stop. cbn [fst snd]. rewrite Hrun. cbn [negb].
  unfold stop_bridge. cbn [set_running bt_bridge].
  destruct Hbr as [[Hn Hw]|(handle & Hn & Hw)].
  - rewrite Hn. cbn. rewrite Hb. cbn. by rewrite Hw.
  - rewrite Hn. cbn. destruct (Hfree handle Hn) as [Ht Hu]. unfold Bridge.stop. rewrite Hw. cbn.
    rewrite !filter_added by done. by destruct (wo_net w).
Qed.

(** A start whose bridge fails leaves the module counted as running, with
    the gauge up and no bridge, and a second start then reports success
    without trying again. *)
Theorem failed_bridge_start_counts_as_running (b : Bot) (w : World) e s1 :
  bt_running b = false → bt_bridge b = None → start (b, w) = (Err e, s1) →
  bt_running s1.1 = true ∧ mt_up (bt_metrics s1.1) = true ∧ bt_bridge s1.1 = None ∧ start s1 = (Ok (), s1).
Proof.
  intros Hr Hb Hs. unfold start in Hs. cbn [fst snd] in Hs. rewrite Hr in Hs.
  pose proof (start_bridge_inv (bump (set_up true) (set_running true b)) w) as Hi.
  destruct (start_bridge _) as [r [b1 w1]]. destruct r as [u|e1]; [done|]. injection Hs as _ <-.
  destruct Hi as (Hrun & Hm & _ & _ & Hbr). cbn [fst snd]. split_and!; [by rewrite Hrun|by rewrite Hm|by rewrite Hbr|].
  unfold start. cbn [fst]. by rewrite Hrun.
Qed.
End LifeFacts.

(** ** The bridge over the client *)

Section BridgeOverClient.
  Context {Codec : Client.HubCodec} (c : Client.WaddlebotClient).

Definition shown {A B} (f : A → B) (x : result A Client.WaddlebotError * Client.HubWorld) :
    result B string * Client.HubWorld :=
  (match x.1 with Ok a => Ok (f a) | Err e => Err (Client.WaddlebotError_display e) end, x.2).

Definition to_music (m : Client.MusicSettings) : MusicSettings :=
  mkMusicSettings (Client.ms_default_provider m) (Client.ms_autoplay_enabled m) (Client.ms_volume_limit m)
    (Client.ms_allowed_genres m) (Client.ms_blocked_artists m) (Client.ms_require_dj_approval m)
    (Client.ms_is_active m).
Definition to_announcement (a : Client.Announcement) : Announcement :=
  mkAnnouncement (Client.an_id a) (Client.an_title a) (Client.an_content a) (Client.an_status a)
    (Client.an_announcement_type a) (Client.an_is_pinned a).

(** The client is what the bridge calls the hub. *)
#[export] Instance client_hub : Hub Client.HubWorld := {|
  list_my_communities w :=
    shown (map (λ x, mkCommunity (Client.cm_id x) (Client.cm_name x) (Client.cm_display_name x) (Client.cm_role x)))
      (Client.list_my_communities c w);
  get_music_settings w := shown to_music (Client.get_music_settings c w);
  update_music_settings u w := shown to_music (Client.update_music_settings c u w);
  list_announcements status w :=
    shown (λ l, map to_announcement (Client.al_announcements l)) (Client.list_announcements c status w);
  create_announcement p w :=
    shown to_announcement
      (Client.create_announcement c
         (Client.mkNewAnnouncement (ap_title p) (ap_content p) (ap_announcement_type p) (ap_is_pinned p) (ap_status p)) w);
  list_browser_sources w :=
    shown (map (λ x, mkBrowserSource (Client.bs_source_type x) (Client.bs_url x) (Client.bs_is_active x)))
      (Client.list_browser_sources c w);
|}.

(** At most one more request, in scope, and exactly one per call counted. *)
Definition relayed (s s' : BridgeState Client.HubWorld) : Prop :=
  ∃ l, Client.hw_sent (br_world s') = Client.hw_sent (br_world s) ++ l ∧ length l ≤ 1 ∧
    Forall (in_scope c) l ∧ length (br_calls s') = length (br_calls s) + length l ∧ br_tokens s' = br_tokens s.

Lemma relayed_refl s : relayed s s.
Proof. exists []. rewrite app_nil_r. split_and!; try done; simpl; lia. Qed.

Lemma call_relayed {A B} op (m : eff Client.HubWorld Client.WaddlebotError A) (f : A → B) render s :
  sends c 1 m → relayed s (Bridge.call op (λ w, shown f (m w)) render s).2.
Proof.
  intros Hm. destruct (Hm (br_world s)) as (l & E & Hl & Hf). unfold Bridge.call, shown.
  exists l. destruct (m (br_world s)) as [r h]. simpl in E. subst h.
  destruct r; simpl; rewrite ?length_app; (split_and!; [done|lia|done|simpl; lia|done]).
Qed.

Lemma dispatch_relayed op params s : relayed s (Bridge.dispatch op params s).2.
Proof.
  destruct op; simpl; try (apply call_relayed; eauto with bot).
  destruct (announcement_params params) as [p|e]; [|apply relayed_refl]. apply call_relayed. eauto with bot.
Qed.

Lemma relay_relayed identity op params s : relayed s (Bridge.relay identity op params s).2.
Proof.
  unfold Bridge.relay, relay_scrubbed. destruct (decide _); [|apply relayed_refl].
  pose proof (dispatch_relayed op params s) as H. by destruct (Bridge.dispatch op params s).
Qed.

(** A script's request over either transport of the bridge costs the
    module at most one request to the hub, made with the module's own token to
    the client's community, and none when the call was refused. *)
Theorem bridge_spends_one_request (request : RpcRequest) (s : BridgeState Client.HubWorld) :
  relayed s (rpc_handler request s).2 ∧ relayed s (handle_parsed request s).2.
Proof.
  split.
  - unfold rpc_handler. destruct (authorize_token _ _) as [identity|]; [|apply relayed_refl].
    destruct (decide _); [apply relayed_refl|]. destruct (operation_parse _) as [op|]; [|apply relayed_refl].
    pose proof (relay_relayed identity op (rq_params request) s) as H. by destruct (Bridge.relay _ _ _ _).
  - unfold handle_parsed. destruct (identity_for_name _ _) as [identity|]; [|apply relayed_refl].
    destruct (operation_parse _) as [op|]; [|apply relayed_refl].
    pose proof (relay_relayed identity op (rq_params request) s) as H. by destruct (Bridge.relay _ _ _ _).
Qed.
End BridgeOverClient.

(** ** The bot module at work: concrete runs

    Instances of the libraries, a hub, OBS and a machine on which the theorems
    about the module, its adapter and its actions apply. *)

Import Fake.

Module BotWitness.

(** ** Libraries *)

#[local] Instance urls : UrlCrate := {|
  Url := string;
  url_parse s := Ok s;
  url_scheme _ := "ws";
  url_host_str u := Some u;
  url_path _ := "/";
  url_set_path _ u := u;
  url_to_string u := u;
|}.

(** OBS says hello without a challenge, then that it knows us; what starts with
    a 7 answers the first request. *)
#[local] Instance obs_crates : ObsCrates := {|
  url_host _ := Some (Ipv4 (127, 0, 0, 1)%Z);
  ipv4_text _ := "127.0.0.1";
  ipv6_text _ := "::1";
  sha256_base64 s := s;
  ws_from_str s :=
    if decide (s = "hello") then Ok (0%Z, Some JNull)
    else if decide (s = "identified") then Ok (2%Z, None)
    else Ok (7%Z, Some (JObject [("requestId", JString "0");
                                 ("requestStatus", JObject [("result", JBool true)]);
                                 ("responseData", JString s)]));
  hello_from_value _ := Ok (mkHello "s1" None);
  uuid n := pretty n;
|}.

(** ** OBS *)

Definition config : ObsConfig := mkObsConfig "ws://127.0.0.1:4455" "pw".

Definition talk : list Obs.Action :=
  [Attach; Dialled (Ok ()); Receive (Got (MText "hello")) None; Receive (Got (MText "identified")) None;
   CallObs "GetVersion" JNull; Take true; Receive (Got (MText "29.0")) None].

Example obs_answers : ob_calls (Obs.run talk (obs_new config)) = [mkCall "GetVersion" JNull (Some (Ok (JString "29.0")))].
Proof. vm_compute. reflexivity. Qed.

Lemma obs_replies_correlated_witness :
  ∃ ids : gmap string nat, ∀ i j k : _, ids !! i = Some k → ids !! j = Some k → i = j.
Proof.
  assert (∀ m n, uuid m = uuid n → m = n) as Hinj by (intros m n; apply pretty_nat_inj).
  destruct (obs_replies_correlated Hinj config talk) as (ids & H & _). by exists ids.
Defined.

(** ** Actions *)

#[local] Instance plain_codec : ActionCodec := {|
  value_from_slice s := Ok (JObject [("sceneUuid", JString s)]);
  value_to_vec v := Ok "";
  from_utf8_lossy s := s;
|}.

Definition executor : BridgeActionExecutor := mkExecutor true ["SetCurrentProgramScene"] ["Intro"] ∅.

Definition outside : BridgeAction.World :=
  BridgeAction.mkWorld [] (λ _ _ _, Ok JNull) (λ _ _, PostTimedOut) (λ _ _, None).

Lemma scene_list_bypassed_witness :
  wd_asked (execute executor (mkActionRequest "obs_command" "SetCurrentProgramScene" "bedroom" "" "") outside).2 =
    [AskedObs "SetCurrentProgramScene" (JObject [("sceneUuid", JString "bedroom")])].
Proof.
  assert ("SetCurrentProgramScene" ∈ ex_obs_allowed_commands executor) as Hin by left.
  assert (ex_obs_allowed_scenes executor ≠ []) as Hne by (intros H; discriminate H).
  exact (scene_list_bypassed executor (mkActionRequest "obs_command" "SetCurrentProgramScene" "bedroom" "" "")
    outside "bedroom" eq_refl Hne Hin eq_refl eq_refl eq_refl).
Defined.

(** ** The module *)

#[local] Instance hub_codec : Client.HubCodec := {|
  Client.json_from_slice s := Ok (JString s);
  Client.from_utf8_lossy s := s;
  Client.decode_communities _ := Ok [];
  Client.decode_sources _ := Ok [];
  Client.decode_message s := Ok s;
  Client.decode_scopes _ := Ok [];
  Client.decode_cats _ := Err "";
  Client.decode_new_token s := Ok (Client.mkNewToken s "keep it safe");
  Client.decode_music _ := Err "";
  Client.decode_providers _ := Ok [];
  Client.decode_stations _ := Err "";
  Client.decode_station _ := Err "";
  Client.decode_announcements _ := Err "";
  Client.decode_announcement _ := Err "";
|}.

#[local] Instance net : BridgeNet := {|
  Addr := string;
  parse_addr s := Ok s;
  is_loopback a := String.prefix "127." a;
  tcp_bind _ := Ok ();
  unix_bind p := if decide (p = "/busy") then Err "address in use" else Ok ();
|}.

#[local] Instance proxy_crates : ProxyCrates := {|
  url_join u path := Ok u;
  status_text := pretty;
  SessionProxy.json_from_slice s := Ok (JString s);
|}.

#[local] Instance codec : BotCodec := {|
  bc_hub := hub_codec;
  bc_net := net;
  bc_obs := obs_crates;
  bc_proxy := proxy_crates;
  addr_text a := a;
  addr_eq := String.eq_dec;
  bridge_error_text _ := "in use";
  config_from_slice _ := Err "";
|}.

#[local] Instance render : Render := {|
  json_to_string _ := "{}";
  json_to_string_pretty _ := "{}";
|}.

Definition client : Client.WaddlebotClient := Client.mkClient "https://hub/api/v1" 7 "wdl_c_me".

Definition bot (unix : string) : Bot :=
  mkBot (mkModuleConfig "https://hub/api/v1" 7
           (mkBridgeConfig true (mkBridgeSection "127.0.0.1:7000" unix []) ObsSection_default ∅))
    client "wdl_c_me" 7 (mkMetrics 0 0 false) false None None 0.

Definition world (hub : nat → Client.Request → Client.Answer) : BotModule.World :=
  BotModule.mkWorld (Client.mkHubWorld [] hub) (mkListening [] []) [] [] None None [] 0 (λ _, 0%Z) (λ _, false)
    (λ _, None) (λ _ _, None) (λ _, []).

(** A hub that mints a token. *)
Definition minting (token : string) : BotModule.World := world (λ _ _, Client.Replied 201 token).

Lemma minted_token_lost_witness :
  (dispatch ["token"; "create"] ∅ ["ci"] (bot "", minting "wdl_c_first_1234")).1 =
  (dispatch ["token"; "create"] ∅ ["ci"] (bot "", minting "wdl_c_other_1234")).1.
Proof.
  pose proof (minted_token_lost ∅ "ci" [] (bot "") (minting "wdl_c_first_1234") (minting "wdl_c_other_1234")
    "wdl_c_first_1234" "wdl_c_other_1234" "keep it safe" (λ _, eq_refl) (λ _, eq_refl) eq_refl) as H.
  destruct (dispatch _ _ _ (_, minting "wdl_c_first_1234")) as [r1 [b1 w1]].
  destruct (dispatch _ _ _ (_, minting "wdl_c_other_1234")) as [r2 [b2 w2]]. apply H.
Defined.

(** A hub that knows no token but the module's, and forgets it when told to. *)
Definition own_token : BotModule.World :=
  world (λ n _, if decide (n = 0) then Client.Replied 200 "revoked" else Client.Replied 401 "{}").

Definition rotate_flags : gmap string string := {[ "name" := "ci" ]}.

Lemma failed_rotation_leaves_no_token_witness :
  let '(r, (b', w')) := dispatch ["token"; "rotate"] rotate_flags ["12"] (bot "", own_token) in
  cr_exit_code r = 1%Z ∧ length (Client.hw_sent (wo_hub w')) = 2 ∧ mt_requests (bt_metrics b') = 1.
Proof.
  pose proof (failed_rotation_leaves_no_token rotate_flags "12" "ci" [] 12 (bot "") own_token "revoked"
    (Client.Auth 401 (Client.Unparsed "{}")) eq_refl eq_refl eq_refl eq_refl) as H.
  destruct (dispatch _ _ _ _) as [r [b' w']]. destruct H as (-> & -> & _ & _ & ->). done.
Defined.

Definition quiet : BotModule.World := world (λ _ _, Client.NoResponse "down").

Definition started : result unit ModuleError * (Bot * BotModule.World) := BotModule.start (bot "/run/b.sock", quiet).

Lemma start_succeeds : started.1 = Ok ().
Proof. vm_compute. reflexivity. Qed.

Lemma bot_stop_undoes_start_witness : wo_net (BotModule.stop started.2).2.2 = wo_net quiet.
Proof.
  assert (BotModule.start (bot "/run/b.sock", quiet) = (Ok (), started.2)) as Hs
    by (rewrite <- start_succeeds; apply surjective_pairing).
  assert (∀ handle, bt_bridge started.2.1 = Some handle →
     (∀ a, bh_tcp handle = Some a → a ∉ ls_tcp (wo_net quiet)) ∧
     (∀ p, bh_unix handle = Some p → p ∉ ls_unix (wo_net quiet))) as Hfree
    by (intros handle _; split; intros x _; apply not_elem_of_nil).
  pose proof (bot_stop_undoes_start (bot "/run/b.sock") quiet started.2 eq_refl eq_refl Hs Hfree) as [_ H].
  destruct (BotModule.stop started.2) as [r [b2 w2]]. by destruct H as (_ & _ & _ & _ & Hn & _).
Defined.

Definition refused : result unit ModuleError * (Bot * BotModule.World) := BotModule.start (bot "/busy", quiet).

Lemma bot_start_fails : refused.1 = Err (mkModuleError "start bridge: in use").
Proof. vm_compute. reflexivity. Qed.

Lemma failed_bridge_start_counts_as_running_witness : BotModule.start refused.2 = (Ok (), refused.2).
Proof.
  assert (BotModule.start (bot "/busy", quiet) = (Err (mkModuleError "start bridge: in use"), refused.2)) as Hs
    by (rewrite <- bot_start_fails; apply surjective_pairing).
  apply (failed_bridge_start_counts_as_running (bot "/busy") quiet _ refused.2 eq_refl eq_refl Hs).
Defined.

(** ** The desktop's session *)

Definition signed_in : System := mkSystem (mkProxy (Some (mkCredentials "t" None ("https://hub" : @Url (@pc_url proxy_crates)))) false) [] [].

Definition desk : Desk := mkDesk (boot good) [signed_in] (Some 0) None outside.

Lemma desktop_session_never_ends_witness :
  ∃ s', de_proxies (desk_run id [RpcProxy "v1" (mkHttpRequest "GET" "/api/v1/me" [] "");
    HubAnswers 0 0 (Answered 401 [] (Ok ""))] desk) !! 0 = Some s' ∧ is_Some (px_credentials (sy_proxy s')).
Proof. exact (desktop_session_never_ends id _ desk 0 signed_in eq_refl (ex_intro _ _ eq_refl)). Defined.
End BotWitness.
