(* ===== verification/PluginWire.v ===== *)
(** * A module behind the wire (crates/penguin-sdk/src/plugin/services.rs,
    crates/penguin-goplugin-host/src/adapter.rs)

    The plugin's process answers [ModuleService] calls from the author's module
    ([Server]); the daemon's process drives the module through an adapter
    ([Adapter]).  Between them a call may fail before or after it was executed. *)
From S2P Require Import Prelude Sdk Backoff Supervisor StateFile LogRing Service.

Abbreviation bytes := (list Byte.byte).

(** ** The [Module] trait *)

Record Module_ (W : Type) := mkModule {
  md_info : W → ModuleInfo;
  md_start : W → result unit ModuleError * W;
  md_stop : W → result unit ModuleError * W;
  md_status : W → result Status ModuleError * W;
  md_health : W → HealthReport * W;
  md_commands : W → list CommandSpec;
  md_dispatch : list string → gmap string string → list string → W → result CommandResult ModuleError * W;
  md_config_schema : W → option bytes;
}.
Arguments mkModule {W}.
Arguments md_info {W}.
Arguments md_start {W}.
Arguments md_stop {W}.
Arguments md_status {W}.
Arguments md_health {W}.
Arguments md_commands {W}.
Arguments md_dispatch {W}.
Arguments md_config_schema {W}.

(** [Display] of a status, and the debug form of a string. *)
Class Tonic := { status_display : GrpcStatus → string; debug_str : string → string }.

(** ** The plugin's side *)

Section Server.
  Context `{Tonic} {W : Type} (module : Module_ W).

Abbreviation Rpc := (eff W GrpcStatus).

Definition require_v1 (api_version : string) : result unit GrpcStatus :=
  if decide (api_version = Convert.API_VERSION) then Ok ()
  else Err (mkGrpcStatus Unimplemented ("api_version " +:+ debug_str api_version +:+ " not supported")).

Definition info_rpc (api_version : string) : Rpc ModuleInfo := λ w,
  (let? _ := require_v1 api_version in Ok (md_info module w), w).

(** No adapter calls it; the module is initialised by [serve]. *)
Definition init_rpc (api_version : string) : Rpc string := pure (let? _ := require_v1 api_version in Ok "").

(** The error field of a response without other fields. *)
Definition error_field (r : result unit ModuleError) : string :=
  match r with Ok _ => "" | Err e => me_message e end.

Definition start_rpc (api_version : string) : Rpc string :=
  let! _ := pure (require_v1 api_version) in
  λ w, let '(r, w) := md_start module w in (Ok (error_field r), w).

Definition stop_rpc (api_version : string) : Rpc string :=
  let! _ := pure (require_v1 api_version) in
  λ w, let '(r, w) := md_stop module w in (Ok (error_field r), w).

Definition status_rpc (api_version : string) : Rpc Pb.StatusResponse :=
  let! _ := pure (require_v1 api_version) in
  λ w, let '(r, w) := md_status module w in
  (Ok match r with
      | Ok status => Convert.status_to_proto status
      | Err e => Pb.mkStatusResponse "" ∅ (me_message e)
      end, w).

Definition health_rpc (api_version : string) : Rpc Pb.HealthResponse :=
  let! _ := pure (require_v1 api_version) in
  λ w, let '(report, w) := md_health module w in (Ok (Convert.health_report_to_proto report), w).

Definition commands_rpc (api_version : string) : Rpc (list Pb.CommandSpec) := λ w,
  (let? _ := require_v1 api_version in Ok (map Convert.command_spec_to_proto (md_commands module w)), w).

Definition dispatch_rpc (api_version : string) (path : list string) (flags : gmap string string)
    (args : list string) : Rpc Pb.DispatchResponse :=
  let! _ := pure (require_v1 api_version) in
  λ w, let '(outcome, w) := md_dispatch module path flags args w in
  (Ok match outcome with
      | Ok result => Convert.command_result_to_proto result
      | Err e => Pb.mkDispatchResponse "" [] 0 (me_message e)
      end, w).

Definition config_schema_rpc (api_version : string) : Rpc bytes := λ w,
  (let? _ := require_v1 api_version in Ok (default [] (md_config_schema module w)), w).
End Server.

(** ** Between the processes *)

Inductive Fault :=
| Delivered
| NotSent (status : GrpcStatus)                  (* the module never sees the call *)
| ReplyLost (status : GrpcStatus).               (* it was executed, the answer is gone *)

Record Wire (W : Type) := mkWire { wi_world : W; wi_fault : nat → Fault; wi_calls : nat }.
Arguments mkWire {W}.
Arguments wi_world {W}.
Arguments wi_fault {W}.
Arguments wi_calls {W}.

Definition over_wire {W A} (handler : eff W GrpcStatus A) : eff (Wire W) GrpcStatus A := λ c,
  let sent w := mkWire w (wi_fault c) (S (wi_calls c)) in
  match wi_fault c (wi_calls c) with
  | Delivered => let '(r, w) := handler (wi_world c) in (r, sent w)
  | NotSent status => (Err status, sent (wi_world c))
  | ReplyLost status => let '(_, w) := handler (wi_world c) in (Err status, sent w)
  end.

(** ** The daemon's side *)

Section Adapter.
  Context `{Tonic} {W : Type} (module : Module_ W).

Abbreviation Call := (eff (Wire W) ModuleError).

Record ModuleAdapter := mkAdapter {
  ma_info : ModuleInfo;
  ma_commands : list CommandSpec;
  ma_config_schema : option bytes;
}.

Definition status_to_module_error (status : GrpcStatus) : ModuleError := mkModuleError (status_display status).

Definition wire_result {A} (value : A) (error : string) : result A ModuleError :=
  if decide (error = "") then Ok value else Err (mkModuleError error).

(** [client.method(..).await.map_err(status_to_module_error)?]. *)
Definition client {A} (handler : eff W GrpcStatus A) : Call A := λ c,
  let '(r, c) := over_wire handler c in (map_err status_to_module_error r, c).

Definition fetch_commands : Wire W → list CommandSpec * Wire W := λ c,
  let '(result, c) := over_wire (commands_rpc module Convert.API_VERSION) c in
  (match result with
   | Ok commands => map Convert.command_spec_from_proto commands
   | Err _ => []
   end, c).

Definition fetch_config_schema : Wire W → option bytes * Wire W := λ c,
  let '(result, c) := over_wire (config_schema_rpc module Convert.API_VERSION) c in
  (match result with
   | Err _ => None
   | Ok schema => if decide (schema = []) then None else Some schema
   end, c).

Definition adapter_connect : Call ModuleAdapter :=
  let! info := client (info_rpc module Convert.API_VERSION) in
  λ c, let '(commands, c) := fetch_commands c in
       let '(config_schema, c) := fetch_config_schema c in
       (Ok (mkAdapter info commands config_schema), c).

(** The plugin initialises itself. *)
Definition adapter_init : Call unit := pure (Ok ()).

Definition adapter_start : Call unit :=
  let! error := client (start_rpc module Convert.API_VERSION) in pure (wire_result () error).

Definition adapter_stop : Call unit :=
  let! error := client (stop_rpc module Convert.API_VERSION) in pure (wire_result () error).

Definition adapter_status : Call Status :=
  let! response := client (status_rpc module Convert.API_VERSION) in
  pure (wire_result (Convert.status_from_proto response) (Pb.s_error response)).

(** [now]: the clock when a failed call is reported. *)
Definition adapter_health (now : SystemTime) : Wire W → HealthReport * Wire W := λ c,
  let '(result, c) := over_wire (health_rpc module Convert.API_VERSION) c in
  (match result with
   | Ok response => Convert.health_report_from_proto response
   | Err status => mkHealthReport LUnhealthy (status_display status) now
   end, c).

Definition adapter_dispatch (path : list string) (flags : gmap string string) (args : list string) :
    Call CommandResult :=
  let! response := client (dispatch_rpc module Convert.API_VERSION path flags args) in
  pure (wire_result (Convert.command_result_from_proto response) (Pb.d_error response)).
End Adapter.

(** The two sides share the sentinel of a missing secret. *)
Definition secret_error_from_message (message : string) : SecretError :=
  if decide (message = "not found") then SecretNotFound else SecretOther message.

(** ** Calls and their outcomes *)

Inductive Op :=
| OStart
| OStop
| OStatus
| OHealth (now : SystemTime)
| ODispatch (path : list string) (flags : gmap string string) (args : list string).

Inductive Outcome :=
| Plain (r : result unit ModuleError)
| StatusOf (r : result Status ModuleError)
| HealthOf (report : HealthReport)
| ResultOf (r : result CommandResult ModuleError).

Section Calls.
  Context `{Tonic} {W : Type} (module : Module_ W).

Definition on {S A} (f : A → Outcome) (m : S → A * S) : S → Outcome * S := λ s, let '(a, s) := m s in (f a, s).

(** The module called in place, and through its adapter. *)
Definition direct (op : Op) : W → Outcome * W :=
  match op with
  | OStart => on Plain (md_start module)
  | OStop => on Plain (md_stop module)
  | OStatus => on StatusOf (md_status module)
  | OHealth _ => on HealthOf (md_health module)
  | ODispatch path flags args => on ResultOf (md_dispatch module path flags args)
  end.

Definition remote (op : Op) : Wire W → Outcome * Wire W :=
  match op with
  | OStart => on Plain (adapter_start module)
  | OStop => on Plain (adapter_stop module)
  | OStatus => on StatusOf (adapter_status module)
  | OHealth now => on HealthOf (adapter_health module now)
  | ODispatch path flags args => on ResultOf (adapter_dispatch module path flags args)
  end.

Fixpoint calls {S} (f : Op → S → Outcome * S) (ops : list Op) (s : S) : list Outcome * S :=
  match ops with
  | [] => ([], s)
  | op :: ops => let '(o, s) := f op s in let '(l, s) := calls f ops s in (o :: l, s)
  end.
End Calls.

(** What the wire can carry: a failure needs a message, a time must be within
    292 years of 1970. *)
Definition carried (o : Outcome) : Prop :=
  match o with
  | Plain (Err e) | StatusOf (Err e) | ResultOf (Err e) => me_message e ≠ ""
  | HealthOf report => (- 2 ^ 63 < hr_checked_at report < 2 ^ 63)%Z
  | _ => True
  end.

(** A call that failed on the way. *)
Definition failed_with `{Tonic} (op : Op) (status : GrpcStatus) : Outcome :=
  let e := mkModuleError (status_display status) in
  match op with
  | OStart | OStop => Plain (Err e)
  | OStatus => StatusOf (Err e)
  | OHealth now => HealthOf (mkHealthReport LUnhealthy (status_display status) now)
  | ODispatch _ _ _ => ResultOf (Err e)
  end.

(** ** Theorems *)

Section Facts.
  Context `{Tonic} {W : Type} (module : Module_ W).

Lemma require_v1_current : require_v1 Convert.API_VERSION = Ok ().
Proof. unfold require_v1. by case_decide. Qed.

Lemma wire_result_empty {A} (a : A) : wire_result a "" = Ok a.
Proof. unfold wire_result. by case_decide. Qed.

Lemma wire_result_error {A} (a : A) m : m ≠ "" → wire_result a m = Err (mkModuleError m).
Proof. intros. unfold wire_result. by case_decide. Qed.

Lemma status_wire s : Convert.status_from_proto (Convert.status_to_proto s) = s.
Proof. destruct s. unfold Convert.status_from_proto. simpl. by rewrite ModuleState_parse_as_str. Qed.

Lemma health_wire h :
  (- 2 ^ 63 < hr_checked_at h < 2 ^ 63)%Z → Convert.health_report_from_proto (Convert.health_report_to_proto h) = h.
Proof.
  intros. destruct h. unfold Convert.health_report_from_proto. simpl in *.
  by rewrite HealthLevel_from_as_i32, unix_nano_round_trip.
Qed.

(** One call, by what becomes of it on the way. *)
Lemma remote_call (op : Op) (c : Wire W) :
  let sent w := mkWire w (wi_fault c) (S (wi_calls c)) in
  let '(o, w) := direct module op (wi_world c) in
  match wi_fault c (wi_calls c) with
  | Delivered => ∃ o', remote module op c = (o', sent w) ∧ (carried o → o' = o)
  | NotSent status => remote module op c = (failed_with op status, sent (wi_world c))
  | ReplyLost status => remote module op c = (failed_with op status, sent w)
  end.
Proof.
  assert (∀ e : ModuleError, mkModuleError (me_message e) = e) as He by (by intros []).
  destruct op; simpl; unfold on, adapter_start, adapter_stop, adapter_status, adapter_health, adapter_dispatch,
    client, eff_bind, over_wire, start_rpc, stop_rpc, status_rpc, health_rpc, dispatch_rpc, eff_bind, pure;
    rewrite require_v1_current.
  - destruct (md_start module _) as [[[]|e] w]; destruct (wi_fault _ _); try done; (eexists; split; [done|]); simpl; intros.
    + by rewrite wire_result_empty.
    + by rewrite wire_result_error, He.
  - destruct (md_stop module _) as [[[]|e] w]; destruct (wi_fault _ _); try done; (eexists; split; [done|]); simpl; intros.
    + by rewrite wire_result_empty.
    + by rewrite wire_result_error, He.
  - destruct (md_status module _) as [[s|e] w]; destruct (wi_fault _ _); try done; (eexists; split; [done|]); simpl; intros.
    + by rewrite wire_result_empty, status_wire.
    + by rewrite wire_result_error, He.
  - destruct (md_health module _) as [h w]; destruct (wi_fault _ _); try done; (eexists; split; [done|]); simpl; intros.
    by rewrite health_wire.
  - destruct (md_dispatch module _ _ _ _) as [[r|e] w]; destruct (wi_fault _ _); try done; (eexists; split; [done|]); simpl; intros.
    + rewrite wire_result_empty. by destruct r.
    + by rewrite wire_result_error, He.
Qed.

(** C12: A plugin is indistinguishable from a built-in module.  While calls
    get through, connecting yields the module's own identity, commands and
    schema (an empty schema being none), and any sequence of calls through the
    adapter has the results and the effect of the same calls on the module
    itself, as long as what the module answers can be carried: a failure has a
    message and a time fits the wire. *)
Theorem plugin_equals_builtin (w : W) (ops : list Op) :
  let '(outcomes, w') := calls (direct module) ops w in
  Forall carried outcomes →
  let c := mkWire w (λ _, Delivered) 0 in
  let '(connected, c) := adapter_connect module c in
  connected = Ok (mkAdapter (md_info module w) (md_commands module w)
                    (match md_config_schema module w with Some [] => None | schema => schema end)) ∧
  calls (remote module) ops c = (outcomes, mkWire w' (λ _, Delivered) (3 + length ops)).
Proof.
  assert (∀ ops w n, let '(outcomes, w') := calls (direct module) ops w in
    Forall carried outcomes →
    calls (remote module) ops (mkWire w (λ _, Delivered) n) =
      (outcomes, mkWire w' (λ _, Delivered) (n + length ops))) as Hops.
  { clear w ops. intros ops. induction ops as [|op ops IH]; intros w n; simpl.
    { intros _. by rewrite Nat.add_0_r. }
    pose proof (remote_call op (mkWire w (λ _, Delivered) n)) as Hc. simpl in Hc.
    destruct (direct module op w) as [o w1]. specialize (IH w1 (S n)).
    destruct (calls (direct module) ops w1) as [l w2]. intros [Ho Hl]%Forall_cons.
    destruct Hc as (o' & -> & Hc). rewrite (Hc Ho), (IH Hl). do 2 f_equal. lia. }
  specialize (Hops ops w 3). destruct (calls (direct module) ops w) as [outcomes w']. intros Hcar.
  unfold adapter_connect, client, eff_bind, fetch_commands, fetch_config_schema, over_wire; simpl.
  split; [|by apply Hops]. do 2 f_equal.
  - rewrite map_map. erewrite map_ext; [apply map_id|]. intros. apply command_spec_wire_round_trip.
  - by destruct (md_config_schema module w) as [[|]|].
Qed.

(** A call is executed at most once, whatever happens on the way, and
    never reported as done when its answer did not come: it has the effect of
    one call on the module or none, and if it failed on the way the caller
    sees an error, or an unhealthy report, with the transport's message. *)
Theorem plugin_call_at_most_once (op : Op) (c : Wire W) :
  let '(o, c') := remote module op c in
  let '(o_direct, w) := direct module op (wi_world c) in
  wi_calls c' = S (wi_calls c) ∧
  match wi_fault c (wi_calls c) with
  | Delivered => wi_world c' = w ∧ (carried o_direct → o = o_direct)
  | NotSent status => wi_world c' = wi_world c ∧ o = failed_with op status
  | ReplyLost status => wi_world c' = w ∧ o = failed_with op status
  end.
Proof.
  pose proof (remote_call op c) as Hc. destruct (direct module op (wi_world c)) as [o_direct w].
  destruct (wi_fault c (wi_calls c)); [destruct Hc as (o' & -> & Hc)|rewrite Hc..]; simpl; by split_and!.
Qed.

(** A module that fails without saying why is taken for one that started:
    the wire has no other sign of failure than the message. *)
Theorem silent_failure_is_success (c : Wire W) (w : W) :
  wi_fault c (wi_calls c) = Delivered → md_start module (wi_world c) = (Err (mkModuleError ""), w) →
  (adapter_start module c).1 = Ok ().
Proof.
  intros Hf Hs. pose proof (remote_call OStart c) as Hc. unfold direct, on in Hc. rewrite Hs, Hf in Hc.
  destruct Hc as (o & E & _). revert E. unfold remote, on, adapter_start, client, over_wire, eff_bind. rewrite Hf.
  unfold start_rpc, eff_bind, pure. rewrite require_v1_current, Hs. simpl. by rewrite wire_result_empty.
Qed.
End Facts.

(** ** A module *)

Module WireWitness.
Definition tonic : Tonic := {| status_display := gs_message; debug_str := id |}.
#[local] Existing Instance tonic.

(** It counts its starts and fails the second. *)
Definition counter : Module_ nat :=
  mkModule (λ _, mkModuleInfo "counter" "1.0" "" "")
    (λ n, (if n =? 1 then Err (mkModuleError "again") else Ok (), S n)) (λ n, (Ok (), n))
    (λ n, (Ok (mkStatus Running {["n" := pretty n]}), n)) (λ n, (mkHealthReport LHealthy "" 7%Z, n))
    (λ _, []) (λ _ _ _ n, (Ok (mkCommandResult "" [] 3%Z), n)) (λ _, Some []).

Lemma plugin_equals_builtin_witness :
  (calls (remote counter) [OStart; OStart; OStatus] (adapter_connect counter (mkWire 0 (λ _, Delivered) 0)).2).1 =
    [Plain (Ok ()); Plain (Err (mkModuleError "again")); StatusOf (Ok (mkStatus Running {["n" := "2"]}))].
Proof.
  refine (f_equal fst (proj2 (plugin_equals_builtin counter 0 [OStart; OStart; OStatus] _))).
  by repeat constructor.
Defined.

Definition silent : Module_ nat :=
  mkModule (λ _, mkModuleInfo "silent" "1.0" "" "") (λ n, (Err (mkModuleError ""), n)) (λ n, (Ok (), n))
    (λ n, (Ok (mkStatus Running ∅), n)) (λ n, (mkHealthReport LHealthy "" 7%Z, n)) (λ _, [])
    (λ _ _ _ n, (Ok (mkCommandResult "" [] 3%Z), n)) (λ _, None).

Lemma silent_failure_is_success_witness : (adapter_start silent (mkWire 0 (λ _, Delivered) 0)).1 = Ok ().
Proof. by apply (silent_failure_is_success silent (mkWire 0 (λ _, Delivered) 0) 0). Defined.
End WireWitness.
