(* ===== verification/PluginBroker.v ===== *)
(** * The connection broker (crates/penguin-goplugin-host/src/broker.rs,
    crates/penguin-sdk/src/plugin/broker.rs)

    Both processes keep a table of pending connections by number, filled by the
    peer's announcements and emptied by [dial].  The two tables are the same
    code; the ends differ in what they do with an announcement.  Calls of
    [dial] wait, so a run interleaves announcements with the starts, polls and
    timeouts of the dials. *)
From S2P Require Import Prelude.
From stdpp Require Import pretty.

Record ConnInfo := mkConnInfo { ci_service_id : Z; ci_network : string; ci_address : string }.

(** The channel of a slot holds one message; [sl_receiver]: its receiver is
    still in the slot; [sl_closed]: the receiver was dropped. *)
Record PendingSlot := mkSlot { sl_message : option ConnInfo; sl_receiver : bool; sl_closed : bool }.

Definition new_pending_slot : PendingSlot := mkSlot None true false.

Inductive DialError := DialledTwice | DialTimedOut.

Inductive Dial := Waiting | Dialled (r : result ConnInfo DialError).

Record Broker := mkBroker { br_pending : gmap Z PendingSlot; br_dials : list (Z * Dial) }.

Definition broker_new : Broker := mkBroker ∅ [].

Definition slot (id : Z) (b : Broker) : PendingSlot := default new_pending_slot (br_pending b !! id).

(** [try_send]: a full or closed channel drops the message. *)
Definition try_send (info : ConnInfo) (s : PendingSlot) : PendingSlot :=
  if sl_closed s then s
  else match sl_message s with
       | Some _ => s
       | None => mkSlot (Some info) (sl_receiver s) false
       end.

(** One message of [dispatch_inbound]. *)
Definition deliver (info : ConnInfo) (b : Broker) : Broker :=
  mkBroker (<[ci_service_id info := try_send info (slot (ci_service_id info) b)]> (br_pending b)) (br_dials b).

(** [dial] up to its await. *)
Definition dial_start (id : Z) (b : Broker) : Broker :=
  let s := slot id b in
  if sl_receiver s then
    mkBroker (<[id := mkSlot (sl_message s) false (sl_closed s)]> (br_pending b)) (br_dials b ++ [(id, Waiting)])
  else mkBroker (<[id := s]> (br_pending b)) (br_dials b ++ [(id, Dialled (Err DialledTwice))]).

(** The await: a message that is there wins over a timeout; either way the
    receiver is dropped.  The table keeps the sender, so the channel never ends
    on a waiting dial, also when the stream has. *)
Definition dial_poll (timed_out : bool) (k : nat) (b : Broker) : Broker :=
  match br_dials b !! k with
  | Some (id, Waiting) =>
      let done r := mkBroker (<[id := mkSlot None false true]> (br_pending b)) (<[k := (id, Dialled r)]> (br_dials b)) in
      match sl_message (slot id b) with
      | Some info => done (Ok info)
      | None => if timed_out then done (Err DialTimedOut) else b
      end
  | _ => b
  end.

Inductive Step :=
| Deliver (info : ConnInfo)
| DialStart (id : Z)
| DialPoll (timed_out : bool) (k : nat).

Definition step (b : Broker) (a : Step) : Broker :=
  match a with
  | Deliver info => deliver info b
  | DialStart id => dial_start id b
  | DialPoll timed_out k => dial_poll timed_out k b
  end.

Definition run (steps : list Step) (b : Broker) : Broker := foldl step b steps.

(** ** What each side makes of it *)

Definition DialError_display (id : Z) (e : DialError) : string :=
  match e with
  | DialledTwice => "dial called more than once for broker id " +:+ pretty id
  | DialTimedOut => "timed out waiting for connection info for broker id " +:+ pretty id
  end.

Definition HOST_SERVICE_BROKER_ID : Z := 1.

(** The host dials whatever address was announced. *)
Definition host_dial (connect : string → result unit string) (id : Z) (r : result ConnInfo DialError) :
    result unit string :=
  let? info := map_err (DialError_display id) r in
  map_err (λ e, "dial broker connection " +:+ ci_address info +:+ ": " +:+ e) (connect (ci_address info)).

(** The plugin takes only unix sockets. *)
Definition plugin_dial (debug : string → string) (id : Z) (r : result ConnInfo DialError) : result string string :=
  let? info := map_err (DialError_display id) r in
  if decide (ci_network info = "unix") then Ok (ci_address info)
  else Err ("unsupported broker network " +:+ debug (ci_network info) +:+ " for id " +:+ pretty id +:+
            " (only unix is supported)").

(** [accept]: what is bound, and what is announced once it is. *)
Definition accept_path (socket_dir : string) (id : Z) : string := socket_dir +:+ "/" +:+ pretty id +:+ ".sock".

Definition accept (bind : string → result unit string) (stream_open : bool) (id : Z) (socket_dir : string) :
    result ConnInfo string :=
  let path := accept_path socket_dir id in
  let? _ := map_err (λ e, "bind broker socket " +:+ path +:+ ": " +:+ e) (bind path) in
  if stream_open then Ok (mkConnInfo id "unix" path) else Err "broker stream closed".

(** ** The specification *)

(** A ledger of announcements and dials. *)
Record Ledger := mkLedger { lg_announced : list ConnInfo; lg_dials : list (Z * Dial) }.

Definition first_for (id : Z) (l : list ConnInfo) : option ConnInfo := head (filter (λ i, ci_service_id i = id) l).

Definition dialled (id : Z) (l : list (Z * Dial)) : bool := existsb (λ d, bool_decide (d.1 = id)) l.

Definition ledger_step (g : Ledger) (a : Step) : Ledger :=
  match a with
  | Deliver info => mkLedger (lg_announced g ++ [info]) (lg_dials g)
  | DialStart id =>
      mkLedger (lg_announced g)
        (lg_dials g ++ [(id, if dialled id (lg_dials g) then Dialled (Err DialledTwice) else Waiting)])
  | DialPoll timed_out k =>
      mkLedger (lg_announced g)
        (alter (λ d, match d with
           | (id, Waiting) =>
               (id, match first_for id (lg_announced g) with
                    | Some info => Dialled (Ok info)
                    | None => if timed_out then Dialled (Err DialTimedOut) else Waiting
                    end)
           | _ => d
           end) k (lg_dials g))
  end.

Definition ledger_run (steps : list Step) : Ledger := foldl ledger_step (mkLedger [] []) steps.

(** ** The refinement *)

Definition waits (id : Z) (d : Z * Dial) : Prop := d = (id, Waiting).

(** A slot holds the first announcement until its one dial is over. *)
Record Slots (b : Broker) (announced : list ConnInfo) : Prop := {
  slots_receiver : ∀ id, sl_receiver (slot id b) = negb (dialled id (br_dials b));
  slots_closed : ∀ id, sl_closed (slot id b) = true ↔
    dialled id (br_dials b) = true ∧ ¬ Exists (waits id) (br_dials b);
  slots_message : ∀ id, sl_message (slot id b) = if sl_closed (slot id b) then None else first_for id announced;
  slots_one : ∀ id j k, br_dials b !! j = Some (id, Waiting) → br_dials b !! k = Some (id, Waiting) → j = k;
}.

Lemma first_for_snoc id l i :
  first_for id (l ++ [i]) =
    match first_for id l with Some j => Some j | None => if decide (ci_service_id i = id) then Some i else None end.
Proof.
  unfold first_for. rewrite filter_app, filter_cons, filter_nil.
  destruct (filter _ l); simpl; [by case_decide|done].
Qed.

Lemma dialled_snoc id l d : dialled id (l ++ [d]) = dialled id l || bool_decide (d.1 = id).
Proof. unfold dialled. rewrite existsb_app. simpl. by rewrite orb_false_r. Qed.

Lemma dialled_waits id l : Exists (waits id) l → dialled id l = true.
Proof.
  intros (d & Hd & ->)%Exists_exists. apply existsb_exists. exists (id, Waiting). split; [|by apply bool_decide_eq_true_2].
  by apply list_elem_of_In.
Qed.

Lemma dialled_insert id l k i d d' : l !! k = Some (i, d') → dialled id (<[k := (i, d)]> l) = dialled id l.
Proof.
  revert k. induction l as [|x l IH]; intros [|k] E; simpl in *; simplify_eq/=; [done|]. by rewrite IH.
Qed.

Lemma slot_insert id i s b l : slot id (mkBroker (<[i := s]> (br_pending b)) l) = if decide (id = i) then s else slot id b.
Proof. unfold slot. simpl. case_decide; subst; [by rewrite lookup_insert_eq|by rewrite lookup_insert_ne]. Qed.

Lemma deliver_slots info b l : Slots b l → Slots (deliver info b) (l ++ [info]).
Proof.
  intros [Hr Hc Hm Ho].
  assert (∀ id, sl_receiver (slot id (deliver info b)) = sl_receiver (slot id b) ∧
    sl_closed (slot id (deliver info b)) = sl_closed (slot id b)) as Hsame.
  { intros id. unfold deliver. rewrite slot_insert. case_decide; subst; [|done]. unfold try_send.
    destruct (slot _ b) as [[] ? []]; done. }
  split; simpl; intros; try apply Hsame; eauto.
  - destruct (Hsame id) as [-> _]. apply Hr.
  - destruct (Hsame id) as [_ ->]. apply Hc.
  - destruct (Hsame id) as [_ ->]. rewrite first_for_snoc. specialize (Hm id). unfold deliver. rewrite slot_insert.
    case_decide; subst; [|by rewrite Hm; destruct (sl_closed _); [|destruct (first_for _ _)]; rewrite ?decide_False by congruence].
    rewrite decide_True by done. unfold try_send.
    destruct (slot (ci_service_id info) b) as [m r []]; simpl in *; [done|]. subst m.
    by destruct (first_for _ _).
Qed.

Lemma dial_start_slots id b l : Slots b l → Slots (dial_start id b) l.
Proof.
  intros [Hr Hc Hm Ho]. pose proof (Hr id) as Hri. unfold dial_start.
  destruct (sl_receiver (slot id b)) eqn:Es.
  - assert (dialled id (br_dials b) = false) as Hd by (destruct (dialled _ _); done).
    assert (sl_closed (slot id b) = false) as Hcl.
    { apply not_true_is_false. intros [E _]%Hc. congruence. }
    split; simpl; intros; rewrite ?slot_insert, ?dialled_snoc; simpl.
    + case_decide; subst; simpl; [by rewrite bool_decide_eq_true_2, orb_true_r|].
      by rewrite Hr, bool_decide_eq_false_2, orb_false_r.
    + rewrite Exists_app, Exists_cons, Exists_nil. case_decide; subst; simpl.
      * rewrite Hcl. split; [done|]. intros [_ []]. by right; left.
      * rewrite bool_decide_eq_false_2, orb_false_r, Hc by done. unfold waits. naive_solver.
    + case_decide; subst; simpl; apply Hm.
    + assert (∀ j, (br_dials b ++ [(id, Waiting)]) !! j = Some (id0, Waiting) →
        br_dials b !! j = Some (id0, Waiting) ∨ j = length (br_dials b) ∧ id0 = id) as Hj.
      { intros i [?|[? Hi]]%lookup_app_Some; [by left|]. apply list_lookup_singleton_Some in Hi as [? [= ->]].
        right. split; [lia|done]. }
      assert (∀ i, br_dials b !! i = Some (id, Waiting) → False) as Hno.
      { intros i Hi. assert (dialled id (br_dials b) = true) as E2; [|congruence].
        apply dialled_waits, Exists_exists. exists (id, Waiting). split; [by eapply list_elem_of_lookup_2|done]. }
      destruct (Hj j) as [?|[-> ->]], (Hj k) as [?|[-> ?]]; try done; subst; eauto; exfalso; eauto.
  - assert (dialled id (br_dials b) = true) as Hd by (destruct (dialled _ _); done).
    assert (∀ i, slot i (mkBroker (<[id := slot id b]> (br_pending b)) (br_dials b ++ [(id, Dialled (Err DialledTwice))])) =
      slot i b) as Hs by (intros i; rewrite slot_insert; by case_decide; subst).
    split; simpl; intros; rewrite ?Hs, ?dialled_snoc; simpl.
    + rewrite Hr. case_bool_decide; subst; [by rewrite Hd|by rewrite orb_false_r].
    + rewrite Exists_app, Exists_cons, Exists_nil, Hc. unfold waits.
      case_bool_decide; subst; rewrite ?orb_false_r; [rewrite Hd|]; naive_solver.
    + apply Hm.
    + assert (∀ j, (br_dials b ++ [(id, Dialled (Err DialledTwice))]) !! j = Some (id0, Waiting) →
        br_dials b !! j = Some (id0, Waiting)) as Hj.
      { intros i [?|[? Hi]]%lookup_app_Some; [done|]. by apply list_lookup_singleton_Some in Hi as [? ?]. }
      eauto.
Qed.

Lemma dial_over_slots id k r b l :
  br_dials b !! k = Some (id, Waiting) → Slots b l →
  Slots (mkBroker (<[id := mkSlot None false true]> (br_pending b)) (<[k := (id, Dialled r)]> (br_dials b))) l.
Proof.
  intros Hk [Hr Hc Hm Ho].
  assert (Exists (waits id) (br_dials b)) as Hw.
  { apply Exists_exists. exists (id, Waiting). split; [by eapply list_elem_of_lookup_2|done]. }
  assert (∀ j i, <[k := (id, Dialled r)]> (br_dials b) !! j = Some (i, Waiting) ↔
    br_dials b !! j = Some (i, Waiting) ∧ i ≠ id) as Hwait.
  { intros j i. destruct (decide (j = k)) as [->|].
    - rewrite list_lookup_insert_eq by (by eapply lookup_lt_Some). split; [done|]. intros [E ?]. congruence.
    - rewrite list_lookup_insert_ne by done. split; [|tauto]. intros Hj. split; [done|]. intros ->. eauto. }
  split; simpl; intros; rewrite ?slot_insert, ?(dialled_insert _ _ _ _ _ _ Hk); simpl.
  - case_decide; subst; simpl; [by rewrite (dialled_waits _ _ Hw)|apply Hr].
  - assert (Exists (waits id0) (<[k := (id, Dialled r)]> (br_dials b)) ↔ Exists (waits id0) (br_dials b) ∧ id0 ≠ id) as ->.
    { rewrite !Exists_exists. unfold waits. setoid_rewrite list_elem_of_lookup. naive_solver. }
    case_decide; subst; simpl; [rewrite (dialled_waits _ _ Hw); naive_solver|]. rewrite Hc. tauto.
  - by case_decide; subst; simpl.
  - apply Hwait in H as [? ?], H0 as [? ?]. eauto.
Qed.

Lemma alter_elsewhere {A} (f : A → A) k (l : list A) :
  (∀ x, l !! k = Some x → f x = x) → alter f k l = l.
Proof.
  intros Hf. apply list_eq. intros j. destruct (decide (j = k)) as [->|].
  - rewrite list_lookup_alter_eq. destruct (l !! k) as [x|] eqn:E; simpl; [by rewrite Hf|done].
  - by rewrite list_lookup_alter_ne.
Qed.

Lemma step_refines b g a :
  Slots b (lg_announced g) → br_dials b = lg_dials g →
  Slots (step b a) (lg_announced (ledger_step g a)) ∧ br_dials (step b a) = lg_dials (ledger_step g a).
Proof.
  intros HS Hd. destruct a as [info|id|t k]; simpl.
  - split; [by apply deliver_slots|done].
  - split; [by apply dial_start_slots|]. unfold dial_start. rewrite (slots_receiver _ _ HS), <- Hd.
    by destruct (dialled id (br_dials b)).
  - rewrite <- Hd. unfold dial_poll. destruct (br_dials b !! k) as [[id d]|] eqn:Ek.
    2: { split; [done|]. symmetry. apply alter_elsewhere. by rewrite Ek. }
    destruct d as [|r].
    2: { split; [done|]. symmetry. apply alter_elsewhere. rewrite Ek. by intros x [= <-]. }
    assert (∀ r, alter (λ d, match d with
      | (id, Waiting) => (id, r id)
      | _ => d end) k (br_dials b) = <[k := (id, r id)]> (br_dials b)) as Halter.
    { intros f. rewrite list_insert_alter. apply list_alter_ext; [|done]. intros x. rewrite Ek. by intros [= <-]. }
    rewrite Halter. rewrite (slots_message _ _ HS).
    assert (sl_closed (slot id b) = false) as ->.
    { apply not_true_is_false. intros [_ Hn]%(slots_closed _ _ HS). apply Hn, Exists_exists.
      exists (id, Waiting). split; [by eapply list_elem_of_lookup_2|done]. }
    destruct (first_for id (lg_announced g)); [|destruct t]; simpl.
    + split; [by apply dial_over_slots|done].
    + split; [by apply dial_over_slots|done].
    + split; [done|]. by rewrite list_insert_id.
Qed.

Lemma run_refines (steps : list Step) :
  Slots (run steps broker_new) (lg_announced (ledger_run steps)) ∧
  br_dials (run steps broker_new) = lg_dials (ledger_run steps).
Proof.
  unfold run, ledger_run. induction steps as [|a steps [IHs IHd]] using rev_ind; simpl.
  - split; [|done]. split; simpl; intros; unfold slot; simpl; rewrite ?lookup_empty; simpl; try done.
    split; [done|]. by intros [].
  - rewrite !foldl_app. simpl. by apply step_refines.
Qed.

(** C15: The broker pairs dials with announcements.  Whatever order
    announcements, dials and timeouts come in, the table of slots does what
    the ledger says: the one dial of a number gets the first announcement of
    that number, whether it came before the dial or while it waits; it times
    out only if there was none; and every further dial of the number is
    refused. *)
Theorem broker_refines_ledger (steps : list Step) :
  br_dials (run steps broker_new) = lg_dials (ledger_run steps).
Proof. apply run_refines. Qed.

(** An announcement that comes when nobody dials is kept. *)
Example announced_before_dial :
  br_dials (run [Deliver (mkConnInfo 1 "unix" "/a"); Deliver (mkConnInfo 1 "unix" "/b"); DialStart 1;
                 DialPoll true 0; DialStart 1] broker_new) =
    [(1%Z, Dialled (Ok (mkConnInfo 1 "unix" "/a"))); (1%Z, Dialled (Err DialledTwice))].
Proof. vm_compute. reflexivity. Qed.
