(* ===== verification/PluginProc.v ===== *)
(** * Plugin processes (crates/penguin-goplugin-host/src/client.rs, error.rs,
    mtls.rs)

    Launching a plugin, dispensing its module and shutting it down.  The world
    has the children spawned so far, each with the connection to the module it
    serves, and says for every launch what becomes of its steps.  The instance
    [process_host] is what the plugin loader is given. *)
From S2P Require Import Prelude Text Sdk Backoff Supervisor StateFile LogRing Service Handshake ExtPlugin External.
From S2P Require Import PluginBroker PluginWire.

Inductive HostError :=
| HSpawn (e : string)
| HExitedBeforeHandshake
| HHandshakeTimeout
| HHandshake (e : HandshakeError)
| HTls (e : string)
| HConnect (e : string)
| HBroker (e : string)
| HHealth (e : string)
| HShutdown (e : string).

(** The texts of [HandshakeError] and the debug form of strings. *)
Class HostTexts := { handshake_error_display : HandshakeError → string; debug_text : string → string }.

Definition HostError_display `{HostTexts} (e : HostError) : string :=
  match e with
  | HSpawn e => "failed to launch plugin process: " +:+ e
  | HExitedBeforeHandshake => "plugin process exited before completing the handshake"
  | HHandshakeTimeout => "timed out waiting for plugin handshake"
  | HHandshake e => "invalid plugin handshake: " +:+ handshake_error_display e
  | HTls e => "mTLS setup failed: " +:+ e
  | HConnect e => "failed to connect to plugin: " +:+ e
  | HBroker e => "broker error: " +:+ e
  | HHealth e => "plugin health check failed: " +:+ e
  | HShutdown e => "controller shutdown failed: " +:+ e
  end.

(** ** Certificates *)

#[local] Instance byte_eq_decision : EqDecision Byte.byte := Byte.byte_eq_dec.

(** The verifiers of both sides: the bytes of the certificate must be those
    that were pinned. *)
Definition verify_pinned (message : string) (pinned end_entity : bytes) : result unit string :=
  if decide (end_entity = pinned) then Ok () else Err message.

Definition verify_server_cert : bytes → bytes → result unit string :=
  verify_pinned "presented server certificate does not match the pinned handshake certificate".
Definition verify_client_cert : bytes → bytes → result unit string :=
  verify_pinned "presented client certificate does not match the pinned plugin certificate".

(** ** The steps of a launch *)

(** What [next_line] gives on the child's standard output. *)
Inductive LineRead := LineTimeout | LineFailed (e : string) | LineEof | Line (l : string).

(** How waiting two seconds for the child to exit ends. *)
Inductive Wait := Exited | WaitFailed | StillRunning.

Record Fate := mkFate {
  ft_identity : result unit string;              (* our key and certificate *)
  ft_spawn : result unit string;
  ft_line : LineRead;
  ft_client_tls : result unit string;
  ft_dial : result unit string;                  (* the socket itself *)
  ft_presents : bytes;                           (* the certificate it shows *)
  ft_channel : result unit string;               (* the rest of connecting *)
  ft_server_tls : result unit string;
  ft_bind : string → result unit string;
  ft_stream_open : bool;
  ft_health : result Z GrpcStatus;
  ft_wait : Wait;                                (* after [Shutdown] *)
  ft_kill : result unit string;
}.

Inductive Target := TUnix (path : string) | TTcp (address : string).

(** ** The host's children *)

Record Child (W : Type) := mkChild {
  ch_alive : bool;
  ch_wire : Wire W;
  ch_announced : list ConnInfo;
}.
Arguments mkChild {W}.
Arguments ch_alive {W}.
Arguments ch_wire {W}.
Arguments ch_announced {W}.

Record ProcWorld (W : Type) := mkProcWorld {
  pc_children : list (Child W);
  pc_fates : nat → Fate;
  pc_started : nat → Wire W;                      (* the module a new child serves *)
}.
Arguments mkProcWorld {W}.
Arguments pc_children {W}.
Arguments pc_fates {W}.
Arguments pc_started {W}.

Section Process.
  Context (base64_decode : string → result bytes string) `{HostTexts, Tonic}.

Definition target_parse (network address : string) : result Target HostError :=
  if decide (network = "unix") then Ok (TUnix address)
  else if decide (network = "tcp") then Ok (TTcp address)
  else Err (HConnect ("unsupported handshake network " +:+ debug_text network)).

Definition read_handshake_line (l : LineRead) : result Handshake HostError :=
  match l with
  | LineTimeout => Err HHandshakeTimeout
  | LineFailed e => Err (HSpawn e)
  | LineEof => Err HExitedBeforeHandshake
  | Line line => map_err HHandshake (Handshake.parse base64_decode (trim line))
  end.

(** [PluginConnector]: the socket, then TLS with the certificate pinned. *)
Definition connect_channel (peer_cert : bytes) (fate : Fate) : result unit HostError :=
  map_err HConnect
    (let? _ := ft_dial fate in
     let? _ := verify_server_cert peer_cert (ft_presents fate) in
     ft_channel fate).

(** [ServingStatus], unknown numbers included. *)
Definition serving_status (status : Z) : string :=
  if (status =? 1)%Z then "Serving" else if (status =? 2)%Z then "NotServing"
  else if (status =? 3)%Z then "ServiceUnknown" else "Unknown".

(** One check of the service ["plugin"]. *)
Definition wait_for_health (r : result Z GrpcStatus) : result unit HostError :=
  let? status := map_err (λ e, HHealth (status_display e)) r in
  if (status =? 1)%Z then Ok ()
  else Err (HHealth ("plugin health check returned " +:+ serving_status status +:+ " instead of SERVING")).

(** The part of [launch] after the handshake line: what was announced to the
    plugin, if it comes that far. *)
Definition after_handshake (host_routes : bool) (socket_dir : string) (handshake : Handshake) (fate : Fate) :
    result (list ConnInfo) HostError :=
  let? peer_cert := ok_or (hs_server_cert_der handshake) (HTls "plugin did not present an AutoMTLS certificate") in
  let? _ := target_parse (hs_network handshake) (hs_address handshake) in
  let? _ := map_err HTls (ft_client_tls fate) in
  let? _ := connect_channel peer_cert fate in
  let? announced :=
    (if host_routes then
       let? _ := map_err HTls (ft_server_tls fate) in
       let? info := map_err HBroker (accept (ft_bind fate) (ft_stream_open fate) HOST_SERVICE_BROKER_ID socket_dir) in
       Ok [info]
     else Ok []) in
  let? _ := wait_for_health (ft_health fate) in
  Ok announced.

(** ** The host *)

Context {W : Type} (module : Module_ W).

Definition set_children (l : list (Child W)) (w : ProcWorld W) : ProcWorld W :=
  mkProcWorld l (pc_fates w) (pc_started w).

Definition set_child (k : nat) (f : Child W → Child W) (w : ProcWorld W) : ProcWorld W :=
  set_children (alter f k (pc_children w)) w.

Definition kill (c : Child W) : Child W := mkChild false (ch_wire c) (ch_announced c).

(** [PluginProcess::launch]: the child's number, or the error.  Only a failed
    handshake kills the child; a handle that is dropped leaves it running. *)
Definition launch (host_routes : bool) (socket_dir : string) (w : ProcWorld W) : result nat HostError * ProcWorld W :=
  let k := length (pc_children w) in
  let fate := pc_fates w k in
  match (let? _ := map_err HTls (ft_identity fate) in map_err HSpawn (ft_spawn fate)) with
  | Err e => (Err e, w)
  | Ok _ =>
      let spawned alive announced := set_children (pc_children w ++ [mkChild alive (pc_started w k) announced]) w in
      match read_handshake_line (ft_line fate) with
      | Err e => (Err e, spawned false [])
      | Ok handshake =>
          match after_handshake host_routes socket_dir handshake fate with
          | Err e => (Err e, spawned true [])
          | Ok announced => (Ok k, spawned true announced)
          end
      end
  end.

(** [PluginProcess::dispense]. *)
Definition dispense (k : nat) (w : ProcWorld W) : result ModuleAdapter ModuleError * ProcWorld W :=
  match pc_children w !! k with
  | None => (Err (mkModuleError ""), w)
  | Some c =>
      let '(r, wire) := adapter_connect module (ch_wire c) in
      (r, set_child k (λ c, mkChild (ch_alive c) wire (ch_announced c)) w)
  end.

(** [PluginProcess::shutdown]: the controller call's failure is only logged,
    and a wait that fails counts as an exit. *)
Definition shutdown (k : nat) (w : ProcWorld W) : result unit HostError * ProcWorld W :=
  let fate := pc_fates w k in
  match ft_wait fate with
  | Exited => (Ok (), set_child k kill w)
  | WaitFailed => (Ok (), w)
  | StillRunning =>
      match ft_kill fate with
      | Err e => (Err (HBroker ("SIGKILL failed: " +:+ e)), w)
      | Ok _ => (Ok (), set_child k kill w)
      end
  end.

Definition child_stop (k : nat) (w : ProcWorld W) : result unit ModuleError * ProcWorld W :=
  match pc_children w !! k with
  | None => (Err (mkModuleError ""), w)
  | Some c =>
      let '(r, wire) := adapter_stop module (ch_wire c) in
      (r, set_child k (λ c, mkChild (ch_alive c) wire (ch_announced c)) w)
  end.

(** What a failed launch, in which the [k]-th child would be started, left. *)
Definition remains (k : nat) (w : ProcWorld W) : Remains nat :=
  match pc_children w !! k with
  | None => NotStarted
  | Some c => if ch_alive c then LeftRunning k else KilledAgain k
  end.

(** What the loader is given: it offers no routes of its own. *)
Definition process_host : PluginHost (ProcWorld W) := {|
  Proc := nat;
  Inner := nat * ModuleAdapter;
  proc_launch _ socket_dir w :=
    let k := length (pc_children w) in
    let '(r, w) := launch false socket_dir w in (map_err (λ e, (HostError_display e, remains k w)) r, w);
  proc_dispense k w :=
    let '(r, w) := dispense k w in
    (map_err me_message (let? a := r in Ok (k, a)), w);
  proc_shutdown k w := let '(r, w) := shutdown k w in (map_err HostError_display r, w);
  inner_stop i w := child_stop i.1 w;
|}.

(** ** Theorems *)

(** The children that run. *)
Definition running (w : ProcWorld W) : list bool := map ch_alive (pc_children w).

Lemma map_alter_kept k wire (l : list (Child W)) :
  map ch_alive (alter (λ c, mkChild (ch_alive c) wire (ch_announced c)) k l) = map ch_alive l.
Proof. revert k. induction l as [|c l IH]; intros [|k]; simpl; [done..|]. f_equal. apply IH. Qed.

Lemma dispense_running k w : running (dispense k w).2 = running w.
Proof.
  unfold dispense. destruct (pc_children w !! k) as [c|]; [|done].
  destruct (adapter_connect module (ch_wire c)) as [r wire]. apply map_alter_kept.
Qed.

Lemma map_alter_kill k (l : list (Child W)) : map ch_alive (alter kill k l) = alter (λ _, false) k (map ch_alive l).
Proof. revert k. induction l as [|c l IH]; intros [|k]; simpl; [done..|]. f_equal. apply IH. Qed.

(** A launch that comes to its end. *)
Lemma after_handshake_inv host_routes socket_dir h fate announced :
  after_handshake host_routes socket_dir h fate = Ok announced →
  ∃ cert, hs_server_cert_der h = Some cert ∧ (hs_network h = "unix" ∨ hs_network h = "tcp") ∧
    ft_presents fate = cert ∧ ft_health fate = Ok 1%Z ∧
    announced = if host_routes then [mkConnInfo 1 "unix" (accept_path socket_dir 1)] else [].
Proof.
  unfold after_handshake. destruct (hs_server_cert_der h) as [cert|]; [|done]. simpl.
  destruct (target_parse _ _) as [t|] eqn:Et; [|done]. simpl.
  destruct (map_err HTls (ft_client_tls fate)); [|done]. simpl.
  destruct (connect_channel cert fate) as [[]|] eqn:Ec; [|done]. simpl. intros E. exists cert. split_and!; [done|..].
  - unfold target_parse in Et. destruct (decide (hs_network h = "unix")); [by left|].
    destruct (decide (hs_network h = "tcp")); [by right|done].
  - unfold connect_channel, verify_server_cert, verify_pinned in Ec. destruct (ft_dial fate); [|done]. simpl in Ec.
    by destruct (decide (ft_presents fate = cert)).
  - match type of E with result_bind ?r _ = _ => destruct r as [l|]; [|done] end. simpl in E.
    unfold wait_for_health in E. destruct (ft_health fate) as [z|]; [|done]. simpl in E.
    destruct (z =? 1)%Z eqn:E1; [|done]. by apply Z.eqb_eq in E1 as ->.
  - destruct host_routes; [destruct (map_err HTls (ft_server_tls fate)); [|done]; simpl in E|].
    + unfold accept in E. destruct (ft_bind fate _); [|done]. simpl in E. destruct (ft_stream_open fate); [|done].
      simpl in E. by destruct (wait_for_health _); simplify_eq/=.
    + by destruct (wait_for_health _); simplify_eq/=.
Qed.

(** C14: A plugin's process is launched only on these terms and ends as
    told.  A launch that succeeds leaves one more child running, which shows
    the certificate it named in its handshake line and whose health is good;
    one that fails leaves none that was not started, kills the one whose
    handshake failed, and otherwise leaves it running.  A shutdown that
    succeeds leaves the child dead and the others as they were, unless waiting
    for it failed: that is taken for an exit, and nothing is killed. *)
Theorem plugin_process_lifecycle (host_routes : bool) (socket_dir : string) (w : ProcWorld W) :
  let fate := pc_fates w (length (pc_children w)) in
  (let '(r, w1) := launch host_routes socket_dir w in
   match r with
   | Ok k =>
       k = length (pc_children w) ∧ running w1 = running w ++ [true] ∧
       (∃ line cert network address, ft_line fate = Line line ∧
          Handshake.parse base64_decode (trim line) = Ok (mkHandshake 1 network address (Some cert)) ∧
          ft_presents fate = cert ∧ (network = "unix" ∨ network = "tcp")) ∧
       ft_health fate = Ok 1%Z
   | Err e =>
       w1 = w ∨ (is_ok (read_handshake_line (ft_line fate)) = false ∧ running w1 = running w ++ [false]) ∨
       (is_ok (read_handshake_line (ft_line fate)) = true ∧ running w1 = running w ++ [true])
   end) ∧
  ∀ k, let '(r, w2) := shutdown k w in
    match r with
    | Ok _ =>
        match ft_wait (pc_fates w k) with
        | WaitFailed => w2 = w
        | Exited | StillRunning => running w2 = alter (λ _, false) k (running w)
        end
    | Err _ => w2 = w ∧ ft_wait (pc_fates w k) = StillRunning ∧ is_ok (ft_kill (pc_fates w k)) = false
    end.
Proof.
  intros fate. split.
  - unfold launch. fold fate. destruct (let? _ := _ in _) as [[]|e]; [|by left].
    destruct (read_handshake_line (ft_line fate)) as [h|e] eqn:Eh; simpl.
    2: { right; left. split; [done|]. unfold running. simpl. by rewrite map_app. }
    destruct (after_handshake host_routes socket_dir h fate) as [announced|e] eqn:Ea.
    2: { right; right. split; [done|]. unfold running. simpl. by rewrite map_app. }
    split_and!; [done|unfold running; simpl; by rewrite map_app|..].
    + unfold read_handshake_line in Eh. destruct (ft_line fate) as [| | |line]; try done.
      destruct (Handshake.parse base64_decode (trim line)) as [h'|] eqn:Ep; simplify_eq/=.
      apply after_handshake_inv in Ea as (cert & Hc & Hn & Hp & _).
      apply handshake_accepts in Ep as Ep2. destruct Ep2 as (? & ? & net & addr & ? & cert' & _ & _ & _ & _ & _ & ->).
      simpl in *. subst cert'. exists line, cert, net, addr. by split_and!.
    + by apply after_handshake_inv in Ea as (cert & _ & _ & _ & Hh & _).
  - intros k. unfold shutdown. destruct (ft_wait (pc_fates w k)) eqn:Ew; rewrite ?Ew; [apply map_alter_kill|done|].
    destruct (ft_kill (pc_fates w k)) as [[]|]; [apply map_alter_kill|done].
Qed.

(** A plugin whose handshake line has no certificate is refused and left
    running, with nothing that could stop it. *)
Theorem failed_launch_leaks_process (socket_dir : string) (w : ProcWorld W) (line network address : string) :
  let fate := pc_fates w (length (pc_children w)) in
  ft_identity fate = Ok () → ft_spawn fate = Ok () → ft_line fate = Line line →
  Handshake.parse base64_decode (trim line) = Ok (mkHandshake 1 network address None) →
  let '(r, w1) := launch false socket_dir w in
  r = Err (HTls "plugin did not present an AutoMTLS certificate") ∧ running w1 = running w ++ [true].
Proof.
  intros fate Hi Hs Hl Hp. unfold launch. fold fate. rewrite Hi, Hs. simpl. rewrite Hl. simpl. rewrite Hp. simpl.
  split; [done|]. unfold running. simpl. by rewrite map_app.
Qed.

(** The loader announces no connection to any plugin. *)
Theorem loader_announces_nothing (socket_dir : string) (w : ProcWorld W) k w1 :
  launch false socket_dir w = (Ok k, w1) → ∃ c, pc_children w1 !! k = Some c ∧ ch_announced c = [].
Proof.
  unfold launch. set (fate := pc_fates w _). destruct (let? _ := _ in _) as [[]|e]; [|done].
  destruct (read_handshake_line (ft_line fate)) as [h|e]; [|done].
  destruct (after_handshake false socket_dir h fate) as [announced|e] eqn:Ea; [|done]. intros [= <- <-]. simpl.
  rewrite lookup_app_r, Nat.sub_diag by lia. eexists. split; [done|]. simpl.
  by apply after_handshake_inv in Ea as (? & _ & _ & _ & _ & ->).
Qed.
End Process.
