(* ===== verification/PluginServe.v ===== *)
(** * A plugin's own process (crates/penguin-sdk/src/plugin/: serve.rs,
    handshake.rs, mtls.rs, services.rs, hostservices.rs)

    What [serve] does from the environment to the handshake line, the gate that
    keeps calls waiting until the module is initialised, and the services of
    the host that the module is initialised with. *)
From S2P Require Import Prelude Text Sdk Backoff Supervisor StateFile LogRing Service Handshake.
From S2P Require Import PluginBroker PluginWire.

(** ** handshake.rs *)

Definition MAGIC_COOKIE_VALUE : string := "penguin-sdk-v1".

Definition magic_cookie_ok (cookie : option string) : bool :=
  bool_decide (default "" cookie = MAGIC_COOKIE_VALUE).

(** [STANDARD_NO_PAD] on this side; its alphabet has neither blanks nor [|]. *)
Class Base64NoPad := {
  nopad_encode : bytes → string;
  nopad_decode : string → result bytes string;
  nopad_round_trip : ∀ b, nopad_decode (nopad_encode b) = Ok b;
  nopad_alphabet : ∀ b, all_chars plain_char (nopad_encode b) = true ∧ no_char pipe (nopad_encode b) = true;
}.

(** [format!] with the two versions, which are constants. *)
Definition build_line `{Base64NoPad} (socket_path : string) (leaf_cert_der : bytes) : string :=
  "1|1|unix|" +:+ socket_path +:+ "|grpc|" +:+ nopad_encode leaf_cert_der.

(** ** mtls.rs: the host's certificate *)

Inductive PluginError :=
| PTls (e : string)
| PHostCert (e : string)
| PListener (e : string)
| PHandshake (e : string)
| PBroker (e : string)
| PHostConnect (e : string).

Definition PluginError_display (e : PluginError) : string :=
  match e with
  | PTls e => "mTLS setup failed: " +:+ e
  | PHostCert e => "invalid PLUGIN_CLIENT_CERT: " +:+ e
  | PListener e => "failed to create plugin listener: " +:+ e
  | PHandshake e => "failed to write handshake line: " +:+ e
  | PBroker e => "broker error: " +:+ e
  | PHostConnect e => "failed to connect to host services: " +:+ e
  end.

Section Startup.
  (** [base64::STANDARD.decode], and [{:x}]. *)
  Context (std_decode : string → result bytes string) (hex : Z → string) `{Base64NoPad}.

Definition parse_pem_cert_der (pem : string) : result bytes PluginError :=
  let body := foldr String.append "" (filter (λ line, String.prefix "-----" line = false) (lines pem)) in
  if decide (body = "") then Err (PHostCert "PLUGIN_CLIENT_CERT contained no certificate body")
  else map_err PHostCert (std_decode body).

Definition read_host_cert_from_env (var : option string) : result bytes PluginError :=
  let? pem := ok_or var (PHostCert "PLUGIN_CLIENT_CERT environment variable is not set") in
  parse_pem_cert_der pem.

(** ** serve.rs: up to the handshake line *)

Inductive Created := CreatedDir | AlreadyExists (e : string) | CreateFailed (e : string).

(** [make_socket_dir]: one attempt per suffix drawn, five at most. *)
Fixpoint make_socket_dir (base : string) (pid : Z) (create : string → Created) (chmod : result unit string)
    (last_error : string) (suffixes : list Z) : result string PluginError :=
  match suffixes with
  | [] => Err (PListener ("could not create a unique socket directory under " +:+ base +:+ ": " +:+ last_error))
  | suffix :: suffixes =>
      let dir := base +:+ "/pgp-" +:+ hex pid +:+ "-" +:+ hex suffix in
      match create dir with
      | CreatedDir => let? _ := map_err PListener chmod in Ok dir
      | AlreadyExists e => make_socket_dir base pid create chmod e suffixes
      | CreateFailed e => Err (PListener e)
      end
  end.

Record Env := mkEnv {
  en_cookie : option string;
  en_client_cert : option string;
  en_runtime : result unit string;
  en_identity : result bytes string;             (* the certificate of our new key *)
  en_temp_dir : string;
  en_pid : Z;
  en_suffixes : list Z;
  en_create : string → Created;
  en_chmod : result unit string;
  en_bind : string → result unit string;
  en_print : result unit string;
  en_server_tls : result unit string;
}.

(** The exit of the process with its message, or the line printed and the
    certificate the host must show. *)
Inductive Startup := Exited (code : Z) (message : string) | Listening (line : string) (host_cert : bytes).

Definition direct_execution : string :=
  "This binary is a plugin. These are not meant to be executed directly." +:+ String newline
    ("Please execute the program that consumes these plugins, which will" +:+ String newline
      "load any plugins automatically").

Definition or_exit {A} (what : string) (r : result A string) (k : A → Startup) : Startup :=
  match r with Ok a => k a | Err e => Exited 1 ("penguin-sdk: " +:+ what +:+ e) end.

Definition shown {A} (r : result A PluginError) : result A string := map_err PluginError_display r.

Definition start_serving (env : Env) : Startup :=
  if negb (magic_cookie_ok (en_cookie env)) then Exited 1 direct_execution
  else
    or_exit "failed to start tokio runtime: " (en_runtime env) (λ _,
    or_exit "failed to generate plugin identity: " (shown (map_err PTls (en_identity env))) (λ cert,
    or_exit "" (shown (read_host_cert_from_env (en_client_cert env))) (λ host_cert,
    or_exit "" (shown (make_socket_dir (en_temp_dir env) (en_pid env) (en_create env) (en_chmod env) ""
                         (take 5 (en_suffixes env)))) (λ dir,
    let socket_path := dir +:+ "/s" in
    or_exit "failed to bind plugin listener: " (en_bind env socket_path) (λ _,
    let line := build_line socket_path cert in
    or_exit "failed to print handshake line: " (shown (map_err PHandshake (en_print env))) (λ _,
    or_exit "failed to build server TLS config: " (shown (map_err PTls (en_server_tls env))) (λ _,
    Listening line host_cert))))))).
End Startup.

(** ** The line, printed and read *)

Lemma trim_plain_both c d s : plain_char c = true → plain_char d = true →
  trim (String c (s +:+ String d "")) = String c (s +:+ String d "").
Proof.
  intros Hc Hd. unfold trim. rewrite trim_start_plain by done.
  change (String c (s +:+ String d "")) with (String c s +:+ String d ""). by apply trim_end_plain.
Qed.

(** C16: The host reads the handshake line as the plugin means it: whatever
    the path of the socket, without [|], and the certificate, if it is not
    shorter than any certificate is, parsing the line the plugin prints gives
    protocol 1, the unix network, that path and those bytes. *)
Theorem handshake_round_trip `{Base64NoPad} (socket_path : string) (cert : bytes) :
  no_char pipe socket_path = true → 50 < String.length (nopad_encode cert) →
  Handshake.parse nopad_decode (trim (build_line socket_path cert)) =
    Ok (mkHandshake 1 "unix" socket_path (Some cert)).
Proof.
  intros Hp Hl. destruct (nopad_alphabet cert) as [Hplain Hpipe]. unfold build_line.
  assert (∃ r d, nopad_encode cert = r +:+ String d "" ∧ plain_char d = true) as (r & d & Er & Hd).
  { destruct (string_snoc (nopad_encode cert)) as (r & d & E).
    { intros E. rewrite E in Hl. simpl in Hl. lia. }
    exists r, d. split; [done|]. rewrite E, all_chars_app in Hplain. apply andb_true_iff in Hplain as [_ Hd]. simpl in Hd.
    by rewrite andb_true_r in Hd. }
  assert (trim ("1|1|unix|" +:+ socket_path +:+ "|grpc|" +:+ nopad_encode cert) =
    "1|1|unix|" +:+ socket_path +:+ "|grpc|" +:+ nopad_encode cert) as ->.
  { rewrite Er.
    pose proof (trim_plain_both (Ascii.ascii_of_nat 49) d ("|1|unix|" +:+ socket_path +:+ "|grpc|" +:+ r) eq_refl Hd) as E.
    rewrite !string_app_assoc in E. exact E. }
  apply handshake_accepts. exists "1", "1", "unix", socket_path, [nopad_encode cert], (Some cert). split_and!; try done.
  - by repeat constructor.
  - rewrite decide_True by lia. exists cert. by rewrite nopad_round_trip.
Qed.

(** ** services.rs: the gate *)

Inductive Init := Initialising | InitOver (panicked : bool).

(** The calls of [ModuleService]: [info], [commands] and [config_schema] are
    answered at any time, [init] asks nothing of the module, the others wait. *)
Inductive Metadata := MInfo | MCommands | MSchema.
Inductive Ask := Static (m : Metadata) | InitRpc | Operation (op : Op).

Inductive Answer :=
| InfoIs (info : ModuleInfo)
| CommandsAre (commands : list Pb.CommandSpec)
| SchemaIs (schema : bytes)
| InitIs (error : string)
| OutcomeIs (o : Outcome).

Inductive Rpc := Gated | Answered (r : result Answer GrpcStatus).

(** What the module was asked, oldest first; [k] is the call's number. *)
Inductive MEvent :=
| MInit (r : option (result unit ModuleError))
| MStatic (k : nat) (m : Metadata)
| MCalled (k : nat) (op : Op).

Section Gate.
  Context `{Tonic} {W : Type} (module : Module_ W) (init : W → result unit ModuleError * W).

Record Served := mkServed {
  sv_world : W;
  sv_init : Init;
  sv_rpcs : list (Ask * Rpc);
  sv_trace : list MEvent;
}.

Definition served_new (w : W) : Served := mkServed w Initialising [] [].

Inductive Happens :=
| Arrives (api_version : string) (ask : Ask)
| InitReturns                                     (* with or without an error *)
| InitPanics
| Proceeds (k : nat).

Definition static_rpc (api_version : string) (m : Metadata) (w : W) : result Answer GrpcStatus :=
  match m with
  | MInfo => let? info := (info_rpc module api_version w).1 in Ok (InfoIs info)
  | MCommands => let? commands := (commands_rpc module api_version w).1 in Ok (CommandsAre commands)
  | MSchema => let? schema := (config_schema_rpc module api_version w).1 in Ok (SchemaIs schema)
  end.

(** What a call has come to when it has arrived.  A wrong version is answered
    at once, and so is what does not wait for the gate. *)
Definition arrives (api_version : string) (ask : Ask) (w : W) : Rpc :=
  match ask with
  | Static m => Answered (static_rpc api_version m w)
  | InitRpc => Answered (let? error := (init_rpc api_version w).1 in Ok (InitIs error))
  | Operation _ => match require_v1 api_version with Ok _ => Gated | Err e => Answered (Err e) end
  end.

(** The calls of the module an arrival makes. *)
Definition asked_at_once (api_version : string) (ask : Ask) (k : nat) : list MEvent :=
  match ask, require_v1 api_version with
  | Static m, Ok _ => [MStatic k m]
  | _, _ => []
  end.

(** The gate is open once the value is true or its sender is gone. *)
Definition happen (s : Served) (a : Happens) : Served :=
  match a with
  | Arrives api_version ask =>
      mkServed (sv_world s) (sv_init s)
        (sv_rpcs s ++ [(ask, arrives api_version ask (sv_world s))])
        (sv_trace s ++ asked_at_once api_version ask (length (sv_rpcs s)))
  | InitReturns =>
      match sv_init s with
      | Initialising =>
          let '(r, w) := init (sv_world s) in
          mkServed w (InitOver false) (sv_rpcs s) (sv_trace s ++ [MInit (Some r)])
      | InitOver _ => s
      end
  | InitPanics =>
      match sv_init s with
      | Initialising => mkServed (sv_world s) (InitOver true) (sv_rpcs s) (sv_trace s ++ [MInit None])
      | InitOver _ => s
      end
  | Proceeds k =>
      match sv_init s, sv_rpcs s !! k with
      | InitOver _, Some (Operation op, Gated) =>
          let '(o, w) := direct module op (sv_world s) in
          mkServed w (sv_init s) (<[k := (Operation op, Answered (Ok (OutcomeIs o)))]> (sv_rpcs s))
            (sv_trace s ++ [MCalled k op])
      | _, _ => s
      end
  end.

Definition happens (l : list Happens) (s : Served) : Served := foldl happen s l.

Definition operation (a : Ask) : bool := match a with Operation _ => true | _ => false end.
Definition static (e : MEvent) : Prop := match e with MStatic _ _ => True | _ => False end.

(** Everything but the initialisation, each call of the module's for a call
    that was answered. *)
Definition called (rpcs : list (Ask * Rpc)) (e : MEvent) : Prop :=
  match e with
  | MCalled k op => ∃ o, rpcs !! k = Some (Operation op, Answered (Ok (OutcomeIs o)))
  | MStatic _ _ => True
  | MInit _ => False
  end.

(** Waiting, or turned away for its version. *)
Definition unserved (x : Ask * Rpc) : Prop :=
  operation x.1 = true → x.2 = Gated ∨ ∃ e, x.2 = Answered (Err e).

(** Only operations wait. *)
Definition only_operations_wait (x : Ask * Rpc) : Prop := x.2 = Gated → operation x.1 = true.

Definition GateInv (s : Served) : Prop :=
  Forall only_operations_wait (sv_rpcs s) ∧
  match sv_init s with
  | Initialising => Forall static (sv_trace s) ∧ Forall unserved (sv_rpcs s)
  | InitOver panicked =>
      ∃ r before after, sv_trace s = before ++ MInit r :: after ∧ (r = None ↔ panicked = true) ∧
        Forall static before ∧ Forall (called (sv_rpcs s)) after
  end.

Lemma called_snoc rpcs x e : called rpcs e → called (rpcs ++ [x]) e.
Proof. destruct e as [|k m|k op]; [done..|]. intros [o Ho]. exists o. by apply lookup_app_l_Some. Qed.

Lemma called_insert rpcs k op o e :
  rpcs !! k = Some (Operation op, Gated) → called rpcs e →
  called (<[k := (Operation op, Answered (Ok (OutcomeIs o)))]> rpcs) e.
Proof.
  intros Hk. destruct e as [|j m|j op']; [done..|]. intros [o' Ho]. exists o'.
  rewrite list_lookup_insert_ne; [done|]. intros ->. congruence.
Qed.

Lemma asked_at_once_static v ask k : Forall static (asked_at_once v ask k).
Proof. unfold asked_at_once. destruct ask, (require_v1 v); repeat constructor. Qed.

Lemma asked_at_once_called rpcs v ask k : Forall (called rpcs) (asked_at_once v ask k).
Proof. unfold asked_at_once. destruct ask, (require_v1 v); repeat constructor. Qed.

Lemma arrives_waits v ask w : only_operations_wait (ask, arrives v ask w) ∧ unserved (ask, arrives v ask w).
Proof.
  unfold only_operations_wait, unserved, arrives. destruct ask; simpl; [done..|].
  destruct (require_v1 v); split; intros; eauto.
Qed.

Lemma happen_inv s a : GateInv s → GateInv (happen s a).
Proof.
  unfold GateInv. intros [HW HI]. destruct a as [v ask| | |k]; simpl.
  - split; [apply Forall_app; split; [done|]; apply Forall_singleton, arrives_waits|].
    destruct (sv_init s) as [|p].
    + destruct HI as [Ht Hu]. rewrite !Forall_app, Forall_singleton.
      split_and!; [done|apply asked_at_once_static|done|apply arrives_waits].
    + destruct HI as (r & before & after & E & Hr & Hb & Ha).
      exists r, before, (after ++ asked_at_once v ask (length (sv_rpcs s))). rewrite E, <- app_assoc.
      split_and!; [done..|]. apply Forall_app. split; [|apply asked_at_once_called].
      eapply Forall_impl; [exact Ha|]. intros e. apply called_snoc.
  - destruct (sv_init s) as [|p] eqn:Ei; [|by rewrite Ei]. destruct HI as [Ht _].
    destruct (init (sv_world s)) as [r w]. simpl. split; [done|]. exists (Some r), (sv_trace s), []. by split_and!.
  - destruct (sv_init s) as [|p] eqn:Ei; [|by rewrite Ei]. destruct HI as [Ht _].
    simpl. split; [done|]. exists None, (sv_trace s), []. by split_and!.
  - destruct (sv_init s) as [|p] eqn:Ei; [by rewrite Ei|].
    destruct (sv_rpcs s !! k) as [[[m| |op] [|r']]|] eqn:Ek; try by rewrite Ei.
    destruct HI as (r & before & after & E & Hr & Hb & Ha).
    destruct (direct module op (sv_world s)) as [o w]. simpl. split; [by apply Forall_insert|].
    exists r, before, (after ++ [MCalled k op]). rewrite E, <- app_assoc. split_and!; [done..|].
    apply Forall_app. split.
    + eapply Forall_impl; [exact Ha|]. intros e. by apply called_insert.
    + apply Forall_singleton. simpl. exists o. apply list_lookup_insert_eq. by eapply lookup_lt_Some.
Qed.

Lemma happens_inv l w : GateInv (happens l (served_new w)).
Proof.
  unfold happens. induction l as [|a l IH] using rev_ind; [by repeat split|].
  rewrite foldl_app. by apply happen_inv.
Qed.

(** Every call of the module has a cause of its own. *)
Definition caused (s : Served) (e : MEvent) : Prop :=
  match e with
  | MInit _ => sv_init s ≠ Initialising
  | MStatic k _ => k < length (sv_rpcs s)
  | MCalled k op => ∃ o, sv_rpcs s !! k = Some (Operation op, Answered (Ok (OutcomeIs o)))
  end.

Definition OnceInv (s : Served) : Prop := NoDup (sv_trace s) ∧ Forall (caused s) (sv_trace s).

Lemma once_snoc s s' e :
  OnceInv s → sv_trace s' = sv_trace s ++ [e] → ¬ caused s e → caused s' e →
  (∀ e', caused s e' → caused s' e') → OnceInv s'.
Proof.
  intros [Hn Hc] E Hno Hyes Hall. unfold OnceInv. rewrite E. split.
  - apply NoDup_app. split_and!; [done| |apply NoDup_singleton].
    intros e' He' ->%list_elem_of_singleton. by apply Hno, (Forall_forall (caused s) (sv_trace s)).
  - apply Forall_app. split; [by eapply Forall_impl|by apply Forall_singleton].
Qed.

Lemma once_same s s' :
  OnceInv s → sv_trace s' = sv_trace s → (∀ e', caused s e' → caused s' e') → OnceInv s'.
Proof. intros [Hn Hc] E Hall. unfold OnceInv. rewrite E. split; [done|by eapply Forall_impl]. Qed.

Lemma happen_once s a : OnceInv s → OnceInv (happen s a).
Proof.
  intros HO. destruct a as [v ask| | |k]; simpl.
  - assert (∀ x t e, caused s e → caused (mkServed (sv_world s) (sv_init s) (sv_rpcs s ++ [x]) t) e) as Hall.
    { intros x t [r|k m|k op]; simpl; [done|rewrite length_app; simpl; lia|].
      intros [o Ho]. exists o. by apply lookup_app_l_Some. }
    unfold asked_at_once.
    destruct ask as [m| |op]; [destruct (require_v1 v)|..];
      try (apply (once_same s); [done|apply app_nil_r|intros e'; apply Hall]).
    apply (once_snoc s _ (MStatic (length (sv_rpcs s)) m)); [done|done|simpl; lia| |intros e; apply Hall].
    simpl. rewrite length_app. simpl. lia.
  - destruct (sv_init s) eqn:Ei; [|done]. destruct (init (sv_world s)) as [r w].
    apply (once_snoc s _ (MInit (Some r))); [done|done|simpl; tauto|done|]. by intros [r'|k m|k op].
  - destruct (sv_init s) eqn:Ei; [|done].
    apply (once_snoc s _ (MInit None)); [done|done|simpl; tauto|done|]. by intros [r'|k m|k op].
  - destruct (sv_init s) as [|p] eqn:Ei; [done|].
    destruct (sv_rpcs s !! k) as [[[m| |op] [|r']]|] eqn:Ek; try done.
    destruct (direct module op (sv_world s)) as [o w].
    apply (once_snoc s _ (MCalled k op)); simpl; [done|done| | |].
    + intros [o' Ho]. congruence.
    + exists o. apply list_lookup_insert_eq. by eapply lookup_lt_Some.
    + intros [r|j m|j op']; simpl; [by rewrite Ei|by rewrite length_insert|].
      intros [o' Ho]. exists o'. rewrite list_lookup_insert_ne; [done|]. intros ->. congruence.
Qed.

Lemma happens_once l w : OnceInv (happens l (served_new w)).
Proof.
  unfold happens. induction l as [|a l IH] using rev_ind; [by repeat constructor|].
  rewrite foldl_app. by apply happen_once.
Qed.

(** The gate reports a panic only of an initialisation that panicked. *)
Lemma happens_panicked l w : sv_init (happens l (served_new w)) = InitOver true → InitPanics ∈ l.
Proof.
  unfold happens. induction l as [|a l IH] using rev_ind; [done|]. rewrite foldl_app. simpl.
  set (s := foldl _ _ l) in *. intros Hp. apply elem_of_app. destruct (sv_init s) as [|p] eqn:Ei.
  - destruct a; simpl in Hp; rewrite ?Ei in Hp; try done; [|by right; left]. by destruct (init (sv_world s)).
  - left. apply IH. destruct a; simpl in Hp; rewrite ?Ei in Hp; simpl in Hp; try congruence.
    destruct (sv_rpcs s !! k) as [[[] []]|]; try congruence. destruct (direct module op (sv_world s)). simpl in Hp. congruence.
Qed.

(** What the module says of itself, as it is sent. *)
Definition metadata (m : Metadata) (w : W) : Answer :=
  match m with
  | MInfo => InfoIs (md_info module w)
  | MCommands => CommandsAre (map Convert.command_spec_to_proto (md_commands module w))
  | MSchema => SchemaIs (default [] (md_config_schema module w))
  end.

(** C13: A module is initialised before it is operated, and once.  However
    calls arrive while the plugin starts up: until the initialisation is over
    the module is asked for nothing but its metadata ([info], [commands] and
    [config_schema], answered at once at any time), and no start, stop, status,
    health or dispatch is served, only kept waiting or turned away for its
    version.  The initialisation happens once, after that metadata and before
    every operation; once it is over every operation that waits is answered by
    the module itself as soon as it runs, and none is answered twice.  The one
    exception the gate makes is an initialisation that panics, after which the
    module is operated without. *)
Theorem init_before_use (l : list Happens) (w : W) :
  let s := happens l (served_new w) in
  (sv_init s = Initialising → Forall static (sv_trace s) ∧ Forall unserved (sv_rpcs s)) ∧
  (∀ panicked, sv_init s = InitOver panicked →
     ∃ r before after, sv_trace s = before ++ MInit r :: after ∧
       (r = None ↔ InitPanics ∈ l ∧ panicked = true) ∧
       Forall static before ∧ Forall (called (sv_rpcs s)) after ∧
       ∀ k op, sv_rpcs s !! k = Some (Operation op, Gated) →
         sv_rpcs (happen s (Proceeds k)) !! k =
           Some (Operation op, Answered (Ok (OutcomeIs (direct module op (sv_world s)).1)))) ∧
  NoDup (sv_trace s) ∧ Forall only_operations_wait (sv_rpcs s) ∧
  ∀ m, sv_rpcs (happen s (Arrives Convert.API_VERSION (Static m))) =
    sv_rpcs s ++ [(Static m, Answered (Ok (metadata m (sv_world s))))].
Proof.
  destruct (happens_inv l w) as [HW HI]. intros s. fold s in HW, HI. split_and!.
  - intros E. by rewrite E in HI.
  - intros p Ep. rewrite Ep in HI. destruct HI as (r & before & after & E & Hr & Hb & Ha).
    exists r, before, after. split_and!; [done| |done..|].
    + rewrite Hr. split; [|tauto]. intros ->. split; [by apply happens_panicked with w|done].
    + intros k op Hk. simpl. rewrite Ep, Hk. destruct (direct module op (sv_world s)) as [o w']. simpl.
      apply list_lookup_insert_eq. by eapply lookup_lt_Some.
  - apply happens_once.
  - done.
  - by intros [].
Qed.
End Gate.
