(* ===== verification/PluginHostSvc.v ===== *)
(** * The host's services in a plugin (crates/penguin-sdk/src/plugin/
    hostservices.rs, the rest of serve.rs)

    A module is initialised with services that ask the host over the broker's
    connection 1, or with stand-ins when that connection cannot be made. *)
From S2P Require Import Prelude.
From S2P Require Import Text Sdk Backoff Supervisor StateFile LogRing Service Handshake ExtPlugin External.
From S2P Require Import PluginBroker PluginWire PluginProc PluginServe.

(** ** The host's answers *)

(** One call of [HostService] each; what the host keeps is [H]. *)
Record HostService (H : Type) := mkHostService {
  hsv_config : H → result bytes GrpcStatus * H;
  hsv_data_dir : H → result string GrpcStatus * H;
  hsv_tier : H → result string GrpcStatus * H;
  hsv_feature : string → H → result bool GrpcStatus * H;
  hsv_secret_get : string → H → result (bytes * string) GrpcStatus * H;
  hsv_secret_set : string → bytes → H → result string GrpcStatus * H;
  hsv_secret_delete : string → H → result string GrpcStatus * H;
}.
Arguments hsv_config {H}.
Arguments hsv_data_dir {H}.
Arguments hsv_tier {H}.
Arguments hsv_feature {H}.
Arguments hsv_secret_get {H}.
Arguments hsv_secret_set {H}.
Arguments hsv_secret_delete {H}.

Section Remote.
  Context {T : Tonic} {H : Type} (host : HostService H) (temp_dir : string).

(** What is fetched once; the flags seen so far, the refreshes under way and
    what the host answered them. *)
Record Remote := mkRemote {
  rm_host : H;
  rm_config : bytes;
  rm_data_dir : string;
  rm_tier : string;
  rm_flags : gmap string bool;
  rm_refreshing : list string;
  rm_answers : list (string * bool);
}.

Definition fetch_config (h : H) : bytes * H :=
  let '(r, h) := hsv_config host h in (match r with Ok config => config | Err _ => [] end, h).

Definition fetch_data_dir (h : H) : string * H :=
  let '(r, h) := hsv_data_dir host h in
  (match r with Err _ => temp_dir | Ok path => if decide (path = "") then temp_dir else path end, h).

Definition fetch_license_tier (h : H) : string * H :=
  let '(r, h) := hsv_tier host h in (match r with Ok tier => tier | Err _ => "" end, h).

Definition remote_connect (h : H) : Remote :=
  let '(config, h) := fetch_config h in
  let '(data_dir, h) := fetch_data_dir h in
  let '(tier, h) := fetch_license_tier h in
  mkRemote h config data_dir tier ∅ [] [].

(** *** Secrets *)

Definition rm_set_host (h : H) (s : Remote) : Remote :=
  mkRemote h (rm_config s) (rm_data_dir s) (rm_tier s) (rm_flags s) (rm_refreshing s) (rm_answers s).

Definition status_to_secret_error (status : GrpcStatus) : SecretError := SecretOther (status_display status).

Definition remote_get (key : string) : eff Remote SecretError bytes := λ s,
  let '(r, h) := hsv_secret_get host key (rm_host s) in
  (let? response := map_err status_to_secret_error r in
   if decide (response.2 = "") then Ok response.1 else Err (secret_error_from_message response.2), rm_set_host h s).

Definition remote_set (key : string) (value : bytes) : eff Remote SecretError unit := λ s,
  let '(r, h) := hsv_secret_set host key value (rm_host s) in
  (let? error := map_err status_to_secret_error r in
   if decide (error = "") then Ok () else Err (SecretOther error), rm_set_host h s).

Definition remote_delete (key : string) : eff Remote SecretError unit := λ s,
  let '(r, h) := hsv_secret_delete host key (rm_host s) in
  (let? error := map_err status_to_secret_error r in
   if decide (error = "") then Ok () else Err (SecretOther error), rm_set_host h s).

(** *** Features *)

Definition feature_enabled (key : string) (s : Remote) : bool * Remote :=
  match rm_flags s !! key with
  | Some value => (value, s)
  | None =>
      (false, mkRemote (rm_host s) (rm_config s) (rm_data_dir s) (rm_tier s) (rm_flags s)
                (rm_refreshing s ++ [key]) (rm_answers s))
  end.

(** The [k]-th refresh under way. *)
Definition refresh_feature_flag (k : nat) (s : Remote) : Remote :=
  match rm_refreshing s !! k with
  | None => s
  | Some key =>
      let '(r, h) := hsv_feature host key (rm_host s) in
      let rest := delete k (rm_refreshing s) in
      match r with
      | Ok enabled =>
          mkRemote h (rm_config s) (rm_data_dir s) (rm_tier s) (<[key := enabled]> (rm_flags s)) rest
            (rm_answers s ++ [(key, enabled)])
      | Err _ => mkRemote h (rm_config s) (rm_data_dir s) (rm_tier s) (rm_flags s) rest (rm_answers s)
      end
  end.

(** ** Runs *)

Inductive Use := Ask (key : string) | Refreshed (k : nat) | Changed (f : H → H).

(** [Changed]: the host goes on with its own work, an operator's included. *)
Definition use (s : Remote) (u : Use) : Remote :=
  match u with
  | Ask key => (feature_enabled key s).2
  | Refreshed k => refresh_feature_flag k s
  | Changed f => rm_set_host (f (rm_host s)) s
  end.

Definition uses (l : list Use) (s : Remote) : Remote := foldl use s l.

Definition FlagsInv (s : Remote) : Prop :=
  ∀ key b, rm_flags s !! key = Some b → (key, b) ∈ rm_answers s.

Lemma use_inv s u : FlagsInv s → FlagsInv (use s u).
Proof.
  intros HI. destruct u as [key|k|f]; simpl; [|unfold refresh_feature_flag|done].
  - unfold feature_enabled. by destruct (rm_flags s !! key).
  - destruct (rm_refreshing s !! k) as [key|]; [|done]. destruct (hsv_feature host key (rm_host s)) as [[b|e] h]; [|done].
    intros key' b'. simpl. rewrite elem_of_app. destruct (decide (key' = key)) as [->|].
    + rewrite lookup_insert_eq. intros [= ->]. by right; left.
    + rewrite lookup_insert_ne by done. intros. left. by apply HI.
Qed.

(** A feature is on for a plugin only if the host said so: an answer of the
    host that grants it precedes every answer that it is on, and a feature
    nobody asked for yet is off. *)
Theorem feature_on_only_if_granted (l : list Use) (h : H) (key : string) :
  let s := uses l (remote_connect h) in
  (feature_enabled key s).1 = true → (key, true) ∈ rm_answers s.
Proof.
  assert (FlagsInv (uses l (remote_connect h))) as HI.
  { unfold uses. induction l as [|u l IH] using rev_ind; [|rewrite foldl_app; by apply use_inv].
    simpl. unfold remote_connect. destruct (fetch_config h), (fetch_data_dir _), (fetch_license_tier _).
    intros key' b. simpl. by rewrite lookup_empty. }
  intros s. unfold feature_enabled. destruct (rm_flags s !! key) as [[]|] eqn:E; simpl; intros; try done. by apply HI.
Qed.

(** A flag is asked for once: when no refresh of it is under way, the value
    the plugin has seen stays whatever the host decides later, so a feature
    that is withdrawn stays on until the plugin is restarted. *)
Theorem withdrawn_feature_stays_on (l : list Use) (s : Remote) (key : string) (b : bool) :
  rm_flags s !! key = Some b → key ∉ rm_refreshing s → (feature_enabled key (uses l s)).1 = b.
Proof.
  intros Hf Hr. assert (rm_flags (uses l s) !! key = Some b ∧ key ∉ rm_refreshing (uses l s)) as [E _].
  2: { unfold feature_enabled. by rewrite E. }
  unfold uses. induction l as [|u l [IHf IHr]] using rev_ind; [done|]. rewrite foldl_app. simpl.
  set (s' := foldl use s l) in *. destruct u as [key'|k|f]; simpl; [|unfold refresh_feature_flag|done].
  - unfold feature_enabled. destruct (rm_flags s' !! key') eqn:E; [done|]. simpl. split; [done|].
    rewrite elem_of_app, list_elem_of_singleton. intros [?|<-]; congruence.
  - destruct (rm_refreshing s' !! k) as [key'|] eqn:Ek; [|done].
    assert (key ≠ key') as Hne by (intros ->; apply IHr; by eapply list_elem_of_lookup_2).
    assert (key ∉ delete k (rm_refreshing s')) as Hd.
    { intros Hin. apply IHr. revert Hin. apply list_elem_of_delete_inv. }
    destruct (hsv_feature host key' (rm_host s')) as [[b'|e] h]; simpl; [by rewrite lookup_insert_ne|done].
Qed.
End Remote.

(** ** Without the host *)

Definition unavailable {A} : result A SecretError :=
  Err (SecretOther "host services unavailable: broker leg was not reachable").

Definition noop_get (key : string) : result bytes SecretError := unavailable.
Definition noop_set (key : string) (value : bytes) : result unit SecretError := unavailable.
Definition noop_delete (key : string) : result unit SecretError := unavailable.
Definition noop_feature_enabled (key : string) : bool := false.
Definition noop_tier : string := "".
Definition noop_config : bytes := [].

(** ** serve.rs: which of the two *)

Inductive HostServices (H : Type) := RemoteServices (r : Remote (H := H)) | NoopServices.
Arguments RemoteServices {H}.
Arguments NoopServices {H}.

Section Build.
  Context {T : Tonic} {H : Type} (host : HostService H) (temp_dir : string).

(** [connect]: the TLS connection to the path; [None] when it takes longer
    than three seconds. *)
Definition connect_host_services (dialled : result string string) (connect : string → option (result unit string))
    (h : H) : result (HostServices H) PluginError :=
  let? socket_path := map_err PBroker dialled in
  match connect socket_path with
  | None => Err (PHostConnect "TLS connect to HostService timed out")
  | Some r => let? _ := map_err PHostConnect r in Ok (RemoteServices (remote_connect host temp_dir h))
  end.

(** [in_time]: whether all of it took less than eight seconds. *)
Definition build_host_services_or_noop (in_time : bool) (dialled : result string string)
    (connect : string → option (result unit string)) (h : H) : HostServices H :=
  if in_time then
    match connect_host_services dialled connect h with Ok services => services | Err _ => NoopServices end
  else NoopServices.

(** [HostServices::config], [license().feature_enabled] and [secrets().get] of
    what was built. *)
Definition services_config (s : HostServices H) : bytes :=
  match s with RemoteServices r => rm_config r | NoopServices => noop_config end.
Definition services_feature (key : string) (s : HostServices H) : bool :=
  match s with RemoteServices r => (feature_enabled key r).1 | NoopServices => noop_feature_enabled key end.
Definition services_secret (key : string) (s : HostServices H) : result bytes SecretError :=
  match s with RemoteServices r => (remote_get host key r).1 | NoopServices => noop_get key end.

(** ** Theorems *)

Lemma first_for_none id l : (∀ i, i ∈ l → ci_service_id i ≠ id) → first_for id l = None.
Proof.
  induction l as [|i l IH] using rev_ind; intros Hl; [done|]. rewrite first_for_snoc, IH.
  - rewrite decide_False; [done|]. apply Hl, elem_of_app. by right; left.
  - intros j Hj. apply Hl, elem_of_app. by left.
Qed.

Lemma announced_delivered steps g i :
  i ∈ lg_announced (foldl ledger_step g steps) → i ∈ lg_announced g ∨ Deliver i ∈ steps.
Proof.
  revert g. induction steps as [|a steps IH]; intros g; simpl; [by left|]. intros [Hi|Hi]%IH; [|by right; right].
  destruct a; simpl in Hi; [|by left..]. rewrite elem_of_app, list_elem_of_singleton in Hi. destruct Hi as [?| ->]; [by left|by right; left].
Qed.

(** A dial of a number nobody announces is refused or times out. *)
Lemma unannounced_dial steps k id r :
  (∀ i, Deliver i ∈ steps → ci_service_id i ≠ id) →
  lg_dials (ledger_run steps) !! k = Some (id, Dialled r) → ∃ e, r = Err e.
Proof.
  unfold ledger_run. revert r. induction steps as [|a steps IH] using rev_ind; intros r Hn; [done|].
  rewrite foldl_app. simpl. set (g := foldl ledger_step _ steps) in *.
  assert (∀ i, Deliver i ∈ steps → ci_service_id i ≠ id) as Hn' by (intros i Hi; apply Hn, elem_of_app; by left).
  destruct a as [i|id'|t j]; simpl; [by apply IH|..].
  - intros [?|[? E]]%lookup_app_Some; [by eapply IH|]. apply list_lookup_singleton_Some in E as [_ E].
    destruct (dialled id' _); simplify_eq/=; eauto.
  - destruct (decide (j = k)) as [->|]; [|rewrite list_lookup_alter_ne by done; by apply IH].
    rewrite list_lookup_alter_eq. destruct (lg_dials g !! k) as [[id' [|r']]|] eqn:E; simpl; [|intros; simplify_eq; by eapply IH|done].
    intros [= -> Er]. rewrite first_for_none in Er; [destruct t; simplify_eq; eauto|].
    intros i Hi. apply announced_delivered in Hi as [Hi|Hi]; [by apply elem_of_nil in Hi|by apply Hn'].
Qed.

(** A plugin the daemon loads never reaches the daemon's services.  The
    loader offers none, so connection 1 is never announced; however the
    plugin's broker runs, its dial ends in an error, and the module is
    initialised with the stand-ins: an empty configuration, no secret and no
    licensed feature, whatever the operator configured. *)
Theorem loaded_plugin_is_unhosted {W} {texts : HostTexts} (base64_decode : string → result bytes string)
    (debug : string → string) (socket_dir : string) (w w1 : ProcWorld W) (n : nat) (c : Child W)
    (steps : list Step) (k : nat) (r : result ConnInfo DialError) (connect : string → option (result unit string))
    (in_time : bool) (h : H) :
  launch base64_decode false socket_dir w = (Ok n, w1) → pc_children w1 !! n = Some c →
  (∀ i, Deliver i ∈ steps → i ∈ ch_announced c) →
  br_dials (PluginBroker.run steps broker_new) !! k = Some (HOST_SERVICE_BROKER_ID, Dialled r) →
  let services := build_host_services_or_noop in_time (plugin_dial debug HOST_SERVICE_BROKER_ID r) connect h in
  services_config services = [] ∧
  (∀ key, services_feature key services = false) ∧
  (∀ key, services_secret key services =
     Err (SecretOther "host services unavailable: broker leg was not reachable")).
Proof.
  intros Hl Hc Hd Hk. destruct (loader_announces_nothing _ _ _ _ _ Hl) as (c' & Hc' & Ha). simplify_eq. rewrite Ha in Hd.
  rewrite (proj2 (run_refines steps)) in Hk. apply unannounced_dial in Hk as [e ->].
  2: { intros i Hi. by apply Hd, elem_of_nil in Hi. }
  unfold build_host_services_or_noop. by destruct in_time.
Qed.
End Build.

(** ** Plugins at work

    A concrete encoding, host and plugin on which the theorems about plugin
    processes are applied. *)

Module PluginWitness.

(** Two letters a byte. *)
Definition letter (n : N) : Ascii.ascii := Ascii.ascii_of_N (97 + n).
Definition value (c : Ascii.ascii) : N := (Ascii.N_of_ascii c - 97)%N.

Fixpoint encode (l : bytes) : string :=
  match l with
  | [] => ""
  | b :: l => let n := Byte.to_N b in String (letter (n / 16)) (String (letter (n mod 16)) (encode l))
  end.

Fixpoint decode (s : string) : result bytes string :=
  match s with
  | "" => Ok []
  | String a (String b s) =>
      match Byte.of_N (value a * 16 + value b), decode s with
      | Some x, Ok l => Ok (x :: l)
      | _, _ => Err "letter"
      end
  | String _ "" => Err "odd"
  end.

Lemma decode_encode l : decode (encode l) = Ok l.
Proof.
  induction l as [|b l IH]; [done|]. cbn [encode decode]. rewrite IH.
  assert (Byte.of_N (value (letter (Byte.to_N b / 16)) * 16 + value (letter (Byte.to_N b mod 16))) = Some b) as -> by (by destruct b).
  done.
Qed.

Lemma encode_alphabet l : all_chars plain_char (encode l) = true ∧ no_char pipe (encode l) = true.
Proof.
  induction l as [|b l [IH1 IH2]]; [done|]. cbn [encode all_chars no_char]. rewrite IH1, IH2. split; by destruct b.
Qed.

#[local] Instance letters : Base64NoPad := {|
  nopad_encode := encode;
  nopad_decode := decode;
  nopad_round_trip := decode_encode;
  nopad_alphabet := encode_alphabet;
|}.

Definition cert : bytes := replicate 30 Byte.x41.

Lemma handshake_round_trip_witness :
  Handshake.parse nopad_decode (trim (build_line "/tmp/pgp 1/s" cert)) =
    Ok (mkHandshake 1 "unix" "/tmp/pgp 1/s" (Some cert)).
Proof. apply (handshake_round_trip "/tmp/pgp 1/s" cert); vm_compute; [reflexivity|lia]. Defined.

(** ** Processes *)

#[local] Instance texts : HostTexts := {| handshake_error_display _ := "handshake"; debug_text s := s |}.
#[local] Existing Instance WireWitness.tonic.

Definition fate_of (line : string) : Fate :=
  mkFate (Ok ()) (Ok ()) (Line line) (Ok ()) (Ok ()) cert (Ok ()) (Ok ()) (λ _, Ok ()) true (Ok 1%Z) PluginProc.Exited (Ok ()).

Definition host_with (line : string) : ProcWorld nat :=
  mkProcWorld [] (λ _, fate_of line) (λ _, mkWire 0 (λ _, Delivered) 0).

(** A plugin without a certificate. *)
Lemma failed_launch_leaks_process_witness :
  running (launch decode false "/run" (host_with "1|1|unix|/tmp/s|grpc")).2 = [true].
Proof.
  pose proof (failed_launch_leaks_process decode "/run" (host_with "1|1|unix|/tmp/s|grpc")
    "1|1|unix|/tmp/s|grpc" "unix" "/tmp/s" eq_refl eq_refl eq_refl) as H.
  destruct (launch decode false "/run" (host_with "1|1|unix|/tmp/s|grpc")) as [r w1].
  apply H. vm_compute. reflexivity.
Defined.

(** A plugin in order. *)
Definition in_order : ProcWorld nat := host_with (build_line "/tmp/s" cert).

Definition no_host : HostService unit := {|
  hsv_config h := (Ok [Byte.x41], h);
  hsv_data_dir h := (Ok "/data", h);
  hsv_tier h := (Ok "pro", h);
  hsv_feature _ h := (Ok true, h);
  hsv_secret_get _ h := (Ok ([Byte.x41], ""), h);
  hsv_secret_set _ _ h := (Ok "", h);
  hsv_secret_delete _ h := (Ok "", h);
|}.

(** Its dial waits, and times out. *)
Definition dial_alone : list Step := [DialStart 1; DialPoll false 0; DialPoll true 0].

Lemma loaded_plugin_is_unhosted_witness :
  services_config (build_host_services_or_noop no_host "/tmp" true
    (plugin_dial id HOST_SERVICE_BROKER_ID (Err DialTimedOut)) (λ _, Some (Ok ())) tt) = [].
Proof.
  refine (proj1 (loaded_plugin_is_unhosted no_host "/tmp" decode id "/run" in_order
    (launch decode false "/run" in_order).2 0 (mkChild true (mkWire 0 (λ _, Delivered) 0) []) dial_alone 0 (Err DialTimedOut)
    (λ _, Some (Ok ())) true tt _ _ _ _)).
  - vm_compute. reflexivity.
  - vm_compute. reflexivity.
  - intros i Hi. repeat (apply elem_of_cons in Hi as [Hi|Hi]; [done|]). by apply elem_of_nil in Hi.
  - vm_compute. reflexivity.
Defined.

(** ** Features *)

(** The host grants what it is told to. *)
Definition grants : HostService bool := {|
  hsv_config h := (Ok [], h);
  hsv_data_dir h := (Ok "/data", h);
  hsv_tier h := (Ok "pro", h);
  hsv_feature _ h := (Ok h, h);
  hsv_secret_get _ h := (Ok ([], "not found"), h);
  hsv_secret_set _ _ h := (Ok "", h);
  hsv_secret_delete _ h := (Ok "", h);
|}.

Lemma feature_on_only_if_granted_witness :
  ("vpn", true) ∈ rm_answers (uses grants [Ask "vpn"; Refreshed 0] (remote_connect grants "/tmp" true)).
Proof. by apply (feature_on_only_if_granted grants "/tmp" [Ask "vpn"; Refreshed 0] true "vpn"). Defined.

(** Withdrawn after it was seen. *)
Lemma withdrawn_feature_stays_on_witness :
  (feature_enabled "vpn" (uses grants [Changed (λ _, false); Ask "vpn"]
     (uses grants [Ask "vpn"; Refreshed 0] (remote_connect grants "/tmp" true)))).1 = true.
Proof.
  apply (withdrawn_feature_stays_on grants [Changed (λ _, false); Ask "vpn"]
    (uses grants [Ask "vpn"; Refreshed 0] (remote_connect grants "/tmp" true)) "vpn" true); [vm_compute; reflexivity|].
  vm_compute. by intros Hi%elem_of_nil.
Defined.

(** A secret the host does not have is told apart from a failure. *)
Example missing_secret :
  (remote_get grants "key" (remote_connect grants "/tmp" true)).1 = Err SecretNotFound.
Proof. vm_compute. reflexivity. Qed.

End PluginWitness.
