(* ===== verification/CliTree.v ===== *)
(** * The command line's tree (penguin-cli-core tree.rs, flags.rs)

    What the parser is told to accept: the static verbs, and below every
    module's name its own commands.  A [Command] is the data handed to clap;
    [accepts_values] is clap's documented reading of a positional argument.
    The root's long description and the placeholder of the positional argument
    are shown in the help only and are left out. *)
From S2P Require Import Prelude Text Sdk Cli.
From stdpp Require Import pretty.

(** ** clap's data *)

Inductive ValueParser := VPString | VPBool | VPI64.

(** [ag_max]: [None] is unbounded; [ag_set_true] is the action of a switch,
    every other argument stores its values. *)
Record Arg := mkArg {
  ag_id : string;
  ag_long : option string;
  ag_short : option string;
  ag_help : option string;
  ag_global : bool;
  ag_required : bool;
  ag_allow_hyphen : bool;
  ag_trailing : bool;
  ag_set_true : bool;
  ag_min : nat;
  ag_max : option nat;
  ag_default : option string;
  ag_default_missing : option string;
  ag_parser : ValueParser;
}.

Inductive Command := mkCommand {
  cd_name : string;
  cd_about : option string;
  cd_args : list Arg;
  cd_subcommands : list Command;
}.

(** ** flags.rs *)

(** [chars().next()]: a byte and the continuation bytes after it. *)
Fixpoint continuation (s : string) : string :=
  match s with
  | String c s' => if (128 <=? code c) && (code c <? 192) then String c (continuation s') else ""
  | "" => ""
  end.

Definition first_char (s : string) : option string :=
  match s with "" => None | String c s' => Some (String c (continuation s')) end.

Definition not_empty (s : string) : option string := if decide (s = "") then None else Some s.

Definition build_flag_arg (flag : Pb.FlagSpec) : Arg :=
  let arg min max default missing parser :=
    mkArg (Pb.name flag) (Some (Pb.name flag)) (first_char (Pb.shorthand flag)) (not_empty (Pb.usage flag))
      false false false false false min max default missing parser in
  match flag_kind (Pb.type flag) with
  | FKBool =>
      arg 0 (Some 1) (Some (if decide (Pb.default flag = "true") then "true" else "false")) (Some "true") VPBool
  | FKInt => arg 1 (Some 1) (Some (pretty (default 0%Z (parse_i64 (Pb.default flag))))) None VPI64
  | FKString => arg 1 (Some 1) (Some (Pb.default flag)) None VPString
  end.

(** ** tree.rs *)

Definition SOCKET_ARG_ID : string := "socket".
Definition JSON_ARG_ID : string := "json".
Definition YES_ARG_ID : string := "yes".
Definition DEFAULT_SOCKET_PATH : string := "/run/penguin/penguind.sock".

Definition switch (id help : string) (global : bool) : Arg :=
  mkArg id (Some id) None (Some help) global false false false true 0 (Some 0) None None VPBool.

Definition socket_arg : Arg :=
  mkArg SOCKET_ARG_ID (Some "socket") None (Some "daemon socket path") true false false false false 1 (Some 1)
    (Some DEFAULT_SOCKET_PATH) None VPString.

Definition json_arg : Arg := switch JSON_ARG_ID "output JSON" true.

Definition module_arg (required : bool) : Arg :=
  mkArg MODULE_ARG_ID None None None false required false false false 1 (Some 1) None None VPString.

Definition lines_arg : Arg :=
  mkArg LINES_ARG_ID (Some "lines") None (Some "initial log lines to show") false false false false false 1 (Some 1)
    (Some "10") None VPI64.

Definition build_static_root : Command :=
  mkCommand "pdcli" (Some "PenguinTech unified endpoint agent") [socket_arg; json_arg]
    [mkCommand "version" (Some "Show version information") [] [];
     mkCommand "modules" (Some "List all modules") [] [];
     mkCommand "load" (Some "Load a module") [module_arg true] [];
     mkCommand "unload" (Some "Unload a module") [module_arg true] [];
     mkCommand "status" (Some "Show status of modules") [module_arg false] [];
     mkCommand "logs" (Some "Tail daemon or module logs")
       [module_arg false; switch FOLLOW_ARG_ID "follow log output" false; lines_arg] [];
     mkCommand "update" (Some "Check and apply daemon updates")
       [switch YES_ARG_ID "apply update without confirmation" false] []].

Definition RESERVED_STATIC_VERBS : list string :=
  ["version"; "modules"; "load"; "unload"; "status"; "logs"; "update"].

(** [usize::try_from]. *)
Definition usize (z : Z) : option nat := if (z <? 0)%Z then None else Some (Z.to_nat z).

Definition args_positional (min_args max_args : Z) : option Arg :=
  let min := default 0 (usize min_args) in
  if (max_args =? 0)%Z then None
  else
    let trailing := negb ((0 <=? max_args)%Z && (max_args <=? 1)%Z) in
    let max := if (max_args <? 0)%Z then None else Some (default min (usize max_args) `max` min) in
    Some (mkArg ARGS_ID None None None false (0 <? min_args)%Z true trailing false min max None None VPString).

Fixpoint build_command_spec (spec : Pb.CommandSpec) : Command :=
  mkCommand (Pb.c_name spec) (not_empty (Pb.c_short spec))
    (map build_flag_arg (Pb.c_flags spec) ++
     match args_positional (Pb.c_min_args spec) (Pb.c_max_args spec) with Some arg => [arg] | None => [] end)
    (map build_command_spec (Pb.c_subcommands spec)).

Abbreviation ModuleCommands := (string * list Pb.CommandSpec)%type.

Definition grafted (module : ModuleCommands) : option Command :=
  let '(name, commands) := module in
  if bool_decide (commands = []) || bool_decide (name ∈ RESERVED_STATIC_VERBS) then None
  else Some (mkCommand name (Some ("Commands provided by the " +:+ name +:+ " module")) [] (map build_command_spec commands)).

Definition graft_modules (root : Command) (modules : list ModuleCommands) : Command :=
  mkCommand (cd_name root) (cd_about root) (cd_args root) (cd_subcommands root ++ omap grafted modules).

(** ** What the tree accepts *)

(** How many values a positional argument takes. *)
Definition accepts_values (arg : option Arg) (n : nat) : bool :=
  match arg with
  | None => n =? 0
  | Some arg =>
      if n =? 0 then negb (ag_required arg)
      else (ag_min arg <=? n) && match ag_max arg with Some max => n <=? max | None => true end
  end.

Definition find_command (l : list Command) (name : string) : option Command :=
  List.find (λ c, bool_decide (cd_name c = name)) l.

(** The command a path of names leads to. *)
Fixpoint command_at (c : Command) (path : list string) : option Command :=
  match path with
  | [] => Some c
  | n :: path => sub ← find_command (cd_subcommands c) n; command_at sub path
  end.

(** The commands a dispatch looks a path up in (bins/pdcli cli.rs). *)
Definition commands_of (modules : list ModuleCommands) (name : string) : list Pb.CommandSpec :=
  default [] (snd <$> List.find (λ m, bool_decide (m.1 = name)) modules).

(** ** What the parser accepts *)

Definition required_present `{Clap} (c : Command) (m : ArgMatches) : Prop :=
  ∀ arg, arg ∈ cd_args c → ag_required arg = true → ag_parser arg = VPString →
    is_Some (get_one_string m (ag_id arg)).

(** Matches of a command: its required arguments are there and the subcommand
    selected is one of its own. *)
Inductive accepted `{Clap} : Command → ArgMatches → Prop :=
| accepted_leaf c m : required_present c m → subcommand m = None → accepted c m
| accepted_sub c m name m' sub :
    required_present c m → subcommand m = Some (name, m') →
    find_command (cd_subcommands c) name = Some sub → accepted sub m' → accepted c m.

(** ** Theorems *)

(** The positional arguments of a module's command are those its author
    declared: [min_args] to [max_args] of them, any number from [min_args] when
    [max_args] is negative, and none when it is zero. *)
Theorem positional_arity (min_args max_args : Z) (n : nat) :
  accepts_values (args_positional min_args max_args) n = true ↔
    if decide (max_args = 0%Z) then n = 0
    else (min_args ≤ Z.of_nat n)%Z ∧ (max_args < 0 ∨ Z.of_nat n ≤ Z.max min_args max_args)%Z.
Proof.
  unfold args_positional, usize. case_decide as Hmax.
  { rewrite Hmax. simpl. by rewrite Nat.eqb_eq. }
  destruct (Z.eqb_spec max_args 0) as [?|_]; [done|]. simpl.
  destruct (Nat.eqb_spec n 0) as [->|Hn].
  - rewrite negb_true_iff, Z.ltb_ge. lia.
  - rewrite andb_true_iff, Nat.leb_le.
    destruct (Z.ltb_spec min_args 0), (Z.ltb_spec max_args 0); simpl; rewrite ?Nat.leb_le; lia.
Qed.

Lemma find_command_app l1 l2 n :
  find_command (l1 ++ l2) n = match find_command l1 n with Some c => Some c | None => find_command l2 n end.
Proof. unfold find_command. induction l1 as [|c l1 IH]; simpl; [done|]. by destruct (bool_decide _). Qed.

(** Modules of one name have the same commands, as in the daemon's answer. *)
Definition one_list_per_name (modules : list ModuleCommands) : Prop :=
  ∀ name c1 c2, (name, c1) ∈ modules → (name, c2) ∈ modules → c1 = c2.

Lemma commands_of_in modules name commands :
  one_list_per_name modules → (name, commands) ∈ modules → commands_of modules name = commands.
Proof.
  intros H1 Hin. unfold commands_of. destruct (List.find _ modules) as [[n cs]|] eqn:E.
  - apply find_some in E as [Hin'%list_elem_of_In Hn%bool_decide_eq_true]. simpl in *. subst n.
    by eapply H1.
  - apply find_none with (x := (name, commands)) in E; [|by apply list_elem_of_In].
    simpl in E. by rewrite bool_decide_eq_true_2 in E.
Qed.

Lemma commands_of_none modules name : name ∉ map fst modules → commands_of modules name = [].
Proof.
  intros Hn. unfold commands_of. destruct (List.find _ modules) as [[n cs]|] eqn:E; [|done].
  apply find_some in E as [Hin%list_elem_of_In Hm%bool_decide_eq_true]. simpl in Hm. subst n.
  destruct Hn. by apply (list_elem_of_fmap_2 fst modules (name, cs)).
Qed.

(** The command grafted for a module. *)
Definition module_command (name : string) (commands : list Pb.CommandSpec) : Command :=
  mkCommand name (Some ("Commands provided by the " +:+ name +:+ " module")) [] (map build_command_spec commands).

Definition graftable (modules : list ModuleCommands) (name : string) : Prop :=
  (name ∉ RESERVED_STATIC_VERBS) ∧ commands_of modules name ≠ [].

#[local] Instance graftable_dec modules name : Decision (graftable modules name).
Proof. unfold graftable. apply _. Defined.

Lemma omap_grafted modules all :
  one_list_per_name all → (∀ x, x ∈ modules → x ∈ all) →
  omap grafted modules =
    map (λ n, module_command n (commands_of all n)) (filter (graftable all) (map fst modules)).
Proof.
  intros H1. induction modules as [|[n cs] modules IH]; intros Hsub; [done|].
  cbn [map fst omap list_omap]. rewrite filter_cons. specialize (IH ltac:(intros x Hx; apply Hsub; by right)).
  assert (commands_of all n = cs) as Hc by (apply commands_of_in; [done|apply Hsub; by left]).
  unfold grafted at 1. destruct (bool_decide_reflect (cs = [])) as [E|E]; simpl.
  { rewrite decide_False; [exact IH|]. intros [_ Hne]. congruence. }
  destruct (bool_decide_reflect (n ∈ RESERVED_STATIC_VERBS)) as [Hr|Hr]; simpl.
  { rewrite decide_False; [exact IH|]. by intros [? _]. }
  rewrite decide_True by (split; congruence). simpl. rewrite Hc. by f_equal.
Qed.

Lemma find_module_command all (l : list string) name :
  find_command (map (λ n, module_command n (commands_of all n)) l) name =
    if decide (name ∈ l) then Some (module_command name (commands_of all name)) else None.
Proof.
  unfold find_command. induction l as [|n l IH]; cbn [map List.find]; [done|]. cbn [cd_name module_command].
  destruct (bool_decide_reflect (n = name)) as [->|Hn].
  - rewrite decide_True; [done|by left].
  - rewrite IH. destruct (decide (name ∈ l)); [rewrite decide_True|rewrite decide_False]; [done|by right|done|].
    intros [?|?]%elem_of_cons; congruence.
Qed.

Lemma find_built specs n : find_command (map build_command_spec specs) n = build_command_spec <$> find_spec specs n.
Proof.
  unfold find_command, find_spec. induction specs as [|s specs IH]; simpl; [done|].
  assert (cd_name (build_command_spec s) = Pb.c_name s) as -> by (by destruct s). by destruct (bool_decide _).
Qed.

Lemma built_at specs n path :
  (sub ← find_command (map build_command_spec specs) n; command_at sub path) =
    build_command_spec <$> spec_at specs (n :: path).
Proof.
  revert specs n. induction path as [|n' path IH]; intros specs n; rewrite find_built.
  { simpl. by destruct (find_spec specs n). }
  change (spec_at specs (n :: n' :: path)) with (spec ← find_spec specs n; spec_at (Pb.c_subcommands spec) (n' :: path)).
  destruct (find_spec specs n) as [spec|]; simpl; [|done].
  assert (cd_subcommands (build_command_spec spec) = map build_command_spec (Pb.c_subcommands spec)) as ->
    by (by destruct spec). apply IH.
Qed.

(** Matches of a module's command come from the module's own commands. *)
Lemma accepted_parsed `{Clap} c m specs :
  accepted c m → cd_subcommands c = map build_command_spec specs → parsed_from specs m.
Proof.
  intros Ha. revert specs. induction Ha as [c m _ Hm|c m name m' sub _ Hm Hf Ha IH]; intros specs Hc.
  { by apply parsed_leaf. }
  rewrite Hc, find_built in Hf. destruct (find_spec specs name) as [spec|] eqn:Es; [|done].
  injection Hf as <-. eapply parsed_sub; [done..|]. apply IH. by destruct spec.
Qed.

Lemma reserved_static name :
  name ∈ RESERVED_STATIC_VERBS ↔ is_Some (find_command (cd_subcommands build_static_root) name).
Proof.
  unfold RESERVED_STATIC_VERBS. split.
  - intros Hn. repeat (apply elem_of_cons in Hn as [->|Hn]; [by eexists|]). by apply elem_of_nil in Hn.
  - intros [c Hc]. apply find_some in Hc as [Hc <-%bool_decide_eq_true]. simpl in Hc.
    repeat (destruct Hc as [<-|Hc]; [vm_compute; set_solver|]). done.
Qed.

Lemma not_reserved_static name :
  name ∉ RESERVED_STATIC_VERBS → find_command (cd_subcommands build_static_root) name = None.
Proof. intros Hn. apply eq_None_not_Some. by rewrite <- reserved_static. Qed.

Lemma module_at modules name path :
  one_list_per_name modules → name ∉ RESERVED_STATIC_VERBS → path ≠ [] →
  command_at (graft_modules build_static_root modules) (name :: path) =
    build_command_spec <$> spec_at (commands_of modules name) path.
Proof.
  intros H1 Hn Hp. cbn [command_at]. unfold graft_modules. cbn [cd_subcommands].
  rewrite find_command_app, not_reserved_static, (omap_grafted _ modules H1) by done. rewrite find_module_command.
  destruct path as [|n path]; [done|]. case_decide as Hin; simpl mbind.
  - apply built_at.
  - assert (commands_of modules name = []) as ->; [|by destruct path].
    destruct (decide (commands_of modules name = [])) as [|Hne]; [done|]. destruct Hin.
    apply list_elem_of_filter. split; [done|]. destruct (decide (name ∈ map fst modules)) as [|Hnot]; [done|].
    by destruct Hne; apply commands_of_none.
Qed.

(** C38: The tree's commands are the static verbs, each once whatever modules
    are called, and after them the modules that have commands and no static
    verb's name, in their order.  A path that starts with a static verb leads
    where it led without any module; any other path leads to the command that
    the module's commands, as dispatch looks them up, declare there.  And every
    invocation of a module's command that the parser accepts from this tree is
    dispatched: the request carries the invoked path, and that path leads to
    the same declared command in the tree.  (Modules of one name are taken to
    have the same commands, which the daemon's answer guarantees.) *)
Theorem tree_offers_exactly `{Clap} (modules : list ModuleCommands) :
  one_list_per_name modules →
  let tree := graft_modules build_static_root modules in
  map cd_name (cd_subcommands tree) =
    RESERVED_STATIC_VERBS ++ filter (graftable modules) (map fst modules) ∧
  (∀ name path, name ∈ RESERVED_STATIC_VERBS →
     command_at tree (name :: path) = command_at build_static_root (name :: path) ∧
     is_Some (command_at tree [name])) ∧
  (∀ name path, name ∉ RESERVED_STATIC_VERBS → path ≠ [] →
     command_at tree (name :: path) = build_command_spec <$> spec_at (commands_of modules name) path) ∧
  (∀ m name sub path leaf,
     accepted tree m → subcommand m = Some (name, sub) → name ∉ RESERVED_STATIC_VERBS →
     invoked sub path leaf → path ≠ [] →
     ∃ request spec, resolve_dispatch name (commands_of modules name) sub = Some request ∧
       dr_module request = name ∧ dr_path request = path ∧
       spec_at (commands_of modules name) path = Some spec ∧
       command_at tree (name :: path) = Some (build_command_spec spec)).
Proof.
  intros H1 tree. subst tree. split_and!.
  - unfold graft_modules. cbn [cd_subcommands]. rewrite map_app, (omap_grafted _ modules H1) by done.
    rewrite map_map. cbn [module_command cd_name]. by rewrite map_id.
  - intros name path [c Hc]%reserved_static. cbn [command_at]. unfold graft_modules. cbn [cd_subcommands].
    rewrite find_command_app, Hc. split; [done|by eexists].
  - intros name path. by apply module_at.
  - intros m name sub path leaf Ha Hm Hn Hi Hp.
    inversion Ha as [? ? _ E|? ? n' m' c _ Hm' Hf Ha']; [congruence|].
    assert (n' = name ∧ m' = sub) as [-> ->] by (split; congruence).
    assert (cd_subcommands c = map build_command_spec (commands_of modules name)) as Hc.
    { unfold graft_modules in Hf. cbn [cd_subcommands] in Hf. rewrite find_command_app in Hf.
      rewrite not_reserved_static, (omap_grafted _ modules H1), find_module_command in Hf by done.
      case_decide; [|done]. by injection Hf as <-. }
    pose proof (dispatch_is_what_was_typed name _ sub leaf path (accepted_parsed _ _ _ Ha' Hc) Hi) as H'.
    destruct path as [|n path]; [done|]. destruct H' as (spec & req & ? & ? & ? & Hs & _).
    exists req, spec. split_and!; [done..|]. rewrite module_at by done. by rewrite Hs.
Qed.

(** ** Modules that share a name

    Were two modules of one name to have different commands, the tree would
    offer what dispatch cannot find. *)

Definition query_command : Pb.CommandSpec := Pb.mkCommandSpec "query" "" "look a name up" [] [] false 1 1.

Example same_name_hides_commands :
  let modules := [("a", []); ("a", [query_command])] in
  command_at (graft_modules build_static_root modules) ["a"; "query"] = Some (build_command_spec query_command) ∧
  commands_of modules "a" = [].
Proof. vm_compute. done. Qed.

(** ** A module's command in the tree *)

Lemma tree_offers_exactly_witness :
  let modules := [("load", [query_command]); ("squawk", [query_command])] in
  let tree := graft_modules build_static_root modules in
  map cd_name (cd_subcommands tree) = RESERVED_STATIC_VERBS ++ ["squawk"] ∧
  command_at tree ["squawk"; "query"] = Some (build_command_spec query_command) ∧
  command_at tree ["load"; "query"] = None.
Proof.
  intros modules tree.
  assert (one_list_per_name modules) as H1.
  { intros name c1 c2 Hc1 Hc2. subst modules. set_solver. }
  destruct (tree_offers_exactly (H := CliWitness.nested) modules H1) as (Hnames & Hstatic & Hmodule & _).
  split_and!.
  - etransitivity; [exact Hnames|]. vm_compute. reflexivity.
  - exact (Hmodule "squawk" ["query"] ltac:(vm_compute; set_solver) ltac:(discriminate)).
  - exact (proj1 (Hstatic "load" ["query"] ltac:(vm_compute; set_solver))).
Defined.
