(* ===== verification/CliRender.v ===== *)
(** * What the command line prints (penguin-cli-core render.rs, json.rs, error.rs, update.rs)

    The tables and messages, the documents behind [--json], the text of a
    failed call, and the decision to apply an update. *)
From S2P Require Import Prelude Text Json Mask Timestamp Service.

(** ** Columns

    [{:<w}]: blanks up to a width counted in characters; a longer text is kept
    whole. *)

Fixpoint repeated (n : nat) (s : string) : string :=
  match n with O => "" | S n => s +:+ repeated n s end.

Definition column (w : nat) (s : string) : string := s +:+ repeated (w - chars_count s) " ".

Definition line_end : string := String newline "".

(** ** render.rs *)

Definition render_local_version (version : string) : string := "penguin version " +:+ version +:+ line_end.

Definition render_daemon_version (daemon_version : string) : string :=
  "penguind version " +:+ daemon_version +:+ line_end.

Definition NO_MODULES_LOADED : string := "No modules loaded" +:+ line_end.

Definition modules_row (name state version description license : string) : string :=
  column 14 name +:+ " " +:+ column 10 state +:+ " " +:+ column 10 version +:+ " " +:+
  column 42 description +:+ " " +:+ license +:+ line_end.

Definition render_modules_table (modules : list ModuleSummary) : string :=
  match modules with
  | [] => NO_MODULES_LOADED
  | _ =>
      foldl (λ out m, out +:+ modules_row (ms_name m) (ms_state m) (ms_version m) (ms_description m)
                                (ms_license_feature m))
        (modules_row "NAME" "STATE" "VERSION" "DESCRIPTION" "LICENSE FLAG" +:+ repeated 100 "-" +:+ line_end)
        modules
  end.

Definition render_status_header (daemon_version : string) : string :=
  "Daemon version: " +:+ daemon_version +:+ line_end +:+ line_end.

Definition NO_MODULES : string := "No modules" +:+ line_end.

Definition status_row (name state health message : string) : string :=
  column 20 name +:+ " " +:+ column 15 state +:+ " " +:+ column 15 health +:+ " " +:+ message +:+ line_end.

Definition render_status_table (modules : list ModuleStatus) : string :=
  match modules with
  | [] => NO_MODULES
  | _ =>
      foldl (λ out m, out +:+ status_row (mt_name m) (mt_state m) (mt_health m) (mt_health_message m))
        (status_row "NAME" "STATE" "HEALTH" "MESSAGE" +:+ repeated 70 "-" +:+ line_end) modules
  end.

Definition render_log_line (line : PbLogLine) : string :=
  "[" +:+ format_log_timestamp (pl_at_unix_nano line) +:+ "] " +:+ pl_level line +:+ ": " +:+
  pl_message line +:+ line_end.

Definition TAIL_LOGS_NOT_IMPLEMENTED : string := "TailLogs not implemented yet" +:+ line_end.

Definition render_update_check (current_version latest_version : string) : string :=
  "Current version: " +:+ current_version +:+ line_end +:+ "Latest version: " +:+ latest_version +:+ line_end.

Definition NO_UPDATES_AVAILABLE : string := "No updates available" +:+ line_end.

Definition UPDATE_CONFIRM_PROMPT : string := "Apply update? (y/n): ".

Definition UPDATE_APPLIED_SUCCESS : string := "Update applied successfully" +:+ line_end.

Definition render_update_failed (message : string) : string := "Update failed: " +:+ message +:+ line_end.

(** ** json.rs: members with a zero value are left out *)

Definition member_str (k v : string) : list (string * Value) :=
  if decide (v = "") then [] else [(k, JString v)].

Definition member_list (k : string) (l : list Value) : list (string * Value) :=
  match l with [] => [] | _ => [(k, JArray l)] end.

Definition module_summary_json (m : ModuleSummary) : Value :=
  JObject (member_str "name" (ms_name m) ++ member_str "version" (ms_version m) ++
    member_str "description" (ms_description m) ++ member_str "state" (ms_state m) ++
    (if ms_external m then [("external", JBool true)] else []) ++
    member_str "license_feature" (ms_license_feature m)).

Definition modules_payload (modules : list ModuleSummary) : Value :=
  JObject (member_list "modules" (map module_summary_json modules)).

(** The members of [detail] come in no particular order. *)
Definition module_status_json (m : ModuleStatus) : Value :=
  JObject (member_str "name" (mt_name m) ++ member_str "state" (mt_state m) ++
    (if decide (mt_detail m = ∅) then []
     else [("detail", JObject (prod_map id JString <$> map_to_list (mt_detail m)))]) ++
    member_str "health" (mt_health m) ++ member_str "health_message" (mt_health_message m) ++
    (if decide (mt_checked_at_unix_nano m = 0%Z) then []
     else [("checked_at_unix_nano", JInt (mt_checked_at_unix_nano m))])).

Definition status_payload (daemon_version : string) (modules : list ModuleStatus) : Value :=
  JObject (member_str "daemon_version" daemon_version ++ member_list "modules" (map module_status_json modules)).

(** [serde_json::to_string_pretty], and [{:?}] of a string. *)
Class CliText := {
  to_string_pretty : Value → option string;
  debug_text : string → string;
}.

Section Texts.
  Context `{CliText}.

Definition modules_json (modules : list ModuleSummary) : string :=
  default "" (to_string_pretty (modules_payload modules)) +:+ line_end.

Definition status_json (daemon_version : string) (modules : list ModuleStatus) : string :=
  default "" (to_string_pretty (status_payload daemon_version modules)) +:+ line_end.

Definition render_load_success (module state : string) : string :=
  "Module " +:+ debug_text module +:+ " loaded (state: " +:+ state +:+ ")" +:+ line_end.

Definition render_unload_success (module : string) : string :=
  "Module " +:+ debug_text module +:+ " unloaded" +:+ line_end.

(** ** error.rs *)

Definition daemon_unreachable_message (socket_path : string) : string :=
  "cannot reach penguind at " +:+ socket_path +:+ " — is the daemon running?".

Definition is_unavailable (status : GrpcStatus) : bool :=
  match gs_code status with Unavailable => true | _ => false end.

Definition friendly_status_message (status : GrpcStatus) (socket_path : string) : string :=
  if is_unavailable status then daemon_unreachable_message socket_path else gs_message status.

Definition load_error_message (status : GrpcStatus) (module socket_path : string) : string :=
  match gs_code status with
  | NotFound => "module " +:+ debug_text module +:+ " not found"
  | PermissionDenied => "license feature required: " +:+ gs_message status
  | _ => friendly_status_message status socket_path
  end.
End Texts.

(** ** update.rs *)

Inductive UpdateAction := NoUpdateAvailable | Apply | Confirm.

Definition decide_update (available yes : bool) : UpdateAction :=
  if negb available then NoUpdateAvailable else if yes then Apply else Confirm.

Definition confirm_answer (answer : string) : bool :=
  let trimmed := trim answer in bool_decide (trimmed = "y") || bool_decide (trimmed = "yes").

(** ** The columns line up *)

Lemma chars_count_repeated n : chars_count (repeated n " ") = n.
Proof. induction n as [|n IH]; [done|]. cbn [repeated]. by rewrite chars_count_app, IH. Qed.

Lemma column_width w s : chars_count (column w s) = chars_count s `max` w.
Proof. unfold column. rewrite chars_count_app, chars_count_repeated. lia. Qed.

(** In the table of [modules] the column after the description starts at the
    eightieth character of every row whose texts fit their columns: whatever
    their bytes, characters are counted. *)
Theorem modules_columns_line_up (name state version description license : string) :
  chars_count name ≤ 14 → chars_count state ≤ 10 → chars_count version ≤ 10 →
  chars_count description ≤ 42 →
  ∃ p, modules_row name state version description license = p +:+ license +:+ line_end ∧ chars_count p = 80.
Proof.
  intros. exists (column 14 name +:+ " " +:+ column 10 state +:+ " " +:+ column 10 version +:+ " " +:+
    column 42 description +:+ " "). split; [unfold modules_row; by rewrite !string_app_assoc|].
  rewrite !chars_count_app, !column_width. change (chars_count " ") with 1. lia.
Qed.
