(* ===== verification/CliRun.v ===== *)
(** * A run of the command line (bins/pdcli cli.rs)

    From the arguments to the exit code: the daemon is dialled, the tree built
    from its answer, the arguments parsed and the verb's handler run.  A run
    leaves a trace of what it printed, asked and read.  Printing panics when
    the stream cannot be written to, as [print!] and [eprintln!] do; an [Err]
    is a panic, which nothing catches. *)
From S2P Require Import Prelude Text Sdk Backoff Supervisor SupervisorFacts Cli Service ServiceProps.
From S2P Require Import FakeEnv CliTree CliRender.

(** ** The daemon as a client sees it *)

(** A call that is not answered in time is [None]; what it did to the daemon
    is not known.  A stream is what arrives before it ends and the status it
    ends with, [None] for a clean end; one that never ends has no value. *)
Definition Answer (D A : Type) : Type := D → option (result A GrpcStatus) * D.

Definition Streamed (A : Type) : Type := (list A * option GrpcStatus)%type.

Class DaemonApi (D : Type) := {
  d_version : string → Answer D string;
  d_list_modules : string → Answer D (list ModuleSummary);
  d_load_module : string → string → Answer D string;
  d_unload_module : string → string → Answer D string;
  d_get_status : string → string → Answer D (string * list ModuleStatus);
  d_list_commands : string → Answer D (list ModuleCommands);
  d_tail_logs : string → string → Z → bool → Answer D (Streamed PbLogLine);
  d_dispatch : DispatchRequest → Answer D (Streamed DispatchChunk);
  d_check_update : string → Answer D (bool * string * string);
  d_apply_update : string → Answer D (bool * string);
}.

(** ** The parser *)

Inductive Parsed (M : Type) :=
| Matched (m : M)
| ParserExits (out err : string) (code : Z).
Arguments Matched {M}.
Arguments ParserExits {M}.

Class CliParser `{Clap} := {
  try_get_matches_from : Command → list string → Parsed ArgMatches;
  help_text : Command → string;
  matches_accepted c args m : try_get_matches_from c args = Matched m → accepted c m;
}.

(** ** A run *)

Inductive Act :=
| Printed (text : string)
| PrintedErr (text : string)
| Asked (r : Request)
| AskedLogs (module : string) (lines : Z) (follow : bool)
| ReadAnswer
| Panicked (message : string).

Record Shell (D : Type) := mkShell { sh_daemon : D; sh_acts : list Act }.
Arguments mkShell {D}.
Arguments sh_daemon {D}.
Arguments sh_acts {D}.

(** Standard input and output: whether the streams can be written to after so
    many acts (a pipe may be closed at any moment), whether a flush works, the
    line an answer is read from, whether the input is a terminal, and
    everything on it; a read that fails is [None]. *)
Record Terminal := mkTerminal {
  tm_stdout : nat → bool;
  tm_stderr : nat → bool;
  tm_flushes : bool;
  tm_line : option string;
  tm_is_terminal : bool;
  tm_rest : option string;
}.

Definition SUCCESS : Z := 0.
Definition FAILURE : Z := 1.
(** The exit code of a program whose main thread panicked. *)
Definition PANIC : Z := 101.

(** [code.clamp(0, 255)] *)
Definition exit_code_from (code : Z) : Z := Z.min (Z.max code 0) 255.

Definition is_version_flag (args : list string) : bool :=
  match args with [a] => bool_decide (a = "--version") || bool_decide (a = "-V") | _ => false end.

Section Run.
  Context {D : Type} `{!DaemonApi D} `{!Clap} `{!CliParser} `{!CliText}.
  (** The version compiled in, and whether a daemon listens at a path. *)
  Context (LOCAL_VERSION : string) (listening : string → bool) (term : Terminal).

(** Code that may panic, with the panic's message. *)
Abbreviation Run := (Prelude.eff (Shell D) string).
Abbreviation Cmd := (Run Z).

Definition done_act (a : Act) (s : Shell D) : Shell D := mkShell (sh_daemon s) (sh_acts s ++ [a]).

Definition act (a : Act) : Run unit := λ s, (Ok (), done_act a s).

Definition panic {A} (message : string) : Run A := λ s, (Err message, done_act (Panicked message) s).

Definition stdout_failed : string := "failed printing to stdout".
Definition stderr_failed : string := "failed printing to stderr".

(** [print!] *)
Definition print (text : string) : Run unit := λ s,
  if tm_stdout term (length (sh_acts s)) then act (Printed text) s else panic stdout_failed s.

(** [eprintln!] with the prefix of every message. *)
Definition eprint (text : string) : Run unit := λ s,
  if tm_stderr term (length (sh_acts s)) then act (PrintedErr ("penguin: " +:+ text +:+ line_end)) s
  else panic stderr_failed s.

(** The exit code after something was printed. *)
Definition succeeds (m : Run unit) : Cmd := let! _ := m in pure (Ok SUCCESS).
Definition fails (m : Run unit) : Cmd := let! _ := m in pure (Ok FAILURE).

(** A call under [with_timeout]. *)
Definition ask {A} (request : Act) (call : Answer D A) : Run (result A GrpcStatus) := λ s,
  let '(r, d) := call (sh_daemon s) in
  (Ok (match r with Some r => r | None => Err (mkGrpcStatus DeadlineExceeded "request timed out") end),
   mkShell d (sh_acts s ++ [request])).

Definition print_daemon_unreachable (socket_path : string) : Run unit :=
  eprint (daemon_unreachable_message socket_path).

Definition print_rpc_error (status : GrpcStatus) (socket_path : string) : Run unit :=
  eprint (friendly_status_message status socket_path).

(** [let Some(mut client) = client else ...] *)
Definition with_client (client : bool) (socket_path : string) (k : Cmd) : Cmd :=
  if client then k else fails (print_daemon_unreachable socket_path).

Definition module_name (matches : ArgMatches) : option string := get_one_string matches MODULE_ARG_ID.

Definition json_requested (matches : ArgMatches) : bool := default false (get_one_bool matches JSON_ARG_ID).

Definition update_yes (matches : ArgMatches) : bool := default false (get_one_bool matches YES_ARG_ID).

(** [expect] on the module's name. *)
Definition expect_module (matches : ArgMatches) (k : string → Cmd) : Cmd :=
  match module_name matches with
  | Some module => k module
  | None => panic "required by the clap tree"
  end.

Definition cmd_version (client : bool) (socket_path : string) : Cmd :=
  let! _ := print (render_local_version LOCAL_VERSION) in
  with_client client socket_path (
    let! r := ask (Asked (Version API_VERSION)) (d_version API_VERSION) in
    match r with
    | Ok daemon_version => succeeds (print (render_daemon_version daemon_version))
    | Err status => fails (print_rpc_error status socket_path)
    end).

Definition cmd_modules (client : bool) (matches : ArgMatches) (socket_path : string) : Cmd :=
  with_client client socket_path (
    let! r := ask (Asked (ListModules API_VERSION)) (d_list_modules API_VERSION) in
    match r with
    | Ok modules =>
        succeeds (print (if json_requested matches then modules_json modules else render_modules_table modules))
    | Err status => fails (print_rpc_error status socket_path)
    end).

Definition cmd_load (client : bool) (matches : ArgMatches) (socket_path : string) : Cmd :=
  expect_module matches (λ module,
    with_client client socket_path (
      let! r := ask (Asked (LoadModule API_VERSION module)) (d_load_module API_VERSION module) in
      match r with
      | Ok state => succeeds (print (render_load_success module state))
      | Err status => fails (eprint (load_error_message status module socket_path))
      end)).

Definition cmd_unload (client : bool) (matches : ArgMatches) (socket_path : string) : Cmd :=
  expect_module matches (λ module,
    with_client client socket_path (
      let! r := ask (Asked (UnloadModule API_VERSION module)) (d_unload_module API_VERSION module) in
      match r with
      | Ok _ => succeeds (print (render_unload_success module))
      | Err status => fails (print_rpc_error status socket_path)
      end)).

Definition cmd_status (client : bool) (matches : ArgMatches) (socket_path : string) : Cmd :=
  let module := default "" (module_name matches) in
  with_client client socket_path (
    let! r := ask (Asked (GetStatusOf API_VERSION module)) (d_get_status API_VERSION module) in
    match r with
    | Ok (daemon_version, modules) =>
        succeeds (
          if json_requested matches then print (status_json daemon_version modules)
          else let! _ := print (render_status_header daemon_version) in print (render_status_table modules))
    | Err status => fails (print_rpc_error status socket_path)
    end).

(** The receiving loop: every line is printed as it arrives. *)
Fixpoint print_lines (lines : list PbLogLine) : Run unit :=
  match lines with
  | [] => pure (Ok ())
  | line :: lines => let! _ := print (render_log_line line) in print_lines lines
  end.

Definition cmd_logs (client : bool) (matches : ArgMatches) (socket_path : string) : Cmd :=
  let options := logs_options matches in
  match validate_lines (lo_lines options) with
  | Err message => fails (eprint message)
  | Ok _ =>
      with_client client socket_path (
        let module := default "" (lo_module options) in
        let! r := ask (AskedLogs module (lo_lines options) (lo_follow options))
                    (d_tail_logs API_VERSION module (lo_lines options) (lo_follow options)) in
        match r with
        | Err status =>
            match gs_code status with
            | Unimplemented => succeeds (print TAIL_LOGS_NOT_IMPLEMENTED)
            | _ => fails (print_rpc_error status socket_path)
            end
        | Ok (lines, ended) =>
            let! _ := print_lines lines in
            match ended with
            | None => pure (Ok SUCCESS)
            | Some status => fails (print_rpc_error status socket_path)
            end
        end)
  end.

Definition confirm_from_stdin : Run bool :=
  let! _ := print UPDATE_CONFIRM_PROMPT in
  if tm_flushes term then
    let! _ := act ReadAnswer in
    pure (Ok (match tm_line term with Some answer => confirm_answer answer | None => false end))
  else pure (Ok false).

Definition apply_the_update (socket_path : string) : Cmd :=
  let! r := ask (Asked (ApplyUpdate API_VERSION)) (d_apply_update API_VERSION) in
  match r with
  | Ok (applied, message) =>
      succeeds (print (if applied : bool then UPDATE_APPLIED_SUCCESS else render_update_failed message))
  | Err status => fails (print_rpc_error status socket_path)
  end.

Definition cmd_update (client : bool) (matches : ArgMatches) (socket_path : string) : Cmd :=
  let yes := update_yes matches in
  with_client client socket_path (
    let! r := ask (Asked (CheckUpdate API_VERSION)) (d_check_update API_VERSION) in
    match r with
    | Err status => fails (print_rpc_error status socket_path)
    | Ok (available, current_version, latest_version) =>
        let! _ := print (render_update_check current_version latest_version) in
        match decide_update available yes with
        | NoUpdateAvailable => succeeds (print NO_UPDATES_AVAILABLE)
        | Confirm =>
            let! confirmed := confirm_from_stdin in
            if confirmed : bool then apply_the_update socket_path else pure (Ok SUCCESS)
        | Apply => apply_the_update socket_path
        end
    end).

Definition read_piped_stdin : option string :=
  if tm_is_terminal term then None
  else
    match tm_rest term with
    | Some buffer => if decide (buffer = "") then None else Some buffer
    | None => None
    end.

Fixpoint print_chunks (acc : ChunkAccumulator) (chunks : list DispatchChunk) : Run ChunkAccumulator :=
  match chunks with
  | [] => pure (Ok acc)
  | chunk :: chunks =>
      let '(text, acc) := record chunk acc in
      let! _ := print text in print_chunks acc chunks
  end.

Definition with_args (request : DispatchRequest) (args : list string) : DispatchRequest :=
  mkDispatchRequest (dr_api_version request) (dr_module request) (dr_path request) (dr_flags request) args.

Definition asked_dispatch (r : DispatchRequest) : Act :=
  Asked (Dispatch (dr_api_version r) (dr_module r) (dr_path r) (dr_flags r) (dr_args r)).

(** The request that is sent: one without arguments takes what was piped in. *)
Definition piped_args (request : DispatchRequest) : DispatchRequest :=
  if decide (dr_args request = []) then
    with_args request (apply_stdin_fallback (dr_args request) read_piped_stdin)
  else request.

Definition cmd_dispatch (client : bool) (module_name : string) (modules : list ModuleCommands)
    (matches : ArgMatches) (socket_path : string) : Cmd :=
  match resolve_dispatch module_name (commands_of modules module_name) matches with
  | None => fails (eprint ("no command given for module " +:+ debug_text module_name))
  | Some request =>
      let request := piped_args request in
      with_client client socket_path (
        let! r := ask (asked_dispatch request) (d_dispatch request) in
        match r with
        | Err status => fails (print_rpc_error status socket_path)
        | Ok (chunks, ended) =>
            let! acc := print_chunks accumulator_new chunks in
            match ended with
            | None => pure (Ok (exit_code_from (ac_exit_code acc)))
            | Some status => fails (print_rpc_error status socket_path)
            end
        end)
  end.

(** The handler a parsed invocation selects. *)
Definition run_verb (client : bool) (modules : list ModuleCommands) (name : string) (sub : ArgMatches)
    (socket_path : string) : Cmd :=
  if decide (name = "version") then cmd_version client socket_path
  else if decide (name = "modules") then cmd_modules client sub socket_path
  else if decide (name = "load") then cmd_load client sub socket_path
  else if decide (name = "unload") then cmd_unload client sub socket_path
  else if decide (name = "status") then cmd_status client sub socket_path
  else if decide (name = "logs") then cmd_logs client sub socket_path
  else if decide (name = "update") then cmd_update client sub socket_path
  else cmd_dispatch client name modules sub socket_path.

(** The tree: the static one when the daemon is not there or does not tell
    its commands. *)
Definition discover (client : bool) (socket_path : string) : Run (list ModuleCommands) :=
  if client then
    let! r := ask (Asked (ListCommands API_VERSION)) (d_list_commands API_VERSION) in
    match r with
    | Ok fetched => pure (Ok fetched)
    | Err status =>
        let! _ := eprint ("warning: could not list module commands: " +:+
                          friendly_status_message status socket_path) in
        pure (Ok [])
    end
  else pure (Ok []).

Definition socket_of (args : list string) : string := default DEFAULT_SOCKET_PATH (extract_socket_override args).

(** Errors of printing help or what the parser says are ignored. *)
Definition run (args : list string) : Cmd :=
  match args with
  | [] => panic "range start index 1 out of range"
  | _ :: typed =>
      if is_version_flag typed then succeeds (print (LOCAL_VERSION +:+ line_end))
      else
        let socket_path := socket_of typed in
        let client := listening socket_path in
        let! modules := discover client socket_path in
        let root := graft_modules build_static_root modules in
        match try_get_matches_from root args with
        | ParserExits out err code => let! _ := act (Printed out) in let! _ := act (PrintedErr err) in pure (Ok code)
        | Matched matches =>
            match subcommand matches with
            | None => succeeds (act (Printed (help_text root)))
            | Some (name, sub) => run_verb client modules name sub socket_path
            end
        end
  end.

(** The process: its exit code and what it has done. *)
Definition pdcli (args : list string) (d : D) : Z * Shell D :=
  let '(r, s) := run args (mkShell d []) in
  (match r with Ok code => code | Err _ => PANIC end, s).
End Run.

(** ** Against the daemon's own service *)

Section Served.
  Context {W : Type} `{!ModuleEnv W} `{!StateStore W}.
  Context (cfg : SupervisorConfig W) (debug : string → string) (daemon_version : string).
  Context (update : option (UpdateClient (W := W))).
  Context (logs : string → Z → bool → option (result (Streamed PbLogLine) GrpcStatus)).
  (** Whether a call's answer comes too late for the client, and where the
      daemon has got to when the client gives up on it. *)
  Context (late : Request → Sup W → option (Sup W)).

(** A call of the service: the answer, unless it comes too late. *)
Definition served {A B} (request : Request) (rpc : Svc (W := W) A) (f : A → B) : Answer (Sup W) B := λ s,
  match late request s with
  | Some s => (None, s)
  | None =>
      let '(r, s) := rpc s in
      (Some (match r with Ok a => Ok (f a) | Err status => Err status end), s)
  end.

Definition chunk_received (c : PbChunk) : DispatchChunk := mkChunk (pc_output c) (pc_exit_code c) (pc_final c).

Instance service_daemon : DaemonApi (Sup W) := {|
  d_version v := served (Version v) (version_rpc debug daemon_version v) fst;
  d_list_modules v := served (ListModules v) (list_modules_rpc cfg debug v) id;
  d_load_module v name := served (LoadModule v name) (load_module cfg debug v name) id;
  d_unload_module v name := served (UnloadModule v name) (unload_module debug v name) id;
  d_get_status v name := served (GetStatusOf v name) (get_status cfg debug daemon_version v name) id;
  d_list_commands v := served (ListCommands v) (list_commands cfg debug v) id;
  d_tail_logs v module lines follow s := (logs module lines follow, s);
  d_dispatch r :=
    served (Dispatch (dr_api_version r) (dr_module r) (dr_path r) (dr_flags r) (dr_args r))
      (dispatch_rpc cfg debug (dr_api_version r) (dr_module r) (dr_path r) (dr_flags r) (dr_args r))
      (λ chunks, (map chunk_received chunks, None));
  d_check_update v := served (CheckUpdate v) (check_update debug daemon_version update v) id;
  d_apply_update v := served (ApplyUpdate v) (apply_update debug update v) id;
|}.
End Served.
