(* ===== verification/CliRunProps.v ===== *)
(** * What a run of the command line may do, and what it reports

    Panics and updates of a run on any terminal, its end without a daemon,
    and [load], [unload] and a module's command against the daemon's own
    service, with answers that may come too late. *)
From S2P Require Import Prelude.
From S2P Require Import Text.
From S2P Require Import Sdk.
From S2P Require Import Backoff.
From S2P Require Import Supervisor.
From S2P Require Import SupervisorFacts.
From S2P Require Import Cli.
From S2P Require Import Service.
From S2P Require Import ServiceProps.
From S2P Require Import FakeEnv.
From S2P Require Import CliTree.
From S2P Require Import CliRender.
From S2P Require Import CliRun.

(** ** What a run may do *)

(** How printing fails after [n] acts. *)
Definition print_fails (term : Terminal) (n : nat) (message : string) : Prop :=
  message = stdout_failed ∧ tm_stdout term n = false ∨ message = stderr_failed ∧ tm_stderr term n = false.

Section Facts.
  Context {D : Type} `{!DaemonApi D} `{!Clap} `{!CliParser} `{!CliText}.
  Context (term : Terminal).
  (** Whether a run may ask anything, and whether it may apply an update, of a
      daemon that is [d] at first. *)
  Context (may_ask may_apply : Prop) (d : D).

Definition allowed (a : Act) : Prop :=
  match a with
  | Asked (ApplyUpdate _) => may_ask ∧ may_apply
  | Asked _ | AskedLogs _ _ _ => may_ask
  | Panicked _ => False
  | Printed _ | PrintedErr _ | ReadAnswer => True
  end.

Definition within (s : Shell D) : Prop := Forall allowed (sh_acts s) ∧ (may_ask ∨ sh_daemon s = d).

(** From a run so far, [m] does what it may; the value it has satisfies [P],
    and if it panics then in printing, which is the last it does. *)
Definition safe {A} (P : A → Prop) (m : Prelude.eff (Shell D) string A) : Prop :=
  ∀ s, within s → match m s with
                  | (Ok a, s') => within s' ∧ P a
                  | (Err message, s') => ∃ s1, within s1 ∧ print_fails term (length (sh_acts s1)) message ∧
                      s' = done_act (Panicked message) s1
                  end.

Lemma safe_bind {A B} P Q (m : Prelude.eff (Shell D) string A) (k : A → Prelude.eff (Shell D) string B) :
  safe P m → (∀ a, P a → safe Q (k a)) → safe Q (eff_bind m k).
Proof.
  intros Hm Hk s Hs. unfold eff_bind. specialize (Hm s Hs). destruct (m s) as [[a|e] s']; [|done].
  destruct Hm as [Hs' Ha]. exact (Hk a Ha s' Hs').
Qed.

Lemma safe_pure {A} (P : A → Prop) a : P a → safe P (pure (Ok a)).
Proof. by intros ? s Hs. Qed.

Lemma done_within a s : within s → allowed a → within (done_act a s).
Proof. intros [Hs Hd] Ha. split; [|done]. apply Forall_app. by split; [|apply Forall_singleton]. Qed.

Lemma safe_act a : allowed a → safe (λ _, True) (act a).
Proof. intros Ha s Hs. split; [by apply done_within|done]. Qed.

Lemma safe_print text : safe (λ _, True) (print term text).
Proof.
  intros s Hs. unfold print. destruct (tm_stdout term _) eqn:E; [by apply safe_act|].
  exists s. split_and!; [done|by left|done].
Qed.

Lemma safe_eprint text : safe (λ _, True) (eprint term text).
Proof.
  intros s Hs. unfold eprint. destruct (tm_stderr term _) eqn:E; [by apply safe_act|].
  exists s. split_and!; [done|by right|done].
Qed.

Lemma safe_rpc_error status socket : safe (λ _, True) (print_rpc_error term status socket).
Proof. apply safe_eprint. Qed.

Lemma safe_unreachable socket : safe (λ _, True) (print_daemon_unreachable term socket).
Proof. apply safe_eprint. Qed.

Lemma safe_ask {A} request (call : Answer D A) : may_ask → allowed request → safe (λ _, True) (ask request call).
Proof.
  intros Hm Ha s [Hs _]. unfold ask. destruct (call _). split; [split; [|by left]|done].
  apply Forall_app. by split; [|apply Forall_singleton].
Qed.

Lemma safe_succeeds m : safe (λ _, True) m → safe (λ _, True) (succeeds (D := D) m).
Proof. intros Hm. eapply safe_bind; [exact Hm|]. intros. by apply safe_pure. Qed.

Lemma safe_fails m : safe (λ _, True) m → safe (λ _, True) (fails (D := D) m).
Proof. intros Hm. eapply safe_bind; [exact Hm|]. intros. by apply safe_pure. Qed.

Lemma safe_print_lines lines : safe (λ _, True) (print_lines term lines).
Proof.
  induction lines as [|l lines IH]; [by apply safe_pure|]. eapply safe_bind; [apply safe_print|]. done.
Qed.

Lemma safe_print_chunks chunks : ∀ acc, safe (λ _, True) (print_chunks term acc chunks).
Proof.
  induction chunks as [|c chunks IH]; intros acc; [by apply safe_pure|]. cbn [print_chunks].
  destruct (record c acc). eapply safe_bind; [apply safe_print|]. done.
Qed.
End Facts.

Create HintDb cli.
#[export] Hint Resolve safe_pure safe_print safe_eprint safe_rpc_error safe_unreachable safe_succeeds safe_fails safe_print_lines safe_print_chunks : cli.
#[export] Hint Extern 1 (allowed _ _ _) => (simpl; tauto) : cli.

(** Follows a handler through its calls. *)
Ltac handler :=
  repeat match goal with
  | |- safe _ _ _ _ _ (eff_bind (ask _ _) _) => eapply safe_bind; [apply safe_ask; [done|simpl; tauto]|intros [?|?] _]
  | |- safe _ _ _ _ _ (eff_bind _ _) => eapply safe_bind; [solve [auto with cli]|intros ? _]
  | |- safe _ _ _ _ _ (match ?x with _ => _ end) => destruct x
  | |- safe _ _ _ _ _ (succeeds _) => apply safe_succeeds
  | |- safe _ _ _ _ _ (fails _) => apply safe_fails
  | |- _ => solve [auto with cli]
  end.

Section Verbs.
  Context {D : Type} `{!DaemonApi D} `{!Clap} `{!CliParser} `{!CliText}.
  Context (LOCAL_VERSION : string) (term : Terminal).
  Context (may_ask may_apply : Prop) (d : D).

Abbreviation safe := (safe (D := D) term may_ask may_apply d (λ _, True)).

Definition confirmed : Prop :=
  tm_flushes term = true ∧ ∃ answer, tm_line term = Some answer ∧ confirm_answer answer = true.

Lemma safe_with_client client socket k :
  (client = true → may_ask) → (may_ask → safe k) → safe (with_client term client socket k).
Proof.
  unfold with_client. intros Hc Hk. destruct client; [auto|]. handler.
Qed.

Lemma safe_apply socket : may_ask → may_apply → safe (apply_the_update term socket).
Proof. intros. unfold apply_the_update. handler. Qed.

Lemma safe_confirm :
  CliRunProps.safe (D := D) term may_ask may_apply d (λ b : bool, b = true → confirmed) (confirm_from_stdin term).
Proof.
  unfold confirm_from_stdin. eapply safe_bind; [apply safe_print|intros _ _].
  destruct (tm_flushes term) eqn:Ef; [|by apply safe_pure].
  eapply safe_bind; [by apply safe_act|intros _ _]. apply safe_pure.
  destruct (tm_line term) as [answer|] eqn:El; [|done]. intros Hc. split; [done|]. by exists answer.
Qed.

Lemma safe_update client sub socket :
  (client = true → may_ask) → (update_yes sub = true ∨ confirmed → may_apply) →
  safe (cmd_update term client sub socket).
Proof.
  intros Hc Ha. apply safe_with_client; [done|]. intros Hask.
  eapply safe_bind; [apply safe_ask; [done|simpl; tauto]|intros [[[available cur] latest]|status] _];
    [|handler].
  eapply safe_bind; [apply safe_print|intros _ _].
  destruct available; simpl; [|handler]. destruct (update_yes sub); simpl; [apply safe_apply; auto|].
  eapply safe_bind; [apply safe_confirm|intros b Hb]. destruct b; [apply safe_apply; auto|by apply safe_pure].
Qed.

Lemma safe_dispatch client name modules sub socket :
  (client = true → may_ask) → safe (cmd_dispatch term client name modules sub socket).
Proof.
  intros Hc. unfold cmd_dispatch. destruct (resolve_dispatch _ _ _) as [request|]; [|handler].
  apply safe_with_client; [done|]. intros Hask. handler.
Qed.

Lemma safe_expect sub k :
  is_Some (module_name sub) → (∀ module, safe (k module)) → safe (expect_module (D := D) sub k).
Proof. unfold expect_module. intros [module ->] Hk. apply Hk. Qed.

(** Whatever verb: nothing is asked without a client, no update applied
    without leave, and the only panics are those of printing. *)
Lemma safe_run_verb client modules name sub socket :
  (client = true → may_ask) →
  (name = "update" → update_yes sub = true ∨ confirmed → may_apply) →
  (name = "load" ∨ name = "unload" → is_Some (module_name sub)) →
  safe (run_verb LOCAL_VERSION term client modules name sub socket).
Proof.
  intros Hc Ha Hn. unfold run_verb. repeat case_decide.
  - eapply safe_bind; [apply safe_print|intros _ _]. apply safe_with_client; [done|]. intros Hask. handler.
  - apply safe_with_client; [done..|]. intros Hask. handler.
  - apply safe_expect; [auto|]. intros module. apply safe_with_client; [done..|]. intros Hask. handler.
  - apply safe_expect; [auto|]. intros module. apply safe_with_client; [done..|]. intros Hask. handler.
  - apply safe_with_client; [done..|]. intros Hask. handler.
  - unfold cmd_logs. destruct (validate_lines _); [|handler].
    apply safe_with_client; [done..|]. intros Hask. handler.
  - apply safe_update; auto.
  - by apply safe_dispatch.
Qed.
End Verbs.

(** ** The whole run *)

Lemma static_verb_found modules name c :
  find_command (cd_subcommands build_static_root) name = Some c →
  find_command (cd_subcommands (graft_modules build_static_root modules)) name = Some c.
Proof. intros E. unfold graft_modules. cbn [cd_subcommands]. by rewrite find_command_app, E. Qed.

(** Both streams can be written to all along. *)
Definition writable (term : Terminal) : Prop := ∀ n, tm_stdout term n = true ∧ tm_stderr term n = true.

Section Writable.
  Context {D : Type} `{!DaemonApi D} `{!Clap} `{!CliParser} `{!CliText}.
  Context (LOCAL_VERSION : string) (term : Terminal) (Hw : writable term).

Lemma print_writable text (s : Shell D) : print term text s = (Ok (), done_act (Printed text) s).
Proof. unfold print. by rewrite (proj1 (Hw _)). Qed.

Lemma eprint_writable text (s : Shell D) :
  eprint term text s = (Ok (), done_act (PrintedErr ("penguin: " +:+ text +:+ line_end)) s).
Proof. unfold eprint. by rewrite (proj2 (Hw _)). Qed.

(** What a verb says when no daemon listens. *)
Definition says (verb : string) (sub : ArgMatches) (socket : string) : string :=
  match validate_lines (lo_lines (logs_options sub)) with
  | Err message => if decide (verb = "logs") then message else daemon_unreachable_message socket
  | Ok _ => daemon_unreachable_message socket
  end.

(** Without a client every verb fails, says why and leaves the daemon alone. *)
Lemma run_verb_without_client modules name sub socket (s : Shell D) :
  name ∈ RESERVED_STATIC_VERBS → (name = "load" ∨ name = "unload" → is_Some (module_name sub)) →
  ∃ s', run_verb LOCAL_VERSION term false modules name sub socket s = (Ok FAILURE, s') ∧
    sh_daemon s' = sh_daemon s ∧
    last (sh_acts s') = Some (PrintedErr ("penguin: " +:+ says name sub socket +:+ line_end)).
Proof.
  assert (∀ text (s1 : Shell D), sh_daemon s1 = sh_daemon s →
    ∃ s', fails (eprint term text) s1 = (Ok FAILURE, s') ∧ sh_daemon s' = sh_daemon s ∧
      last (sh_acts s') = Some (PrintedErr ("penguin: " +:+ text +:+ line_end))) as Hfail.
  { intros text s1 Hd. unfold fails, eff_bind. rewrite eprint_writable. eexists. split_and!; [done|done|].
    simpl. apply last_snoc. }
  assert (name ≠ "logs" → says name sub socket = daemon_unreachable_message socket) as Hsays.
  { intros Hne. unfold says. destruct (validate_lines _); [done|]. by rewrite decide_False. }
  intros Hr Hn. unfold RESERVED_STATIC_VERBS in Hr.
  repeat (apply elem_of_cons in Hr as [->|Hr]; [try rewrite Hsays by done|]); [..|by apply elem_of_nil in Hr].
  - change (run_verb LOCAL_VERSION term false modules "version" sub socket) with (cmd_version LOCAL_VERSION term false socket).
    unfold cmd_version, eff_bind at 1. rewrite print_writable. by apply Hfail.
  - by apply Hfail.
  - change (run_verb LOCAL_VERSION term false modules "load" sub socket) with (cmd_load term false sub socket).
    unfold cmd_load, expect_module. destruct Hn as [module ->]; [by left|]. by apply Hfail.
  - change (run_verb LOCAL_VERSION term false modules "unload" sub socket) with (cmd_unload term false sub socket).
    unfold cmd_unload, expect_module. destruct Hn as [module ->]; [by right|]. by apply Hfail.
  - by apply Hfail.
  - change (run_verb LOCAL_VERSION term false modules "logs" sub socket) with (cmd_logs term false sub socket).
    unfold cmd_logs, says. destruct (validate_lines _); by apply Hfail.
  - by apply Hfail.
Qed.
End Writable.

Section Whole.
  Context {D : Type} `{!DaemonApi D} `{!Clap} `{!CliParser} `{!CliText}.
  Context (LOCAL_VERSION : string) (listening : string → bool) (term : Terminal).

(** The parser lets no [load] or [unload] through without a module. *)
Lemma load_names_a_module modules args m name sub :
  try_get_matches_from (graft_modules build_static_root modules) args = Matched m →
  subcommand m = Some (name, sub) → name = "load" ∨ name = "unload" → is_Some (module_name sub).
Proof.
  intros Hm Hs Hn. apply matches_accepted in Hm. inversion Hm as [|? ? n' m' c _ Hs' Hc Hsub]; [congruence|].
  assert (n' = name ∧ m' = sub) as [-> ->] by (split; congruence).
  assert (∃ args', find_command (cd_subcommands build_static_root) name = Some args' ∧
            module_arg true ∈ cd_args args') as (c' & Hc' & Harg).
  { destruct Hn as [->| ->]; eexists; (split; [reflexivity|]); simpl; by left. }
  rewrite (static_verb_found _ _ _ Hc') in Hc. injection Hc as <-.
  inversion Hsub as [? ? Hr _|? ? ? ? ? Hr]; exact (Hr _ Harg eq_refl eq_refl).
Qed.

(** Without modules only the static verbs get through. *)
Lemma static_verbs_only args m name sub :
  try_get_matches_from (graft_modules build_static_root []) args = Matched m →
  subcommand m = Some (name, sub) → name ∈ RESERVED_STATIC_VERBS.
Proof.
  intros Hm Hs. apply matches_accepted in Hm. inversion Hm as [|? ? n' m' c _ Hs' Hc Hsub]; [congruence|].
  assert (n' = name) as -> by congruence. apply reserved_static.
  unfold graft_modules in Hc. cbn [cd_subcommands] in Hc. rewrite find_command_app in Hc. destruct (find_command _ name); [by eexists|done].
Qed.

(** An update was ordered on this command line: it is an [update] with
    [--yes], or one whose question was answered with yes. *)
Definition update_ordered (args : list string) : Prop :=
  ∃ modules m sub, try_get_matches_from (graft_modules build_static_root modules) args = Matched m ∧
    subcommand m = Some ("update", sub) ∧ (update_yes sub = true ∨ confirmed term).

Lemma safe_run program typed d :
  safe (D := D) term (listening (socket_of typed) = true) (update_ordered (program :: typed)) d (λ _, True)
    (run LOCAL_VERSION listening term (program :: typed)).
Proof.
  unfold run. destruct (is_version_flag typed); [handler|]. cbn zeta.
  eapply safe_bind with (P := λ _, True).
  { unfold discover. destruct (listening (socket_of typed)) eqn:Hl; [|by apply safe_pure]. handler. }
  intros modules _. destruct (try_get_matches_from _ _) as [m|out err code] eqn:Hm.
  - destruct (subcommand m) as [[name sub]|] eqn:Hsub.
    + apply safe_run_verb; [done| |].
      * intros -> Hu. by exists modules, m, sub.
      * intros Hn. by eapply load_names_a_module.
    + apply safe_succeeds. by apply safe_act.
  - eapply safe_bind; [by apply safe_act|intros _ _]. eapply safe_bind; [by apply safe_act|intros _ _].
    by apply safe_pure.
Qed.

End Whole.

(** ** A command's output and exit code *)

Section Outcome.
  Context {D : Type} `{!DaemonApi D} `{!Clap} `{!CliText}.
  Context (term : Terminal) (Hw : writable term).

Lemma print_chunks_spec chunks : ∀ out acc (s : Shell D),
  ∃ acc' s', print_chunks term acc chunks s = (Ok acc', s') ∧
    ac_exit_code acc' = oc_exit_code (fold_loop out acc chunks) ∧ sh_daemon s' = sh_daemon s ∧
    sh_acts s' = sh_acts s ++ map (λ c, Printed (ch_output c)) chunks.
Proof.
  induction chunks as [|c chunks IH]; intros out acc s.
  { exists acc, s. split_and!; [done..|]. by rewrite app_nil_r. }
  destruct (IH (out +:+ ch_output c) (if ch_final c then mkAccumulator (ch_exit_code c) else acc)
    (done_act (Printed (ch_output c)) s)) as (acc' & s' & E & He & Hd & Ha).
  exists acc', s'. split_and!; [|done|done|].
  - cbn [print_chunks record]. unfold eff_bind. rewrite print_writable by done. exact E.
  - rewrite Ha. simpl. by rewrite <- app_assoc.
Qed.

(** A module's command whose reply stream ends well: the chunks are printed
    in order and the exit code is that of the folded reply, clamped to a
    byte; a negative one becomes 0. *)
Lemma command_prints_its_reply name modules sub socket request d d' chunks (acts : list Act) :
  resolve_dispatch name (commands_of modules name) sub = Some request →
  d_dispatch (piped_args term request) d = (Some (Ok (chunks, None)), d') →
  cmd_dispatch term true name modules sub socket (mkShell d acts) =
    (Ok (exit_code_from (oc_exit_code (fold_chunks chunks))),
     mkShell d' (acts ++ asked_dispatch (piped_args term request) :: map (λ c, Printed (ch_output c)) chunks)).
Proof.
  intros Hr Hd. unfold cmd_dispatch. rewrite Hr. cbv zeta. unfold with_client, eff_bind at 1, ask.
  cbn [sh_daemon sh_acts]. rewrite Hd.
  destruct (print_chunks_spec chunks "" accumulator_new (mkShell d' (acts ++ [asked_dispatch (piped_args term request)])))
    as (acc' & [d'' acts'] & E & He & Hd' & Ha). simpl in Hd', Ha. subst.
  unfold eff_bind. rewrite E, He. unfold fold_chunks, pure. by rewrite <- app_assoc.
Qed.

(** One that is answered with an error says so and fails. *)
Lemma command_reports_its_error name modules sub socket request d d' status (acts : list Act) :
  resolve_dispatch name (commands_of modules name) sub = Some request →
  d_dispatch (piped_args term request) d = (Some (Err status), d') →
  cmd_dispatch term true name modules sub socket (mkShell d acts) =
    (Ok FAILURE,
     mkShell d' (acts ++ [asked_dispatch (piped_args term request);
                          PrintedErr ("penguin: " +:+ friendly_status_message status socket +:+ line_end)])).
Proof.
  intros Hr Hd. unfold cmd_dispatch. rewrite Hr. cbv zeta. unfold with_client, eff_bind, ask.
  cbn [sh_daemon sh_acts]. rewrite Hd. unfold fails, eff_bind, print_rpc_error. rewrite eprint_writable by done.
  unfold done_act. simpl. by rewrite <- app_assoc.
Qed.
End Outcome.

Lemma exit_code_is_a_byte code :
  (0 ≤ exit_code_from code ≤ 255)%Z ∧ (exit_code_from code = SUCCESS ↔ (code ≤ 0)%Z).
Proof. unfold exit_code_from, SUCCESS. lia. Qed.

Example negative_exit_is_success : exit_code_from (-1) = SUCCESS.
Proof. reflexivity. Qed.

(** ** Against the daemon's own service *)

Lemma resolved_for `{Clap} module specs m request :
  resolve_dispatch module specs m = Some request → dr_api_version request = API_VERSION ∧ dr_module request = module.
Proof.
  unfold resolve_dispatch. destruct (subcommand m) as [[n m']|]; [|done]. simpl.
  destruct (find_spec specs n) as [spec|]; [|done]. simpl.
  destruct (walk_loop _ _ _ _) as [[? ?] ?]. by intros [= <-].
Qed.

Section Served.
  Context {W : Type} `{!ModuleEnv W} `{!StateStore W}.
  Context (cfg : SupervisorConfig W) (debug : string → string) (daemon_version : string).
  Context (update : option (UpdateClient (W := W))).
  Context (logs : string → Z → bool → option (result (Streamed PbLogLine) GrpcStatus)).
  Context (late : Request → Sup W → option (Sup W)).
  Context `{!Clap} `{!CliParser} `{!CliText}.
  Context (LOCAL_VERSION : string) (listening : string → bool) (term : Terminal).

#[local] Existing Instance service_daemon.

Abbreviation api := (service_daemon cfg debug daemon_version update logs late).
Abbreviation pdcli := (pdcli (DaemonApi0 := api) LOCAL_VERSION listening term).

(** The modules a run knows the commands of: what the daemon lists, unless
    it does so too late; and the daemon after it was asked. *)
Definition listed (s : Sup W) : list ModuleCommands * Sup W :=
  match late (ListCommands API_VERSION) s with
  | Some s1 => ([], s1)
  | None => (omap (module_commands cfg s) (infos cfg s), s)
  end.

(** Modules of one name that the daemon lists have the same commands. *)
Lemma listed_one_list_per_name s : one_list_per_name (listed s).1.
Proof.
  unfold listed. destruct (late _ s) as [s1|]; [by intros ? ? ? ?%elem_of_nil|]. simpl.
  intros name c1 c2 (i1 & _ & Hc1)%list_elem_of_omap (i2 & _ & Hc2)%list_elem_of_omap.
  unfold module_commands in *. destruct (commands cfg (mi_name i1) s) as [x1|] eqn:E1; [|done].
  destruct (commands cfg (mi_name i2) s) as [x2|] eqn:E2; [|done]. simplify_eq. congruence.
Qed.

(** Discovery, and then the verb; or a warning that cannot be printed. *)
Lemma run_against_service program typed (s : Sup W) m verb sub :
  is_version_flag typed = false → listening (socket_of typed) = true →
  try_get_matches_from (graft_modules build_static_root (listed s).1) (program :: typed) = Matched m →
  subcommand m = Some (verb, sub) →
  (late (ListCommands API_VERSION) s ≠ None ∧ ∃ n message, print_fails term n message ∧
     (pdcli (program :: typed) s).1 = PANIC) ∨
  ∃ acts, (late (ListCommands API_VERSION) s = None → acts = [Asked (ListCommands API_VERSION)]) ∧
    pdcli (program :: typed) s =
      (let '(r, s') := run_verb (DaemonApi0 := api) LOCAL_VERSION term true (listed s).1 verb sub (socket_of typed)
                         (mkShell (listed s).2 acts) in
       (match r with Ok code => code | Err _ => PANIC end, s')).
Proof.
  intros Hv Hl Hm Hs. unfold listed in *. unfold CliRun.pdcli, run. rewrite Hv, Hl. cbv zeta.
  unfold discover, eff_bind, ask. cbn [sh_daemon sh_acts d_list_commands service_daemon]. unfold served.
  destruct (late (ListCommands API_VERSION) s) as [s1|] eqn:El; cbn [fst snd] in *.
  - unfold eprint. destruct (tm_stderr term _) eqn:Ep; cbn [act panic].
    + right. eexists. split; [intros; discriminate|]. unfold pure, done_act. cbn [sh_daemon sh_acts]. rewrite Hm, Hs. reflexivity.
    + left. split; [done|]. eexists _, stderr_failed. split; [by right|done].
  - right. exists [Asked (ListCommands API_VERSION)]. split; [done|].
    unfold list_commands, eff_bind, pure. rewrite check_accepts by done. cbn. unfold id. by rewrite Hm, Hs.
Qed.

(** How a command that has said its last ends. *)
Lemma succeeds_ends text (s : Shell (Sup W)) :
  ∃ r s', succeeds (print term text) s = (r, s') ∧ sh_daemon s' = sh_daemon s ∧
    (r = Ok SUCCESS ∨ r = Err stdout_failed ∧ ∃ n, tm_stdout term n = false).
Proof.
  unfold succeeds, eff_bind, print. destruct (tm_stdout term _) eqn:E; simpl; eexists _, _; split_and!; eauto.
Qed.

Lemma fails_ends text (s : Shell (Sup W)) :
  ∃ r s', fails (eprint term text) s = (r, s') ∧ sh_daemon s' = sh_daemon s ∧
    (r = Ok FAILURE ∨ r = Err stderr_failed ∧ ∃ n, tm_stderr term n = false).
Proof.
  unfold fails, eff_bind, eprint. destruct (tm_stderr term _) eqn:E; simpl; eexists _, _; split_and!; eauto.
Qed.


(** C35: A module's command, from the command line to the module and back.
    When the daemon answers in time and printing works, [pdcli] prints the
    module's output, as it is and nothing else, and exits with the module's
    code clamped to a byte: one above 255 becomes 255, a negative one 0.  A
    module that fails, and one that is not loaded under the name it is listed
    by, make it exit with 1 after saying so.  The module gets the path and
    flags that were typed, and the arguments, or what was piped in when there
    are none; the daemon's own state is not changed. *)
Theorem dispatch_end_to_end (program : string) (typed : list string) (s : Sup W) m module sub request :
  is_version_flag typed = false → listening (socket_of typed) = true → writable term →
  late (ListCommands API_VERSION) s = None →
  try_get_matches_from (graft_modules build_static_root (listed s).1) (program :: typed) = Matched m →
  subcommand m = Some (module, sub) → module ∉ RESERVED_STATIC_VERBS → module ≠ "" →
  resolve_dispatch module (commands_of (listed s).1 module) sub = Some request →
  let sent := piped_args term request in
  late (Dispatch API_VERSION module (dr_path sent) (dr_flags sent) (dr_args sent)) s = None →
  let '(code, s') := pdcli (program :: typed) s in
  let ended_with text := sh_acts s' = [Asked (ListCommands API_VERSION); asked_dispatch sent; text] in
  let message status := PrintedErr ("penguin: " +:+ friendly_status_message status (socket_of typed) +:+ line_end) in
  core (sh_daemon s') = core s ∧ obs (sh_daemon s') = obs s ∧
  match loaded s !! module with
  | None => code = FAILURE ∧ ended_with (message (module_not_found debug module))
  | Some l =>
      let '(r, w) := env_dispatch (lm_instance l) (dr_path request) (dr_flags request) (dr_args sent) (world s) in
      world (sh_daemon s') = w ∧
      match r with
      | Ok out => code = Z.min (Z.max (cr_exit_code out) 0) 255 ∧ ended_with (Printed (cr_output out))
      | Err e => code = FAILURE ∧
          ended_with (message (mkGrpcStatus InternalError ("dispatch failed: " +:+ me_message e)))
      end
  end.
Proof.
  intros Hv Hl Hw Hlist Hm Hs Hres Hne Hr sent Hlate.
  destruct (run_against_service _ _ _ _ _ _ Hv Hl Hm Hs) as [[? _]|(acts & Hacts & ->)]; [done|].
  specialize (Hacts Hlist). subst acts. assert ((listed s).2 = s) as -> by (unfold listed; by rewrite Hlist).
  assert (run_verb (DaemonApi0 := api) LOCAL_VERSION term true (listed s).1 module sub (socket_of typed) =
    cmd_dispatch (DaemonApi0 := api) term true module (listed s).1 sub (socket_of typed)) as ->.
  { unfold run_verb. repeat (rewrite decide_False by (intros ->; apply Hres; vm_compute; set_solver)). done. }
  destruct (resolved_for _ _ _ _ Hr) as [Hver Hmod].
  assert (dr_api_version sent = API_VERSION ∧ dr_module sent = module ∧ dr_path sent = dr_path request ∧
    dr_flags sent = dr_flags request) as (Hver' & Hmod' & Hpath & Hflags).
  { unfold sent, piped_args, with_args. by case_decide. }
  pose proof (dispatch_replies cfg debug API_VERSION module (dr_path sent) (dr_flags sent) (dr_args sent) s eq_refl Hne) as Hd.
  destruct (dispatch_rpc cfg debug _ _ _ _ _ s) as [reply s1] eqn:E.
  assert (d_dispatch (DaemonApi := api) sent s =
    (Some (match reply with Ok chunks => Ok (map chunk_received chunks, None) | Err st => Err st end), s1)) as Ed.
  { cbn [d_dispatch service_daemon]. unfold served. rewrite Hver', Hmod', Hlate, E. by destruct reply. }
  destruct Hd as (Hcore & Hobs & Hd). rewrite Hpath, Hflags in Hd.
  destruct (loaded s !! module) as [l|].
  - destruct (env_dispatch _ _ _ _ _) as [[out|e] w]; destruct Hd as [Hworld Hd].
    + subst reply. rewrite (command_prints_its_reply term Hw _ _ _ _ _ _ _ _ _ Hr Ed). by split_and!.
    + subst reply. rewrite (command_reports_its_error term Hw _ _ _ _ _ _ _ _ _ Hr Ed). by split_and!.
  - destruct Hd as [-> _]. rewrite (command_reports_its_error term Hw _ _ _ _ _ _ _ _ _ Hr Ed). by split_and!.
Qed.
End Served.

(** ** Concrete runs *)

Module CliRunWitness.
Import Fake CliWitness ServiceRuns.

#[local] Existing Instance nested.
#[local] Existing Instance service_daemon.

#[local] Instance texts : CliText := {| to_string_pretty _ := Some "{}"; debug_text s := s |}.

(** A parser that knows [load] and its module. *)
Definition only_module (c : Command) : bool :=
  forallb (λ a, negb (ag_required a) || String.eqb (ag_id a) MODULE_ARG_ID) (cd_args c).

Definition parse (c : Command) (args : list string) : Parsed ArgMatches :=
  match args, find_command (cd_subcommands c) "load" with
  | [_; verb; name], Some sub =>
      if String.eqb verb "load" && (forallb (λ a, negb (ag_required a)) (cd_args c) && only_module sub)
      then Matched (mkM (Some ("load", mkM None [(MODULE_ARG_ID, name)] None)) [] None)
      else ParserExits "" "unsupported" 2
  | _, _ => ParserExits "" "unsupported" 2
  end.

Lemma parse_accepted c args m : parse c args = Matched m → accepted c m.
Proof.
  unfold parse. intros Hm. destruct args as [|? [|verb [|name [|]]]]; try discriminate.
  destruct (find_command _ _) as [sub|] eqn:Ef; [|discriminate].
  destruct (String.eqb verb "load" && _) eqn:Eb; [|discriminate].
  injection Hm as <-. apply andb_true_iff in Eb as [_ [Hc Hs]%andb_true_iff]. rewrite forallb_forall in Hc.
  unfold only_module in Hs. rewrite forallb_forall in Hs.
  eapply accepted_sub; [|reflexivity|done|apply accepted_leaf; [|done]].
  - intros a Ha%list_elem_of_In Hr. apply Hc in Ha. by rewrite Hr in Ha.
  - intros a Ha%list_elem_of_In Hr _. apply Hs in Ha. rewrite Hr in Ha. simpl in Ha.
    apply String.eqb_eq in Ha as ->. simpl. by eexists.
Qed.

#[local] Instance parser : CliParser :=
  {| try_get_matches_from := parse; help_text _ := "help"; matches_accepted := parse_accepted |}.

Definition terminal : Terminal := mkTerminal (λ _, true) (λ _, true) true (Some "y") true None.
Definition no_logs (module : string) (lines : Z) : option (result (Streamed PbLogLine) GrpcStatus) :=
  Some (Ok ([], None)).
Definition never_late (r : Request) (s : Sup FakeWorld) : option (Sup FakeWorld) := None.

(** The daemon is slow to load, and has loaded by the time it is given up. *)
Definition late_load (r : Request) (s : Sup FakeWorld) : option (Sup FakeWorld) :=
  match r with LoadModule _ name => Some (loaded_as name) | _ => None end.

Definition load_matches (name : string) : ArgMatches := mkM None [(MODULE_ARG_ID, name)] None.

Definition run_load (late : Request → Sup FakeWorld → option (Sup FakeWorld)) (term : Terminal) (name : string) :
    Z * Shell (Sup FakeWorld) :=
  pdcli (DaemonApi0 := service_daemon with_plugins quoted "1.0" None (λ m n _, no_logs m n) late)
    "0.2.0" (λ _, true) term ["pdcli"; "load"; name] (new good).

Example load_prints_the_state :
  sh_acts (run_load never_late terminal "a").2 =
    [Asked (ListCommands "v1"); Asked (LoadModule "v1" "a");
     Printed ("Module a loaded (state: running)" +:+ line_end)].
Proof. vm_compute. reflexivity. Qed.

(** A module that takes longer to start than the client waits: the exit code
    says failure, and the module is loaded. *)
Example slow_load_reported_failed :
  (run_load late_load terminal "a").1 = FAILURE ∧
  is_Some (loaded (sh_daemon (run_load late_load terminal "a").2) !! "a").
Proof. split; vm_compute; [reflexivity|by eexists]. Qed.

(** A closed pipe: the module is loaded, and the command line panics. *)
Example closed_pipe_panics :
  let term := mkTerminal (λ _, false) (λ _, true) true None false None in
  (run_load never_late term "a").1 = PANIC ∧
  is_Some (loaded (sh_daemon (run_load never_late term "a").2) !! "a").
Proof. split; vm_compute; [reflexivity|by eexists]. Qed.


(** *** A module that speaks *)

Definition query : CommandSpec := mkCommandSpec "query" "" "look a name up" [] [] false 0 0.

#[local] Instance speaking : ModuleEnv FakeWorld := {|
  Factory := ModuleInfo;
  Host := unit;
  factory_info f := f;
  env_build _ _ w := w;
  env_host_for _ _ w := ((), w);
  env_config_schema _ _ := None;
  env_info _ _ := info "external";
  env_commands _ _ := [query];
  env_init i _ w := (Ok (), w);
  env_start i w := (Ok (), w);
  env_stop _ w := (Ok (), w);
  env_status _ w := (Ok (mkStatus Running ∅), w);
  env_health _ w := (mkHealthReport (fw_level w) "probe" (fw_now w), w);
  env_dispatch _ path _ args w := (Ok (mkCommandResult "192.0.2.1" [] 300), w);
  env_instant w := fw_now w;
  env_wall w := fw_now w;
  env_random w := (F64.of_Z 0, w);
|}.

Definition one_module : SupervisorConfig FakeWorld := mkConfig {["dns" := info "dns"]} 3 10 100 None.
Definition loaded_dns : Sup FakeWorld := (load one_module "dns" (new good)).2.

(** A parser of a module's name and command. *)
Definition optional (c : Command) : bool := forallb (λ a, negb (ag_required a)) (cd_args c).

Definition two_names (module command : string) : ArgMatches :=
  mkM (Some (module, mkM (Some (command, mkM None [] None)) [] None)) [] None.

Definition parse_two (c : Command) (args : list string) : Parsed ArgMatches :=
  match args with
  | [_; n1; n2] =>
      match find_command (cd_subcommands c) n1 with
      | Some c1 =>
          match find_command (cd_subcommands c1) n2 with
          | Some c2 => if optional c && (optional c1 && optional c2) then Matched (two_names n1 n2)
                       else ParserExits "" "unsupported" 2
          | None => ParserExits "" "unsupported" 2
          end
      | None => ParserExits "" "unsupported" 2
      end
  | _ => ParserExits "" "unsupported" 2
  end.

Lemma optional_present c m : optional c = true → required_present c m.
Proof.
  unfold optional. rewrite forallb_forall. intros Hc a Ha%list_elem_of_In Hr. apply Hc in Ha. by rewrite Hr in Ha.
Qed.

Lemma parse_two_accepted c args m : parse_two c args = Matched m → accepted c m.
Proof.
  unfold parse_two. intros Hm. destruct args as [|? [|n1 [|n2 [|]]]]; try discriminate.
  destruct (find_command (cd_subcommands c) n1) as [c1|] eqn:E1; [|discriminate].
  destruct (find_command (cd_subcommands c1) n2) as [c2|] eqn:E2; [|discriminate].
  destruct (optional c && _) eqn:Eo; [|discriminate]. injection Hm as <-.
  apply andb_true_iff in Eo as [H0 [H1 H2]%andb_true_iff].
  eapply accepted_sub; [by apply optional_present|reflexivity|done|].
  eapply accepted_sub; [by apply optional_present|reflexivity|done|].
  apply accepted_leaf; [by apply optional_present|done].
Qed.

#[local] Instance two_parser : CliParser :=
  {| try_get_matches_from := parse_two; help_text _ := "help"; matches_accepted := parse_two_accepted |}.

Definition run_query : Z * Shell (Sup FakeWorld) :=
  pdcli (DaemonApi0 := service_daemon one_module quoted "1.0" None (λ m n _, no_logs m n) never_late)
    (H0 := two_parser) "0.2.0" (λ _, true) terminal ["pdcli"; "dns"; "query"] loaded_dns.

Definition query_request : DispatchRequest := mkDispatchRequest "v1" "dns" ["query"] ∅ [].

Lemma dispatch_end_to_end_witness :
  run_query.1 = 255%Z ∧ last (sh_acts run_query.2) = Some (Printed "192.0.2.1").
Proof.
  pose proof (dispatch_end_to_end one_module quoted "1.0" None (λ m n _, no_logs m n) never_late "0.2.0" (λ _, true)
    terminal "pdcli" ["dns"; "query"] loaded_dns (two_names "dns" "query") "dns"
    (mkM (Some ("query", mkM None [] None)) [] None) query_request) as H.
  specialize (H eq_refl eq_refl (λ _, conj eq_refl eq_refl) eq_refl).
  specialize (H ltac:(vm_compute; reflexivity) eq_refl ltac:(vm_compute; set_solver) ltac:(discriminate)).
  specialize (H ltac:(vm_compute; reflexivity) eq_refl).
  unfold run_query. destruct (pdcli _ _ _ _ _) as [code s'].
  replace (loaded loaded_dns !! "dns") with (Some (mkLoaded 0 Running 0 0 0 0)) in H by (vm_compute; reflexivity).
  destruct H as (_ & _ & _ & Hc & Ha). split; [rewrite Hc; reflexivity|]. simpl. by rewrite Ha.
Defined.
End CliRunWitness.
