(* ===== verification/DesktopLogin.v ===== *)
(** * The desktop's session (penguin-desktop-core lib.rs, token_store.rs, oauth.rs, ipc_client.rs)

    Signing in with a password or through a provider, the tokens kept in the
    secret store, and the calls to the daemon that holds the session.  What a
    secret store promises is the class [SecretKeeper], which the store of
    [Secrets] implements; what the daemon answers is [SessionApi], which the
    daemon's own service, with a hub behind it, implements. *)
From S2P Require Import Prelude Text Json Mask Sdk Hooks HooksFacts Secrets SecretsProps SysResolver PluginWire.
From S2P Require Import FakeEnv Supervisor Service Doh SessionProxy BridgeAction DesktopService Executor.

(** ** Interfaces *)

(** One module's view of a secret store.  [sk_holds s M]: the store holds the
    secrets [M].  A call that fails changes nothing. *)
Class SecretKeeper (S : Type) := {
  sk_get : string → eff S SecretError string;
  sk_set : string → string → eff S SecretError unit;
  sk_delete : string → eff S SecretError unit;
  sk_holds : S → gmap string string → Prop;
  sk_get_law k s M : sk_holds s M →
    let '(r, s') := sk_get k s in
    sk_holds s' M ∧ match r with
                    | Ok v => M !! k = Some v
                    | Err SecretNotFound => M !! k = None
                    | Err _ => True
                    end;
  sk_set_law k v s M : sk_holds s M →
    let '(r, s') := sk_set k v s in
    sk_holds s' (match r with Ok _ => <[k := v]> M | Err _ => M end);
  sk_delete_law k s M : sk_holds s M →
    let '(r, s') := sk_delete k s in
    sk_holds s' (match r with Ok _ => delete k M | Err _ => M end);
}.

(** The calls of the session and bridge-action proxies. *)
Class SessionApi (D : Type) := {
  sa_proxy_request : string → HttpRequest → D → result HttpResponse GrpcStatus * D;
  sa_set_user_session : string → string → string → string → D → result unit GrpcStatus * D;
  sa_bridge_action :
    string → string → BridgeAction.BridgeActionRequest → D →
    result BridgeAction.BridgeActionResponse GrpcStatus * D;
}.

(** The libraries of signing in: 32 random bytes, base64url, percent encoding,
    the claims of a token, JSON. *)
Class LoginCrates := {
  random_state : result string string;
  base64url : string → string;
  urlencode : string → string;
  insecure_decode : string → result Value string;
  json_to_vec : Value → result string string;
}.

(** ** Errors (error.rs) *)

(** A character is alphanumeric by its Unicode class, which for ASCII is that
    of letters and digits. *)
Section Masking.
  Context (alphanumeric : string → bool).

(** The characters of a string, each with its continuation bytes. *)
Fixpoint split_chars (current : string) (s : string) : list string :=
  match s with
  | "" => if decide (current = "") then [] else [current]
  | String c s =>
      if (128 <=? code c) && (code c <? 192) then split_chars (current +:+ String c "") s
      else (if decide (current = "") then [] else [current]) ++ split_chars (String c "") s
  end.

Definition opaque_char (c : string) : bool :=
  alphanumeric c || bool_decide (c = "_") || bool_decide (c = "-").

Definition mask_sensitive (s : string) : string :=
  if contains "token" s || contains "Bearer" s ||
     (40 <? String.length s) && forallb opaque_char (split_chars "" s)
  then "***" else s.

Definition sanitized_message (e : DesktopError) : string :=
  match e with
  | IpcConnection m => "IPC connection failed: " +:+ mask_sensitive m
  | KeychainError m => "keychain operation failed: " +:+ mask_sensitive m
  | Executor.NoSession => "no active session"
  | Executor.InvalidCredentials => "invalid credentials"
  | ApiRequest status => "API request failed: status " +:+ pretty status
  | OAuthError m => "OAuth failed: " +:+ mask_sensitive m
  | InvalidCallback m => "invalid OAuth callback: " +:+ mask_sensitive m
  | UrlError m => "URL parsing failed: " +:+ mask_sensitive m
  | TokenRotationFailed m => "token rotation incomplete: " +:+ mask_sensitive m
  | GrpcError m => "gRPC error: " +:+ mask_sensitive m
  | Internal m => "internal error: " +:+ mask_sensitive m
  | LuaError m => "Lua error: " +:+ mask_sensitive m
  | JsonError m => "JSON error: " +:+ mask_sensitive m
  end.
End Masking.

(** ** Tokens (token_store.rs) *)

Definition NAMESPACE : string := "waddlebot-desktop".
Definition KEY_ACCESS_TOKEN : string := "access_token".
Definition KEY_REFRESH_TOKEN : string := "refresh_token".
Definition KEY_HUB_BASE_URL : string := "hub_base_url".

Record StoredSession := mkStoredSession {
  ss_access_token : string;
  ss_refresh_token : option string;
  ss_hub_base_url : string;
}.

Section TokenStore.
  Context {S : Type} `{!SecretKeeper S} {Crates : ProxyCrates} `{!Utf8}.
  (** [Display] of a secret error. *)
  Context (display : SecretError → string).

(** A call of the store, its error with what was being done. *)
Definition kept {A} (what : string) (m : eff S SecretError A) : eff S DesktopError A := λ s,
  let '(r, s) := m s in (map_err (λ e, KeychainError (what +:+ display e)) r, s).

(** [let _ = delete(...)]. *)
Definition forget (key : string) : eff S DesktopError unit := λ s,
  let '(_, s) := sk_delete key s in (Ok (), s).

Definition set_refresh (what : string) (refresh_token : option string) : eff S DesktopError unit :=
  match refresh_token with
  | Some refresh => kept what (sk_set KEY_REFRESH_TOKEN refresh)
  | None => forget KEY_REFRESH_TOKEN
  end.

Definition store (session : StoredSession) : eff S DesktopError unit :=
  let! _ := pure (map_err UrlError (url_parse (ss_hub_base_url session))) in
  let! _ := kept "failed to store access token: " (sk_set KEY_ACCESS_TOKEN (ss_access_token session)) in
  let! _ := set_refresh "failed to store refresh token: " (ss_refresh_token session) in
  kept "failed to store hub URL: " (sk_set KEY_HUB_BASE_URL (ss_hub_base_url session)).

(** [String::from_utf8] *)
Definition from_utf8 (what bytes : string) : result string DesktopError :=
  if is_utf8 bytes then Ok bytes else Err (KeychainError ("invalid " +:+ what +:+ " encoding")).

Definition load_refresh : eff S DesktopError (option string) := λ s,
  let '(r, s) := sk_get KEY_REFRESH_TOKEN s in
  (match r with
   | Ok bytes =>
       if decide (bytes = "") then Ok None
       else let? token := from_utf8 "refresh token" bytes in Ok (Some token)
   | Err _ => Ok None
   end, s).

Definition load_text (what key : string) : eff S DesktopError string :=
  let! bytes := kept ("failed to load " +:+ what +:+ ": ") (sk_get key) in
  let! text := pure (from_utf8 what bytes) in
  pure (if decide (text = "") then Err Executor.NoSession else Ok text).

Definition load : eff S DesktopError StoredSession :=
  let! access_token := load_text "access token" KEY_ACCESS_TOKEN in
  let! refresh_token := load_refresh in
  let! hub_base_url := load_text "hub URL" KEY_HUB_BASE_URL in
  pure (Ok (mkStoredSession access_token refresh_token hub_base_url)).

Definition clear : eff S DesktopError unit :=
  let! _ := forget KEY_ACCESS_TOKEN in
  let! _ := forget KEY_REFRESH_TOKEN in
  forget KEY_HUB_BASE_URL.

Definition has_session (s : S) : bool * S :=
  let '(r, s) := sk_get KEY_ACCESS_TOKEN s in
  (match r with Ok bytes => negb (bool_decide (bytes = "")) | Err _ => false end, s).

Definition update_tokens (access_token : string) (refresh_token : option string) : eff S DesktopError unit :=
  let! _ := kept "failed to update access token: " (sk_set KEY_ACCESS_TOKEN access_token) in
  set_refresh "failed to update refresh token: " refresh_token.
End TokenStore.

(** ** Providers (oauth.rs) *)

Inductive OAuthPlatform := Google | GitHub | Discord.

Definition platform_str (p : OAuthPlatform) : string :=
  match p with Google => "google" | GitHub => "github" | Discord => "discord" end.

Record CallbackParams := mkCallback { cb_token : string; cb_state : string }.

Record OAuthContext := mkOAuthContext { oc_state : string; oc_platform : string }.

Record OAuthTokens := mkOAuthTokens { ot_access_token : string; ot_refresh_token : option string }.

Section OAuth.
  Context {Crates : ProxyCrates} `{!LoginCrates}.

Definition generate_oauth_state : result string DesktopError :=
  let? state_bytes := map_err (λ e, Internal ("RNG error: " +:+ e)) random_state in
  Ok (base64url state_bytes).

(** Equality in constant time. *)
Definition verify_oauth_state (callback_state stored_state : string) : bool :=
  String.eqb callback_state stored_state.

Definition start_oauth (hub_base_url : string) (platform : OAuthPlatform) :
    result (string * OAuthContext) DesktopError :=
  let? hub_url := map_err (λ e, UrlError ("invalid hub URL: " +:+ e)) (url_parse hub_base_url) in
  let? state := generate_oauth_state in
  let? authorize_url :=
    map_err (λ e, UrlError ("failed to build authorize URL: " +:+ e))
      (url_join hub_url ("/api/v1/auth/oauth/" +:+ platform_str platform)) in
  Ok (url_to_string authorize_url +:+ "?state=" +:+ urlencode state, mkOAuthContext state (platform_str platform)).

Definition extract_tokens_from_jwt (jwt : string) : result OAuthTokens DesktopError :=
  let? claims := map_err (λ e, OAuthError ("failed to decode JWT: " +:+ e)) (insecure_decode jwt) in
  let claim := match get claims "access_token" with Some v => Some v | None => get claims "token" end in
  let? access_token := ok_or (claim ≫= as_str) (OAuthError "access_token not found in JWT") in
  Ok (mkOAuthTokens access_token (get claims "refresh_token" ≫= as_str)).

Definition complete_oauth (params : CallbackParams) (stored_state : string) : result OAuthTokens DesktopError :=
  if negb (verify_oauth_state (cb_state params) stored_state) then
    Err (InvalidCallback "state mismatch (CSRF or forged callback)")
  else extract_tokens_from_jwt (cb_token params).
End OAuth.

(** ** The client's side of the daemon (ipc_client.rs), and the session (lib.rs) *)

Section Session.
  Context {S D : Type} `{!SecretKeeper S} `{!SessionApi D} {Crates : ProxyCrates} `{!Utf8} `{!LoginCrates} `{!Tonic}.
  Context (display : SecretError → string).

(** The secrets kept and the daemon behind the connection. *)
Record Session := mkSession { se_store : S; se_daemon : D }.

Definition Act (A : Type) : Type := eff Session DesktopError A.

Definition on_store {A} (m : eff S DesktopError A) : Act A := λ s,
  let '(r, x) := m (se_store s) in (r, mkSession x (se_daemon s)).

(** A call of the daemon, a refusal as an error of the connection. *)
Definition on_daemon {A} (name : string) (m : D → result A GrpcStatus * D) : Act A := λ s,
  let '(r, d) := m (se_daemon s) in
  (map_err (λ e, GrpcError (name +:+ " failed: " +:+ status_display e)) r, mkSession (se_store s) d).

(** [connect_internal] with its probe; [dial] and [probe] are [None] when
    they take too long. *)
Definition connect (dial : result unit string) (probe : option (result unit GrpcStatus)) :
    result unit DesktopError :=
  let? _ := map_err (λ e, IpcConnection ("dial failed: " +:+ e)) dial in
  match probe with
  | Some (Ok _) => Ok ()
  | Some (Err e) => Err (IpcConnection ("probe RPC failed: " +:+ status_display e))
  | None => Err (IpcConnection "probe timeout")
  end.

(** [resp.status as u16]. *)
Definition proxy_request (req : HttpRequest) : Act HttpResponse :=
  let! resp := on_daemon "ProxyRequest" (sa_proxy_request "v1" req) in
  pure (Ok (mkHttpResponse (wrap_u 16 (hp_status resp)) (hp_headers resp) (hp_body resp))).

Definition set_user_session (access_token : string) (refresh_token : option string) (hub_base_url : string) :
    Act unit :=
  on_daemon "SetUserSession" (sa_set_user_session "v1" access_token (default "" refresh_token) hub_base_url).

Definition execute_bridge_action (module_name : string) (req : BridgeAction.BridgeActionRequest) :
    Act BridgeAction.BridgeActionResponse :=
  on_daemon "ExecuteBridgeAction" (sa_bridge_action "v1" module_name req).

Definition content_type : list (string * string) := [("content-type", "application/json")].

Definition login_request (body : string) : HttpRequest := mkHttpRequest "POST" "/api/v1/auth/login" content_type body.

Definition tokens_of (body : string) : result (string * option string) DesktopError :=
  let? resp_json := map_err (λ _, Executor.InvalidCredentials) (json_from_slice body) in
  let? access_token := ok_or (get resp_json "access_token" ≫= as_str) Executor.InvalidCredentials in
  Ok (access_token, get resp_json "refresh_token" ≫= as_str).

(** The end of both ways to sign in. *)
Definition keep_session (session : StoredSession) : Act unit :=
  let! _ := on_store (store display session) in
  set_user_session (ss_access_token session) (ss_refresh_token session) (ss_hub_base_url session).

Definition login (hub_url email password : string) : Act unit :=
  let body := JObject [("email", JString email); ("password", JString password)] in
  let! body_bytes :=
    pure (map_err (λ e, Internal ("failed to serialize login body: " +:+ e)) (json_to_vec body)) in
  let! resp := proxy_request (login_request body_bytes) in
  if negb (hp_status resp =? 200)%Z then pure (Err (ApiRequest (hp_status resp)))
  else
    let! tokens := pure (tokens_of (hp_body resp)) in
    keep_session (mkStoredSession tokens.1 tokens.2 hub_url).

Definition oauth_start (hub_url : string) (platform : OAuthPlatform) : Act (string * OAuthContext) :=
  pure (start_oauth hub_url platform).

Definition oauth_complete (params : CallbackParams) (stored_state : string) : Act unit :=
  let! tokens := pure (complete_oauth params stored_state) in
  let! session := on_store (load display) in
  keep_session (mkStoredSession (ot_access_token tokens) (ot_refresh_token tokens) (ss_hub_base_url session)).

Definition api_request (method path : string) (body : option string) : Act HttpResponse :=
  proxy_request (mkHttpRequest method path content_type (default "" body)).

Definition logout : Act unit := on_store clear.

Definition has_existing_session (s : Session) : bool * Session :=
  let '(b, x) := has_session (se_store s) in (b, mkSession x (se_daemon s)).
End Session.

Arguments Session : clear implicits.
Arguments mkSession {S D}.
Arguments se_store {S D}.
Arguments se_daemon {S D}.

(** ** The store of penguin-secrets keeps the promise *)

Section Keeper.
  Context {Cipher : Aead} (hex : Z → string) {K : Type} {Ring : Keyring K}.
  Context (show : KeyringError → string) (debug : string → string) (dir : Hooks.Path).
  Context (root : Secrets.Store) (fb : FileBackend) (module : string) (Hmodule : plain_name module = true).

Definition view : Secrets.Store := store_for root module.

Definition view_holds (w : Machine (K := K)) (M : gmap string string) : Prop :=
  ∃ All, tracks dir fb All (root, w) ∧ ∀ k, M !! k = All !! (module, k).

Lemma view_get k w M : view_holds w M →
  let '(r, w') := store_get show debug view k w in
  view_holds w' M ∧ match r with
                    | Ok v => M !! k = Some v
                    | Err SecretNotFound => M !! k = None
                    | Err _ => True
                    end.
Proof.
  intros (All & Ht & HM). destruct (store_get show debug view k w) as [r w'] eqn:E.
  assert (SecretsProps.ask hex show debug root module (SecretsProps.Get k) w = ((let? v := r in Ok (Some v)), w')) as Ha.
  { unfold SecretsProps.ask, eff_bind, pure. fold view. rewrite E. by destruct r. }
  pose proof (SecretsProps.ask_tracks _ _ _ _ _ _ _ _ _ _ _ _ Hmodule Ht Ha) as Ht'. split; [by exists All; destruct r|].
  destruct Ht as (Hb & _ & Hv & _). cbn [fst snd] in Hb, Hv.
  destruct (view_key root module k Hmodule) as [Hk Hs]. revert E. unfold view, store_get. rewrite Hk.
  cbn [st_backend store_for namespaced]. rewrite Hb, on_disk_files. intros [= <- _].
  rewrite (fb_get_exact fb _ module k _ Hs Hv). destruct (Files.fault _ _); [done|].
  rewrite HM. by destruct (All !! (module, k)).
Qed.

Lemma view_set k v w M : view_holds w M →
  let '(r, w') := store_set hex show debug view k v w in
  view_holds w' (match r with Ok _ => <[k := v]> M | Err _ => M end).
Proof.
  intros (All & Ht & HM). destruct (store_set hex show debug view k v w) as [r w'] eqn:E.
  assert (SecretsProps.ask hex show debug root module (SecretsProps.Set_ k v) w = ((let? _ := r in Ok None), w')) as Ha.
  { unfold SecretsProps.ask, eff_bind, pure. fold view. rewrite E. by destruct r. }
  pose proof (SecretsProps.ask_tracks _ _ _ _ _ _ _ _ _ _ _ _ Hmodule Ht Ha) as Ht'. destruct r; eexists; (split; [exact Ht'|]);
    intros k'; simpl; [|done]. destruct (decide (k' = k)) as [->|]; [by rewrite !lookup_insert_eq|].
  rewrite !lookup_insert_ne by congruence. apply HM.
Qed.

Lemma view_delete k w M : view_holds w M →
  let '(r, w') := store_delete show debug view k w in
  view_holds w' (match r with Ok _ => delete k M | Err _ => M end).
Proof.
  intros (All & Ht & HM). destruct (store_delete show debug view k w) as [r w'] eqn:E.
  assert (SecretsProps.ask hex show debug root module (SecretsProps.Delete k) w = ((let? _ := r in Ok None), w')) as Ha.
  { unfold SecretsProps.ask, eff_bind, pure. fold view. rewrite E. by destruct r. }
  pose proof (SecretsProps.ask_tracks _ _ _ _ _ _ _ _ _ _ _ _ Hmodule Ht Ha) as Ht'. destruct r; eexists; (split; [exact Ht'|]);
    intros k'; simpl; [|done]. destruct (decide (k' = k)) as [->|]; [by rewrite !lookup_delete_eq|].
  rewrite !lookup_delete_ne by congruence. apply HM.
Qed.

Definition store_keeper : SecretKeeper (Machine (K := K)) :=
  {| sk_get := store_get show debug view; sk_set := store_set hex show debug view;
     sk_delete := store_delete show debug view; sk_holds := view_holds;
     sk_get_law := view_get; sk_set_law := view_set; sk_delete_law := view_delete |}.
End Keeper.

(** A store opened in a fresh directory holds nothing, for every module. *)
Lemma fresh_view_holds {Cipher : Aead} {K : Type} {Ring : Keyring K} (show : KeyringError → string)
    (dir : Hooks.Path) (module : string) (w w' : Machine (K := K)) (root : Secrets.Store) :
  Files.files (Secrets.dk_files (mc_disk w)) = ∅ → HooksFacts.quiet (Secrets.dk_files (mc_disk w)) →
  store_open (Secrets.mkConfig "" (FileOnly dir)) w = (Some (Ok root), w') →
  ∃ fb, view_holds dir root fb module w' ∅.
Proof.
  intros Hf Hq Ho. destruct (open_tracks dir w root w' Hf Hq Ho) as [fb Ht]. exists fb, ∅. split; [done|].
  intros k. by rewrite !lookup_empty.
Qed.

(** ** What is kept *)

Section Kept.
  Context {S : Type} `{!SecretKeeper S} {Crates : ProxyCrates} `{!Utf8}.
  Context (display : SecretError → string).

(** From a store holding [M], a call ends holding some [M'] related to its
    result. *)
Definition keeps {A} (m : eff S DesktopError A) (M : gmap string string)
    (Q : result A DesktopError → gmap string string → Prop) : Prop :=
  ∀ s, sk_holds s M → let '(r, s') := m s in ∃ M', sk_holds s' M' ∧ Q r M'.

Lemma keeps_bind {A B} (m : eff S DesktopError A) (k : A → eff S DesktopError B) M Q R :
  keeps m M R →
  (∀ a M', R (Ok a) M' → keeps (k a) M' Q) → (∀ e M', R (Err e) M' → Q (Err e) M') →
  keeps (eff_bind m k) M Q.
Proof.
  intros Hm Hk He s Hs. unfold eff_bind. specialize (Hm s Hs). destruct (m s) as [[a|e] s'];
    destruct Hm as (M' & Hs' & HR); [by apply (Hk a M')|]. exists M'. auto.
Qed.

Lemma keeps_pure {A} (r : result A DesktopError) M (Q : result A DesktopError → gmap string string → Prop) :
  Q r M → keeps (pure r) M Q.
Proof. intros HQ s Hs. exists M. auto. Qed.

Lemma keeps_weaken {A} (m : eff S DesktopError A) M (Q R : result A DesktopError → gmap string string → Prop) :
  keeps m M R → (∀ r M', R r M' → Q r M') → keeps m M Q.
Proof. intros Hm HRQ s Hs. specialize (Hm s Hs). destruct (m s). destruct Hm as (M' & ? & ?). eauto. Qed.

(** The error of a call of the store. *)
Definition keychain_error (e : DesktopError) : Prop := ∃ m, e = KeychainError m.

Lemma keeps_set what k v M :
  keeps (kept display what (sk_set k v)) M
    (λ r M', match r with Ok _ => M' = <[k := v]> M | Err e => M' = M ∧ keychain_error e end).
Proof.
  intros s Hs. unfold kept. pose proof (sk_set_law k v s M Hs) as Hk. destruct (sk_set k v s) as [[u|e] s'];
    eexists; (split; [exact Hk|]); simpl; [done|]. split; [done|by eexists].
Qed.

Lemma keeps_forget k M : keeps (forget k) M (λ r M', r = Ok () ∧ (M' = delete k M ∨ M' = M)).
Proof.
  intros s Hs. unfold forget. pose proof (sk_delete_law k s M Hs) as Hk. destruct (sk_delete k s) as [[u|e] s'];
    eexists; (split; [exact Hk|]); auto.
Qed.

Lemma keeps_get what k M :
  keeps (kept display what (sk_get k)) M
    (λ r M', M' = M ∧ match r with Ok v => M !! k = Some v | Err e => keychain_error e end).
Proof.
  intros s Hs. unfold kept. pose proof (sk_get_law k s M Hs) as Hk. destruct (sk_get k s) as [[v|e] s'];
    destruct Hk as [Hs' Hk]; exists M; (split; [done|]); simpl; (split; [done|]); [done|by eexists].
Qed.

(** The refresh token after it was set: the one given, or, when there is
    none, nothing unless forgetting the old one failed unnoticed. *)
Definition refreshed (given : option string) (M M' : gmap string string) : Prop :=
  match given with
  | Some refresh => M' = <[KEY_REFRESH_TOKEN := refresh]> M
  | None => M' = delete KEY_REFRESH_TOKEN M ∨ M' = M
  end.

Lemma keeps_refresh what given M :
  keeps (set_refresh display what given) M
    (λ r M', match r with Ok _ => refreshed given M M' | Err e => M' = M ∧ keychain_error e end).
Proof.
  destruct given as [refresh|]; simpl; [apply keeps_set|].
  eapply keeps_weaken; [apply keeps_forget|]. by intros r M' [-> Hk].
Qed.

(** What is in the store once a session was stored over [M]. *)
Definition stored_over (session : StoredSession) (M M' : gmap string string) : Prop :=
  ∃ M1, refreshed (ss_refresh_token session) (<[KEY_ACCESS_TOKEN := ss_access_token session]> M) M1 ∧
    M' = <[KEY_HUB_BASE_URL := ss_hub_base_url session]> M1.

(** Storing a session either stores all of it, or fails with the hub's address
    as it was: with nothing changed, or with the new access token next to the
    old address. *)
Lemma store_outcomes session M :
  keeps (store display session) M
    (λ r M', match r with
             | Ok _ => stored_over session M M'
             | Err e =>
                 M' !! KEY_HUB_BASE_URL = M !! KEY_HUB_BASE_URL ∧
                 (M' = M ∨ keychain_error e ∧ M' !! KEY_ACCESS_TOKEN = Some (ss_access_token session))
             end).
Proof.
  unfold store. eapply keeps_bind with (R := λ r M', M' = M).
  { by apply keeps_pure. }
  2: { by intros e M' ->; auto. }
  intros _ M' ->. eapply keeps_bind; [apply keeps_set| |by intros e M' [-> _]; auto].
  intros _ M' ->. assert (∀ M1, refreshed (ss_refresh_token session)
      (<[KEY_ACCESS_TOKEN := ss_access_token session]> M) M1 →
    M1 !! KEY_HUB_BASE_URL = M !! KEY_HUB_BASE_URL ∧ M1 !! KEY_ACCESS_TOKEN = Some (ss_access_token session)) as Hr.
  { unfold refreshed. intros M1. destruct (ss_refresh_token session); [intros ->|intros [->| ->]];
      rewrite ?lookup_delete_ne, ?lookup_insert_ne, ?lookup_insert_eq by done; done. }
  eapply keeps_bind; [apply keeps_refresh| |].
  - intros u M1 H1. eapply keeps_weaken; [apply keeps_set|]. intros [v|e] M2.
    + intros ->. by exists M1.
    + intros [-> He]. destruct (Hr M1 H1). auto.
  - intros e M' [-> He]. rewrite lookup_insert_ne, lookup_insert_eq by done. auto.
Qed.

Lemma keeps_text what k M :
  keeps (load_text display what k) M
    (λ r M', M' = M ∧ match r with
                      | Ok v => M !! k = Some v ∧ v ≠ ""
                      | Err e => keychain_error e ∨ e = Executor.NoSession ∧ M !! k = Some ""
                      end).
Proof.
  unfold load_text. eapply keeps_bind; [apply keeps_get| |by intros e M' [-> ?]; auto].
  intros v M' [-> Hv]. eapply keeps_bind with (R := λ r M', M' = M ∧ match r with Ok w => w = v | Err e => keychain_error e end).
  - apply keeps_pure. unfold from_utf8. destruct (is_utf8 v); [done|]. split; [done|by eexists].
  - intros w M' [-> ->]. apply keeps_pure. split; [done|]. case_decide; subst; auto.
  - intros e M' [-> ?]. auto.
Qed.

Lemma load_outcomes M :
  keeps (load display) M
    (λ r M', M' = M ∧
       match r with
       | Ok l => M !! KEY_ACCESS_TOKEN = Some (ss_access_token l) ∧ ss_access_token l ≠ "" ∧
                 M !! KEY_HUB_BASE_URL = Some (ss_hub_base_url l) ∧
                 (ss_refresh_token l = M !! KEY_REFRESH_TOKEN ∨ ss_refresh_token l = None)
       | Err e => keychain_error e ∨
                  e = Executor.NoSession ∧ (M !! KEY_ACCESS_TOKEN = Some "" ∨ M !! KEY_HUB_BASE_URL = Some "")
       end).
Proof.
  unfold load. eapply keeps_bind; [apply keeps_text| |by intros e M' [-> [?|[? ?]]]; auto].
  intros token M' [-> [Ht Hne]].
  eapply keeps_bind with (R := λ r M', M' = M ∧
    match r with Ok o => o = M !! KEY_REFRESH_TOKEN ∨ o = None | Err e => keychain_error e end).
  - intros s Hs. unfold load_refresh. pose proof (sk_get_law KEY_REFRESH_TOKEN s M Hs) as Hk.
    destruct (sk_get KEY_REFRESH_TOKEN s) as [[v|e] s']; destruct Hk as [Hs' Hk]; exists M; (split; [done|]); [|by auto].
    case_decide; [by auto|]. unfold from_utf8. destruct (is_utf8 v); simpl; [auto|]. split; [done|by eexists].
  - intros o M' [-> Ho]. eapply keeps_bind; [apply keeps_text| |by intros e M' [-> [?|[? ?]]]; auto].
    intros url M' [-> [Hu _]]. by apply keeps_pure.
  - intros e M' [-> ?]. auto.
Qed.
End Kept.

(** ** Signing in *)

Section SignIn.
  Context {S D : Type} `{!SecretKeeper S} `{!SessionApi D} {Crates : ProxyCrates} `{!Utf8} `{!LoginCrates} `{!Tonic}.
  Context (display : SecretError → string).

(** What keeping a session does: nothing but a store that may be torn, or all
    of it and then the call that primes the daemon. *)
Definition session_kept (session : StoredSession) (d : D) (M M' : gmap string string)
    (r : result unit DesktopError) (d' : D) : Prop :=
  let primed :=
    sa_set_user_session "v1" (ss_access_token session) (default "" (ss_refresh_token session))
      (ss_hub_base_url session) d in
  match r with
  | Ok _ => stored_over session M M' ∧ primed = (Ok (), d')
  | Err e =>
      stored_over session M M' ∧ (∃ status, primed = (Err status, d')) ∨
      d' = d ∧ M' !! KEY_HUB_BASE_URL = M !! KEY_HUB_BASE_URL ∧
      (M' = M ∨ keychain_error e ∧ M' !! KEY_ACCESS_TOKEN = Some (ss_access_token session))
  end.

Lemma keep_session_spec session s M :
  sk_holds (se_store s) M →
  let '(r, s') := keep_session display session s in
  ∃ M', sk_holds (se_store s') M' ∧ session_kept session (se_daemon s) M M' r (se_daemon s').
Proof.
  intros Hs. unfold keep_session, eff_bind, on_store.
  pose proof (store_outcomes display session M (se_store s) Hs) as Hst.
  destruct (store display session (se_store s)) as [[u|e] x]; destruct Hst as (M' & Hx & HM).
  - unfold set_user_session, on_daemon, session_kept. cbn [se_store se_daemon].
    destruct (sa_set_user_session _ _ _ _ _) as [[[]|status] d']; exists M'; simpl; (split; [done|]); [done|].
    left. eauto.
  - exists M'. simpl. split; [done|]. right. by split.
Qed.

(** The hub's answer to a sign-in is 200 with these tokens. *)
Definition grants (answer : result HttpResponse GrpcStatus) (tokens : string * option string) : Prop :=
  ∃ resp, answer = Ok resp ∧ wrap_u 16 (hp_status resp) = 200%Z ∧ tokens_of (hp_body resp) = Ok tokens.

(** C40: Signing in with a password.  Unless the hub answers 200 with tokens it
    fails, the store keeps what it had and the daemon is not primed.  When it
    succeeds, the store has the access token the hub gave, the address given,
    and the refresh token if the hub gave one (if not, that of an earlier
    session is gone, or stays when deleting it failed), and the daemon was
    primed with what the hub gave.  When the hub granted tokens and it still
    fails, either all that is stored and the daemon refused them, or the store
    failed: the daemon is not primed, the address is the old one, and next to
    it the store has what it had or already the new access token. *)
Theorem login_keeps_what_it_primed (hub_url email password body : string) (s : Session S D) (M : gmap string string) :
  json_to_vec (JObject [("email", JString email); ("password", JString password)]) = Ok body →
  sk_holds (se_store s) M →
  let '(answer, d) := sa_proxy_request "v1" (login_request body) (se_daemon s) in
  let '(r, s') := login display hub_url email password s in
  ∃ M', sk_holds (se_store s') M' ∧
    ((∃ tokens, grants answer tokens ∧
        session_kept (mkStoredSession tokens.1 tokens.2 hub_url) d M M' r (se_daemon s')) ∨
     (∀ tokens, ¬ grants answer tokens) ∧ (∃ e, r = Err e) ∧ M' = M ∧ se_daemon s' = d).
Proof.
  intros Hbody Hs. unfold login. rewrite Hbody. unfold eff_bind at 1, pure at 1. simpl.
  unfold proxy_request, on_daemon, eff_bind, pure.
  destruct (sa_proxy_request _ _ _) as [[resp|status] d]; simpl.
  2: { exists M. split; [done|]. right. split; [by intros t (? & ? & _)|]. eauto. }
  destruct (wrap_u 16 (hp_status resp) =? 200)%Z eqn:E200; simpl.
  2: { exists M. split; [done|]. right. apply Z.eqb_neq in E200. split; [|by eauto]. by intros t (? & [= <-] & ? & _). }
  destruct (tokens_of (hp_body resp)) as [tokens|e] eqn:Et; simpl.
  2: { exists M. split; [done|]. right. split; [|by eauto]. intros t (? & [= <-] & _ & ?). congruence. }
  pose proof (keep_session_spec (mkStoredSession tokens.1 tokens.2 hub_url) (mkSession (se_store s) d) M Hs) as Hk.
  destruct (keep_session _ _ _) as [r s']. destruct Hk as (M' & Hs' & Hk). exists M'. split; [done|]. left.
  apply Z.eqb_eq in E200. exists tokens. split; [by exists resp|done].
Qed.

(** Signing in through a provider succeeds only for a callback that carries
    the state given out, takes the tokens from its claims unchecked, and keeps
    the address of the session there was. *)
Theorem oauth_needs_a_session (params : CallbackParams) (stored_state : string) (s : Session S D) (M : gmap string string) :
  sk_holds (se_store s) M →
  let '(r, s') := oauth_complete display params stored_state s in
  ∃ M', sk_holds (se_store s') M' ∧
    ((∃ tokens url, cb_state params = stored_state ∧ extract_tokens_from_jwt (cb_token params) = Ok tokens ∧
        is_Some (M !! KEY_ACCESS_TOKEN) ∧ M !! KEY_HUB_BASE_URL = Some url ∧
        session_kept (mkStoredSession (ot_access_token tokens) (ot_refresh_token tokens) url) (se_daemon s) M M' r
          (se_daemon s')) ∨
     (∃ e, r = Err e) ∧ M' = M ∧ se_daemon s' = se_daemon s).
Proof.
  intros Hs. unfold oauth_complete, complete_oauth, verify_oauth_state, eff_bind, pure.
  destruct (String.eqb_spec (cb_state params) stored_state) as [Hstate|]; simpl; [|by exists M; eauto 10].
  destruct (extract_tokens_from_jwt _) as [tokens|e] eqn:Et; simpl; [|by exists M; eauto 10].
  unfold on_store. pose proof (load_outcomes display M (se_store s) Hs) as Hl.
  destruct (load display (se_store s)) as [[l|e] x]; destruct Hl as (? & Hx & -> & Hl); [|by exists M; eauto 10].
  destruct Hl as (Ha & _ & Hu & _).
  pose proof (keep_session_spec (mkStoredSession (ot_access_token tokens) (ot_refresh_token tokens) (ss_hub_base_url l))
    (mkSession x (se_daemon s)) M Hx) as Hk.
  destruct (keep_session _ _ _) as [r s']. destruct Hk as (M' & Hs' & Hk). exists M'. split; [done|]. left.
  exists tokens, (ss_hub_base_url l). eauto 10.
Qed.

(** Signing out always reports success, never tells the daemon, and leaves in
    the store whatever could not be deleted. *)
Theorem logout_tells_nobody (s : Session S D) (M : gmap string string) :
  sk_holds (se_store s) M →
  let '(r, s') := logout s in
  r = Ok () ∧ se_daemon s' = se_daemon s ∧
  ∃ M', sk_holds (se_store s') M' ∧ M' ⊆ M ∧
    dom M ∖ {[KEY_ACCESS_TOKEN; KEY_REFRESH_TOKEN; KEY_HUB_BASE_URL]} ⊆ dom M'.
Proof.
  intros Hs. unfold logout, on_store, clear, eff_bind.
  pose proof (keeps_forget KEY_ACCESS_TOKEN M (se_store s) Hs) as Hd1.
  destruct (forget KEY_ACCESS_TOKEN (se_store s)) as [r1 x1]. destruct Hd1 as (M1 & Hx1 & -> & Hd1).
  pose proof (keeps_forget KEY_REFRESH_TOKEN M1 x1 Hx1) as Hd2.
  destruct (forget KEY_REFRESH_TOKEN x1) as [r2 x2]. destruct Hd2 as (M2 & Hx2 & -> & Hd2).
  pose proof (keeps_forget KEY_HUB_BASE_URL M2 x2 Hx2) as Hd3.
  destruct (forget KEY_HUB_BASE_URL x2) as [r3 x3]. destruct Hd3 as (M3 & Hx3 & -> & Hd3).
  simpl. split; [done|]. split; [done|]. exists M3. split; [done|].
  assert (∀ (A B : gmap string string) k, B = delete k A ∨ B = A → B ⊆ A ∧ dom A ∖ {[k]} ⊆ dom B) as Hdel.
  { intros A B k [->| ->]; [|set_solver]. split; [apply delete_subseteq|]. by rewrite dom_delete_L. }
  apply Hdel in Hd1 as [? ?], Hd2 as [? ?], Hd3 as [? ?]. split; [by etrans; [|etrans]|]. set_solver.
Qed.
End SignIn.

(** ** The daemon behind the connection *)

Section Behind.
  Context {W : Type} {Crates : ProxyCrates} {Codec : ActionCodec} (debug : string → string).
  (** What the hub answers in the end, given everything sent so far. *)
  Context (hub : list SessionProxy.Event → SessionProxy.Answer).

Abbreviation Daemon := (DesktopService.Desk (W := W)).

(** The reply to request [k] of proxy [i], once the hub has answered; a
    request has five phases at most. *)
Fixpoint reply (fuel : nat) (i k : nat) (d : Daemon) : result HttpResponse GrpcStatus * Daemon :=
  match fuel with
  | O => (Err (mkGrpcStatus DeadlineExceeded "request timed out"), d)
  | S fuel =>
      match de_proxies d !! i with
      | Some s =>
          match snd <$> sy_tasks s !! k with
          | Some (Finished r) => (proxy_reply r, d)
          | Some Retrying => reply fuel i k (desk_step debug d (TaskResumes i k))
          | Some _ => reply fuel i k (desk_step debug d (HubAnswers i k (hub (sy_trace s))))
          | None => (Err (mkGrpcStatus InternalError "no such request"), d)
          end
      | None => (Err (mkGrpcStatus InternalError "no such request"), d)
      end
  end.

Definition proxied (v : string) (req : HttpRequest) (d : Daemon) : result HttpResponse GrpcStatus * Daemon :=
  match proxy_request_rpc debug v req d with
  | (Err e, d) => (Err e, d)
  | (Ok (i, k), d) => reply 5 i k d
  end.

Instance desk_api : SessionApi Daemon := {|
  sa_proxy_request := proxied;
  sa_set_user_session := set_user_session_rpc debug;
  sa_bridge_action := execute_bridge_action_rpc debug;
|}.

(** The proxy the daemon serves has no session. *)
Definition without_session (d : Daemon) : Prop :=
  ∀ i s, de_session_registry d = Some i → de_proxies d !! i = Some s → px_credentials (sy_proxy s) = None.

Lemma reply_finished fuel i k d s req r :
  de_proxies d !! i = Some s → sy_tasks s !! k = Some (req, Finished r) →
  reply (S fuel) i k d = (proxy_reply r, d).
Proof. intros Hi Hk. cbn [reply]. by rewrite Hi, Hk. Qed.

Lemma registered_is_there n (d : Daemon) i s :
  registered_proxy n d = Ok (i, s) → de_session_registry d = Some i ∧ de_proxies d !! i = Some s.
Proof.
  unfold registered_proxy. destruct (module_loaded n d); simpl; [|done].
  destruct (de_session_registry d) as [j|]; simpl; [|done].
  destruct (de_proxies d !! j) as [sy|] eqn:Es; simpl; [|done]. by intros [= <- <-].
Qed.

(** A request the daemon takes: the proxy and its request, now under way. *)
Lemma proxied_taken v req d i s :
  check_api_version debug v = Ok () → registered_proxy waddlebot d = Ok (i, s) →
  proxied v req d =
    reply 5 i (length (sy_tasks s)) (set_proxies (<[i := perform s (Forward req)]> (de_proxies d)) d).
Proof.
  intros Hv Hr. unfold proxied, proxy_request_rpc, eff_bind, pure, answered, DesktopService.proxy_request.
  by rewrite Hv, Hr.
Qed.

Lemma proxied_without_session v req d :
  without_session d → let '(r, d') := proxied v req d in (∃ status, r = Err status) ∧ without_session d'.
Proof.
  intros Hd. destruct (check_api_version debug v) as [[]|e] eqn:Ev.
  2: { unfold proxied, proxy_request_rpc, eff_bind, pure. rewrite Ev. eauto. }
  destruct (registered_proxy waddlebot d) as [[i s]|e] eqn:Er.
  2: { unfold proxied, proxy_request_rpc, eff_bind, pure, answered, DesktopService.proxy_request.
       rewrite Ev, Er. simpl. eauto. }
  rewrite (proxied_taken _ _ _ _ _ Ev Er). apply registered_is_there in Er as [Ej Es].
  pose proof (Hd _ _ Ej Es) as Hnone. assert (i < length (de_proxies d)) as Hi by (by eapply lookup_lt_Some).
  erewrite reply_finished; [|by apply list_lookup_insert_eq|].
  2: { simpl. unfold with_session. rewrite Hnone. by apply list_lookup_middle. }
  split; [by eexists|]. intros j s1 Hj. simpl in Hj. rewrite Ej in Hj. injection Hj as <-. simpl.
  rewrite list_lookup_insert_eq by done. by intros [= <-].
Qed.

Lemma perform_appends s a : ∃ more, sy_trace (perform s a) = sy_trace s ++ more.
Proof.
  destruct a; simpl; try (by exists []; rewrite app_nil_r).
  - destruct (set_session _ _ _ _) as [[]]; simpl; [by eexists|]. exists []. by rewrite app_nil_r.
  - by eexists.
  - destruct (sy_tasks s !! task) as [[req ph]|]; [|by exists []; rewrite app_nil_r].
    destruct (waiting ph && _); [by eexists|]. exists []. by rewrite app_nil_r.
  - destruct (sy_tasks s !! task) as [[req [| | |]]|]; try (by exists []; rewrite app_nil_r); [by eexists|].
    destruct (after_refresh _ _ _). by eexists.
  - destruct (sy_tasks s !! task) as [[req [| | |]]|]; try (by exists []; rewrite app_nil_r). by eexists.
Qed.

Lemma on_proxy_appends i a (d : Daemon) s :
  de_proxies d !! i = Some s →
  ∃ s' more, de_proxies (on_proxy i a d) !! i = Some s' ∧ sy_trace s' = sy_trace s ++ more.
Proof.
  intros Hi. destruct (perform_appends s a) as [more Hm]. exists (perform s a), more. split; [|done].
  simpl. by rewrite list_lookup_alter_eq, Hi.
Qed.

Lemma reply_appends fuel i k (d : Daemon) s :
  de_proxies d !! i = Some s →
  ∃ s' more, de_proxies (reply fuel i k d).2 !! i = Some s' ∧ sy_trace s' = sy_trace s ++ more.
Proof.
  revert d s. induction fuel as [|fuel IH]; intros d s Hi; cbn [reply].
  { exists s, []. by rewrite app_nil_r. }
  rewrite Hi. assert (∀ a, ∃ s' more, de_proxies (reply fuel i k (on_proxy i a d)).2 !! i = Some s' ∧
    sy_trace s' = sy_trace s ++ more) as Hon.
  { intros a. destruct (on_proxy_appends i a d s Hi) as (s1 & m1 & H1 & Hm1).
    destruct (IH _ _ H1) as (s2 & m2 & H2 & Hm2). exists s2, (m1 ++ m2). by rewrite Hm2, Hm1, app_assoc. }
  destruct (snd <$> sy_tasks s !! k) as [[]|]; try (exists s, []; by rewrite app_nil_r); apply Hon.
Qed.

(** Where a request of a signed-in client goes: to the hub the daemon's
    session is for, with that session's token. *)
Lemma proxied_is_sent v req d i s creds o :
  check_api_version debug v = Ok () → registered_proxy waddlebot d = Ok (i, s) →
  px_credentials (sy_proxy s) = Some creds → prepare_request creds req = Ok o →
  ∃ s' more, de_proxies (proxied v req d).2 !! i = Some s' ∧
    sy_trace s' = sy_trace s ++ Sent (length (sy_tasks s)) creds o :: more.
Proof.
  intros Hv Hr Hc Ho. rewrite (proxied_taken _ _ _ _ _ Hv Hr). apply registered_is_there in Hr as [_ Hi].
  set (d1 := set_proxies _ d).
  assert (∃ s1, de_proxies d1 !! i = Some s1 ∧ sy_trace s1 = sy_trace s ++ [Sent (length (sy_tasks s)) creds o])
    as (s1 & H1 & Ht1).
  { eexists. split; [apply list_lookup_insert_eq; by eapply lookup_lt_Some|]. simpl. unfold with_session.
    rewrite Hc. unfold send_request. by rewrite Ho. }
  destruct (reply_appends 5 i (length (sy_tasks s)) d1 s1 H1) as (s' & more & Hs' & Hm). exists s', more. split; [done|].
  by rewrite Hm, Ht1, <- app_assoc.
Qed.
End Behind.

(** ** The client and the daemon together *)

Section Together.
  Context {S W : Type} `{!SecretKeeper S} {Crates : ProxyCrates} {Codec : ActionCodec}
    `{!Utf8} `{!LoginCrates} `{!Tonic}.
  Context (display : SecretError → string) (debug : string → string).
  Context (hub : list SessionProxy.Event → SessionProxy.Answer).

Abbreviation Client := (Session S (DesktopService.Desk (W := W))).

#[local] Existing Instance desk_api.

Inductive UserCall :=
| Login (hub_url email password : string)
| OAuthStart (hub_url : string) (platform : OAuthPlatform)
| OAuthComplete (params : CallbackParams) (stored_state : string)
| ApiCall (method path : string) (body : option string)
| BridgeCall (module_name : string) (req : BridgeAction.BridgeActionRequest)
| Logout
| HasSession.

(** The error of a call, and the client after it. *)
Definition failed {A} (r : result A DesktopError * Client) : option DesktopError * Client :=
  (match r.1 with Ok _ => None | Err e => Some e end, r.2).

#[local] Instance daemon : SessionApi (DesktopService.Desk (W := W)) := desk_api debug hub.

Definition user_call (c : UserCall) (s : Client) : option DesktopError * Client :=
  match c with
  | Login hub_url email password => failed (login display hub_url email password s)
  | OAuthStart hub_url platform => failed (oauth_start hub_url platform s)
  | OAuthComplete params stored_state => failed (oauth_complete display params stored_state s)
  | ApiCall method path body => failed (api_request method path body s)
  | BridgeCall module_name req => failed (execute_bridge_action module_name req s)
  | Logout => failed (logout s)
  | HasSession => (None, (has_existing_session s).2)
  end.

Definition user_calls (l : list UserCall) (s : Client) : Client := foldl (λ s c, (user_call c s).2) s l.

(** No token is kept and the daemon has no session. *)
Definition signed_out (s : Client) : Prop :=
  (∃ M, sk_holds (se_store s) M ∧ M !! KEY_ACCESS_TOKEN = None) ∧ without_session (se_daemon s).

Definition signs_in (c : UserCall) : Prop :=
  match c with Login _ _ _ | OAuthComplete _ _ => True | _ => False end.

Lemma signed_out_call c s :
  signed_out s →
  let '(e, s') := user_call c s in signed_out s' ∧ (signs_in c → e ≠ None).
Proof.
  intros [(M & HM & Hno) Hd]. destruct c as [url email pw|url p|params state|method path body|n req| |]; cbn [user_call].
  - unfold failed, login, eff_bind at 1, pure at 1.
    destruct (json_to_vec _) as [bytes|e]; simpl; [|by split; [split; [exists M|]|]].
    unfold proxy_request, on_daemon, eff_bind, pure.
    pose proof (proxied_without_session debug hub "v1" (login_request bytes) (se_daemon s) Hd) as Hp.
    simpl. destruct (proxied _ _ _ _ _) as [r d']. destruct Hp as [[status ->] Hd']. simpl.
    split; [|done]. by split; [exists M|].
  - split; [|done]. by split; [exists M|].
  - pose proof (oauth_needs_a_session display params state s M HM) as Ho. unfold failed.
    destruct (oauth_complete _ _ _ s) as [r s']. destruct Ho as (M' & HM' & [Hin|([e ->] & -> & Hs)]).
    + destruct Hin as (? & ? & _ & _ & [? Hm] & _). congruence.
    + simpl. split; [|done]. split; [by exists M|]. by rewrite Hs.
  - split; [|done]. unfold failed, api_request, proxy_request, on_daemon, eff_bind, pure.
    pose proof (proxied_without_session debug hub "v1" (mkHttpRequest method path content_type (default "" body))
      (se_daemon s) Hd) as Hp. simpl.
    destruct (proxied _ _ _ _ _) as [r d']. destruct Hp as [[status ->] Hd']. simpl. by split; [exists M|].
  - split; [|done]. unfold failed, execute_bridge_action, on_daemon. simpl.
    assert (de_session_registry (execute_bridge_action_rpc debug "v1" n req (se_daemon s)).2 =
        de_session_registry (se_daemon s) ∧
      de_proxies (execute_bridge_action_rpc debug "v1" n req (se_daemon s)).2 = de_proxies (se_daemon s)) as [Hr Hp].
    { unfold execute_bridge_action_rpc, eff_bind, pure, answered, DesktopService.execute_bridge_action.
      destruct (check_api_version _ _); [|done]. destruct (result_bind _ _); [|done]. by destruct (BridgeAction.execute _ _ _). }
    destruct (execute_bridge_action_rpc _ _ _ _ _) as [r d']. simpl in *. split; [by exists M|].
    intros i x. simpl. rewrite Hr, Hp. apply Hd.
  - split; [|done]. pose proof (logout_tells_nobody s M HM) as Hl. unfold failed.
    destruct (logout s) as [r s']. destruct Hl as (_ & Hs & M' & HM' & Hsub & _). simpl. split; [|by rewrite Hs].
    exists M'. split; [done|]. destruct (M' !! KEY_ACCESS_TOKEN) as [t|] eqn:Et; [|done].
    pose proof (lookup_weaken _ _ _ _ Et Hsub). congruence.
  - split; [|done]. unfold has_existing_session, has_session.
    pose proof (sk_get_law KEY_ACCESS_TOKEN (se_store s) M HM) as Hg.
    destruct (sk_get _ _) as [r x]. destruct Hg as [Hx _]. by split; [exists M|].
Qed.

(** C39: Nobody can sign in for the first time.  A password is sent to the hub
    through the daemon's proxy, which serves no request without a session, and
    a provider's callback is only completed over a stored session: whatever a
    user who is signed out does, every attempt to sign in fails and the user
    stays signed out. *)
Theorem first_sign_in_impossible (calls : list UserCall) (s : Client) :
  signed_out s →
  let s' := user_calls calls s in
  signed_out s' ∧ ∀ c, signs_in c → (user_call c s').1 ≠ None.
Proof.
  intros Hs. assert (signed_out (user_calls calls s)) as Hs'.
  { unfold user_calls. revert s Hs. induction calls as [|c calls IH]; intros s Hs; [done|]. apply IH.
    pose proof (signed_out_call c s Hs) as Hc. destruct (user_call c s). by destruct Hc. }
  split; [done|]. intros c Hc. pose proof (signed_out_call c _ Hs') as H'.
  destruct (user_call c _). destruct H' as [_ H']. auto.
Qed.

(** A user who is signed in and signs in at another hub sends the new
    password, with the old token, to the old one: the request goes to the hub
    of the daemon's session and does not depend on the address given. *)
Theorem password_goes_to_the_old_hub (hub_url email password body : string) (s : Client) i p creds url :
  json_to_vec (JObject [("email", JString email); ("password", JString password)]) = Ok body → body ≠ "" →
  registered_proxy waddlebot (se_daemon s) = Ok (i, p) → px_credentials (sy_proxy p) = Some creds →
  url_join (sc_hub_base_url creds) "/api/v1/auth/login" = Ok url →
  url_host_str url = url_host_str (sc_hub_base_url creds) → url_scheme url = url_scheme (sc_hub_base_url creds) →
  ∃ p' more, de_proxies (se_daemon (login display hub_url email password s).2) !! i = Some p' ∧
    sy_trace p' = sy_trace p ++
      Sent (length (sy_tasks p)) creds
        (ToHub "POST" url ("Bearer " +:+ sc_access_token creds) content_type (Some body)) :: more.
Proof.
  intros Hbody Hne Hr Hc Hj Hh Hsch.
  assert (prepare_request creds (login_request body) =
    Ok (ToHub "POST" url ("Bearer " +:+ sc_access_token creds) content_type (Some body))) as Hp.
  { unfold prepare_request.
    change (validate_request_path (hq_path (login_request body))) with (Ok () : result unit SessionProxyError).
    simpl. rewrite Hj. simpl. rewrite Hh, Hsch, !bool_decide_eq_true_2 by done. simpl. by rewrite decide_False by done. }
  destruct (proxied_is_sent debug hub "v1" (login_request body) _ i p creds _ eq_refl Hr Hc Hp) as (p1 & m1 & Hp1 & Hm1).
  unfold login. rewrite Hbody. unfold eff_bind at 1, pure at 1.
  unfold proxy_request, on_daemon, eff_bind, pure. simpl.
  destruct (proxied _ _ _ _ _) as [[resp|status] d1]; simpl in Hp1 |- *; [|by eauto].
  destruct (wrap_u 16 (hp_status resp) =? 200)%Z; simpl; [|by eauto].
  destruct (tokens_of (hp_body resp)) as [tokens|e]; simpl; [|by eauto].
  unfold keep_session, eff_bind, on_store. simpl. destruct (store _ _ _) as [[[]|e] x]; simpl; [|by eauto].
  unfold set_user_session, on_daemon. simpl.
  destruct (desk_step_proxy debug d1 (RpcSetSession "v1" tokens.1 (default "" tokens.2) hub_url) i p1 Hp1)
    as (p2 & Hp2 & Hstep). simpl in Hp2.
  destruct (set_user_session_rpc _ _ _ _ _ _) as [r d2]. simpl in Hp2 |- *. exists p2.
  destruct Hstep as [->|(a & _ & ->)]; [by eauto|]. destruct (perform_appends p1 a) as [m2 Hm2].
  exists (m1 ++ m2). split; [done|]. by rewrite Hm2, Hm1, <- app_assoc.
Qed.
End Together.

(** ** A client at work *)

Module LoginWitness.
Import Fake.

#[local] Instance urls : UrlCrate := {|
  Url := string;
  url_parse s := if decide (s = "") then Err "empty" else Ok s;
  url_scheme _ := "https";
  url_host_str u := Some u;
  url_path _ := "/";
  url_set_path _ u := u;
  url_to_string u := u;
|}.

#[local] Instance crates : ProxyCrates := {|
  url_join u path := Ok u;
  status_text := pretty;
  SessionProxy.json_from_slice s := Ok (JObject [("access_token", JString s)]);
|}.

#[local] Instance actions : ActionCodec := {|
  BridgeAction.value_from_slice s := Ok (JString s);
  BridgeAction.value_to_vec v := Ok "";
  BridgeAction.from_utf8_lossy s := s;
|}.

#[local] Instance texts : Utf8 := {| SysResolver.from_utf8_lossy s := s; is_utf8 _ := true |}.
#[local] Instance tonic : Tonic := {| status_display := gs_message; debug_str := id |}.

#[local] Instance login_crates : LoginCrates := {|
  random_state := Ok "s";
  base64url s := s;
  urlencode s := s;
  insecure_decode _ := Err "not a token";
  json_to_vec _ := Ok "{}";
|}.

(** A store that never fails. *)
#[local] Program Instance keeper : SecretKeeper (gmap string string) := {|
  sk_get k m := (ok_or (m !! k) SecretNotFound, m);
  sk_set k v m := (Ok (), <[k := v]> m);
  sk_delete k m := (Ok (), delete k m);
  sk_holds m M := m = M;
|}.
Next Obligation. intros k s M ->. simpl. split; [done|]. by destruct (M !! k). Qed.
Next Obligation. by intros k v s M ->. Qed.
Next Obligation. by intros k s M ->. Qed.

Definition display (e : SecretError) : string := "secret".

Definition sup : Sup FakeWorld :=
  (Supervisor.load (Supervisor.mkConfig {[waddlebot := info waddlebot]} 3 10 100 None) waddlebot (new good)).2.

Definition outside : BridgeAction.World :=
  BridgeAction.mkWorld [] (λ _ _ _, Ok JNull) (λ _ _, PostTimedOut) (λ _ _, None).

Definition desk_with (creds : option SessionCredentials) : DesktopService.Desk :=
  DesktopService.mkDesk sup [mkSystem (mkProxy creds false) [] []] (Some 0) None outside.

Definition hub (sent : list SessionProxy.Event) : SessionProxy.Answer := Answered 200 [] (Ok "new").

Definition old_session : SessionCredentials := mkCredentials "old" None ("hub-a" : @Url urls).

Definition client (creds : option SessionCredentials) : Session (gmap string string) (DesktopService.Desk (W := FakeWorld)) :=
  mkSession ∅ (desk_with creds).

#[local] Instance served_daemon : SessionApi (DesktopService.Desk (W := FakeWorld)) := desk_api id hub.

Definition after_login := login display "hub-b" "a@b" "pw" (client (Some old_session)).

Lemma login_keeps_what_it_primed_witness : ∃ M', sk_holds (se_store after_login.2) M'.
Proof.
  pose proof (login_keeps_what_it_primed display "hub-b" "a@b" "pw" "{}" (client (Some old_session)) ∅ eq_refl eq_refl) as H.
  fold after_login in H. destruct (sa_proxy_request _ _ _) as [answer d]. destruct after_login as [r s'].
  destruct H as (M' & HM & _). by exists M'.
Defined.

Lemma first_sign_in_impossible_witness :
  (user_call display id hub (Login "hub-b" "a@b" "pw") (client None)).1 ≠ None.
Proof.
  refine (proj2 (first_sign_in_impossible display id hub [] (client None) _) (Login "hub-b" "a@b" "pw") I).
  split; [by exists ∅|]. intros i s Hi Hs. injection Hi as <-. by injection Hs as <-.
Defined.

Lemma password_goes_to_the_old_hub_witness :
  ∃ p' more, de_proxies (se_daemon after_login.2) !! 0 = Some p' ∧
    sy_trace p' = Sent 0 old_session (ToHub "POST" "hub-a" "Bearer old" content_type (Some "{}")) :: more.
Proof.
  exact (password_goes_to_the_old_hub display id hub "hub-b" "a@b" "pw" "{}" (client (Some old_session)) 0
    (mkSystem (mkProxy (Some old_session) false) [] []) old_session "hub-a" eq_refl ltac:(done) eq_refl eq_refl
    eq_refl eq_refl eq_refl).
Defined.

(** The new token is then kept for the new hub, and the daemon primed with it. *)
Example old_hub_names_the_token :
  after_login.1 = Ok () ∧ se_store after_login.2 = {[KEY_ACCESS_TOKEN := "new"; KEY_HUB_BASE_URL := "hub-b"]}.
Proof. vm_compute. done. Qed.
End LoginWitness.
